(* ===== verification/_CoqProject ===== *)
-Q . S2P
Prelude.v
Triple.v
Md5.v
Wire.v
Frame.v
Dns.v
Os.v
TmsState.v
TmsAccount.v
TmsNet.v
TmsProto.v
TmsInv.v
TmsProps.v
DpiMeter.v
DpiNet.v
DpiProps.v
LruTable.v
LruCache.v
LruInv.v
LruOps.v
LruShard.v
LruProps.v
DpiCache.v
Recorder.v
RedisConn.v
RedisPool.v
RecorderPool.v
TsQueue.v
TsQueueProps.v
CoTimer.v
CoSched.v
CoSchedInv.v
CoSchedProps.v
CoLocks.v
SdkEnv.v
SdkHttp.v
SdkState.v
SdkNet.v
SdkInv.v
SdkRelay.v
SdkProps.v
SdkApi.v
SdkPages.v
SdkTls.v
System.v
