(* ===== verification/Prelude.v ===== *)
(** * Verification of the https tunnel proxy

    The repository holds four C++ programs that together carry the web traffic of a
    phone through a metered tunnel.

    - The _sdk_ (src/sdk/sdk) runs on the phone.  It accepts the connections of the
      browser, finds the host in the HTTP request or CONNECT line, opens a tunnel to
      the tunnel server, logs in and relays.
    - The _tunnel server_, tms (src/tms/tms), accepts tunnels, has the token checked,
      resolves the host, connects to it and relays; it counts the bytes of every
      stream and cuts a user off whose balance is used up.
    - The _dpi_ (src/ic-dpi/ic-dpi) meters the packets of each user with libpcap in
      one thread and talks to the recorder in another.
    - The _recorder_, trafficRecorder (src/trafficRecorder/trafficRecorder), keeps
      tokens and balances in Redis and answers token queries and traffic reports in
      coroutines of libgo.

    They exchange packed structs (TMSMessage.h) in frames of a 6 byte header and a
    body.

    ** How the code is modelled

    A component's state is a record with the fields of the C++ objects; objects live
    on heaps indexed by pointers, so that aliasing, a null dereference and a use
    after delete are visible.  An operation is a function in the monad [M S A :=
    S → result (A * S)] of this file, whose [Bad] results are the faults of C++
    ([NullDeref], [UseAfterFree], [OutOfBounds], [Aborted]) and [OutOfFuel], the end
    of a loop's bound.  Integers are [Z] with the wrap-around of their type written
    out ([u16], [u32], [u64], [i32], [i64]); bytes are integers below 256.  System
    calls take their results from the environment [os] of Os.v: what arrives on each
    socket, how much each write accepts, which connections succeed, the time; the
    theorems hold for every environment.

    ** The files

    - Prelude.v: record update, machine integers, bytes, C strings and numbers, the
      monad, tactics and hints.  Triple.v: Hoare triples for the monad.
    - Md5.v: class MD5 (src/sdk/sdk/md5.cpp) and RFC 1321.
    - Wire.v: the structs of TMSMessage.h as instances of [Packed].
    - Frame.v: the framing of SendTmsMsg and the receive loop StreamRecvEvent.
    - Os.v: sockets, epoll and the clock.
    - Dns.v: the DNS query, answer parser and cache of DnsCache.cpp, IpOrHost.
    - TmsState.v, TmsAccount.v: Connect, SCB, User (ConnectMgr.h, SCB.h, UserMgr.h)
      and the accounting of SCB.h and UserMgr.cpp.
    - TmsNet.v, TmsProto.v: ConnectMgr.cpp and main.cpp of the server: connections,
      message handlers, relaying, the event loop.
    - TmsInv.v, TmsProps.v: the invariants of the server and the behaviour of its
      handlers.
    - DpiMeter.v: LvldbMgr.cpp as sequential functions and as two threads that
      interleave at single memory accesses; the cache of leveldb is an interface.
    - LruTable.v, LruCache.v: the hash function (hash.cc), the hash table and one
      shard of the LRU cache of leveldb (src/ic-dpi/ic-leveldb/util/cache.cc), with
      its entries on a heap.  LruInv.v, LruOps.v: representation of the lists, the
      table and the reference counts, and what each operation does to it.
      LruShard.v: the sixteen shards.  LruProps.v: the cache under any sequence of
      calls.  DpiCache.v: the cache implements the interface of DpiMeter.v.
    - DpiNet.v, DpiProps.v: PcapModule.cpp, ConnectMgr.cpp and main.cpp of the dpi.
    - Recorder.v: the handlers of TRNet.cpp as programs that interleave at their
      Redis commands, over the interface [RedisDb].
    - RedisConn.v: class RedisConnect over the interface [Hiredis].
    - RedisPool.v: the pool of connections, with the channels and signals of libgo it
      is built on; coroutines are suspended and woken in any order.
    - RecorderPool.v: the pool implements [RedisDb], so the handlers' theorems hold
      over it.
    - TsQueue.v: the intrusive queue of libgo (ts_queue.h), its elements on a heap with
      their reference counts (util.h), and Processer::StealHalf.  TsQueueProps.v: the
      queue and the lists taken from it against plain lists.
    - CoTimer.v: the timers of libgo (timer.cpp).
    - CoSched.v: the scheduler with one thread (scheduler.cpp, processer.cpp,
      sleep_wait.cpp, block_object.cpp, task.cpp); the programs of the coroutines are
      trees that yield, sleep, wait, signal, start others, return or throw.
      CoSchedInv.v: its invariant, preserved by every operation.  CoSchedProps.v: what
      follows for every sequence of turns and calls.
    - CoLocks.v: the mutex and the readers-writer lock of libgo (co_mutex.cpp,
      co_rwmutex.cpp), used by coroutines whose accesses interleave in any order.
    - SdkEnv.v: settings and accounting (SdkEnv.cpp, YMEDataTypes.h).
    - SdkHttp.v: the request and reply parsers of the sdk's ConnectMgr.cpp.
    - SdkState.v, SdkNet.v: Connect, ConnectMgr, the recycler (Recycler.cpp) and the
      main loop (SdkMainloop.cpp) of the sdk.
    - SdkInv.v, SdkRelay.v, SdkProps.v: memory safety of the sdk, the relay to the
      browser, login.
    - SdkApi.v: the calls of the application (SdkEnv.cpp).
    - SdkPages.v: the page cache, SdkTls.v: the TLS hello parser (YMEUtils.cpp).
    - System.v: sdk, server and recorder composed along the messages of a login.

    ** What is proved

    Protocol: every struct is typed and decodes what was encoded; any cutting of the
    byte stream into arrivals delivers the framed messages; the login request of the
    sdk decodes to what was given.

    Server: the connection table holds live connections only, in every reachable
    state; every batch of events is processed without running out of fuel; upload
    and download are relayed byte for byte and charged; a stream is taken down as a
    whole; a wrong token disconnects; traffic is conserved between streams, users
    and reports.

    Dpi: the two threads lose and invent no traffic in any interleaving (under the
    conditions of the theorem), at most one report is open per user, the threads
    refine the sequential functions, and no deleted connection is used.  The LRU
    cache refines a finite map, evicts the oldest entries and no more than it must,
    and hands each value to its deleter once; with the capacity the dpi gives it, it
    keeps every record of up to 6250 addresses, so that what is proved of the
    threads holds on the real cache.

    Recorder: the token verdict refines its specification, reports are answered
    once and settle the balance, Redis contexts are neither leaked nor used after
    they were freed, the pool hands no connection out twice and forgets no waiting
    coroutine, and all of this composes.

    Coroutines: the intrusive queue refines a list and gives back every reference it
    took, and stealing moves half of it; the scheduler keeps every task in exactly one
    of its queues, its reference counts never delete a task that is still in one, its
    loops end, and a turn of it wakes every task whose sleep or timeout is over.  The
    readers-writer lock lets a writer be alone.

    Sdk: no deleted object is used in any reachable state (the recycler's delay
    excepted, see [SdkProps.scan_delay_dangles]); downloads to a slow browser lose,
    repeat and reorder nothing and go on; requests, replies, login and refusals
    behave as described; settings read back.  The page cache gives back the rows and
    articles its pages were made from, and the article parser ends on every input; the
    hello parser finds the server name in the layout it expects.

    System: the token the application gave to the sdk decides, through all four
    messages of a login, whether the server lets the client through.

    MD5 is the function of RFC 1321 for any sequence of updates.

    Where the code does not do what it means to, a theorem or example states what it
    does (for instance [Frame.frame_overflow], [TmsProps.begin_transmit_unverified],
    [RedisPool.first_pipeline_faults], [SdkApi.login_connection_closed_faults],
    [SdkPages.catagory_endless], [SdkTls.hello_overread]).

    ** Bounds

    A receive loop gets one unit of fuel more than there are bytes in the socket and
    a parser one more than the length of its input; each round consumes at least one
    byte.  Loops over the chains and lists of the cache get one unit more than there
    are cells on the heap.  The run loop of the scheduler gets one unit more than the
    steps the programs of its coroutines have left, its timer loops one more than there
    are timers.  The catalogue loop of the page cache gets one unit more than there are
    positions; what it does depends on its position alone, so that a longer run never
    ends.  [CoSchedProps.sched_tasks_conserved], [TmsInv.events_terminate], [SdkInv.sdk_memory_safe],
    [SdkHttp.HandleRecvHttp_fuel] and [LruProps.cache_refines_map] show that the
    bounds are not reached.

    ** Not modelled

    Logging, socket options, creation of the listening sockets, opening the capture
    with libpcap; the kqueue variants for Apple; YMEInit, YMEStart, YMEDetach and
    YMEWait, which start and join a thread; YMEHttp.cpp, a client of libcurl and
    cJSON; of libgo the
    replaced C library calls, the waits for network events, the context switch, the
    scheduler with several threads, the try and timed operations
    of channels, and TSSkipQueue, which is not used; the database of leveldb, which no
    program opens; hiredis and Redis, which are interfaces.  The threads of the sdk's
    application and of its main loop are interleaved only at the waits of the API, not
    at single accesses. *)

From stdpp Require Import base gmap list strings.
From Stdlib Require Import ZArith Lia.

Open Scope Z_scope.

(** ** Notations and record update

    The C++ objects are records with many fields that the code updates one
    field at a time.  [r <| f := v |>] is the record [r] with field [f]
    replaced; the setter is computed from the record's eta expansion. *)

Declare Scope tunnel_scope.
Delimit Scope tunnel_scope with tunnel.

Class Eta (R : Type) := eta : R → R.

Class Setter {R T : Type} (p : R → T) := MkSetter {
  set : (T → T) → R → R;
  set_get : ∀ f r, p (set f r) = f (p r);
  set_id : ∀ r, set (fun x => x) r = r;
}.
Arguments set {R T} p {_} f r : simpl never.
Arguments MkSetter {R T} p _ _ _.

(** The body of a setter, [r] being the record variable. *)
Ltac setter_body p f r :=
  let b := eval hnf in (eta r) in
  let b' := eval pattern (p r) in b in
  lazymatch b' with
  | ?g _ => let t := eval cbv beta in (g (f (p r))) in exact t
  end.

Ltac mk_setter p :=
  lazymatch type of p with
  | ?R → ?T =>
    let s := constr:(ltac:(
      let f := fresh "f" in let r := fresh "r" in
      intros f r; setter_body p f r) : (T → T) → R → R) in
    exact (MkSetter p s (fun f r => eq_refl)
             ltac:(let r := fresh "r" in intros r; destruct r; reflexivity))
  end.

#[export] Hint Extern 1 (Setter ?p) => mk_setter p : typeclass_instances.

Notation "r <| p := v |>" := (set p (fun _ => v) r)
  (at level 12, left associativity) : tunnel_scope.
Notation "r <| p ::= f |>" := (set p f r)
  (at level 12, left associativity) : tunnel_scope.
Open Scope tunnel_scope.

(** Reads of updated records: [f (r <| f := v |>)] is [v] and
    [g (r <| f := v |>)] is [g r]; nothing else is unfolded. *)
Ltac rsimpl_step :=
  match goal with
  | |- context [?p (set ?q ?f ?r)] =>
    is_const p;
    first [ constr_eq p q; change (p (set q f r)) with (f (p r)); cbv beta
          | change (p (set q f r)) with (p r) ]
  end.

Ltac rsimpl_in_step H :=
  match type of H with
  | context [?p (set ?q ?f ?r)] =>
    is_const p;
    first [ constr_eq p q; change (p (set q f r)) with (f (p r)) in H; cbv beta in H
          | change (p (set q f r)) with (p r) in H ]
  end.

Tactic Notation "rsimpl" := repeat rsimpl_step.
Tactic Notation "rsimpl" "in" hyp(H) := repeat rsimpl_in_step H.

(** ** Machine integers

    A [w]-bit unsigned C integer is a [Z] in [[0, 2^w)]; [wrap] is the
    conversion to it and [swrap] the two's complement conversion to the signed
    type of the same width. *)

Definition wrap (w x : Z) : Z := x mod 2 ^ w.
Definition swrap (w x : Z) : Z := (x + 2 ^ (w - 1)) mod 2 ^ w - 2 ^ (w - 1).

Abbreviation u8 := (wrap 8).
Abbreviation u16 := (wrap 16).
Abbreviation u32 := (wrap 32).
Abbreviation u64 := (wrap 64).
Abbreviation i16 := (swrap 16).
Abbreviation i32 := (swrap 32).
Abbreviation i64 := (swrap 64).

Definition in_u (w x : Z) : Prop := 0 ≤ x < 2 ^ w.
Definition in_s (w x : Z) : Prop := - 2 ^ (w - 1) ≤ x < 2 ^ (w - 1).

#[export] Instance in_u_dec w x : Decision (in_u w x).
Proof. unfold in_u. apply _. Defined.

#[export] Instance in_s_dec w x : Decision (in_s w x).
Proof. unfold in_s. apply _. Defined.

(** ** Bytes

    Memory and socket contents are lists of [Z], each a byte. *)

Abbreviation bytes := (list Z).

Definition bytes_ok (l : bytes) : Prop := Forall (in_u 8) l.

#[export] Instance bytes_ok_dec l : Decision (bytes_ok l).
Proof. unfold bytes_ok. apply _. Defined.

(** A string literal of the source as the bytes of its characters. *)
Definition bs (s : string) : bytes :=
  map (fun a => Z.of_N (Ascii.N_of_ascii a)) (String.list_ascii_of_string s).
Arguments bs _%_string_scope.

(** Little-endian image of an integer in [n] bytes and its inverse: how an
    integer field lies in memory on the targets of the program. *)
Fixpoint to_le (n : nat) (v : Z) : bytes :=
  match n with
  | O => []
  | S n' => v mod 256 :: to_le n' (v / 256)
  end.

Fixpoint of_le (l : bytes) : Z :=
  match l with
  | [] => 0
  | b :: l' => b + 256 * of_le l'
  end.

(** [htons], [ntohs], [htonl], [ntohl]: byte order reversal at their width. *)
Definition htons (v : Z) : Z := of_le (reverse (to_le 2 v)).
Definition ntohs (v : Z) : Z := htons v.
Definition htonl (v : Z) : Z := of_le (reverse (to_le 4 v)).
Definition ntohl (v : Z) : Z := htonl v.

(** A fixed size [U8] array field, zero padded, as [memcpy] of a shorter string
    into a zeroed field leaves it. *)
Definition pad (n : nat) (l : bytes) : bytes :=
  take n l ++ replicate (n - length l) 0.

(** The bytes of a C string: what is before the first NUL. *)
Fixpoint cstr (l : bytes) : bytes :=
  match l with
  | [] => []
  | b :: l' => if b =? 0 then [] else b :: cstr l'
  end.

Definition strlen (l : bytes) : Z := Z.of_nat (length (cstr l)).

(** The bytes [l[pos, pos + len)]. *)
Definition sub (pos len : nat) (l : bytes) : bytes := take len (drop pos l).

(** [memcpy] of [src] into the array [dst] at [pos] (in range). *)
Definition blit (pos : nat) (src dst : bytes) : bytes :=
  take pos dst ++ src ++ drop (pos + length src) dst.

(** ** Decimal numbers: [atoi], [atoll] and the printing of [%llu] *)

Definition is_digit (b : Z) : bool := (48 <=? b) && (b <=? 57).

Definition is_space (b : Z) : bool := (b =? 32) || ((9 <=? b) && (b <=? 13)).

Fixpoint dec_digits (acc : Z) (l : bytes) : Z :=
  match l with
  | b :: l' => if is_digit b then dec_digits (10 * acc + (b - 48)) l' else acc
  | [] => acc
  end.

Fixpoint skip_space (l : bytes) : bytes :=
  match l with
  | b :: l' => if is_space b then skip_space l' else l
  | [] => []
  end.

(** The mathematical value [strtoll] parses; conversions to the result width are
    written at the call. *)
Definition dec_value (l : bytes) : Z :=
  match skip_space l with
  | 45 :: l' => - dec_digits 0 l'
  | 43 :: l' => dec_digits 0 l'
  | l' => dec_digits 0 l'
  end.

(** [atoll] saturates at the bounds of [long long] in the C library. *)
Definition atoll (l : bytes) : Z :=
  Z.max (- 2 ^ 63) (Z.min (2 ^ 63 - 1) (dec_value l)).

(** [atoi] is [(int)strtol(...)]. *)
Definition atoi (l : bytes) : Z := i32 (atoll l).

Fixpoint print_nat_aux (fuel : nat) (v : Z) (acc : bytes) : bytes :=
  match fuel with
  | O => acc
  | S fuel' =>
    let acc' := (48 + v mod 10) :: acc in
    if v / 10 =? 0 then acc' else print_nat_aux fuel' (v / 10) acc'
  end.

(** [sprintf("%llu", v)]: 20 digits are enough for 64 bits; the fuel is the
    number of digits. *)
Definition print_u (v : Z) : bytes := print_nat_aux 20 v [].

Definition print_s (v : Z) : bytes :=
  if v <? 0 then 45 :: print_u (- v) else print_u v.

(** ** Character classes and C string comparison *)

Definition tolower (b : Z) : Z := if (65 <=? b) && (b <=? 90) then b + 32 else b.

(** [strncasecmp(s, t, n) == 0]; the end of a list is the terminating NUL. *)
Fixpoint strncaseeq (s t : bytes) (n : nat) : bool :=
  match n with
  | O => true
  | S n' =>
    let a := default 0 (head s) in
    let b := default 0 (head t) in
    if tolower a =? tolower b
    then if a =? 0 then true else strncaseeq (tail s) (tail t) n'
    else false
  end.

(** [strncmp(s, t, n) == 0]. *)
Fixpoint strneq (s t : bytes) (n : nat) : bool :=
  match n with
  | O => true
  | S n' =>
    let a := default 0 (head s) in
    let b := default 0 (head t) in
    if a =? b then if a =? 0 then true else strneq (tail s) (tail t) n'
    else false
  end.

(** ** Results of fallible code and the state monad of the components *)

Inductive fault :=
  | NullDeref       (* a null pointer is dereferenced *)
  | UseAfterFree    (* a pointer to a deleted object is dereferenced *)
  | OutOfBounds     (* an array is accessed past its end *)
  | Aborted         (* abort() *)
  | OutOfFuel.      (* the model's loop bound was too small *)

Inductive result (A : Type) :=
  | Ok (a : A)
  | Bad (f : fault).
Arguments Ok {A} _.
Arguments Bad {A} _.

#[export] Instance fault_eq_dec : EqDecision fault.
Proof. solve_decision. Defined.

Definition M (S A : Type) : Type := S → result (A * S).

#[export] Instance M_ret S : MRet (M S) := fun A a s => Ok (a, s).
#[export] Instance M_bind S : MBind (M S) := fun A B k m s =>
  match m s with
  | Ok (a, s') => k a s'
  | Bad f => Bad f
  end.

Definition fail_with {S A} (f : fault) : M S A := fun _ => Bad f.
Definition get_s {S} : M S S := fun s => Ok (s, s).
Definition modify {S} (f : S → S) : M S unit := fun s => Ok (tt, f s).
Definition gets {S A} (f : S → A) : M S A := fun s => Ok (f s, s).

(** Dereference of a possibly null pointer value. *)
Definition nonnull {S A} (o : option A) : M S A :=
  match o with Some a => mret a | None => fail_with NullDeref end.

(** A pure fallible computation in the monad. *)
Definition lift {S A} (r : result A) : M S A := fun s =>
  match r with Ok a => Ok (a, s) | Bad f => Bad f end.

(** Runs [m] and forgets its result. *)
Definition exec {S A} (m : M S A) (s : S) : option S :=
  match m s with Ok (_, s') => Some s' | Bad _ => None end.

Definition is_ok {A} (r : result A) : bool :=
  match r with Ok _ => true | Bad _ => false end.

(** ** Lemmas on machine integers *)

Create HintDb tunnel.
Create HintDb tunnel_run.
Create Rewrite HintDb tunnel_len.

Lemma wrap_range w x : 0 ≤ w → in_u w (wrap w x).
Proof. intros. apply Z.mod_pos_bound, Z.pow_pos_nonneg; lia. Qed.

Lemma wrap_id w x : in_u w x → wrap w x = x.
Proof. intros []. apply Z.mod_small. done. Qed.

Lemma wrap_wrap w x : 0 ≤ w → wrap w (wrap w x) = wrap w x.
Proof. intros. apply wrap_id, wrap_range. done. Qed.

Lemma wrap_add_l w x y : wrap w (wrap w x + y) = wrap w (x + y).
Proof. unfold wrap. rewrite Zplus_mod_idemp_l. done. Qed.

Lemma wrap_add_r w x y : wrap w (x + wrap w y) = wrap w (x + y).
Proof. unfold wrap. rewrite Zplus_mod_idemp_r. done. Qed.

Lemma wrap_sub_l w x y : wrap w (wrap w x - y) = wrap w (x - y).
Proof. unfold wrap. rewrite Zminus_mod_idemp_l. done. Qed.

Lemma wrap_sub_r w x y : wrap w (x - wrap w y) = wrap w (x - y).
Proof. unfold wrap. rewrite Zminus_mod_idemp_r. done. Qed.

Lemma swrap_range w x : 0 < w → in_s w (swrap w x).
Proof.
  intros. unfold swrap, in_s.
  assert (2 ^ w = 2 * 2 ^ (w - 1)) as Hw.
  { rewrite <- Z.pow_succ_r by lia. f_equal. lia. }
  pose proof (Z.mod_pos_bound (x + 2 ^ (w - 1)) (2 ^ w)).
  assert (0 < 2 ^ (w - 1)) by (apply Z.pow_pos_nonneg; lia). lia.
Qed.

Lemma swrap_id w x : 0 < w → in_s w x → swrap w x = x.
Proof.
  intros ? []. unfold swrap.
  assert (2 ^ w = 2 * 2 ^ (w - 1)) as Hw.
  { rewrite <- Z.pow_succ_r by lia. f_equal. lia. }
  rewrite Z.mod_small; lia.
Qed.

Lemma i32_id x : - 2 ^ 31 ≤ x < 2 ^ 31 → i32 x = x.
Proof. intros. apply swrap_id; [lia|]. unfold in_s. cbn. lia. Qed.

Lemma u64_id x : 0 ≤ x < 2 ^ 64 → u64 x = x.
Proof. intros. by apply wrap_id. Qed.

Lemma swrap_add_l w x y : swrap w (swrap w x + y) = swrap w (x + y).
Proof.
  unfold swrap. f_equal.
  replace ((x + 2 ^ (w - 1)) `mod` 2 ^ w - 2 ^ (w - 1) + y + 2 ^ (w - 1))
    with ((x + 2 ^ (w - 1)) `mod` 2 ^ w + y) by lia.
  rewrite Zplus_mod_idemp_l. f_equal. lia.
Qed.

Lemma swrap_sub_l w x y : swrap w (swrap w x - y) = swrap w (x - y).
Proof. rewrite <- !Z.add_opp_r. apply swrap_add_l. Qed.

#[export] Hint Resolve wrap_range wrap_id swrap_range : tunnel.

(** Evaluates the powers of two in range goals and calls [lia]. *)
Ltac range_lia :=
  unfold in_u, in_s in *;
  repeat match goal with
  | H : context [2 ^ ?n] |- _ => progress (let v := eval cbv in (2 ^ n) in change (2 ^ n) with v in H)
  | |- context [2 ^ ?n] => progress (let v := eval cbv in (2 ^ n) in change (2 ^ n) with v)
  end; try lia.

(** ** Lemmas on byte lists *)

Lemma length_to_le n v : length (to_le n v) = n.
Proof. revert v. induction n; intros; simpl; auto. Qed.

Lemma to_le_ok n v : bytes_ok (to_le n v).
Proof.
  unfold bytes_ok. revert v. induction n; intros v; simpl; constructor; auto.
  apply (wrap_range 8). lia.
Qed.

Lemma of_to_le n v : of_le (to_le n v) = wrap (8 * Z.of_nat n) v.
Proof.
  revert v. induction n as [|n IH]; intros v; unfold wrap in *.
  - simpl. rewrite Z.mod_1_r. done.
  - change (of_le (to_le (S n) v)) with (v mod 256 + 256 * of_le (to_le n (v / 256))).
    rewrite IH.
    replace (2 ^ (8 * Z.of_nat (S n))) with (256 * 2 ^ (8 * Z.of_nat n)).
    2: { rewrite Nat2Z.inj_succ, Z.mul_succ_r, Z.pow_add_r by lia. change (2 ^ 8) with 256. lia. }
    rewrite Z.rem_mul_r; lia.
Qed.

Lemma of_to_le_id n v : in_u (8 * Z.of_nat n) v → of_le (to_le n v) = v.
Proof. intros. rewrite of_to_le. apply wrap_id. done. Qed.

Lemma to_of_le l : bytes_ok l → to_le (length l) (of_le l) = l.
Proof.
  induction 1 as [|b l Hb Hl IH]; simpl; [done|].
  destruct Hb as [? Hb]. change (2 ^ 8) with 256 in Hb.
  rewrite (Z.mul_comm 256), Z_mod_plus_full, Z.div_add, Z.mod_small, Z.div_small by lia.
  rewrite Z.add_0_l, IH. done.
Qed.

Lemma to_le_wrap n v : to_le n (wrap (8 * Z.of_nat n) v) = to_le n v.
Proof. rewrite <-of_to_le. rewrite <-(length_to_le n v) at 1. apply to_of_le, to_le_ok. Qed.

Lemma of_le_range l : bytes_ok l → in_u (8 * Z.of_nat (length l)) (of_le l).
Proof.
  intros H. rewrite <- (to_of_le l H) at 2. rewrite of_to_le.
  apply wrap_range. lia.
Qed.

Lemma bytes_ok_reverse l : bytes_ok l → bytes_ok (reverse l).
Proof. unfold bytes_ok. rewrite Forall_reverse. done. Qed.

Lemma bytes_ok_app l k : bytes_ok (l ++ k) ↔ bytes_ok l ∧ bytes_ok k.
Proof. apply Forall_app. Qed.

Lemma bytes_ok_take n l : bytes_ok l → bytes_ok (take n l).
Proof. apply Forall_take. Qed.

Lemma bytes_ok_drop n l : bytes_ok l → bytes_ok (drop n l).
Proof. apply Forall_drop. Qed.

#[export] Hint Resolve to_le_ok bytes_ok_reverse bytes_ok_take bytes_ok_drop : tunnel.
#[export] Hint Rewrite length_to_le @length_app @length_take @length_drop
  @length_replicate @length_reverse : tunnel_len.

Ltac len := autorewrite with tunnel_len in *; cbn [length] in *; try lia.

(** Byte order reversal is an involution at its width. *)
Lemma swap_swap n v : in_u (8 * Z.of_nat n) v →
  of_le (reverse (to_le n (of_le (reverse (to_le n v))))) = v.
Proof.
  intros Hv.
  assert (to_le n (of_le (reverse (to_le n v))) = reverse (to_le n v)) as ->.
  { rewrite <- (to_of_le (reverse (to_le n v))) at 2 by auto with tunnel. f_equal. len. }
  rewrite reverse_involutive. apply of_to_le_id. done.
Qed.

Lemma ntohs_htons v : in_u 16 v → ntohs (htons v) = v.
Proof. apply (swap_swap 2). Qed.

Lemma ntohl_htonl v : in_u 32 v → ntohl (htonl v) = v.
Proof. apply (swap_swap 4). Qed.

Lemma htons_range v : in_u 16 (htons v).
Proof.
  pose proof (of_le_range (reverse (to_le 2 v))) as H.
  rewrite length_reverse, length_to_le in H. apply H. auto with tunnel.
Qed.

Lemma htonl_range v : in_u 32 (htonl v).
Proof.
  pose proof (of_le_range (reverse (to_le 4 v))) as H.
  rewrite length_reverse, length_to_le in H. apply H. auto with tunnel.
Qed.

#[export] Hint Resolve htons_range htonl_range : tunnel.

Lemma length_pad n l : length (pad n l) = n.
Proof. unfold pad. len. Qed.

Lemma pad_id n l : length l = n → pad n l = l.
Proof. intros <-. unfold pad. rewrite take_ge, Nat.sub_diag by lia. apply app_nil_r. Qed.

Lemma bytes_ok_pad n l : bytes_ok l → bytes_ok (pad n l).
Proof.
  intros H. unfold pad. apply bytes_ok_app. split; [auto with tunnel|].
  apply Forall_replicate. range_lia.
Qed.

#[export] Hint Rewrite length_pad : tunnel_len.
#[export] Hint Resolve bytes_ok_pad : tunnel.

Lemma cstr_no_nul l : 0 ∉ cstr l.
Proof.
  induction l as [|b l IH]; simpl; [apply not_elem_of_nil|].
  destruct (Z.eqb_spec b 0); [apply not_elem_of_nil|].
  rewrite not_elem_of_cons. split; [congruence|done].
Qed.

Lemma cstr_app_nul l k : 0 ∉ l → cstr (l ++ 0 :: k) = l.
Proof.
  induction l as [|b l IH]; simpl; [done|]. rewrite not_elem_of_cons. intros [? ?].
  destruct (Z.eqb_spec b 0); [congruence|]. f_equal. auto.
Qed.

Lemma cstr_app_in l k : 0 ∈ l → cstr (l ++ k) = cstr l.
Proof.
  induction l as [|b l IH]; intros H; [by apply not_elem_of_nil in H|]. cbn.
  destruct (Z.eqb_spec b 0); [done|]. rewrite IH; [done|]. apply elem_of_cons in H as [?|?]; [congruence|done].
Qed.

Lemma cstr_id l : 0 ∉ l → cstr l = l.
Proof.
  induction l as [|b l IH]; simpl; [done|]. rewrite not_elem_of_cons. intros [? ?].
  destruct (Z.eqb_spec b 0); [congruence|]. f_equal. auto.
Qed.

Lemma cstr_idemp l : cstr (cstr l) = cstr l.
Proof. apply cstr_id, cstr_no_nul. Qed.

(** A field holds the C string that was copied into it when it fits. *)
Lemma cstr_pad n l : 0 ∉ l → (length l ≤ n)%nat → cstr (pad n l) = l.
Proof.
  intros Hn Hl. unfold pad. rewrite take_ge by lia.
  destruct (n - length l)%nat as [|k]; simpl.
  - rewrite app_nil_r. apply cstr_id. done.
  - apply cstr_app_nul. done.
Qed.

Lemma length_sub pos len l : (pos + len ≤ length l)%nat → length (sub pos len l) = len.
Proof. intros. unfold sub. len. Qed.

Lemma length_blit pos src dst : (pos + length src ≤ length dst)%nat →
  length (blit pos src dst) = length dst.
Proof. intros. unfold blit. len. Qed.

Lemma blit_take pos src dst : (pos + length src ≤ length dst)%nat →
  take (pos + length src) (blit pos src dst) = take pos dst ++ src.
Proof.
  intros. unfold blit. rewrite app_assoc, take_app_le by len.
  apply take_ge. len.
Qed.

Lemma blit_drop pos src dst n : (pos + length src ≤ n)%nat → (pos ≤ length dst)%nat →
  drop n (blit pos src dst) = drop n dst.
Proof.
  intros. unfold blit. rewrite app_assoc, drop_app_ge by len.
  rewrite drop_drop. f_equal. len.
Qed.

(** Two consecutive copies are one copy of the concatenation. *)
Lemma blit_blit pos a b dst : (pos + length a + length b ≤ length dst)%nat →
  blit (pos + length a) b (blit pos a dst) = blit pos (a ++ b) dst.
Proof.
  intros. unfold blit at 1. rewrite blit_take, blit_drop by lia. unfold blit.
  rewrite length_app, <- !app_assoc, Nat.add_assoc. done.
Qed.

Lemma blit_nil pos dst : blit pos [] dst = dst.
Proof. unfold blit. simpl. rewrite Nat.add_0_r, take_drop. done. Qed.

(** ** Lemmas on the monad *)

Lemma bind_Ok {S A B} (m : M S A) (k : A → M S B) s b s' :
  (m ≫= k) s = Ok (b, s') ↔ ∃ a s1, m s = Ok (a, s1) ∧ k a s1 = Ok (b, s').
Proof.
  unfold mbind, M_bind. destruct (m s) as [[a s1]|f]; naive_solver.
Qed.

(** Splits a successful run of a bind into the runs of its parts. *)
Ltac inv_bind H :=
  let a := fresh "a" in let s1 := fresh "s" in let H1 := fresh "Hm" in
  apply bind_Ok in H as (a & s1 & H1 & H).

(** Case analysis on the tests of the code. *)
Ltac case_ifs :=
  repeat match goal with
  | |- context [if ?b then _ else _] => destruct b eqn:?
  end.

Ltac bool_to_prop :=
  repeat match goal with
  | H : (_ && _) = true |- _ => apply andb_true_iff in H; destruct H
  | H : (_ || _) = false |- _ => apply orb_false_iff in H; destruct H
  | H : (_ =? _) = true |- _ => apply Z.eqb_eq in H
  | H : (_ =? _) = false |- _ => apply Z.eqb_neq in H
  | H : (_ <? _) = true |- _ => apply Z.ltb_lt in H
  | H : (_ <? _) = false |- _ => apply Z.ltb_ge in H
  | H : (_ <=? _) = true |- _ => apply Z.leb_le in H
  | H : (_ <=? _) = false |- _ => apply Z.leb_gt in H
  | H : negb _ = true |- _ => apply negb_true_iff in H
  | H : negb _ = false |- _ => apply negb_false_iff in H
  end.

(** Decides a closed proposition by evaluation. *)
Ltac by_decide := refine (bool_decide_unpack _ _); vm_compute; exact I.

(** ** Program logic for the monad

    [keeps R m]: every run of [m] that returns relates its states by [R].
    [no_fuel m]: no loop of [m] is cut short by its bound. *)

Definition keeps {S A} (R : S → S → Prop) (m : M S A) : Prop :=
  ∀ s a s', m s = Ok (a, s') → R s s'.

Definition no_fuel {S A} (m : M S A) : Prop := ∀ s, m s ≠ Bad OutOfFuel.

Section Keeps.
Context {S : Type} (R : S → S → Prop) `{!PreOrder R}.

Lemma keeps_ret {A} (a : A) : keeps R (mret a).
Proof. intros s b s' [= <- <-]. reflexivity. Qed.

Lemma keeps_bind {A B} (m : M S A) (k : A → M S B) :
  keeps R m → (∀ a, keeps R (k a)) → keeps R (m ≫= k).
Proof.
  intros Hm Hk s b s' H. inv_bind H. etransitivity; [eapply Hm|eapply Hk]; eassumption.
Qed.

Lemma keeps_fail {A} f : keeps R (fail_with (A := A) f).
Proof. intros s b s' H. discriminate H. Qed.

Lemma keeps_gets {A} (f : S → A) : keeps R (gets f).
Proof. intros s b s' [= <- <-]. reflexivity. Qed.

Lemma keeps_get : keeps R get_s.
Proof. intros s b s' [= <- <-]. reflexivity. Qed.

Lemma keeps_modify f : (∀ s, R s (f s)) → keeps R (modify f).
Proof. intros Hf s b s' [= _ <-]. apply Hf. Qed.

Lemma keeps_nonnull {A} (o : option A) : keeps R (nonnull o).
Proof. destruct o; [apply keeps_ret|apply keeps_fail]. Qed.

End Keeps.

Lemma no_fuel_ret {S A} (a : A) : no_fuel (S := S) (mret a).
Proof. intros s H. discriminate H. Qed.

Lemma no_fuel_bind {S A B} (m : M S A) (k : A → M S B) :
  no_fuel m → (∀ a, no_fuel (k a)) → no_fuel (m ≫= k).
Proof.
  intros Hm Hk s. unfold mbind, M_bind. specialize (Hm s).
  destruct (m s) as [[a s1]|f]; [apply Hk|]. congruence.
Qed.

Lemma no_fuel_fail {S A} f : f ≠ OutOfFuel → no_fuel (S := S) (fail_with (A := A) f).
Proof. intros Hf s [= ->]. done. Qed.

Lemma no_fuel_gets {S A} (f : S → A) : no_fuel (gets f).
Proof. intros s H. discriminate H. Qed.

Lemma no_fuel_get {S} : no_fuel (get_s (S := S)).
Proof. intros s H. discriminate H. Qed.

Lemma no_fuel_modify {S} (f : S → S) : no_fuel (modify f).
Proof. intros s H. discriminate H. Qed.

Lemma no_fuel_nonnull {S A} (o : option A) : no_fuel (S := S) (nonnull o).
Proof. destruct o; [apply no_fuel_ret|apply no_fuel_fail; done]. Qed.

Lemma no_fuel_lift {S A} (r : result A) : r ≠ Bad OutOfFuel → no_fuel (S := S) (lift r).
Proof. intros Hr s. unfold lift. destruct r; congruence. Qed.

#[export] Hint Resolve no_fuel_ret no_fuel_gets no_fuel_get no_fuel_modify no_fuel_nonnull : tunnel.

(** Walks through a monadic term, using the lemmas of the database [tunnel] at the
    calls. *)
Ltac walk_step :=
  match goal with
  | |- keeps _ (mbind _ _) => apply keeps_bind; [typeclasses eauto| |intros ?]
  | |- keeps _ (mret _) => apply keeps_ret; typeclasses eauto
  | |- keeps _ (fail_with _) => apply keeps_fail
  | |- keeps _ (gets _) => apply keeps_gets; typeclasses eauto
  | |- keeps _ get_s => apply keeps_get; typeclasses eauto
  | |- keeps _ (nonnull _) => apply keeps_nonnull; typeclasses eauto
  | |- no_fuel (mbind _ _) => apply no_fuel_bind; [|intros ?]
  | |- no_fuel (fail_with _) => apply no_fuel_fail; discriminate
  | |- keeps _ (match ?b with _ => _ end) => destruct b
  | |- no_fuel (match ?b with _ => _ end) => destruct b
  | |- keeps _ ((match ?b with _ => _ end) _) => destruct b
  | _ => solve [auto with tunnel nocore]
  end.

Ltac walk := repeat walk_step.

(** ** Running monadic code symbolically *)

Lemma bind_run {S A B} (m : M S A) (k : A → M S B) s a s1 r :
  m s = Ok (a, s1) → k a s1 = r → (m ≫= k) s = r.
Proof. intros Hm Hk. unfold mbind, M_bind. rewrite Hm. done. Qed.

Lemma bind_fault {S A B} (m : M S A) (k : A → M S B) s f :
  m s = Bad f → (m ≫= k) s = Bad f.
Proof. intros Hm. unfold mbind, M_bind. rewrite Hm. done. Qed.

Lemma ret_run {S A} (a : A) (s : S) : mret (M := M S) a s = Ok (a, s).
Proof. done. Qed.

Lemma gets_run {S A} (f : S → A) (s : S) : gets f s = Ok (f s, s).
Proof. done. Qed.

Lemma modify_run {S} (f : S → S) (s : S) : modify f s = Ok (tt, f s).
Proof. done. Qed.

Lemma nonnull_run {S A} (a : A) (s : S) : nonnull (Some a) s = Ok (a, s).
Proof. done. Qed.

Lemma lift_run {S A} (r : result A) (a : A) (s : S) : r = Ok a → lift r s = Ok (a, s).
Proof. intros ->. done. Qed.

#[export] Hint Resolve ret_run gets_run modify_run nonnull_run : tunnel_run.

(** ** Lemmas on decimal numbers *)

Lemma print_nat_aux_dec fuel v acc : 0 ≤ v < 10 ^ Z.of_nat fuel →
  ∃ k, 0 ≤ k ∧ ∀ a, dec_digits a (print_nat_aux fuel v acc) = dec_digits (a * 10 ^ k + v) acc.
Proof.
  revert v acc. induction fuel as [|fuel IH]; intros v acc Hv.
  - exists 0. split; [lia|]. intros a. cbn in *. f_equal. lia.
  - cbn [print_nat_aux].
    assert (is_digit (48 + v mod 10) = true) as Hd.
    { pose proof (Z.mod_pos_bound v 10). unfold is_digit. apply andb_true_iff. split; apply Z.leb_le; lia. }
    pose proof (Z.div_mod v 10 ltac:(lia)) as Hdm.
    destruct (Z.eqb_spec (v / 10) 0) as [H0|H0].
    + exists 1. split; [lia|]. intros a. cbn [dec_digits]. rewrite Hd. f_equal. lia.
    + destruct (IH (v / 10) ((48 + v mod 10) :: acc)) as (k & Hk & IHk).
      { rewrite Nat2Z.inj_succ, Z.pow_succ_r in Hv by lia. split; [apply Z.div_pos; lia|].
        apply Z.div_lt_upper_bound; lia. }
      exists (k + 1). split; [lia|]. intros a. rewrite IHk. cbn [dec_digits]. rewrite Hd.
      rewrite Z.pow_add_r by lia. f_equal. lia.
Qed.

Lemma print_nat_aux_digits fuel v acc : Forall (fun b => is_digit b = true) acc →
  Forall (fun b => is_digit b = true) (print_nat_aux fuel v acc).
Proof.
  revert v acc. induction fuel as [|fuel IH]; intros v acc Ha; [done|]. cbn [print_nat_aux].
  assert (is_digit (48 + v mod 10) = true) as Hd.
  { pose proof (Z.mod_pos_bound v 10). unfold is_digit. apply andb_true_iff. split; apply Z.leb_le; lia. }
  destruct (_ =? 0); [|apply IH]; constructor; done.
Qed.

Lemma print_u_digits v : Forall (fun b => is_digit b = true) (print_u v).
Proof. apply print_nat_aux_digits. constructor. Qed.

Lemma print_nat_aux_length fuel v acc : (length acc ≤ length (print_nat_aux fuel v acc))%nat.
Proof.
  revert v acc. induction fuel as [|fuel IH]; intros v acc; [done|]. cbn [print_nat_aux].
  destruct (_ =? 0); [cbn; lia|]. etransitivity; [|apply IH]. cbn. lia.
Qed.

Lemma print_u_nonnil v : print_u v ≠ [].
Proof.
  assert (∀ fuel, print_nat_aux (S fuel) v [] ≠ []) as H; [|apply H].
  intros fuel. cbn [print_nat_aux]. destruct (_ =? 0); [done|]. intros H. apply (f_equal length) in H.
  pose proof (print_nat_aux_length fuel (v / 10) [48 + v mod 10]) as Hl. rewrite H in Hl. cbn in Hl. lia.
Qed.

Lemma dec_value_digits l : Forall (fun b => is_digit b = true) l → dec_value l = dec_digits 0 l.
Proof.
  intros Hl. unfold dec_value. destruct l as [|b l]; [done|]. apply Forall_cons in Hl as [Hb _].
  unfold is_digit in Hb. apply andb_true_iff in Hb as [H1%Z.leb_le H2%Z.leb_le].
  cbn [skip_space]. unfold is_space.
  destruct (Z.eqb_spec b 32); [lia|]. destruct (Z.leb_spec b 13); [lia|]. rewrite andb_false_r. cbn [orb].
  destruct b as [|p|p]; try lia. do 6 (destruct p as [p|p|]; try lia; try done).
Qed.

Lemma dec_print_u v : 0 ≤ v < 10 ^ 20 → dec_digits 0 (print_u v) = v.
Proof.
  intros Hv. unfold print_u. destruct (print_nat_aux_dec 20 v [] Hv) as (k & _ & Hk). rewrite Hk. cbn. lia.
Qed.

(** [atoll] reads back what ["%ld"] prints. *)
Lemma atoll_print_s v : in_s 64 v → atoll (print_s v) = v.
Proof.
  intros Hv. unfold atoll, print_s. destruct (Z.ltb_spec v 0).
  - assert (dec_value (45 :: print_u (- v)) = v) as ->.
    { change (dec_value (45 :: print_u (- v))) with (- dec_digits 0 (print_u (- v))).
      rewrite dec_print_u by range_lia. lia. }
    range_lia.
  - rewrite dec_value_digits, dec_print_u by (apply print_u_digits || range_lia). range_lia.
Qed.
