(* ===== verification/Triple.v ===== *)
(** * Triples for the monad of the components

    [triple tol P m Q]: from a state in [P], [m] returns with [Q], or stops with a
    fault that [tol] tolerates, and with no other. *)

From S2P Require Import Prelude.
From stdpp Require Import base tactics.

Module Triple.

Definition triple {S A} (tol : fault → Prop) (P : S → Prop) (m : M S A) (Q : A → S → Prop) : Prop :=
  ∀ s, P s → match m s with Ok (a, s') => Q a s' | Bad f => tol f end.

Section Triples.
Context {S : Type} {tol : fault → Prop}.
#[local] Abbreviation hoare := (triple tol).

Lemma h_ret {A} (P : S → Prop) (a : A) : hoare P (mret a) (fun x s => x = a ∧ P s).
Proof. intros s Hs. split; done. Qed.

Lemma h_bind {A B} P (m : M S A) (k : A → M S B) Q R :
  hoare P m Q → (∀ a, hoare (Q a) (k a) R) → hoare P (m ≫= k) R.
Proof.
  intros Hm Hk s Hs. unfold mbind, M_bind. specialize (Hm s Hs).
  destruct (m s) as [[a s1]|f]; [apply Hk; done|done].
Qed.

Lemma h_weaken {A} (P P' : S → Prop) (m : M S A) (Q Q' : A → S → Prop) :
  hoare P' m Q' → (∀ s, P s → P' s) → (∀ a s, Q' a s → Q a s) → hoare P m Q.
Proof.
  intros Hm HP HQ s Hs. specialize (Hm s (HP s Hs)). destruct (m s) as [[a s1]|f]; [auto|done].
Qed.

Lemma h_post {A} (P : S → Prop) (m : M S A) (Q Q' : A → S → Prop) :
  hoare P m Q' → (∀ a s, Q' a s → Q a s) → hoare P m Q.
Proof. intros Hm HQ. eapply h_weaken; eauto. Qed.

Lemma h_exists {X A} (P : X → S → Prop) (m : M S A) Q :
  (∀ x, hoare (P x) m Q) → hoare (fun s => ∃ x, P x s) m Q.
Proof. intros Hm s [x Hx]. apply (Hm x s Hx). Qed.

Lemma h_pure {A} (p : Prop) (P : S → Prop) (m : M S A) Q :
  (p → hoare P m Q) → hoare (fun s => p ∧ P s) m Q.
Proof. intros Hm s [Hp Hs]. apply (Hm Hp s Hs). Qed.

Lemma h_gets {A} (f : S → A) (P : S → Prop) : hoare P (gets f) (fun a s => a = f s ∧ P s).
Proof. intros s Hs. split; done. Qed.

Lemma h_modify (f : S → S) (P Q : S → Prop) : (∀ s, P s → Q (f s)) → hoare P (modify f) (fun _ => Q).
Proof. intros Hf s Hs. apply Hf. done. Qed.

End Triples.

End Triple.
