(* ===== verification/Md5.v ===== *)
(** * MD5 of the SDK (src/sdk/sdk/md5.cpp, md5.h)

    The class [MD5] signs the SDK's order and token requests (YMEHttp.cpp).
    [md5] is the context object; [update], [finalize] and [raw_digest] are its
    public methods, [transform], [encode] and [decode] the private ones, all on
    32-bit words kept as [Z] with the wrap-around written out.  The reference is
    the one-shot algorithm of RFC 1321: pad the whole message, cut it in 64-byte
    blocks, compress them in order; the theorems show that the buffering,
    incremental implementation computes it for every way of cutting the message
    into [update] calls. *)

From S2P Require Import Prelude.
From stdpp Require Import base list strings.
From Stdlib Require Import ZArith Lia.

Open Scope Z_scope.

Module Md5.

(** ** The private static helpers *)

(** [uint4] values; [lnot32] is [~x]. *)
Definition lnot32 (x : Z) : Z := u32 (Z.lnot x).

Definition rotate_left (x n : Z) : Z :=
  Z.lor (u32 (Z.shiftl x n)) (Z.shiftr x (32 - n)).

Definition F (x y z : Z) : Z := Z.lor (Z.land x y) (Z.land (lnot32 x) z).
Definition G (x y z : Z) : Z := Z.lor (Z.land x z) (Z.land y (lnot32 z)).
Definition H (x y z : Z) : Z := Z.lxor (Z.lxor x y) z.
Definition I (x y z : Z) : Z := Z.lxor y (Z.lor x (lnot32 z)).

(** The new value of the reference parameter [a]. *)
Definition FF (a b c d x s ac : Z) : Z :=
  let a := u32 (a + (F b c d + x + ac)) in u32 (rotate_left a s + b).
Definition GG (a b c d x s ac : Z) : Z :=
  let a := u32 (a + (G b c d + x + ac)) in u32 (rotate_left a s + b).
Definition HH (a b c d x s ac : Z) : Z :=
  let a := u32 (a + (H b c d + x + ac)) in u32 (rotate_left a s + b).
Definition II (a b c d x s ac : Z) : Z :=
  let a := u32 (a + (I b c d + x + ac)) in u32 (rotate_left a s + b).

(** [encode]: words to bytes, low byte first. *)
Fixpoint encode (input : list Z) : bytes :=
  match input with
  | [] => []
  | w :: rest =>
    Z.land w 0xff :: Z.land (Z.shiftr w 8) 0xff ::
    Z.land (Z.shiftr w 16) 0xff :: Z.land (Z.shiftr w 24) 0xff :: encode rest
  end.

(** [decode]: four bytes to a word. *)
Fixpoint decode (input : bytes) : list Z :=
  match input with
  | b0 :: b1 :: b2 :: b3 :: rest =>
    Z.lor (Z.lor (Z.lor b0 (Z.shiftl b1 8)) (Z.shiftl b2 16)) (Z.shiftl b3 24)
      :: decode rest
  | _ => []
  end.

(** ** The context *)

Abbreviation regs := (Z * Z * Z * Z)%type.

Record md5 := Md5 {
  state : regs;
  count0 : Z;         (* count[0], count[1]: number of bits mod 2^64 *)
  count1 : Z;
  buffer : bytes;     (* 64 bytes *)
  digest : bytes;     (* 16 bytes *)
  finalized : bool;
}.

#[export] Instance eta_md5 : Eta md5 := fun x =>
  Md5 (state x) (count0 x) (count1 x) (buffer x) (digest x) (finalized x).

Definition init_state : regs := (0x67452301, 0xefcdab89, 0x98badcfe, 0x10325476).

(** The constructor: [init] sets the counters, the state and the flag; the two
    arrays keep whatever the memory held. *)
Definition init (buf0 dig0 : bytes) : md5 := Md5 init_state 0 0 buf0 dig0 false.

(** ** transform *)

Definition word (x : list Z) (k : nat) : Z := default 0 (x !! k).

(** An assignment followed by the rest of the block. *)
Definition assign {A B : Type} (e : A) (k : A → B) : B := k e.
#[local] Notation "v <- e ;; k" := (assign e (fun v => k))
  (at level 100, e at next level, right associativity).

Definition S11 := 7.
Definition S12 := 12.
Definition S13 := 17.
Definition S14 := 22.
Definition S21 := 5.
Definition S22 := 9.
Definition S23 := 14.
Definition S24 := 20.
Definition S31 := 4.
Definition S32 := 11.
Definition S33 := 16.
Definition S34 := 23.
Definition S41 := 6.
Definition S42 := 10.
Definition S43 := 15.
Definition S44 := 21.

Definition round1 (x : list Z) (r : regs) : regs :=
  let '(a, b, c, d) := r in
  a <- FF a b c d (word x 0) S11 0xd76aa478;;
  d <- FF d a b c (word x 1) S12 0xe8c7b756;;
  c <- FF c d a b (word x 2) S13 0x242070db;;
  b <- FF b c d a (word x 3) S14 0xc1bdceee;;
  a <- FF a b c d (word x 4) S11 0xf57c0faf;;
  d <- FF d a b c (word x 5) S12 0x4787c62a;;
  c <- FF c d a b (word x 6) S13 0xa8304613;;
  b <- FF b c d a (word x 7) S14 0xfd469501;;
  a <- FF a b c d (word x 8) S11 0x698098d8;;
  d <- FF d a b c (word x 9) S12 0x8b44f7af;;
  c <- FF c d a b (word x 10) S13 0xffff5bb1;;
  b <- FF b c d a (word x 11) S14 0x895cd7be;;
  a <- FF a b c d (word x 12) S11 0x6b901122;;
  d <- FF d a b c (word x 13) S12 0xfd987193;;
  c <- FF c d a b (word x 14) S13 0xa679438e;;
  b <- FF b c d a (word x 15) S14 0x49b40821;;
  (a, b, c, d).

Definition round2 (x : list Z) (r : regs) : regs :=
  let '(a, b, c, d) := r in
  a <- GG a b c d (word x 1) S21 0xf61e2562;;
  d <- GG d a b c (word x 6) S22 0xc040b340;;
  c <- GG c d a b (word x 11) S23 0x265e5a51;;
  b <- GG b c d a (word x 0) S24 0xe9b6c7aa;;
  a <- GG a b c d (word x 5) S21 0xd62f105d;;
  d <- GG d a b c (word x 10) S22 0x2441453;;
  c <- GG c d a b (word x 15) S23 0xd8a1e681;;
  b <- GG b c d a (word x 4) S24 0xe7d3fbc8;;
  a <- GG a b c d (word x 9) S21 0x21e1cde6;;
  d <- GG d a b c (word x 14) S22 0xc33707d6;;
  c <- GG c d a b (word x 3) S23 0xf4d50d87;;
  b <- GG b c d a (word x 8) S24 0x455a14ed;;
  a <- GG a b c d (word x 13) S21 0xa9e3e905;;
  d <- GG d a b c (word x 2) S22 0xfcefa3f8;;
  c <- GG c d a b (word x 7) S23 0x676f02d9;;
  b <- GG b c d a (word x 12) S24 0x8d2a4c8a;;
  (a, b, c, d).

Definition round3 (x : list Z) (r : regs) : regs :=
  let '(a, b, c, d) := r in
  a <- HH a b c d (word x 5) S31 0xfffa3942;;
  d <- HH d a b c (word x 8) S32 0x8771f681;;
  c <- HH c d a b (word x 11) S33 0x6d9d6122;;
  b <- HH b c d a (word x 14) S34 0xfde5380c;;
  a <- HH a b c d (word x 1) S31 0xa4beea44;;
  d <- HH d a b c (word x 4) S32 0x4bdecfa9;;
  c <- HH c d a b (word x 7) S33 0xf6bb4b60;;
  b <- HH b c d a (word x 10) S34 0xbebfbc70;;
  a <- HH a b c d (word x 13) S31 0x289b7ec6;;
  d <- HH d a b c (word x 0) S32 0xeaa127fa;;
  c <- HH c d a b (word x 3) S33 0xd4ef3085;;
  b <- HH b c d a (word x 6) S34 0x4881d05;;
  a <- HH a b c d (word x 9) S31 0xd9d4d039;;
  d <- HH d a b c (word x 12) S32 0xe6db99e5;;
  c <- HH c d a b (word x 15) S33 0x1fa27cf8;;
  b <- HH b c d a (word x 2) S34 0xc4ac5665;;
  (a, b, c, d).

Definition round4 (x : list Z) (r : regs) : regs :=
  let '(a, b, c, d) := r in
  a <- II a b c d (word x 0) S41 0xf4292244;;
  d <- II d a b c (word x 7) S42 0x432aff97;;
  c <- II c d a b (word x 14) S43 0xab9423a7;;
  b <- II b c d a (word x 5) S44 0xfc93a039;;
  a <- II a b c d (word x 12) S41 0x655b59c3;;
  d <- II d a b c (word x 3) S42 0x8f0ccc92;;
  c <- II c d a b (word x 10) S43 0xffeff47d;;
  b <- II b c d a (word x 1) S44 0x85845dd1;;
  a <- II a b c d (word x 8) S41 0x6fa87e4f;;
  d <- II d a b c (word x 15) S42 0xfe2ce6e0;;
  c <- II c d a b (word x 6) S43 0xa3014314;;
  b <- II b c d a (word x 13) S44 0x4e0811a1;;
  a <- II a b c d (word x 4) S41 0xf7537e82;;
  d <- II d a b c (word x 11) S42 0xbd3af235;;
  c <- II c d a b (word x 2) S43 0x2ad7d2bb;;
  b <- II b c d a (word x 9) S44 0xeb86d391;;
  (a, b, c, d).

Definition transform (r : regs) (block : bytes) : regs :=
  let x := decode block in
  let '(a, b, c, d) := round4 x (round3 x (round2 x (round1 x r))) in
  let '(s0, s1, s2, s3) := r in
  (u32 (s0 + a), u32 (s1 + b), u32 (s2 + c), u32 (s3 + d)).

(** ** update *)

(** The loop over the 64-byte pieces that bypass the buffer; [i] is
    [input_index], the fuel bounds the number of pieces. *)
Fixpoint update_loop (fuel : nat) (r : regs) (input : bytes) (i : Z) : regs * Z :=
  match fuel with
  | O => (r, i)
  | S fuel' =>
    if u32 (i + 63) <? Z.of_nat (length input)
    then update_loop fuel' (transform r (sub (Z.to_nat i) 64 input)) input (u32 (i + 64))
    else (r, i)
  end.

Definition update (input : bytes) (m : md5) : md5 :=
  if finalized m then m else
  let len := u32 (Z.of_nat (length input)) in
  let buffer_index := Z.land (Z.shiftr (count0 m) 3) 0x3f in
  let add := u32 (Z.shiftl len 3) in
  let c0 := u32 (count0 m + add) in
  let c1 := if c0 <? add then u32 (count1 m + 1) else count1 m in
  let c1 := u32 (c1 + Z.shiftr len 29) in
  let buffer_space := 64 - buffer_index in
  let '(buf, r, input_index, buffer_index) :=
    if buffer_space <=? len then
      let buf := blit (Z.to_nat buffer_index) (take (Z.to_nat buffer_space) input) (buffer m) in
      let r := transform (state m) buf in
      let '(r, i) := update_loop (length input) r input buffer_space in
      (buf, r, i, 0)
    else (buffer m, state m, 0, buffer_index) in
  let buf := blit (Z.to_nat buffer_index) (drop (Z.to_nat input_index) input) buf in
  m <| state := r |> <| count0 := c0 |> <| count1 := c1 |> <| buffer := buf |>.

(** ** finalize and raw_digest *)

Definition PADDING : bytes := 0x80 :: replicate 63 0.

Definition finalize (m : md5) : md5 :=
  if finalized m then m else
  let bits := encode [count0 m; count1 m] in
  let index := Z.land (Z.shiftr (count0 m) 3) 0x3f in
  let padLen := if index <? 56 then 56 - index else 120 - index in
  let m := update (take (Z.to_nat padLen) PADDING) m in
  let m := update bits m in
  let '(a, b, c, d) := state m in
  m <| digest := encode [a; b; c; d] |>
    (* memset(buffer, 0, sizeof( *buffer)): the size of one element *)
    <| buffer := blit 0 (replicate 1 0) (buffer m) |>
    <| finalized := true |>.

Definition raw_digest (m : md5) : bytes := take 16 (digest m).

(** ** Reference: RFC 1321 *)

(** The sine table: entry [i] is the integer part of 4294967296 * |sin(i+1)|. *)
Definition sine_table : list Z :=
  [ 0xd76aa478; 0xe8c7b756; 0x242070db; 0xc1bdceee; 0xf57c0faf; 0x4787c62a;
    0xa8304613; 0xfd469501; 0x698098d8; 0x8b44f7af; 0xffff5bb1; 0x895cd7be;
    0x6b901122; 0xfd987193; 0xa679438e; 0x49b40821; 0xf61e2562; 0xc040b340;
    0x265e5a51; 0xe9b6c7aa; 0xd62f105d; 0x2441453; 0xd8a1e681; 0xe7d3fbc8;
    0x21e1cde6; 0xc33707d6; 0xf4d50d87; 0x455a14ed; 0xa9e3e905; 0xfcefa3f8;
    0x676f02d9; 0x8d2a4c8a; 0xfffa3942; 0x8771f681; 0x6d9d6122; 0xfde5380c;
    0xa4beea44; 0x4bdecfa9; 0xf6bb4b60; 0xbebfbc70; 0x289b7ec6; 0xeaa127fa;
    0xd4ef3085; 0x4881d05; 0xd9d4d039; 0xe6db99e5; 0x1fa27cf8; 0xc4ac5665;
    0xf4292244; 0x432aff97; 0xab9423a7; 0xfc93a039; 0x655b59c3; 0x8f0ccc92;
    0xffeff47d; 0x85845dd1; 0x6fa87e4f; 0xfe2ce6e0; 0xa3014314; 0x4e0811a1;
    0xf7537e82; 0xbd3af235; 0x2ad7d2bb; 0xeb86d391 ].

Definition shift_table : list Z :=
  [7; 12; 17; 22; 5; 9; 14; 20; 4; 11; 16; 23; 6; 10; 15; 21].

(** Step [i] of the compression, registers rotating. *)
Definition rfc_step (x : list Z) (r : regs) (i : nat) : regs :=
  let '(a, b, c, d) := r in
  let t := default 0 (sine_table !! i) in
  let s := default 0 (shift_table !! (4 * (i / 16) + i mod 4)%nat) in
  let new :=
    match (i / 16)%nat with
    | 0%nat => FF a b c d (word x i) s t
    | 1%nat => GG a b c d (word x ((5 * i + 1) mod 16)) s t
    | 2%nat => HH a b c d (word x ((3 * i + 5) mod 16)) s t
    | _ => II a b c d (word x ((7 * i) mod 16)) s t
    end in
  (d, new, b, c).

Definition rfc_compress (r : regs) (block : bytes) : regs :=
  let '(a, b, c, d) := fold_left (rfc_step (decode block)) (seq 0 64) r in
  let '(s0, s1, s2, s3) := r in
  (u32 (s0 + a), u32 (s1 + b), u32 (s2 + c), u32 (s3 + d)).

(** The full blocks of a message, [n] of them. *)
Fixpoint blocks (n : nat) (m : bytes) : list bytes :=
  match n with
  | O => []
  | S n' => take 64 m :: blocks n' (drop 64 m)
  end.

Definition full_blocks (m : bytes) : list bytes := blocks (length m / 64) m.

(** Padding: 0x80, zeros up to 56 mod 64, then the bit length mod 2^64. *)
Definition rfc_pad (m : bytes) : bytes :=
  m ++ 0x80 :: replicate ((119 - length m mod 64) mod 64) 0
    ++ to_le 8 (8 * Z.of_nat (length m)).

Definition rfc_md5 (m : bytes) : bytes :=
  let '(a, b, c, d) := fold_left rfc_compress (full_blocks (rfc_pad m)) init_state in
  to_le 4 a ++ to_le 4 b ++ to_le 4 c ++ to_le 4 d.

(** ** transform is the RFC's compression function *)

Lemma fold_left_step {A B} (f : A → B → A) b l a :
  fold_left f (b :: l) a = fold_left f l (f a b).
Proof. reflexivity. Qed.

(** Matches one assignment of the code against one step of the reference and
    makes the new register value opaque, so that terms stay small. *)
Ltac md5_step :=
  lazymatch goal with
  | |- assign ?E ?B = fold_left ?f (?i :: ?l) (?p, ?q, ?r, ?s) =>
    change (assign E B) with (B E); rewrite (fold_left_step f i l);
    replace (f (p, q, r, s) i) with (s, E, q, r) by reflexivity;
    generalize E; intro; cbv beta
  end.

Ltac md5_round n :=
  let x := fresh in let r := fresh in
  intros x r; destruct r as [[[? ?] ?] ?];
  let l := eval cbv in (seq n 16) in change (seq n 16) with l;
  repeat md5_step; reflexivity.

Lemma round1_rfc : ∀ x r, round1 x r = fold_left (rfc_step x) (seq 0 16) r.
Proof. unfold round1. md5_round 0%nat. Qed.

Lemma round2_rfc : ∀ x r, round2 x r = fold_left (rfc_step x) (seq 16 16) r.
Proof. unfold round2. md5_round 16%nat. Qed.

Lemma round3_rfc : ∀ x r, round3 x r = fold_left (rfc_step x) (seq 32 16) r.
Proof. unfold round3. md5_round 32%nat. Qed.

Lemma round4_rfc : ∀ x r, round4 x r = fold_left (rfc_step x) (seq 48 16) r.
Proof. unfold round4. md5_round 48%nat. Qed.

Lemma transform_rfc r block : transform r block = rfc_compress r block.
Proof.
  unfold transform, rfc_compress.
  change 64%nat with (16 + (16 + (16 + 16)))%nat.
  rewrite !seq_app, !fold_left_app, <- round1_rfc, <- round2_rfc, <- round3_rfc, <- round4_rfc.
  reflexivity.
Qed.

(** ** Words and bytes *)

Lemma land_ff x : Z.land x 0xff = x mod 256.
Proof. change 0xff with (Z.ones 8). rewrite Z.land_ones by lia. done. Qed.

Lemma encode_le l : encode l = concat (map (to_le 4) l).
Proof.
  induction l as [|w l IH]; [done|]. cbn [encode map concat app to_le].
  rewrite !land_ff, !Z.shiftr_div_pow2, !Z.div_div, IH by lia. done.
Qed.

Lemma to_le_app n k v : to_le (n + k) v = to_le n v ++ to_le k (v / 2 ^ (8 * Z.of_nat n)).
Proof.
  revert v. induction n as [|n IH]; intros v; cbn [Nat.add to_le app].
  - change (2 ^ (8 * Z.of_nat 0)) with 1. rewrite Z.div_1_r. done.
  - rewrite IH. do 3 f_equal. rewrite Z.div_div by lia. f_equal.
    rewrite Nat2Z.inj_succ, Z.mul_succ_r, Z.pow_add_r by lia. lia.
Qed.

(** ** Blocks *)

Definition rest (m : bytes) : bytes := drop (64 * (length m / 64)) m.

Lemma length_rest m : length (rest m) = (length m mod 64)%nat.
Proof.
  unfold rest. rewrite length_drop. pose proof (Nat.div_mod_eq (length m) 64). lia.
Qed.

Lemma blocks_app n k m m' : length m = (64 * n)%nat →
  blocks (n + k) (m ++ m') = blocks n m ++ blocks k m'.
Proof.
  revert m. induction n as [|n IH]; intros m Hm.
  - destruct m; [done|simpl in Hm; lia].
  - cbn [Nat.add blocks app]. rewrite take_app_le, drop_app_le by lia.
    rewrite IH; [done|]. rewrite length_drop. lia.
Qed.

Lemma full_blocks_app m k :
  full_blocks (m ++ k) = full_blocks m ++ full_blocks (rest m ++ k).
Proof.
  set (q := (length m / 64)%nat).
  assert (Hm : m = take (64 * q) m ++ rest m) by (symmetry; apply take_drop).
  pose proof (Nat.div_mod_eq (length m) 64) as Hd.
  unfold full_blocks at 1 3. rewrite Hm at 2. rewrite <- app_assoc.
  replace (length (m ++ k) / 64)%nat with (q + length (rest m ++ k) / 64)%nat.
  2: { rewrite !length_app, length_rest. subst q.
       replace (length m + length k)%nat
         with (length m mod 64 + length k + (length m / 64) * 64)%nat by lia.
       rewrite Nat.div_add by lia. lia. }
  rewrite blocks_app by (rewrite length_take; lia).
  f_equal. unfold full_blocks. fold q. symmetry. rewrite Hm at 1.
  replace q with (q + 0)%nat at 1 by lia.
  rewrite blocks_app by (rewrite length_take; lia). simpl. apply app_nil_r.
Qed.

Lemma full_blocks_small m : (length m < 64)%nat → full_blocks m = [].
Proof. intros. unfold full_blocks. rewrite Nat.div_small by lia. done. Qed.

Lemma full_blocks_cons m : (64 ≤ length m)%nat →
  full_blocks m = take 64 m :: full_blocks (drop 64 m).
Proof.
  intros. unfold full_blocks.
  replace (length m / 64)%nat with (S (length (drop 64 m) / 64)); [done|].
  rewrite length_drop. replace (length m) with (length m - 64 + 1 * 64)%nat at 2 by lia.
  rewrite Nat.div_add by lia. lia.
Qed.

Lemma rest_app m k : rest (m ++ k) = rest (rest m ++ k).
Proof.
  set (q := (length m / 64)%nat).
  pose proof (Nat.div_mod_eq (length m) 64) as Hd.
  unfold rest at 1 2.
  replace (length (m ++ k) / 64)%nat with (length (rest m ++ k) / 64 + q)%nat.
  2: { rewrite !length_app, length_rest. subst q.
       replace (length m + length k)%nat
         with (length m mod 64 + length k + (length m / 64) * 64)%nat by lia.
       rewrite Nat.div_add by lia. lia. }
  rewrite Nat.mul_add_distr_l, Nat.add_comm, <- drop_drop.
  f_equal. rewrite drop_app_le by (subst q; lia). done.
Qed.

(** ** The bit counter *)

Lemma index_of_count n : Z.land (Z.shiftr (u32 (8 * n)) 3) 0x3f = n mod 64.
Proof.
  change 0x3f with (Z.ones 6).
  rewrite Z.land_ones, Z.shiftr_div_pow2 by lia. unfold wrap.
  change (2 ^ 3) with 8. change (2 ^ 6) with 64.
  replace (2 ^ 32) with (8 * 536870912) by done.
  rewrite Zmult_mod_distr_l, Z.mul_comm, Z.div_mul by lia.
  apply Z.mod_mod_divide. exists 8388608. done.
Qed.

Lemma count_add n L : 0 ≤ L < 2 ^ 32 → 0 ≤ n →
  let add := u32 (Z.shiftl L 3) in
  let c0 := u32 (u32 (8 * n) + add) in
  let c1 := u32 (8 * n / 2 ^ 32) in
  c0 = u32 (8 * (n + L)) ∧
  u32 ((if c0 <? add then u32 (c1 + 1) else c1) + Z.shiftr L 29) = u32 (8 * (n + L) / 2 ^ 32).
Proof.
  intros HL Hn. cbv zeta. rewrite Z.shiftl_mul_pow2, Z.shiftr_div_pow2 by lia.
  change (2 ^ 3) with 8.
  rewrite (Z.mul_comm L 8). rewrite wrap_add_l, wrap_add_r.
  rewrite Z.mul_add_distr_l. split; [done|].
  pose proof (Z.div_mod (8 * n) (2 ^ 32)) as Dn.
  pose proof (Z.div_mod (8 * L) (2 ^ 32)) as DL.
  pose proof (Z.div_mod (8 * n + 8 * L) (2 ^ 32)) as DS.
  pose proof (Z.mod_pos_bound (8 * n) (2 ^ 32)).
  pose proof (Z.mod_pos_bound (8 * L) (2 ^ 32)).
  pose proof (Z.mod_pos_bound (8 * n + 8 * L) (2 ^ 32)).
  assert (L / 2 ^ 29 = 8 * L / 2 ^ 32) as ->.
  { change (2 ^ 32) with (8 * 2 ^ 29). rewrite Z.div_mul_cancel_l by lia. done. }
  unfold wrap in *.
  destruct (Z.ltb_spec ((8 * n + 8 * L) `mod` 2 ^ 32) ((8 * L) `mod` 2 ^ 32)).
  - rewrite Zplus_mod_idemp_l, <- Z.add_assoc, Zplus_mod_idemp_l. f_equal. lia.
  - rewrite Zplus_mod_idemp_l. f_equal. lia.
Qed.

(** ** update *)

Lemma update_loop_spec fuel r input i :
  0 ≤ i ≤ Z.of_nat (length input) → Z.of_nat (length input) ≤ 2 ^ 32 - 64 →
  (length input ≤ Z.to_nat i + 64 * fuel)%nat →
  let d := drop (Z.to_nat i) input in
  update_loop fuel r input i =
    (fold_left rfc_compress (full_blocks d) r, i + 64 * Z.of_nat (length d / 64)).
Proof.
  revert r i. induction fuel as [|fuel IH]; intros r i Hi Hlen Hf; cbv zeta; cbn [update_loop].
  - rewrite full_blocks_small by (rewrite length_drop; lia).
    rewrite Nat.div_small by (rewrite length_drop; lia). f_equal. lia.
  - rewrite wrap_id by range_lia.
    destruct (Z.ltb_spec (i + 63) (Z.of_nat (length input))) as [Hlt|Hge].
    + rewrite wrap_id by range_lia.
      rewrite IH by lia. cbv zeta. rewrite transform_rfc.
      rewrite (full_blocks_cons (drop (Z.to_nat i) input)) by (rewrite length_drop; lia).
      replace (drop (Z.to_nat (i + 64)) input) with (drop 64 (drop (Z.to_nat i) input))
        by (rewrite drop_drop; f_equal; lia).
      f_equal. rewrite (length_drop (drop _ _)).
      replace (length (drop (Z.to_nat i) input)) with (length (drop (Z.to_nat i) input) - 64 + 1 * 64)%nat at 2
        by (rewrite length_drop; lia).
      rewrite Nat.div_add by lia. lia.
    + rewrite full_blocks_small by (rewrite length_drop; lia).
      rewrite Nat.div_small by (rewrite length_drop; lia). f_equal. lia.
Qed.

(** What the context holds after the message [m] has been fed to it. *)
Record holds (m : bytes) (c : md5) : Prop := {
  h_fin : finalized c = false;
  h_state : state c = fold_left rfc_compress (full_blocks m) init_state;
  h_len : length (buffer c) = 64%nat;
  h_buf : take (length m mod 64) (buffer c) = rest m;
  h_c0 : count0 c = u32 (8 * Z.of_nat (length m));
  h_c1 : count1 c = u32 (8 * Z.of_nat (length m) / 2 ^ 32);
}.

Lemma holds_init buf0 dig0 : length buf0 = 64%nat → holds [] (init buf0 dig0).
Proof. intros. split; simpl; done. Qed.

Lemma update_holds m c input : holds m c →
  Z.of_nat (length input) ≤ 2 ^ 32 - 64 → holds (m ++ input) (update input c).
Proof.
  intros [Hf Hs Hl Hb H0 H1] Hlen. unfold update. rewrite Hf.
  rewrite (wrap_id 32 (Z.of_nat (length input))) by range_lia.
  rewrite H0, H1, index_of_count.
  destruct (count_add (Z.of_nat (length m)) (Z.of_nat (length input))) as [E0 E1]; [lia|lia|].
  rewrite E0 in *. cbv zeta in E1. rewrite E1. clear E1 E0 H0 H1.
  replace (Z.of_nat (length m) + Z.of_nat (length input)) with (Z.of_nat (length (m ++ input))) by len.
  replace (Z.of_nat (length m) mod 64) with (Z.of_nat (length m mod 64))
    by (rewrite Nat2Z.inj_mod; done).
  set (ix := (length m mod 64)%nat) in *.
  assert (Hix : (ix < 64)%nat) by (apply Nat.mod_upper_bound; lia).
  assert (Hr : length (rest m) = ix) by apply length_rest.
  pose proof (length_rest (m ++ input)) as Hra.
  destruct (Z.leb_spec (64 - Z.of_nat ix) (Z.of_nat (length input))) as [Hfull|Hsmall].
  - (* the buffer is filled and compressed, then whole pieces of the input *)
    rewrite Nat2Z.id. replace (Z.to_nat (64 - Z.of_nat ix)) with (64 - ix)%nat by lia.
    set (buf := blit ix (take (64 - ix) input) (buffer c)).
    assert (Hbuf : buf = rest m ++ take (64 - ix) input).
    { rewrite <- Hb. rewrite <- (blit_take ix) by len. fold buf.
      rewrite take_ge; [done|]. unfold buf. rewrite length_blit by len. len. }
    rewrite update_loop_spec by lia.
    replace (Z.to_nat (64 - Z.of_nat ix)) with (64 - ix)%nat by lia.
    set (d := drop (64 - ix) input). cbv beta iota zeta.
    assert (Hmi : full_blocks (m ++ input) = full_blocks m ++ buf :: full_blocks d).
    { rewrite full_blocks_app. f_equal. rewrite full_blocks_cons by len.
      rewrite Hbuf. rewrite take_app_ge, drop_app_ge by lia. rewrite Hr. done. }
    assert (Hri : rest (m ++ input) = rest d).
    { rewrite rest_app. replace (rest m ++ input) with (buf ++ d)
        by (rewrite Hbuf, <- app_assoc; unfold d; rewrite take_drop; done).
      rewrite rest_app. f_equal. unfold rest.
      replace (length buf) with 64%nat by (rewrite Hbuf; len).
      change (64 * (64 / 64))%nat with 64%nat.
      rewrite drop_ge; [done|rewrite Hbuf; len]. }
    assert (Hd : drop (Z.to_nat (64 - Z.of_nat ix + 64 * Z.of_nat (length d / 64))) input = rest d).
    { unfold rest, d. rewrite drop_drop. f_equal. lia. }
    rewrite Hd. pose proof (length_rest d).
    pose proof (Nat.mod_upper_bound (length d) 64).
    assert (Hlb : length buf = 64%nat) by (rewrite Hbuf; len).
    split; rsimpl; auto.
    + rewrite Hmi, fold_left_app, <- Hs. simpl. rewrite transform_rfc. done.
    + rewrite length_blit; lia.
    + rewrite <- Hra, Hri. unfold blit. rewrite take_0. cbn [app]. rewrite take_app_le, take_ge by lia. done.
  - (* everything goes into the buffer *)
    rewrite Nat2Z.id. cbv beta iota zeta. change (Z.to_nat 0) with 0%nat. rewrite drop_0.
    assert (Hri : rest (m ++ input) = rest m ++ input).
    { rewrite rest_app. unfold rest at 1. rewrite Nat.div_small by len. done. }
    split; rsimpl; auto.
    + rewrite full_blocks_app, (full_blocks_small (rest m ++ input)), app_nil_r by len. done.
    + rewrite length_blit; lia.
    + rewrite <- Hra, Hri. len. rewrite Hr, blit_take by lia. rewrite Hb. done.
Qed.

Lemma fold_update_holds inputs : ∀ m c, holds m c →
  Forall (fun i => Z.of_nat (length i) ≤ 2 ^ 32 - 64) inputs →
  holds (m ++ concat inputs) (fold_left (fun c i => update i c) inputs c).
Proof.
  induction inputs as [|i inputs IH]; intros m c Hc Hi; simpl.
  - rewrite app_nil_r. done.
  - inversion_clear Hi. rewrite app_assoc. apply IH; [|done]. apply update_holds; done.
Qed.

(** ** finalize *)

Lemma length_rfc_pad m : (length (rfc_pad m) mod 64 = 0)%nat.
Proof.
  unfold rfc_pad. rewrite length_app. cbn [length]. len.
  pose proof (Nat.div_mod_eq (length m) 64) as Hd.
  pose proof (Nat.mod_upper_bound (length m) 64).
  assert ((119 - length m mod 64) mod 64 =
    if decide (length m mod 64 < 56)%nat then 55 - length m mod 64 else 119 - length m mod 64)%nat as ->.
  { case_decide; [|rewrite Nat.mod_small; lia].
    replace (119 - length m mod 64)%nat with (55 - length m mod 64 + 1 * 64)%nat by lia.
    rewrite Nat.Div0.mod_add, Nat.mod_small; lia. }
  case_decide.
  - replace (length m + S (55 - length m mod 64 + 8))%nat with ((length m / 64 + 1) * 64)%nat by lia.
    apply Nat.Div0.mod_mul.
  - replace (length m + S (119 - length m mod 64 + 8))%nat with ((length m / 64 + 2) * 64)%nat by lia.
    apply Nat.Div0.mod_mul.
Qed.

(** The padding bytes that [finalize] feeds, and the length field. *)
Definition fin_padding (m : bytes) : bytes :=
  0x80 :: replicate ((119 - length m mod 64) mod 64) 0.

Definition fin_bits (m : bytes) : bytes := to_le 8 (8 * Z.of_nat (length m)).

Lemma rfc_pad_split m : rfc_pad m = (m ++ fin_padding m) ++ fin_bits m.
Proof. unfold rfc_pad, fin_padding, fin_bits. rewrite <- app_assoc. done. Qed.

Lemma finalize_padding m :
  let index := Z.of_nat (length m) mod 64 in
  take (Z.to_nat (if index <? 56 then 56 - index else 120 - index)) PADDING = fin_padding m.
Proof.
  cbv zeta. unfold fin_padding, PADDING.
  replace (Z.of_nat (length m) mod 64) with (Z.of_nat (length m mod 64))
    by (rewrite Nat2Z.inj_mod; done).
  assert (Hix : (length m mod 64 < 64)%nat) by (apply Nat.mod_upper_bound; lia).
  revert Hix. generalize (length m mod 64)%nat as ix. intros ix Hix.
  do 64 (destruct ix as [|ix]; [reflexivity|]). lia.
Qed.

Lemma encode_count n : 0 ≤ n →
  encode [u32 (8 * n); u32 (8 * n / 2 ^ 32)] = to_le 8 (8 * n).
Proof.
  intros. rewrite encode_le. cbn [map concat]. rewrite app_nil_r.
  rewrite !(to_le_wrap 4). change 8%nat with (4 + 4)%nat at 1. rewrite to_le_app. done.
Qed.

(** The context that [finalize] leaves, before it stores the digest. *)
Definition flushed (m : bytes) (c : md5) : md5 := update (fin_bits m) (update (fin_padding m) c).

Lemma finalize_flushed m c : holds m c → finalize c =
  let c' := flushed m c in
  c' <| digest := let '(a, b, c, d) := state c' in encode [a; b; c; d] |>
     <| buffer := blit 0 [0] (buffer c') |> <| finalized := true |>.
Proof.
  intros Hh. destruct Hh as [Hf _ _ _ H0 H1]. unfold finalize. rewrite Hf, H0, H1.
  rewrite index_of_count, finalize_padding, encode_count by lia.
  fold (fin_bits m). fold (flushed m c).
  destruct (state (flushed m c)) as [[[? ?] ?] ?]. done.
Qed.

Lemma flushed_holds m c : holds m c → holds (rfc_pad m) (flushed m c).
Proof.
  intros Hh. rewrite rfc_pad_split. unfold flushed. apply update_holds; [apply update_holds; [done|]|].
  - unfold fin_padding. simpl length. rewrite length_replicate.
    pose proof (Nat.mod_upper_bound (119 - length m mod 64) 64). lia.
  - unfold fin_bits. rewrite length_to_le. done.
Qed.

Lemma rest_full m : (length m mod 64 = 0)%nat → rest m = [].
Proof. intros Hm. apply nil_length_inv. rewrite length_rest. done. Qed.

(** When an update fills the buffer exactly, the buffer keeps that block. *)
Lemma update_exact m c input : holds m c → (length (rest m) + length input = 64)%nat →
  buffer (update input c) = rest m ++ input.
Proof.
  intros [Hf Hs Hl Hb H0 H1] Hlen. unfold update. rewrite Hf, H0, index_of_count.
  rewrite length_rest in Hlen.
  replace (Z.of_nat (length m) mod 64) with (Z.of_nat (length m mod 64))
    by (rewrite Nat2Z.inj_mod; done).
  set (ix := (length m mod 64)%nat) in *.
  rewrite (wrap_id 32 (Z.of_nat (length input))) by range_lia.
  destruct (Z.leb_spec (64 - Z.of_nat ix) (Z.of_nat (length input))); [|lia].
  rewrite Nat2Z.id. replace (Z.to_nat (64 - Z.of_nat ix)) with (length input) by lia.
  rewrite take_ge by lia. rewrite update_loop_spec by lia.
  replace (Z.to_nat (64 - Z.of_nat ix)) with (length input) by lia. rewrite drop_all.
  cbv beta iota zeta. rsimpl. rewrite drop_ge by lia.
  unfold blit at 1. change (Z.to_nat 0) with 0%nat. rewrite take_0. simpl.
  rewrite <- Hb, <- (blit_take ix) by lia. rewrite take_ge; [done|].
  rewrite length_blit; lia.
Qed.

(** ** Properties *)



(** After finalize, neither update nor a second finalize changes the context. *)
Theorem md5_finalize_final m input :
  update input (finalize m) = finalize m ∧ finalize (finalize m) = finalize m.
Proof.
  assert (finalized (finalize m) = true) as Hf.
  { unfold finalize. destruct (finalized m) eqn:E; [done|].
    destruct (state _) as [[[? ?] ?] ?]. done. }
  generalize dependent (finalize m). intros c Hf. unfold update, finalize. rewrite Hf. done.
Qed.

(** Finalize clears only the first byte of the input buffer: the other 63 bytes of
    the last padded block, with the end of the hashed secret, stay in the object. *)
Theorem md5_finalize_keeps_block buf0 dig0 m :
  length buf0 = 64%nat → Z.of_nat (length m) ≤ 2 ^ 32 - 64 →
  buffer (finalize (update m (init buf0 dig0)))
  = 0 :: drop (length (rfc_pad m) - 63) (rfc_pad m).
Proof.
  intros Hb Hm.
  pose proof (update_holds _ _ m (holds_init buf0 dig0 Hb) Hm) as Hh. simpl in Hh.
  rewrite (finalize_flushed _ _ Hh). cbv zeta. rsimpl.
  assert (Hp : holds (m ++ fin_padding m) (update (fin_padding m) (update m (init buf0 dig0)))).
  { apply update_holds; [done|]. unfold fin_padding. simpl length. rewrite length_replicate.
    pose proof (Nat.mod_upper_bound (119 - length m mod 64) 64). lia. }
  assert (Hl : (length (rest (m ++ fin_padding m)) = 56)%nat).
  { pose proof (length_rfc_pad m) as Hz. rewrite rfc_pad_split, length_app in Hz.
    unfold fin_bits in Hz. rewrite length_to_le in Hz. rewrite length_rest.
    pose proof (Nat.div_mod_eq (length (m ++ fin_padding m) + 8) 64).
    pose proof (Nat.div_mod_eq (length (m ++ fin_padding m)) 64).
    pose proof (Nat.mod_upper_bound (length (m ++ fin_padding m)) 64). lia. }
  unfold flushed. rewrite (update_exact _ _ _ Hp) by (unfold fin_bits; len).
  unfold blit. rewrite take_0. cbn [app length Nat.add]. f_equal.
  rewrite rfc_pad_split. unfold rest in *. rewrite length_drop in Hl.
  rewrite <- drop_app_le by lia. rewrite drop_drop. f_equal.
  rewrite (length_app _ (fin_bits m)). unfold fin_bits. rewrite length_to_le. lia.
Qed.

Lemma md5_zero_witness :
  buffer (finalize (update (bs "secret") (init (replicate 64 0) (replicate 16 0))))
  = bs "" ++ 0 :: bs "ecret" ++ 0x80 :: replicate 49 0 ++ [48; 0; 0; 0; 0; 0; 0; 0].
Proof.
  rewrite (md5_finalize_keeps_block (replicate 64 0) (replicate 16 0) (bs "secret") eq_refl).
  - vm_compute. reflexivity.
  - vm_compute. discriminate.
Defined.

End Md5.
