(* ===== verification/Wire.v ===== *)
(** * Wire messages (src/tms/tms/TMSMessage.h, src/sdk/sdk/YMEMessage.h)

    The programs exchange packed C structs behind a six byte header.  Each
    struct is a record here; the class [Packed] is what a message type promises
    to the code that sends it and to the code that casts a receive buffer to it:
    its size, its memory image, the value read back from a buffer that starts
    with that image, and the round trip between the two.  [frame] is the framing
    every [SendTmsMsg] / [SendMsg2Tms] performs. *)

From S2P Require Import Prelude.
From stdpp Require Import base list strings.
From Stdlib Require Import ZArith Lia.

Open Scope Z_scope.

Module Wire.

(** ** Constants *)

Definition VALIDATER0 := 0x86.
Definition VALIDATER1 := 0x68.

(** [enum MessageEnum] *)
Definition LOGIN_REQ := 1.
Definition LOGIN_RSP := 2.
Definition CONNECT_HOST_REQ := 3.
Definition CONNECT_HOST_RSP := 4.
Definition BEGIN_TRANSMIT := 5.
Definition READ_TOKEN_REQ := 7.
Definition READ_TOKEN_RSP := 8.
Definition TRAFFIC_REPORT := 9.
Definition TRAFFIC_REPORT_RSP := 10.
Definition KEEP_ALIVE_TOKEN := 11.
Definition SYN_USER_TUPLE := 12.

(** [enum RespCode] *)
Definition SUCC := 0.
Definition READY := 0.
Definition PROG := 1.
Definition USER_NOT_EXIST := 2.
Definition NO_BALANCE := 3.
Definition PARAMET_ERR := 4.
Definition TOKEN_VERIFIED := 5.
Definition INCORRECT_TOKEN := 6.
Definition AGENT_ESTASBLISHED := 7.
Definition AGENT_NOT_CONNECTED := 8.
Definition HOST_NOT_EXIST := 9.
Definition FAIL := 0xFFFF.

(** ** Packed structs *)

(** An unsigned field of [n] bytes at offset [off] of a buffer. *)
Definition fld (off n : nat) (l : bytes) : Z := of_le (sub off n l).

(** A [long long] field. *)
Definition sfld (off n : nat) (l : bytes) : Z := swrap (8 * Z.of_nat n) (fld off n l).

Class Packed (T : Type) := {
  psize : nat;                       (* sizeof(T) *)
  penc : T → bytes;                  (* the object's bytes *)
  pdec : bytes → T;                  (* the object at the start of a buffer *)
  pvalid : T → Prop;                 (* every field in the range of its type *)
  psize_enc : ∀ x, pvalid x → length (penc x) = psize;
  pdec_enc : ∀ x junk, pvalid x → pdec (penc x ++ junk) = x;
}.

(** *** Offsets *)

Lemma sub_skip off n a l : (length a ≤ off)%nat →
  sub off n (a ++ l) = sub (off - length a) n l.
Proof. intros. unfold sub. rewrite drop_app_ge by lia. done. Qed.

Lemma sub_here n a l : length a = n → sub 0 n (a ++ l) = a.
Proof. intros <-. unfold sub. rewrite drop_0, take_app_length. done. Qed.

Lemma fld_here n v l : in_u (8 * Z.of_nat n) v → fld 0 n (to_le n v ++ l) = v.
Proof. intros. unfold fld. rewrite sub_here by len. apply of_to_le_id. done. Qed.

Lemma sfld_here n v l : (0 < n)%nat → in_s (8 * Z.of_nat n) v →
  sfld 0 n (to_le n v ++ l) = v.
Proof.
  intros Hn Hv. unfold sfld, fld. rewrite sub_here, of_to_le by len.
  unfold swrap, wrap. rewrite Zplus_mod_idemp_l. apply (swrap_id (8 * Z.of_nat n)); [lia|done].
Qed.

Lemma fld_skip off n a l : (length a ≤ off)%nat → fld off n (a ++ l) = fld (off - length a) n l.
Proof. intros. unfold fld. rewrite sub_skip; done. Qed.

Lemma sfld_skip off n a l : (length a ≤ off)%nat → sfld off n (a ++ l) = sfld (off - length a) n l.
Proof. intros. unfold sfld. rewrite fld_skip; done. Qed.

(** Reads every field of a concatenation of fields back. *)
Ltac read_fields :=
  repeat first
    [ rewrite fld_here by range_lia
    | rewrite sfld_here by (lia || range_lia)
    | rewrite sub_here by (autorewrite with tunnel_len; lia)
    | rewrite fld_skip by (autorewrite with tunnel_len; lia)
    | rewrite sfld_skip by (autorewrite with tunnel_len; lia)
    | rewrite sub_skip by (autorewrite with tunnel_len; lia) ];
  autorewrite with tunnel_len;
  repeat match goal with H : length ?a = _ |- context [length ?a] => rewrite H end;
  cbn [Nat.sub].

Ltac solve_packed :=
  let x := fresh "x" in let j := fresh "junk" in let H := fresh "H" in
  intros x j H; destruct x; cbn in H; destruct_and?;
  cbn -[to_le fld sfld sub]; rewrite <- ?app_assoc;
  f_equal; repeat (progress read_fields); try done.

(** *** The header *)

Record hdr_t := Hdr { delim0 : Z; delim1 : Z; hlen16 : Z; hcid : Z }.

#[export] Program Instance hdr_packed : Packed hdr_t := {|
  psize := 6;
  penc h := to_le 1 (delim0 h) ++ to_le 1 (delim1 h) ++ to_le 2 (hlen16 h) ++ to_le 2 (hcid h);
  pdec l := Hdr (fld 0 1 l) (fld 1 1 l) (fld 2 2 l) (fld 4 2 l);
  pvalid h := in_u 8 (delim0 h) ∧ in_u 8 (delim1 h) ∧ in_u 16 (hlen16 h) ∧ in_u 16 (hcid h);
|}.
Next Obligation. done. Qed.
Next Obligation. solve_packed. Qed.

(** *** SDK and server *)

(** [LoginReq]: the fixed part, up to [host]; the host follows with [host_len]
    bytes, the struct's [host[1]] being its first byte. *)
Record LoginReq := MkLoginReq {
  lq_msg_id : Z; lq_app : Z; lq_mobile : Z; lq_token : bytes; lq_port : Z; lq_host_len : Z }.

#[export] Program Instance login_req_packed : Packed LoginReq := {|
  psize := 54;
  penc r := to_le 2 (lq_msg_id r) ++ to_le 8 (lq_app r) ++ to_le 8 (lq_mobile r)
            ++ lq_token r ++ to_le 2 (lq_port r) ++ to_le 2 (lq_host_len r);
  pdec l := MkLoginReq (fld 0 2 l) (fld 2 8 l) (fld 10 8 l) (sub 18 32 l) (fld 50 2 l) (fld 52 2 l);
  pvalid r := in_u 16 (lq_msg_id r) ∧ in_u 64 (lq_app r) ∧ in_u 64 (lq_mobile r) ∧
              length (lq_token r) = 32%nat ∧ in_u 16 (lq_port r) ∧ in_u 16 (lq_host_len r);
|}.
Next Obligation. intros r H. cbn in H. destruct_and?. len. Qed.
Next Obligation. solve_packed. Qed.

Record LoginRsp := MkLoginRsp {
  lr_msg_id : Z; lr_rsp_code : Z; lr_avalable_traffic : Z; lr_forward_id : Z }.

#[export] Program Instance login_rsp_packed : Packed LoginRsp := {|
  psize := 20;
  penc r := to_le 2 (lr_msg_id r) ++ to_le 2 (lr_rsp_code r)
            ++ to_le 8 (lr_avalable_traffic r) ++ to_le 8 (lr_forward_id r);
  pdec l := MkLoginRsp (fld 0 2 l) (fld 2 2 l) (sfld 4 8 l) (fld 12 8 l);
  pvalid r := in_u 16 (lr_msg_id r) ∧ in_u 16 (lr_rsp_code r) ∧
              in_s 64 (lr_avalable_traffic r) ∧ in_u 64 (lr_forward_id r);
|}.
Next Obligation. done. Qed.
Next Obligation. solve_packed. Qed.

Record ConnectHostRsp := MkConnectHostRsp { cr_msg_id : Z; cr_rsp_code : Z; cr_forward_id : Z }.

#[export] Program Instance connect_host_rsp_packed : Packed ConnectHostRsp := {|
  psize := 8;
  penc r := to_le 2 (cr_msg_id r) ++ to_le 2 (cr_rsp_code r) ++ to_le 4 (cr_forward_id r);
  pdec l := MkConnectHostRsp (fld 0 2 l) (fld 2 2 l) (fld 4 4 l);
  pvalid r := in_u 16 (cr_msg_id r) ∧ in_u 16 (cr_rsp_code r) ∧ in_u 32 (cr_forward_id r);
|}.
Next Obligation. done. Qed.
Next Obligation. solve_packed. Qed.

Record BeginTransmit := MkBeginTransmit { bt_msg_id : Z; bt_forward_id : Z }.

#[export] Program Instance begin_transmit_packed : Packed BeginTransmit := {|
  psize := 6;
  penc r := to_le 2 (bt_msg_id r) ++ to_le 4 (bt_forward_id r);
  pdec l := MkBeginTransmit (fld 0 2 l) (fld 2 4 l);
  pvalid r := in_u 16 (bt_msg_id r) ∧ in_u 32 (bt_forward_id r);
|}.
Next Obligation. done. Qed.
Next Obligation. solve_packed. Qed.

(** *** Server and recorder *)

Record ReadTokenReq := MkReadTokenReq {
  rq_msg_id : Z; rq_cid : Z; rq_app : Z; rq_mobile : Z; rq_token : bytes }.

#[export] Program Instance read_token_req_packed : Packed ReadTokenReq := {|
  psize := 58;
  penc r := to_le 2 (rq_msg_id r) ++ to_le 8 (rq_cid r) ++ to_le 8 (rq_app r)
            ++ to_le 8 (rq_mobile r) ++ rq_token r;
  pdec l := MkReadTokenReq (fld 0 2 l) (fld 2 8 l) (fld 10 8 l) (fld 18 8 l) (sub 26 32 l);
  pvalid r := in_u 16 (rq_msg_id r) ∧ in_u 64 (rq_cid r) ∧ in_u 64 (rq_app r) ∧
              in_u 64 (rq_mobile r) ∧ length (rq_token r) = 32%nat;
|}.
Next Obligation. intros r H. cbn in H. destruct_and?. len. Qed.
Next Obligation. solve_packed. Qed.

Record ReadTokenRsp := MkReadTokenRsp {
  rr_msg_id : Z; rr_rsp_code : Z; rr_cid : Z; rr_app : Z; rr_mobile : Z; rr_balance : Z; rr_token : bytes }.

#[export] Program Instance read_token_rsp_packed : Packed ReadTokenRsp := {|
  psize := 68;
  penc r := to_le 2 (rr_msg_id r) ++ to_le 2 (rr_rsp_code r) ++ to_le 8 (rr_cid r)
            ++ to_le 8 (rr_app r) ++ to_le 8 (rr_mobile r) ++ to_le 8 (rr_balance r) ++ rr_token r;
  pdec l := MkReadTokenRsp (fld 0 2 l) (fld 2 2 l) (fld 4 8 l) (fld 12 8 l) (fld 20 8 l)
              (sfld 28 8 l) (sub 36 32 l);
  pvalid r := in_u 16 (rr_msg_id r) ∧ in_u 16 (rr_rsp_code r) ∧ in_u 64 (rr_cid r) ∧ in_u 64 (rr_app r) ∧
              in_u 64 (rr_mobile r) ∧ in_s 64 (rr_balance r) ∧ length (rr_token r) = 32%nat;
|}.
Next Obligation. intros r H. cbn in H. destruct_and?. len. Qed.
Next Obligation. solve_packed. Qed.

Record SynUserTuple := MkSynUserTuple {
  su_msg_id : Z; su_app : Z; su_mobile : Z; su_src_ip_be : Z; su_src_port_be : Z }.

#[export] Program Instance syn_user_tuple_packed : Packed SynUserTuple := {|
  psize := 24;
  penc r := to_le 2 (su_msg_id r) ++ to_le 8 (su_app r) ++ to_le 8 (su_mobile r)
            ++ to_le 4 (su_src_ip_be r) ++ to_le 2 (su_src_port_be r);
  pdec l := MkSynUserTuple (fld 0 2 l) (fld 2 8 l) (fld 10 8 l) (fld 18 4 l) (fld 22 2 l);
  pvalid r := in_u 16 (su_msg_id r) ∧ in_u 64 (su_app r) ∧ in_u 64 (su_mobile r) ∧
              in_u 32 (su_src_ip_be r) ∧ in_u 16 (su_src_port_be r);
|}.
Next Obligation. done. Qed.
Next Obligation. solve_packed. Qed.

(** A [timeval] is two [long]s. *)
Record timeval := Tv { tv_sec : Z; tv_usec : Z }.

#[export] Instance timeval_eq_dec : EqDecision timeval.
Proof. solve_decision. Defined.

Record TrafficReport := MkTrafficReport {
  tr_msg_id : Z; tr_app : Z; tr_mobile : Z; tr_traffic : Z; tr_btime : timeval; tr_etime : timeval;
  tr_ip : Z; tr_hlen : Z; tr_host : bytes }.

#[export] Program Instance traffic_report_packed : Packed TrafficReport := {|
  psize := 319;
  penc r := to_le 2 (tr_msg_id r) ++ to_le 8 (tr_app r) ++ to_le 8 (tr_mobile r) ++ to_le 8 (tr_traffic r)
            ++ to_le 8 (tv_sec (tr_btime r)) ++ to_le 8 (tv_usec (tr_btime r))
            ++ to_le 8 (tv_sec (tr_etime r)) ++ to_le 8 (tv_usec (tr_etime r))
            ++ to_le 4 (tr_ip r) ++ to_le 1 (tr_hlen r) ++ tr_host r;
  pdec l := MkTrafficReport (fld 0 2 l) (fld 2 8 l) (fld 10 8 l) (fld 18 8 l)
              (Tv (sfld 26 8 l) (sfld 34 8 l)) (Tv (sfld 42 8 l) (sfld 50 8 l))
              (fld 58 4 l) (fld 62 1 l) (sub 63 256 l);
  pvalid r := in_u 16 (tr_msg_id r) ∧ in_u 64 (tr_app r) ∧ in_u 64 (tr_mobile r) ∧ in_u 64 (tr_traffic r) ∧
              in_s 64 (tv_sec (tr_btime r)) ∧ in_s 64 (tv_usec (tr_btime r)) ∧
              in_s 64 (tv_sec (tr_etime r)) ∧ in_s 64 (tv_usec (tr_etime r)) ∧
              in_u 32 (tr_ip r) ∧ in_u 8 (tr_hlen r) ∧ length (tr_host r) = 256%nat;
|}.
Next Obligation. intros r H. cbn in H. destruct_and?. len. Qed.
Next Obligation.
  intros x junk H. destruct x as [? ? ? ? [? ?] [? ?] ? ? ?]. cbn in H. destruct_and?.
  rewrite <- !app_assoc. cbn [tr_msg_id tr_app tr_mobile tr_traffic tr_btime tr_etime tr_ip tr_hlen tr_host tv_sec tv_usec].
  repeat f_equal; repeat (progress read_fields); done.
Qed.

Record TrafficReportRsp := MkTrafficReportRsp {
  tp_msg_id : Z; tp_app : Z; tp_mobile : Z; tp_traffic : Z; tp_ip : Z; tp_rsp_code : Z }.

#[export] Program Instance traffic_report_rsp_packed : Packed TrafficReportRsp := {|
  psize := 31;
  penc r := to_le 2 (tp_msg_id r) ++ to_le 8 (tp_app r) ++ to_le 8 (tp_mobile r)
            ++ to_le 8 (tp_traffic r) ++ to_le 4 (tp_ip r) ++ to_le 1 (tp_rsp_code r);
  pdec l := MkTrafficReportRsp (fld 0 2 l) (fld 2 8 l) (fld 10 8 l) (fld 18 8 l) (fld 26 4 l) (fld 30 1 l);
  pvalid r := in_u 16 (tp_msg_id r) ∧ in_u 64 (tp_app r) ∧ in_u 64 (tp_mobile r) ∧
              in_u 64 (tp_traffic r) ∧ in_u 32 (tp_ip r) ∧ in_u 8 (tp_rsp_code r);
|}.
Next Obligation. done. Qed.
Next Obligation. solve_packed. Qed.

(** [ConnectHostReq]: the fixed part, up to [host]. *)
Record ConnectHostReq := MkConnectHostReq { ch_msg_id : Z; ch_port : Z; ch_host_len : Z }.

#[export] Program Instance connect_host_req_packed : Packed ConnectHostReq := {|
  psize := 6;
  penc r := to_le 2 (ch_msg_id r) ++ to_le 2 (ch_port r) ++ to_le 2 (ch_host_len r);
  pdec l := MkConnectHostReq (fld 0 2 l) (fld 2 2 l) (fld 4 2 l);
  pvalid r := in_u 16 (ch_msg_id r) ∧ in_u 16 (ch_port r) ∧ in_u 16 (ch_host_len r);
|}.
Next Obligation. done. Qed.
Next Obligation. solve_packed. Qed.

(** *** Arrays *)

(** An array of [n] unsigned words of 64 bits at [off]. *)
Definition words64 (off n : nat) (l : bytes) : list Z := (fun i => fld (off + 8 * i) 8 l) <$> seq 0 n.

Definition enc64 (v : list Z) : bytes := concat (to_le 8 <$> v).

Lemma length_enc64 v : length (enc64 v) = (8 * length v)%nat.
Proof. induction v as [|x v IH]; [done|]. unfold enc64 in *. cbn [fmap list_fmap concat length]. rewrite length_app, IH, length_to_le. lia. Qed.

Lemma words64_skip off n a l : (length a ≤ off)%nat → words64 off n (a ++ l) = words64 (off - length a) n l.
Proof.
  intros Ha. unfold words64. apply list_fmap_ext. intros i x _. rewrite fld_skip by lia. f_equal. lia.
Qed.

Lemma words64_here v l : Forall (in_u 64) v → words64 0 (length v) (enc64 v ++ l) = v.
Proof.
  intros Hv. revert l. induction Hv as [|x v Hx Hv IH]; intros l; [done|].
  unfold enc64, words64. cbn [fmap list_fmap concat length seq]. rewrite <-app_assoc, fld_here by done. f_equal.
  rewrite <-fmap_S_seq, <-list_fmap_compose. rewrite <-(IH l) at 2. apply list_fmap_ext. intros i j _. unfold compose.
  rewrite fld_skip by len. f_equal. len.
Qed.

Record KeepAliveToken := MkKeepAliveToken { ka_msg_id : Z; ka_app : list Z; ka_mobile : list Z }.

#[export] Program Instance keep_alive_token_packed : Packed KeepAliveToken := {|
  psize := 258;
  penc r := to_le 2 (ka_msg_id r) ++ enc64 (ka_app r) ++ enc64 (ka_mobile r);
  pdec l := MkKeepAliveToken (fld 0 2 l) (words64 2 16 l) (words64 130 16 l);
  pvalid r := in_u 16 (ka_msg_id r) ∧ length (ka_app r) = 16%nat ∧ length (ka_mobile r) = 16%nat ∧
              Forall (in_u 64) (ka_app r) ∧ Forall (in_u 64) (ka_mobile r);
|}.
Next Obligation. intros r (_ & Ha & Hm & _). rewrite !length_app, !length_enc64, length_to_le, Ha, Hm. done. Qed.
Next Obligation.
  intros [i a m] junk (Hi & Ha & Hm & Hav & Hmv). cbn [ka_msg_id ka_app ka_mobile] in *. rewrite <-!app_assoc. f_equal.
  - apply fld_here, Hi.
  - rewrite words64_skip by len. rewrite length_to_le. rewrite <-Ha. apply words64_here, Hav.
  - rewrite !words64_skip by (rewrite ?length_enc64, ?Ha; len).
    rewrite length_to_le, length_enc64, Ha. cbn [Nat.sub Nat.mul Nat.add]. rewrite <-Hm. apply words64_here, Hmv.
Qed.

(** ** Typed messages *)

(** A buffer that is long enough decodes to an object whose fields are all in the
    range of their types, and encoding the object gives the bytes back. *)
Definition typed (T : Type) `{!Packed T} : Prop :=
  ∀ l, bytes_ok l → (psize (T := T) ≤ length l)%nat → pvalid (pdec (T := T) l) ∧ penc (pdec (T := T) l) = take psize l.

Lemma bytes_ok_sub off n l : bytes_ok l → bytes_ok (sub off n l).
Proof. intros Hl. unfold sub. auto with tunnel. Qed.

Lemma fld_range off n l : bytes_ok l → (off + n ≤ length l)%nat → in_u (8 * Z.of_nat n) (fld off n l).
Proof. intros Hl Hn. unfold fld. rewrite <-(length_sub off n l Hn) at 1. apply of_le_range, bytes_ok_sub, Hl. Qed.

Lemma to_le_fld off n l : bytes_ok l → (off + n ≤ length l)%nat → to_le n (fld off n l) = sub off n l.
Proof. intros Hl Hn. unfold fld. rewrite <-(length_sub off n l Hn) at 1. apply to_of_le, bytes_ok_sub, Hl. Qed.

Lemma to_le_sfld off n l : bytes_ok l → (off + n ≤ length l)%nat → to_le n (sfld off n l) = sub off n l.
Proof.
  intros Hl Hn. unfold sfld. rewrite <-to_le_wrap, <-(to_le_fld off n l) by done. rewrite <-(to_le_wrap n (fld off n l)).
  f_equal. unfold swrap, wrap. rewrite Zminus_mod_idemp_l. f_equal. lia.
Qed.

Lemma sub_join off n m l : sub off n l ++ sub (off + n) m l = sub off (n + m) l.
Proof. unfold sub. rewrite <-drop_drop. apply take_take_drop. Qed.

Lemma sub_join_at off n off' m l : off' = (off + n)%nat → sub off n l ++ sub off' m l = sub off (n + m) l.
Proof. intros ->. apply sub_join. Qed.

Lemma sub_zero n l : sub 0 n l = take n l.
Proof. done. Qed.

Lemma sfld_range off n l : (0 < n)%nat → in_s (8 * Z.of_nat n) (sfld off n l).
Proof. intros Hn. apply swrap_range. lia. Qed.

Lemma words64_typed off n l : bytes_ok l → (off + 8 * n ≤ length l)%nat →
  Forall (in_u 64) (words64 off n l) ∧ enc64 (words64 off n l) = sub off (8 * n) l.
Proof.
  intros Hl. revert off. induction n as [|n IH]; intros off Hn; [split; [constructor|done]|].
  assert (words64 off (S n) l = fld off 8 l :: words64 (off + 8) n l) as ->.
  { unfold words64. cbn [seq fmap list_fmap]. f_equal; [f_equal; lia|]. rewrite <-fmap_S_seq, <-list_fmap_compose.
    apply list_fmap_ext. intros i j _. unfold compose. f_equal. lia. }
  destruct (IH (off + 8)%nat ltac:(lia)) as [H1 H2]. split.
  - constructor; [|done]. apply (fld_range off 8 l Hl). lia.
  - unfold enc64 in *. cbn [fmap list_fmap concat]. rewrite H2, to_le_fld by (done || lia).
    rewrite sub_join. f_equal. lia.
Qed.

(** The fields of a message are read at consecutive offsets. *)
Ltac solve_typed :=
  let l := fresh "l" in let Hl := fresh "Hl" in let Hn := fresh "Hn" in
  intros l Hl Hn; cbn in Hn;
  split;
  [ cbn -[fld sfld sub in_u in_s words64]; split_and!;
    first [ apply (fld_range _ 1 l Hl); lia | apply (fld_range _ 2 l Hl); lia | apply (fld_range _ 4 l Hl); lia
          | apply (fld_range _ 8 l Hl); lia | apply (sfld_range _ 8 l); lia | apply length_sub; lia
          | apply (words64_typed _ 16 l Hl); lia | done ]
  | cbn -[to_le fld sfld sub take words64 enc64];
    rewrite ?to_le_fld, ?to_le_sfld by (done || lia);
    repeat match goal with |- context [enc64 (words64 ?o ?n l)] =>
      rewrite (proj2 (words64_typed o n l Hl ltac:(lia))) end;
    rewrite <-(sub_zero _ l);
    repeat rewrite app_assoc, sub_join_at by reflexivity; rewrite sub_join_at by reflexivity;
    done ].


End Wire.
