(* ===== verification/Frame.v ===== *)
(** * Framing and reassembly

    Every program frames its messages the same way and reads them back with the
    same loop: [Connect::StreamRecvEvent] of src/ic-dpi/ic-dpi/ConnectMgr.cpp,
    whose header and body cases src/tms/tms/ConnectMgr.cpp and
    src/sdk/sdk/ConnectMgr.cpp share.  [SendTmsMsg] is the sending side.  A
    socket is its receive queue: [read] returns at most the bytes asked for, at
    least one when any is there, and less than asked only when the queue is
    drained (epoll(7)).

    The theorems: what one side frames the other reassembles, in order, however
    the bytes are cut into arrivals; a frame whose length field exceeds the
    buffer is written past its end; a frame of length zero reads as end of
    file; a wrong delimiter is reported. *)

From S2P Require Import Prelude Wire.
From stdpp Require Import base list strings.
From Stdlib Require Import ZArith Lia.
Import Wire.

Open Scope Z_scope.

Module Frame.

(** [enum Trans_stat] *)
Inductive Trans_stat := s_header | s_body | s_forward | s_wait.

#[export] Instance trans_stat_eq_dec : EqDecision Trans_stat.
Proof. solve_decision. Defined.

(** sizeof(hdr_t), sizeof(buff) *)
Definition HDR : Z := 6.
Definition BUFF : Z := 8192.

(** ** The sending side *)

(** The bytes [SendTmsMsg] builds in [tmsMsg[1024]]: the header with the length
    in network order, then the message. *)
Definition frame (msg : bytes) : bytes :=
  penc (Hdr VALIDATER0 VALIDATER1 (htons (Z.of_nat (length msg))) 0) ++ msg.

Definition SendTmsMsg_bytes (msg : bytes) : result bytes :=
  if Z.of_nat (length msg) + HDR <=? 1024 then Ok (frame msg) else Bad OutOfBounds.

(** ** The receiving side *)

(** The fields of [Connect] that the loop uses. *)
Record reader := Reader {
  cstate : Trans_stat;
  h_len : Z;                (* h.len in host order *)
  stillneedtoread : Z;      (* U16 *)
  offset : Z;               (* U16 *)
  buff : bytes;
}.

#[export] Instance eta_reader : Eta reader := fun x =>
  Reader (cstate x) (h_len x) (stillneedtoread x) (offset x) (buff x).

(** A connection as [HandleAcceptEvent] leaves it. *)
Definition fresh_reader (buf0 : bytes) : reader := Reader s_header 0 HDR 0 buf0.

(** [read(fd, buff + offset, n)] on a socket whose queue holds [avail]: the value
    returned and the bytes moved. *)
Definition sock_read (n : Z) (avail : bytes) (eof : bool) : Z * bytes :=
  if n =? 0 then (0, [])
  else match avail with
       | [] => (if eof then 0 else -1, [])
       | _ => let got := take (Z.to_nat n) avail in (Z.of_nat (length got), got)
       end.

Section StreamRecv.

(** The state the message handler works on, and the handler: it is given the
    whole buffer and the length of the message. *)
Context {St : Type}.
Variable HandleRecvMsg : bytes → Z → St → St.

Record outcome := Outcome {
  o_ret : Z;                (* the value returned *)
  o_avail : bytes;          (* what is left in the socket *)
  o_reader : reader;
  o_state : St;
}.

(** [Connect::StreamRecvEvent] of the dpi: [while ((length = read(...)) > 0)].
    The fuel counts iterations. *)
Fixpoint stream_loop (fuel : nat) (avail : bytes) (eof : bool) (r : reader) (s : St)
  : result outcome :=
  match fuel with
  | O => Bad OutOfFuel
  | S fuel' =>
    let '(length_, got) := sock_read (stillneedtoread r) avail eof in
    let avail := drop (Z.to_nat length_) avail in
    if length_ <=? 0 then Ok (Outcome length_ avail r s)
    else if negb (offset r + length_ <=? Z.of_nat (length (buff r))) then Bad OutOfBounds
    else
      let r := r <| buff := blit (Z.to_nat (offset r)) got (buff r) |> in
      if bool_decide (cstate r ≠ s_forward) && (length_ <? stillneedtoread r) then
        Ok (Outcome (-2) avail
              (r <| offset := u16 (offset r + length_) |>
                 <| stillneedtoread := u16 (stillneedtoread r - length_) |>) s)
      else
        match cstate r with
        | s_header =>
          let h := pdec (buff r) in
          if negb (delim0 h =? VALIDATER0) || negb (delim1 h =? VALIDATER1)
          then Ok (Outcome (-1) avail r s)
          else
            let len := ntohs (hlen16 h) in
            stream_loop fuel' avail eof
              (r <| h_len := len |> <| cstate := s_body |> <| offset := 0 |>
                 <| stillneedtoread := len |>) s
        | s_body =>
          let r := r <| cstate := s_header |> <| stillneedtoread := HDR |> <| offset := 0 |> in
          stream_loop fuel' avail eof r (HandleRecvMsg (buff r) (h_len r) s)
        | _ => stream_loop fuel' avail eof r s
        end
  end.

(** Every iteration but the last consumes a byte. *)
Definition StreamRecvEvent (avail : bytes) (eof : bool) (r : reader) (s : St) : result outcome :=
  stream_loop (S (length avail)) avail eof r s.

(** A sequence of arrivals, each followed by a call; what a call leaves in the
    socket is there at the next. *)
Fixpoint arrivals (cs : list bytes) (pending : bytes) (r : reader) (s : St) : result outcome :=
  match cs with
  | [] => Ok (Outcome 0 pending r s)
  | c :: cs' =>
    match StreamRecvEvent (pending ++ c) false r s with
    | Ok o => arrivals cs' (o_avail o) (o_reader o) (o_state o)
    | Bad f => Bad f
    end
  end.

(** ** One iteration *)

(** A reader between two calls: room in the buffer for what it still needs. *)
Definition reader_ok (r : reader) : Prop :=
  Z.of_nat (length (buff r)) = BUFF ∧ 0 ≤ offset r ∧ 0 < stillneedtoread r ∧
  offset r + stillneedtoread r ≤ BUFF ∧ (cstate r = s_header ∨ cstate r = s_body).

Lemma sock_read_some n avail eof : 0 < n → avail ≠ [] →
  sock_read n avail eof =
    (Z.of_nat (length (take (Z.to_nat n) avail)), take (Z.to_nat n) avail).
Proof.
  intros Hn Ha. unfold sock_read. destruct (Z.eqb_spec n 0); [lia|].
  destruct avail; done.
Qed.

Lemma loop_empty fuel eof r s : 0 < stillneedtoread r →
  stream_loop (S fuel) [] eof r s = Ok (Outcome (if eof then 0 else -1) [] r s).
Proof.
  intros Hn. cbn [stream_loop]. unfold sock_read.
  destruct (Z.eqb_spec (stillneedtoread r) 0); [lia|]. destruct eof; done.
Qed.

(** The reader after the bytes [got] have been moved and counted. *)
Definition partial (got : bytes) (r : reader) : reader :=
  r <| buff := blit (Z.to_nat (offset r)) got (buff r) |>
    <| offset := u16 (offset r + Z.of_nat (length got)) |>
    <| stillneedtoread := u16 (stillneedtoread r - Z.of_nat (length got)) |>.

Lemma loop_partial fuel avail eof r s : reader_ok r → avail ≠ [] →
  Z.of_nat (length avail) < stillneedtoread r →
  stream_loop (S fuel) avail eof r s = Ok (Outcome (-2) [] (partial avail r) s).
Proof.
  intros (Hb & Ho & Hn & Hs & Hc) Ha Hl. cbn [stream_loop].
  rewrite sock_read_some by done. rewrite take_ge by lia. rewrite Nat2Z.id, drop_all.
  assert (length avail ≠ 0%nat) by (destruct avail; [done|simpl; lia]).
  destruct (Z.leb_spec (Z.of_nat (length avail)) 0); [lia|].
  destruct (Z.leb_spec (offset r + Z.of_nat (length avail)) (Z.of_nat (length (buff r))));
    [|unfold BUFF in *; lia].
  rsimpl. rewrite bool_decide_true by (destruct Hc as [-> | ->]; discriminate).
  destruct (Z.ltb_spec (Z.of_nat (length avail)) (stillneedtoread r)); [done|lia].
Qed.

(** What the loop does with a complete header or body, given the reader whose
    buffer holds it. *)
Definition dispatch (k : reader → St → result outcome) (stop : reader → result outcome)
    (r : reader) (s : St) : result outcome :=
  match cstate r with
  | s_header =>
    let h := pdec (buff r) in
    if negb (delim0 h =? VALIDATER0) || negb (delim1 h =? VALIDATER1) then stop r
    else k (r <| h_len := ntohs (hlen16 h) |> <| cstate := s_body |> <| offset := 0 |>
              <| stillneedtoread := ntohs (hlen16 h) |>) s
  | _ =>
    let r := r <| cstate := s_header |> <| stillneedtoread := HDR |> <| offset := 0 |> in
    k r (HandleRecvMsg (buff r) (h_len r) s)
  end.

Lemma loop_complete fuel got rest eof r s : reader_ok r →
  Z.of_nat (length got) = stillneedtoread r →
  stream_loop (S fuel) (got ++ rest) eof r s =
  dispatch (stream_loop fuel rest eof) (fun r => Ok (Outcome (-1) rest r s))
    (r <| buff := blit (Z.to_nat (offset r)) got (buff r) |>) s.
Proof.
  intros (Hb & Ho & Hn & Hs & Hc) Hl. cbn [stream_loop].
  rewrite sock_read_some; [|done|destruct got; simpl in *; [lia|done]].
  replace (Z.to_nat (stillneedtoread r)) with (length got) by lia.
  rewrite take_app_length, Nat2Z.id, drop_app_length.
  destruct (Z.leb_spec (Z.of_nat (length got)) 0); [lia|].
  destruct (Z.leb_spec (offset r + Z.of_nat (length got)) (Z.of_nat (length (buff r))));
    [|unfold BUFF in *; lia].
  rsimpl. rewrite bool_decide_true by (destruct Hc as [-> | ->]; discriminate).
  destruct (Z.ltb_spec (Z.of_nat (length got)) (stillneedtoread r)); [lia|].
  unfold dispatch. rsimpl. destruct Hc as [-> | ->]; done.
Qed.

Lemma loop_overflow fuel avail eof r s : 0 < stillneedtoread r → avail ≠ [] →
  Z.of_nat (length (buff r)) < offset r + Z.of_nat (length (take (Z.to_nat (stillneedtoread r)) avail)) →
  stream_loop (S fuel) avail eof r s = Bad OutOfBounds.
Proof.
  intros Hn Ha Hl. cbn [stream_loop]. rewrite sock_read_some by done.
  destruct (Z.leb_spec (Z.of_nat (length (take (Z.to_nat (stillneedtoread r)) avail))) 0) as [Hz|_].
  { destruct avail; [done|]. rewrite length_take in Hz. simpl in Hz. lia. }
  destruct (Z.leb_spec (offset r + Z.of_nat (length (take (Z.to_nat (stillneedtoread r)) avail)))
              (Z.of_nat (length (buff r)))); [lia|]. done.
Qed.

Lemma loop_zero fuel avail eof r s : stillneedtoread r = 0 →
  stream_loop (S fuel) avail eof r s = Ok (Outcome 0 avail r s).
Proof. intros Hn. cbn [stream_loop]. unfold sock_read. rewrite Hn. simpl. rewrite drop_0. done. Qed.

(** ** Runs that consume everything *)

(** The reader and the handler's state after a complete header or body, [None]
    when the header's delimiters are wrong. *)
Definition next (got : bytes) (r : reader) (s : St) : option (reader * St) :=
  let b := blit (Z.to_nat (offset r)) got (buff r) in
  match cstate r with
  | s_header =>
    let h := pdec b in
    if negb (delim0 h =? VALIDATER0) || negb (delim1 h =? VALIDATER1) then None
    else Some (Reader s_body (ntohs (hlen16 h)) (ntohs (hlen16 h)) 0 b, s)
  | _ => Some (Reader s_header (h_len r) HDR 0 b, HandleRecvMsg b (h_len r) s)
  end.

Inductive consumes : reader → St → bytes → reader → St → Prop :=
  | consumes_nil r s : reader_ok r → consumes r s [] r s
  | consumes_part r s a : reader_ok r → a ≠ [] →
      Z.of_nat (length a) < stillneedtoread r → consumes r s a (partial a r) s
  | consumes_full r s got rest r1 s1 r' s' : reader_ok r →
      Z.of_nat (length got) = stillneedtoread r → next got r s = Some (r1, s1) →
      consumes r1 s1 rest r' s' → consumes r s (got ++ rest) r' s'.

Lemma consumes_loop r s a r' s' : consumes r s a r' s' →
  ∀ fuel, (length a < fuel)%nat →
  ∃ ret, stream_loop fuel a false r s = Ok (Outcome ret [] r' s').
Proof.
  induction 1 as [r s Hr|r s a Hr Ha Hl|r s got rest r1 s1 r' s' Hr Hl Hn Hc IH];
    intros [|fuel] Hf; try lia.
  - eexists. apply loop_empty. apply Hr.
  - eexists. apply loop_partial; done.
  - rewrite loop_complete by done. rewrite length_app in Hf.
    destruct (IH fuel) as [ret Hret].
    { destruct Hr as (_ & _ & ? & _). lia. }
    exists ret. rewrite <- Hret. clear Hret IH.
    unfold next in Hn. unfold dispatch. rsimpl. destruct Hr as (_ & _ & _ & _ & [Hs|Hs]);
      rewrite Hs in *; [destruct (_ || _); [done|]|]; injection Hn as <- <-; done.
Qed.

Lemma partial_ok a r : reader_ok r → Z.of_nat (length a) < stillneedtoread r →
  reader_ok (partial a r) ∧
  offset (partial a r) = offset r + Z.of_nat (length a) ∧
  stillneedtoread (partial a r) = stillneedtoread r - Z.of_nat (length a) ∧
  buff (partial a r) = blit (Z.to_nat (offset r)) a (buff r).
Proof.
  intros (Hb & Ho & Hn & Hs & Hc) Hl. unfold BUFF in *.
  unfold reader_ok, partial. rsimpl. unfold BUFF.
  rewrite !wrap_id by range_lia. rewrite length_blit by lia.
  split_and!; try done; lia.
Qed.

Lemma partial_partial a b r : reader_ok r →
  Z.of_nat (length (a ++ b)) < stillneedtoread r →
  partial b (partial a r) = partial (a ++ b) r.
Proof.
  intros Hr Hl. rewrite length_app in Hl.
  destruct (partial_ok a r) as (_ & E1 & E2 & E3); [done|lia|].
  unfold partial at 1. rewrite E1, E2, E3.
  destruct Hr as (Hb & Ho & Hn & Hs & Hc). unfold BUFF in *.
  replace (Z.to_nat (offset r + Z.of_nat (length a)))
    with (Z.to_nat (offset r) + length a)%nat by lia.
  rewrite blit_blit by lia.
  destruct r as [c h n o bf]. unfold partial, set. cbn. rewrite length_app. f_equal; f_equal; lia.
Qed.

Lemma next_partial a g r s : reader_ok r →
  Z.of_nat (length (a ++ g)) = stillneedtoread r → g ≠ [] →
  next g (partial a r) s = next (a ++ g) r s.
Proof.
  intros Hr Hl Hg. rewrite length_app in Hl.
  assert (length g ≠ 0%nat) by (destruct g; [done|simpl; lia]).
  destruct (partial_ok a r) as (_ & E1 & _ & E3); [done|lia|].
  destruct Hr as (Hb & Ho & Hn & Hs & Hc). unfold BUFF in *.
  unfold next. rewrite E1, E3.
  replace (Z.to_nat (offset r + Z.of_nat (length a)))
    with (Z.to_nat (offset r) + length a)%nat by lia.
  rewrite blit_blit by lia. done.
Qed.

Lemma consumes_ok r s a r' s' : consumes r s a r' s' → reader_ok r.
Proof. by inversion 1. Qed.

(** A run over two arrivals joined splits into two runs. *)
Lemma consumes_split r s a r' s' : consumes r s a r' s' →
  ∀ a1 a2, a = a1 ++ a2 →
  ∃ r1 s1, consumes r s a1 r1 s1 ∧ consumes r1 s1 a2 r' s'.
Proof.
  induction 1 as [r s Hr|r s a Hr Ha Hl|r s got rest r1 s1 r' s' Hr Hl Hn Hc IH];
    intros a1 a2 Heq.
  - symmetry in Heq. apply app_eq_nil in Heq as [-> ->].
    exists r, s. split; constructor; done.
  - subst a. destruct (decide (a1 = [])) as [->|H1].
    { exists r, s. split; constructor; done. }
    rewrite length_app in Hl. destruct (partial_ok a1 r Hr) as (Hp & _ & Hpn & _); [lia|].
    exists (partial a1 r), s. split; [constructor; [done|done|lia]|].
    destruct (decide (a2 = [])) as [->|H2].
    { rewrite app_nil_r. constructor. done. }
    rewrite <- partial_partial; [|done|rewrite length_app; lia].
    constructor; [done|done|lia].
  - destruct (decide (length got ≤ length a1)%nat) as [Hle|Hgt].
    + assert (a1 = got ++ drop (length got) a1) as Ha1.
      { rewrite <- (take_drop (length got) a1) at 1. f_equal.
        apply (f_equal (take (length got))) in Heq.
        rewrite take_app_length, take_app_le in Heq by done. done. }
      rewrite Ha1, <- app_assoc in Heq. apply app_inv_head in Heq.
      destruct (IH _ _ Heq) as (r2 & s2 & ? & ?). exists r2, s2.
      split; [rewrite Ha1; econstructor; eauto|done].
    + destruct (decide (a1 = [])) as [->|H1].
      { simpl in Heq. subst a2. exists r, s. split; econstructor; eauto. }
      assert (got = a1 ++ drop (length a1) got) as Hg.
      { rewrite <- (take_drop (length a1) got) at 1. f_equal.
        apply (f_equal (take (length a1))) in Heq.
        rewrite take_app_length, take_app_le in Heq by lia. done. }
      set (g := drop (length a1) got) in *.
      assert (a2 = g ++ rest) as ->.
      { rewrite Hg, <- app_assoc in Heq. apply app_inv_head in Heq. done. }
      assert (g ≠ []) by (intros E; rewrite E, app_nil_r in Hg; subst got; lia).
      rewrite Hg, length_app in Hl.
      assert (length g ≠ 0%nat) by (destruct g; [done|simpl; lia]).
      destruct (partial_ok a1 r Hr) as (Hp & _ & Hpn & _); [lia|].
      exists (partial a1 r), s. split; [constructor; [done|done|lia]|].
      econstructor; [done|lia| |done].
      rewrite next_partial; [by rewrite <- Hg|done|rewrite length_app; lia|done].
Qed.

(** However the bytes are cut into arrivals, the run ends in the same state. *)
Lemma consumes_arrivals cs : ∀ r s r' s', consumes r s (concat cs) r' s' →
  ∃ ret, arrivals cs [] r s = Ok (Outcome ret [] r' s').
Proof.
  induction cs as [|c cs IH]; intros r s r' s' Hc; simpl in *.
  - inversion Hc; subst; [eauto|done|]. exfalso.
    match goal with H : _ ++ _ = [] |- _ => apply app_eq_nil in H as [-> ->] end.
    unfold reader_ok in *. simpl in *. lia.
  - destruct (consumes_split _ _ _ _ _ Hc _ _ eq_refl) as (r1 & s1 & H1 & H2).
    destruct (consumes_loop _ _ _ _ _ H1 (S (length c))) as [ret Hret]; [lia|].
    unfold StreamRecvEvent. rewrite Hret. simpl. apply IH. done.
Qed.

End StreamRecv.

(** ** What a header on the wire means *)

Lemma length_frame msg : length (frame msg) = (6 + length msg)%nat.
Proof. unfold frame. rewrite length_app. done. Qed.

Lemma hdr_at_start (msg dst : bytes) :
  pdec (blit 0 (penc (Hdr VALIDATER0 VALIDATER1 (htons (Z.of_nat (length msg))) 0)) dst)
  = Hdr VALIDATER0 VALIDATER1 (htons (Z.of_nat (length msg))) 0.
Proof.
  unfold blit. rewrite take_0. cbn [app]. apply pdec_enc.
  repeat split; try done; apply htons_range.
Qed.

Section Reassembly.

Context {St : Type}.
Variable HandleRecvMsg : bytes → Z → St → St.

Lemma fresh_reader_ok buf0 : Z.of_nat (length buf0) = BUFF → reader_ok (fresh_reader buf0).
Proof. intros. split_and!; try done. left. done. Qed.

Lemma length_hdr_enc (msg : bytes) :
  length (penc (Hdr VALIDATER0 VALIDATER1 (htons (Z.of_nat (length msg))) 0)) = 6%nat.
Proof. reflexivity. Qed.

(** After the header, the reader waits for a body of the announced length. *)
Lemma next_header (msg : bytes) hl (b : bytes) (s : St) : in_u 16 (Z.of_nat (length msg)) →
  next HandleRecvMsg (penc (Hdr VALIDATER0 VALIDATER1 (htons (Z.of_nat (length msg))) 0))
    (Reader s_header hl HDR 0 b) s =
  Some (Reader s_body (Z.of_nat (length msg)) (Z.of_nat (length msg)) 0
          (blit 0 (penc (Hdr VALIDATER0 VALIDATER1 (htons (Z.of_nat (length msg))) 0)) b), s).
Proof.
  intros Hm. unfold next. cbn [cstate offset buff]. change (Z.to_nat 0) with 0%nat.
  rewrite hdr_at_start. cbn [delim0 delim1 hlen16]. rewrite !Z.eqb_refl. cbn [negb orb].
  rewrite ntohs_htons by done. done.
Qed.

(** One whole frame, from the start of a header to the start of the next. *)
Lemma consumes_frame msg rest hl b s r' s' :
  1 ≤ Z.of_nat (length msg) ≤ BUFF → Z.of_nat (length b) = BUFF →
  let b1 := blit 0 (penc (Hdr VALIDATER0 VALIDATER1 (htons (Z.of_nat (length msg))) 0)) b in
  let b2 := blit 0 msg b1 in
  consumes HandleRecvMsg (Reader s_header (Z.of_nat (length msg)) HDR 0 b2)
    (HandleRecvMsg b2 (Z.of_nat (length msg)) s) rest r' s' →
  consumes HandleRecvMsg (Reader s_header hl HDR 0 b) s (frame msg ++ rest) r' s'.
Proof.
  intros Hm Hb b1 b2 Hc. unfold BUFF in *. unfold frame. rewrite <- app_assoc.
  assert (Z.of_nat (length b1) = BUFF).
  { unfold b1. rewrite length_blit; [done|]. rewrite length_hdr_enc. lia. }
  unfold BUFF in *.
  eapply consumes_full.
  - split_and!; try done. left. done.
  - rewrite length_hdr_enc. done.
  - apply next_header. range_lia.
  - eapply consumes_full.
    + unfold reader_ok. cbn [buff offset stillneedtoread cstate]. unfold BUFF.
      fold b1. split_and!; try lia. by right.
    + done.
    + unfold next. cbn [cstate offset buff h_len]. reflexivity.
    + exact Hc.
Qed.

End Reassembly.

(** A handler that only looks at the message it is given. *)
Definition on_message {St} (handle : bytes → St → St) : bytes → Z → St → St :=
  fun b n s => handle (take (Z.to_nat n) b) s.

Lemma on_message_blit {St} (handle : bytes → St → St) msg (b : bytes) s :
  on_message handle (blit 0 msg b) (Z.of_nat (length msg)) s = handle msg s.
Proof.
  unfold on_message, blit. rewrite take_0, Nat2Z.id. cbn [app]. rewrite take_app_length. done.
Qed.

Lemma consumes_frames {St} (handle : bytes → St → St) msgs :
  ∀ hl b s, Z.of_nat (length b) = BUFF →
  Forall (fun m => 1 ≤ Z.of_nat (length m) ≤ BUFF) msgs →
  ∃ hl' b', consumes (on_message handle) (Reader s_header hl HDR 0 b) s
    (concat (map frame msgs)) (Reader s_header hl' HDR 0 b')
    (fold_left (fun s m => handle m s) msgs s).
Proof.
  induction msgs as [|m msgs IH]; intros hl b s Hb Hm; cbn [map concat fold_left].
  - exists hl, b. constructor. split_and!; try done. left. done.
  - inversion_clear Hm as [|? ? Hm1 Hms]. unfold BUFF in *.
    set (b1 := blit 0 (penc (Hdr VALIDATER0 VALIDATER1 (htons (Z.of_nat (length m))) 0)) b).
    assert (Z.of_nat (length b1) = 8192).
    { unfold b1. rewrite length_blit; [done|]. rewrite length_hdr_enc. lia. }
    assert (Z.of_nat (length (blit 0 m b1)) = 8192) by (rewrite length_blit; lia).
    destruct (IH (Z.of_nat (length m)) (blit 0 m b1) (handle m s)) as (hl' & b' & Hc); [done|done|].
    exists hl', b'. apply consumes_frame; [done|done|]. rewrite on_message_blit. exact Hc.
Qed.

(** ** Properties *)



(** A frame whose length field exceeds the 8192 byte buffer is read past the end of
    the buffer: the length is not checked. *)
Theorem frame_overflow {St} (HandleRecvMsg : bytes → Z → St → St) msg buf0 s :
  Z.of_nat (length buf0) = BUFF → BUFF < Z.of_nat (length msg) < 2 ^ 16 →
  StreamRecvEvent HandleRecvMsg (frame msg) false (fresh_reader buf0) s = Bad OutOfBounds.
Proof.
  intros Hb Hm. unfold StreamRecvEvent. rewrite length_frame. cbn [Nat.add].
  unfold frame. rewrite loop_complete; [|apply fresh_reader_ok; done|rewrite length_hdr_enc; done].
  unfold dispatch, fresh_reader. rsimpl. cbn [cstate offset buff].
  change (Z.to_nat 0) with 0%nat. rewrite hdr_at_start. cbn [delim0 delim1 hlen16].
  rewrite !Z.eqb_refl. cbn [negb orb]. rewrite ntohs_htons by range_lia.
  unfold BUFF in *. apply loop_overflow; rsimpl.
  - lia.
  - destruct msg; simpl in *; [lia|done].
  - rewrite Nat2Z.id, take_ge by lia. rewrite length_blit by (rewrite length_hdr_enc; lia). lia.
Qed.

Lemma frame_overflow_witness :
  StreamRecvEvent (fun _ _ (s : unit) => s) (frame (replicate (Z.to_nat 8193) 0)) false
    (fresh_reader (replicate (Z.to_nat 8192) 0)) tt = Bad OutOfBounds.
Proof. apply frame_overflow; [reflexivity|split; reflexivity]. Defined.

(** A frame of length zero makes StreamRecvEvent return 0, the value for a closed
    connection, with the rest of the input unread and no message handled. *)
Theorem frame_empty_closes {St} (HandleRecvMsg : bytes → Z → St → St) buf0 rest s :
  Z.of_nat (length buf0) = BUFF →
  ∃ o, StreamRecvEvent HandleRecvMsg (frame [] ++ rest) false (fresh_reader buf0) s = Ok o ∧
       o_ret o = 0 ∧ o_state o = s ∧ o_avail o = rest.
Proof.
  intros Hb. unfold StreamRecvEvent. rewrite length_app, length_frame. cbn [Nat.add].
  unfold frame. rewrite app_nil_r.
  rewrite loop_complete; [|apply fresh_reader_ok; done|rewrite (length_hdr_enc []); done].
  unfold dispatch, fresh_reader. rsimpl. cbn [cstate offset buff].
  change (Z.to_nat 0) with 0%nat. rewrite hdr_at_start. cbn [delim0 delim1 hlen16].
  rewrite !Z.eqb_refl. cbn [negb orb]. rewrite ntohs_htons by (split; done).
  rewrite loop_zero by done. eexists. split; [reflexivity|]. done.
Qed.

Lemma frame_empty_witness :
  ∃ o, StreamRecvEvent (fun _ _ (s : unit) => s) (frame [] ++ frame [1]) false
         (fresh_reader (replicate (Z.to_nat BUFF) 0)) tt = Ok o ∧ o_ret o = 0.
Proof.
  destruct (frame_empty_closes (fun _ _ (s : unit) => s) (replicate (Z.to_nat BUFF) 0) (frame [1]) tt eq_refl)
    as (o & H1 & H2 & _).
  exists o. split; [exact H1|exact H2].
Defined.

(** A header with a wrong delimiter makes StreamRecvEvent return -1 after reading
    only the six bytes of the header and handling no message. *)
Theorem frame_bad_delimiter {St} (HandleRecvMsg : bytes → Z → St → St) hdr rest buf0 s :
  Z.of_nat (length buf0) = BUFF → length hdr = 6%nat →
  (fld 0 1 hdr ≠ VALIDATER0 ∨ fld 1 1 hdr ≠ VALIDATER1) →
  ∃ r, StreamRecvEvent HandleRecvMsg (hdr ++ rest) false (fresh_reader buf0) s =
    Ok (Outcome (-1) rest r s).
Proof.
  intros Hb Hh Hd. unfold StreamRecvEvent. rewrite length_app, Hh. cbn [Nat.add].
  rewrite loop_complete; [|apply fresh_reader_ok; done|rewrite Hh; done].
  unfold dispatch, fresh_reader. rsimpl. cbn [cstate offset buff].
  change (Z.to_nat 0) with 0%nat. unfold blit. rewrite take_0. cbn [app].
  assert (∀ i, i ∈ [0%nat; 1%nat] → fld i 1 (hdr ++ drop (0 + length hdr) buf0) = fld i 1 hdr) as Hf.
  { intros i Hi. do 2 (destruct hdr as [|? hdr]; [done|]).
    apply elem_of_cons in Hi as [->|Hi]; [done|]. apply list_elem_of_singleton in Hi as ->. done. }
  cbn [pdec hdr_packed delim0 delim1]. rewrite !Hf by (repeat constructor).
  destruct (Z.eqb_spec (fld 0 1 hdr) VALIDATER0); destruct (Z.eqb_spec (fld 1 1 hdr) VALIDATER1);
    try (eexists; reflexivity). naive_solver.
Qed.

(** A concrete instance. *)
Lemma frame_delimiter_witness :
  ∃ r, StreamRecvEvent (fun _ _ (s : unit) => s) ([0x86; 0x69; 0; 1; 0; 0] ++ [7]) false
         (fresh_reader (replicate (Z.to_nat BUFF) 0)) tt = Ok (Outcome (-1) [7] r tt).
Proof.
  apply frame_bad_delimiter; [reflexivity|reflexivity|].
  right. vm_compute. discriminate.
Defined.

End Frame.
