(* ===== verification/Dns.v ===== *)
(** * DNS codec and cache (src/tms/tms/DnsCache.cpp, DnsCache.h)

    [req_fill] writes a query for a host name, [res_parse] reads the answer in
    the 8192 byte receive buffer of the DNS connection, [DnsCache] keeps the
    known addresses and the streams that wait for one.  [IpOrHost] is the test of
    src/tms/tms/ConnectMgr.cpp that decides whether a lookup is needed.  Wait
    lists hold a user id and a stream id, never a pointer. *)

From S2P Require Import Prelude Wire.
From stdpp Require Import base gmap list strings.
From Stdlib Require Import ZArith Lia Sorted.
Import Wire.

Open Scope Z_scope.

Module Dns.

(** ** Dotted addresses *)

Definition DOT : Z := 46.

(** [inet_addr] on [a.b.c.d] in decimal; anything else is [INADDR_NONE].  The
    result is in network order. *)
Definition octet (l : bytes) : option Z :=
  if decide (l ≠ [] ∧ (length l ≤ 3)%nat ∧ Forall (fun b => is_digit b = true) l)
  then (let v := dec_digits 0 l in if v <=? 255 then Some v else None)
  else None.

Fixpoint split_dots (l cur : bytes) : list bytes :=
  match l with
  | [] => [cur]
  | b :: l' => if b =? DOT then cur :: split_dots l' [] else split_dots l' (cur ++ [b])
  end.

Definition INADDR_NONE : Z := 0xffffffff.

Definition inet_addr (s : bytes) : Z :=
  match map octet (split_dots s []) with
  | [Some a; Some b; Some c; Some d] => of_le [a; b; c; d]
  | _ => INADDR_NONE
  end.

(** [Connect::IpOrHost]: 0 for an address, -1 for a name.  The test of each other
    character, [p[l] < '0' && p[l] > '9'], is part of the code. *)
Fixpoint ip_or_host_loop (l : bytes) (point_count : Z) : Z :=
  match l with
  | [] => if point_count =? 3 then 0 else -1
  | b :: l' =>
    if b =? DOT then ip_or_host_loop l' (point_count + 1)
    else if (b <? 48) && (57 <? b) then -1
    else ip_or_host_loop l' point_count
  end.

Definition IpOrHost (host : bytes) : Z := ip_or_host_loop host 0.

(** ** req_fill *)

(** The header: zeroed, then [qid], [rd = 1], [qdcount = htons(1)]; [rv] is the
    value of [random()]. *)
Definition qid (rv : Z) : Z := u16 (Z.lxor (Z.shiftr rv 16) (Z.lor rv 0xffff)).

Definition req_header (rv : Z) : bytes :=
  to_le 2 (qid rv) ++ [1; 0] ++ to_le 2 (htons 1) ++ replicate 6 0.

(** The loop over the host: at each dot the section before it is written behind
    its length. *)
Fixpoint fill_loop (todo : bytes) (i section_start : nat) (host out : bytes) : bytes * nat :=
  match todo with
  | [] => (out, section_start)
  | b :: todo' =>
    if b =? DOT
    then fill_loop todo' (S i) (S i) host
           (out ++ u8 (Z.of_nat i - Z.of_nat section_start) :: sub section_start (i - section_start) host)
    else fill_loop todo' (S i) section_start host out
  end.

(** The bytes of [buff] up to the value returned. *)
Definition req_fill (host : bytes) (rv : Z) : bytes :=
  let '(out, section_start) := fill_loop host 0 0 host (req_header rv) in
  out ++ u8 (Z.of_nat (length host) - Z.of_nat section_start)
      :: sub section_start (length host - section_start) host
      ++ [0; 0x0; 0x1; 0x0; 0x1].

(** ** res_parse *)

Record Rep := MkRep { _host : bytes; _ip : Z }.

(** A read of [n] bytes of the buffer at [pos]. *)
Definition peek (pos n : nat) (buff : bytes) : result bytes :=
  if decide (pos + n ≤ length buff)%nat then Ok (sub pos n buff) else Bad OutOfBounds.

(** The [do ... while (1)] that reads one name. *)
Fixpoint read_name (fuel : nat) (pos : nat) (s : bytes) (buff : bytes) : result (nat * bytes) :=
  match fuel with
  | O => Bad OutOfFuel
  | S fuel' =>
    match peek pos 1 buff with
    | Bad f => Bad f
    | Ok b =>
      let section_length := of_le b in
      let pos := S pos in
      if section_length =? 0 then Ok (pos, s)
      else
        let n := Z.to_nat section_length in
        match peek pos n buff with
        | Bad f => Bad f
        | Ok l => read_name fuel' (pos + n) ((if decide (s = []) then s else s ++ [DOT]) ++ l) buff
        end
    end
  end.

(** The loop over the questions. *)
Fixpoint read_questions (n : nat) (pos : nat) (buff : bytes) (acc : list Rep)
  : result (nat * list Rep) :=
  match n with
  | O => Ok (pos, acc)
  | S n' =>
    match read_name (S (length buff)) pos [] buff with
    | Bad f => Bad f
    | Ok (pos, s) => read_questions n' (pos + 4) buff (acc ++ [MkRep s 0])
    end
  end.

(** The loop over the answers; a record that is not of type A does not count. *)
Fixpoint read_answers (fuel : nat) (k answers : Z) (pos : nat) (buff : bytes) (r : list Rep)
  : result (list Rep) :=
  match fuel with
  | O => Bad OutOfFuel
  | S fuel' =>
    if negb (k <? answers) then Ok r else
    match peek pos 12 buff with
    | Bad f => Bad f
    | Ok ans =>
      let len := ntohs (fld 10 2 ans) in
      let pos := (pos + 12)%nat in
      if negb (ntohs (fld 2 2 ans) =? 1)
      then read_answers fuel' k answers (pos + Z.to_nat len) buff r
      else if len =? 4 then
        match peek pos 4 buff with
        | Bad f => Bad f
        | Ok ip =>
          match r with
          | [] => Bad OutOfBounds
          | q :: r' => Ok (MkRep (_host q) (ntohl (of_le ip)) :: r')
          end
        end
      else read_answers fuel' (k + 1) answers (pos + Z.to_nat len) buff r
    end
  end.

Definition res_parse (buff : bytes) : result (list Rep) :=
  match peek 0 12 buff with
  | Bad f => Bad f
  | Ok hdr =>
    let questions := ntohs (fld 4 2 hdr) in
    let answers := ntohs (fld 6 2 hdr) in
    match read_questions (Z.to_nat questions) 12 buff [] with
    | Bad f => Bad f
    | Ok (pos, r) =>
      if 0 <? questions then read_answers (S (length buff)) 0 answers pos buff r else Ok r
    end
  end.

(** ** The cache *)

(** [UserId] is (mobile, app); [USCBId] adds the stream's id. *)
Abbreviation UserId := (Z * Z)%type.
Abbreviation USCBId := (UserId * Z)%type.

(** A [multimap] is the list of its pairs in iteration order: sorted by key, equal
    keys in insertion order. *)
Record DnsCache := MkDnsCache {
  _Cache : gmap bytes Z;
  _waiting_scb : gmap bytes (list USCBId);
  _expiring_scb : list (Z * USCBId);
}.

#[export] Instance eta_dnscache : Eta DnsCache := fun x =>
  MkDnsCache (_Cache x) (_waiting_scb x) (_expiring_scb x).

Definition DnsCache_init : DnsCache :=
  MkDnsCache
    (<[bs "icloudata" := htonl (inet_addr (bs "10.25.231.165"))]>
     (<[bs "aliyuntest" := htonl (inet_addr (bs "10.24.171.135"))]>
      (<[bs "localhost" := htonl (inet_addr (bs "127.0.0.1"))]> ∅)))
    ∅ [].

Definition Update (replys : list Rep) (d : DnsCache) : DnsCache :=
  d <| _Cache := fold_left (fun c r => <[_host r := _ip r]> c) replys (_Cache d) |>.

(** [multimap::insert]: after the last key that is not greater. *)
Fixpoint mm_insert (k : Z) (v : USCBId) (l : list (Z * USCBId)) : list (Z * USCBId) :=
  match l with
  | [] => [(k, v)]
  | (k', v') :: l' => if k' <=? k then (k', v') :: mm_insert k v l' else (k, v) :: l
  end.

(** [AddWaitLists(s, scb)]: the arguments are what it reads of the stream, the
    user's id, the stream's id and the second of its last activity. *)
Definition AddWaitLists (s : bytes) (uid : UserId) (sid tt_ : Z) (d : DnsCache) : DnsCache :=
  d <| _waiting_scb := <[s := default [] (_waiting_scb d !! s) ++ [(uid, sid)]]> (_waiting_scb d) |>
    <| _expiring_scb := mm_insert tt_ (uid, sid) (_expiring_scb d) |>.

(** The [while] of [ExpireWaitLists] at second [tvs]. *)
Fixpoint expire_loop (tvs : Z) (l : list (Z * USCBId)) : list (Z * USCBId) :=
  match l with
  | [] => []
  | (k, v) :: l' => if k <? tvs - 5 then expire_loop tvs l' else l
  end.

Definition ExpireWaitLists (tvs : Z) (d : DnsCache) : DnsCache :=
  d <| _expiring_scb := expire_loop tvs (_expiring_scb d) |>.

(** ** Names and labels *)

(** A label on the wire. *)
Definition lab (l : bytes) : bytes := u8 (Z.of_nat (length l)) :: l.

Fixpoint join_dots (ls : list bytes) : bytes :=
  match ls with
  | [] => []
  | [l] => l
  | l :: ls' => l ++ DOT :: join_dots ls'
  end.

Lemma fill_loop_labels todo : ∀ base cur out,
  let host := base ++ cur ++ todo in
  let '(o, ss) := fill_loop todo (length (base ++ cur)) (length base) host out in
  o ++ u8 (Z.of_nat (length host) - Z.of_nat ss) :: sub ss (length host - ss) host
  = out ++ concat (map lab (split_dots todo cur)).
Proof.
  induction todo as [|b todo IH]; intros base cur out; cbn [fill_loop split_dots].
  - rewrite app_nil_r. cbn [map concat]. rewrite app_nil_r. f_equal. unfold lab. f_equal.
    + f_equal. len.
    + unfold sub. rewrite drop_app_length. apply take_ge. len.
  - destruct (Z.eqb_spec b DOT) as [->|Hb].
    + specialize (IH (base ++ cur ++ [DOT]) []
        (out ++ u8 (Z.of_nat (length (base ++ cur)) - Z.of_nat (length base))
          :: sub (length base) (length (base ++ cur) - length base) (base ++ cur ++ DOT :: todo))).
      cbv zeta in IH. rewrite !app_nil_r in IH.
      replace (length (base ++ cur ++ [DOT])) with (S (length (base ++ cur))) in IH by len.
      replace ((base ++ cur ++ [DOT]) ++ [] ++ todo) with (base ++ cur ++ DOT :: todo) in IH
        by (rewrite <- !app_assoc; done).
      destruct (fill_loop _ _ _ _ _) as [o ss]. rewrite IH. cbn [map concat].
      rewrite <- app_assoc. f_equal. unfold lab. cbn [app]. f_equal; [f_equal; len|].
      f_equal. unfold sub. rewrite drop_app_length.
      replace (length (base ++ cur) - length base)%nat with (length cur) by len.
      apply take_app_length.
    + specialize (IH base (cur ++ [b]) out). cbv zeta in IH.
      replace (length (base ++ cur ++ [b])) with (S (length (base ++ cur))) in IH by len.
      replace (base ++ (cur ++ [b]) ++ todo) with (base ++ cur ++ b :: todo) in IH
        by (rewrite <- !app_assoc; done).
      exact IH.
Qed.

Lemma req_fill_labels host rv :
  req_fill host rv = req_header rv ++ concat (map lab (split_dots host [])) ++ [0; 0; 1; 0; 1].
Proof.
  pose proof (fill_loop_labels host [] [] (req_header rv)) as Hl. cbv zeta in Hl.
  cbn [app length] in Hl.
  unfold req_fill. destruct (fill_loop _ _ _ _ _) as [o ss].
  rewrite (app_assoc (req_header rv)), <- Hl, <- app_assoc. done.
Qed.

Lemma length_labels todo : ∀ cur,
  length (concat (map lab (split_dots todo cur))) = (S (length cur + length todo))%nat.
Proof.
  induction todo as [|b todo IH]; intros cur; cbn [split_dots].
  - cbn [map concat]. rewrite app_nil_r. unfold lab. cbn [length]. lia.
  - destruct (b =? DOT); [cbn [map concat]; rewrite length_app, IH|rewrite IH, length_app];
      unfold lab; cbn [length]; lia.
Qed.

Lemma split_dots_label l : ∀ cur rest, DOT ∉ l →
  split_dots (l ++ DOT :: rest) cur = (cur ++ l) :: split_dots rest [].
Proof.
  induction l as [|b l IH]; intros cur rest Hl; cbn [app split_dots].
  - rewrite Z.eqb_refl, app_nil_r. done.
  - apply not_elem_of_cons in Hl as [? ?].
    destruct (Z.eqb_spec b DOT); [congruence|]. rewrite IH by done. rewrite <- app_assoc. done.
Qed.

Lemma split_dots_last l : ∀ cur, DOT ∉ l → split_dots l cur = [cur ++ l].
Proof.
  induction l as [|b l IH]; intros cur Hl; cbn [split_dots].
  - rewrite app_nil_r. done.
  - apply not_elem_of_cons in Hl as [? ?].
    destruct (Z.eqb_spec b DOT); [congruence|]. rewrite IH by done. rewrite <- app_assoc. done.
Qed.

(** A label of a host name: not empty, no dot, its length in one byte. *)
Definition label_ok (l : bytes) : Prop := l ≠ [] ∧ (DOT ∉ l) ∧ (length l ≤ 255)%nat.

#[export] Instance label_ok_dec l : Decision (label_ok l).
Proof. unfold label_ok. apply _. Defined.

Lemma split_join ls : ls ≠ [] → Forall label_ok ls → split_dots (join_dots ls) [] = ls.
Proof.
  intros Hn. induction 1 as [|l ls Hl Hls IH]; [done|].
  destruct Hl as (_ & Hd & _). destruct ls as [|l' ls].
  - apply (split_dots_last l []). done.
  - change (join_dots (l :: l' :: ls)) with (l ++ DOT :: join_dots (l' :: ls)).
    rewrite split_dots_label by done. rewrite IH by done. done.
Qed.

(** ** Reading a buffer *)

Lemma peek_here pre x post n : length x = n →
  peek (length pre) n (pre ++ x ++ post) = Ok x.
Proof.
  intros <-. unfold peek. rewrite decide_True by len.
  unfold sub. rewrite drop_app_length, take_app_length. done.
Qed.

(** The name accumulated from labels. *)
Fixpoint join_acc (s : bytes) (ls : list bytes) : bytes :=
  match ls with
  | [] => s
  | l :: ls' => join_acc ((if decide (s = []) then s else s ++ [DOT]) ++ l) ls'
  end.

Lemma join_acc_some s ls : s ≠ [] → Forall label_ok ls →
  join_acc s ls = match ls with [] => s | _ => s ++ DOT :: join_dots ls end.
Proof.
  revert s. induction ls as [|l ls IH]; intros s Hs Hls; [done|].
  inversion_clear Hls as [|? ? Hl Hls']. cbn [join_acc]. rewrite decide_False by done.
  rewrite IH; [|intros E; apply app_eq_nil in E as [E _]; by apply app_eq_nil in E as [? _]|done].
  destruct ls; rewrite <- !app_assoc; done.
Qed.

Lemma join_acc_nil ls : Forall label_ok ls → join_acc [] ls = join_dots ls.
Proof.
  destruct ls as [|l ls]; [done|]. intros Hls. inversion_clear Hls as [|? ? Hl Hls'].
  cbn [join_acc]. rewrite decide_True by done. cbn [app].
  rewrite join_acc_some by (done || apply Hl). destruct ls; done.
Qed.

Lemma read_name_labels ls : ∀ fuel pre post s, Forall label_ok ls → (length ls < fuel)%nat →
  read_name fuel (length pre) s (pre ++ concat (map lab ls) ++ 0 :: post)
  = Ok (length pre + S (length (concat (map lab ls))), join_acc s ls)%nat.
Proof.
  induction ls as [|l ls IH]; intros [|fuel] pre post s Hls Hf; cbn [length] in Hf; try lia;
    cbn [read_name map concat join_acc app].
  - rewrite (peek_here pre [0] post) by done. cbn. do 2 f_equal. lia.
  - inversion_clear Hls as [|? ? (Hne & Hd & H255) Hls'].
    rewrite <- app_assoc.
    replace (lab l) with (Z.of_nat (length l) :: l) by (unfold lab; rewrite wrap_id by range_lia; done).
    set (post' := concat (map lab ls) ++ 0 :: post). cbn [app].
    rewrite (peek_here pre [Z.of_nat (length l)] (l ++ post')) by done. cbn [of_le].
    assert (length l ≠ 0%nat) by (destruct l; [done|simpl; lia]).
    destruct (Z.eqb_spec (Z.of_nat (length l) + 256 * 0) 0); [lia|].
    replace (Z.to_nat (Z.of_nat (length l) + 256 * 0)) with (length l) by lia.
    replace (pre ++ Z.of_nat (length l) :: l ++ post')
      with ((pre ++ [Z.of_nat (length l)]) ++ l ++ post') by (rewrite <- app_assoc; done).
    replace (S (length pre)) with (length (pre ++ [Z.of_nat (length l)])) by len.
    rewrite peek_here by done.
    rewrite app_assoc. replace (length (pre ++ [Z.of_nat (length l)]) + length l)%nat
      with (length ((pre ++ [Z.of_nat (length l)]) ++ l)) by len.
    unfold post'. rewrite IH by (done || lia). do 2 f_equal. len. len.
Qed.

(** ** Records of an answer *)

(** A resource record behind a name pointer: name, type, class, ttl, data. *)
Definition rr (nm ty cls ttl : Z) (data : bytes) : bytes :=
  to_le 2 nm ++ to_le 2 (htons ty) ++ to_le 2 (htons cls) ++ to_le 4 ttl
  ++ to_le 2 (htons (Z.of_nat (length data))) ++ data.

Record rr_t := MkRR { rr_name : Z; rr_type : Z; rr_class : Z; rr_ttl : Z; rr_data : bytes }.

Definition rr_bytes (r : rr_t) : bytes :=
  rr (rr_name r) (rr_type r) (rr_class r) (rr_ttl r) (rr_data r).

Definition rr_ok (r : rr_t) : Prop :=
  in_u 16 (rr_type r) ∧ in_u 16 (Z.of_nat (length (rr_data r))).

#[export] Instance rr_ok_dec r : Decision (rr_ok r).
Proof. unfold rr_ok. apply _. Defined.

Lemma length_rr r : length (rr_bytes r) = (12 + length (rr_data r))%nat.
Proof. unfold rr_bytes, rr. len. Qed.

(** The twelve bytes of a record's header and what the loop reads of them. *)
Lemma peek_rr r pre post : rr_ok r →
  ∃ h, peek (length pre) 12 (pre ++ rr_bytes r ++ post) = Ok h
       ∧ ntohs (fld 2 2 h) = rr_type r ∧ ntohs (fld 10 2 h) = Z.of_nat (length (rr_data r)).
Proof.
  intros [Ht Hl].
  set (h := to_le 2 (rr_name r) ++ to_le 2 (htons (rr_type r)) ++ to_le 2 (htons (rr_class r))
    ++ to_le 4 (rr_ttl r) ++ to_le 2 (htons (Z.of_nat (length (rr_data r))))).
  assert (rr_bytes r ++ post = h ++ rr_data r ++ post) as ->.
  { unfold rr_bytes, rr, h. rewrite <- !app_assoc. done. }
  exists h. split; [apply peek_here; unfold h; len|].
  unfold h. split; unfold fld.
  - rewrite sub_skip, length_to_le, sub_here by len.
    rewrite of_to_le_id by apply htons_range. apply ntohs_htons, Ht.
  - rewrite sub_skip, length_to_le by len. cbn [Nat.sub].
    rewrite sub_skip, length_to_le by len. cbn [Nat.sub].
    rewrite sub_skip, length_to_le by len. cbn [Nat.sub].
    rewrite sub_skip, length_to_le by len. cbn [Nat.sub].
    rewrite <- (app_nil_r (to_le 2 _)), sub_here by len.
    rewrite of_to_le_id by apply htons_range. apply ntohs_htons, Hl.
Qed.

(** A record that is not of type A is skipped and is not counted. *)
Lemma read_answers_skip r fuel k answers pre post q : rr_ok r → rr_type r ≠ 1 → k < answers →
  read_answers (S fuel) k answers (length pre) (pre ++ rr_bytes r ++ post) q
  = read_answers fuel k answers (length (pre ++ rr_bytes r)) ((pre ++ rr_bytes r) ++ post) q.
Proof.
  intros Hr Hty Hk. destruct (peek_rr r pre post Hr) as (h & Hp & Ht & Hl).
  cbn [read_answers]. rewrite (proj2 (Z.ltb_lt _ _) Hk). cbn [negb]. rewrite Hp, Ht, Hl.
  rewrite (proj2 (Z.eqb_neq _ _) Hty). cbn [negb]. rewrite <- app_assoc. f_equal.
  rewrite length_app, length_rr. lia.
Qed.

Definition non_a (rs : list rr_t) : Prop := Forall (fun r => rr_ok r ∧ rr_type r ≠ 1) rs.

#[export] Instance non_a_dec rs : Decision (non_a rs).
Proof. unfold non_a. apply _. Defined.

Lemma read_answers_skips rs : ∀ fuel k answers pre post q, non_a rs → k < answers →
  read_answers (length rs + fuel) k answers (length pre) (pre ++ concat (map rr_bytes rs) ++ post) q
  = read_answers fuel k answers (length (pre ++ concat (map rr_bytes rs)))
      ((pre ++ concat (map rr_bytes rs)) ++ post) q.
Proof.
  induction rs as [|r rs IH]; intros fuel k answers pre post q Hrs Hk; cbn [map concat length Nat.add].
  - rewrite app_nil_r. done.
  - inversion_clear Hrs as [|? ? [Hr Hty] Hrs'].
    rewrite <- app_assoc, read_answers_skip by done. rewrite IH by done.
    rewrite <- !app_assoc. done.
Qed.

(** The first record of type A with four bytes of data is the answer. *)
Lemma read_answers_a r fuel k answers pre post q q' :
  rr_ok r → rr_type r = 1 → length (rr_data r) = 4%nat → k < answers →
  read_answers (S fuel) k answers (length pre) (pre ++ rr_bytes r ++ post) (q :: q')
  = Ok (MkRep (_host q) (ntohl (of_le (rr_data r))) :: q').
Proof.
  intros Hr Hty H4 Hk. destruct (peek_rr r pre post Hr) as (h & Hp & Ht & Hl).
  cbn [read_answers]. rewrite (proj2 (Z.ltb_lt _ _) Hk). cbn [negb]. rewrite Hp, Ht, Hl, Hty, H4.
  cbn [Z.eqb Pos.eqb negb Z.of_nat Pos.of_succ_nat].
  set (h' := take 12 (rr_bytes r)).
  assert (rr_bytes r = h' ++ rr_data r) as Hsplit.
  { unfold h'. rewrite <- (take_drop 12 (rr_bytes r)) at 1. f_equal. }
  rewrite Hsplit, <- app_assoc, app_assoc.
  replace (length pre + 12)%nat with (length (pre ++ h')).
  2:{ unfold h'. rewrite length_app, length_take, length_rr. lia. }
  rewrite peek_here by done. done.
Qed.

(** The header of an answer: one question, [answers] records. *)
Definition rsp_header (qid flags answers rest : Z) : bytes :=
  to_le 2 qid ++ to_le 2 flags ++ to_le 2 (htons 1) ++ to_le 2 (htons answers) ++ to_le 4 rest.

Lemma rsp_header_reads qid_ flags answers rest post : in_u 16 answers →
  ∃ h, peek 0 12 (rsp_header qid_ flags answers rest ++ post) = Ok h
       ∧ ntohs (fld 4 2 h) = 1 ∧ ntohs (fld 6 2 h) = answers.
Proof.
  intros Ha. exists (rsp_header qid_ flags answers rest).
  split; [apply (peek_here []); unfold rsp_header; len|]. unfold rsp_header, fld. split.
  - rewrite sub_skip, length_to_le by len. cbn [Nat.sub].
    rewrite sub_skip, length_to_le by len. cbn [Nat.sub].
    rewrite sub_here by len. rewrite of_to_le_id by apply htons_range. apply ntohs_htons. range_lia.
  - rewrite sub_skip, length_to_le by len. cbn [Nat.sub].
    rewrite sub_skip, length_to_le by len. cbn [Nat.sub].
    rewrite sub_skip, length_to_le by len. cbn [Nat.sub].
    rewrite sub_here by len. rewrite of_to_le_id by apply htons_range. apply ntohs_htons, Ha.
Qed.

(** An answer to [req_fill (join_dots ls) rv]: the question section is echoed. *)
Definition dns_reply (ls : list bytes) (rv flags answers rest : Z) (body : bytes) : bytes :=
  rsp_header (qid rv) flags answers rest ++ drop 12 (req_fill (join_dots ls) rv) ++ body.

Lemma length_req_header rv : length (req_header rv) = 12%nat.
Proof. unfold req_header. len. Qed.

Lemma question_bytes ls rv : ls ≠ [] → Forall label_ok ls →
  drop 12 (req_fill (join_dots ls) rv) = concat (map lab ls) ++ [0; 0; 1; 0; 1].
Proof.
  intros. rewrite req_fill_labels, split_join by done. apply drop_app_length'.
  rewrite length_req_header. done.
Qed.

Lemma length_concat_labs ls : (length ls ≤ length (concat (map lab ls)))%nat.
Proof.
  induction ls as [|l ls IH]; cbn [map concat]; [done|].
  rewrite length_app. unfold lab at 1. cbn [length]. lia.
Qed.

(** Parsing an answer is reading its records after its question. *)
Lemma res_parse_reply ls rv flags answers rest body : ls ≠ [] → Forall label_ok ls →
  in_u 16 answers →
  let pre := rsp_header (qid rv) flags answers rest ++ concat (map lab ls) ++ [0; 0; 1; 0; 1] in
  dns_reply ls rv flags answers rest body = pre ++ body ∧
  res_parse (pre ++ body)
  = read_answers (S (length (pre ++ body))) 0 answers (length pre) (pre ++ body)
      [MkRep (join_dots ls) 0].
Proof.
  intros Hn Hls Ha pre. split.
  { unfold dns_reply, pre. rewrite question_bytes, <- !app_assoc by done. done. }
  set (h0 := rsp_header (qid rv) flags answers rest).
  set (post := [0; 1; 0; 1] ++ body).
  assert (pre ++ body = h0 ++ concat (map lab ls) ++ 0 :: post) as E.
  { unfold pre, post, h0. rewrite <- !app_assoc. done. }
  assert (length h0 = 12%nat) as H12 by (unfold h0, rsp_header; len).
  assert (length pre = 12 + S (length (concat (map lab ls))) + 4)%nat as Hpre.
  { unfold pre. fold h0. rewrite !length_app, H12. cbn [length]. lia. }
  rewrite Hpre, E. unfold res_parse.
  destruct (rsp_header_reads (qid rv) flags answers rest
    (concat (map lab ls) ++ 0 :: post) Ha) as (h & Hh & Hq & Han).
  fold h0 in Hh. rewrite Hh, Hq, Han.
  change (Z.to_nat 1) with 1%nat. cbn [read_questions]. rewrite <- H12 at 1.
  rewrite read_name_labels; [|done|pose proof (length_concat_labs ls); len].
  rewrite join_acc_nil, H12 by done. done.
Qed.

Lemma length_concat_rrs rs : (length rs ≤ length (concat (map rr_bytes rs)))%nat.
Proof.
  induction rs as [|r rs IH]; cbn [map concat]; [done|].
  rewrite length_app, length_rr. cbn [length]. lia.
Qed.

(** ** Termination of the parser *)

Lemma peek_ok pos n buff b : peek pos n buff = Ok b → (pos + n ≤ length buff)%nat.
Proof. unfold peek. case_decide; done. Qed.

Lemma peek_fuel pos n buff : peek pos n buff ≠ Bad OutOfFuel.
Proof. unfold peek. case_decide; congruence. Qed.

Lemma read_name_fuel fuel : ∀ pos s buff, (length buff < pos + fuel)%nat → (0 < fuel)%nat →
  read_name fuel pos s buff ≠ Bad OutOfFuel.
Proof.
  induction fuel as [|fuel IH]; intros pos s buff Hf H0; [lia|]. cbn [read_name].
  destruct (peek pos 1 buff) as [b|f] eqn:Hp; [|pose proof (peek_fuel pos 1 buff); congruence].
  apply peek_ok in Hp. destruct (of_le b =? 0); [done|].
  destruct (peek (S pos) _ buff) as [l|f] eqn:Hp'; [|pose proof (peek_fuel (S pos) (Z.to_nat (of_le b)) buff); congruence].
  apply IH; lia.
Qed.

Lemma read_questions_fuel n : ∀ pos buff acc, read_questions n pos buff acc ≠ Bad OutOfFuel.
Proof.
  induction n as [|n IH]; intros pos buff acc; cbn [read_questions]; [done|].
  pose proof (read_name_fuel (S (length buff)) pos [] buff) as Hn.
  destruct (read_name _ _ _ _) as [[pos' s]|f]; [apply IH|]. intros E. apply Hn; [lia|lia|congruence].
Qed.

Lemma read_answers_fuel fuel : ∀ k answers pos buff r, (length buff < pos + fuel)%nat → (0 < fuel)%nat →
  read_answers fuel k answers pos buff r ≠ Bad OutOfFuel.
Proof.
  induction fuel as [|fuel IH]; intros k answers pos buff r Hf H0; [lia|]. cbn [read_answers].
  destruct (negb (k <? answers)); [done|].
  destruct (peek pos 12 buff) as [b|f] eqn:Hp; [|pose proof (peek_fuel pos 12 buff); congruence].
  apply peek_ok in Hp. destruct (negb _); [apply IH; lia|]. destruct (_ =? 4); [|apply IH; lia].
  destruct (peek (pos + 12) 4 buff) as [ip|f] eqn:Hp'; [|pose proof (peek_fuel (pos + 12) 4 buff); congruence].
  destruct r; done.
Qed.

Lemma res_parse_fuel buff : res_parse buff ≠ Bad OutOfFuel.
Proof.
  unfold res_parse. destruct (peek 0 12 buff) as [h|f] eqn:Hp; [|pose proof (peek_fuel 0 12 buff); congruence].
  pose proof (read_questions_fuel (Z.to_nat (ntohs (fld 4 2 h))) 12 buff []) as Hq.
  destruct (read_questions _ _ _ _) as [[pos r]|f]; [|congruence].
  destruct (0 <? _); [|done]. apply read_answers_fuel; lia.
Qed.

(** ** Properties *)

(** C30: for a host name made of non-empty labels of at most 255 bytes, res_parse
    applied to an answer that echoes the question req_fill wrote, with any records that
    are not addresses before the first address record, yields exactly that host with
    that address. *)
Theorem dns_roundtrip ls rv flags answers rest skipped a junk :
  ls ≠ [] → Forall label_ok ls → in_u 16 answers → 0 < answers → non_a skipped →
  rr_ok a → rr_type a = 1 → length (rr_data a) = 4%nat →
  res_parse (dns_reply ls rv flags answers rest
               (concat (map rr_bytes skipped) ++ rr_bytes a ++ junk))
  = Ok [MkRep (join_dots ls) (ntohl (of_le (rr_data a)))].
Proof.
  intros Hn Hls Ha Hpos Hsk Hra Hty H4.
  destruct (res_parse_reply ls rv flags answers rest
    (concat (map rr_bytes skipped) ++ rr_bytes a ++ junk) Hn Hls Ha) as [-> ->].
  set (pre := rsp_header _ _ _ _ ++ _).
  pose proof (length_concat_rrs skipped). pose proof (length_rr a).
  replace (S (length (pre ++ concat (map rr_bytes skipped) ++ rr_bytes a ++ junk)))
    with (length skipped + S (length (pre ++ concat (map rr_bytes skipped) ++ rr_bytes a ++ junk)
            - length skipped))%nat by len.
  rewrite read_answers_skips by done. apply read_answers_a; done.
Qed.

Definition ex_labels : list bytes := [bs "www"; bs "baidu"; bs "com"].

(** Witness of C30. *)
Lemma dns_roundtrip_witness :
  res_parse (dns_reply ex_labels 77 0x8081 2 0
    (concat (map rr_bytes [MkRR 0x0cc0 5 1 60 (bs "abc")])
     ++ rr_bytes (MkRR 0x0cc0 1 1 60 [61; 135; 169; 121]) ++ replicate 20 0))
  = Ok [MkRep (bs "www.baidu.com") 0x3d87a979].
Proof.
  apply (dns_roundtrip ex_labels 77 0x8081 2 0 [MkRR 0x0cc0 5 1 60 (bs "abc")]
           (MkRR 0x0cc0 1 1 60 [61; 135; 169; 121]) (replicate 20 0));
    by_decide.
Defined.

(** A list of records none of which is an address is read to the end of the
    buffer and beyond it. *)
Lemma read_answers_overrun fuel k answers pos buff q : k < answers →
  (length buff < pos + 12)%nat → read_answers (S fuel) k answers pos buff q = Bad OutOfBounds.
Proof.
  intros Hk Hpos. cbn [read_answers]. rewrite (proj2 (Z.ltb_lt _ _) Hk). cbn [negb].
  unfold peek. rewrite decide_False by lia. done.
Qed.

(** An answer that announces records but holds no address record is read past the
    end of the buffer: a record that is not an address is skipped without being counted. *)
Theorem dns_no_address_overruns ls rv flags answers rest skipped junk :
  ls ≠ [] → Forall label_ok ls → in_u 16 answers → 0 < answers → non_a skipped →
  (length junk < 12)%nat →
  res_parse (dns_reply ls rv flags answers rest (concat (map rr_bytes skipped) ++ junk))
  = Bad OutOfBounds.
Proof.
  intros Hn Hls Ha Hpos Hsk Hj.
  destruct (res_parse_reply ls rv flags answers rest
    (concat (map rr_bytes skipped) ++ junk) Hn Hls Ha) as [-> ->].
  set (pre := rsp_header _ _ _ _ ++ _). pose proof (length_concat_rrs skipped).
  replace (S (length (pre ++ concat (map rr_bytes skipped) ++ junk)))
    with (length skipped + S (length (pre ++ concat (map rr_bytes skipped) ++ junk)
            - length skipped))%nat by len.
  rewrite read_answers_skips by done. apply read_answers_overrun; [done|].
  rewrite !length_app. lia.
Qed.

Lemma dns_overrun_witness :
  res_parse (dns_reply ex_labels 77 0x8081 1 0
    (concat (map rr_bytes [MkRR 0x0cc0 28 1 60 (replicate 16 1)]) ++ [])) = Bad OutOfBounds.
Proof.
  apply (dns_no_address_overruns ex_labels 77 0x8081 1 0 [MkRR 0x0cc0 28 1 60 (replicate 16 1)] []);
    by_decide.
Defined.

(** A DNS query for a host of n bytes takes n + 18 bytes, so a host of 495 bytes or
    more does not fit the dns_req_buff[512] of the login handler. *)
Theorem req_fill_length host rv : length (req_fill host rv) = (length host + 18)%nat.
Proof.
  rewrite req_fill_labels, !length_app, length_labels, length_req_header. cbn [length]. lia.
Qed.

(** The dots of a name. *)
Definition dots (l : bytes) : Z := Z.of_nat (length (List.filter (Z.eqb DOT) l)).

Lemma ip_or_host_loop_dots l : ∀ n,
  ip_or_host_loop l n = if n + dots l =? 3 then 0 else -1.
Proof.
  unfold dots. induction l as [|b l IH]; intros n; cbn [ip_or_host_loop List.filter].
  - cbn [length]. rewrite Z.add_0_r. done.
  - rewrite Z.eqb_sym. destruct (Z.eqb_spec DOT b).
    + rewrite IH. cbn [length].
      replace (n + 1 + Z.of_nat (length (List.filter (Z.eqb DOT) l)))
        with (n + Z.of_nat (S (length (List.filter (Z.eqb DOT) l)))) by lia. done.
    + destruct (Z.ltb_spec b 48), (Z.ltb_spec 57 b); cbn [andb]; try lia; apply IH.
Qed.

(** IpOrHost takes a host for an address exactly when it has three dots: its test
    of the other characters never rejects any. *)
Theorem IpOrHost_dots host : IpOrHost host = if dots host =? 3 then 0 else -1.
Proof. apply (ip_or_host_loop_dots host 0). Qed.

(** ** Expiry *)

Definition key_sorted (l : list (Z * USCBId)) : Prop := StronglySorted (fun a b => a.1 ≤ b.1) l.

Lemma expire_loop_filter tvs l : key_sorted l →
  expire_loop tvs l = List.filter (fun e => tvs - 5 <=? e.1) l.
Proof.
  induction 1 as [|[k v] l Hs IH Hall]; cbn [expire_loop List.filter fst]; [done|].
  destruct (Z.ltb_spec k (tvs - 5)); destruct (Z.leb_spec (tvs - 5) k); try lia; [done|].
  f_equal. symmetry. clear IH Hs. induction Hall as [|[k' v'] l Hk Hl IH]; [done|].
  cbn [List.filter fst] in *. destruct (Z.leb_spec (tvs - 5) k'); [f_equal; done|lia].
Qed.

Lemma mm_insert_Forall k v l (P : Z * USCBId → Prop) :
  P (k, v) → Forall P l → Forall P (mm_insert k v l).
Proof.
  induction 2 as [|[k' v'] l]; cbn [mm_insert]; [repeat constructor; done|].
  destruct (k' <=? k); repeat constructor; done.
Qed.

Lemma mm_insert_sorted k v l : key_sorted l → key_sorted (mm_insert k v l).
Proof.
  induction 1 as [|[k' v'] l Hs IH Hall]; cbn [mm_insert]; [repeat constructor|].
  destruct (Z.leb_spec k' k).
  - constructor; [done|]. apply mm_insert_Forall; done.
  - repeat constructor; [done|done|simpl; lia|].
    eapply Forall_impl; [exact Hall|]. intros [] ?; simpl in *; lia.
Qed.

(** One operation on the cache, as the components drive it. *)
Inductive cache_op :=
  | OpUpdate (rs : list Rep)
  | OpWait (s : bytes) (uid : UserId) (sid tt_ : Z)
  | OpExpire (tvs : Z).

Definition cache_step (d : DnsCache) (o : cache_op) : DnsCache :=
  match o with
  | OpUpdate rs => Update rs d
  | OpWait s uid sid tt_ => AddWaitLists s uid sid tt_ d
  | OpExpire tvs => ExpireWaitLists tvs d
  end.

Lemma cache_sorted ops : ∀ d, key_sorted (_expiring_scb d) →
  key_sorted (_expiring_scb (fold_left cache_step ops d)).
Proof.
  induction ops as [|o ops IH]; intros d Hd; [done|]. apply IH. destruct o; cbn [cache_step].
  - exact Hd.
  - apply mm_insert_sorted, Hd.
  - unfold ExpireWaitLists. rsimpl. rewrite expire_loop_filter by done.
    induction Hd as [|e l Hs IHl Hall]; cbn [List.filter]; [constructor|].
    destruct (_ <=? _); [|done]. constructor; [done|]. rewrite Forall_forall in Hall |- *.
    intros x Hx. apply Hall. apply list_elem_of_In in Hx. apply filter_In in Hx as [Hx _].
    apply list_elem_of_In, Hx.
Qed.

(** After any use of the cache, ExpireWaitLists removes from the expiry list
    exactly the entries older than five seconds; it leaves the clients in the list of
    those waiting for an answer. *)
Theorem expire_exact ops tvs :
  let d := fold_left cache_step ops DnsCache_init in
  _expiring_scb (ExpireWaitLists tvs d)
    = List.filter (fun e => tvs - 5 <=? e.1) (_expiring_scb d)
  ∧ _waiting_scb (ExpireWaitLists tvs d) = _waiting_scb d.
Proof.
  split; [|done]. apply expire_loop_filter, cache_sorted. constructor.
Qed.

End Dns.
