(* ===== verification/Os.v ===== *)
(** * The operating system as the components see it

    What the sources use of sockets, epoll and the clock.  The environment's
    choices are data of the state: the bytes waiting in each socket, how much of
    each [send] the kernel accepts, the results of the coming [socket],
    [connect], [accept] and [epoll_ctl] calls, the time.  A theorem that
    quantifies over the state quantifies over every environment.  Everything the
    program does to the outside is appended to [o_log].

    A component's state gives access to its [os] through the class [HasOs]; the
    calls below are written once against it. *)

From S2P Require Import Prelude Wire Frame.
From stdpp Require Import base gmap list strings.
From Stdlib Require Import ZArith Lia.
Import Wire.

Open Scope Z_scope.

Module Os.

(** ** Constants *)

Definition EPERM : Z := 1.
Definition ENOENT : Z := 2.
Definition EINTR : Z := 4.
Definition EAGAIN : Z := 11.
Definition EMFILE : Z := 24.
Definition EINPROGRESS : Z := 115.

Definition EPOLLIN : Z := 1.
Definition EPOLLOUT : Z := 4.
Definition EPOLLERR : Z := 8.
Definition EPOLLET : Z := 2 ^ 31.

Definition EPOLL_CTL_ADD : Z := 1.
Definition EPOLL_CTL_DEL : Z := 2.
Definition EPOLL_CTL_MOD : Z := 3.

(** ** State *)

(** Where a traffic report line goes: [lo] and [tr] are the tags of the log lines
    of the server, [plain] the untagged one. *)
Inductive report_kind := RepLo | RepTr | RepPlain.

#[export] Instance report_kind_eq_dec : EqDecision report_kind.
Proof. solve_decision. Defined.

Inductive io :=
  | IoSend (fd : Z) (data : bytes)                 (* the bytes the kernel accepted *)
  | IoEpoll (op fd events : Z)
  | IoClose (fd : Z)
  | IoShutdown (fd : Z)
  | IoConnect (fd addr port : Z)                   (* address and port in network order *)
  | IoReport (kind : report_kind) (mobile app traffic : Z) (btime etime : timeval) (host : bytes).

#[export] Instance io_eq_dec : EqDecision io.
Proof. solve_decision. Defined.

Record os := MkOs {
  o_rx : gmap Z (bytes * bool);      (* stream sockets: waiting bytes, end of file *)
  o_dgram : gmap Z (list bytes);     (* datagram sockets: waiting datagrams *)
  o_send : list Z;                   (* coming sends: bytes accepted, or minus an errno *)
  o_socket : list Z;                 (* coming socket() results *)
  o_connect : list (Z * Z);          (* coming connect() results with errno *)
  o_accept : list Z;                 (* coming accept() results *)
  o_ctl : list Z;                    (* coming epoll_ctl() results *)
  o_sockerr : gmap Z Z;              (* SO_ERROR *)
  o_peer : gmap Z (Z * Z);           (* getpeername: address, port *)
  o_now : timeval;
  o_rand : Z;                        (* random() *)
  o_errno : Z;
  o_log : list io;
}.

#[export] Instance eta_os : Eta os := fun x =>
  MkOs (o_rx x) (o_dgram x) (o_send x) (o_socket x) (o_connect x) (o_accept x) (o_ctl x)
       (o_sockerr x) (o_peer x) (o_now x) (o_rand x) (o_errno x) (o_log x).

Definition os_init : os :=
  MkOs ∅ ∅ [] [] [] [] [] ∅ ∅ (Tv 0 0) 0 0 [].

(** A component that holds an [os]. *)
Class HasOs (S : Type) := {
  the_os : S → os;
  with_os : (os → os) → S → S;
  the_with_os : ∀ f s, the_os (with_os f s) = f (the_os s);
}.

(** ** Calls *)

Section Calls.
Context {S : Type} `{!HasOs S}.

Definition emit (e : io) : M S unit :=
  modify (with_os (fun o => o <| o_log := o_log o ++ [e] |>)).

Definition set_errno (e : Z) : M S unit := modify (with_os (fun o => o <| o_errno := e |>)).

Definition rx_of (fd : Z) (o : os) : bytes * bool := default ([], false) (o_rx o !! fd).

(** [read] on a stream socket. *)
Definition read (fd n : Z) : M S (Z * bytes) := fun s =>
  let '(avail, eof) := rx_of fd (the_os s) in
  let '(k, got) := Frame.sock_read n avail eof in
  let s := if 0 <? k
           then with_os (fun o => o <| o_rx := <[fd := (drop (Z.to_nat k) avail, eof)]> (o_rx o) |>) s
           else s in
  let s := if k <? 0 then with_os (fun o => o <| o_errno := EAGAIN |>) s else s in
  Ok ((k, got), s).

(** [read] on a datagram socket: the rest of a longer datagram is lost; an empty
    datagram reads as 0. *)
Definition read_dgram (fd n : Z) : M S (Z * bytes) := fun s =>
  match default [] (o_dgram (the_os s) !! fd) with
  | [] => Ok ((-1, []), with_os (fun o => o <| o_errno := EAGAIN |>) s)
  | d :: ds =>
    let got := take (Z.to_nat n) d in
    Ok ((Z.of_nat (length got), got), with_os (fun o => o <| o_dgram := <[fd := ds]> (o_dgram o) |>) s)
  end.

(** [send(fd, data, len, MSG_NOSIGNAL)]. *)
Definition send (fd : Z) (data : bytes) : M S Z := fun s =>
  let n := Z.of_nat (length data) in
  let k := match o_send (the_os s) with [] => n | k :: _ => k end in
  let s := with_os (fun o => o <| o_send ::= tail |>) s in
  if k <? 0
  then Ok (-1, with_os (fun o => o <| o_errno := - k |>) s)
  else let k := Z.min k n in
       Ok (k, with_os (fun o => o <| o_log := o_log o ++ [IoSend fd (take (Z.to_nat k) data)] |>) s).

Definition socket : M S Z := fun s =>
  match o_socket (the_os s) with
  | [] => Ok (-1, with_os (fun o => o <| o_errno := EMFILE |>) s)
  | k :: ks => Ok (k, with_os (fun o => o <| o_socket := ks |>) s)
  end.

Definition connect (fd addr port : Z) : M S Z := fun s =>
  let s' := with_os (fun o => o <| o_log := o_log o ++ [IoConnect fd addr port] |>) s in
  match o_connect (the_os s) with
  | [] => Ok (0, s')
  | (k, e) :: ks =>
    let s' := with_os (fun o => o <| o_connect := ks |>) s' in
    Ok (k, if k <? 0 then with_os (fun o => o <| o_errno := e |>) s' else s')
  end.

Definition accept : M S Z := fun s =>
  match o_accept (the_os s) with
  | [] => Ok (-1, with_os (fun o => o <| o_errno := EAGAIN |>) s)
  | k :: ks => Ok (k, with_os (fun o => o <| o_accept := ks |>) s)
  end.

Definition epoll_ctl (op fd events : Z) : M S Z := fun s =>
  let s' := with_os (fun o => o <| o_log := o_log o ++ [IoEpoll op fd events] |>
                                <| o_ctl ::= tail |>) s in
  match o_ctl (the_os s) with
  | [] => Ok (0, s')
  | k :: _ => Ok (k, if k <? 0 then with_os (fun o => o <| o_errno := ENOENT |>) s' else s')
  end.

(** [close]: what waits in the socket is gone. *)
Definition close (fd : Z) : M S unit :=
  modify (with_os (fun o => o <| o_rx ::= delete fd |> <| o_dgram ::= delete fd |>
                              <| o_log := o_log o ++ [IoClose fd] |>)).

Definition shutdown (fd : Z) : M S unit := emit (IoShutdown fd).

Definition gettimeofday : M S timeval := gets (fun s => o_now (the_os s)).

Definition getpeername (fd : Z) : M S (option (Z * Z)) := gets (fun s => o_peer (the_os s) !! fd).

Definition so_error (fd : Z) : M S Z := gets (fun s => default 0 (o_sockerr (the_os s) !! fd)).

Definition errno : M S Z := gets (fun s => o_errno (the_os s)).

Definition random : M S Z := gets (fun s => o_rand (the_os s)).

End Calls.

(** ** What was sent to a socket *)

Definition sent_to (fd : Z) (l : list io) : bytes :=
  concat (map (fun e => match e with IoSend f d => if f =? fd then d else [] | _ => [] end) l).

Lemma sent_to_app fd l k : sent_to fd (l ++ k) = sent_to fd l ++ sent_to fd k.
Proof. unfold sent_to. rewrite map_app, concat_app. done. Qed.

(** The traffic of the report lines of one kind for one user. *)
Definition reported (kind : report_kind) (mobile app : Z) (l : list io) : Z :=
  fold_right (fun e acc =>
    match e with
    | IoReport k m a t _ _ _ =>
      if bool_decide (k = kind) && (m =? mobile) && (a =? app) then t + acc else acc
    | _ => acc
    end) 0 l.

Lemma reported_app kind m a l k : reported kind m a (l ++ k) = reported kind m a l + reported kind m a k.
Proof.
  unfold reported. induction l as [|e l IH]; [done|]. cbn [fold_right app]. rewrite IH.
  destruct e; try done. destruct (_ && _); lia.
Qed.

End Os.
