(* ===== verification/TmsState.v ===== *)
(** * Tunnel server: objects and heap (src/tms/tms/ConnectMgr.h, SCB.h, UserMgr.h)

    A [Connect], an [SCB] (stream control block) and a [User] are records; a
    pointer is a [Z] into one of three heaps, [None] for null.  Connections are
    deleted by the program, so a lookup that misses is a use after free; an
    allocation never gives an address out twice.  Control blocks and users are
    never deleted.  [tms] is the state of the process: the heaps, the singletons
    [ConnectMgr], [SCBMgr], [UserMgr], [DnsCache] and the operating system. *)

From S2P Require Import Prelude Wire Frame Os Dns.
From stdpp Require Import base gmap list strings.
From Stdlib Require Import ZArith Lia.
Import Wire Frame Os.

Open Scope Z_scope.

Module TmsState.

Abbreviation ptr := Z.

(** ** enum Conn_type, Sock_stat, User_stat *)

Definition t_tunnel : Z := 0.
Definition t_agent : Z := 1.
Definition t_dns : Z := 2.
Definition t_center : Z := 3.
Definition t_dpi : Z := 5.

Definition sta_offline : Z := 0.
Definition sta_online : Z := 1.
Definition sta_inprogress : Z := 2.
Definition sta_hangup : Z := 3.

Definition u_invalid : Z := 0.
Definition u_validated : Z := 1.
Definition u_nobalance : Z := 2.

(** The value of an enumerator of [Trans_stat] where the code stores it in an
    integer. *)
Definition trans_stat_value (t : Trans_stat) : Z :=
  match t with s_header => 0 | s_body => 1 | s_forward => 2 | s_wait => 3 end.

(** ** Objects *)

Record Connect := MkConnect {
  c_sock_fd : Z;               (* U64 *)
  c_status : Z;
  c_type : Z;
  c_sdk_verified : Z;
  c_agent_status : Z;
  c_exit : Z;
  c_app : Z;
  c_mobile : Z;
  c_token : bytes;             (* U8[32] *)
  c_dest_port : Z;
  c_user : option ptr;
  c_scb : option ptr;
  c_curr_host : bytes;
  c_traffic_tmp : Z;
  c_begin_time : timeval;
  c_cstate : Trans_stat;
  c_h_len : Z;
  c_stillneedtoread : Z;
  c_offset : Z;
  c_datalen : Z;
  c_buff : bytes;              (* U8[8192] *)
}.

#[export] Instance eta_connect : Eta Connect := fun x =>
  MkConnect (c_sock_fd x) (c_status x) (c_type x) (c_sdk_verified x) (c_agent_status x) (c_exit x)
    (c_app x) (c_mobile x) (c_token x) (c_dest_port x) (c_user x) (c_scb x) (c_curr_host x)
    (c_traffic_tmp x) (c_begin_time x) (c_cstate x) (c_h_len x) (c_stillneedtoread x) (c_offset x)
    (c_datalen x) (c_buff x).

(** [new Connect]: the members' initialisers; [buff] is not initialised. *)
Definition Connect_new (buf : bytes) : Connect :=
  MkConnect 0 0 0 0 0 0 0 0 (replicate 32 0) 80 None None [] 0 (Tv 0 0) s_header 0 0 0 0 buf.

Record SCB := MkSCB {
  sb_scbid : Z;
  sb_user : option ptr;
  sb_forward_id : Z;
  sb_agent_fd : Z;
  sb_tunn_fd : Z;
  sb_traffic : Z;
  sb_agent_conn : option ptr;
  sb_tunnel_conn : option ptr;
  sb_last_active_time : timeval;
  sb_dest_port : Z;
  sb_status : Z;
  sb_recycled : Z;
  sb_waiting_dns : Z;
  sb_connected : Z;
}.

#[export] Instance eta_scb : Eta SCB := fun x =>
  MkSCB (sb_scbid x) (sb_user x) (sb_forward_id x) (sb_agent_fd x) (sb_tunn_fd x) (sb_traffic x)
    (sb_agent_conn x) (sb_tunnel_conn x) (sb_last_active_time x) (sb_dest_port x) (sb_status x)
    (sb_recycled x) (sb_waiting_dns x) (sb_connected x).

(** [SCB(U64 id)] *)
Definition SCB_new (id : Z) : SCB := MkSCB id None 0 0 0 0 None None (Tv 0 0) 80 0 0 0 0.

(** [SCB::Reset]: every member but [waiting_dns], which it does not name. *)
Definition SCB_Reset (b : SCB) : SCB :=
  {| sb_scbid := 0; sb_user := None; sb_agent_fd := 0; sb_tunn_fd := 0; sb_agent_conn := None;
     sb_tunnel_conn := None; sb_last_active_time := Tv 0 0; sb_status := 0; sb_recycled := 0;
     sb_forward_id := 0; sb_traffic := 0; sb_dest_port := 0; sb_connected := 0;
     sb_waiting_dns := sb_waiting_dns b |}.

Record User := MkUser {
  us_mobile : Z;
  us_app : Z;
  us_forward_id : Z;
  us_traffic : Z;
  us_balance : Z;              (* long long *)
  us_accu_start_time : timeval;
  us_status : Z;
  us_reporting : Z;
  us_con_report : Z;           (* U16 *)
  us_scb_tree : gmap Z ptr;
}.

#[export] Instance eta_user : Eta User := fun x =>
  MkUser (us_mobile x) (us_app x) (us_forward_id x) (us_traffic x) (us_balance x)
    (us_accu_start_time x) (us_status x) (us_reporting x) (us_con_report x) (us_scb_tree x).

Definition LONG_MAX : Z := 2 ^ 63 - 1.
Definition ULONG_MAX : Z := 2 ^ 64 - 1.

Definition User_new : User := MkUser 0 0 0 0 0 (Tv LONG_MAX LONG_MAX) 0 0 0 ∅.

Record SCBWatchNode := MkWatch { w_scbid : Z; w_traffic : Z; w_scb : ptr }.

#[export] Instance watch_eq_dec : EqDecision SCBWatchNode.
Proof. solve_decision. Defined.

(** ** The process *)

Record tms := MkTms {
  conns : gmap ptr Connect;
  scbs : gmap ptr SCB;
  users : gmap ptr User;
  next_ptr : ptr;                        (* addresses from here on are unused *)
  fresh_buff : bytes;                    (* what a new receive buffer holds *)
  (* ConnectMgr *)
  Epoll_FD : Z;
  ConnMap : gmap Z ptr;
  DnsConnPool : list ptr;
  CenterConnPool : list ptr;
  DpiConnPool : list ptr;
  (* SCBMgr *)
  aval_pcb_id : Z;
  scb_free_list : list ptr;
  scb_watch_list : list SCBWatchNode;
  scb_expire_list : list SCBWatchNode;
  (* UserMgr *)
  UserMap : gmap (Z * Z) ptr;
  aval_forward_id : Z;
  ExpireList : list (list ptr);          (* RETRY_TIMES lists *)
  (* DnsCache *)
  dc : Dns.DnsCache;
  (* the build and the environment *)
  accurate : bool;                       (* built with -DACCURATE_TRAFFIC *)
  sys : os;
}.

#[export] Instance eta_tms : Eta tms := fun x =>
  MkTms (conns x) (scbs x) (users x) (next_ptr x) (fresh_buff x) (Epoll_FD x) (ConnMap x)
    (DnsConnPool x) (CenterConnPool x) (DpiConnPool x) (aval_pcb_id x) (scb_free_list x)
    (scb_watch_list x) (scb_expire_list x) (UserMap x) (aval_forward_id x) (ExpireList x) (dc x)
    (accurate x) (sys x).

#[export] Program Instance tms_os : HasOs tms := {|
  the_os := sys;
  with_os f s := s <| sys ::= f |>;
|}.
Next Obligation. done. Qed.

Definition RETRY_TIMES : Z := 5.

(** The process after static initialisation. *)
Definition tms_init (buf : bytes) (acc : bool) (o : os) : tms :=
  MkTms ∅ ∅ ∅ 1 buf (-1) ∅ [] [] [] 0 [] [] [] ∅ 1 (replicate 5 []) Dns.DnsCache_init acc o.

Abbreviation T := (M tms).

(** ** Access through pointers *)

Definition conn (p : ptr) : T Connect := fun s =>
  match conns s !! p with Some c => Ok (c, s) | None => Bad UseAfterFree end.

Definition set_conn (p : ptr) (f : Connect → Connect) : T unit := fun s =>
  match conns s !! p with
  | Some c => Ok (tt, s <| conns := <[p := f c]> (conns s) |>)
  | None => Bad UseAfterFree
  end.

Definition scb_at (p : ptr) : T SCB := fun s =>
  match scbs s !! p with Some c => Ok (c, s) | None => Bad UseAfterFree end.

Definition set_scb (p : ptr) (f : SCB → SCB) : T unit := fun s =>
  match scbs s !! p with
  | Some c => Ok (tt, s <| scbs := <[p := f c]> (scbs s) |>)
  | None => Bad UseAfterFree
  end.

Definition user_at (p : ptr) : T User := fun s =>
  match users s !! p with Some c => Ok (c, s) | None => Bad UseAfterFree end.

Definition set_user (p : ptr) (f : User → User) : T unit := fun s =>
  match users s !! p with
  | Some c => Ok (tt, s <| users := <[p := f c]> (users s) |>)
  | None => Bad UseAfterFree
  end.

Definition new_conn : T ptr := fun s =>
  let p := next_ptr s in
  Ok (p, s <| conns := <[p := Connect_new (fresh_buff s)]> (conns s) |> <| next_ptr := p + 1 |>).

Definition new_scb (id : Z) : T ptr := fun s =>
  let p := next_ptr s in
  Ok (p, s <| scbs := <[p := SCB_new id]> (scbs s) |> <| next_ptr := p + 1 |>).

Definition new_user : T ptr := fun s =>
  let p := next_ptr s in
  Ok (p, s <| users := <[p := User_new]> (users s) |> <| next_ptr := p + 1 |>).

Definition free_conn (p : ptr) : T unit := fun s =>
  match conns s !! p with
  | Some _ => Ok (tt, s <| conns := delete p (conns s) |>)
  | None => Bad UseAfterFree
  end.

(** [_CenterConnPool[0]] and the like. *)
Definition pool0 (f : tms → list ptr) : T ptr := fun s =>
  match f s with p :: _ => Ok (p, s) | [] => Bad OutOfBounds end.

Definition GetDnsConn : T ptr := pool0 DnsConnPool.
Definition GetCenterConn : T ptr := pool0 CenterConnPool.
Definition GetDpiConn : T ptr := pool0 DpiConnPool.

Lemma no_fuel_conn p : no_fuel (conn p).
Proof. intros s. unfold conn. destruct (_ !! _); discriminate. Qed.
Lemma no_fuel_set_conn p f : no_fuel (set_conn p f).
Proof. intros s. unfold set_conn. destruct (_ !! _); discriminate. Qed.
Lemma no_fuel_scb_at p : no_fuel (scb_at p).
Proof. intros s. unfold scb_at. destruct (_ !! _); discriminate. Qed.
Lemma no_fuel_set_scb p f : no_fuel (set_scb p f).
Proof. intros s. unfold set_scb. destruct (_ !! _); discriminate. Qed.
Lemma no_fuel_user_at p : no_fuel (user_at p).
Proof. intros s. unfold user_at. destruct (_ !! _); discriminate. Qed.
Lemma no_fuel_set_user p f : no_fuel (set_user p f).
Proof. intros s. unfold set_user. destruct (_ !! _); discriminate. Qed.
Lemma no_fuel_free_conn p : no_fuel (free_conn p).
Proof. intros s. unfold free_conn. destruct (_ !! _); discriminate. Qed.
Lemma no_fuel_pool0 f : no_fuel (pool0 f).
Proof. intros s. unfold pool0. destruct (f s); discriminate. Qed.

#[export] Hint Resolve no_fuel_conn no_fuel_set_conn no_fuel_scb_at no_fuel_set_scb no_fuel_user_at
  no_fuel_set_user no_fuel_free_conn no_fuel_pool0 : tunnel.

(** ** Symbolic runs *)

Lemma conn_run p s c : conns s !! p = Some c → conn p s = Ok (c, s).
Proof. unfold conn. intros ->. done. Qed.
Lemma set_conn_run p f s c : conns s !! p = Some c →
  set_conn p f s = Ok (tt, s <| conns := <[p := f c]> (conns s) |>).
Proof. unfold set_conn. intros ->. done. Qed.
Lemma scb_at_run p s c : scbs s !! p = Some c → scb_at p s = Ok (c, s).
Proof. unfold scb_at. intros ->. done. Qed.
Lemma set_scb_run p f s c : scbs s !! p = Some c →
  set_scb p f s = Ok (tt, s <| scbs := <[p := f c]> (scbs s) |>).
Proof. unfold set_scb. intros ->. done. Qed.
Lemma user_at_run p s c : users s !! p = Some c → user_at p s = Ok (c, s).
Proof. unfold user_at. intros ->. done. Qed.
Lemma set_user_run p f s c : users s !! p = Some c →
  set_user p f s = Ok (tt, s <| users := <[p := f c]> (users s) |>).
Proof. unfold set_user. intros ->. done. Qed.
Lemma free_conn_run p s c : conns s !! p = Some c →
  free_conn p s = Ok (tt, s <| conns := delete p (conns s) |>).
Proof. unfold free_conn. intros ->. done. Qed.
Lemma pool0_run f s p l : f s = p :: l → pool0 f s = Ok (p, s).
Proof. unfold pool0. intros ->. done. Qed.
Lemma emit_run e (s : tms) : emit e s = Ok (tt, s <| sys ::= fun o => o <| o_log := o_log o ++ [e] |> |>).
Proof. done. Qed.
Lemma gettimeofday_run (s : tms) : gettimeofday s = Ok (o_now (sys s), s).
Proof. done. Qed.

#[export] Hint Resolve conn_run set_conn_run scb_at_run set_scb_run user_at_run set_user_run
  free_conn_run pool0_run emit_run gettimeofday_run : tunnel_run.

(** Finds the heap cell of a symbolic state: [rsimpl], then the map lemmas. *)
Ltac heap :=
  rsimpl; repeat (rewrite lookup_insert_eq || rewrite lookup_insert_ne by congruence);
  first [eassumption | reflexivity | by eauto].

(** One step of a symbolic run. *)
Ltac mstep :=
  eapply bind_run;
  [ first [ apply conn_run; heap | apply set_conn_run; heap | apply scb_at_run; heap
          | apply set_scb_run; heap | apply user_at_run; heap | apply set_user_run; heap
          | apply free_conn_run; heap | eapply pool0_run; rsimpl; eassumption
          | solve [auto with tunnel_run nocore] | apply ret_run ] |].

End TmsState.
