(* ===== verification/TmsAccount.v ===== *)
(** * Tunnel server: streams, users and traffic accounting

    src/tms/tms/TMSDataTypes.h, SCB.h (SCBMgr), UserMgr.h and UserMgr.cpp, without
    [ConnectWebServer] and [IncreaseExpireTime], which send messages.

    The theorems: the order on user ids is a strict total order; [RecordTraffic]
    and its balance check; traffic is conserved, what a stream counted is either
    still on the stream, accumulated on the user, or in a report line; stream ids
    are never given out twice and forward ids are never 0; the watch list scan. *)

From S2P Require Import Prelude Wire Frame Os Dns TmsState.
From stdpp Require Import base gmap list strings.
From Stdlib Require Import ZArith Lia.
Import Wire Frame Os TmsState.

Open Scope Z_scope.

Module TmsAccount.

(** ** TMSDataTypes.h *)

(** [UserId::operator<] *)
Definition UserId_lt (a b : Z * Z) : bool :=
  if a.1 <? b.1 then true else if (a.1 =? b.1) && (a.2 <? b.2) then true else false.

Definition Tcp_Ack_Len : Z := 32 + 20.

Definition TrafficEst (acc : bool) (x : Z) : Z :=
  if acc then i32 (x + Tcp_Ack_Len * 2 + Z.quot x 1394 * Tcp_Ack_Len) else x.

Definition Traffic_TCP_hss (acc : bool) : Z := if acc then 5 * Tcp_Ack_Len + 2 * 60 else 0.

Definition TelecomTrafficPredict (tcplen : Z) : Z :=
  if tcplen <=? 0 then i32 (tcplen + Tcp_Ack_Len)
  else i32 (tcplen + Tcp_Ack_Len + Z.quot (tcplen - 1) 1388 * Tcp_Ack_Len).

(** ** SCBMgr *)

Definition NewSCB : T ptr :=
  fl ← gets scb_free_list;
  match fl with
  | scb :: rest =>
    modify (fun s => s <| scb_free_list := rest |>);;
    modify (fun s => s <| aval_pcb_id := u64 (aval_pcb_id s + 1) |>);;
    id ← gets aval_pcb_id;
    set_scb scb (fun b => b <| sb_scbid := id |>);;
    mret scb
  | [] =>
    modify (fun s => s <| aval_pcb_id := u64 (aval_pcb_id s + 1) |>);;
    id ← gets aval_pcb_id;
    new_scb id
  end.

Definition RecycleSCB (scb : ptr) : T unit :=
  set_scb scb SCB_Reset;;
  modify (fun s => s <| scb_free_list := scb_free_list s ++ [scb] |>).

(** The first loop of [SCBWatchScan]: the nodes that stay, in order, and the ones
    pushed to the expire queue. *)
Fixpoint watch_loop (l keep : list SCBWatchNode) : T (list SCBWatchNode) :=
  match l with
  | [] => mret keep
  | n :: l' =>
    b ← scb_at (w_scb n);
    if w_scbid n =? sb_scbid b then
      if w_traffic n =? sb_traffic b then
        modify (fun s => s <| scb_expire_list := scb_expire_list s ++ [n] |>);;
        watch_loop l' keep
      else watch_loop l' (keep ++ [n])
    else watch_loop l' keep
  end.

(** The second loop, over the expire queue. *)
Fixpoint expire_queue_loop (q : list SCBWatchNode) : T unit :=
  match q with
  | [] => mret tt
  | n :: q' =>
    b ← scb_at (w_scb n);
    (if w_scbid n =? sb_scbid b then
       if w_traffic n =? sb_traffic b then mret tt
       else modify (fun s => s <| scb_watch_list := scb_watch_list s ++ [n] |>)
     else mret tt);;
    modify (fun s => s <| scb_expire_list := tail (scb_expire_list s) |>);;
    expire_queue_loop q'
  end.

Definition SCBWatchScan : T Z :=
  l ← gets scb_watch_list;
  keep ← watch_loop l [];
  modify (fun s => s <| scb_watch_list := keep |>);;
  q ← gets scb_expire_list;
  expire_queue_loop q;;
  mret 0.

(** ** User *)

(** [User::ResetUser] *)
Definition ResetUser (u : ptr) : T unit :=
  set_user u (fun x => x <| us_app := 0 |> <| us_status := 0 |> <| us_forward_id := 0 |>
                         <| us_reporting := 0 |>).

(** [tunnel->sock_fd] and the like are read when the statement runs. *)
Definition CreateSCB (u : ptr) (tunnel : ptr) (agent : option ptr) : T ptr :=
  t ← conn tunnel;
  match c_scb t with
  | Some b => mret b
  | None =>
    scb ← NewSCB;
    set_scb scb (fun b => b <| sb_user := Some u |> <| sb_dest_port := c_dest_port t |>
                            <| sb_tunnel_conn := Some tunnel |> <| sb_tunn_fd := c_sock_fd t |>);;
    now ← gettimeofday;
    set_scb scb (fun b => b <| sb_last_active_time := now |>);;
    set_conn tunnel (fun c => c <| c_user := Some u |> <| c_scb := Some scb |>);;
    match agent with
    | Some a =>
      ac ← conn a;
      set_scb scb (fun b => b <| sb_agent_conn := Some a |> <| sb_agent_fd := c_sock_fd ac |>);;
      set_conn a (fun c => c <| c_user := Some u |> <| c_scb := Some scb |>)
    | None => mret tt
    end;;
    b ← scb_at scb;
    set_user u (fun x =>
      x <| us_scb_tree := match us_scb_tree x !! sb_scbid b with
                          | Some _ => us_scb_tree x
                          | None => <[sb_scbid b := scb]> (us_scb_tree x)
                          end |>);;
    mret scb
  end.

(** [User::RecordTraffic]; a call on a null user only returns for a null stream. *)
Definition RecordTraffic (u : option ptr) (scb : option ptr) (datalen : Z) : T Z :=
  match scb with
  | None => mret (-1)
  | Some b =>
    set_scb b (fun x => x <| sb_traffic := u64 (sb_traffic x + datalen) |>);;
    u ← nonnull u;
    set_user u (fun x => x <| us_balance := i64 (us_balance x - datalen) |>);;
    x ← scb_at b;
    y ← user_at u;
    if (sb_status x =? u_validated) && (us_balance y <? 4000) then mret (-1) else mret 0
  end.

(** [memcpy(r.host, curr_host.c_str(), curr_host.size())] into [host[256]]. *)
Definition copy_host (host : bytes) : T bytes :=
  if Z.of_nat (length host) <=? 256 then mret (cstr host) else fail_with OutOfBounds.

Definition ReportTraffic (u scb : ptr) : T Z :=
  b ← scb_at scb;
  if (sb_traffic b =? 0) || negb (sb_status b =? u_validated) then mret 0 else
  acc ← gets accurate;
  set_scb scb (fun x => x <| sb_traffic := u64 (sb_traffic x + Traffic_TCP_hss acc) |>);;
  b ← scb_at scb;
  y ← user_at u;
  etime ← gettimeofday;
  '(btime, host) ← match sb_tunnel_conn b with
                   | Some t => c ← conn t; h ← copy_host (c_curr_host c); mret (c_begin_time c, h)
                   | None => mret (Tv 0 0, [])
                   end;
  emit (IoReport RepPlain (us_mobile y) (us_app y) (sb_traffic b) btime etime host);;
  _ ← GetCenterConn;
  set_scb scb (fun x => x <| sb_traffic := 0 |>);;
  mret 0.

Definition tv_lt (a b : timeval) : bool :=
  (tv_sec a <? tv_sec b) || ((tv_sec a =? tv_sec b) && (tv_usec a <? tv_usec b)).

(** The start of the accumulation interval in [ReportOrAccumulate]. *)
Definition set_accu_start (u : ptr) (btime : timeval) : T unit :=
  y ← user_at u;
  now ← gettimeofday;
  (if us_con_report y =? 0 then set_user u (fun x => x <| us_accu_start_time := now |>) else mret tt);;
  y ← user_at u;
  if (us_con_report y =? 0) || tv_lt (us_accu_start_time y) btime then mret tt
  else set_user u (fun x => x <| us_accu_start_time := btime |>).

(** Its last part: to the user while a report is under way, to a report line
    otherwise. *)
Definition accumulate_or_emit (u : ptr) (traffic : Z) (btime etime : timeval) (host : bytes) : T unit :=
  y ← user_at u;
  if negb (us_reporting y =? 0) then
    set_user u (fun x => x <| us_con_report := u16 (us_con_report x + 1) |>
                           <| us_traffic := u64 (us_traffic x + traffic) |>)
  else
    set_user u (fun x => x <| us_reporting := 1 |>);;
    emit (IoReport RepTr (us_mobile y) (us_app y) traffic btime etime host);;
    _ ← GetCenterConn;
    set_user u (fun x => x <| us_traffic := 0 |>).

Definition ReportOrAccumulate (u scb : ptr) : T Z :=
  b ← scb_at scb;
  if sb_traffic b =? 0 then mret (-1) else
  acc ← gets accurate;
  set_scb scb (fun x => x <| sb_traffic := u64 (sb_traffic x + Traffic_TCP_hss acc) |>);;
  b ← scb_at scb;
  match sb_tunnel_conn b with
  | None => mret (-1)
  | Some t =>
    c ← conn t;
    host ← copy_host (c_curr_host c);
    set_accu_start u (c_begin_time c);;
    y ← user_at u;
    let btime := us_accu_start_time y in
    etime ← gettimeofday;
    emit (IoReport RepLo (us_mobile y) (us_app y) (sb_traffic b) btime etime host);;
    accumulate_or_emit u (sb_traffic b) btime etime host;;
    set_scb scb (fun x => x <| sb_traffic := 0 |>);;
    mret 0
  end.

Definition ReportAccumulated (u : ptr) : T Z :=
  y ← user_at u;
  etime ← gettimeofday;
  emit (IoReport RepTr (us_mobile y) (us_app y) (us_traffic y) (us_accu_start_time y) etime (bs "-"));;
  _ ← GetCenterConn;
  set_user u (fun x => x <| us_traffic := 0 |> <| us_con_report := 0 |>);;
  mret 0.

(** [User::ReleaseSCBList] and [User::ReleaseSCB]. *)
Fixpoint recycle_all (l : list (Z * ptr)) : T unit :=
  match l with
  | [] => mret tt
  | (_, b) :: l' => RecycleSCB b;; recycle_all l'
  end.

Definition ReleaseSCBList (u : ptr) : T unit :=
  x ← user_at u;
  recycle_all (map_to_list (us_scb_tree x));;
  set_user u (fun x => x <| us_scb_tree := ∅ |>).

Definition ReleaseSCB (u scb : ptr) : T unit := user_at u;; scb_at scb;; RecycleSCB scb.

(** ** UserMgr *)

Definition NewForwardId : T Z :=
  modify (fun s => if aval_forward_id s =? ULONG_MAX then s <| aval_forward_id := 1 |> else s);;
  id ← gets aval_forward_id;
  modify (fun s => s <| aval_forward_id := u64 (aval_forward_id s + 1) |>);;
  mret id.

Definition RetrieveUser (id : Z * Z) : T ptr :=
  m ← gets UserMap;
  match m !! id with
  | Some u => mret u
  | None =>
    u ← new_user;
    modify (fun s => s <| UserMap := <[id := u]> (UserMap s) |>);;
    now ← gettimeofday;
    set_user u (fun x => x <| us_status := 0 |> <| us_forward_id := 0 |> <| us_balance := 0 |>
                           <| us_traffic := 0 |> <| us_app := id.2 |> <| us_mobile := id.1 |>
                           <| us_accu_start_time := now |>);;
    mret u
  end.

Definition TraceUser (u : ptr) : T Z :=
  modify (fun s => s <| ExpireList :=
    alter (fun l => l ++ [u]) (Z.to_nat (RETRY_TIMES - 1)) (ExpireList s) |>);;
  mret 0.

(** Both loops pop every list empty. *)
Fixpoint pop_all (l : list ptr) : list ptr :=
  match l with [] => [] | _ :: l' => pop_all l' end.

Definition ExpireLocalUser : T Z :=
  modify (fun s => s <| ExpireList := alter pop_all 0%nat (ExpireList s) |>);;
  modify (fun s => s <| ExpireList :=
    fold_left (fun ls i => alter pop_all i ls) (seq 1 (Z.to_nat RETRY_TIMES - 1)) (ExpireList s) |>);;
  mret 0.

(** The user's part of the reply to a traffic report
    ([case TRAFFIC_REPORT_RSP] of [Connect::HandleRecvMsg]). *)
Definition OnReportRsp (u : ptr) : T unit :=
  x ← user_at u;
  if negb (us_traffic x =? 0) then
    ReportAccumulated u;;
    set_user u (fun x => x <| us_reporting := 1 |>)
  else set_user u (fun x => x <| us_reporting := 0 |>).

(** ** Lemmas on the operations *)

Lemma RecordTraffic_run u b n s x y : scbs s !! b = Some x → users s !! u = Some y →
  RecordTraffic (Some u) (Some b) n s
  = Ok (if (sb_status x =? u_validated) && (i64 (us_balance y - n) <? 4000) then -1 else 0,
        s <| scbs := <[b := x <| sb_traffic := u64 (sb_traffic x + n) |>]> (scbs s) |>
          <| users := <[u := y <| us_balance := i64 (us_balance y - n) |>]> (users s) |>).
Proof. intros Hx Hy. unfold RecordTraffic. repeat mstep. rsimpl. case_ifs; done. Qed.

(** Two states that agree on what accounting reads and does not write. *)
Definition same_env (s s' : tms) : Prop :=
  conns s' = conns s ∧ CenterConnPool s' = CenterConnPool s ∧ accurate s' = accurate s
  ∧ ConnMap s' = ConnMap s ∧ scb_free_list s' = scb_free_list s ∧ Epoll_FD s' = Epoll_FD s
  ∧ o_rx (sys s') = o_rx (sys s).

#[export] Instance same_env_preorder : PreOrder same_env.
Proof.
  split; [done|]. intros a b c. unfold same_env. intuition congruence.
Qed.

(** What happens to a user and to the log at a report: [g] bytes go to report
    lines tagged [tr]. *)
Definition user_step (u : ptr) (y y' : User) (g : Z) (s s' : tms) : Prop :=
  users s' = <[u := y']> (users s) ∧ us_mobile y' = us_mobile y ∧ us_app y' = us_app y ∧
  ∀ m a, reported RepTr m a (o_log (sys s'))
       = reported RepTr m a (o_log (sys s)) + (if (m =? us_mobile y) && (a =? us_app y) then g else 0).

Lemma reported_tr_one m a m' a' t bt et h :
  reported RepTr m a [IoReport RepTr m' a' t bt et h] = if (m =? m') && (a =? a') then t else 0.
Proof.
  unfold reported. cbn [fold_right]. rewrite bool_decide_true by done.
  rewrite (Z.eqb_sym m'), (Z.eqb_sym a'). cbn [andb]. destruct (_ && _); lia.
Qed.

Lemma reported_tr_other k m a m' a' t bt et h : k ≠ RepTr →
  reported RepTr m a [IoReport k m' a' t bt et h] = 0.
Proof. intros Hk. unfold reported. cbn [fold_right]. rewrite bool_decide_false by done. done. Qed.

Lemma copy_host_run h s : Z.of_nat (length h) ≤ 256 → copy_host h s = Ok (cstr h, s).
Proof. intros H. unfold copy_host. destruct (Z.leb_spec (Z.of_nat (length h)) 256); [done|lia]. Qed.

Lemma set_accu_start_run u bt s y : users s !! u = Some y →
  ∃ tv, set_accu_start u bt s
        = Ok (tt, s <| users := <[u := y <| us_accu_start_time := tv |>]> (users s) |>).
Proof.
  intros Hy. assert (∀ w : User, w = w <| us_accu_start_time := us_accu_start_time w |>) as Hid
    by (intros []; done).
  unfold set_accu_start. destruct (us_con_report y =? 0) eqn:Hc.
  - eexists. mstep. mstep. rewrite Hc. mstep. mstep. rsimpl. rewrite Hc. done.
  - destruct (tv_lt (us_accu_start_time y) bt) eqn:Ht.
    + exists (us_accu_start_time y). mstep. mstep. rewrite Hc. mstep. mstep. rewrite Hc, Ht.
      cbn [orb]. rewrite <- Hid, insert_id by done. destruct s; done.
    + eexists. mstep. mstep. rewrite Hc. mstep. mstep. rewrite Hc, Ht. cbn [orb].
      erewrite set_user_run by eassumption. done.
Qed.

Lemma accumulate_or_emit_run u n bt et h s y p l :
  users s !! u = Some y → CenterConnPool s = p :: l →
  ∃ s' y', accumulate_or_emit u n bt et h s = Ok (tt, s') ∧ same_env s s' ∧ scbs s' = scbs s
    ∧ (if us_reporting y =? 0
       then user_step u y y' n s s' ∧ us_traffic y' = 0 ∧ us_reporting y' = 1
       else user_step u y y' 0 s s' ∧ us_traffic y' = u64 (us_traffic y + n)
            ∧ us_reporting y' = us_reporting y).
Proof.
  intros Hy Hp. unfold accumulate_or_emit. destruct (us_reporting y =? 0) eqn:Hr.
  - eexists _, (y <| us_reporting := 1 |> <| us_traffic := 0 |>).
    split; [mstep; rewrite Hr; cbn [negb]; do 3 mstep; apply set_user_run; heap|].
    split; [done|]. split; [done|]. split; [|done].
    split; [|split; [done|split; [done|]]]; rsimpl; [apply insert_insert_eq|].
    intros m a. rewrite reported_app, reported_tr_one. done.
  - eexists _, (y <| us_con_report := u16 (us_con_report y + 1) |>
                  <| us_traffic := u64 (us_traffic y + n) |>).
    split; [mstep; rewrite Hr; cbn [negb]; apply set_user_run; heap|].
    split; [done|]. split; [done|]. split; [|done].
    split; [|split; [done|split; [done|]]]; rsimpl; [done|].
    intros m a. destruct (_ && _); lia.
Qed.

(** [ReportOrAccumulate] on a stream with traffic and a tunnel: the stream's
    counter moves, whole, to the user or to a report line. *)
Lemma ReportOrAccumulate_run u b s x y t c p l :
  scbs s !! b = Some x → users s !! u = Some y → sb_traffic x ≠ 0 →
  sb_tunnel_conn x = Some t → conns s !! t = Some c → Z.of_nat (length (c_curr_host c)) ≤ 256 →
  CenterConnPool s = p :: l →
  let n := u64 (sb_traffic x + Traffic_TCP_hss (accurate s)) in
  ∃ s' y', ReportOrAccumulate u b s = Ok (0, s') ∧ same_env s s'
    ∧ scbs s' = <[b := x <| sb_traffic := 0 |>]> (scbs s)
    ∧ (if us_reporting y =? 0
       then user_step u y y' n s s' ∧ us_traffic y' = 0 ∧ us_reporting y' = 1
       else user_step u y y' 0 s s' ∧ us_traffic y' = u64 (us_traffic y + n)
            ∧ us_reporting y' = us_reporting y).
Proof.
  intros Hx Hy Htr Ht Hc Hl Hp n.
  destruct (set_accu_start_run u (c_begin_time c)
    (s <| scbs := <[b := x <| sb_traffic := n |>]> (scbs s) |>) y) as [tv Htv]; [exact Hy|].
  set (y1 := y <| us_accu_start_time := tv |>) in *.
  set (s1 := s <| scbs := <[b := x <| sb_traffic := n |>]> (scbs s) |>
               <| users := <[u := y1]> (users s) |>).
  set (s2 := s1 <| sys ::= fun o => o <| o_log := o_log o ++
    [IoReport RepLo (us_mobile y) (us_app y) n tv (o_now (sys s)) (cstr (c_curr_host c))] |> |>).
  destruct (accumulate_or_emit_run u n tv (o_now (sys s)) (cstr (c_curr_host c)) s2 y1 p l)
    as (s3 & y3 & Hrun & Henv & Hscb & Hstep); [unfold s2, s1; heap|done|].
  exists (s3 <| scbs := <[b := x <| sb_traffic := 0 |>]> (scbs s) |>), y3. split.
  { unfold ReportOrAccumulate. mstep. rewrite (proj2 (Z.eqb_neq _ _) Htr). do 3 mstep. rsimpl.
    rewrite Ht. mstep. eapply bind_run; [apply copy_host_run; exact Hl|].
    fold n. eapply bind_run; [exact Htv|]. do 3 mstep. eapply bind_run; [exact Hrun|].
    eapply bind_run; [apply set_scb_run; rewrite Hscb; unfold s2, s1; heap|].
    rewrite Hscb. unfold s2, s1. rsimpl. rewrite insert_insert_eq. done. }
  split; [exact Henv|]. split; [done|].
  change (us_reporting y1) with (us_reporting y) in Hstep.
  change (us_traffic y1) with (us_traffic y) in Hstep.
  destruct (us_reporting y =? 0); destruct Hstep as ((Hu & Hm & Ha & Hrep) & Htr' & Hr');
    (split; [|done]); (split; [|split; [done|split; [done|]]]).
  1, 3: rsimpl; rewrite Hu; unfold s2, s1; rsimpl; apply insert_insert_eq.
  all: intros m a; rsimpl; rewrite Hrep; unfold s2, s1; rsimpl;
    rewrite reported_app, reported_tr_other by done; change (us_mobile y1) with (us_mobile y);
    change (us_app y1) with (us_app y); lia.
Qed.

(** Without a tunnel the stream keeps its counter. *)
Lemma ReportOrAccumulate_no_tunnel u b s x :
  scbs s !! b = Some x → sb_traffic x ≠ 0 → sb_tunnel_conn x = None →
  ReportOrAccumulate u b s
  = Ok (-1, s <| scbs := <[b := x <| sb_traffic := u64 (sb_traffic x + Traffic_TCP_hss (accurate s)) |>]>
                   (scbs s) |>).
Proof.
  intros Hx Htr Ht. unfold ReportOrAccumulate. mstep. rewrite (proj2 (Z.eqb_neq _ _) Htr).
  do 3 mstep. rsimpl. rewrite Ht. done.
Qed.

Lemma ReportOrAccumulate_idle u b s x : scbs s !! b = Some x → sb_traffic x = 0 →
  ReportOrAccumulate u b s = Ok (-1, s).
Proof. intros Hx Htr. unfold ReportOrAccumulate. mstep. rewrite Htr. done. Qed.

(** On a live stream the call returns, and changes nothing but the two counters
    and the log. *)
Lemma ReportOrAccumulate_env u b s x y :
  scbs s !! b = Some x → users s !! u = Some y → CenterConnPool s ≠ [] →
  (∀ t, sb_tunnel_conn x = Some t →
   ∃ c, conns s !! t = Some c ∧ Z.of_nat (length (c_curr_host c)) ≤ 256) →
  ∃ r s' n y', ReportOrAccumulate u b s = Ok (r, s') ∧ same_env s s'
    ∧ scbs s' = <[b := x <| sb_traffic := n |>]> (scbs s) ∧ users s' = <[u := y']> (users s).
Proof.
  intros Hx Hy Hc Ht. destruct (CenterConnPool s) as [|p l] eqn:Hp; [done|].
  destruct (decide (sb_traffic x = 0)) as [H0|H0].
  - exists (-1), s, (sb_traffic x), y. rewrite !insert_id by (rewrite ?Hx; destruct x; done).
    split; [eapply ReportOrAccumulate_idle; eassumption|done].
  - destruct (sb_tunnel_conn x) as [t|] eqn:Htc.
    + destruct (Ht t eq_refl) as (c & Hcn & Hl).
      destruct (ReportOrAccumulate_run u b s x y t c p l Hx Hy H0 Htc Hcn Hl Hp)
        as (s' & y' & Hrun & Henv & Hscb & Hstep).
      exists 0, s', 0, y'. split; [done|]. split; [done|]. split; [done|].
      destruct (us_reporting y =? 0); apply Hstep.
    + eexists _, _, _, y. split; [apply ReportOrAccumulate_no_tunnel; eassumption|].
      split; [done|]. split; [done|]. rsimpl. rewrite insert_id; done.
Qed.

Lemma OnReportRsp_run u s y p l : users s !! u = Some y → CenterConnPool s = p :: l →
  ∃ s' y', OnReportRsp u s = Ok (tt, s') ∧ same_env s s' ∧ scbs s' = scbs s
    ∧ user_step u y y' (us_traffic y) s s' ∧ us_traffic y' = 0.
Proof.
  intros Hy Hp. unfold OnReportRsp. destruct (us_traffic y =? 0) eqn:Htr.
  - apply Z.eqb_eq in Htr. eexists _, (y <| us_reporting := 0 |>).
    split; [mstep; rewrite Htr; cbn [Z.eqb negb]; apply set_user_run; heap|].
    split; [done|]. split; [done|]. split; [|done].
    split; [done|]. split; [done|]. split; [done|]. intros m a. rewrite Htr. rsimpl.
    destruct (_ && _); lia.
  - eexists _, (y <| us_traffic := 0 |> <| us_con_report := 0 |> <| us_reporting := 1 |>).
    split.
    { mstep. rewrite Htr. cbn [negb]. eapply bind_run.
      - unfold ReportAccumulated. do 5 mstep. apply ret_run.
      - apply set_user_run. heap. }
    split; [done|]. split; [done|]. split; [|done].
    split; [rsimpl; rewrite insert_insert_eq; done|]. split; [done|]. split; [done|].
    intros m a. rsimpl. rewrite reported_app, reported_tr_one. done.
Qed.

(** ** Conservation of traffic *)

Definition pending (streams : list ptr) (m : gmap ptr SCB) : Z :=
  fold_right (fun b acc => default 0 (sb_traffic <$> m !! b) + acc) 0 streams.

Lemma pending_other streams m b x : b ∉ streams → pending streams (<[b := x]> m) = pending streams m.
Proof.
  induction streams as [|c l IH]; [done|]. rewrite not_elem_of_cons. intros [? ?].
  cbn [pending fold_right]. fold (pending l (<[b := x]> m)). fold (pending l m).
  rewrite lookup_insert_ne, IH by congruence. done.
Qed.

Lemma pending_insert streams m b x x' : NoDup streams → b ∈ streams → m !! b = Some x →
  pending streams (<[b := x']> m) = pending streams m - sb_traffic x + sb_traffic x'.
Proof.
  intros Hnd Hb Hx. induction Hnd as [|c l Hc Hl IH]; [by apply not_elem_of_nil in Hb|].
  cbn [pending fold_right]. fold (pending l (<[b := x']> m)). fold (pending l m).
  apply elem_of_cons in Hb as [<-|Hb].
  - rewrite lookup_insert_eq, pending_other, Hx by done. cbn [fmap option_fmap option_map default from_option id]. lia.
  - rewrite IH, lookup_insert_ne by (done || intros ->; done). lia.
Qed.

(** The operations the server performs on a user's account. *)
Inductive acct_op :=
  | ARecord (b : ptr) (n : Z)     (* bytes moved on a stream *)
  | AClose (b : ptr)              (* a stream ends *)
  | ARsp.                         (* the recorder answers a report *)

Definition acct_run (u : ptr) (op : acct_op) : T unit :=
  match op with
  | ARecord b n => _ ← RecordTraffic (Some u) (Some b) n; mret tt
  | AClose b => _ ← ReportOrAccumulate u b; mret tt
  | ARsp => OnReportRsp u
  end.

(** What an operation adds to the account: the bytes, and for a stream that ends
    with traffic the estimate of its handshakes. *)
Definition charge (op : acct_op) (s : tms) : Z :=
  match op with
  | ARecord _ n => n
  | AClose b => if default 0 (sb_traffic <$> scbs s !! b) =? 0 then 0 else Traffic_TCP_hss (accurate s)
  | ARsp => 0
  end.

Fixpoint acct_exec (u : ptr) (ops : list acct_op) (s : tms) : result (Z * tms) :=
  match ops with
  | [] => Ok (0, s)
  | op :: ops' =>
    match acct_run u op s with
    | Ok (_, s') =>
      match acct_exec u ops' s' with
      | Ok (g, s'') => Ok (charge op s + g, s'')
      | Bad f => Bad f
      end
    | Bad f => Bad f
    end
  end.

(** What is on the streams, on the user and in report lines. *)
Definition total (u : ptr) (m a : Z) (streams : list ptr) (s : tms) : Z :=
  reported RepTr m a (o_log (sys s)) + default 0 (us_traffic <$> users s !! u)
  + pending streams (scbs s).

Definition stream_ok (s : tms) (b : ptr) : Prop :=
  ∃ x, scbs s !! b = Some x ∧
  ∀ t, sb_tunnel_conn x = Some t →
  ∃ c, conns s !! t = Some c ∧ Z.of_nat (length (c_curr_host c)) ≤ 256.

(** A user with its streams: [reporting] is clear only when nothing is
    accumulated. *)
Record acct_ok (u : ptr) (m a : Z) (streams : list ptr) (s : tms) : Prop := MkAcctOk {
  ao_user : ∃ y, users s !! u = Some y ∧ us_mobile y = m ∧ us_app y = a
            ∧ (us_reporting y = 0 → us_traffic y = 0);
  ao_nodup : NoDup streams;
  ao_streams : ∀ b, b ∈ streams → stream_ok s b;
  ao_center : CenterConnPool s ≠ [];
}.

Definition op_on (streams : list ptr) (op : acct_op) : Prop :=
  match op with ARecord b _ | AClose b => b ∈ streams | ARsp => True end.

Lemma stream_ok_update s s' b x x' : conns s' = conns s → scbs s' = <[b := x']> (scbs s) →
  scbs s !! b = Some x → sb_tunnel_conn x' = sb_tunnel_conn x → ∀ c, stream_ok s c → stream_ok s' c.
Proof.
  intros Hc Hs Hx Ht c (z & Hz & Hk). unfold stream_ok. rewrite Hs, Hc.
  destruct (decide (c = b)) as [->|].
  - exists x'. rewrite lookup_insert_eq. split; [done|]. rewrite Ht.
    assert (z = x) as -> by congruence. done.
  - exists z. rewrite lookup_insert_ne by done. done.
Qed.

(** One step keeps the account and adds its charge. *)
Definition step_ok (u : ptr) (m a : Z) (streams : list ptr) (op : acct_op) (s : tms) : Prop :=
  ∃ s', acct_run u op s = Ok (tt, s') ∧ acct_ok u m a streams s'
        ∧ u64 (total u m a streams s') = u64 (total u m a streams s + charge op s).

(** An account whose user and one of whose streams were replaced. *)
Lemma acct_ok_update u m a streams s s' b x x' y' :
  acct_ok u m a streams s → same_env s s' → users s' !! u = Some y' →
  us_mobile y' = m → us_app y' = a → (us_reporting y' = 0 → us_traffic y' = 0) →
  scbs s !! b = Some x → scbs s' = <[b := x']> (scbs s) → sb_tunnel_conn x' = sb_tunnel_conn x →
  acct_ok u m a streams s'.
Proof.
  intros [_ Hnd Hst Hc] (E1 & E2 & E3) Hy Hm Ha Hr Hx Hs Ht. split; [eauto|done| |congruence].
  intros d Hd. eapply stream_ok_update; eauto.
Qed.

Lemma total_update u m a streams s s' b x x' y y' g :
  NoDup streams → b ∈ streams → users s !! u = Some y → users s' !! u = Some y' →
  scbs s !! b = Some x → scbs s' = <[b := x']> (scbs s) →
  reported RepTr m a (o_log (sys s')) = reported RepTr m a (o_log (sys s)) + g →
  total u m a streams s'
  = total u m a streams s + g + (us_traffic y' - us_traffic y) + (sb_traffic x' - sb_traffic x).
Proof.
  intros Hnd Hb Hy Hy' Hx Hs Hrep. unfold total.
  rewrite Hrep, Hs, (pending_insert _ _ _ x), Hy, Hy' by done.
  cbn [fmap option_fmap option_map default from_option id]. lia.
Qed.

Lemma u64_cong a b : (∃ k, a = b + k * 2 ^ 64) → u64 a = u64 b.
Proof. intros [k ->]. unfold wrap. apply Z_mod_plus_full. Qed.

Lemma u64_split a : ∃ k, u64 a = a + k * 2 ^ 64.
Proof. exists (- (a / 2 ^ 64)). unfold wrap. pose proof (Z_div_mod_eq_full a (2 ^ 64)). lia. Qed.

Lemma acct_step_record u m a streams b n s : acct_ok u m a streams s → b ∈ streams →
  step_ok u m a streams (ARecord b n) s.
Proof.
  intros Hok Hb. pose proof Hok as [(y & Hy & Hm & Ha & Hr) Hnd Hst Hc].
  destruct (Hst b Hb) as (x & Hx & Ht). eexists. split.
  { eapply bind_run; [apply RecordTraffic_run; eassumption|apply ret_run]. }
  split.
  - eapply (acct_ok_update u m a streams s _ b x); [done|done|apply lookup_insert_eq|done..].
  - erewrite (total_update u m a streams s _ b x _ y _ 0);
      [|done|done|done|apply lookup_insert_eq|done|done|rsimpl; lia].
    rsimpl. cbn [charge]. destruct (u64_split (sb_traffic x + n)) as [k ->].
    apply u64_cong. exists k. lia.
Qed.

Lemma acct_step_close u m a streams b s : acct_ok u m a streams s → b ∈ streams →
  step_ok u m a streams (AClose b) s.
Proof.
  intros Hok Hb. pose proof Hok as [(y & Hy & Hm & Ha & Hr) Hnd Hst Hc].
  destruct (Hst b Hb) as (x & Hx & Ht). unfold step_ok, charge, acct_run. rewrite Hx.
  cbn [fmap option_fmap option_map default from_option id].
  destruct (Z.eqb_spec (sb_traffic x) 0) as [Htr|Htr].
  { exists s. split; [eapply bind_run; [eapply ReportOrAccumulate_idle; eassumption|done]|].
    split; [done|]. f_equal. lia. }
  set (h := Traffic_TCP_hss (accurate s)).
  destruct (u64_split (sb_traffic x + h)) as [k Hk].
  destruct (sb_tunnel_conn x) as [t|] eqn:Htc.
  - destruct (Ht t eq_refl) as (c & Hcn & Hl).
    destruct (CenterConnPool s) as [|p l] eqn:Hp; [done|].
    destruct (ReportOrAccumulate_run u b s x y t c p l Hx Hy Htr Htc Hcn Hl Hp)
      as (s' & y' & Hrun & Henv & Hscb & Hstep).
    exists s'. split; [eapply bind_run; [exact Hrun|apply ret_run]|]. fold h in Hstep.
    destruct (Z.eqb_spec (us_reporting y) 0) as [Hr0|Hr0];
      destruct Hstep as ((Hu & Hm' & Ha' & Hrep) & Hy1 & Hy2); specialize (Hrep m a);
      rewrite Hm, Ha, !Z.eqb_refl in Hrep; cbn [andb] in Hrep;
      (assert (users s' !! u = Some y') as Hy' by (rewrite Hu; apply lookup_insert_eq));
      (split; [eapply (acct_ok_update u m a streams s); eauto; congruence|]);
      rewrite (total_update u m a streams s s' b x _ y y' _ Hnd Hb Hy Hy' Hx Hscb Hrep); rsimpl.
    + rewrite Hy1, (Hr Hr0), Hk. apply u64_cong. exists k. lia.
    + rewrite Hy1, Hk. destruct (u64_split (us_traffic y + (sb_traffic x + h + k * 2 ^ 64))) as [k' ->].
      apply u64_cong. exists (k + k'). lia.
  - eexists. split; [eapply bind_run; [apply ReportOrAccumulate_no_tunnel; eassumption|apply ret_run]|].
    split.
    + eapply (acct_ok_update u m a streams s _ b x); done.
    + erewrite (total_update u m a streams s _ b x _ y y 0);
        [|done|done|done|done|done|done|rsimpl; lia].
      rsimpl. fold h. rewrite Hk. apply u64_cong. exists k. lia.
Qed.

Lemma acct_step_rsp u m a streams s : acct_ok u m a streams s → step_ok u m a streams ARsp s.
Proof.
  intros [(y & Hy & Hm & Ha & Hr) Hnd Hst Hc].
  destruct (CenterConnPool s) as [|p l] eqn:Hp; [done|].
  destruct (OnReportRsp_run u s y p l Hy Hp) as (s' & y' & Hrun & (E1 & E2 & E3) & Hscb & Hstep & H0).
  destruct Hstep as (Hu & Hm' & Ha' & Hrep). exists s'. split; [done|]. split.
  - split; [|done| |rewrite E2, Hp; done].
    + exists y'. rewrite Hu, lookup_insert_eq. repeat split; congruence.
    + intros d Hd. destruct (Hst d Hd) as (x & Hx & Ht). exists x. rewrite Hscb, E1. done.
  - unfold total. rewrite Hscb, Hu, lookup_insert_eq, Hrep, Hy, Hm, Ha, !Z.eqb_refl.
    cbn [fmap option_fmap option_map default from_option id charge andb]. rewrite H0. f_equal. lia.
Qed.

Lemma acct_step u m a streams op s : acct_ok u m a streams s → op_on streams op →
  step_ok u m a streams op s.
Proof.
  intros Hok Hop. destruct op; [apply acct_step_record|apply acct_step_close|apply acct_step_rsp]; done.
Qed.

(** C4: traffic is conserved (modulo 2^64): over any sequence of RecordTraffic,
    ReportOrAccumulate and report replies on the streams of a user, what is on the
    streams, accumulated on the user and in the report lines together grows by exactly
    the bytes recorded plus the handshake estimate of each stream that ends with
    traffic, and every operation returns. *)
Theorem traffic_conserved u m a streams ops s :
  acct_ok u m a streams s → Forall (op_on streams) ops →
  ∃ g s', acct_exec u ops s = Ok (g, s') ∧ acct_ok u m a streams s'
          ∧ u64 (total u m a streams s') = u64 (total u m a streams s + g).
Proof.
  intros Hok Hops. revert s Hok. induction Hops as [|op ops Hop Hops IH]; intros s Hok.
  - exists 0, s. split; [done|]. split; [done|]. f_equal. lia.
  - destruct (acct_step u m a streams op s Hok Hop) as (s1 & Hrun & Hok1 & Ht1).
    destruct (IH s1 Hok1) as (g & s2 & Hex & Hok2 & Ht2).
    exists (charge op s + g), s2. cbn [acct_exec]. rewrite Hrun, Hex. split; [done|]. split; [done|].
    rewrite Ht2, Z.add_assoc, <- (wrap_add_l 64 (_ + charge op s)), <- Ht1, wrap_add_l. done.
Qed.

(** An account with one stream, for the example runs. *)
Definition ex_scb : SCB := SCB_new 1 <| sb_tunnel_conn := Some 1 |>.
Definition ex_user : User := User_new <| us_mobile := 13800000000 |> <| us_app := 10001 |>.

Definition ex_acct : tms :=
  tms_init [] false os_init
  <| conns := {[ 1 := Connect_new [] ]} |>
  <| scbs := {[ 2 := ex_scb ]} |>
  <| users := {[ 3 := ex_user ]} |>
  <| CenterConnPool := [9] |>.

Lemma ex_acct_ok : acct_ok 3 13800000000 10001 [2] ex_acct.
Proof.
  split; [eexists; repeat split; done|repeat constructor; set_solver| |done].
  intros b ->%list_elem_of_singleton. eexists. split; [reflexivity|]. intros t [= <-].
  eexists. split; [reflexivity|]. simpl. lia.
Qed.

(** Witness of C4. *)
Lemma traffic_conserved_witness :
  ∃ g s', acct_exec 3 [ARecord 2 500; ARecord 2 70; AClose 2; ARecord 2 9; AClose 2; ARsp] ex_acct
          = Ok (g, s') ∧ acct_ok 3 13800000000 10001 [2] s'
          ∧ u64 (total 3 13800000000 10001 [2] s')
            = u64 (total 3 13800000000 10001 [2] ex_acct + g).
Proof.
  apply (traffic_conserved 3 13800000000 10001 [2]); [apply ex_acct_ok|].
  repeat constructor; set_solver.
Defined.

(** In the example 579 bytes are counted and 579 are in report lines. *)
Example traffic_conserved_example :
  match acct_exec 3 [ARecord 2 500; ARecord 2 70; AClose 2; ARecord 2 9; AClose 2; ARsp] ex_acct with
  | Ok (g, s') => g = 579 ∧ reported RepTr 13800000000 10001 (o_log (sys s')) = 579
  | Bad _ => False
  end.
Proof. vm_compute. done. Qed.

(** ** Balance *)

(** RecordTraffic adds the length to the stream's traffic, subtracts it from the
    user's balance, and returns -1 exactly when the stream is validated and the balance
    falls below 4000. *)
Theorem RecordTraffic_spec u b n s x y :
  scbs s !! b = Some x → users s !! u = Some y → 0 ≤ n → in_s 64 (us_balance y - n) →
  in_u 64 (sb_traffic x + n) →
  ∃ r s' x' y', RecordTraffic (Some u) (Some b) n s = Ok (r, s')
    ∧ scbs s' !! b = Some x' ∧ users s' !! u = Some y'
    ∧ sb_traffic x' = sb_traffic x + n ∧ us_balance y' = us_balance y - n
    ∧ (r = -1 ↔ sb_status x = u_validated ∧ us_balance y - n < 4000).
Proof.
  intros Hx Hy Hn Hb Ht. eexists _, _, _, _. split; [apply RecordTraffic_run; eassumption|].
  split; [heap|]. split; [heap|]. rsimpl. rewrite swrap_id, wrap_id by (done || lia).
  split; [done|]. split; [done|].
  destruct (Z.eqb_spec (sb_status x) u_validated), (Z.ltb_spec (us_balance y - n) 4000); cbn [andb];
    intuition (lia || discriminate).
Qed.

Lemma RecordTraffic_witness :
  ∃ r s' x' y', RecordTraffic (Some 3) (Some 2) 100 ex_acct = Ok (r, s')
    ∧ scbs s' !! 2 = Some x' ∧ users s' !! 3 = Some y'
    ∧ sb_traffic x' = 0 + 100 ∧ us_balance y' = 0 - 100
    ∧ (r = -1 ↔ 0 = u_validated ∧ 0 - 100 < 4000).
Proof.
  apply (RecordTraffic_spec 3 2 100 ex_acct ex_scb ex_user);
    [reflexivity|reflexivity|lia|vm_compute; split; congruence|vm_compute; split; congruence].
Defined.

(** ** The order of user ids *)

(** UserId::operator< is a strict total order on user ids, as std::map requires of
    the key of _UserMap. *)
Theorem UserId_lt_total_order :
  StrictOrder (fun a b => UserId_lt a b = true) ∧
  ∀ a b, a = b ∨ UserId_lt a b = true ∨ UserId_lt b a = true.
Proof.
  assert (∀ a b, UserId_lt a b = true ↔ a.1 < b.1 ∨ (a.1 = b.1 ∧ a.2 < b.2)) as Hlt.
  { intros [a1 a2] [b1 b2]. unfold UserId_lt. cbn [fst snd].
    destruct (Z.ltb_spec a1 b1), (Z.eqb_spec a1 b1), (Z.ltb_spec a2 b2); cbn [andb];
      intuition (lia || discriminate). }
  split; [split|].
  - intros a H. apply Hlt in H. lia.
  - intros a b c H1 H2. apply Hlt in H1, H2. apply Hlt. lia.
  - intros [a1 a2] [b1 b2]. rewrite !Hlt. cbn [fst snd].
    destruct (decide (a1 = b1)) as [->|], (decide (a2 = b2)) as [->|]; [by left|right; lia..].
Qed.

(** ** Stream ids *)

Lemma NewSCB_inv s p s1 : NewSCB s = Ok (p, s1) →
  aval_pcb_id s1 = u64 (aval_pcb_id s + 1) ∧ ∃ x, scbs s1 !! p = Some x ∧ sb_scbid x = aval_pcb_id s1.
Proof.
  unfold NewSCB. intros H. inv_bind H. injection Hm as <- <-.
  destruct (scb_free_list s) as [|q l].
  - inv_bind H. injection Hm as <- <-. inv_bind H. injection Hm as <- <-.
    injection H as <- <-. rsimpl. split; [done|]. rewrite lookup_insert_eq. eexists. split; done.
  - do 3 (inv_bind H; injection Hm as <- <-). inv_bind H. unfold set_scb in Hm.
    destruct (_ !! _) as [x|] eqn:Hx in Hm; [|done]. injection Hm as <- <-.
    injection H as <- <-. rsimpl. split; [done|]. rewrite lookup_insert_eq. eexists. split; done.
Qed.

Lemma RecycleSCB_inv p s a s1 : RecycleSCB p s = Ok (a, s1) → aval_pcb_id s1 = aval_pcb_id s.
Proof.
  unfold RecycleSCB. intros H. inv_bind H. unfold set_scb in Hm.
  destruct (_ !! _) in Hm; [|done]. injection Hm as <- <-. injection H as <- <-. done.
Qed.

(** Runs of the control block manager: the ids in the order they are given out. *)
Inductive scb_trace : tms → list Z → tms → Prop :=
  | scb_done s : scb_trace s [] s
  | scb_new s p s1 x id ids s2 :
      NewSCB s = Ok (p, s1) → scbs s1 !! p = Some x → sb_scbid x = id → scb_trace s1 ids s2 →
      scb_trace s (id :: ids) s2
  | scb_recycle s p s1 ids s2 :
      RecycleSCB p s = Ok (tt, s1) → scb_trace s1 ids s2 → scb_trace s ids s2.

(** Over any interleaving of NewSCB and RecycleSCB the stream ids given out are
    consecutive, so none is given twice and none is 0, the id of a recycled control
    block, until the 64 bit counter is exhausted. *)
Theorem scb_ids_fresh s ids s' :
  scb_trace s ids s' → 0 ≤ aval_pcb_id s → aval_pcb_id s + Z.of_nat (length ids) < 2 ^ 64 →
  ids = seqZ (aval_pcb_id s + 1) (Z.of_nat (length ids)) ∧ NoDup ids ∧ 0 ∉ ids.
Proof.
  intros Htr H0 Hmax.
  assert (ids = seqZ (aval_pcb_id s + 1) (Z.of_nat (length ids))) as Hids.
  { induction Htr as [|s p s1 x id ids s2 Hnew Hx Hxid Htr IH|s p s1 ids s2 Hrec Htr IH]; [done|..].
    - destruct (NewSCB_inv _ _ _ Hnew) as (Hav & x' & Hx' & Hid).
      assert (x' = x) as -> by congruence. cbn [length] in Hmax |- *.
      rewrite wrap_id in Hav by range_lia.
      rewrite seqZ_cons by lia. f_equal; [lia|]. rewrite IH at 1 by lia.
      f_equal; lia.
    - apply RecycleSCB_inv in Hrec. rewrite Hrec in IH. auto. }
  split; [done|]. rewrite Hids. split; [apply NoDup_seqZ|]. rewrite elem_of_seqZ. lia.
Qed.

Lemma scb_ids_witness : [1; 2; 3] = seqZ 1 3 ∧ NoDup [1; 2; 3] ∧ 0 ∉ [1; 2; 3].
Proof.
  refine (scb_ids_fresh (tms_init [] false os_init) [1; 2; 3] _ _ _ _); [|done|done].
  eapply (scb_new _ 1); [vm_compute; reflexivity..|].
  eapply (scb_recycle _ 1); [vm_compute; reflexivity|].
  eapply (scb_new _ 1); [vm_compute; reflexivity..|].
  eapply (scb_new _ 2); [vm_compute; reflexivity..|]. apply scb_done.
Defined.

(** ** Forward ids *)

(** [n] calls of [NewForwardId]. *)
Fixpoint forward_ids (n : nat) (s : tms) : list Z :=
  match n with
  | O => []
  | S n' => match NewForwardId s with Ok (id, s') => id :: forward_ids n' s' | Bad _ => [] end
  end.

Lemma NewForwardId_run s : 1 ≤ aval_forward_id s ≤ ULONG_MAX →
  ∃ id s', NewForwardId s = Ok (id, s') ∧ 1 ≤ id < ULONG_MAX ∧ 1 ≤ aval_forward_id s' ≤ ULONG_MAX
    ∧ (aval_forward_id s < ULONG_MAX → id = aval_forward_id s ∧ aval_forward_id s' = id + 1).
Proof.
  unfold NewForwardId, ULONG_MAX. intros H. eexists _, _.
  split; [do 3 mstep; apply ret_run|].
  destruct (Z.eqb_spec (aval_forward_id s) (2 ^ 64 - 1)); rsimpl; rewrite wrap_id by range_lia; range_lia.
Qed.

(** NewForwardId always returns, never gives out 0 or the maximal value, also
    across the wrap-around of its counter, and gives out consecutive ids before it. *)
Theorem forward_ids_valid n s : 1 ≤ aval_forward_id s ≤ ULONG_MAX →
  length (forward_ids n s) = n ∧ Forall (fun id => 1 ≤ id < ULONG_MAX) (forward_ids n s)
  ∧ (aval_forward_id s + Z.of_nat n ≤ ULONG_MAX →
     forward_ids n s = seqZ (aval_forward_id s) (Z.of_nat n)).
Proof.
  revert s. induction n as [|n IH]; intros s Hs; [split; [done|split; [constructor|done]]|].
  destruct (NewForwardId_run s Hs) as (id & s' & Hrun & Hid & Hs' & Hseq).
  cbn [forward_ids]. rewrite Hrun. destruct (IH s' Hs') as (Hl & Hf & Hq).
  split; [cbn [length]; lia|]. split; [constructor; done|]. intros Hmax.
  destruct Hseq as [-> Hnext]; [lia|]. rewrite Hq by lia.
  rewrite (seqZ_cons (aval_forward_id s)) by lia. f_equal. f_equal; lia.
Qed.

Lemma forward_ids_witness :
  length (forward_ids 3 ex_acct) = 3%nat
  ∧ Forall (fun id => 1 ≤ id < ULONG_MAX) (forward_ids 3 ex_acct)
  ∧ (1 + 3 ≤ ULONG_MAX → forward_ids 3 ex_acct = seqZ 1 3).
Proof. apply (forward_ids_valid 3 ex_acct). vm_compute. split; congruence. Defined.

(** ** The watch list *)

Definition same_stream (m : gmap ptr SCB) (n : SCBWatchNode) : bool :=
  match m !! w_scb n with Some b => w_scbid n =? sb_scbid b | None => false end.

Definition same_traffic (m : gmap ptr SCB) (n : SCBWatchNode) : bool :=
  match m !! w_scb n with Some b => w_traffic n =? sb_traffic b | None => false end.

Definition moved (m : gmap ptr SCB) (n : SCBWatchNode) : bool := same_stream m n && negb (same_traffic m n).
Definition idle (m : gmap ptr SCB) (n : SCBWatchNode) : bool := same_stream m n && same_traffic m n.

Definition watch_ok (s : tms) (l : list SCBWatchNode) : Prop :=
  Forall (fun n => is_Some (scbs s !! w_scb n)) l.

Lemma watch_loop_run l : ∀ keep s, watch_ok s l →
  watch_loop l keep s
  = Ok (keep ++ List.filter (moved (scbs s)) l,
        s <| scb_expire_list := scb_expire_list s ++ List.filter (idle (scbs s)) l |>).
Proof.
  induction l as [|n l IH]; intros keep s Hl; cbn [watch_loop List.filter].
  - rewrite !app_nil_r. destruct s; done.
  - inversion_clear Hl as [|? ? [b Hb] Hl']. mstep.
    unfold moved at 1, idle at 1, same_stream, same_traffic. rewrite Hb.
    destruct (w_scbid n =? sb_scbid b); cbn [andb].
    + destruct (w_traffic n =? sb_traffic b); cbn [negb].
      * mstep. rewrite IH by done. rsimpl. rewrite <- app_assoc. done.
      * rewrite IH by done. rewrite <- app_assoc. done.
    + apply IH. done.
Qed.

Lemma expire_queue_loop_run q : ∀ s, scb_expire_list s = q → Forall (fun n => idle (scbs s) n = true) q →
  expire_queue_loop q s = Ok (tt, s <| scb_expire_list := [] |>).
Proof.
  induction q as [|n q IH]; intros s Hq Hall; cbn [expire_queue_loop].
  - destruct s; cbn in Hq |- *. subst. done.
  - inversion_clear Hall as [|? ? Hn Hall']. unfold idle, same_stream, same_traffic in Hn.
    destruct (scbs s !! w_scb n) as [b|] eqn:Hb; [|done]. apply andb_true_iff in Hn as [H1 H2].
    mstep. rewrite H1, H2. mstep. mstep. rewrite IH; [done|rsimpl; rewrite Hq; done|done].
Qed.

(** SCBWatchScan leaves in the watch list exactly the nodes whose stream still has
    the same id and moved bytes since it was noted, in order, and leaves the expire
    queue empty. *)
Theorem SCBWatchScan_exact s : watch_ok s (scb_watch_list s) → scb_expire_list s = [] →
  ∃ s', SCBWatchScan s = Ok (0, s') ∧ scb_expire_list s' = [] ∧ scbs s' = scbs s
    ∧ scb_watch_list s' = List.filter (moved (scbs s)) (scb_watch_list s).
Proof.
  intros Hok He. eexists. split.
  { unfold SCBWatchScan. mstep. eapply bind_run; [apply watch_loop_run; done|]. mstep. mstep.
    eapply bind_run; [apply expire_queue_loop_run; [done|]|apply ret_run].
    rsimpl. rewrite He. cbn [app]. apply Forall_forall. intros n Hn.
    apply list_elem_of_In, filter_In in Hn as [_ Hn]. done. }
  split; [done|]. split; done.
Qed.

Definition ex_watch : tms := ex_acct <| scb_watch_list := [MkWatch 1 5 2; MkWatch 1 0 2; MkWatch 7 0 2] |>.

Lemma SCBWatchScan_witness :
  ∃ s', SCBWatchScan ex_watch = Ok (0, s') ∧ scb_expire_list s' = [] ∧ scbs s' = scbs ex_watch
    ∧ scb_watch_list s' = [MkWatch 1 5 2].
Proof.
  apply (SCBWatchScan_exact ex_watch); [|reflexivity]. repeat constructor; eexists; reflexivity.
Defined.

End TmsAccount.
