(* ===== verification/TmsNet.v ===== *)
(** * Tunnel server: connections and their life cycle

    The parts of src/tms/tms/ConnectMgr.cpp that create, register and remove
    connections and send messages, [User::ConnectWebServer] and
    [UserMgr::IncreaseExpireTime] of src/tms/tms/UserMgr.cpp and
    [SCBMgr::RecursiveRecycle] of src/tms/tms/SCB.cpp.

    A descriptor is what [socket] or [accept] returned, a positive [int]; its
    conversions between [int], [long] and [U64] are written only where the value
    can come from elsewhere. *)

From S2P Require Import Prelude Wire Frame Os Dns TmsState TmsAccount.
From stdpp Require Import base gmap list strings.
From Stdlib Require Import ZArith Lia.
Import Wire Frame Os TmsState TmsAccount.

Open Scope Z_scope.

Module TmsNet.

(** ** epoll registration *)

Definition ctl_event (op fd events : Z) : T Z :=
  ep ← gets Epoll_FD;
  if (ep =? 0) || (fd =? 0) || (events =? 0) then mret (-1) else
  r ← epoll_ctl op fd events;
  if r =? -1 then mret (-1) else mret 0.

Definition AddEvent (fd events : Z) : T Z := ctl_event EPOLL_CTL_ADD fd events.
Definition RemoveEvent (fd events : Z) : T Z := ctl_event EPOLL_CTL_DEL fd events.
Definition ModifyEvent (fd events : Z) : T Z := ctl_event EPOLL_CTL_MOD fd events.

Definition IN_OUT_ET : Z := Z.lor (Z.lor EPOLLIN EPOLLOUT) EPOLLET.

(** ** Connect: reset and destructor *)

(** [Connect::Reset].  [offset] and [datalen] are locals of the function, so the
    members keep their values; so do [mobile], [token], [exit], [dest_port],
    [curr_host] and [traffic_tmp]. *)
Definition Connect_Reset (c : Connect) : Connect :=
  c <| c_stillneedtoread := 0 |> <| c_cstate := s_header |> <| c_status := sta_offline |>
    <| c_sdk_verified := 0 |> <| c_agent_status := 0 |> <| c_type := 0 |> <| c_app := 0 |>
    <| c_user := None |> <| c_scb := None |> <| c_sock_fd := u64 (-1) |>.

(** [delete p]: [Connect::~Connect], then the memory is gone. *)
Definition delete_conn (p : ptr) : T unit :=
  c ← conn p;
  (if 0 <? c_sock_fd c
   then _ ← RemoveEvent (c_sock_fd c) IN_OUT_ET; close (c_sock_fd c)
   else mret tt);;
  match c_scb c with
  | Some b =>
    (if c_type c =? 0 then set_scb b (fun x => x <| sb_tunnel_conn := None |>) else mret tt);;
    (if c_type c =? 1 then set_scb b (fun x => x <| sb_agent_conn := None |>) else mret tt)
  | None => mret tt
  end;;
  free_conn p.

(** ** Sending *)

Definition SendMsg (p : ptr) (msg : bytes) : T Z :=
  c ← conn p;
  send (c_sock_fd c) msg.

Definition SendTmsMsg (p : ptr) (msg : bytes) : T Z :=
  c ← conn p;
  tmsMsg ← lift (SendTmsMsg_bytes msg);
  sentlen ← send (c_sock_fd c) tmsMsg;
  if negb (sentlen =? Z.of_nat (length tmsMsg)) then mret sentlen else
  if c_type c =? t_tunnel then
    match c_user c with
    | None => mret sentlen
    | Some _ =>
      acc ← gets accurate;
      rec_ret ← RecordTraffic (c_user c) (c_scb c) (u64 (TrafficEst acc sentlen));
      if negb (rec_ret =? 0) || bool_decide (c_scb c = None) then
        set_conn p (fun c => c <| c_exit := 1 |>);;
        mret (-1)
      else mret sentlen
    end
  else mret sentlen.

(** ** Creating connections *)

(** The common part of [CreateDnsConn], [CreateDpiConn] and [CreateCenterConn]:
    [init] sets the members, [pool] adds to the pool. *)
Definition create_conn (ip port : Z) (init : Connect → Connect) (pool : ptr → tms → tms)
  : T (option (ptr * Z)) :=
  s ← socket;
  if s <=? 0 then mret None else
  ret ← connect s ip (htons port);
  if ret <? 0 then close s;; mret None else
  if ret =? 0 then
    p ← new_conn;
    modify (fun st => st <| ConnMap := <[s := p]> (ConnMap st) |>);;
    modify (pool p);;
    set_conn p (fun c => init (c <| c_sock_fd := s |>));;
    mret (Some (p, s))
  else mret None.

Definition CreateDnsConn (ip port : Z) : T (option (ptr * Z)) :=
  create_conn ip port
    (fun c => c <| c_type := t_dns |> <| c_datalen := 0 |> <| c_stillneedtoread := BUFF |>)
    (fun p st => st <| DnsConnPool := DnsConnPool st ++ [p] |>).

Definition CreateDpiConn (ip port : Z) : T (option (ptr * Z)) :=
  create_conn ip port
    (fun c => c <| c_type := t_dpi |> <| c_cstate := s_header |> <| c_datalen := 0 |>
                <| c_stillneedtoread := HDR |>)
    (fun p st => st <| DpiConnPool := DpiConnPool st ++ [p] |>).

Definition CreateCenterConn (ip port : Z) : T (option (ptr * Z)) :=
  create_conn ip port
    (fun c => c <| c_type := t_center |> <| c_cstate := s_header |> <| c_datalen := 0 |>
                <| c_stillneedtoread := HDR |>)
    (fun p st => st <| CenterConnPool := CenterConnPool st ++ [p] |>).

(** [CreateAgentConn]: the connect is asynchronous. *)
Definition CreateAgentConn (ip port : Z) : T (option (ptr * Z)) :=
  s ← socket;
  if s <=? 0 then mret None else
  ret ← connect s (htonl (u32 ip)) (htons port);
  e ← errno;
  if (ret <? 0) && negb (e =? EINPROGRESS) then close s;; mret None else
  p ← new_conn;
  modify (fun st => st <| ConnMap := <[s := p]> (ConnMap st) |>);;
  set_conn p (fun c => c <| c_sock_fd := s |> <| c_status := sta_inprogress |>
                         <| c_cstate := s_forward |> <| c_type := t_agent |> <| c_datalen := 0 |>
                         <| c_stillneedtoread := BUFF |>);;
  mret (Some (p, s)).

Definition GetConn (fd : Z) : T (option ptr) := m ← gets ConnMap; mret (m !! fd).

(** ** Removing connections *)

(** [std::find] and [erase] on a pool. *)
Fixpoint erase_first (p : ptr) (l : list ptr) : list ptr :=
  match l with
  | [] => []
  | q :: l' => if q =? p then l' else q :: erase_first p l'
  end.

(** [_ConnMap.erase(c->sock_fd); delete c] *)
Definition drop_peer (o : option ptr) : T unit :=
  match o with
  | Some a =>
    ac ← conn a;
    modify (fun s => s <| ConnMap := delete (c_sock_fd ac) (ConnMap s) |>);;
    delete_conn a
  | None => mret tt
  end.

(** The part of [RemoveConn] for an agent or a tunnel that has a user and a
    stream. *)
Definition release_stream (p : ptr) (c : Connect) (u b : ptr) : T unit :=
  _ ← ReportOrAccumulate u b;
  (if c_type c =? t_tunnel then
     set_scb b (fun x => x <| sb_tunnel_conn := None |>);;
     x ← scb_at b;
     drop_peer (sb_agent_conn x)
   else if c_type c =? t_agent then
     set_scb b (fun x => x <| sb_agent_conn := None |>);;
     x ← scb_at b;
     drop_peer (sb_tunnel_conn x)
   else mret tt);;
  ReleaseSCB u b;;
  set_conn p (fun c => c <| c_user := None |>).

Definition RemoveConn (fd : Z) : T Z :=
  if fd <? 0 then mret (-1) else
  m ← gets ConnMap;
  match m !! fd with
  | None => mret 0
  | Some p =>
    c ← conn p;
    (if c_type c =? t_center then
       modify (fun s => s <| CenterConnPool := erase_first p (CenterConnPool s) |>)
     else if (c_type c =? t_agent) || (c_type c =? t_tunnel) then
       match c_user c, c_scb c with
       | Some u, Some b => release_stream p c u b
       | _, _ => mret tt
       end
     else mret tt);;
    delete_conn p;;
    modify (fun s => s <| ConnMap := delete fd (ConnMap s) |>);;
    mret 0
  end.

Definition InformShutdownUser (agent_fd : Z) : T Z :=
  if agent_fd <? 0 then mret (-1) else
  m ← gets ConnMap;
  match m !! agent_fd with
  | None => mret (-1)
  | Some p =>
    c ← conn p;
    if c_type c =? t_agent then
      match c_user c with
      | Some u =>
        b ← nonnull (c_scb c);
        _ ← ReportOrAccumulate u b;
        modify (fun s => s <| ConnMap := delete agent_fd (ConnMap s) |>);;
        x ← scb_at b;
        drop_peer (sb_tunnel_conn x);;
        set_scb b (fun x => x <| sb_agent_conn := None |>);;
        set_conn p (fun c => c <| c_scb := None |> <| c_user := None |>);;
        mret 0
      | None => mret (-1)
      end
    else mret (-1)
  end.

(** [SCBMgr::RecursiveRecycle] *)
Definition RecursiveRecycle (scb : ptr) : T unit :=
  b ← scb_at scb;
  agent_live ← match sb_agent_conn b with
               | Some a => c ← conn a; mret (c_sock_fd c =? sb_agent_fd b)
               | None => mret false
               end;
  if (agent_live : bool) then _ ← RemoveConn (i64 (sb_agent_fd b)); mret tt else
  tunnel_live ← match sb_tunnel_conn b with
                | Some t => c ← conn t; mret (c_sock_fd c =? sb_tunn_fd b)
                | None => mret false
                end;
  if (tunnel_live : bool) then _ ← RemoveConn (i64 (sb_tunn_fd b)); mret tt else
  mret tt.

(** ** User::ConnectWebServer *)

Definition ConnectWebServer (u tunnel : ptr) (ip port : Z) : T (option ptr) :=
  o ← CreateAgentConn ip port;
  match o with
  | None =>
    _ ← SendTmsMsg tunnel (penc (MkConnectHostRsp CONNECT_HOST_RSP FAIL 0));
    mret None
  | Some (agent, agent_fd) =>
    t ← conn tunnel;
    scb ← match c_scb t with
          | Some b =>
            a ← conn agent;
            set_scb b (fun x => x <| sb_dest_port := port |> <| sb_agent_conn := Some agent |>
                                  <| sb_agent_fd := c_sock_fd a |>);;
            set_conn agent (fun c => c <| c_user := Some u |> <| c_scb := Some b |>);;
            mret b
          | None => CreateSCB u tunnel (Some agent)
          end;
    _ ← AddEvent agent_fd (Z.lor EPOLLOUT EPOLLET);
    _ ← SendTmsMsg tunnel (penc (MkConnectHostRsp CONNECT_HOST_RSP PROG 0));
    mret (Some scb)
  end.

(** ** UserMgr::IncreaseExpireTime

    The counter [i] is not initialised: [i0] is what it holds.  The user loop only
    tests it; the arrays of the message stay zero. *)

Definition keep_alive_bytes : bytes := to_le 2 KEEP_ALIVE_TOKEN ++ replicate 256 0.

Fixpoint keep_alive_users (c : ptr) (n : nat) (i : Z) : T Z :=
  match n with
  | O => mret i
  | S n' =>
    (if i =? 16 then _ ← SendTmsMsg c keep_alive_bytes; mret tt else mret tt);;
    keep_alive_users c n' (if i =? 16 then 0 else i)
  end.

Definition IncreaseExpireTime (i0 : Z) : T Z :=
  _ ← ExpireLocalUser;
  c ← GetCenterConn;
  m ← gets UserMap;
  i ← keep_alive_users c (size m) i0;
  let i := if (0 <? i) && (i <? 16) then 16 else i in
  (if 0 <? i then _ ← SendTmsMsg c keep_alive_bytes; mret tt else mret tt);;
  mret 0.

(** ** Lemmas *)

(** What a call of the operating system may change of it besides its own effect:
    the queues of results, errno and the log, which only grows. *)
Definition os_step (o o' : os) : Prop :=
  o_rx o' = o_rx o ∧ o_now o' = o_now o ∧ ∃ l, o_log o' = o_log o ++ l.

#[export] Instance os_step_preorder : PreOrder os_step.
Proof.
  split.
  - intros o. split; [done|]. split; [done|]. exists []. rewrite app_nil_r. done.
  - intros a b c (E1 & N1 & l1 & L1) (E2 & N2 & l2 & L2). split; [congruence|]. split; [congruence|].
    exists (l1 ++ l2). rewrite L2, L1, app_assoc. done.
Qed.

Lemma ctl_event_run op fd ev s :
  ∃ r o, ctl_event op fd ev s = Ok (r, s <| sys := o |>) ∧ os_step (sys s) o.
Proof.
  assert (s = s <| sys := sys s |>) as Hs by (destruct s; done).
  unfold ctl_event, epoll_ctl, mbind, M_bind, gets.
  destruct (_ || _ || _).
  - exists (-1), (sys s). rewrite <- Hs. split; [done|reflexivity].
  - cbn [the_os with_os tms_os].
    destruct (o_ctl (sys s)) as [|k ks].
    + eexists 0, _. split; [reflexivity|]. split; [done|]. split; [done|]. eexists. reflexivity.
    + destruct (k =? -1), (k <? 0);
        (eexists _, _; split; [reflexivity|]; split; [done|]; split; [done|]; eexists; reflexivity).
Qed.

(** The stream's pointer that the destructor clears. *)
Definition unlink (c : Connect) (m : gmap ptr SCB) : gmap ptr SCB :=
  match c_scb c with
  | Some b =>
    if c_type c =? 0 then alter (fun x => x <| sb_tunnel_conn := None |>) b m
    else if c_type c =? 1 then alter (fun x => x <| sb_agent_conn := None |>) b m
    else m
  | None => m
  end.

Definition scb_live (c : Connect) (m : gmap ptr SCB) : Prop :=
  match c_scb c with Some b => is_Some (m !! b) | None => True end.

Lemma set_scb_alter b f s : is_Some (scbs s !! b) →
  set_scb b f s = Ok (tt, s <| scbs := alter f b (scbs s) |>).
Proof.
  intros [x Hx]. rewrite (set_scb_run b f s x Hx).
  assert (<[b := f x]> (scbs s) = alter f b (scbs s)) as ->; [|done].
  apply map_eq. intros i. destruct (decide (i = b)) as [->|].
  - rewrite lookup_insert_eq, lookup_alter_eq, Hx. done.
  - rewrite lookup_insert_ne, lookup_alter_ne by done. done.
Qed.

(** [delete] of a live connection: the descriptor is closed, the stream forgets
    it, the memory is gone. *)
Lemma delete_conn_run p s c : conns s !! p = Some c → 0 < c_sock_fd c → scb_live c (scbs s) →
  ∃ o, delete_conn p s
       = Ok (tt, s <| sys := o |> <| scbs := unlink c (scbs s) |> <| conns := delete p (conns s) |>)
    ∧ o_rx o = delete (c_sock_fd c) (o_rx (sys s))
    ∧ ∃ l, o_log o = o_log (sys s) ++ l ++ [IoClose (c_sock_fd c)].
Proof.
  intros Hc Hfd Hlive. unfold delete_conn.
  destruct (ctl_event_run EPOLL_CTL_DEL (c_sock_fd c) IN_OUT_ET s) as (r & o & Hctl & Hrx & _ & l & Hlog).
  set (o' := o <| o_rx ::= delete (c_sock_fd c) |> <| o_dgram ::= delete (c_sock_fd c) |>
                <| o_log := o_log o ++ [IoClose (c_sock_fd c)] |>).
  exists o'. split; [|split; [unfold o'; rsimpl; rewrite Hrx; done|]].
  2:{ exists l. unfold o'. rsimpl. rewrite Hlog, <- app_assoc. done. }
  assert (s <| sys := o' |> <| scbs := scbs s |> = s <| sys := o' |>) as Heta
    by (clear; destruct s; done).
  mstep. rewrite (proj2 (Z.ltb_lt _ _) Hfd).
  eapply bind_run; [eapply bind_run; [exact Hctl|apply modify_run]|].
  change (with_os _ _) with (s <| sys := o' |>).
  unfold unlink, scb_live in *. destruct (c_scb c) as [b|].
  - destruct (Z.eqb_spec (c_type c) 0) as [E|E].
    + rewrite E. eapply bind_run;
        [eapply bind_run; [apply set_scb_alter; exact Hlive|apply ret_run]|].
      erewrite free_conn_run by heap. done.
    + destruct (Z.eqb_spec (c_type c) 1).
      * eapply bind_run; [eapply bind_run; [apply ret_run|apply set_scb_alter; exact Hlive]|].
        erewrite free_conn_run by heap. done.
      * eapply bind_run; [eapply bind_run; [apply ret_run|apply ret_run]|].
        rewrite Heta. erewrite free_conn_run by heap. done.
  - eapply bind_run; [apply ret_run|].
    rewrite Heta. erewrite free_conn_run by heap. done.
Qed.

Lemma drop_peer_run a s ac : conns s !! a = Some ac → 0 < c_sock_fd ac → scb_live ac (scbs s) →
  ∃ o, drop_peer (Some a) s
       = Ok (tt, s <| ConnMap := delete (c_sock_fd ac) (ConnMap s) |> <| sys := o |>
                   <| scbs := unlink ac (scbs s) |> <| conns := delete a (conns s) |>)
    ∧ o_rx o = delete (c_sock_fd ac) (o_rx (sys s))
    ∧ ∃ l, o_log o = o_log (sys s) ++ l ++ [IoClose (c_sock_fd ac)].
Proof.
  intros Hc Hfd Hlive.
  destruct (delete_conn_run a (s <| ConnMap := delete (c_sock_fd ac) (ConnMap s) |>) ac)
    as (o & Hrun & Hrx & Hlog); [done..|].
  exists o. split; [|done]. unfold drop_peer. do 2 mstep. exact Hrun.
Qed.

(** The two ends of an established stream. *)
Record stream_pair (s : tms) (t a b u : ptr) (tc ac : Connect) (x : SCB) (y : User) : Prop := MkPair {
  sp_t : conns s !! t = Some tc;
  sp_a : conns s !! a = Some ac;
  sp_ne : t ≠ a;
  sp_type_t : c_type tc = t_tunnel;
  sp_type_a : c_type ac = t_agent;
  sp_user_t : c_user tc = Some u;
  sp_user_a : c_user ac = Some u;
  sp_scb_t : c_scb tc = Some b;
  sp_scb_a : c_scb ac = Some b;
  sp_fd_t : 0 < c_sock_fd tc;
  sp_fd_a : 0 < c_sock_fd ac;
  sp_map_t : ConnMap s !! c_sock_fd tc = Some t;
  sp_map_a : ConnMap s !! c_sock_fd ac = Some a;
  sp_scb : scbs s !! b = Some x;
  sp_tunnel : sb_tunnel_conn x = Some t;
  sp_agent : sb_agent_conn x = Some a;
  sp_user : users s !! u = Some y;
  sp_center : CenterConnPool s ≠ [];
  sp_host : Z.of_nat (length (c_curr_host tc)) ≤ 256;
}.

(** What is left of the stream: both connections are gone, the control block is
    reset and free, nothing waits in the sockets. *)
Definition stream_gone (t a b : ptr) (tc ac : Connect) (x : SCB) (s s' : tms) : Prop :=
  conns s' = delete t (delete a (conns s))
  ∧ ConnMap s' = delete (c_sock_fd tc) (delete (c_sock_fd ac) (ConnMap s))
  ∧ scbs s' !! b = Some (SCB_Reset x) ∧ scb_free_list s' = scb_free_list s ++ [b]
  ∧ o_rx (sys s') = delete (c_sock_fd tc) (delete (c_sock_fd ac) (o_rx (sys s))).

(** [release_stream] from either end [p], with the other end [q]. *)
Lemma release_stream_run s p c q d b u x y :
  conns s !! p = Some c → conns s !! q = Some d → p ≠ q →
  (c_type c = t_tunnel ∧ sb_agent_conn x = Some q ∨ c_type c = t_agent ∧ sb_tunnel_conn x = Some q) →
  c_scb d = Some b → 0 < c_sock_fd d → scbs s !! b = Some x → users s !! u = Some y →
  CenterConnPool s ≠ [] →
  (∀ t, sb_tunnel_conn x = Some t →
   ∃ c, conns s !! t = Some c ∧ Z.of_nat (length (c_curr_host c)) ≤ 256) →
  ∃ s' w, release_stream p c u b s = Ok (tt, s')
    ∧ conns s' = <[p := c <| c_user := None |>]> (delete q (conns s))
    ∧ ConnMap s' = delete (c_sock_fd d) (ConnMap s)
    ∧ scbs s' !! b = Some (SCB_Reset w) ∧ SCB_Reset w = SCB_Reset x
    ∧ scb_free_list s' = scb_free_list s ++ [b]
    ∧ o_rx (sys s') = delete (c_sock_fd d) (o_rx (sys s)).
Proof.
  intros Hp Hq Hne Hside Hdb Hfd Hx Hy Hc Ht.
  destruct (ReportOrAccumulate_env u b s x y Hx Hy Hc Ht)
    as (r & s1 & n & y' & Hrep & (E1 & E2 & E3 & E4 & E5 & E6 & E7) & Hs1 & Hu1).
  set (f := fun z : SCB => if c_type c =? t_tunnel then z <| sb_tunnel_conn := None |>
                           else z <| sb_agent_conn := None |>).
  set (s2 := s1 <| scbs := <[b := f (x <| sb_traffic := n |>)]> (scbs s1) |>).
  destruct (drop_peer_run q s2 d) as (o & Hdrop & Hrx & _);
    [unfold s2; rsimpl; rewrite E1; done|done
    |unfold scb_live, s2; rewrite Hdb; rsimpl; rewrite lookup_insert_eq; done|].
  set (s3 := s2 <| ConnMap := _ |> <| sys := o |> <| scbs := _ |> <| conns := _ |>) in Hdrop.
  assert (∃ w, scbs s3 !! b = Some w ∧ SCB_Reset w = SCB_Reset x) as (w & Hw & Hreset).
  { unfold s3, s2, unlink. rsimpl. rewrite Hdb.
    destruct (c_type d =? 0); [|destruct (c_type d =? 1)];
      rewrite ?lookup_alter_eq, lookup_insert_eq; eexists; (split; [reflexivity|]);
      unfold f; destruct (c_type c =? t_tunnel); done. }
  assert (conns s3 !! p = Some c) as Hp3.
  { unfold s3, s2. rsimpl. rewrite lookup_delete_ne, E1 by done. done. }
  exists (s3 <| scbs := <[b := SCB_Reset w]> (scbs s3) |> <| scb_free_list := scb_free_list s3 ++ [b] |>
             <| conns := <[p := c <| c_user := None |>]> (conns s3) |>), w.
  split.
  { unfold release_stream. eapply bind_run; [exact Hrep|]. eapply bind_run.
    - assert (scbs s1 !! b = Some (x <| sb_traffic := n |>)) as Hb1 by (rewrite Hs1; apply lookup_insert_eq).
      unfold s2, f in Hdrop. destruct Hside as [[Hty Hpeer]|[Hty Hpeer]]; rewrite Hty in *.
      + change (t_tunnel =? t_tunnel) with true in Hdrop |- *. cbv iota in Hdrop |- *.
        mstep. mstep. rsimpl. rewrite Hpeer. exact Hdrop.
      + change (t_agent =? t_tunnel) with false in Hdrop |- *.
        change (t_agent =? t_agent) with true. cbv iota in Hdrop |- *.
        mstep. mstep. rsimpl. rewrite Hpeer. exact Hdrop.
    - eapply bind_run.
      + unfold ReleaseSCB, RecycleSCB.
        eapply bind_run; [eapply user_at_run; unfold s3, s2; rsimpl; rewrite Hu1; apply lookup_insert_eq|].
        do 2 mstep. apply modify_run.
      + erewrite set_conn_run by heap. done. }
  unfold s3, s2 in *. rsimpl. rewrite E1, E4, E5.
  split; [done|]. split; [done|]. split; [apply lookup_insert_eq|]. split; [done|]. split; [done|].
  rewrite Hrx. unfold s2. rsimpl. rewrite E7. done.
Qed.

(** [RemoveConn] from either end of a stream. *)
Lemma RemoveConn_end s fd p c q d b u x y :
  conns s !! p = Some c → conns s !! q = Some d → p ≠ q →
  (c_type c = t_tunnel ∧ sb_agent_conn x = Some q ∨ c_type c = t_agent ∧ sb_tunnel_conn x = Some q) →
  c_user c = Some u → c_scb c = Some b → c_scb d = Some b →
  0 < c_sock_fd c → 0 < c_sock_fd d → ConnMap s !! fd = Some p → fd = c_sock_fd c →
  scbs s !! b = Some x → users s !! u = Some y → CenterConnPool s ≠ [] →
  (∀ t, sb_tunnel_conn x = Some t →
   ∃ c, conns s !! t = Some c ∧ Z.of_nat (length (c_curr_host c)) ≤ 256) →
  ∃ s', RemoveConn fd s = Ok (0, s')
    ∧ conns s' = delete p (delete q (conns s))
    ∧ ConnMap s' = delete fd (delete (c_sock_fd d) (ConnMap s))
    ∧ scbs s' !! b = Some (SCB_Reset x) ∧ scb_free_list s' = scb_free_list s ++ [b]
    ∧ o_rx (sys s') = delete fd (delete (c_sock_fd d) (o_rx (sys s))).
Proof.
  intros Hp Hq Hne Hside Hu Hb Hdb Hfc Hfd Hm -> Hx Hy Hc Ht.
  destruct (release_stream_run s p c q d b u x y Hp Hq Hne Hside Hdb Hfd Hx Hy Hc Ht)
    as (s1 & w & Hrel & C1 & M1 & B1 & Hreset & F1 & R1).
  destruct (delete_conn_run p s1 (c <| c_user := None |>)) as (o & Hdel & Hrx & _);
    [rewrite C1; apply lookup_insert_eq|done|unfold scb_live; rsimpl; rewrite Hb, B1; done|].
  eexists. split.
  { unfold RemoveConn. destruct (Z.ltb_spec (c_sock_fd c) 0); [lia|].
    mstep. rewrite Hm. mstep. eapply bind_run; [|eapply bind_run; [exact Hdel|mstep; apply ret_run]].
    destruct Hside as [[Hty _]|[Hty _]]; rewrite Hty; cbn; rewrite Hu, Hb; exact Hrel. }
  rsimpl. rewrite C1, delete_insert_eq. split; [done|]. rewrite M1. split; [done|].
  split; [|split; [done|rewrite Hrx; rsimpl; rewrite R1; done]].
  unfold unlink. rsimpl. rewrite Hb.
  assert (∀ g : SCB → SCB, g (SCB_Reset x) = SCB_Reset x →
    alter g b (scbs s1) !! b = Some (SCB_Reset x)) as Halt.
  { intros g Hg. rewrite lookup_alter_eq, B1, Hreset. cbn [fmap option_fmap option_map].
    rewrite Hg. reflexivity. }
  case_ifs; [apply Halt; reflexivity|apply Halt; reflexivity|congruence].
Qed.

Lemma RemoveConn_pair s t a b u tc ac x y :
  stream_pair s t a b u tc ac x y →
  (∃ s', RemoveConn (c_sock_fd tc) s = Ok (0, s') ∧ stream_gone t a b tc ac x s s') ∧
  (∃ s', RemoveConn (c_sock_fd ac) s = Ok (0, s') ∧ stream_gone t a b tc ac x s s').
Proof.
  intros []. assert (∀ t', sb_tunnel_conn x = Some t' →
    ∃ c, conns s !! t' = Some c ∧ Z.of_nat (length (c_curr_host c)) ≤ 256) as Ht
    by (intros t' E; exists tc; split; congruence).
  split.
  - destruct (RemoveConn_end s (c_sock_fd tc) t tc a ac b u x y) as (s' & Hrun & H); auto.
    exists s'. split; [done|]. exact H.
  - destruct (RemoveConn_end s (c_sock_fd ac) a ac t tc b u x y) as (s' & Hrun & C & Mp & B & F & R); auto.
    exists s'. split; [done|]. unfold stream_gone.
    rewrite C, Mp, R. split; [apply delete_delete|]. split; [apply delete_delete|].
    split; [done|]. split; [done|]. apply delete_delete.
Qed.

(** C16: RemoveConn on either end of an established stream returns 0 and takes the whole
    stream down: both connections are deleted and erased from _ConnMap, their sockets
    are closed, and the control block is reset and put on the free list once. *)
Theorem RemoveConn_stream s t a b u tc ac x y :
  stream_pair s t a b u tc ac x y →
  (∃ s', RemoveConn (c_sock_fd tc) s = Ok (0, s') ∧ stream_gone t a b tc ac x s s') ∧
  (∃ s', RemoveConn (c_sock_fd ac) s = Ok (0, s') ∧ stream_gone t a b tc ac x s s').
Proof. apply RemoveConn_pair. Qed.

(** A server with one established stream: tunnel 5, agent 6. *)
Definition ex_tunnel : Connect :=
  Connect_new [] <| c_sock_fd := 5 |> <| c_user := Some 3 |> <| c_scb := Some 2 |>
    <| c_curr_host := bs "a.com" |>.
Definition ex_agent : Connect :=
  Connect_new [] <| c_sock_fd := 6 |> <| c_type := t_agent |> <| c_user := Some 3 |>
    <| c_scb := Some 2 |> <| c_cstate := s_forward |> <| c_stillneedtoread := BUFF |>.
Definition ex_stream : SCB :=
  SCB_new 1 <| sb_user := Some 3 |> <| sb_tunnel_conn := Some 1 |> <| sb_agent_conn := Some 4 |>
    <| sb_traffic := 700 |>.

Definition ex_net : tms :=
  tms_init [] false os_init
  <| Epoll_FD := 7 |> <| next_ptr := 10 |>
  <| conns := {[ 1 := ex_tunnel; 4 := ex_agent ]} |>
  <| scbs := {[ 2 := ex_stream ]} |>
  <| users := {[ 3 := ex_user ]} |>
  <| ConnMap := {[ 5 := 1; 6 := 4 ]} |>
  <| CenterConnPool := [9] |>.

(** Witness of C16. *)
Lemma RemoveConn_stream_witness :
  (∃ s', RemoveConn 5 ex_net = Ok (0, s') ∧ stream_gone 1 4 2 ex_tunnel ex_agent ex_stream ex_net s') ∧
  (∃ s', RemoveConn 6 ex_net = Ok (0, s') ∧ stream_gone 1 4 2 ex_tunnel ex_agent ex_stream ex_net s').
Proof.
  apply (RemoveConn_stream ex_net 1 4 2 3 ex_tunnel ex_agent ex_stream ex_user).
  split; first [reflexivity | discriminate | vm_compute; congruence].
Defined.

End TmsNet.
