(* ===== verification/TmsProto.v ===== *)
(** * Tunnel server: messages and events

    The handlers of src/tms/tms/ConnectMgr.cpp: [Connect::HandleRecvMsg] case by
    case, [StreamRecvEvent], [DnsRecvEvent], [HandleAcceptEvent],
    [HandleRecvEvent], [HandleEPOEvent]; [DnsCache::InformClients] of
    src/tms/tms/DnsCache.cpp; and the event loop of src/tms/tms/main.cpp. *)

From S2P Require Import Prelude Wire Frame Os Dns TmsState TmsAccount TmsNet.
From stdpp Require Import base gmap list strings.
From Stdlib Require Import ZArith Lia.
Import Dns Wire Frame Os TmsState TmsAccount TmsNet.

Open Scope Z_scope.

Module TmsProto.

(** ** Connect::HandleRecvMsg *)

Definition LoginRsp_of (code : Z) : LoginRsp := MkLoginRsp LOGIN_RSP code 0 0.

(** [memcpy(token, r->token, strlen(r->token)+1)], [from] being the buffer from
    [r->token] on.  A longer string runs over [dest_port], which already holds the
    same two bytes, and six bytes of padding; then over the pointer [user]. *)
Definition copy_token (from token : bytes) : result bytes :=
  if bool_decide (0 ∉ from) then Bad OutOfBounds else
  let n := (length (cstr from) + 1)%nat in
  if (n <=? 40)%nat then Ok (blit 0 (take (Nat.min n 32) from) token) else Bad OutOfBounds.

(** [r->host[r->host_len] = '\0'] and [curr_host.assign(r->host, r->host_len)];
    [host] is at offset 54 of the message. *)
Definition host_end (host_len : Z) : Z := 54 + host_len.

(** The lookup and connection part of a login: to an address, to a cached name, or
    a DNS query.  [true] when the handler goes on to answer. *)
Definition login_connect (p u : ptr) (host : bytes) (port : Z) : T bool :=
  if Dns.IpOrHost host =? 0 then
    let ip_be := Dns.inet_addr (cstr host) in
    s ← ConnectWebServer u p (ntohl (u32 ip_be)) (u16 (i16 port));
    mret (bool_decide (s ≠ None))
  else
    d ← gets dc;
    match Dns._Cache d !! host with
    | Some ip =>
      s ← ConnectWebServer u p ip (u16 (i16 port));
      mret (bool_decide (s ≠ None))
    | None =>
      rv ← random;
      let q := Dns.req_fill host rv in
      (if Z.of_nat (length q) <=? 512 then mret tt else fail_with OutOfBounds);;
      s ← CreateSCB u p None;
      b ← scb_at s;
      bu ← nonnull (sb_user b);
      y ← user_at bu;
      modify (fun st => st <| dc := Dns.AddWaitLists host (us_mobile y, us_app y) (sb_scbid b)
                                      (tv_sec (sb_last_active_time b)) (dc st) |>);;
      dn ← GetDnsConn;
      _ ← SendMsg dn q;
      mret true
    end.

Definition HandleLoginReq (p : ptr) : T Z :=
  c ← conn p;
  let r : LoginReq := pdec (c_buff c) in
  set_conn p (fun c => c <| c_app := lq_app r |> <| c_mobile := lq_mobile r |>
                         <| c_dest_port := lq_port r |>);;
  tok ← lift (copy_token (drop 18 (c_buff c)) (c_token c));
  set_conn p (fun c => c <| c_token := tok |>);;
  (if host_end (lq_host_len r) <? BUFF then mret tt else fail_with OutOfBounds);;
  set_conn p (fun c => c <| c_buff := blit (Z.to_nat (host_end (lq_host_len r))) [0] (c_buff c) |>
                         <| c_curr_host := sub 54 (Z.to_nat (lq_host_len r)) (c_buff c) |>);;
  c ← conn p;
  let host := c_curr_host c in
  (if (c_mobile c =? 0) || (Z.of_nat (length host) =? 0)
   then _ ← SendTmsMsg p (penc (LoginRsp_of PARAMET_ERR)); mret tt
   else mret tt);;
  cn ← GetCenterConn;
  _ ← SendTmsMsg cn (penc (MkReadTokenReq READ_TOKEN_REQ (c_sock_fd c) (lq_app r) (lq_mobile r)
                             (lq_token r)));
  u ← RetrieveUser (c_mobile c, c_app c);
  set_conn p (fun c => c <| c_user := Some u |>);;
  go ← login_connect p u host (lq_port r);
  if (go : bool) then
    _ ← SendTmsMsg p (penc (LoginRsp_of PROG));
    mret 0
  else mret (-1).

(** [SwitchConnModeForw] *)
Definition SwitchConnModeForw (c : Connect) : Connect :=
  c <| c_cstate := s_forward |> <| c_stillneedtoread := BUFF |>.

Definition HandleBeginTransmit (p : ptr) : T Z :=
  c ← conn p;
  let t : BeginTransmit := pdec (c_buff c) in
  match c_scb c with
  | None => mret (-1)
  | Some b =>
    x ← scb_at b;
    if (sb_forward_id x =? bt_forward_id t) && bool_decide (sb_agent_conn x ≠ None)
    then set_conn p SwitchConnModeForw;; mret 0
    else mret 0
  end.

(** [strcmp(client->token, r->token)]: the client's field is followed by
    [dest_port], the message's by the rest of the buffer. *)
Definition token_equal (client : Connect) (rtok : bytes) : result bool :=
  let a := c_token client ++ to_le 2 (c_dest_port client) in
  if bool_decide (0 ∈ a) && bool_decide (0 ∈ rtok)
  then Ok (bool_decide (cstr a = cstr rtok)) else Bad OutOfBounds.

(** The answer to a client whose token was accepted. *)
Definition token_accepted (client : ptr) (balance : Z) : T unit :=
  set_conn client (fun c => c <| c_sdk_verified := 1 |>);;
  c ← conn client;
  match c_scb c with
  | None => _ ← RemoveConn (i64 (c_sock_fd c)); mret tt
  | Some b =>
    set_scb b (fun x => x <| sb_status := u_validated |>);;
    u ← nonnull (c_user c);
    set_user u (fun y => y <| us_balance := balance |>);;
    set_scb b (fun x => x <| sb_traffic := u64 (sb_traffic x + c_traffic_tmp c) |>);;
    set_conn client (fun c => c <| c_traffic_tmp := 0 |>);;
    x ← scb_at b;
    _ ← (if negb (sb_connected x =? 0)
         then SendTmsMsg client (penc (MkLoginRsp LOGIN_RSP READY balance (sb_forward_id x)))
         else SendTmsMsg client (penc (MkLoginRsp LOGIN_RSP TOKEN_VERIFIED balance 0)));
    c ← conn client;
    peer ← getpeername (c_sock_fd c);
    let '(ip, port) := default (0, 0) peer in
    dpi ← GetDpiConn;
    _ ← SendTmsMsg dpi (penc (MkSynUserTuple SYN_USER_TUPLE (c_app c) (c_mobile c) ip port));
    mret tt
  end.

Definition HandleReadTokenRsp (p : ptr) : T Z :=
  c ← conn p;
  let r : ReadTokenRsp := pdec (c_buff c) in
  o ← GetConn (u64 (i32 (rr_cid r)));
  match o with
  | None => mret 0
  | Some client =>
    cl ← conn client;
    ok ← (if negb (rr_rsp_code r =? 0) then mret false
          else lift (token_equal cl (drop 36 (c_buff c))));
    if negb ok then
      _ ← SendTmsMsg client (penc (LoginRsp_of (rr_rsp_code r)));
      set_conn client (fun c => c <| c_exit := 1 |>);;
      cl ← conn client;
      _ ← RemoveConn (i64 (c_sock_fd cl));
      mret 0
    else token_accepted client (rr_balance r);; mret 0
  end.

Definition HandleTrafficReportRsp (p : ptr) : T Z :=
  c ← conn p;
  let r : TrafficReportRsp := pdec (c_buff c) in
  m ← gets UserMap;
  match m !! (tp_mobile r, tp_app r) with
  | None => mret 0
  | Some u => OnReportRsp u;; mret 0
  end.

Definition HandleRecvMsg (p : ptr) (msglen : Z) : T Z :=
  if msglen <? 4 then mret (-1) else
  c ← conn p;
  let msg_id := fld 0 2 (c_buff c) in
  if msg_id =? LOGIN_REQ then HandleLoginReq p
  else if msg_id =? CONNECT_HOST_REQ then mret 0
  else if msg_id =? BEGIN_TRANSMIT then HandleBeginTransmit p
  else if msg_id =? READ_TOKEN_RSP then HandleReadTokenRsp p
  else if msg_id =? TRAFFIC_REPORT_RSP then HandleTrafficReportRsp p
  else mret 0.

(** ** Connect::StreamRecvEvent *)

(** What one iteration of the receive loop does: go on reading or return. *)
Inductive next := Again | Return (ret : Z).

(** [case s_header] *)
Definition on_header (p : ptr) : T next :=
  c ← conn p;
  let h : hdr_t := pdec (c_buff c) in
  if negb (delim0 h =? VALIDATER0) || negb (delim1 h =? VALIDATER1) then mret (Return (-1)) else
  let len := ntohs (hlen16 h) in
  set_conn p (fun c => c <| c_h_len := len |> <| c_cstate := s_body |> <| c_offset := 0 |>
                         <| c_stillneedtoread := len |>);;
  mret Again.

(** [case s_body]; [length_] is what the last [read] returned. *)
Definition on_body (p : ptr) (length_ : Z) : T next :=
  set_conn p (fun c => c <| c_cstate := s_header |> <| c_stillneedtoread := HDR |> <| c_offset := 0 |>);;
  c ← conn p;
  _ ← HandleRecvMsg p (c_h_len c);
  c ← conn p;
  acc ← gets accurate;
  if negb (c_sdk_verified c =? 0) && bool_decide (c_user c ≠ None) then
    ret ← RecordTraffic (c_user c) (c_scb c) (u64 (TrafficEst acc (length_ + HDR)));
    if ret =? -1 then mret (Return (-1)) else mret Again
  else if c_type c =? t_tunnel then
    set_conn p (fun c => c <| c_traffic_tmp := u64 (c_traffic_tmp c + TrafficEst acc (length_ + HDR)) |>);;
    mret Again
  else mret Again.

(** [case s_forward] of an agent: download. *)
Definition on_download (p : ptr) (c : Connect) (b tn : ptr) (length_ : Z) : T next :=
  acc ← gets accurate;
  t ← conn tn;
  wrote_len ← send (c_sock_fd t) (take (Z.to_nat length_) (c_buff c));
  ret ← (if negb (wrote_len =? -1)
         then RecordTraffic (c_user c) (Some b) (u64 (TrafficEst acc wrote_len))
         else mret 0);
  if negb (ret =? 0) then mret (Return (-1)) else
  if negb (wrote_len =? length_) || (length_ =? 0) then
    let wrote_len := if wrote_len =? -1 then 0 else wrote_len in
    set_conn p (fun c => c <| c_datalen := u16 (length_ - wrote_len) |> <| c_offset := u16 wrote_len |>
                           <| c_status := sta_hangup |>);;
    ret ← RemoveEvent (c_sock_fd c) EPOLLIN;
    if negb (ret =? 0) then mret (Return (-1)) else mret (Return (-2))
  else mret Again.

(** [case s_forward] of a tunnel: upload. *)
Definition on_upload (c : Connect) (b ag : ptr) (length_ : Z) : T next :=
  acc ← gets accurate;
  ret ← RecordTraffic (c_user c) (Some b) (u64 (TrafficEst acc length_));
  if negb (ret =? 0) then mret (Return (-1)) else
  a ← conn ag;
  _ ← send (c_sock_fd a) (take (Z.to_nat length_) (c_buff c));
  mret Again.

Definition on_forward (p : ptr) (length_ : Z) : T next :=
  c ← conn p;
  match c_scb c with
  | None => mret (Return 0)
  | Some b =>
    x ← scb_at b;
    match sb_tunnel_conn x, sb_agent_conn x with
    | Some tn, Some ag =>
      if c_type c =? t_agent then on_download p c b tn length_
      else if c_type c =? t_tunnel then on_upload c b ag length_
      else mret Again
    | _, _ => _ ← nonnull (c_user c); mret (Return 0)
    end
  end.

(** The [while] loop; the fuel counts reads. *)
Fixpoint recv_loop (fuel : nat) (p : ptr) (fd : Z) : T Z :=
  match fuel with
  | O => fail_with OutOfFuel
  | S fuel' =>
    c ← conn p;
    '(length_, got) ← read fd (c_stillneedtoread c);
    if length_ <=? 0 then mret length_
    else if negb (c_offset c + length_ <=? Z.of_nat (length (c_buff c))) then fail_with OutOfBounds
    else
      set_conn p (fun c => c <| c_buff := blit (Z.to_nat (c_offset c)) got (c_buff c) |>);;
      if bool_decide (c_cstate c ≠ s_forward) && (length_ <? c_stillneedtoread c) then
        set_conn p (fun c => c <| c_offset := u16 (c_offset c + length_) |>
                               <| c_stillneedtoread := u16 (c_stillneedtoread c - length_) |>);;
        mret (-2)
      else
        n ← match c_cstate c with
            | s_header => on_header p
            | s_body => on_body p length_
            | s_forward => on_forward p length_
            | s_wait => mret Again
            end;
        match n with
        | Again => recv_loop fuel' p fd
        | Return r => mret r
        end
  end.

(** Every read but the last takes a byte from the socket, and nothing puts one
    there while the loop runs. *)
Definition StreamRecvEvent (p : ptr) : T Z := fun s =>
  match conns s !! p with
  | Some c => recv_loop (S (length (rx_of (c_sock_fd c) (sys s)).1)) p (c_sock_fd c) s
  | None => Bad UseAfterFree
  end.

(** ** DnsCache::InformClients and Connect::DnsRecvEvent *)

Definition dns_fail_rsp : LoginRsp := LoginRsp_of HOST_NOT_EXIST.

Definition inform_one (ip : Z) (id : (Z * Z) * Z) : T unit :=
  let '(iuid, iscbid) := id in
  m ← gets UserMap;
  match m !! iuid with
  | None => mret tt
  | Some u =>
    y ← user_at u;
    match us_scb_tree y !! iscbid with
    | None => mret tt
    | Some b =>
      x ← scb_at b;
      if negb (ip =? 0) then
        match sb_tunnel_conn x with
        | None => mret tt
        | Some t =>
          s ← ConnectWebServer u t ip (sb_dest_port x);
          match s with
          | Some _ => mret tt
          | None =>
            x ← scb_at b;
            t ← nonnull (sb_tunnel_conn x);
            _ ← SendTmsMsg t (penc dns_fail_rsp);
            mret tt
          end
        end
      else
        t ← nonnull (sb_tunnel_conn x);
        _ ← SendTmsMsg t (penc dns_fail_rsp);
        mret tt
    end
  end.

Fixpoint inform_all (ip : Z) (l : list ((Z * Z) * Z)) : T unit :=
  match l with
  | [] => mret tt
  | id :: l' => inform_one ip id;; inform_all ip l'
  end.

Definition InformClients (host : bytes) (ip : Z) : T unit :=
  d ← gets dc;
  inform_all ip (default [] (Dns._waiting_scb d !! host));;
  modify (fun s => s <| dc ::= fun d => d <| Dns._waiting_scb ::= delete host |> |>).

Fixpoint inform_replies (l : list Dns.Rep) : T unit :=
  match l with
  | [] => mret tt
  | r :: l' => InformClients (Dns._host r) (Dns._ip r);; inform_replies l'
  end.

Fixpoint dns_loop (fuel : nat) (p : ptr) (fd : Z) : T Z :=
  match fuel with
  | O => fail_with OutOfFuel
  | S fuel' =>
    '(length_, got) ← read_dgram fd BUFF;
    if length_ <=? 0 then mret length_ else
    set_conn p (fun c => c <| c_buff := blit 0 got (c_buff c) |>);;
    c ← conn p;
    replys ← lift (Dns.res_parse (c_buff c));
    modify (fun s => s <| dc ::= Dns.Update replys |>);;
    inform_replies replys;;
    dns_loop fuel' p fd
  end.

Definition DnsRecvEvent (p : ptr) : T Z := fun s =>
  match conns s !! p with
  | Some c => dns_loop (S (length (default [] (o_dgram (sys s) !! c_sock_fd c)))) p (c_sock_fd c) s
  | None => Bad UseAfterFree
  end.

(** ** ConnectMgr: events *)

Definition HandleAcceptEvent : T Z :=
  newfd ← accept;
  if 0 <? newfd then
    m ← gets ConnMap;
    p ← match m !! newfd with
        | Some p => set_conn p Connect_Reset;; mret p
        | None => new_conn
        end;
    set_conn p (fun c => c <| c_sock_fd := newfd |>);;
    modify (fun s => s <| ConnMap := <[newfd := p]> (ConnMap s) |>);;
    now ← gettimeofday;
    set_conn p (fun c => c <| c_stillneedtoread := HDR |> <| c_begin_time := now |>);;
    mret newfd
  else mret newfd.

Definition HandleRecvEvent (fd : Z) : T Z :=
  m ← gets ConnMap;
  match m !! fd with
  | None => mret (-2)
  | Some p =>
    c ← conn p;
    ret ← (if c_type c =? t_dns then DnsRecvEvent p else StreamRecvEvent p);
    (if negb (ret =? -1) then
       c ← conn p;
       if negb (c_exit c =? 0) then _ ← RemoveConn (i64 (c_sock_fd c)); mret tt else mret tt
     else mret tt);;
    mret ret
  end.

(** [HandleEPOEvent], a connection in progress: it is established. *)
Definition on_established (p : ptr) (fd : Z) : T Z :=
  set_conn p (fun c => c <| c_status := sta_online |> <| c_agent_status := 1 |>);;
  c ← conn p;
  tn ← match c_scb c with Some b => x ← scb_at b; mret (sb_tunnel_conn x) | None => mret None end;
  match c_scb c, tn with
  | Some b, Some t =>
    set_conn t (fun c => c <| c_agent_status := 1 |>);;
    id ← NewForwardId;
    set_scb b (fun x => x <| sb_forward_id := id |> <| sb_connected := 1 |>);;
    x ← scb_at b;
    (if negb (sb_status x =? 0) then
       set_conn p (fun c => c <| c_status := trans_stat_value s_forward |>);;
       u ← nonnull (c_user c);
       y ← user_at u;
       _ ← SendTmsMsg t (penc (MkLoginRsp LOGIN_RSP READY (us_balance y) (sb_forward_id x)));
       mret tt
     else
       _ ← SendTmsMsg t (penc (MkLoginRsp LOGIN_RSP AGENT_ESTASBLISHED 0 (sb_forward_id x)));
       mret tt);;
    _ ← ModifyEvent fd (Z.lor EPOLLIN EPOLLET);
    mret 0
  | _, _ =>
    modify (fun s => s <| ConnMap := delete fd (ConnMap s) |>);;
    mret (-1)
  end.

(** [HandleEPOEvent], a writable tunnel: the agent's pending download goes on. *)
Definition on_writable (p : ptr) (fd : Z) : T Z :=
  c ← conn p;
  b ← nonnull (c_scb c);
  x ← scb_at b;
  ag ← nonnull (sb_agent_conn x);
  ac ← conn ag;
  if c_datalen ac =? 0 then mret 0 else
  wrotelen ← send fd (sub (Z.to_nat (c_offset ac)) (Z.to_nat (c_datalen ac)) (c_buff ac));
  (if wrotelen =? c_datalen ac then
     set_conn ag (fun c => c <| c_offset := 0 |> <| c_stillneedtoread := BUFF |> <| c_status := sta_online |>);;
     _ ← AddEvent (c_sock_fd ac) EPOLLIN;
     mret tt
   else if 0 <? wrotelen then
     set_conn ag (fun c => c <| c_offset := u16 (c_offset c + wrotelen) |>
                             <| c_datalen := u16 (c_datalen c - wrotelen) |>)
   else mret tt);;
  if 0 <? wrotelen then
    acc ← gets accurate;
    cret ← RecordTraffic (c_user c) (Some b) (u64 (TrafficEst acc wrotelen));
    if cret =? -1 then mret (-1) else mret 0
  else mret 0.

Definition HandleEPOEvent (fd : Z) : T Z :=
  m ← gets ConnMap;
  match m !! fd with
  | None => mret (-2)
  | Some p =>
    c ← conn p;
    if c_status c =? sta_inprogress then on_established p fd
    else if bool_decide (c_cstate c ≠ s_forward) then mret (-2)
    else if negb (c_type c =? t_tunnel) then mret 0
    else on_writable p fd
  end.

(** ** main *)

Definition DNS_SERVER : bytes := bs "114.114.114.114".
Definition CENTER : bytes := bs "127.0.0.1".
Definition CENTERPORT : Z := 10170.
Definition DPI_IP : bytes := bs "127.0.0.1".
Definition DPI_PORT : Z := 10160.

(** The connections made before the loop; [false] where [main] returns -1. *)
Definition startup (epfd : Z) : T bool :=
  modify (fun s => s <| Epoll_FD := epfd |>);;
  d ← CreateDnsConn (inet_addr DNS_SERVER) 53;
  match d with
  | None => mret false
  | Some (_, dns_fd) =>
    _ ← AddEvent dns_fd (Z.lor EPOLLIN EPOLLET);
    c ← CreateCenterConn (inet_addr CENTER) CENTERPORT;
    match c with
    | None => mret false
    | Some (_, center_fd) =>
      _ ← AddEvent center_fd (Z.lor EPOLLIN EPOLLET);
      i ← CreateDpiConn (inet_addr DPI_IP) DPI_PORT;
      match i with
      | None => mret false
      | Some (_, dpi_fd) => _ ← AddEvent dpi_fd (Z.lor EPOLLIN EPOLLET); mret true
      end
    end
  end.

(** The [do ... while (err == EINTR)] around [HandleRecvEvent]: [true] for
    [goto NextEvent]. *)
Fixpoint recv_event (fuel : nat) (fd events err : Z) : T bool :=
  match fuel with
  | O => fail_with OutOfFuel
  | S fuel' =>
    ret ← HandleRecvEvent fd;
    if ret =? -2 then mret true
    else if ret =? -1 then
      e ← errno;
      if e =? EAGAIN then mret true
      else if negb (Z.land events EPOLLERR =? 0) then
        _ ← InformShutdownUser fd;
        _ ← RemoveConn fd;
        close fd;;
        mret true
      else
        _ ← RemoveConn fd;
        mret true
    else if ret =? 0 then
      if negb (err =? EINTR) then
        _ ← RemoveConn fd;
        mret true
      else mret false
    else if err =? EINTR then recv_event fuel' fd events err
    else mret false
  end.

(** [EPOLLOUT]: [err] is SO_ERROR of the socket from here on. *)
Definition out_event (fd : Z) : T Z :=
  err ← so_error fd;
  (if (err =? 0) || (err =? EAGAIN) then
     ret ← HandleEPOEvent fd;
     if ret =? -1 then shutdown fd else mret tt
   else mret tt);;
  mret err.

(** One entry of [ev_list]; [err] is the variable of [main], returned as it is
    left.  [HandleRecvEvent] never returns a positive value, so the inner loop
    runs once. *)
Definition handle_event (m_socket : Z) (ev : Z * Z) (err : Z) : T Z :=
  let '(fd, events) := ev in
  skip ← (if negb (Z.land events EPOLLIN =? 0) then
            if fd =? m_socket then
              r ← HandleAcceptEvent;
              let currfd := u64 r in
              (if 0 <? currfd then _ ← AddEvent (i64 currfd) IN_OUT_ET; mret tt else mret tt);;
              mret false
            else recv_event 1 fd events err
          else mret false);
  if (skip : bool) then mret err
  else if negb (Z.land events EPOLLOUT =? 0) then out_event fd
  else mret err.

(** The [for] over the events of one [epoll_wait]. *)
Fixpoint handle_events (m_socket : Z) (evs : list (Z * Z)) (err : Z) : T Z :=
  match evs with
  | [] => mret err
  | ev :: evs' => err ← handle_event m_socket ev err; handle_events m_socket evs' err
  end.

End TmsProto.
