(* ===== verification/TmsInv.v ===== *)
(** * Tunnel server: the invariant of the connection table, and termination

    [wf]: an entry of [_ConnMap] points to a live connection whose [sock_fd] is
    the entry's key, and no address from [next_ptr] on is in use.  [evolves]
    relates the states before and after any piece of the server's code: it keeps
    [wf], it only takes from the sockets and it only appends to the log.  Every
    operation is shown to satisfy it, up to the event loop.  From it follow that
    the receive loops end, that a batch of events is always processed, and that
    the table never yields a dead connection. *)

From S2P Require Import Prelude Wire Frame Os Dns TmsState TmsAccount TmsNet TmsProto.
From stdpp Require Import base gmap list strings.
From Stdlib Require Import ZArith Lia.
Import Dns Wire Frame Os TmsState TmsAccount TmsNet TmsProto.

Open Scope Z_scope.

Module TmsInv.

(** ** The relation *)

Record wf (s : tms) : Prop := MkWf {
  wf_map : ∀ fd p, ConnMap s !! fd = Some p → ∃ c, conns s !! p = Some c ∧ c_sock_fd c = fd;
  wf_next : ∀ p, next_ptr s ≤ p → conns s !! p = None;
}.

Definition rx_len (fd : Z) (s : tms) : nat := length (rx_of fd (sys s)).1.
Definition dgram_len (fd : Z) (s : tms) : nat := length (default [] (o_dgram (sys s) !! fd)).

(** Nothing is put into a socket. *)
Definition shrinks (s s' : tms) : Prop :=
  ∀ fd, (rx_len fd s' ≤ rx_len fd s)%nat ∧ (dgram_len fd s' ≤ dgram_len fd s)%nat.

Definition log_grows (s s' : tms) : Prop := ∃ l, o_log (sys s') = o_log (sys s) ++ l.

(** A connection that stays alive keeps its descriptor. *)
Definition fd_stable (s s' : tms) : Prop :=
  next_ptr s ≤ next_ptr s' ∧
  ∀ p c', p < next_ptr s → conns s' !! p = Some c' →
  ∃ c, conns s !! p = Some c ∧ c_sock_fd c' = c_sock_fd c.

Record evolves (s s' : tms) : Prop := MkEvolves {
  ev_shrinks : shrinks s s';
  ev_log : log_grows s s';
  ev_wf : wf s → wf s' ∧ fd_stable s s';
}.

#[export] Instance evolves_preorder : PreOrder evolves.
Proof.
  split.
  - intros s. split; [done| |].
    + exists []. rewrite app_nil_r. done.
    + intros Hw. split; [done|]. split; [lia|]. eauto.
  - intros a b c [H1 [l1 L1] W1] [H2 [l2 L2] W2]. split.
    + intros fd. destruct (H1 fd), (H2 fd). lia.
    + exists (l1 ++ l2). rewrite L2, L1, app_assoc. done.
    + intros Hw. destruct (W1 Hw) as [Hb [N1 S1]], (W2 Hb) as [Hc [N2 S2]].
      split; [done|]. split; [lia|]. intros p d Hp Hd.
      destruct (S2 p d) as (d1 & Hd1 & E1); [lia|done|].
      destruct (S1 p d1 Hp Hd1) as (d2 & Hd2 & E2). exists d2. split; [done|]. congruence.
Qed.

(** The table is a function of the heap, the map and the allocator. *)
Lemma wf_same s s' : conns s' = conns s → ConnMap s' = ConnMap s → next_ptr s' = next_ptr s →
  wf s → wf s' ∧ fd_stable s s'.
Proof.
  intros E1 E2 E3 [Hm Hn]. split; [split; rewrite E1, ?E2, ?E3; done|].
  split; rewrite ?E3; [lia|]. rewrite E1. eauto.
Qed.

(** ** Primitives *)

(** A change of the state outside the table and the operating system. *)
Lemma keeps_frame f :
  (∀ s, sys (f s) = sys s ∧ conns (f s) = conns s ∧ ConnMap (f s) = ConnMap s ∧ next_ptr (f s) = next_ptr s) →
  keeps evolves (modify f).
Proof.
  intros Hf. apply keeps_modify. intros s. destruct (Hf s) as (E1 & E2 & E3 & E4). split.
  - intros fd. unfold rx_len, dgram_len. rewrite E1. lia.
  - exists []. rewrite E1, app_nil_r. done.
  - apply wf_same; done.
Qed.

(** A change of the operating system that takes from the sockets and appends to
    the log. *)
Definition same_table (s s' : tms) : Prop :=
  conns s' = conns s ∧ ConnMap s' = ConnMap s ∧ next_ptr s' = next_ptr s.

Lemma evolves_os s s' : same_table s s' → shrinks s s' → log_grows s s' → evolves s s'.
Proof. intros (? & ? & ?) Hs Hl. split; [exact Hs|exact Hl|]. apply wf_same; done. Qed.

Lemma evolves_os_same s s' : same_table s s' →
  o_rx (sys s') = o_rx (sys s) → o_dgram (sys s') = o_dgram (sys s) → log_grows s s' → evolves s s'.
Proof.
  intros Ht E1 E2 Hl. apply evolves_os; [done| |done]. intros fd. unfold rx_len, dgram_len, rx_of.
  rewrite E1, E2. lia.
Qed.

Ltac log_same := first [eexists; reflexivity | exists []; rewrite app_nil_r; reflexivity].
Ltac os_same := apply evolves_os_same; [repeat split|reflexivity|reflexivity|log_same].

Lemma keeps_conn p : keeps evolves (conn p).
Proof. intros s a s'. unfold conn. destruct (_ !! _); [|done]. intros [= <- <-]. reflexivity. Qed.
Lemma keeps_scb_at p : keeps evolves (scb_at p).
Proof. intros s a s'. unfold scb_at. destruct (_ !! _); [|done]. intros [= <- <-]. reflexivity. Qed.
Lemma keeps_user_at p : keeps evolves (user_at p).
Proof. intros s a s'. unfold user_at. destruct (_ !! _); [|done]. intros [= <- <-]. reflexivity. Qed.
Lemma keeps_pool0 f : keeps evolves (pool0 f).
Proof. intros s a s'. unfold pool0. destruct (f s); [done|]. intros [= <- <-]. reflexivity. Qed.
Lemma keeps_lift {A} (r : result A) : keeps evolves (lift r).
Proof. intros s a s'. unfold lift. destruct r; [|done]. intros [= <- <-]. reflexivity. Qed.

Lemma evolves_frame s s' : sys s' = sys s → conns s' = conns s → ConnMap s' = ConnMap s →
  next_ptr s' = next_ptr s → evolves s s'.
Proof.
  intros E1 E2 E3 E4. split.
  - intros fd. unfold rx_len, dgram_len. rewrite E1. lia.
  - exists []. rewrite E1, app_nil_r. done.
  - apply wf_same; done.
Qed.

Lemma keeps_set_scb p f : keeps evolves (set_scb p f).
Proof.
  intros s a s'. unfold set_scb. destruct (_ !! _); [|done]. intros [= <- <-]. apply evolves_frame; done.
Qed.
Lemma keeps_set_user p f : keeps evolves (set_user p f).
Proof.
  intros s a s'. unfold set_user. destruct (_ !! _); [|done]. intros [= <- <-]. apply evolves_frame; done.
Qed.

(** Shrinking and logging of a change of the heap of connections only. *)
Lemma evolves_heap s s' : sys s' = sys s → (wf s → wf s' ∧ fd_stable s s') → evolves s s'.
Proof.
  intros E1 Hw. split; [|exists []; rewrite E1, app_nil_r; done|done].
  intros fd. unfold rx_len, dgram_len. rewrite E1. lia.
Qed.

Lemma keeps_set_conn p f : (∀ c, c_sock_fd (f c) = c_sock_fd c) → keeps evolves (set_conn p f).
Proof.
  intros Hf s a s'. unfold set_conn. destruct (conns s !! p) as [c|] eqn:Hc; [|done].
  intros [= <- <-]. apply evolves_heap; [done|]. intros [Hm Hn]. split; [split|split]; rsimpl; [..|lia|].
  3:{ intros q d Hq Hd. destruct (decide (q = p)) as [->|].
      - rewrite lookup_insert_eq in Hd. injection Hd as <-. exists c. split; [done|]. apply Hf.
      - rewrite lookup_insert_ne in Hd by done. eauto. }
  - intros fd q Hq. destruct (Hm fd q Hq) as (d & Hd & Hfd).
    destruct (decide (q = p)) as [->|].
    + exists (f c). rewrite lookup_insert_eq. split; [done|]. rewrite Hf. congruence.
    + exists d. rewrite lookup_insert_ne by done. done.
  - intros q Hq. specialize (Hn q Hq). rewrite lookup_insert_ne; [done|]. congruence.
Qed.

Lemma keeps_new_scb id : keeps evolves (new_scb id).
Proof.
  intros s a s' [= <- <-]. apply evolves_heap; [done|]. intros [Hm Hn].
  split; [split; rsimpl; [done|intros p Hp; apply Hn; lia]|split; rsimpl; [lia|eauto]].
Qed.
Lemma keeps_new_user : keeps evolves new_user.
Proof.
  intros s a s' [= <- <-]. apply evolves_heap; [done|]. intros [Hm Hn].
  split; [split; rsimpl; [done|intros p Hp; apply Hn; lia]|split; rsimpl; [lia|eauto]].
Qed.

Lemma wf_new_conn s : wf s →
  wf (s <| conns := <[next_ptr s := Connect_new (fresh_buff s)]> (conns s) |> <| next_ptr := next_ptr s + 1 |>).
Proof.
  intros [Hm Hn]. split; rsimpl.
  - intros fd q Hq. destruct (Hm fd q Hq) as (c & Hc & Hfd). exists c.
    rewrite lookup_insert_ne; [done|]. intros <-. rewrite Hn in Hc by lia. done.
  - intros q Hq. rewrite lookup_insert_ne by lia. apply Hn. lia.
Qed.

(** System calls. *)
Lemma keeps_emit e : keeps evolves (emit (S := tms) e).
Proof. intros s a s' [= <- <-]. os_same. Qed.
Lemma keeps_send fd d : keeps evolves (send (S := tms) fd d).
Proof.
  intros s a s'. unfold send. destruct (o_send _); destruct (_ <? 0); intros [= <- <-]; os_same.
Qed.
Lemma keeps_socket : keeps evolves (socket (S := tms)).
Proof. intros s a s'. unfold socket. destruct (o_socket _); intros [= <- <-]; os_same. Qed.
Lemma keeps_connect fd ip port : keeps evolves (connect (S := tms) fd ip port).
Proof.
  intros s a s'. unfold connect. destruct (o_connect _) as [|[k e] ?]; [|destruct (_ <? 0)];
    intros [= <- <-]; os_same.
Qed.
Lemma keeps_accept : keeps evolves (accept (S := tms)).
Proof. intros s a s'. unfold accept. destruct (o_accept _); intros [= <- <-]; os_same. Qed.
Lemma keeps_epoll_ctl op fd ev : keeps evolves (epoll_ctl (S := tms) op fd ev).
Proof.
  intros s a s'. unfold epoll_ctl. destruct (o_ctl _); [|destruct (_ <? 0)]; intros [= <- <-]; os_same.
Qed.
Lemma keeps_os_gets {A} (f : tms → A) : keeps evolves (gets f).
Proof. apply keeps_gets. typeclasses eauto. Qed.

Lemma rx_of_delete fd fd' o : rx_of fd (o <| o_rx ::= delete fd' |>) = if decide (fd' = fd) then ([], false) else rx_of fd o.
Proof.
  unfold rx_of. rsimpl. destruct (decide (fd' = fd)) as [->|].
  - rewrite lookup_delete_eq. done.
  - rewrite lookup_delete_ne by done. done.
Qed.

Lemma keeps_close fd : keeps evolves (close (S := tms) fd).
Proof.
  intros s a s' [= <- <-]. apply evolves_os; [repeat split| |log_same]. intros fd'.
  unfold rx_len, dgram_len, rx_of. rsimpl. destruct (decide (fd = fd')) as [->|].
  - rewrite !lookup_delete_eq. cbn. lia.
  - rewrite !lookup_delete_ne by done. cbn [the_os tms_os]. lia.
Qed.

Lemma keeps_read fd n : keeps evolves (read (S := tms) fd n).
Proof.
  intros s a s'. unfold read. destruct (rx_of fd (the_os s)) as [avail eof] eqn:Hrx.
  destruct (sock_read n avail eof) as [k got]. intros [= <- <-].
  destruct (0 <? k), (k <? 0).
  all: try reflexivity.
  all: try os_same.
  all: apply evolves_os; [repeat split| |log_same]; intros fd';
    unfold rx_len, dgram_len, rx_of in *; cbn [the_os tms_os] in *; rsimpl;
    destruct (decide (fd = fd')) as [->|];
    [rewrite lookup_insert_eq, Hrx; cbn; rewrite length_drop; lia
    |rewrite lookup_insert_ne by done; lia].
Qed.

Lemma keeps_read_dgram fd n : keeps evolves (read_dgram (S := tms) fd n).
Proof.
  intros s a s'. unfold read_dgram. destruct (default [] _) as [|d ds] eqn:Hd; intros [= <- <-]; [os_same|].
  apply evolves_os; [repeat split| |log_same]. intros fd'.
  unfold rx_len, dgram_len in *. cbn [the_os tms_os] in *. rsimpl. split; [unfold rx_of; rsimpl; lia|].
  destruct (decide (fd = fd')) as [->|].
  - rewrite lookup_insert_eq, Hd. cbn. lia.
  - rewrite lookup_insert_ne by done. lia.
Qed.

#[export] Hint Resolve keeps_conn keeps_scb_at keeps_user_at keeps_pool0 keeps_lift keeps_set_scb
  keeps_set_user keeps_new_scb keeps_new_user keeps_emit keeps_send keeps_socket keeps_connect
  keeps_accept keeps_epoll_ctl keeps_close keeps_read keeps_read_dgram : tunnel.

(** Walks through the server's code. *)
Ltac evolve_step :=
  match goal with
  | |- keeps evolves (set_conn _ _) => apply keeps_set_conn; intros; case_ifs; reflexivity
  | |- keeps evolves (modify _) => apply keeps_frame; intros; case_ifs; repeat split; reflexivity
  | |- keeps evolves (GetDnsConn) => apply keeps_pool0
  | |- keeps evolves (GetCenterConn) => apply keeps_pool0
  | |- keeps evolves (GetDpiConn) => apply keeps_pool0
  | |- keeps evolves gettimeofday => apply keeps_os_gets
  | |- keeps evolves (getpeername _) => apply keeps_os_gets
  | |- keeps evolves (so_error _) => apply keeps_os_gets
  | |- keeps evolves errno => apply keeps_os_gets
  | |- keeps evolves random => apply keeps_os_gets
  | |- keeps evolves (shutdown _) => apply keeps_emit
  | _ => walk_step
  end.

Ltac evolve := repeat evolve_step.

(** ** Accounting *)

Lemma keeps_NewSCB : keeps evolves NewSCB.
Proof. unfold NewSCB. evolve. Qed.
Lemma keeps_RecycleSCB b : keeps evolves (RecycleSCB b).
Proof. unfold RecycleSCB. evolve. Qed.
#[export] Hint Resolve keeps_NewSCB keeps_RecycleSCB : tunnel.

Lemma keeps_CreateSCB u t a : keeps evolves (CreateSCB u t a).
Proof. unfold CreateSCB. evolve. Qed.
Lemma keeps_RecordTraffic u b n : keeps evolves (RecordTraffic u b n).
Proof. unfold RecordTraffic. evolve. Qed.
Lemma keeps_copy_host h : keeps evolves (copy_host h).
Proof. unfold copy_host. evolve. Qed.
Lemma keeps_set_accu_start u bt : keeps evolves (set_accu_start u bt).
Proof. unfold set_accu_start. evolve. Qed.
Lemma keeps_accumulate_or_emit u n bt et h : keeps evolves (accumulate_or_emit u n bt et h).
Proof. unfold accumulate_or_emit. evolve. Qed.
#[export] Hint Resolve keeps_CreateSCB keeps_RecordTraffic keeps_copy_host keeps_set_accu_start
  keeps_accumulate_or_emit : tunnel.

Lemma keeps_ReportOrAccumulate u b : keeps evolves (ReportOrAccumulate u b).
Proof. unfold ReportOrAccumulate. evolve. Qed.
Lemma keeps_ReportAccumulated u : keeps evolves (ReportAccumulated u).
Proof. unfold ReportAccumulated. evolve. Qed.
#[export] Hint Resolve keeps_ReportOrAccumulate keeps_ReportAccumulated : tunnel.

Lemma keeps_OnReportRsp u : keeps evolves (OnReportRsp u).
Proof. unfold OnReportRsp. evolve. Qed.
Lemma keeps_ReleaseSCB u b : keeps evolves (ReleaseSCB u b).
Proof. unfold ReleaseSCB. evolve. Qed.
Lemma keeps_NewForwardId : keeps evolves NewForwardId.
Proof. unfold NewForwardId. evolve. Qed.
Lemma keeps_RetrieveUser id : keeps evolves (RetrieveUser id).
Proof. unfold RetrieveUser. evolve. Qed.
#[export] Hint Resolve keeps_OnReportRsp keeps_ReleaseSCB keeps_NewForwardId keeps_RetrieveUser : tunnel.

(** ** Connections *)

Lemma keeps_ctl_event op fd ev : keeps evolves (ctl_event op fd ev).
Proof. unfold ctl_event. evolve. Qed.
Lemma keeps_AddEvent fd ev : keeps evolves (AddEvent fd ev).
Proof. apply keeps_ctl_event. Qed.
Lemma keeps_RemoveEvent fd ev : keeps evolves (RemoveEvent fd ev).
Proof. apply keeps_ctl_event. Qed.
Lemma keeps_ModifyEvent fd ev : keeps evolves (ModifyEvent fd ev).
Proof. apply keeps_ctl_event. Qed.
#[export] Hint Resolve keeps_ctl_event keeps_AddEvent keeps_RemoveEvent keeps_ModifyEvent : tunnel.

Lemma keeps_SendMsg p m : keeps evolves (SendMsg p m).
Proof. unfold SendMsg. evolve. Qed.
Lemma keeps_SendTmsMsg p m : keeps evolves (SendTmsMsg p m).
Proof. unfold SendTmsMsg. evolve. Qed.
Lemma keeps_GetConn fd : keeps evolves (GetConn fd).
Proof. unfold GetConn. evolve. Qed.
#[export] Hint Resolve keeps_SendMsg keeps_SendTmsMsg keeps_GetConn : tunnel.

(** [new Connect], entered in the table under the descriptor it is given. *)
Definition register (fd : Z) (g : Connect → Connect) (pool : ptr → tms → tms) : T ptr :=
  p ← new_conn;
  modify (fun st => st <| ConnMap := <[fd := p]> (ConnMap st) |>);;
  modify (pool p);;
  set_conn p g;;
  mret p.

Definition pool_only (pool : ptr → tms → tms) : Prop :=
  ∀ p s, sys (pool p s) = sys s ∧ conns (pool p s) = conns s ∧ ConnMap (pool p s) = ConnMap s
         ∧ next_ptr (pool p s) = next_ptr s.

Lemma register_inv s fd g pool p s' : pool_only pool → (∀ c, c_sock_fd (g c) = fd) →
  register fd g pool s = Ok (p, s') → evolves s s'.
Proof.
  intros Hpool Hg H. unfold register in H.
  do 3 (inv_bind H; injection Hm as <- <-). inv_bind H. injection H as <- <-.
  match type of Hm with set_conn _ _ (pool ?q ?st) = _ => destruct (Hpool q st) as (E1 & E2 & E3 & E4) end.
  unfold set_conn in Hm. rewrite E2 in Hm. rsimpl in Hm. rewrite lookup_insert_eq in Hm.
  injection Hm as <- <-. apply evolves_heap; [rsimpl; rewrite E1; done|].
  intros [Hm Hn].
  split; [split|split]; rsimpl; rewrite ?E2, ?E3, ?E4; rsimpl; rewrite ?insert_insert_eq; [..|lia|].
  3:{ intros q d Hq Hd. rewrite lookup_insert_ne in Hd by lia. eauto. }
  - intros fd' q Hq. destruct (decide (fd' = fd)) as [->|].
    + rewrite lookup_insert_eq in Hq. injection Hq as <-. eexists. rewrite lookup_insert_eq. split; [done|]. apply Hg.
    + rewrite lookup_insert_ne in Hq by done. destruct (Hm fd' q Hq) as (d & Hd & ?).
      exists d. rewrite lookup_insert_ne; [done|]. intros <-. rewrite Hn in Hd by lia. done.
  - intros q Hq. rewrite lookup_insert_ne by lia. apply Hn. lia.
Qed.

Lemma keeps_register fd g pool : pool_only pool → (∀ c, c_sock_fd (g c) = fd) →
  keeps evolves (register fd g pool).
Proof. intros H1 H2 s p s' H. eapply register_inv; eassumption. Qed.

(** The code's sequence of binds is [register]. *)
Lemma keeps_ext {A} (m m' : T A) : (∀ s, m s = m' s) → keeps evolves m' → keeps evolves m.
Proof. intros E H s a s' Hm. rewrite E in Hm. eapply H. exact Hm. Qed.

Lemma run_keeps {A} (R : tms → tms → Prop) (m : T A) s a s' : m s = Ok (a, s') → keeps R m → R s s'.
Proof. intros Hm H. eapply H. exact Hm. Qed.

Lemma keeps_create_conn ip port init pool : pool_only pool →
  (∀ c, c_sock_fd (init c) = c_sock_fd c) → keeps evolves (create_conn ip port init pool).
Proof.
  intros Hp Hi. unfold create_conn.
  apply keeps_bind; [typeclasses eauto|evolve|intros fd]. destruct (fd <=? 0); [evolve|].
  apply keeps_bind; [typeclasses eauto|evolve|intros r]. destruct (r <? 0); [evolve|].
  destruct (r =? 0); [|evolve].
  eapply (keeps_ext _ (p ← register fd (fun c => init (c <| c_sock_fd := fd |>)) pool; mret (Some (p, fd)))).
  { intros s. unfold register, mbind, M_bind. destruct (new_conn s) as [[q s1]|]; [|done].
    cbn [modify]. destruct (set_conn _ _ _) as [[]|]; done. }
  apply keeps_bind; [typeclasses eauto| |intros; evolve].
  apply keeps_register; [done|]. intros c. rewrite Hi. done.
Qed.

Lemma keeps_CreateDnsConn ip port : keeps evolves (CreateDnsConn ip port).
Proof. apply keeps_create_conn; [repeat split|done]. Qed.
Lemma keeps_CreateDpiConn ip port : keeps evolves (CreateDpiConn ip port).
Proof. apply keeps_create_conn; [repeat split|done]. Qed.
Lemma keeps_CreateCenterConn ip port : keeps evolves (CreateCenterConn ip port).
Proof. apply keeps_create_conn; [repeat split|done]. Qed.

Lemma keeps_CreateAgentConn ip port : keeps evolves (CreateAgentConn ip port).
Proof.
  unfold CreateAgentConn.
  apply keeps_bind; [typeclasses eauto|evolve|intros fd]. destruct (fd <=? 0); [evolve|].
  apply keeps_bind; [typeclasses eauto|evolve|intros r].
  apply keeps_bind; [typeclasses eauto|evolve|intros e]. destruct (_ && _); [evolve|].
  eapply (keeps_ext _ (p ← register fd (fun c => c <| c_sock_fd := fd |> <| c_status := sta_inprogress |>
      <| c_cstate := s_forward |> <| c_type := t_agent |> <| c_datalen := 0 |> <| c_stillneedtoread := BUFF |>)
      (fun _ s => s); mret (Some (p, fd)))).
  { intros s. unfold register, mbind, M_bind. destruct (new_conn s) as [[q s1]|]; [|done].
    cbn [modify]. destruct (set_conn _ _ _) as [[]|]; done. }
  apply keeps_bind; [typeclasses eauto| |intros; evolve].
  apply keeps_register; [repeat split|done].
Qed.
#[export] Hint Resolve keeps_CreateDnsConn keeps_CreateDpiConn keeps_CreateCenterConn
  keeps_CreateAgentConn : tunnel.

(** ** Removal *)

(** Erasing an entry of the table. *)
Lemma wf_erase s fd : wf s → wf (s <| ConnMap := delete fd (ConnMap s) |>).
Proof.
  intros [Hm Hn]. split; rsimpl; [|done]. intros fd' q Hq.
  apply lookup_delete_Some in Hq as [_ Hq]. eauto.
Qed.

Lemma keeps_erase fd : keeps evolves (modify (fun s => s <| ConnMap := delete fd (ConnMap s) |>)).
Proof.
  apply keeps_modify. intros s. apply evolves_heap; [done|]. intros Hw.
  split; [apply wf_erase; done|]. split; rsimpl; [lia|eauto].
Qed.
#[export] Hint Resolve keeps_erase : tunnel.

(** The destructor before the memory is released: the table is not touched. *)
Definition quiet (s s' : tms) : Prop := shrinks s s' ∧ log_grows s s' ∧ same_table s s'.

#[export] Instance quiet_preorder : PreOrder quiet.
Proof.
  split.
  - intros s. split; [intros fd; lia|]. split; [exists []; rewrite app_nil_r; done|repeat split].
  - intros a b c (H1 & [l1 L1] & T1 & T2 & T3) (H2 & [l2 L2] & T4 & T5 & T6).
    split; [intros fd; destruct (H1 fd), (H2 fd); lia|]. split.
    + exists (l1 ++ l2). rewrite L2, L1, app_assoc. done.
    + repeat split; congruence.
Qed.

(** A step that evolves and leaves the table alone. *)
Lemma quiet_of s s' : evolves s s' → same_table s s' → quiet s s'.
Proof. intros [? ? ?] ?. done. Qed.

Lemma quiet_ctl_event op fd ev : keeps quiet (ctl_event op fd ev).
Proof.
  intros s r s' H. apply quiet_of; [eapply keeps_ctl_event; eassumption|].
  destruct (ctl_event_run op fd ev s) as (r' & o & Hrun & _). rewrite Hrun in H.
  injection H as <- <-. repeat split.
Qed.
Lemma quiet_close fd : keeps quiet (close (S := tms) fd).
Proof.
  intros s r s' H. apply quiet_of; [eapply keeps_close; eassumption|].
  injection H as <- <-. repeat split.
Qed.
Lemma quiet_set_scb p f : keeps quiet (set_scb p f).
Proof.
  intros s r s' H. apply quiet_of; [eapply keeps_set_scb; eassumption|].
  unfold set_scb in H. destruct (_ !! _); [|done]. injection H as <- <-. repeat split.
Qed.

Lemma delete_conn_inv p s a s' : delete_conn p s = Ok (a, s') →
  shrinks s s' ∧ log_grows s s' ∧ is_Some (conns s !! p) ∧ conns s' = delete p (conns s)
  ∧ ConnMap s' = ConnMap s ∧ next_ptr s' = next_ptr s.
Proof.
  intros H. unfold delete_conn in H. inv_bind H. rename a0 into c.
  unfold conn in Hm. destruct (conns s !! p) as [c'|] eqn:Hc; [|done]. injection Hm as -> <-.
  do 2 inv_bind H.
  match goal with H1 : _ s = Ok (_, ?x), H2 : _ ?x = Ok (_, ?y) |- _ =>
    assert (quiet s y) as (Hs & Hl & E1 & E2 & E3) end.
  { etransitivity.
    - eapply (run_keeps quiet); [exact Hm|]. destruct (_ <? _); [|apply keeps_ret; typeclasses eauto].
      apply keeps_bind; [typeclasses eauto|apply quiet_ctl_event|intros; apply quiet_close].
    - eapply (run_keeps quiet); [exact Hm0|]. destruct (c_scb c); [|apply keeps_ret; typeclasses eauto].
      apply keeps_bind; [typeclasses eauto| |intros];
        match goal with |- keeps _ (if ?b then _ else _) => destruct b end;
        first [apply quiet_set_scb | apply keeps_ret; typeclasses eauto]. }
  unfold free_conn in H. destruct (_ !! _) in H; [|done]. injection H as <- <-.
  split; [done|]. split; [done|]. split; [done|]. rsimpl. rewrite E1. done.
Qed.

(** Freeing a connection whose entry is erased. *)
Lemma wf_free s s' fd p c : wf s → conns s !! p = Some c → c_sock_fd c = fd →
  conns s' = delete p (conns s) → ConnMap s' = delete fd (ConnMap s) → next_ptr s' = next_ptr s →
  wf s' ∧ fd_stable s s'.
Proof.
  intros [Hm Hn] Hc Hfd E1 E2 E3. split; [split|split]; rewrite ?E1, ?E2, ?E3; [..|lia|].
  - intros fd' q Hq. apply lookup_delete_Some in Hq as [Hne Hq].
    destruct (Hm fd' q Hq) as (d & Hd & ?). exists d. rewrite lookup_delete_ne; [done|]. congruence.
  - intros q Hq. rewrite lookup_delete_None. right. auto.
  - intros q d Hq Hd. apply lookup_delete_Some in Hd as [_ Hd]. eauto.
Qed.

Lemma keeps_drop_peer o : keeps evolves (drop_peer o).
Proof.
  destruct o as [a|]; [|cbn [drop_peer]; evolve]. intros s r s' H. unfold drop_peer in H. inv_bind H.
  unfold conn in Hm. destruct (conns s !! a) as [ac|] eqn:Ha; [|done]. injection Hm as <- <-.
  inv_bind H. injection Hm as <- <-.
  destruct (delete_conn_inv _ _ _ _ H) as (Hs & Hl & _ & E1 & E2 & E3). split; [done|done|].
  intros Hw. eapply (wf_free s s' (c_sock_fd ac) a ac); done.
Qed.
#[export] Hint Resolve keeps_drop_peer : tunnel.

Lemma keeps_release_stream p c u b : keeps evolves (release_stream p c u b).
Proof. unfold release_stream. evolve. Qed.
#[export] Hint Resolve keeps_release_stream : tunnel.

Lemma keeps_RemoveConn fd : keeps evolves (RemoveConn fd).
Proof.
  intros s r s' H. unfold RemoveConn in H. destruct (fd <? 0); [injection H as <- <-; reflexivity|].
  inv_bind H. injection Hm as <- <-. destruct (ConnMap s !! fd) as [p|] eqn:Hp;
    [|injection H as <- <-; reflexivity].
  inv_bind H. unfold conn in Hm. destruct (conns s !! p) as [c|] eqn:Hc; [|done]. injection Hm as <- <-.
  inv_bind H. rename s0 into s1.
  assert (evolves s s1) as Hev by (eapply (run_keeps evolves); [exact Hm|]; evolve). clear Hm.
  inv_bind H. rename s0 into s2. destruct (delete_conn_inv _ _ _ _ Hm) as (Hs & Hl & [c1 Hc1] & E1 & E2 & E3).
  inv_bind H. injection Hm0 as <- <-. injection H as <- <-.
  destruct Hev as [Hs0 [l0 L0] Hw0]. destruct Hl as [l L]. split.
  - intros fd'. destruct (Hs0 fd'), (Hs fd'). unfold rx_len, dgram_len in *. rsimpl. lia.
  - exists (l0 ++ l). rsimpl. rewrite L, L0, app_assoc. done.
  - intros Hw. destruct (Hw0 Hw) as [Hw1 [Hn1 Hst]].
    assert (c_sock_fd c1 = fd) as Hfd.
    { destruct (wf_map s Hw fd p Hp) as (c' & Hc' & Hfd').
      assert (p < next_ptr s) as Hlt.
      { destruct (decide (p < next_ptr s)); [done|]. rewrite (wf_next s Hw) in Hc by lia. done. }
      destruct (Hst p c1 Hlt Hc1) as (c2 & Hc2 & ?). congruence. }
    destruct (wf_free s1 (s2 <| ConnMap := delete fd (ConnMap s2) |>) fd p c1) as [Hw2 [Hn2 Hst2]];
      [done|done|done|rsimpl; congruence|rsimpl; congruence|done|].
    split; [done|]. split; [etransitivity; [exact Hn1|exact Hn2]|]. intros q d Hq Hd.
    destruct (Hst2 q d) as (d1 & Hd1 & ?); [lia|done|].
    destruct (Hst q d1 Hq Hd1) as (d2 & ? & ?). exists d2. split; congruence.
Qed.
#[export] Hint Resolve keeps_RemoveConn : tunnel.

Lemma keeps_InformShutdownUser fd : keeps evolves (InformShutdownUser fd).
Proof. unfold InformShutdownUser. evolve. Qed.
Lemma keeps_RecursiveRecycle b : keeps evolves (RecursiveRecycle b).
Proof. unfold RecursiveRecycle. evolve. Qed.
Lemma keeps_ConnectWebServer u t ip port : keeps evolves (ConnectWebServer u t ip port).
Proof. unfold ConnectWebServer. evolve. Qed.
#[export] Hint Resolve keeps_InformShutdownUser keeps_RecursiveRecycle keeps_ConnectWebServer : tunnel.

(** ** Messages and events *)

Lemma keeps_login_connect p u h port : keeps evolves (login_connect p u h port).
Proof. unfold login_connect. evolve. Qed.
#[export] Hint Resolve keeps_login_connect : tunnel.

Lemma keeps_HandleLoginReq p : keeps evolves (HandleLoginReq p).
Proof. unfold HandleLoginReq. evolve. Qed.
Lemma keeps_HandleBeginTransmit p : keeps evolves (HandleBeginTransmit p).
Proof. unfold HandleBeginTransmit. evolve. Qed.
Lemma keeps_token_accepted c b : keeps evolves (token_accepted c b).
Proof. unfold token_accepted. evolve. Qed.
#[export] Hint Resolve keeps_HandleLoginReq keeps_HandleBeginTransmit keeps_token_accepted : tunnel.
Lemma keeps_HandleReadTokenRsp p : keeps evolves (HandleReadTokenRsp p).
Proof. unfold HandleReadTokenRsp. evolve. Qed.
Lemma keeps_HandleTrafficReportRsp p : keeps evolves (HandleTrafficReportRsp p).
Proof. unfold HandleTrafficReportRsp. evolve. Qed.
#[export] Hint Resolve keeps_HandleReadTokenRsp keeps_HandleTrafficReportRsp : tunnel.
Lemma keeps_HandleRecvMsg p n : keeps evolves (HandleRecvMsg p n).
Proof. unfold HandleRecvMsg. evolve. Qed.
#[export] Hint Resolve keeps_HandleRecvMsg : tunnel.

Lemma keeps_on_header p : keeps evolves (on_header p).
Proof. unfold on_header. evolve. Qed.
Lemma keeps_on_body p n : keeps evolves (on_body p n).
Proof. unfold on_body. evolve. Qed.
Lemma keeps_on_download p c b t n : keeps evolves (on_download p c b t n).
Proof. unfold on_download. evolve. Qed.
Lemma keeps_on_upload c b a n : keeps evolves (on_upload c b a n).
Proof. unfold on_upload. evolve. Qed.
#[export] Hint Resolve keeps_on_header keeps_on_body keeps_on_download keeps_on_upload : tunnel.
Lemma keeps_on_forward p n : keeps evolves (on_forward p n).
Proof. unfold on_forward. evolve. Qed.
#[export] Hint Resolve keeps_on_forward : tunnel.
Lemma keeps_recv_loop fuel : ∀ p fd, keeps evolves (recv_loop fuel p fd).
Proof. induction fuel as [|fuel IH]; intros p fd; cbn [recv_loop]; evolve. all: apply IH. Qed.
Lemma keeps_StreamRecvEvent p : keeps evolves (StreamRecvEvent p).
Proof.
  intros s r s' H. unfold StreamRecvEvent in H. destruct (conns s !! p); [|done].
  eapply keeps_recv_loop. exact H.
Qed.
#[export] Hint Resolve keeps_StreamRecvEvent : tunnel.

Lemma keeps_inform_one ip id : keeps evolves (inform_one ip id).
Proof. unfold inform_one. evolve. Qed.
#[export] Hint Resolve keeps_inform_one : tunnel.
Lemma keeps_inform_all ip l : keeps evolves (inform_all ip l).
Proof. induction l; cbn [inform_all]; evolve. Qed.
#[export] Hint Resolve keeps_inform_all : tunnel.
Lemma keeps_InformClients h ip : keeps evolves (InformClients h ip).
Proof. unfold InformClients. evolve. Qed.
#[export] Hint Resolve keeps_InformClients : tunnel.
Lemma keeps_inform_replies l : keeps evolves (inform_replies l).
Proof. induction l; cbn [inform_replies]; evolve. Qed.
#[export] Hint Resolve keeps_inform_replies : tunnel.
Lemma keeps_dns_loop fuel : ∀ p fd, keeps evolves (dns_loop fuel p fd).
Proof. induction fuel as [|fuel IH]; intros p fd; cbn [dns_loop]; evolve. all: apply IH. Qed.
Lemma keeps_DnsRecvEvent p : keeps evolves (DnsRecvEvent p).
Proof.
  intros s r s' H. unfold DnsRecvEvent in H. destruct (conns s !! p); [|done].
  eapply keeps_dns_loop. exact H.
Qed.
#[export] Hint Resolve keeps_DnsRecvEvent : tunnel.

(** A connection, new or already in the table under the same descriptor, entered
    under its descriptor. *)
Lemma wf_enter s s' fd p c' :
  (wf s → (conns s !! p = None ∧ p = next_ptr s ∧ next_ptr s' = p + 1)
          ∨ ∃ c, conns s !! p = Some c ∧ c_sock_fd c = fd ∧ next_ptr s' = next_ptr s) →
  conns s' = <[p := c']> (conns s) → ConnMap s' = <[fd := p]> (ConnMap s) → c_sock_fd c' = fd →
  wf s → wf s' ∧ fd_stable s s'.
Proof.
  intros Hp E1 E2 Hfd Hw. specialize (Hp Hw). destruct Hw as [Hm Hn].
  assert (p < next_ptr s' ∧ next_ptr s ≤ next_ptr s') as [Hlt Hle].
  { destruct Hp as [(_ & -> & ->)|(c & Hc & _ & ->)]; [lia|]. split; [|lia].
    destruct (decide (p < next_ptr s)); [done|]. rewrite Hn in Hc by lia. done. }
  split; [split|split]; rewrite ?E1, ?E2; [..|done|].
  - intros fd' q Hq. destruct (decide (q = p)) as [->|Hqp].
    + exists c'. rewrite lookup_insert_eq. split; [done|].
      destruct (decide (fd' = fd)) as [->|]; [done|]. rewrite lookup_insert_ne in Hq by done.
      destruct (Hm fd' p Hq) as (d & Hd & ?).
      destruct Hp as [(Hnone & _)|(c & Hc & ? & _)]; congruence.
    + destruct (decide (fd' = fd)) as [->|]; [rewrite lookup_insert_eq in Hq; congruence|].
      rewrite lookup_insert_ne in Hq by done. destruct (Hm fd' q Hq) as (d & Hd & ?).
      exists d. rewrite lookup_insert_ne by done. done.
  - intros q Hq. rewrite lookup_insert_ne by lia. apply Hn. lia.
  - intros q d Hq Hd. destruct (decide (q = p)) as [->|].
    + rewrite lookup_insert_eq in Hd. injection Hd as <-.
      destruct Hp as [(_ & -> & _)|(c & Hc & ? & _)]; [lia|]. exists c. split; congruence.
    + rewrite lookup_insert_ne in Hd by done. eauto.
Qed.

Lemma keeps_HandleAcceptEvent : keeps evolves HandleAcceptEvent.
Proof.
  unfold HandleAcceptEvent. apply keeps_bind; [typeclasses eauto|evolve|intros fd].
  destruct (0 <? fd); [|evolve]. intros s r s' H. inv_bind H. injection Hm as <- <-.
  destruct (ConnMap s !! fd) as [p|] eqn:Hp.
  - inv_bind H. inv_bind Hm. unfold set_conn in Hm0. destruct (conns s !! p) as [c|] eqn:Hc; [|done].
    injection Hm0 as <- <-. injection Hm as <- <-.
    inv_bind H. erewrite set_conn_run in Hm by heap. injection Hm as <- <-.
    inv_bind H. injection Hm as <- <-. inv_bind H. injection Hm as <- <-.
    inv_bind H. erewrite set_conn_run in Hm by heap. injection Hm as <- <-.
    injection H as <- <-. apply evolves_heap; [done|].
    eapply (wf_enter _ _ fd p); rsimpl; [|rewrite !insert_insert_eq; reflexivity|done|done].
    intros Hw. right. destruct (wf_map s Hw fd p Hp) as (c2 & Hc2 & ?). exists c. split; [done|].
    split; [congruence|done].
  - inv_bind H. injection Hm as <- <-.
    inv_bind H. erewrite set_conn_run in Hm by heap. injection Hm as <- <-.
    inv_bind H. injection Hm as <- <-. inv_bind H. injection Hm as <- <-.
    inv_bind H. erewrite set_conn_run in Hm by heap. injection Hm as <- <-.
    injection H as <- <-. apply evolves_heap; [done|].
    eapply (wf_enter _ _ fd (next_ptr s)); rsimpl; [|rewrite !insert_insert_eq; reflexivity|done|done].
    intros Hw. left. split; [apply (wf_next s Hw); lia|done].
Qed.
#[export] Hint Resolve keeps_HandleAcceptEvent : tunnel.

Lemma keeps_HandleRecvEvent fd : keeps evolves (HandleRecvEvent fd).
Proof. unfold HandleRecvEvent. evolve. Qed.
Lemma keeps_on_established p fd : keeps evolves (on_established p fd).
Proof. unfold on_established. evolve. Qed.
Lemma keeps_on_writable p fd : keeps evolves (on_writable p fd).
Proof. unfold on_writable. evolve. Qed.
#[export] Hint Resolve keeps_HandleRecvEvent keeps_on_established keeps_on_writable : tunnel.
Lemma keeps_HandleEPOEvent fd : keeps evolves (HandleEPOEvent fd).
Proof. unfold HandleEPOEvent. evolve. Qed.
#[export] Hint Resolve keeps_HandleEPOEvent : tunnel.
Lemma keeps_recv_event fuel fd ev err : keeps evolves (recv_event fuel fd ev err).
Proof. induction fuel; cbn [recv_event]; evolve. Qed.
Lemma keeps_out_event fd : keeps evolves (out_event fd).
Proof. unfold out_event. evolve. Qed.
#[export] Hint Resolve keeps_recv_event keeps_out_event : tunnel.
Lemma keeps_handle_event m ev err : keeps evolves (handle_event m ev err).
Proof. unfold handle_event. evolve. Qed.
Lemma keeps_startup ep : keeps evolves (startup ep).
Proof. unfold startup. evolve. Qed.
#[export] Hint Resolve keeps_handle_event keeps_startup : tunnel.
Lemma keeps_handle_events m evs : ∀ err, keeps evolves (handle_events m evs err).
Proof. induction evs as [|ev evs IH]; intros err; cbn [handle_events]; evolve. Qed.

(** ** Termination *)

(** [post m P]: what [m] returns satisfies [P]. *)
Definition post {A} (m : T A) (P : A → Prop) : Prop := ∀ s a s', m s = Ok (a, s') → P a.

Lemma post_ret {A} (a : A) P : P a → post (mret a) P.
Proof. intros HP s b s' [= <- _]. done. Qed.
Lemma post_bind {A B} (m : T A) (k : A → T B) P : (∀ a, post (k a) P) → post (m ≫= k) P.
Proof. intros Hk s b s' H. inv_bind H. eapply Hk. exact H. Qed.
Lemma post_fail {A} f (P : A → Prop) : post (fail_with f) P.
Proof. intros s b s' H. discriminate H. Qed.

Ltac post_step :=
  match goal with
  | |- post (mbind _ _) _ => apply post_bind; intros ?
  | |- post (mret _) _ => apply post_ret; try lia
  | |- post (fail_with _) _ => apply post_fail
  | |- post (match ?b with _ => _ end) _ => destruct b eqn:?
  | |- post ((match ?b with _ => _ end) _) _ => destruct b
  | _ => solve [auto with tunnel nocore]
  end.

(** The values the receive functions return. *)
Definition ret_ok (r : Z) : Prop := r = 0 ∨ r = -1 ∨ r = -2.

Definition next_ok (n : next) : Prop := match n with Again => True | Return r => ret_ok r end.

Lemma post_on_header p : post (on_header p) next_ok.
Proof. unfold on_header. repeat post_step; simpl; unfold ret_ok; lia. Qed.
Lemma post_on_body p n : post (on_body p n) next_ok.
Proof. unfold on_body. repeat post_step; simpl; unfold ret_ok; lia. Qed.
Lemma post_on_download p c b t n : post (on_download p c b t n) next_ok.
Proof. unfold on_download. repeat post_step; simpl; unfold ret_ok; lia. Qed.
Lemma post_on_upload c b a n : post (on_upload c b a n) next_ok.
Proof. unfold on_upload. repeat post_step; simpl; unfold ret_ok; lia. Qed.
#[local] Hint Resolve post_on_download post_on_upload : tunnel.
Lemma post_on_forward p n : post (on_forward p n) next_ok.
Proof. unfold on_forward. repeat post_step; simpl; unfold ret_ok; lia. Qed.

Lemma post_iteration p n st : post (match st with
  | s_header => on_header p | s_body => on_body p n | s_forward => on_forward p n
  | s_wait => mret Again end) next_ok.
Proof.
  destruct st; [apply post_on_header|apply post_on_body|apply post_on_forward|apply post_ret; exact I].
Qed.

Lemma read_ret fd n s k got s1 : read (S := tms) fd n s = Ok ((k, got), s1) → k ≤ 0 → ret_ok k.
Proof.
  unfold read, sock_read, ret_ok. destruct (rx_of _ _) as [avail eof].
  destruct (n =? 0); [intros [= <- _ _]; lia|].
  destruct avail; [destruct eof|]; intros [= <- _ _]; lia.
Qed.

Lemma read_dgram_ret fd n s k got s1 : read_dgram (S := tms) fd n s = Ok ((k, got), s1) → k ≤ 0 → ret_ok k.
Proof.
  unfold read_dgram, ret_ok. destruct (default _ _); intros [= <- _ _]; lia.
Qed.

Lemma post_recv_loop fuel p fd : post (recv_loop fuel p fd) ret_ok.
Proof.
  revert p fd. induction fuel as [|fuel IH]; intros p fd; cbn [recv_loop]; [apply post_fail|].
  apply post_bind. intros c s r s' H. inv_bind H. destruct a as [k got].
  destruct (Z.leb_spec k 0) as [Hk|Hk].
  { injection H as <- _. eapply read_ret; eassumption. }
  destruct (negb _); [done|]. inv_bind H. destruct (_ && _).
  { inv_bind H. injection H as <- _. unfold ret_ok. lia. }
  inv_bind H. apply post_iteration in Hm1. destruct a0 as [|r']; [eapply IH; exact H|].
  injection H as <- _. exact Hm1.
Qed.

Lemma post_dns_loop fuel p fd : post (dns_loop fuel p fd) ret_ok.
Proof.
  revert p fd. induction fuel as [|fuel IH]; intros p fd; cbn [dns_loop]; [apply post_fail|].
  intros s r s' H. inv_bind H. destruct a as [k got]. destruct (Z.leb_spec k 0) as [Hk|Hk].
  { injection H as <- _. eapply read_dgram_ret; eassumption. }
  do 5 inv_bind H. eapply IH. exact H.
Qed.

Lemma post_HandleRecvEvent fd : post (HandleRecvEvent fd) ret_ok.
Proof.
  intros s r s' H. unfold HandleRecvEvent in H. inv_bind H. destruct (_ !! _) as [p|];
    [|injection H as <- _; unfold ret_ok; lia].
  inv_bind H. inv_bind H.
  assert (ret_ok a1) as Hle.
  { destruct (_ =? t_dns) in Hm1.
    - unfold DnsRecvEvent in Hm1. destruct (_ !! _) in Hm1; [|done]. eapply post_dns_loop. exact Hm1.
    - unfold StreamRecvEvent in Hm1. destruct (_ !! _) in Hm1; [|done]. eapply post_recv_loop. exact Hm1. }
  inv_bind H. injection H as <- _. exact Hle.
Qed.

(** *** No loop is cut short *)

Lemma no_fuel_os_gets {A} (f : tms → A) : no_fuel (gets f).
Proof. apply no_fuel_gets. Qed.
Lemma no_fuel_send fd d : no_fuel (send (S := tms) fd d).
Proof. intros s. unfold send. destruct (_ <? 0); discriminate. Qed.
Lemma no_fuel_socket : no_fuel (socket (S := tms)).
Proof. intros s. unfold socket. destruct (o_socket _); discriminate. Qed.
Lemma no_fuel_connect fd ip port : no_fuel (connect (S := tms) fd ip port).
Proof. intros s. unfold connect. destruct (o_connect _) as [|[] ?]; discriminate. Qed.
Lemma no_fuel_accept : no_fuel (accept (S := tms)).
Proof. intros s. unfold accept. destruct (o_accept _); discriminate. Qed.
Lemma no_fuel_epoll_ctl op fd ev : no_fuel (epoll_ctl (S := tms) op fd ev).
Proof. intros s. unfold epoll_ctl. destruct (o_ctl _); discriminate. Qed.
Lemma no_fuel_new_conn : no_fuel new_conn.
Proof. intros s. discriminate. Qed.
Lemma no_fuel_new_scb id : no_fuel (new_scb id).
Proof. intros s. discriminate. Qed.
Lemma no_fuel_new_user : no_fuel new_user.
Proof. intros s. discriminate. Qed.
#[export] Hint Resolve no_fuel_send no_fuel_socket no_fuel_connect no_fuel_accept no_fuel_epoll_ctl
  no_fuel_new_conn no_fuel_new_scb no_fuel_new_user : tunnel.

Ltac fuel_step :=
  match goal with
  | |- no_fuel (GetDnsConn) => apply no_fuel_pool0
  | |- no_fuel (GetCenterConn) => apply no_fuel_pool0
  | |- no_fuel (GetDpiConn) => apply no_fuel_pool0
  | |- no_fuel gettimeofday => apply no_fuel_gets
  | |- no_fuel (getpeername _) => apply no_fuel_gets
  | |- no_fuel (so_error _) => apply no_fuel_gets
  | |- no_fuel errno => apply no_fuel_gets
  | |- no_fuel random => apply no_fuel_gets
  | |- no_fuel (shutdown _) => apply no_fuel_modify
  | |- no_fuel (close _) => apply no_fuel_modify
  | |- no_fuel (emit _) => apply no_fuel_modify
  | _ => walk_step
  end.

Ltac fuel := repeat fuel_step.

Lemma no_fuel_NewSCB : no_fuel NewSCB.
Proof. unfold NewSCB. fuel. Qed.
Lemma no_fuel_RecycleSCB b : no_fuel (RecycleSCB b).
Proof. unfold RecycleSCB. fuel. Qed.
Lemma no_fuel_RecordTraffic u b n : no_fuel (RecordTraffic u b n).
Proof. unfold RecordTraffic. fuel. Qed.
Lemma no_fuel_NewForwardId : no_fuel NewForwardId.
Proof. unfold NewForwardId. fuel. Qed.
Lemma no_fuel_RetrieveUser id : no_fuel (RetrieveUser id).
Proof. unfold RetrieveUser. fuel. Qed.
Lemma no_fuel_copy_host h : no_fuel (copy_host h).
Proof. unfold copy_host. fuel. Qed.
Lemma no_fuel_set_accu_start u bt : no_fuel (set_accu_start u bt).
Proof. unfold set_accu_start. fuel. Qed.
Lemma no_fuel_accumulate_or_emit u n bt et h : no_fuel (accumulate_or_emit u n bt et h).
Proof. unfold accumulate_or_emit. fuel. Qed.
Lemma no_fuel_ReportAccumulated u : no_fuel (ReportAccumulated u).
Proof. unfold ReportAccumulated. fuel. Qed.
#[export] Hint Resolve no_fuel_NewSCB no_fuel_RecycleSCB no_fuel_RecordTraffic no_fuel_NewForwardId
  no_fuel_RetrieveUser no_fuel_copy_host no_fuel_set_accu_start no_fuel_accumulate_or_emit
  no_fuel_ReportAccumulated : tunnel.

Lemma no_fuel_CreateSCB u t a : no_fuel (CreateSCB u t a).
Proof. unfold CreateSCB. fuel. Qed.
Lemma no_fuel_ReportOrAccumulate u b : no_fuel (ReportOrAccumulate u b).
Proof. unfold ReportOrAccumulate. fuel. Qed.
Lemma no_fuel_OnReportRsp u : no_fuel (OnReportRsp u).
Proof. unfold OnReportRsp. fuel. Qed.
Lemma no_fuel_ReleaseSCB u b : no_fuel (ReleaseSCB u b).
Proof. unfold ReleaseSCB. fuel. Qed.
Lemma no_fuel_ctl_event op fd ev : no_fuel (ctl_event op fd ev).
Proof. unfold ctl_event. fuel. Qed.
#[export] Hint Resolve no_fuel_CreateSCB no_fuel_ReportOrAccumulate no_fuel_OnReportRsp
  no_fuel_ReleaseSCB no_fuel_ctl_event : tunnel.
Lemma no_fuel_AddEvent fd ev : no_fuel (AddEvent fd ev).
Proof. apply no_fuel_ctl_event. Qed.
Lemma no_fuel_RemoveEvent fd ev : no_fuel (RemoveEvent fd ev).
Proof. apply no_fuel_ctl_event. Qed.
Lemma no_fuel_ModifyEvent fd ev : no_fuel (ModifyEvent fd ev).
Proof. apply no_fuel_ctl_event. Qed.
Lemma no_fuel_SendMsg p m : no_fuel (SendMsg p m).
Proof. unfold SendMsg. fuel. Qed.
Lemma no_fuel_frame m : no_fuel (S := tms) (lift (SendTmsMsg_bytes m)).
Proof. apply no_fuel_lift. unfold SendTmsMsg_bytes. case_ifs; congruence. Qed.
#[export] Hint Resolve no_fuel_AddEvent no_fuel_RemoveEvent no_fuel_ModifyEvent no_fuel_SendMsg
  no_fuel_frame : tunnel.
Lemma no_fuel_SendTmsMsg p m : no_fuel (SendTmsMsg p m).
Proof. unfold SendTmsMsg. fuel. Qed.
Lemma no_fuel_delete_conn p : no_fuel (delete_conn p).
Proof. unfold delete_conn. fuel. Qed.
#[export] Hint Resolve no_fuel_SendTmsMsg no_fuel_delete_conn : tunnel.
Lemma no_fuel_drop_peer o : no_fuel (drop_peer o).
Proof. destruct o; cbn [drop_peer]; fuel. Qed.
Lemma no_fuel_create_conn ip port i pl : no_fuel (create_conn ip port i pl).
Proof. unfold create_conn. fuel. Qed.
Lemma no_fuel_CreateAgentConn ip port : no_fuel (CreateAgentConn ip port).
Proof. unfold CreateAgentConn. fuel. Qed.
Lemma no_fuel_GetConn fd : no_fuel (GetConn fd).
Proof. unfold GetConn. fuel. Qed.
#[export] Hint Resolve no_fuel_drop_peer no_fuel_create_conn no_fuel_CreateAgentConn no_fuel_GetConn : tunnel.
Lemma no_fuel_release_stream p c u b : no_fuel (release_stream p c u b).
Proof. unfold release_stream. fuel. Qed.
#[export] Hint Resolve no_fuel_release_stream : tunnel.
Lemma no_fuel_RemoveConn fd : no_fuel (RemoveConn fd).
Proof. unfold RemoveConn. fuel. Qed.
Lemma no_fuel_InformShutdownUser fd : no_fuel (InformShutdownUser fd).
Proof. unfold InformShutdownUser. fuel. Qed.
Lemma no_fuel_ConnectWebServer u t ip port : no_fuel (ConnectWebServer u t ip port).
Proof. unfold ConnectWebServer. fuel. Qed.
#[export] Hint Resolve no_fuel_RemoveConn no_fuel_InformShutdownUser no_fuel_ConnectWebServer : tunnel.

Lemma no_fuel_login_connect p u h port : no_fuel (login_connect p u h port).
Proof. unfold login_connect. fuel. Qed.
Lemma no_fuel_copy_token a b : no_fuel (S := tms) (lift (copy_token a b)).
Proof. apply no_fuel_lift. unfold copy_token. case_ifs; congruence. Qed.
Lemma no_fuel_token_equal a b : no_fuel (S := tms) (lift (token_equal a b)).
Proof. apply no_fuel_lift. unfold token_equal. case_ifs; congruence. Qed.
#[export] Hint Resolve no_fuel_login_connect no_fuel_copy_token no_fuel_token_equal : tunnel.
Lemma no_fuel_HandleLoginReq p : no_fuel (HandleLoginReq p).
Proof. unfold HandleLoginReq. fuel. Qed.
Lemma no_fuel_HandleBeginTransmit p : no_fuel (HandleBeginTransmit p).
Proof. unfold HandleBeginTransmit. fuel. Qed.
Lemma no_fuel_token_accepted c b : no_fuel (token_accepted c b).
Proof. unfold token_accepted. fuel. Qed.
#[export] Hint Resolve no_fuel_HandleLoginReq no_fuel_HandleBeginTransmit no_fuel_token_accepted : tunnel.
Lemma no_fuel_HandleReadTokenRsp p : no_fuel (HandleReadTokenRsp p).
Proof. unfold HandleReadTokenRsp. fuel. Qed.
Lemma no_fuel_HandleTrafficReportRsp p : no_fuel (HandleTrafficReportRsp p).
Proof. unfold HandleTrafficReportRsp. fuel. Qed.
#[export] Hint Resolve no_fuel_HandleReadTokenRsp no_fuel_HandleTrafficReportRsp : tunnel.
Lemma no_fuel_HandleRecvMsg p n : no_fuel (HandleRecvMsg p n).
Proof. unfold HandleRecvMsg. fuel. Qed.
#[export] Hint Resolve no_fuel_HandleRecvMsg : tunnel.
Lemma no_fuel_on_download p c b t n : no_fuel (on_download p c b t n).
Proof. unfold on_download. fuel. Qed.
Lemma no_fuel_on_upload c b a n : no_fuel (on_upload c b a n).
Proof. unfold on_upload. fuel. Qed.
#[export] Hint Resolve no_fuel_on_download no_fuel_on_upload : tunnel.

Lemma no_fuel_iteration p n st : no_fuel (match st with
  | s_header => on_header p | s_body => on_body p n | s_forward => on_forward p n
  | s_wait => mret Again end).
Proof. destruct st; unfold on_header, on_body, on_forward; fuel. Qed.

Lemma no_fuel_read fd n : no_fuel (read (S := tms) fd n).
Proof.
  intros s. unfold read. destruct (rx_of _ _) as [avail eof]. destruct (sock_read _ _ _). discriminate.
Qed.
Lemma no_fuel_read_dgram fd n : no_fuel (read_dgram (S := tms) fd n).
Proof. intros s. unfold read_dgram. destruct (default _ _); discriminate. Qed.

Lemma read_consumes fd n s k got s1 : read fd n s = Ok ((k, got), s1) → 0 < k →
  (rx_len fd s1 < rx_len fd s)%nat.
Proof.
  unfold read, rx_len. cbn [the_os tms_os]. destruct (rx_of fd (sys s)) as [avail eof] eqn:Hrx.
  unfold sock_read. destruct (n =? 0); [intros [= <- _ _]; lia|].
  destruct avail as [|b avail]; [destruct eof; intros [= <- _ _]; lia|].
  set (got' := take (Z.to_nat n) (b :: avail)). intros [= <- _ <-] Hk.
  rewrite (proj2 (Z.ltb_lt _ _) Hk). destruct (Z.ltb_spec (Z.of_nat (length got')) 0); [lia|].
  unfold rx_of. cbn [the_os tms_os with_os]. rsimpl.
  rewrite lookup_insert_eq. cbn [default from_option id fst]. rewrite length_drop. cbn [length]. lia.
Qed.

(** A bind whose continuation needs to know where it starts. *)
Lemma bind_fuel {A B} (m : T A) (k : A → T B) s : no_fuel m → keeps evolves m →
  (∀ a s1, m s = Ok (a, s1) → evolves s s1 → k a s1 ≠ Bad OutOfFuel) →
  (m ≫= k) s ≠ Bad OutOfFuel.
Proof.
  intros Hn Hk Hc. unfold mbind, M_bind. specialize (Hn s). specialize (Hk s).
  destruct (m s) as [[a s1]|f]; [|congruence]. apply Hc; [done|]. apply (Hk a). done.
Qed.

Lemma rx_evolves fd s s' : evolves s s' → (rx_len fd s' ≤ rx_len fd s)%nat.
Proof. intros [H _ _]. destruct (H fd). done. Qed.
Lemma dgram_evolves fd s s' : evolves s s' → (dgram_len fd s' ≤ dgram_len fd s)%nat.
Proof. intros [H _ _]. destruct (H fd). done. Qed.

Lemma recv_loop_fuel fuel : ∀ p fd s, (rx_len fd s < fuel)%nat → recv_loop fuel p fd s ≠ Bad OutOfFuel.
Proof.
  induction fuel as [|fuel IH]; intros p fd s Hf; [lia|]. cbn [recv_loop].
  apply bind_fuel; [fuel|evolve|]. intros c s1 _ E1. apply (rx_evolves fd) in E1.
  apply bind_fuel; [apply no_fuel_read|evolve|]. intros [k got] s2 Hread _.
  destruct (Z.leb_spec k 0); [done|]. pose proof (read_consumes _ _ _ _ _ _ Hread ltac:(lia)) as Hlt.
  destruct (negb _); [done|]. apply bind_fuel; [fuel|evolve|]. intros _ s3 _ E3. apply (rx_evolves fd) in E3.
  destruct (_ && _).
  { apply no_fuel_bind; [apply no_fuel_set_conn|intros; apply no_fuel_ret]. }
  apply bind_fuel; [apply no_fuel_iteration|destruct (c_cstate c); evolve|].
  intros [|r] s4 _ E4; [|done]. apply (rx_evolves fd) in E4. apply IH. lia.
Qed.

Lemma no_fuel_StreamRecvEvent p : no_fuel (StreamRecvEvent p).
Proof.
  intros s. unfold StreamRecvEvent. destruct (conns s !! p) as [c|]; [|done].
  apply recv_loop_fuel. unfold rx_len. lia.
Qed.

Lemma no_fuel_inform_one ip id : no_fuel (inform_one ip id).
Proof. unfold inform_one. fuel. Qed.
#[export] Hint Resolve no_fuel_StreamRecvEvent no_fuel_inform_one : tunnel.
Lemma no_fuel_inform_all ip l : no_fuel (inform_all ip l).
Proof. induction l; cbn [inform_all]; fuel. Qed.
#[export] Hint Resolve no_fuel_inform_all : tunnel.
Lemma no_fuel_inform_replies l : no_fuel (inform_replies l).
Proof. induction l; cbn [inform_replies]; unfold InformClients; fuel. Qed.
Lemma no_fuel_res_parse b : no_fuel (S := tms) (lift (res_parse b)).
Proof. apply no_fuel_lift, res_parse_fuel. Qed.
#[export] Hint Resolve no_fuel_inform_replies no_fuel_res_parse : tunnel.

Lemma read_dgram_consumes fd n s k got s1 : read_dgram fd n s = Ok ((k, got), s1) → 0 < k →
  (dgram_len fd s1 < dgram_len fd s)%nat.
Proof.
  unfold read_dgram, dgram_len. cbn [the_os tms_os with_os].
  destruct (default [] _) as [|d ds] eqn:Hd; intros [= <- _ <-] Hk; [lia|].
  rsimpl. rewrite lookup_insert_eq. cbn. lia.
Qed.

Lemma dns_loop_fuel fuel : ∀ p fd s, (dgram_len fd s < fuel)%nat → dns_loop fuel p fd s ≠ Bad OutOfFuel.
Proof.
  induction fuel as [|fuel IH]; intros p fd s Hf; [lia|]. cbn [dns_loop].
  apply bind_fuel; [apply no_fuel_read_dgram|evolve|]. intros [k got] s1 Hread _.
  destruct (Z.leb_spec k 0); [done|]. pose proof (read_dgram_consumes _ _ _ _ _ _ Hread ltac:(lia)) as Hlt.
  do 5 (apply bind_fuel; [fuel|evolve|];
        let E := fresh "E" in intros ? ? _ E; apply (dgram_evolves fd) in E).
  apply IH. lia.
Qed.

Lemma no_fuel_DnsRecvEvent p : no_fuel (DnsRecvEvent p).
Proof.
  intros s. unfold DnsRecvEvent. destruct (conns s !! p) as [c|]; [|done].
  apply dns_loop_fuel. unfold dgram_len. lia.
Qed.
#[export] Hint Resolve no_fuel_DnsRecvEvent : tunnel.

Lemma no_fuel_HandleAcceptEvent : no_fuel HandleAcceptEvent.
Proof. unfold HandleAcceptEvent. fuel. Qed.
Lemma no_fuel_HandleRecvEvent fd : no_fuel (HandleRecvEvent fd).
Proof. unfold HandleRecvEvent. fuel. Qed.
Lemma no_fuel_HandleEPOEvent fd : no_fuel (HandleEPOEvent fd).
Proof. unfold HandleEPOEvent, on_established, on_writable. fuel. Qed.
#[export] Hint Resolve no_fuel_HandleAcceptEvent no_fuel_HandleRecvEvent no_fuel_HandleEPOEvent : tunnel.

Lemma no_fuel_recv_event fd ev err : no_fuel (recv_event 1 fd ev err).
Proof.
  intros s. cbn [recv_event]. apply bind_fuel; [fuel|evolve|]. intros r s1 Hr _.
  apply post_HandleRecvEvent in Hr. destruct Hr as [->|[->| ->]]; cbn [Z.eqb Pos.eqb].
  all: match goal with |- ?m _ ≠ _ => assert (no_fuel m) as Hn by fuel end; apply Hn.
Qed.
#[export] Hint Resolve no_fuel_recv_event : tunnel.

Lemma no_fuel_handle_event m ev err : no_fuel (handle_event m ev err).
Proof. unfold handle_event, out_event. fuel. Qed.
#[export] Hint Resolve no_fuel_handle_event : tunnel.

Lemma no_fuel_handle_events m evs : ∀ err, no_fuel (handle_events m evs err).
Proof. induction evs as [|ev evs IH]; intros err; cbn [handle_events]; fuel. Qed.

(** ** Properties *)

(** States of the server: after start-up, after each batch of events, and after
    anything the environment does to the operating system that leaves the log. *)
Inductive reachable : tms → Prop :=
  | reach_start buf acc o ep b s :
      startup ep (tms_init buf acc o) = Ok (b, s) → reachable s
  | reach_env s o : reachable s → o_log o = o_log (sys s) → reachable (s <| sys := o |>)
  | reach_events s m evs err r s' :
      reachable s → handle_events m evs err s = Ok (r, s') → reachable s'.

Lemma wf_init buf acc o : wf (tms_init buf acc o).
Proof. split; cbn; [intros fd p H; rewrite lookup_empty in H; done|intros; apply lookup_empty]. Qed.

Lemma reachable_wf s : reachable s → wf s.
Proof.
  induction 1 as [buf acc o ep b s H|s o H IH Hl|s m evs err r s' H IH Hrun].
  - apply keeps_startup in H. destruct H as [_ _ Hw]. apply Hw, wf_init.
  - destruct IH as [Hm Hn]. split; done.
  - apply keeps_handle_events in Hrun. destruct Hrun as [_ _ Hw]. apply Hw, IH.
Qed.

(** C7: in every state the server reaches from start-up through any batches of events in
    any environment, each entry of _ConnMap points to a connection that has not been
    deleted and whose sock_fd is the key of the entry. *)
Theorem conn_table_invariant s : reachable s →
  ∀ fd p, ConnMap s !! fd = Some p → ∃ c, conns s !! p = Some c ∧ c_sock_fd c = fd.
Proof. intros H. apply (wf_map s (reachable_wf s H)). Qed.

(** C28: no loop of the server is cut short by the bound the model gives it: from any
    state, a batch of events is processed to its end or to a fault of the program, never
    to the end of the fuel. *)
Theorem events_terminate m evs err s : handle_events m evs err s ≠ Bad OutOfFuel.
Proof. apply no_fuel_handle_events. Qed.

(** A server that has just started: dns 8, center 9, dpi 10. *)
Definition ex_os : os :=
  os_init <| o_socket := [8; 9; 10; 12] |> <| o_accept := [11] |>
          <| o_connect := [(0, 0); (0, 0); (0, 0); (-1, EINPROGRESS)] |>.

Definition run_or {A} (m : T A) (s : tms) : tms := match m s with Ok (_, s') => s' | Bad _ => s end.

Definition ex_boot : tms := run_or (startup 7) (tms_init (replicate 64 0) false ex_os).

Lemma ex_boot_reachable : reachable ex_boot.
Proof. eapply (reach_start (replicate 64 0) false ex_os 7 true). vm_compute. reflexivity. Qed.

(** Witness of C7. *)
Lemma conn_table_witness :
  ∃ c, conns ex_boot !! 2 = Some c ∧ c_sock_fd c = 9.
Proof. apply (conn_table_invariant ex_boot ex_boot_reachable). vm_compute. reflexivity. Defined.

End TmsInv.
