(* ===== verification/TmsProps.v ===== *)
(** * Tunnel server: authentication and relay

    The behaviour of the handlers of TmsProto.v: who is validated and when a
    connection starts to forward; the relay of uploads and downloads, byte for
    byte, with its accounting; what happens after a short write; the faults that
    follow the loss of a peer. *)

From S2P Require Import Prelude Wire Frame Os Dns TmsState TmsAccount TmsNet TmsProto TmsInv.
From stdpp Require Import base gmap list strings.
From Stdlib Require Import ZArith Lia.
Import Dns Wire Frame Os TmsState TmsAccount TmsNet TmsProto TmsInv.

Open Scope Z_scope.

Module TmsProps.

(** ** What sending a message changes *)

(** Sending changes [exit] of connections, [traffic] of streams, [balance] of
    users, and the operating system. *)
Record msg_kept (s s' : tms) : Prop := MkMsgKept {
  mk_conn : ∀ q c, conns s !! q = Some c → ∃ e, conns s' !! q = Some (c <| c_exit := e |>);
  mk_scb : ∀ b x, scbs s !! b = Some x → ∃ n, scbs s' !! b = Some (x <| sb_traffic := n |>);
  mk_user : ∀ u y, users s !! u = Some y → ∃ n, users s' !! u = Some (y <| us_balance := n |>);
  mk_map : ConnMap s' = ConnMap s;
  mk_center : CenterConnPool s' = CenterConnPool s;
  mk_dpi : DpiConnPool s' = DpiConnPool s;
}.

Lemma exit_id c : c = c <| c_exit := c_exit c |>.
Proof. destruct c; done. Qed.
Lemma traffic_id x : x = x <| sb_traffic := sb_traffic x |>.
Proof. destruct x; done. Qed.
Lemma balance_id y : y = y <| us_balance := us_balance y |>.
Proof. destruct y; done. Qed.

(** Where only the operating system and one object of each heap changed. *)
Lemma msg_kept_os s s' : conns s' = conns s → scbs s' = scbs s → users s' = users s →
  ConnMap s' = ConnMap s → CenterConnPool s' = CenterConnPool s → DpiConnPool s' = DpiConnPool s →
  msg_kept s s'.
Proof.
  intros E1 E2 E3 E4 E5 E6. split; try done; rewrite ?E1, ?E2, ?E3.
  - intros q c Hc. eexists. rewrite Hc. f_equal. apply exit_id.
  - intros b x Hx. eexists. rewrite Hx. f_equal. apply traffic_id.
  - intros u y Hy. eexists. rewrite Hy. f_equal. apply balance_id.
Qed.

#[export] Instance msg_kept_preorder : PreOrder msg_kept.
Proof.
  split; [intros s; apply msg_kept_os; done|].
  intros a b c [C1 S1 U1 M1 P1 D1] [C2 S2 U2 M2 P2 D2]. split; [..|congruence|congruence|congruence].
  - intros q x Hx. destruct (C1 q x Hx) as [e He]. destruct (C2 q _ He) as [e' He']. exists e'. exact He'.
  - intros q x Hx. destruct (S1 q x Hx) as [e He]. destruct (S2 q _ He) as [e' He']. exists e'. exact He'.
  - intros q x Hx. destruct (U1 q x Hx) as [e He]. destruct (U2 q _ He) as [e' He']. exists e'. exact He'.
Qed.

Lemma send_run fd d (s : tms) : ∃ r o, send fd d s = Ok (r, s <| sys := o |>).
Proof.
  unfold send. cbn [the_os tms_os with_os].
  destruct (match o_send (sys s) with [] => Z.of_nat (length d) | k :: _ => k end <? 0);
    eexists _, _; reflexivity.
Qed.

(** A connection whose user and stream exist. *)
Definition owner_live (c : Connect) (s : tms) : Prop :=
  ∀ u b, c_user c = Some u → c_scb c = Some b → is_Some (users s !! u) ∧ is_Some (scbs s !! b).

Lemma msg_kept_exit s p c e : conns s !! p = Some c →
  msg_kept s (s <| conns := <[p := c <| c_exit := e |>]> (conns s) |>).
Proof.
  intros Hc. destruct (msg_kept_os s s) as [C0 S0 U0 _ _ _]; [done..|]. split; try done; rsimpl.
  intros q d Hd. destruct (decide (q = p)) as [->|].
  - exists e. rewrite lookup_insert_eq. congruence.
  - rewrite lookup_insert_ne by done. apply C0, Hd.
Qed.

Lemma msg_kept_record s b x n u y m : scbs s !! b = Some x → users s !! u = Some y →
  msg_kept s (s <| scbs := <[b := x <| sb_traffic := n |>]> (scbs s) |>
                <| users := <[u := y <| us_balance := m |>]> (users s) |>).
Proof.
  intros Hx Hy. destruct (msg_kept_os s s) as [C0 S0 U0 _ _ _]; [done..|]. split; try done; rsimpl.
  - intros q d Hd. destruct (decide (q = b)) as [->|].
    + exists n. rewrite lookup_insert_eq. congruence.
    + rewrite lookup_insert_ne by done. apply S0, Hd.
  - intros q d Hd. destruct (decide (q = u)) as [->|].
    + exists m. rewrite lookup_insert_eq. congruence.
    + rewrite lookup_insert_ne by done. apply U0, Hd.
Qed.

(** The part of [SendTmsMsg] after a complete send. *)
Lemma SendTmsMsg_run p msg s c : conns s !! p = Some c → Z.of_nat (length msg) + HDR ≤ 1024 →
  owner_live c s → ∃ r s', SendTmsMsg p msg s = Ok (r, s') ∧ msg_kept s s'.
Proof.
  intros Hc Hlen Hlive.
  assert (SendTmsMsg_bytes msg = Ok (frame msg)) as Hb.
  { unfold SendTmsMsg_bytes. destruct (Z.leb_spec (Z.of_nat (length msg) + HDR) 1024); [done|lia]. }
  destruct (send_run (c_sock_fd c) (frame msg) s) as (r & o & Hsend).
  set (s1 := s <| sys := o |>) in Hsend.
  assert (msg_kept s s1) as Hk by (apply msg_kept_os; done).
  unfold SendTmsMsg.
  destruct (negb (r =? Z.of_nat (length (frame msg)))) eqn:Hr;
    [|destruct (c_type c =? t_tunnel) eqn:Hty; [destruct (c_user c) as [u|] eqn:Hu;
      [destruct (c_scb c) as [b|] eqn:Hscb|]|]].
  1, 4, 5: exists r, s1; split; [|done]; mstep; (eapply bind_run; [apply lift_run, Hb|]);
    (eapply bind_run; [exact Hsend|]); rewrite Hr, ?Hty, ?Hu; done.
  - destruct (Hlive u b Hu Hscb) as [[y Hy] [x Hx]].
    set (n := u64 (TrafficEst (accurate s) r)).
    pose proof (RecordTraffic_run u b n s1 x y Hx Hy) as Hrec.
    set (s2 := s1 <| scbs := _ |> <| users := _ |>) in Hrec.
    assert (msg_kept s s2) as Hk2 by (etransitivity; [exact Hk|]; apply msg_kept_record; done).
    destruct (negb ((if (sb_status x =? u_validated) && (i64 (us_balance y - n) <? 4000) then -1 else 0) =? 0))
      eqn:Hret.
    + exists (-1), (s2 <| conns := <[p := c <| c_exit := 1 |>]> (conns s2) |>). split.
      * mstep. eapply bind_run; [apply lift_run, Hb|]. eapply bind_run; [exact Hsend|].
        rewrite Hr, Hty, Hu. mstep. eapply bind_run; [rewrite Hscb; exact Hrec|]. rewrite Hret. cbn [orb].
        eapply bind_run; [apply set_conn_run; exact Hc|]. done.
      * etransitivity; [exact Hk2|]. apply msg_kept_exit. exact Hc.
    + exists r, s2. split; [|done].
      mstep. eapply bind_run; [apply lift_run, Hb|]. eapply bind_run; [exact Hsend|].
      rewrite Hr, Hty, Hu. mstep. eapply bind_run; [rewrite Hscb; exact Hrec|]. rewrite Hret, Hscb. done.
  - exists (-1), (s1 <| conns := <[p := c <| c_exit := 1 |>]> (conns s1) |>). split.
    + mstep. eapply bind_run; [apply lift_run, Hb|]. eapply bind_run; [exact Hsend|].
      rewrite Hr, Hty, Hu. mstep. eapply bind_run; [rewrite Hscb; apply ret_run|].
      change (negb (-1 =? 0)) with true. cbn [orb].
      eapply bind_run; [apply set_conn_run; exact Hc|]. done.
    + etransitivity; [exact Hk|]. apply msg_kept_exit. exact Hc.
Qed.

(** ** Authentication *)

(** A client of the token protocol: a tunnel with a user and a stream, and a live
    connection to the dpi. *)
Record client_ok (s : tms) (q : ptr) (cl : Connect) (b u d : ptr) (x : SCB) (y : User) (dpi : Connect) : Prop :=
  MkClientOk {
  co_conn : conns s !! q = Some cl;
  co_scb : c_scb cl = Some b;
  co_user : c_user cl = Some u;
  co_x : scbs s !! b = Some x;
  co_y : users s !! u = Some y;
  co_dpi : ∃ l, DpiConnPool s = d :: l;
  co_d : conns s !! d = Some dpi;
  co_d_type : c_type dpi = t_dpi;
  co_d_ne : d ≠ q;
}.

Lemma owner_live_kept c s s' e : msg_kept s s' → owner_live c s → owner_live (c <| c_exit := e |>) s'.
Proof.
  intros [_ S0 U0 _ _ _] Hl u b Hu Hb. destruct (Hl u b Hu Hb) as [[y Hy] [x Hx]].
  destruct (U0 u y Hy) as [? ->]. destruct (S0 b x Hx) as [? ->]. eauto.
Qed.

(** A connection that is not a tunnel is not charged. *)
Lemma SendTmsMsg_peer p msg s c : conns s !! p = Some c → Z.of_nat (length msg) + HDR ≤ 1024 →
  c_type c ≠ t_tunnel → ∃ r s', SendTmsMsg p msg s = Ok (r, s') ∧ msg_kept s s'.
Proof.
  intros Hc Hlen Hty.
  assert (SendTmsMsg_bytes msg = Ok (frame msg)) as Hb.
  { unfold SendTmsMsg_bytes. destruct (Z.leb_spec (Z.of_nat (length msg) + HDR) 1024); [done|lia]. }
  destruct (send_run (c_sock_fd c) (frame msg) s) as (r & o & Hsend).
  exists r, (s <| sys := o |>). split; [|apply msg_kept_os; done].
  unfold SendTmsMsg. mstep. eapply bind_run; [apply lift_run, Hb|]. eapply bind_run; [exact Hsend|].
  rewrite (proj2 (Z.eqb_neq _ _) Hty). destruct (negb _); done.
Qed.

Lemma token_accepted_run s q cl b u d x y dpi balance : client_ok s q cl b u d x y dpi →
  ∃ s' cl' x', token_accepted q balance s = Ok (tt, s')
    ∧ conns s' !! q = Some cl' ∧ c_sdk_verified cl' = 1
    ∧ scbs s' !! b = Some x' ∧ sb_status x' = u_validated.
Proof.
  intros [Hq Hscb Hu Hx Hy [l Hdl] Hd Hdt Hdq].
  set (cl1 := cl <| c_sdk_verified := 1 |> <| c_traffic_tmp := 0 |>).
  set (x1 := x <| sb_status := u_validated |> <| sb_traffic := u64 (sb_traffic x + c_traffic_tmp cl) |>).
  set (s1 := s <| conns := <[q := cl1]> (conns s) |> <| scbs := <[b := x1]> (scbs s) |>
               <| users := <[u := y <| us_balance := balance |>]> (users s) |>).
  assert (conns s1 !! q = Some cl1) as Hq1 by (unfold s1; heap).
  assert (owner_live cl1 s1) as Hl1.
  { intros u' b' Hu' Hb'. unfold s1, cl1 in *. rsimpl in Hu'. rsimpl in Hb'. rsimpl.
    assert (u' = u) as -> by congruence. assert (b' = b) as -> by congruence.
    rewrite !lookup_insert_eq. eauto. }
  set (m := if negb (sb_connected x =? 0)
            then SendTmsMsg q (penc (MkLoginRsp LOGIN_RSP READY balance (sb_forward_id x)))
            else SendTmsMsg q (penc (MkLoginRsp LOGIN_RSP TOKEN_VERIFIED balance 0))).
  assert (∃ r s2, m s1 = Ok (r, s2) ∧ msg_kept s1 s2) as (r & s2 & Hsend & [C2 S2 U2 M2 P2 D2]).
  { unfold m. destruct (negb _); (eapply SendTmsMsg_run; [exact Hq1|vm_compute; congruence|exact Hl1]). }
  destruct (C2 q cl1 Hq1) as [e Hq2].
  destruct (C2 d dpi) as [e' Hd2]; [unfold s1; heap|].
  destruct (default (0, 0) (o_peer (sys s2) !! c_sock_fd (cl1 <| c_exit := e |>))) as [ip port] eqn:Hpeer.
  destruct (SendTmsMsg_peer d (penc (MkSynUserTuple SYN_USER_TUPLE (c_app (cl1 <| c_exit := e |>))
    (c_mobile (cl1 <| c_exit := e |>)) ip port)) s2 _ Hd2) as (r' & s3 & Hsend3 & [C3 S3 _ _ _ _]);
    [vm_compute; congruence|rsimpl; rewrite Hdt; done|].
  destruct (C3 q _ Hq2) as [e2 Hq3].
  destruct (S2 b x1) as [n2 Hb2]; [unfold s1; heap|]. destruct (S3 b _ Hb2) as [n3 Hb3].
  eexists s3, _, _. split; [|split; [exact Hq3|split; [done|split; [exact Hb3|done]]]].
  unfold token_accepted. mstep. mstep. rsimpl. rewrite Hscb. mstep. rewrite Hu. do 5 mstep.
  rsimpl. rewrite !insert_insert_eq. fold m. eapply bind_run; [exact Hsend|].
  eapply bind_run; [apply conn_run; exact Hq2|]. eapply bind_run; [apply gets_run|].
  cbn [the_os tms_os]. rewrite Hpeer.
  eapply bind_run; [eapply pool0_run; rewrite D2; exact Hdl|].
  eapply bind_run; [exact Hsend3|]. done.
Qed.

(** The comparison of two fields that hold terminated strings. *)
Lemma token_equal_spec cl rtok : 0 ∈ c_token cl → 0 ∈ rtok →
  token_equal cl rtok = Ok (bool_decide (cstr (c_token cl) = cstr rtok)).
Proof.
  intros Ha Hr. unfold token_equal. rewrite (bool_decide_true (0 ∈ rtok)), bool_decide_true by (try apply elem_of_app; auto).
  cbn [andb]. rewrite cstr_app_in by done. done.
Qed.

Lemma token_validated_run s p c q cl b u d x y dpi :
  let r : ReadTokenRsp := pdec (c_buff c) in
  conns s !! p = Some c → client_ok s q cl b u d x y dpi →
  ConnMap s !! u64 (i32 (rr_cid r)) = Some q →
  rr_rsp_code r = 0 → 0 ∈ c_token cl → 0 ∈ drop 36 (c_buff c) → cstr (drop 36 (c_buff c)) = cstr (c_token cl) →
  ∃ s' cl' x', HandleReadTokenRsp p s = Ok (0, s')
    ∧ conns s' !! q = Some cl' ∧ c_sdk_verified cl' = 1
    ∧ scbs s' !! b = Some x' ∧ sb_status x' = u_validated.
Proof.
  intros r Hp Hcl Hmap Hcode Ha Hr Heq.
  pose proof (token_equal_spec cl _ Ha Hr) as Htok. rewrite Heq, bool_decide_true in Htok by done.
  destruct (token_accepted_run s q cl b u d x y dpi (rr_balance r) Hcl)
    as (s' & cl' & x' & Hrun & H). exists s', cl', x'. split; [|exact H].
  destruct Hcl. unfold HandleReadTokenRsp. mstep.
  eapply bind_run; [unfold GetConn; mstep; apply ret_run|]. fold r. rewrite Hmap. mstep.
  rewrite Hcode. cbn [Z.eqb negb]. eapply bind_run; [apply lift_run, Htok|]. cbn [negb].
  eapply bind_run; [exact Hrun|]. done.
Qed.

(** C20: a READ_TOKEN_RSP with code 0 and the token of the client it names validates
    that client, whichever connection it arrives on: HandleReadTokenRsp does not look at
    the type of the sender, and in the witness the sender is the unauthenticated client
    itself. *)
Theorem token_rsp_validates s p c q cl b u d x y dpi :
  let r : ReadTokenRsp := pdec (c_buff c) in
  conns s !! p = Some c → client_ok s q cl b u d x y dpi →
  ConnMap s !! u64 (i32 (rr_cid r)) = Some q →
  rr_rsp_code r = 0 → 0 ∈ c_token cl → 0 ∈ drop 36 (c_buff c) → cstr (drop 36 (c_buff c)) = cstr (c_token cl) →
  ∃ s' cl' x', HandleReadTokenRsp p s = Ok (0, s')
    ∧ conns s' !! q = Some cl' ∧ c_sdk_verified cl' = 1
    ∧ scbs s' !! b = Some x' ∧ sb_status x' = u_validated.
Proof. exact (token_validated_run s p c q cl b u d x y dpi). Qed.

(** The client as it is after [LOGIN_REQ], with the forged message in its own
    buffer: descriptor 5, its own token, a balance of its choice. *)
Definition ex_token : bytes := pad 32 (bs "secret").

Definition ex_forged : bytes :=
  pad 256 (penc (MkReadTokenRsp READ_TOKEN_RSP 0 5 10001 13800000000 1000000000 ex_token)).

Definition ex_client : Connect :=
  Connect_new ex_forged <| c_sock_fd := 5 |> <| c_user := Some 3 |> <| c_scb := Some 2 |>
    <| c_token := ex_token |>.
Definition ex_dpi : Connect := Connect_new [] <| c_sock_fd := 10 |> <| c_type := t_dpi |>.

Definition ex_logged_in : tms :=
  tms_init [] false os_init
  <| Epoll_FD := 7 |> <| next_ptr := 10 |>
  <| conns := {[ 1 := ex_client; 6 := ex_dpi ]} |>
  <| scbs := {[ 2 := ex_scb ]} |> <| users := {[ 3 := ex_user ]} |>
  <| ConnMap := {[ 5 := 1; 10 := 6 ]} |> <| CenterConnPool := [9] |> <| DpiConnPool := [6] |>.

(** Witness of C20. *)
Lemma token_rsp_witness :
  c_type ex_client = t_tunnel ∧
  ∃ s' cl' x', HandleReadTokenRsp 1 ex_logged_in = Ok (0, s')
    ∧ conns s' !! 1 = Some cl' ∧ c_sdk_verified cl' = 1
    ∧ scbs s' !! 2 = Some x' ∧ sb_status x' = u_validated.
Proof.
  split; [reflexivity|].
  apply (token_rsp_validates ex_logged_in 1 ex_client 1 ex_client 2 3 6 ex_scb ex_user ex_dpi).
  - reflexivity.
  - split; first [reflexivity | eexists; reflexivity | discriminate].
  - vm_compute. reflexivity.
  - vm_compute. reflexivity.
  - by_decide.
  - by_decide.
  - vm_compute. reflexivity.
Defined.

(** *** Rejection *)

(** Sending keeps a stream established. *)
Lemma stream_pair_kept s s' t a b u tc ac x y : msg_kept s s' → stream_pair s t a b u tc ac x y →
  ∃ e e' n m, stream_pair s' t a b u (tc <| c_exit := e |>) (ac <| c_exit := e' |>)
                (x <| sb_traffic := n |>) (y <| us_balance := m |>).
Proof.
  intros [C0 S0 U0 M0 P0 _] [].
  destruct (C0 t tc sp_t0) as [e He], (C0 a ac sp_a0) as [e' He'], (S0 b x sp_scb0) as [n Hn],
    (U0 u y sp_user0) as [m Hm].
  exists e, e', n, m. split; rsimpl; rewrite ?M0, ?P0; done.
Qed.

Lemma stream_pair_exit s t a b u tc ac x y e : stream_pair s t a b u tc ac x y →
  stream_pair (s <| conns := <[t := tc <| c_exit := e |>]> (conns s) |>) t a b u
    (tc <| c_exit := e |>) ac x y.
Proof.
  intros []. split; rsimpl; try done; [apply lookup_insert_eq|].
  rewrite lookup_insert_ne by done. done.
Qed.

Lemma token_rejected_run s p c t a b u tc ac x y :
  let r : ReadTokenRsp := pdec (c_buff c) in
  conns s !! p = Some c → stream_pair s t a b u tc ac x y → c_sock_fd tc < 2 ^ 31 →
  ConnMap s !! u64 (i32 (rr_cid r)) = Some t →
  rr_rsp_code r ≠ 0 ∨
    (0 ∈ c_token tc ∧ 0 ∈ drop 36 (c_buff c) ∧ cstr (drop 36 (c_buff c)) ≠ cstr (c_token tc)) →
  ∃ s', HandleReadTokenRsp p s = Ok (0, s')
    ∧ conns s' !! t = None ∧ conns s' !! a = None
    ∧ ConnMap s' !! c_sock_fd tc = None ∧ ConnMap s' !! c_sock_fd ac = None
    ∧ ∃ x', scbs s' !! b = Some x' ∧ sb_status x' = u_invalid ∧ sb_user x' = None.
Proof.
  intros r Hp Hpair Hfd Hmap Hbad. pose proof Hpair as [].
  destruct (SendTmsMsg_run t (penc (LoginRsp_of (rr_rsp_code r))) s tc) as (n & s1 & Hsend & Hk);
    [done|vm_compute; congruence| |].
  { intros u' b' Hu' Hb'. split; [replace u' with u by congruence|replace b' with b by congruence]; eauto. }
  destruct (stream_pair_kept _ _ _ _ _ _ _ _ _ _ Hk Hpair) as (e & e' & n1 & m1 & Hpair1).
  pose proof (sp_t _ _ _ _ _ _ _ _ _ Hpair1) as Ht1.
  apply (stream_pair_exit _ _ _ _ _ _ _ _ _ 1) in Hpair1.
  destruct (RemoveConn_pair _ _ _ _ _ _ _ _ _ Hpair1) as [(s' & Hrem & C & Mp & B & F & R) _].
  exists s'. rsimpl in Hrem. rsimpl in C. rsimpl in Mp.
  split; [|split_and!].
  - unfold HandleReadTokenRsp. mstep. eapply bind_run; [unfold GetConn; mstep; apply ret_run|].
    fold r. rewrite Hmap. mstep.
    eapply (bind_run _ _ _ false).
    { destruct (Z.eqb_spec (rr_rsp_code r) 0); cbn [negb]; [|apply ret_run].
      apply lift_run. destruct Hbad as [|(Ha & Hr & Hne)]; [done|].
      rewrite token_equal_spec, bool_decide_false by congruence || done. done. }
    cbn [negb]. eapply bind_run; [exact Hsend|].
    eapply bind_run; [apply set_conn_run; exact Ht1|]. mstep. rsimpl.
    rewrite swrap_id by range_lia. eapply bind_run; [exact Hrem|]. done.
  - rewrite C. apply lookup_delete_None. left. done.
  - rewrite C. apply lookup_delete_None. right. apply lookup_delete_None. left. done.
  - rewrite Mp. apply lookup_delete_None. left. done.
  - rewrite Mp. apply lookup_delete_None. right. apply lookup_delete_None. left. done.
  - eexists. split; [exact B|]. done.
Qed.

(** C17: when the answer to a token query carries an error code or a token that is not
    the one the client presented, the client is disconnected: tunnel and agent are
    deleted and erased from _ConnMap and the stream is reset to u_invalid. *)
Theorem token_rsp_rejects s p c t a b u tc ac x y :
  let r : ReadTokenRsp := pdec (c_buff c) in
  conns s !! p = Some c → stream_pair s t a b u tc ac x y → c_sock_fd tc < 2 ^ 31 →
  ConnMap s !! u64 (i32 (rr_cid r)) = Some t →
  rr_rsp_code r ≠ 0 ∨
    (0 ∈ c_token tc ∧ 0 ∈ drop 36 (c_buff c) ∧ cstr (drop 36 (c_buff c)) ≠ cstr (c_token tc)) →
  ∃ s', HandleReadTokenRsp p s = Ok (0, s')
    ∧ conns s' !! t = None ∧ conns s' !! a = None
    ∧ ConnMap s' !! c_sock_fd tc = None ∧ ConnMap s' !! c_sock_fd ac = None
    ∧ ∃ x', scbs s' !! b = Some x' ∧ sb_status x' = u_invalid ∧ sb_user x' = None.
Proof. exact (token_rejected_run s p c t a b u tc ac x y). Qed.

(** A failed answer from the center for the client of [ex_net]: the message is in
    the buffer of connection 8. *)
Definition ex_reject : tms :=
  ex_net <| conns := <[8 := Connect_new (pad 256 (penc (MkReadTokenRsp READ_TOKEN_RSP INCORRECT_TOKEN 5
                              10001 13800000000 0 ex_token)))]> (conns ex_net) |>.

(** Witness of C17. *)
Lemma token_reject_witness :
  ∃ s', HandleReadTokenRsp 8 ex_reject = Ok (0, s')
    ∧ conns s' !! 1 = None ∧ conns s' !! 4 = None
    ∧ ConnMap s' !! 5 = None ∧ ConnMap s' !! 6 = None
    ∧ ∃ x', scbs s' !! 2 = Some x' ∧ sb_status x' = u_invalid ∧ sb_user x' = None.
Proof.
  eapply (token_rsp_rejects ex_reject 8 _ 1 4 2 3 ex_tunnel ex_agent ex_stream ex_user).
  - reflexivity.
  - split; first [reflexivity | discriminate | vm_compute; congruence].
  - vm_compute. reflexivity.
  - vm_compute. reflexivity.
  - left. vm_compute. discriminate.
Defined.

(** *** Start of forwarding *)

(** BEGIN_TRANSMIT on a connection with a stream switches it to forward mode
    exactly when the forward id of the message is the stream's and the stream has an
    agent connection, and changes nothing otherwise. *)
Theorem begin_transmit_spec s p c b x :
  conns s !! p = Some c → c_scb c = Some b → scbs s !! b = Some x →
  HandleBeginTransmit p s
  = Ok (0, if (sb_forward_id x =? bt_forward_id (pdec (c_buff c))) && bool_decide (sb_agent_conn x ≠ None)
           then s <| conns := <[p := SwitchConnModeForw c]> (conns s) |> else s).
Proof.
  intros Hc Hb Hx. unfold HandleBeginTransmit. mstep. rewrite Hb. mstep.
  destruct (_ && _); [|done]. mstep. done.
Qed.

Definition ex_begin (id : Z) : Connect :=
  ex_tunnel <| c_buff := pad 64 (penc (MkBeginTransmit BEGIN_TRANSMIT id)) |>.

Lemma begin_transmit_witness :
  HandleBeginTransmit 1 (ex_net <| conns := <[1 := ex_begin 77]> (conns ex_net) |>)
  = Ok (0, ex_net <| conns := <[1 := ex_begin 77]> (conns ex_net) |>).
Proof.
  apply (begin_transmit_spec _ 1 (ex_begin 77) 2 ex_stream); vm_compute; reflexivity.
Defined.

(** A client that was never verified can start to forward: until the agent is
    established the stream's forward id is 0, and BEGIN_TRANSMIT with id 0 switches the
    connection to forward mode. *)
Theorem begin_transmit_unverified s p c b x a :
  conns s !! p = Some c → c_scb c = Some b → scbs s !! b = Some x →
  c_sdk_verified c = 0 → sb_status x = u_invalid → sb_forward_id x = 0 → sb_agent_conn x = Some a →
  bt_forward_id (pdec (c_buff c)) = 0 →
  ∃ s' c', HandleBeginTransmit p s = Ok (0, s') ∧ conns s' !! p = Some c'
    ∧ c_cstate c' = s_forward ∧ c_sdk_verified c' = 0.
Proof.
  intros Hc Hb Hx Hv _ Hf Ha Hm. unfold HandleBeginTransmit.
  eexists _, _. split.
  { mstep. rewrite Hb. mstep. rewrite Hf, Hm, Ha. rewrite bool_decide_true by done. cbn [Z.eqb andb].
    mstep. apply ret_run. }
  rsimpl. split; [apply lookup_insert_eq|]. done.
Qed.

Lemma begin_transmit_unverified_witness :
  ∃ s' c', HandleBeginTransmit 1 (ex_net <| conns := <[1 := ex_begin 0]> (conns ex_net) |>) = Ok (0, s')
    ∧ conns s' !! 1 = Some c' ∧ c_cstate c' = s_forward ∧ c_sdk_verified c' = 0.
Proof.
  apply (begin_transmit_unverified _ 1 (ex_begin 0) 2 ex_stream 4); vm_compute; reflexivity.
Defined.

(** ** Upload *)

(** The kernel accepts everything: the queue of short writes is empty. *)
Lemma send_all fd d (s : tms) : o_send (sys s) = [] →
  send fd d s = Ok (Z.of_nat (length d),
    s <| sys ::= fun o => o <| o_log := o_log o ++ [IoSend fd d] |> |>).
Proof.
  intros Hs. unfold send. cbn [the_os tms_os with_os]. rewrite Hs.
  destruct (Z.ltb_spec (Z.of_nat (length d)) 0); [lia|].
  rewrite Z.min_id, Nat2Z.id, take_ge by lia. do 2 f_equal.
  destruct s as [? ? ? ? ? ? ? ? ? ? ? ? ? ? ? ? ? ? ? []]. cbn in Hs. rewrite Hs. done.
Qed.

(** A [read] that finds bytes. *)
Lemma read_some fd n (s : tms) avail eof : rx_of fd (sys s) = (avail, eof) → avail ≠ [] → 0 < n →
  let got := take (Z.to_nat n) avail in
  read fd n s = Ok ((Z.of_nat (length got), got),
    s <| sys ::= fun o => o <| o_rx := <[fd := (drop (length got) avail, eof)]> (o_rx o) |> |>)
  ∧ (0 < length got)%nat.
Proof.
  intros Hrx Hne Hn got. destruct avail as [|b avail]; [done|].
  assert (0 < length got)%nat as Hgot.
  { unfold got. destruct (Z.to_nat n) eqn:E; [lia|]. cbn [take length]. lia. }
  split; [|done]. unfold read. cbn [the_os tms_os with_os]. rewrite Hrx. unfold sock_read.
  destruct (Z.eqb_spec n 0); [lia|]. fold got.
  destruct (Z.ltb_spec 0 (Z.of_nat (length got))); [|lia].
  destruct (Z.ltb_spec (Z.of_nat (length got)) 0); [lia|]. rewrite Nat2Z.id. done.
Qed.

Lemma read_none fd n (s : tms) : rx_of fd (sys s) = ([], false) → 0 < n →
  read fd n s = Ok ((-1, []), s <| sys ::= fun o => o <| o_errno := EAGAIN |> |>).
Proof.
  intros Hrx Hn. unfold read. cbn [the_os tms_os with_os]. rewrite Hrx. unfold sock_read.
  destruct (Z.eqb_spec n 0); [lia|]. done.
Qed.

(** A tunnel in forward mode with its stream. *)
Record uploading (s : tms) (t a b u : ptr) (tc ac : Connect) (x : SCB) (y : User) : Prop := MkUp {
  up_t : conns s !! t = Some tc;
  up_a : conns s !! a = Some ac;
  up_ne : t ≠ a;
  up_type : c_type tc = t_tunnel;
  up_user : c_user tc = Some u;
  up_scb : c_scb tc = Some b;
  up_state : c_cstate tc = s_forward;
  up_need : c_stillneedtoread tc = BUFF;
  up_off : c_offset tc = 0;
  up_buff : Z.of_nat (length (c_buff tc)) = BUFF;
  up_x : scbs s !! b = Some x;
  up_tunnel : sb_tunnel_conn x = Some t;
  up_agent : sb_agent_conn x = Some a;
  up_y : users s !! u = Some y;
  up_send : o_send (sys s) = [];
  up_est : accurate s = false;
}.

(** Enough balance for [n] more bytes. *)
Definition affords (x : SCB) (y : User) (n : Z) : Prop :=
  (sb_status x = u_validated → 4000 ≤ us_balance y - n) ∧ in_s 64 (us_balance y) ∧ in_s 64 (us_balance y - n).

(** One iteration of the loop moves one buffer of bytes. *)
Lemma upload_step fuel fd s t a b u tc ac x y avail : uploading s t a b u tc ac x y →
  rx_of fd (sys s) = (avail, false) → avail ≠ [] → affords x y (Z.of_nat (length avail)) →
  let got := take (Z.to_nat BUFF) avail in
  let n := Z.of_nat (length got) in
  ∃ s' tc', recv_loop (S fuel) t fd s = recv_loop fuel t fd s'
    ∧ uploading s' t a b u tc' ac (x <| sb_traffic := u64 (sb_traffic x + n) |>)
                (y <| us_balance := us_balance y - n |>)
    ∧ rx_of fd (sys s') = (drop (length got) avail, false)
    ∧ o_log (sys s') = o_log (sys s) ++ [IoSend (c_sock_fd ac) got]
    ∧ (0 < length got)%nat ∧ ConnMap s' = ConnMap s.
Proof.
  intros [] Hrx Hne (Hbal & Hr1 & Hr2) got n.
  destruct (read_some fd BUFF s avail false Hrx Hne) as [Hread Hgot]; [done|]. fold got n in Hread.
  set (s1 := s <| sys ::= _ |>) in Hread.
  assert (0 < n) as Hn0 by (unfold n; unfold got in *; lia).
  assert (n ≤ BUFF) as Hn by (unfold n, got; rewrite length_take; unfold BUFF; lia).
  assert (n ≤ Z.of_nat (length avail)) as Hn' by (unfold n, got; rewrite length_take; lia).
  set (tc1 := tc <| c_buff := blit 0 got (c_buff tc) |>).
  set (s2 := s1 <| conns := <[t := tc1]> (conns s1) |>).
  assert (u64 n = n) as Hu64 by (apply wrap_id; unfold BUFF in Hn; range_lia).
  assert (i64 (us_balance y - n) = us_balance y - n) as Hi64 by (apply swrap_id; [lia|]; range_lia).
  pose proof (RecordTraffic_run u b n s2 x y) as Hrec. rewrite Hi64 in Hrec.
  replace ((sb_status x =? u_validated) && (us_balance y - n <? 4000)) with false in Hrec.
  2:{ destruct (Z.eqb_spec (sb_status x) u_validated); [|done].
      destruct (Z.ltb_spec (us_balance y - n) 4000); [|done]. specialize (Hbal e). lia. }
  specialize (Hrec ltac:(done) ltac:(done)).
  set (s3 := s2 <| scbs := _ |> <| users := _ |>) in Hrec.
  assert (take (Z.to_nat n) (c_buff tc1) = got) as Htake.
  { unfold tc1, n. rsimpl. rewrite Nat2Z.id. change (length got) with (0 + length got)%nat.
    rewrite blit_take by (unfold n in Hn; cbn [Nat.add]; lia). reflexivity. }
  pose proof (send_all (c_sock_fd ac) got s3 up_send0) as Hsend.
  set (s4 := s3 <| sys ::= _ |>) in Hsend. exists s4, tc1. split.
  { cbn [recv_loop]. mstep. rewrite up_need0. eapply bind_run; [exact Hread|].
    cbv beta iota. rewrite (proj2 (Z.leb_gt n 0) Hn0). rewrite up_off0, up_buff0.
    rewrite (proj2 (Z.leb_le (0 + n) BUFF) Hn). cbn [negb].
    eapply bind_run; [apply set_conn_run; exact up_t0|]. rewrite up_state0.
    rewrite bool_decide_false by auto. cbn [andb].
    eapply (bind_run _ _ _ Again s4); [|done]. unfold on_forward. rewrite up_off0. change (Z.to_nat 0) with 0%nat. fold tc1.
    change (s1 <| conns := <[t := tc1]> (conns s1) |>) with s2.
    eapply bind_run; [apply (conn_run t s2 tc1); apply lookup_insert_eq|].
    change (c_scb tc1) with (c_scb tc). rewrite up_scb0.
    eapply bind_run; [apply scb_at_run; exact up_x0|]. rewrite up_tunnel0, up_agent0.
    change (c_type tc1) with (c_type tc). rewrite up_type0. cbn [Z.eqb t_tunnel t_agent].
    unfold on_upload. eapply bind_run; [apply gets_run|]. change (accurate s2) with (accurate s).
    rewrite up_est0. cbn [TrafficEst]. rewrite Hu64. change (c_user tc1) with (c_user tc). rewrite up_user0.
    eapply bind_run; [exact Hrec|]. cbn [Z.eqb negb].
    eapply bind_run; [apply (conn_run a _ ac); unfold s3, s2, s1; heap|].
    rewrite Htake. eapply bind_run; [exact Hsend|]. done. }
  split_and!.
  - split; try done; unfold s4, s3, s2, s1, tc1; rsimpl; try done.
    + apply lookup_insert_eq.
    + rewrite lookup_insert_ne by done. done.
    + rewrite length_blit by (cbn; unfold n in Hn; lia). done.
    + apply lookup_insert_eq.
    + apply lookup_insert_eq.
  - unfold s4, s3, s2, s1, rx_of. rsimpl. rewrite lookup_insert_eq. done.
  - done.
  - done.
  - done.
Qed.

Lemma upload_loop fd t a b u ac : ∀ fuel s tc x y avail, (length avail < fuel)%nat →
  uploading s t a b u tc ac x y → rx_of fd (sys s) = (avail, false) →
  affords x y (Z.of_nat (length avail)) →
  ∃ s' x' y', recv_loop fuel t fd s = Ok (-1, s')
    ∧ rx_of fd (sys s') = ([], false) ∧ o_errno (sys s') = EAGAIN
    ∧ sent_to (c_sock_fd ac) (o_log (sys s')) = sent_to (c_sock_fd ac) (o_log (sys s)) ++ avail
    ∧ scbs s' !! b = Some x' ∧ u64 (sb_traffic x') = u64 (sb_traffic x + Z.of_nat (length avail))
    ∧ users s' !! u = Some y' ∧ us_balance y' = us_balance y - Z.of_nat (length avail)
    ∧ ConnMap s' = ConnMap s.
Proof.
  induction fuel as [|fuel IH]; intros s tc x y avail Hf Hup Hrx Haff; [lia|].
  destruct (decide (avail = [])) as [->|Hne].
  - destruct Hup. eexists _, x, y. split.
    { cbn [recv_loop]. mstep. rewrite up_need0. eapply bind_run; [apply read_none; [exact Hrx|done]|].
      apply ret_run. }
    rsimpl. cbn [length Z.of_nat]. rewrite app_nil_r, Z.add_0_r, Z.sub_0_r.
    split_and!; done.
  - destruct (upload_step fuel fd s t a b u tc ac x y avail Hup Hrx Hne Haff)
      as (s1 & tc1 & Hstep & Hup1 & Hrx1 & Hlog1 & Hgot & Hmap1).
    set (got := take (Z.to_nat BUFF) avail) in *. set (rest := drop (length got) avail) in *.
    assert (avail = got ++ rest) as Hav.
    { unfold rest. replace (length got) with (Nat.min (Z.to_nat BUFF) (length avail))
        by (unfold got; rewrite length_take; done).
      unfold got. rewrite <- (take_drop (Z.to_nat BUFF) avail) at 1. f_equal.
      destruct (decide (Z.to_nat BUFF ≤ length avail)%nat);
        [rewrite Nat.min_l by done; done|rewrite !drop_ge by lia; done]. }
    assert (Z.of_nat (length avail) = Z.of_nat (length got) + Z.of_nat (length rest)) as Hlen
      by (rewrite Hav at 1; rewrite length_app; lia).
    set (x1 := x <| sb_traffic := _ |>) in Hup1. set (y1 := y <| us_balance := _ |>) in Hup1.
    destruct (IH s1 tc1 x1 y1 rest) as (s' & x' & y' & Hrun & H1 & H2 & H3 & H4 & H5 & H6 & H7 & H8);
      [lia|exact Hup1|exact Hrx1| |].
    { destruct Haff as (Hb & Hr1 & Hr2). unfold affords, x1, y1. rsimpl. split_and!; [|range_lia..].
      intros Hs. specialize (Hb Hs). lia. }
    exists s', x', y'. rewrite Hstep. unfold x1 in H5. unfold y1 in H7. rsimpl in H5. rsimpl in H7.
    split; [exact Hrun|]. split; [done|]. split; [done|].
    split; [rewrite H3, Hlog1, sent_to_app; unfold sent_to at 2; cbn [map concat];
            rewrite Z.eqb_refl, app_nil_r, <- app_assoc, <- Hav; done|].
    split; [done|]. split; [rewrite H5, wrap_add_l; f_equal; lia|].
    split; [done|]. split; [lia|congruence].
Qed.


(** The stream of [ex_net] in forward mode, the client validated with a balance,
    and nine bytes waiting. *)
Definition ex_up_tunnel : Connect :=
  ex_tunnel <| c_cstate := s_forward |> <| c_stillneedtoread := BUFF |> <| c_buff := replicate 8192 0 |>.
Definition ex_up_stream : SCB := ex_stream <| sb_status := u_validated |>.
Definition ex_up_user : User := ex_user <| us_balance := 100000 |>.
Definition ex_up : tms :=
  ex_net <| conns := {[ 1 := ex_up_tunnel; 4 := ex_agent ]} |> <| scbs := {[ 2 := ex_up_stream ]} |>
         <| users := {[ 3 := ex_up_user ]} |>
         <| sys := os_init <| o_rx := {[ 5 := (bs "GET / ...", false) ]} |> |>.


(** ** Download after a short write *)

Lemma ctl_event_sent op fd ev (s : tms) :
  ∃ r o, ctl_event op fd ev s = Ok (r, s <| sys := o |>) ∧ o_send o = o_send (sys s)
    ∧ ∀ fd', sent_to fd' (o_log o) = sent_to fd' (o_log (sys s)).
Proof.
  assert (s = s <| sys := sys s |>) as Hs by (destruct s; done).
  assert (∀ fd' l, sent_to fd' (l ++ [IoEpoll op fd ev]) = sent_to fd' l) as Hl.
  { intros fd' l. rewrite sent_to_app. apply app_nil_r. }
  unfold ctl_event, epoll_ctl, mbind, M_bind, gets.
  destruct (_ || _ || _).
  - exists (-1), (sys s). rewrite <- Hs. done.
  - cbn [the_os tms_os with_os]. destruct (o_ctl (sys s)) as [|k ks].
    + eexists 0, _. split; [reflexivity|]. split; [done|]. intros. rsimpl. apply Hl.
    + destruct (k =? -1), (k <? 0);
        (eexists _, _; split; [reflexivity|]; split; [done|]; intros; rsimpl; apply Hl).
Qed.

(** [send], whatever the kernel accepts. *)
Lemma send_sent fd d (s : tms) :
  ∃ r k o, send fd d s = Ok (r, s <| sys := o |>) ∧ (k ≤ length d)%nat
    ∧ sent_to fd (o_log o) = sent_to fd (o_log (sys s)) ++ take k d
    ∧ (r = Z.of_nat k ∨ (r = -1 ∧ k = 0%nat))
    ∧ o_send o = tail (o_send (sys s)) ∧ (o_send (sys s) = [] → k = length d ∧ r = Z.of_nat k).
Proof.
  unfold send. cbn [the_os tms_os with_os].
  set (n := match o_send (sys s) with [] => Z.of_nat (length d) | k :: _ => k end).
  destruct (Z.ltb_spec n 0).
  - eexists (-1), 0%nat, _. split; [reflexivity|]. split; [lia|]. rsimpl. cbn [take].
    split; [rewrite app_nil_r; done|]. split; [auto|]. split; [done|]. intros E. unfold n in H. rewrite E in H. lia.
  - eexists _, (Z.to_nat (Z.min n (Z.of_nat (length d)))), _. split; [reflexivity|]. split; [lia|]. rsimpl.
    split; [rewrite sent_to_app; f_equal; unfold sent_to; cbn [map concat]; rewrite Z.eqb_refl, app_nil_r; done|].
    split; [left; lia|]. split; [done|]. intros E. unfold n. rewrite E. lia.
Qed.

(** A tunnel [p] whose agent [g] holds unsent bytes. *)
Record resuming (s : tms) (p g b u : ptr) (c ac : Connect) (x : SCB) (y : User) : Prop := MkResuming {
  rs_c : conns s !! p = Some c;
  rs_a : conns s !! g = Some ac;
  rs_ne : p ≠ g;
  rs_scb : c_scb c = Some b;
  rs_user : c_user c = Some u;
  rs_x : scbs s !! b = Some x;
  rs_agent : sb_agent_conn x = Some g;
  rs_y : users s !! u = Some y;
  rs_len : 0 < c_datalen ac < 2 ^ 16;
  rs_off : 0 ≤ c_offset ac;
  rs_fit : c_offset ac + c_datalen ac ≤ Z.of_nat (length (c_buff ac)) ≤ BUFF;
}.

(** The bytes of an agent that are to be written next. *)
Definition unsent (ac : Connect) : bytes :=
  sub (Z.to_nat (c_offset ac)) (Z.to_nat (c_datalen ac)) (c_buff ac).

Lemma length_unsent s p g b u c ac x y : resuming s p g b u c ac x y →
  length (unsent ac) = Z.to_nat (c_datalen ac).
Proof. intros []. apply length_sub. lia. Qed.

(** The agent after [k] of its bytes were written. *)
Definition after_write (ac : Connect) (k : nat) : Connect :=
  if Z.of_nat k =? c_datalen ac
  then ac <| c_offset := 0 |> <| c_stillneedtoread := BUFF |> <| c_status := sta_online |>
  else ac <| c_offset := c_offset ac + Z.of_nat k |> <| c_datalen := c_datalen ac - Z.of_nat k |>.

Lemma unsent_after ac k : Z.of_nat k < c_datalen ac → 0 ≤ c_offset ac →
  unsent (after_write ac k) = drop k (unsent ac).
Proof.
  intros Hk Ho. unfold after_write. destruct (Z.eqb_spec (Z.of_nat k) (c_datalen ac)); [lia|].
  unfold unsent. rsimpl. unfold sub. rewrite skipn_firstn_comm, drop_drop.
  replace (Z.to_nat (c_offset ac + Z.of_nat k)) with (Z.to_nat (c_offset ac) + k)%nat by lia.
  replace (Z.to_nat (c_datalen ac - Z.of_nat k)) with (Z.to_nat (c_datalen ac) - k)%nat by lia. done.
Qed.

(** The update of the agent in [on_writable]. *)
Definition update_agent (g : ptr) (ac : Connect) (w : Z) : T unit :=
  if w =? c_datalen ac then
    set_conn g (fun c => c <| c_offset := 0 |> <| c_stillneedtoread := BUFF |> <| c_status := sta_online |>);;
    _ ← AddEvent (c_sock_fd ac) EPOLLIN;
    mret tt
  else if 0 <? w then
    set_conn g (fun c => c <| c_offset := u16 (c_offset c + w) |> <| c_datalen := u16 (c_datalen c - w) |>)
  else mret tt.

Lemma update_agent_run s g ac w k : conns s !! g = Some ac → 0 < c_datalen ac < 2 ^ 16 →
  0 ≤ c_offset ac → c_offset ac + c_datalen ac ≤ BUFF → Z.of_nat k ≤ c_datalen ac →
  (w = Z.of_nat k ∨ w = -1 ∧ k = 0%nat) →
  ∃ o, update_agent g ac w s
       = Ok (tt, s <| conns := (if (k =? 0)%nat then conns s else <[g := after_write ac k]> (conns s)) |>
                   <| sys := o |>)
    ∧ o_send o = o_send (sys s) ∧ ∀ f, sent_to f (o_log o) = sent_to f (o_log (sys s)).
Proof.
  intros Ha Hlen Hoff Hfit Hk Hw. unfold update_agent, after_write.
  assert (s <| conns := conns s |> <| sys := sys s |> = s) as Hid by (destruct s; done).
  destruct Hw as [->|[-> ->]].
  - destruct (Z.eqb_spec (Z.of_nat k) (c_datalen ac)) as [E|E].
    + destruct (Nat.eqb_spec k 0); [lia|].
      destruct (ctl_event_sent EPOLL_CTL_ADD (c_sock_fd ac) EPOLLIN
        (s <| conns := <[g := ac <| c_offset := 0 |> <| c_stillneedtoread := BUFF |>
                                 <| c_status := sta_online |>]> (conns s) |>))
        as (r & o & Hctl & Hq & Hsent).
      exists o. split; [|done]. eapply bind_run; [apply set_conn_run; exact Ha|].
      eapply bind_run; [exact Hctl|]. done.
    + exists (sys s). split; [|done].
      destruct (Z.ltb_spec 0 (Z.of_nat k)); destruct (Nat.eqb_spec k 0); try lia; [|rewrite Hid; done].
      erewrite set_conn_run by exact Ha. rewrite !wrap_id by (unfold BUFF in *; range_lia).
      clear. destruct s; done.
  - exists (sys s). split; [|done]. destruct (Z.eqb_spec (-1) (c_datalen ac)); [lia|].
    cbn [Nat.eqb]. rewrite Hid. done.
Qed.

(** One writable event, whatever the kernel accepts. *)
Lemma on_writable_run s p g b u c ac x y fd : resuming s p g b u c ac x y →
  ∃ r s' k x' y', on_writable p fd s = Ok (r, s')
    ∧ (k ≤ length (unsent ac))%nat
    ∧ sent_to fd (o_log (sys s')) = sent_to fd (o_log (sys s)) ++ take k (unsent ac)
    ∧ conns s' = (if (k =? 0)%nat then conns s else <[g := after_write ac k]> (conns s))
    ∧ (Z.of_nat k < c_datalen ac → unsent (after_write ac k) = drop k (unsent ac))
    ∧ scbs s' !! b = Some x' ∧ sb_agent_conn x' = Some g ∧ users s' !! u = Some y'
    ∧ o_send (sys s') = tail (o_send (sys s)) ∧ (o_send (sys s) = [] → k = length (unsent ac)).
Proof.
  intros Hr. pose proof (length_unsent _ _ _ _ _ _ _ _ _ Hr) as Hlen. destruct Hr.
  destruct (send_sent fd (unsent ac) s) as (w & k & o & Hsend & Hk & Hsent & Hw & Hq & Hall).
  rewrite Hlen in Hk.
  destruct (update_agent_run (s <| sys := o |>) g ac w k) as (o2 & Hupd & Ho2 & Hl2); [done|done|lia..|done|].
  set (s2 := s <| sys := o |> <| conns := _ |> <| sys := o2 |>) in Hupd.
  assert (∀ r' s', (if 0 <? w then acc ← gets accurate;
      cret ← RecordTraffic (c_user c) (Some b) (u64 (TrafficEst acc w)); if cret =? -1 then mret (-1) else mret 0
      else mret 0) s2 = Ok (r', s') → on_writable p fd s = Ok (r', s')) as Hfin.
  { intros r' s' H. unfold on_writable. mstep. rewrite rs_scb0. mstep. mstep. rewrite rs_agent0. mstep. mstep.
    rewrite (proj2 (Z.eqb_neq (c_datalen ac) 0)) by lia. eapply bind_run; [exact Hsend|].
    eapply bind_run; [exact Hupd|]. exact H. }
  assert (∃ r s' x' y', on_writable p fd s = Ok (r, s') ∧ sys s' = o2 ∧ conns s' = conns s2
    ∧ scbs s' !! b = Some x' ∧ sb_agent_conn x' = Some g ∧ users s' !! u = Some y')
    as (r & s' & x' & y' & Hrun & Hsys & Hc & Hx' & Ha' & Hy').
  { destruct (0 <? w).
    - pose proof (RecordTraffic_run u b (u64 (TrafficEst (accurate s2) w)) s2 x y rs_x0 rs_y0) as Hrec.
      set (q := if _ && _ then -1 else 0) in Hrec.
      eexists (if q =? -1 then -1 else 0), _, _, _. split.
      { apply Hfin. mstep. rewrite rs_user0. eapply bind_run; [exact Hrec|]. destruct (q =? -1); reflexivity. }
      rsimpl. rewrite !lookup_insert_eq. done.
    - exists 0, s2, x, y. split; [apply Hfin; reflexivity|done]. }
  exists r, s', k, x', y'. rewrite Hsys, Hc, Hlen, Hl2, Ho2. split_and!; try done.
  - intros Hlt. apply unsent_after; lia.
  - intros E. apply Hall in E. lia.
Qed.

(** When the tunnel of a hung download becomes writable, whatever number of bytes
    the kernel accepts, what is written is the prefix of the bytes the agent still
    holds, and if some are left the agent holds exactly the rest. *)
Theorem writable_resumes s p g b u c ac x y fd : resuming s p g b u c ac x y →
  ∃ r s' k, on_writable p fd s = Ok (r, s')
    ∧ (k ≤ length (unsent ac))%nat
    ∧ sent_to fd (o_log (sys s')) = sent_to fd (o_log (sys s)) ++ take k (unsent ac)
    ∧ conns s' = (if (k =? 0)%nat then conns s else <[g := after_write ac k]> (conns s))
    ∧ (Z.of_nat k < c_datalen ac → unsent (after_write ac k) = drop k (unsent ac)).
Proof.
  intros Hr. destruct (on_writable_run s p g b u c ac x y fd Hr) as (r & s' & k & x' & y' & H).
  exists r, s', k. intuition.
Qed.

(** The stream of [ex_up] after a short write of the download [abcdefgh]: three
    bytes went out. *)
Definition ex_hung : Connect :=
  ex_agent <| c_buff := bs "abcdefgh" |> <| c_offset := 3 |> <| c_datalen := 5 |> <| c_status := sta_hangup |>.
Definition ex_down (sends : list Z) : tms :=
  ex_up <| conns := {[ 1 := ex_up_tunnel; 4 := ex_hung ]} |> <| sys := os_init <| o_send := sends |> |>.

Lemma ex_resuming sends : resuming (ex_down sends) 1 4 2 3 ex_up_tunnel ex_hung ex_up_stream ex_up_user.
Proof. split; first [reflexivity | discriminate | vm_compute; split; congruence | vm_compute; congruence]. Qed.

Lemma writable_resumes_witness :
  ∃ r s' k, on_writable 1 5 (ex_down [2]) = Ok (r, s')
    ∧ (k ≤ length (unsent ex_hung))%nat
    ∧ sent_to 5 (o_log (sys s')) = sent_to 5 [] ++ take k (unsent ex_hung)
    ∧ conns s' = (if (k =? 0)%nat then conns (ex_down [2])
                  else <[4 := after_write ex_hung k]> (conns (ex_down [2])))
    ∧ (Z.of_nat k < 5 → unsent (after_write ex_hung k) = drop k (unsent ex_hung)).
Proof.
  apply (writable_resumes (ex_down [2]) 1 4 2 3 ex_up_tunnel ex_hung ex_up_stream ex_up_user 5).
  apply ex_resuming.
Defined.

(** After a hung download has been written out in full, the next writable event of
    the tunnel sends the start of the buffer again, because datalen is not cleared: the
    client receives bytes that are not part of the answer. *)
Theorem writable_twice_resends s p g b u c ac x y fd :
  resuming s p g b u c ac x y → o_send (sys s) = [] →
  ∃ r1 s1 r2 s2, on_writable p fd s = Ok (r1, s1) ∧ on_writable p fd s1 = Ok (r2, s2)
    ∧ sent_to fd (o_log (sys s2))
      = sent_to fd (o_log (sys s)) ++ unsent ac ++ take (Z.to_nat (c_datalen ac)) (c_buff ac).
Proof.
  intros Hr Hs. pose proof (length_unsent _ _ _ _ _ _ _ _ _ Hr) as Hlen. pose proof Hr as [].
  destruct (on_writable_run s p g b u c ac x y fd Hr)
    as (r1 & s1 & k & x1 & y1 & Hrun1 & _ & Hsent1 & Hc1 & _ & Hx1 & Ha1 & Hy1 & Hq1 & Hall1).
  rewrite (Hall1 Hs) in *. clear Hall1.
  destruct (Nat.eqb_spec (length (unsent ac)) 0); [lia|].
  set (ac1 := after_write ac (length (unsent ac))) in Hc1.
  assert (ac1 = ac <| c_offset := 0 |> <| c_stillneedtoread := BUFF |> <| c_status := sta_online |>) as E.
  { unfold ac1, after_write. destruct (Z.eqb_spec (Z.of_nat (length (unsent ac))) (c_datalen ac)); [done|lia]. }
  assert (resuming s1 p g b u c ac1 x1 y1) as Hr1.
  { split; rewrite ?Hc1, ?E; rsimpl; try done; try lia.
    - rewrite lookup_insert_ne by done. done.
    - apply lookup_insert_eq. }
  destruct (on_writable_run s1 p g b u c ac1 x1 y1 fd Hr1)
    as (r2 & s2 & k2 & x2 & y2 & Hrun2 & _ & Hsent2 & _ & _ & _ & _ & _ & _ & Hall2).
  rewrite Hq1, Hs in Hall2. rewrite (Hall2 eq_refl) in Hsent2.
  exists r1, s1, r2, s2. split; [done|]. split; [done|].
  rewrite Hsent2, Hsent1, !take_ge, <- app_assoc by lia. f_equal. f_equal.
  rewrite E. unfold unsent. rsimpl. unfold sub. rewrite drop_0. done.
Qed.

Lemma writable_twice_witness :
  ∃ r1 s1 r2 s2, on_writable 1 5 (ex_down []) = Ok (r1, s1) ∧ on_writable 1 5 s1 = Ok (r2, s2)
    ∧ sent_to 5 (o_log (sys s2)) = sent_to 5 [] ++ bs "defgh" ++ bs "abcde".
Proof.
  apply (writable_twice_resends (ex_down []) 1 4 2 3 ex_up_tunnel ex_hung ex_up_stream ex_up_user 5);
    [apply ex_resuming|reflexivity].
Defined.

(** ** Insufficient balance *)

(** When an upload exhausts the balance and errno still holds EAGAIN from an
    earlier read, the event loop takes the -1 for an empty socket: the bytes read are
    dropped but both connections stay open. *)
Theorem insufficient_balance_kept s t a b u tc ac x y avail ev err :
  uploading s t a b u tc ac x y → ConnMap s !! c_sock_fd tc = Some t →
  rx_of (c_sock_fd tc) (sys s) = (avail, false) → avail ≠ [] →
  let n := Z.of_nat (length (take (Z.to_nat BUFF) avail)) in
  sb_status x = u_validated → in_s 64 (us_balance y - n) → us_balance y - n < 4000 →
  o_errno (sys s) = EAGAIN →
  ∃ s', recv_event 1 (c_sock_fd tc) ev err s = Ok (true, s')
    ∧ ConnMap s' = ConnMap s ∧ is_Some (conns s' !! t) ∧ is_Some (conns s' !! a)
    ∧ o_log (sys s') = o_log (sys s).
Proof.
  intros [] Hmap Hrx Hne n Hst Hrange Hbal Herr. set (fd := c_sock_fd tc) in *.
  destruct (read_some fd BUFF s avail false Hrx Hne) as [Hread Hgot]; [done|]. fold n in Hread.
  set (got := take (Z.to_nat BUFF) avail) in *. set (s1 := s <| sys ::= _ |>) in Hread.
  assert (0 < n ∧ n ≤ BUFF) as [Hn0 Hn] by (unfold n, got in *; rewrite length_take in *; unfold BUFF in *; lia).
  set (tc1 := tc <| c_buff := blit 0 got (c_buff tc) |>).
  set (s2 := s1 <| conns := <[t := tc1]> (conns s1) |>).
  pose proof (RecordTraffic_run u b n s2 x y up_x0 up_y0) as Hrec.
  rewrite (swrap_id 64 (us_balance y - n)), Hst, (proj2 (Z.ltb_lt _ _) Hbal) in Hrec by (done || lia).
  cbn [andb Z.eqb u_validated Pos.eqb] in Hrec. set (s3 := s2 <| scbs := _ |> <| users := _ |>) in Hrec.
  exists s3. split; [|unfold s3, s2, s1; rsimpl; split_and!; [done|rewrite lookup_insert_eq; done
    |rewrite lookup_insert_ne by done; rewrite up_a0; done|done]].
  assert (StreamRecvEvent t s = Ok (-1, s3)) as Hev.
  { unfold StreamRecvEvent. rewrite up_t0. fold fd. rewrite Hrx. cbn [recv_loop fst].
    mstep. rewrite up_need0. eapply bind_run; [exact Hread|]. cbv beta iota.
    rewrite (proj2 (Z.leb_gt n 0) Hn0), up_off0, up_buff0, (proj2 (Z.leb_le (0 + n) BUFF) Hn). cbn [negb].
    eapply bind_run; [apply set_conn_run; exact up_t0|]. rewrite up_state0.
    rewrite bool_decide_false by auto. cbn [andb]. rewrite up_off0. change (Z.to_nat 0) with 0%nat. fold tc1.
    change (s1 <| conns := <[t := tc1]> (conns s1) |>) with s2.
    eapply (bind_run _ _ _ (Return (-1)) s3); [|done]. unfold on_forward.
    eapply bind_run; [apply (conn_run t s2 tc1); apply lookup_insert_eq|].
    change (c_scb tc1) with (c_scb tc). rewrite up_scb0.
    eapply bind_run; [apply scb_at_run; exact up_x0|]. rewrite up_tunnel0, up_agent0.
    change (c_type tc1) with (c_type tc). rewrite up_type0. cbn [Z.eqb t_tunnel t_agent].
    unfold on_upload. eapply bind_run; [apply gets_run|]. change (accurate s2) with (accurate s).
    rewrite up_est0. cbn [TrafficEst]. rewrite wrap_id by (unfold BUFF in Hn; range_lia).
    change (c_user tc1) with (c_user tc). rewrite up_user0. eapply bind_run; [exact Hrec|]. done. }
  cbn [recv_event]. eapply bind_run.
  { unfold HandleRecvEvent. mstep. rewrite Hmap. mstep. rewrite up_type0. cbn [Z.eqb t_tunnel t_dns].
    eapply bind_run; [exact Hev|]. cbn [Z.eqb Pos.eqb negb]. eapply bind_run; [apply ret_run|]. apply ret_run. }
  cbn [Z.eqb Pos.eqb]. eapply bind_run; [apply gets_run|]. cbn [the_os tms_os].
  change (o_errno (sys s3)) with (o_errno (sys s)). rewrite Herr. done.
Qed.

Definition ex_poor : tms :=
  ex_up <| users := {[ 3 := ex_user <| us_balance := 4005 |> ]} |> <| sys ::= fun o => o <| o_errno := EAGAIN |> |>.

Lemma insufficient_balance_witness :
  ∃ s', recv_event 1 5 EPOLLIN 0 ex_poor = Ok (true, s')
    ∧ ConnMap s' = ConnMap ex_poor ∧ is_Some (conns s' !! 1) ∧ is_Some (conns s' !! 4)
    ∧ o_log (sys s') = o_log (sys ex_poor).
Proof.
  eapply (insufficient_balance_kept ex_poor 1 4 2 3 ex_up_tunnel ex_agent ex_up_stream _ (bs "GET / ...")).
  - split; first [reflexivity | discriminate].
  - reflexivity.
  - vm_compute. reflexivity.
  - discriminate.
  - reflexivity.
  - vm_compute. split; congruence.
  - vm_compute. reflexivity.
  - reflexivity.
Defined.

(** ** A whole session *)

(** Bytes that arrive on a socket between two batches of events. *)
Definition feed (fd : Z) (l : bytes) : T unit :=
  modify (fun s => s <| sys ::= fun o =>
    o <| o_rx := <[fd := ((rx_of fd o).1 ++ l, (rx_of fd o).2)]> (o_rx o) |> |>).

Definition ex_login : bytes := penc (MkLoginReq LOGIN_REQ 10001 13800000000 ex_token 80 7) ++ bs "1.2.3.4".
Definition ex_token_rsp (cid code : Z) : bytes :=
  penc (MkReadTokenRsp READ_TOKEN_RSP code cid 10001 13800000000 1000000 ex_token).

(** Start, accept (11), login to an address (agent 12), the center accepts the
    token, the agent's connection is established. *)
Definition ex_login_session : T Z :=
  _ ← startup 7;
  e ← handle_events 3 [(3, EPOLLIN)] 0;
  feed 11 (frame ex_login);;
  e ← handle_events 3 [(11, EPOLLIN)] e;
  feed 9 (frame (ex_token_rsp 11 0));;
  e ← handle_events 3 [(9, EPOLLIN)] e;
  handle_events 3 [(12, EPOLLOUT)] e.

(** Then forwarding starts, the request goes up and the answer comes down. *)
Definition ex_session : T Z :=
  e ← ex_login_session;
  feed 11 (frame (penc (MkBeginTransmit BEGIN_TRANSMIT 1)));;
  e ← handle_events 3 [(11, EPOLLIN)] e;
  feed 11 (bs "GET / HTTP/1.1");;
  e ← handle_events 3 [(11, EPOLLIN)] e;
  feed 12 (bs "HTTP/1.1 200");;
  handle_events 3 [(12, EPOLLIN)] e.

Definition ex_start : tms := tms_init (replicate 8192 0) false ex_os.

(** What each peer received, and the charge: every byte to and from the client
    since the token was accepted, and the messages sent to it before. *)
(** A whole session, from start-up through login to an address, token verification,
    establishment of the agent and BEGIN_TRANSMIT to a request and its answer, sends to
    every peer exactly the expected messages and bytes and charges the client for what
    it received and sent. *)
Example session_runs :
  match ex_session ex_start with
  | Ok (_, s) =>
    sent_to 12 (o_log (sys s)) = bs "GET / HTTP/1.1"
    ∧ sent_to 9 (o_log (sys s))
      = frame (penc (MkReadTokenReq READ_TOKEN_REQ 11 10001 13800000000 ex_token))
    ∧ sent_to 11 (o_log (sys s))
      = frame (penc (MkConnectHostRsp CONNECT_HOST_RSP PROG 0))
        ++ frame (penc (LoginRsp_of PROG))
        ++ frame (penc (MkLoginRsp LOGIN_RSP TOKEN_VERIFIED 1000000 0))
        ++ frame (penc (MkLoginRsp LOGIN_RSP READY 999974 1))
        ++ bs "HTTP/1.1 200"
    ∧ (us_balance <$> users s !! 5) = Some 999910
  | Bad _ => False
  end.
Proof. vm_compute. repeat split. Qed.

(** *** Faults after the loss of a peer *)

(** The result of a scenario. *)
Definition outcome_of (m : T Z) : option fault :=
  match m ex_start with Ok _ => None | Bad f => Some f end.

(** The center closes its connection; the next login indexes an empty pool. *)
Example center_lost_login_faults :
  outcome_of (_ ← startup 7;
    e ← handle_events 3 [(3, EPOLLIN)] 0;
    _ ← RemoveConn 9;
    feed 11 (frame ex_login);;
    handle_events 3 [(11, EPOLLIN)] e) = Some OutOfBounds.
Proof. vm_compute. reflexivity. Qed.

(** The dpi closes its connection; its pool keeps the deleted object. *)
Example dpi_lost_token_faults :
  outcome_of (_ ← startup 7;
    e ← handle_events 3 [(3, EPOLLIN)] 0;
    feed 11 (frame ex_login);;
    e ← handle_events 3 [(11, EPOLLIN)] e;
    _ ← RemoveConn 10;
    feed 9 (frame (ex_token_rsp 11 0));;
    handle_events 3 [(9, EPOLLIN)] e) = Some UseAfterFree.
Proof. vm_compute. reflexivity. Qed.

(** A client that sends itself a rejection deletes the connection that is being
    read. *)
Example self_reject_faults :
  outcome_of (_ ← startup 7;
    e ← handle_events 3 [(3, EPOLLIN)] 0;
    feed 11 (frame (ex_token_rsp 11 INCORRECT_TOKEN));;
    handle_events 3 [(11, EPOLLIN)] e) = Some UseAfterFree.
Proof. vm_compute. reflexivity. Qed.

(** A client waits for a name and disconnects; the name does not exist: the
    stream was recycled but is still in the user's tree. *)
Definition ex_login_host : bytes :=
  penc (MkLoginReq LOGIN_REQ 10001 13800000000 ex_token 80 5) ++ bs "x.com".

Example dns_failure_after_disconnect_faults :
  outcome_of (_ ← startup 7;
    e ← handle_events 3 [(3, EPOLLIN)] 0;
    feed 11 (frame ex_login_host);;
    e ← handle_events 3 [(11, EPOLLIN)] e;
    _ ← RemoveConn 11;
    InformClients (bs "x.com") 0;;
    mret 0) = Some NullDeref.
Proof. vm_compute. reflexivity. Qed.

(** An established agent is left in the state of a connection in progress:
    [c->status = s_forward] stores the value of [sta_inprogress]. *)
Example established_agent_in_progress :
  match ex_login_session ex_start with
  | Ok (_, s) => (c_status <$> conns s !! 6) = Some sta_inprogress
  | Bad _ => False
  end.
Proof. vm_compute. reflexivity. Qed.

End TmsProps.
