(* ===== verification/DpiMeter.v ===== *)
(** * Packet meter of the dpi (src/ic-dpi/ic-dpi/LvldbMgr.cpp, PcapModule.cpp)

    The dpi sniffs the packets between the clients and the tunnel server and
    keeps one [IpUserTraffic] per client address in an LRU cache.  Two threads
    work on the records: [pcap_run] calls [OnTrafficReport] for every packet,
    [dpi_run] calls [OnUserLogin] and [OnTrafficReportReply] for the messages of
    the tunnel server and of the recorder.  They share no lock; the member
    [reporting] and compare-and-swap are meant to keep the counts right.

    The first half are the operations as sequential functions.  The second half
    is the concurrent program: each thread is a machine whose step is one access
    to shared memory, [act] is what the scheduler and the environment choose, and
    [exec1] is executable.  Memory is sequentially consistent, as
    [__sync_bool_compare_and_swap] and x86 give it for the accesses the code makes. *)

From S2P Require Import Prelude Wire Os TmsAccount.
From stdpp Require Import base gmap list strings.
From Stdlib Require Import ZArith Lia.
Import Wire Os.

Open Scope Z_scope.

Module DpiMeter.

Abbreviation ptr := Z.

(** ** Data *)

(** [enum FinType] *)
Definition fin_type_n : Z := 0.
Definition fin_type_c : Z := 1.
Definition fin_type_s : Z := 2.
Definition fin_type_r : Z := 4.

Definition MinAckLen : Z := 40.

Record IpUserTraffic := MkIpUser {
  iu_ip_be : Z;
  iu_reporting : Z;      (* int *)
  iu_fins : Z;           (* int *)
  iu_traffic : Z;        (* int *)
  iu_mobile : Z;
  iu_app : Z;
}.

#[export] Instance eta_ip_user : Eta IpUserTraffic := fun x =>
  MkIpUser (iu_ip_be x) (iu_reporting x) (iu_fins x) (iu_traffic x) (iu_mobile x) (iu_app x).

#[export] Instance ip_user_eq_dec : EqDecision IpUserTraffic.
Proof. solve_decision. Defined.

(** [calloc(1, sizeof(IpUserTraffic))] *)
Definition zero_user : IpUserTraffic := MkIpUser 0 0 0 0 0 0.

#[export] Instance ip_user_inhabited : Inhabited IpUserTraffic := populate zero_user.

(** [leveldb::Cache] as its header documents it: [Lookup] finds what was inserted
    and not evicted, [Insert] makes its entry the one of the key and may evict
    others.  [contents] is what can be looked up. *)
Class LruCache (C : Type) := {
  contents : C → gmap Z ptr;
  cache_empty : C;                             (* NewLRUCache(hash_capacity) *)
  cache_lookup : Z → C → option ptr * C;
  cache_insert : Z → ptr → C → C;
  empty_contents : contents cache_empty = ∅;
  lookup_found : ∀ k c, (cache_lookup k c).1 = contents c !! k;
  lookup_contents : ∀ k c, contents (cache_lookup k c).2 = contents c;
  insert_found : ∀ k p c, contents (cache_insert k p c) !! k = Some p;
  insert_others : ∀ k p c k' p', k ≠ k' →
    contents (cache_insert k p c) !! k' = Some p' → contents c !! k' = Some p';
}.

(** A cache that never evicts. *)
#[export] Program Instance gmap_cache : LruCache (gmap Z ptr) := {|
  contents c := c;
  cache_empty := ∅;
  cache_lookup k c := (c !! k, c);
  cache_insert k p c := <[k := p]> c;
|}.
Next Obligation. done. Qed.
Next Obligation. done. Qed.
Next Obligation. done. Qed.
Next Obligation. intros. apply lookup_insert_eq. Qed.
Next Obligation. intros k p c k' p' Hk. cbn. rewrite lookup_insert_ne; done. Qed.

(** A cache of one entry. *)
#[export] Program Instance one_cache : LruCache (option (Z * ptr)) := {|
  contents c := match c with Some (k, p) => {[k := p]} | None => ∅ end;
  cache_empty := None;
  cache_lookup k c := (match c with Some (k', p) => if k' =? k then Some p else None | None => None end, c);
  cache_insert k p c := Some (k, p);
|}.
Next Obligation. done. Qed.
Next Obligation.
  intros k [[k' p]|]; cbn; [|done]. destruct (Z.eqb_spec k' k) as [->|].
  - rewrite lookup_singleton_eq. done.
  - rewrite lookup_singleton_ne; done.
Qed.
Next Obligation. done. Qed.
Next Obligation. intros. apply lookup_singleton_eq. Qed.
Next Obligation. intros k p c k' p' Hk. cbn. rewrite lookup_singleton_ne; done. Qed.

Section Meter.
Context {C : Type} `{!LruCache C}.

(** The records and the cache.  The deleter of the cache frees nothing, so a
    record stays where it is after its entry is evicted. *)
Record meter := MkMeter {
  recs : gmap ptr IpUserTraffic;
  m_next : ptr;
  cache_tbl : C;
}.

#[export] Instance eta_meter : Eta meter := fun x => MkMeter (recs x) (m_next x) (cache_tbl x).

(** [LvldbMgr::Init] *)
Definition Init : meter := MkMeter ∅ 1 cache_empty.

Definition upd (p : ptr) (f : IpUserTraffic → IpUserTraffic) (m : meter) : meter :=
  m <| recs := <[p := f (recs m !!! p)]> (recs m) |>.

(** [h = c->Lookup(key)] *)
Definition find_rec (ip : Z) (m : meter) : option ptr * meter :=
  let '(o, c) := cache_lookup ip (cache_tbl m) in (o, m <| cache_tbl := c |>).

(** [dbu = calloc(...); h = c->Insert(key, dbu, 1, deleter)] *)
Definition alloc_rec (ip : Z) (m : meter) : ptr * meter :=
  (m_next m, m <| recs := <[m_next m := zero_user]> (recs m) |>
               <| cache_tbl := cache_insert ip (m_next m) (cache_tbl m) |>
               <| m_next := m_next m + 1 |>).

Definition find_or_alloc (ip : Z) (m : meter) : ptr * meter :=
  match find_rec ip m with
  | (Some p, m) => (p, m)
  | (None, m) => alloc_rec ip m
  end.

(** ** The operations, sequentially *)

Definition OnUserLogin (u : SynUserTuple) (m : meter) : meter :=
  let '(p, m) := find_or_alloc (su_src_ip_be u) m in
  upd p (fun x => x <| iu_ip_be := su_src_ip_be u |> <| iu_mobile := su_mobile u |>
                    <| iu_app := su_app u |>) m.

(** The message both functions fill in. *)
Definition make_report (mobile app ip traffic : Z) (now : timeval) : TrafficReport :=
  MkTrafficReport TRAFFIC_REPORT app mobile traffic now now ip 1 (pad 256 (bs "-")).

(** [(int)(dbu->traffic + traffic)]: the sum is a [U64]. *)
Definition add_traffic (t l : Z) : Z := i32 (u64 (t + l)).

(** [LvldbMgr::OnTrafficReport] once the record is found: the report it sends is
    returned. *)
Definition count_packet (p : ptr) (ip traffic fin_type : Z) (now : timeval) (m : meter)
  : meter * option TrafficReport :=
  let m := upd p (fun x => x <| iu_fins ::= Z.lor fin_type |>) m in
  let x := recs m !!! p in
  let fin := Z.lor fin_type_c fin_type_s <=? iu_fins x in
  if negb fin then (upd p (fun x => x <| iu_traffic ::= fun t => add_traffic t traffic |>) m, None)
  else if (iu_reporting x =? 0) && (256 <? iu_traffic x) then
    if iu_mobile x =? 0 then (m, None)
    else
      let to_report := u64 (iu_traffic x + traffic + MinAckLen) in
      (upd p (fun x => x <| iu_reporting := 1 |> <| iu_traffic := - MinAckLen |> <| iu_fins := 0 |>) m,
       Some (make_report (iu_mobile x) (iu_app x) ip to_report now))
  else (upd p (fun x => x <| iu_traffic ::= fun t => add_traffic t traffic |>) m, None).

Definition OnTrafficReport (ip traffic fin_type : Z) (now : timeval) (m : meter)
  : meter * option TrafficReport :=
  let '(p, m) := find_or_alloc ip m in count_packet p ip traffic fin_type now m.

(** [LvldbMgr::OnTrafficReportReply] once the record is found. *)
Definition answer_reply (p : ptr) (ip : Z) (now : timeval) (m : meter) : meter * option TrafficReport :=
  let x := recs m !!! p in
  if iu_reporting x =? 0 then (m, None)
  else if (256 <? iu_traffic x) && negb (Z.land (iu_fins x) (Z.lor fin_type_c fin_type_s) =? 0) then
    (upd p (fun x => x <| iu_traffic := - MinAckLen |> <| iu_fins := 0 |>) m,
     Some (make_report (iu_mobile x) (iu_app x) ip (u64 (i32 (iu_traffic x + MinAckLen))) now))
  else (upd p (fun x => x <| iu_reporting := 0 |>) m, None).

Definition OnTrafficReportReply (ip : Z) (now : timeval) (m : meter) : meter * option TrafficReport :=
  let '(p, m) := find_or_alloc ip m in answer_reply p ip now m.

(** ** The threads *)

(** A packet being counted: the client's address and the bytes to add. *)
Record job := MkJob { j_ip : Z; j_len : Z }.

(** Where [pcap_run] is in [OnTrafficReport]; [p] is [dbu]. *)
Inductive pcap_pc :=
  | P_idle
  | P_lookup (j : job) (ft : Z)                     (* c->Lookup *)
  | P_insert (j : job) (ft : Z)                     (* c->Insert *)
  | P_or_load (p : ptr) (j : job) (ft : Z)          (* dbu->fins |= fin_type *)
  | P_or_store (p : ptr) (j : job) (v : Z)
  | P_fin (p : ptr) (j : job)                       (* fin = dbu->fins >= ... *)
  | P_head (p : ptr) (j : job) (fin : bool)         (* while (true) *)
  | P_add1 (p : ptr) (j : job) (fin : bool)         (* the two reads of the arguments *)
  | P_add2 (p : ptr) (j : job) (fin : bool) (a : Z)
  | P_cas (p : ptr) (j : job) (fin : bool) (old new : Z)
  | P_traffic (p : ptr) (j : job)                   (* dbu->traffic > 256 *)
  | P_mobile (p : ptr) (j : job)                    (* dbu->mobile == 0 *)
  | P_acquire (p : ptr) (j : job)                   (* atomic_cas(&dbu->reporting, 0, 1) *)
  | P_sum (p : ptr) (j : job)                       (* to_report = ... *)
  | P_store (p : ptr) (j : job) (rep : Z)           (* dbu->traffic = -MinAckLen *)
  | P_clear (p : ptr) (j : job) (rep : Z)           (* the loop that clears fins *)
  | P_clear_cas (p : ptr) (j : job) (rep old : Z)
  | P_rep1 (p : ptr) (j : job) (rep : Z)            (* r.mobile = dbu->mobile *)
  | P_rep2 (p : ptr) (j : job) (rep mobile : Z)     (* r.app = dbu->app *)
  | P_send (p : ptr) (j : job) (rep mobile app : Z).

(** Where [dpi_run] is in [OnTrafficReportReply] (R) or [OnUserLogin] (U). *)
Inductive main_pc :=
  | R_idle
  | R_lookup (ip : Z)
  | R_insert (ip : Z)
  | R_head (p : ptr) (ip : Z)                       (* for (; dbu->reporting; ) *)
  | R_traffic (p : ptr) (ip : Z)                    (* dbu->traffic > 256 *)
  | R_fins (p : ptr) (ip : Z)                       (* dbu->fins & 3 *)
  | R_load (p : ptr) (ip : Z)                       (* int to_report = dbu->traffic *)
  | R_cas (p : ptr) (ip : Z) (v : Z)
  | R_clear (p : ptr) (ip : Z) (v : Z)
  | R_clear_cas (p : ptr) (ip : Z) (v old : Z)
  | R_rep1 (p : ptr) (ip : Z) (v : Z)
  | R_rep2 (p : ptr) (ip : Z) (v mobile : Z)
  | R_send (p : ptr) (ip : Z) (v mobile app : Z)
  | R_release (p : ptr) (ip : Z)                    (* atomic_cas(&dbu->reporting, 1, 0) *)
  | U_lookup (u : SynUserTuple)
  | U_insert (u : SynUserTuple)
  | U_ip (p : ptr) (u : SynUserTuple)
  | U_mobile (p : ptr) (u : SynUserTuple)
  | U_app (p : ptr) (u : SynUserTuple).

(** What happened to the traffic of a record, for the statements only. *)
Inductive event :=
  | EvPacket (p : ptr) (l : Z)       (* a packet of [l] bytes is being counted on [p] *)
  | EvDrop (p : ptr) (l : Z)         (* its bytes are thrown away *)
  | EvReport (p : ptr) (n : Z).      (* a report of [n] bytes was sent for [p] *)

Record world := MkWorld {
  w_meter : meter;
  w_pcap : pcap_pc;
  w_main : main_pc;
  w_out : list (ptr * TrafficReport);   (* reports sent and not yet answered *)
  w_now : timeval;
  w_hist : list event;
}.

#[export] Instance eta_world : Eta world := fun x =>
  MkWorld (w_meter x) (w_pcap x) (w_main x) (w_out x) (w_now x) (w_hist x).

Definition rec_at (p : ptr) (w : world) : IpUserTraffic := recs (w_meter w) !!! p.

Definition store (p : ptr) (f : IpUserTraffic → IpUserTraffic) (w : world) : world :=
  w <| w_meter ::= upd p f |>.

Definition at_pcap (pc : pcap_pc) (w : world) : world := w <| w_pcap := pc |>.
Definition at_main (pc : main_pc) (w : world) : world := w <| w_main := pc |>.
Definition note (e : event) (w : world) : world := w <| w_hist ::= cons e |>.

(** [c->SendTmsMsg(&r, sizeof r)] on the connection to the recorder. *)
Definition send_report (p : ptr) (r : TrafficReport) (w : world) : world :=
  note (EvReport p (tr_traffic r)) (w <| w_out ::= cons (p, r) |>).

(** One step of [pcap_run] in [OnTrafficReport].  [old_first]: the compiler reads
    the second argument of [atomic_cas(&dbu->traffic, dbu->traffic, dbu->traffic +
    traffic)] before the third; C++ leaves the order open. *)
Definition pcap_step (old_first : bool) (w : world) : option world :=
  match w_pcap w with
  | P_idle => None
  | P_lookup j ft =>
    let '(o, m) := find_rec (j_ip j) (w_meter w) in
    let w := w <| w_meter := m |> in
    Some match o with
         | Some p => at_pcap (P_or_load p j ft) (note (EvPacket p (j_len j)) w)
         | None => at_pcap (P_insert j ft) w
         end
  | P_insert j ft =>
    let '(p, m) := alloc_rec (j_ip j) (w_meter w) in
    Some (at_pcap (P_or_load p j ft) (note (EvPacket p (j_len j)) (w <| w_meter := m |>)))
  | P_or_load p j ft => Some (at_pcap (P_or_store p j (Z.lor ft (iu_fins (rec_at p w)))) w)
  | P_or_store p j v => Some (at_pcap (P_fin p j) (store p (fun x => x <| iu_fins := v |>) w))
  | P_fin p j => Some (at_pcap (P_head p j (Z.lor fin_type_c fin_type_s <=? iu_fins (rec_at p w))) w)
  | P_head p j fin =>
    Some (if negb fin then at_pcap (P_add1 p j fin) w
          else if iu_reporting (rec_at p w) =? 0 then at_pcap (P_traffic p j) w
          else at_pcap (P_add1 p j fin) w)
  | P_add1 p j fin => Some (at_pcap (P_add2 p j fin (iu_traffic (rec_at p w))) w)
  | P_add2 p j fin a =>
    let b := iu_traffic (rec_at p w) in
    Some (at_pcap (if old_first then P_cas p j fin a (add_traffic b (j_len j))
                   else P_cas p j fin b (add_traffic a (j_len j))) w)
  | P_cas p j fin old new =>
    Some (if iu_traffic (rec_at p w) =? old
          then at_pcap P_idle (store p (fun x => x <| iu_traffic := new |>) w)
          else at_pcap (P_head p j fin) w)
  | P_traffic p j =>
    Some (if 256 <? iu_traffic (rec_at p w) then at_pcap (P_mobile p j) w
          else at_pcap (P_add1 p j true) w)
  | P_mobile p j =>
    Some (if iu_mobile (rec_at p w) =? 0 then at_pcap P_idle (note (EvDrop p (j_len j)) w)
          else at_pcap (P_acquire p j) w)
  | P_acquire p j =>
    Some (if iu_reporting (rec_at p w) =? 0
          then at_pcap (P_sum p j) (store p (fun x => x <| iu_reporting := 1 |>) w)
          else at_pcap (P_head p j true) w)
  | P_sum p j => Some (at_pcap (P_store p j (u64 (iu_traffic (rec_at p w) + j_len j + MinAckLen))) w)
  | P_store p j rep => Some (at_pcap (P_clear p j rep) (store p (fun x => x <| iu_traffic := - MinAckLen |>) w))
  | P_clear p j rep => Some (at_pcap (P_clear_cas p j rep (iu_fins (rec_at p w))) w)
  | P_clear_cas p j rep old =>
    Some (if iu_fins (rec_at p w) =? old
          then at_pcap (P_rep1 p j rep) (store p (fun x => x <| iu_fins := 0 |>) w)
          else at_pcap (P_clear p j rep) w)
  | P_rep1 p j rep => Some (at_pcap (P_rep2 p j rep (iu_mobile (rec_at p w))) w)
  | P_rep2 p j rep mobile => Some (at_pcap (P_send p j rep mobile (iu_app (rec_at p w))) w)
  | P_send p j rep mobile app =>
    Some (at_pcap P_idle (send_report p (make_report mobile app (j_ip j) rep (w_now w)) w))
  end.

(** One step of [dpi_run] in [OnTrafficReportReply] or [OnUserLogin]. *)
Definition main_step (w : world) : option world :=
  match w_main w with
  | R_idle => None
  | R_lookup ip =>
    let '(o, m) := find_rec ip (w_meter w) in
    let w := w <| w_meter := m |> in
    Some (at_main (match o with Some p => R_head p ip | None => R_insert ip end) w)
  | R_insert ip =>
    let '(p, m) := alloc_rec ip (w_meter w) in
    Some (at_main (R_head p ip) (w <| w_meter := m |>))
  | R_head p ip =>
    Some (at_main (if iu_reporting (rec_at p w) =? 0 then R_idle else R_traffic p ip) w)
  | R_traffic p ip =>
    Some (at_main (if 256 <? iu_traffic (rec_at p w) then R_fins p ip else R_release p ip) w)
  | R_fins p ip =>
    Some (at_main (if Z.land (iu_fins (rec_at p w)) (Z.lor fin_type_c fin_type_s) =? 0
                   then R_release p ip else R_load p ip) w)
  | R_load p ip => Some (at_main (R_cas p ip (iu_traffic (rec_at p w))) w)
  | R_cas p ip v =>
    Some (if iu_traffic (rec_at p w) =? v
          then at_main (R_clear p ip v) (store p (fun x => x <| iu_traffic := - MinAckLen |>) w)
          else at_main (R_head p ip) w)
  | R_clear p ip v => Some (at_main (R_clear_cas p ip v (iu_fins (rec_at p w))) w)
  | R_clear_cas p ip v old =>
    Some (if iu_fins (rec_at p w) =? old
          then at_main (R_rep1 p ip v) (store p (fun x => x <| iu_fins := 0 |>) w)
          else at_main (R_clear p ip v) w)
  | R_rep1 p ip v => Some (at_main (R_rep2 p ip v (iu_mobile (rec_at p w))) w)
  | R_rep2 p ip v mobile => Some (at_main (R_send p ip v mobile (iu_app (rec_at p w))) w)
  | R_send p ip v mobile app =>
    Some (at_main R_idle
            (send_report p (make_report mobile app ip (u64 (i32 (v + MinAckLen))) (w_now w)) w))
  | R_release p ip =>
    Some (if iu_reporting (rec_at p w) =? 1
          then at_main R_idle (store p (fun x => x <| iu_reporting := 0 |>) w)
          else w)
  | U_lookup u =>
    let '(o, m) := find_rec (su_src_ip_be u) (w_meter w) in
    let w := w <| w_meter := m |> in
    Some (at_main (match o with Some p => U_ip p u | None => U_insert u end) w)
  | U_insert u =>
    let '(p, m) := alloc_rec (su_src_ip_be u) (w_meter w) in
    Some (at_main (U_ip p u) (w <| w_meter := m |>))
  | U_ip p u => Some (at_main (U_mobile p u) (store p (fun x => x <| iu_ip_be := su_src_ip_be u |>) w))
  | U_mobile p u => Some (at_main (U_app p u) (store p (fun x => x <| iu_mobile := su_mobile u |>) w))
  | U_app p u => Some (at_main R_idle (store p (fun x => x <| iu_app := su_app u |>) w))
  end.

(** The choices of the scheduler and the environment. *)
Inductive act :=
  | APacket (ip l ft : Z)            (* the next packet reaches pcap_run *)
  | APcap                            (* pcap_run makes a step *)
  | AMain                            (* dpi_run makes a step *)
  | AReply (i : nat)                 (* the answer to the i-th open report arrives *)
  | ALogin (u : SynUserTuple)        (* a SYN_USER_TUPLE arrives *)
  | AStray (ip : Z).                 (* a TRAFFIC_REPORT_RSP to no report arrives *)

Definition exec1 (old_first : bool) (a : act) (w : world) : option world :=
  match a with
  | APacket ip l ft =>
    match w_pcap w with
    | P_idle => Some (at_pcap (P_lookup (MkJob ip l) ft) w)
    | _ => None
    end
  | APcap => pcap_step old_first w
  | AMain => main_step w
  | AReply i =>
    match w_main w, w_out w !! i with
    | R_idle, Some (_, r) => Some (at_main (R_lookup (tr_ip r)) (w <| w_out ::= delete i |>))
    | _, _ => None
    end
  | ALogin u => match w_main w with R_idle => Some (at_main (U_lookup u) w) | _ => None end
  | AStray ip => match w_main w with R_idle => Some (at_main (R_lookup ip) w) | _ => None end
  end.

Fixpoint run (old_first : bool) (l : list act) (w : world) : option world :=
  match l with
  | [] => Some w
  | a :: l => exec1 old_first a w ≫= run old_first l
  end.

Definition world_init (now : timeval) : world := MkWorld Init P_idle R_idle [] now [].

(** The recorder answers each report at most once. *)
Definition answers (a : act) : bool := match a with AStray _ => false | _ => true end.

End Meter.
Arguments meter C : clear implicits.
Arguments world C : clear implicits.

(** ** Invariant of the concurrent program *)

Section Invariant.
Context {C : Type} `{!LruCache C}.

(** The bytes of the packets counted on a record, of those thrown away, and of
    its reports. *)
Definition metered (p : ptr) (h : list event) : Z :=
  fold_right (fun e n => match e with EvPacket q l => if q =? p then l + n else n | _ => n end) 0 h.
Definition dropped (p : ptr) (h : list event) : Z :=
  fold_right (fun e n => match e with EvDrop q l => if q =? p then l + n else n | _ => n end) 0 h.
Definition reported (p : ptr) (h : list event) : Z :=
  fold_right (fun e n => match e with EvReport q l => if q =? p then l + n else n | _ => n end) 0 h.

Definition due (p : ptr) (h : list event) : Z := metered p h - dropped p h - reported p h.

(** The record [pcap_run] works on, with its packet. *)
Definition pcap_job (pc : pcap_pc) : option (ptr * job) :=
  match pc with
  | P_idle | P_lookup _ _ | P_insert _ _ => None
  | P_or_load p j _ | P_or_store p j _ | P_fin p j | P_head p j _ | P_add1 p j _ | P_add2 p j _ _
  | P_cas p j _ _ _ | P_traffic p j | P_mobile p j | P_acquire p j | P_sum p j | P_store p j _
  | P_clear p j _ | P_clear_cas p j _ _ | P_rep1 p j _ | P_rep2 p j _ _ | P_send p j _ _ _ => Some (p, j)
  end.

Definition only (q p n : Z) : Z := if q =? p then n else 0.

(** The bytes of record [p] that a thread holds and has not put in the record or
    in a report. *)
Definition pend_pcap (pc : pcap_pc) (p : ptr) : Z :=
  match pc with
  | P_clear q j rep | P_clear_cas q j rep _ | P_rep1 q j rep | P_rep2 q j rep _
  | P_send q j rep _ _ => only q p rep
  | _ => match pcap_job pc with Some (q, j) => only q p (j_len j) | None => 0 end
  end.

Definition pend_main (pc : main_pc) (p : ptr) : Z :=
  match pc with
  | R_clear q _ v | R_clear_cas q _ v _ | R_rep1 q _ v | R_rep2 q _ v _ | R_send q _ v _ _ =>
    only q p (v + MinAckLen)
  | _ => 0
  end.

(** Who is entitled to report on record [p]. *)
Definition hold_pcap (pc : pcap_pc) (p : ptr) : Z :=
  match pc with
  | P_sum q _ | P_store q _ _ | P_clear q _ _ | P_clear_cas q _ _ _ | P_rep1 q _ _ | P_rep2 q _ _ _
  | P_send q _ _ _ _ => only q p 1
  | _ => 0
  end.

Definition main_job (pc : main_pc) : option (ptr * Z) :=
  match pc with
  | R_head q ip | R_traffic q ip | R_fins q ip | R_load q ip | R_cas q ip _ | R_clear q ip _
  | R_clear_cas q ip _ _ | R_rep1 q ip _ | R_rep2 q ip _ _ | R_send q ip _ _ _ | R_release q ip =>
    Some (q, ip)
  | _ => None
  end.

Definition login_ptr (pc : main_pc) : option ptr :=
  match pc with U_ip p _ | U_mobile p _ | U_app p _ => Some p | _ => None end.

Definition hold_main (pc : main_pc) (m : gmap Z ptr) (p : ptr) : Z :=
  match pc with
  | R_lookup ip => match m !! ip with Some q => only q p 1 | None => 0 end
  | _ => match main_job pc with Some (q, _) => only q p 1 | None => 0 end
  end.

Definition hold_out (l : list (ptr * TrafficReport)) (p : ptr) : Z :=
  fold_right (fun e n => only e.1 p 1 + n) 0 l.

Abbreviation table w := (contents (cache_tbl (w_meter w))).

(** What [pcap_run] knows of the traffic [t] of its record at its program point:
    between the reads and the comparison the other thread may have reset it. *)
Definition knows (pc : pcap_pc) (t : Z) : Prop :=
  match pc with
  | P_add2 p _ _ a => t = a ∨ t = - MinAckLen
  | P_cas p j _ a n =>
    (n = add_traffic a (j_len j) ∧ (t = a ∨ t = - MinAckLen)) ∨
    (n = add_traffic (- MinAckLen) (j_len j) ∧ t = - MinAckLen)
  | P_store p j rep => rep = u64 (t + j_len j + MinAckLen)
  | _ => True
  end.

Record inv (w : world C) : Prop := MkInv {
  i_due p : ∃ k, due p (w_hist w) =
    iu_traffic (rec_at p w) + pend_pcap (w_pcap w) p + pend_main (w_main w) p + k * 2 ^ 32;
  i_lock p : iu_reporting (rec_at p w) =
    hold_pcap (w_pcap w) p + hold_main (w_main w) (table w) p + hold_out (w_out w) p;
  i_flag p : 0 ≤ iu_reporting (rec_at p w) ≤ 1;
  i_range p : in_s 32 (iu_traffic (rec_at p w));
  i_fresh p : m_next (w_meter w) ≤ p → rec_at p w = zero_user;
  i_table ip p : table w !! ip = Some p → p < m_next (w_meter w);
  i_login p : login_ptr (w_main w) = Some p → p < m_next (w_meter w);
  i_out : Forall (fun e => table w !! tr_ip e.2 = Some e.1) (w_out w);
  i_main p ip : main_job (w_main w) = Some (p, ip) → table w !! ip = Some p;
  i_reply ip : w_main w = R_lookup ip → is_Some (table w !! ip);
  i_insert ip : w_main w ≠ R_insert ip;
  i_pcap p j : pcap_job (w_pcap w) = Some (p, j) → table w !! j_ip j = Some p;
  i_knows p j : pcap_job (w_pcap w) = Some (p, j) → knows (w_pcap w) (iu_traffic (rec_at p w));
}.

Lemma rec_insert (rs : gmap ptr IpUserTraffic) q x p :
  <[q := x]> rs !!! p = if q =? p then x else rs !!! p.
Proof.
  destruct (Z.eqb_spec q p) as [->|].
  - apply lookup_total_insert_eq.
  - apply lookup_total_insert_ne. done.
Qed.

(** Division by a power of two, written out for [lia]. *)
Ltac div_lia x m :=
  pose proof (Z.div_mod x m ltac:(lia)); range_lia.

Lemma u64_spec n : ∃ k, u64 n = n + k * 2 ^ 32.
Proof. unfold wrap. exists (- (n / 2 ^ 64) * 2 ^ 32). div_lia n (2 ^ 64). Qed.

Lemma i32_spec n : ∃ k, i32 n = n + k * 2 ^ 32.
Proof.
  unfold swrap. exists (- ((n + 2 ^ (32 - 1)) / 2 ^ 32)). div_lia (n + 2 ^ (32 - 1)) (2 ^ 32).
Qed.

Lemma add_traffic_spec t l : ∃ k, add_traffic t l = t + l + k * 2 ^ 32.
Proof.
  unfold add_traffic. destruct (i32_spec (u64 (t + l))) as [k1 ->].
  destruct (u64_spec (t + l)) as [k2 ->]. exists (k1 + k2). lia.
Qed.

Lemma add_traffic_range t l : in_s 32 (add_traffic t l).
Proof. apply swrap_range. lia. Qed.

Lemma u64_i32_spec n : ∃ k, u64 (i32 n) = n + k * 2 ^ 32.
Proof.
  destruct (u64_spec (i32 n)) as [k1 ->]. destruct (i32_spec n) as [k2 ->]. exists (k1 + k2). lia.
Qed.

(** Replaces the wrapped sums by their values up to multiples of [2 ^ 32]. *)
Ltac unwrap :=
  repeat match goal with
  | |- context [u64 (i32 ?n)] => let k := fresh "k" in destruct (u64_i32_spec n) as [k ->]
  | |- context [add_traffic ?t ?l] => let k := fresh "k" in destruct (add_traffic_spec t l) as [k ->]
  | |- context [u64 ?n] => let k := fresh "k" in destruct (u64_spec n) as [k ->]
  end.

Lemma hold_out_cons e l p : hold_out (e :: l) p = only e.1 p 1 + hold_out l p.
Proof. done. Qed.

Lemma hold_out_nonneg l p : 0 ≤ hold_out l p.
Proof.
  induction l as [|e l IH]; [done|]. rewrite hold_out_cons. unfold only. destruct (_ =? _); lia.
Qed.

Lemma hold_nonneg pc mc m p : 0 ≤ hold_pcap pc p ∧ 0 ≤ hold_main mc m p.
Proof.
  unfold hold_pcap, hold_main, only. split.
  - destruct pc; try destruct (_ =? _); lia.
  - destruct mc; cbn; try (destruct (m !! ip)); try destruct (_ =? _); lia.
Qed.

Lemma due_cons e h p :
  due p (e :: h) = due p h +
    match e with EvPacket q l => only q p l | EvDrop q l | EvReport q l => - only q p l end.
Proof. unfold due, only. destruct e; cbn; destruct (_ =? _); unfold metered, dropped, reported; lia. Qed.

(** ** Steps that touch the cache *)

Definition with_cache (c : C) (w : world C) : world C :=
  w <| w_meter ::= fun m => m <| cache_tbl := c |> |>.

Lemma inv_cache c w : inv w → table w ⊆ contents c →
  (∀ ip p, contents c !! ip = Some p → p < m_next (w_meter w)) → inv (with_cache c w).
Proof.
  intros [Hd Hl Hf Hr Hz Hb Hu Ho Hm Hy Hi Hp Hk] Ht Hc.
  destruct w as [[rs nx ct] pc mc out now h].
  constructor; try done; unfold with_cache, set, rec_at in *; cbn -[hold_main] in *; eauto using lookup_weaken.
  - intros p. rewrite (Hl p). f_equal. f_equal. unfold hold_main. cbn.
    destruct mc; try done. destruct (Hy _ eq_refl) as [q Hq].
    rewrite Hq, (lookup_weaken _ _ _ _ Hq Ht). done.
  - eapply Forall_impl; [exact Ho|]. cbn. eauto using lookup_weaken.
  - intros ip Hip. destruct (Hy _ Hip) as [q Hq]. exists q. eauto using lookup_weaken.
Qed.

Lemma inv_lookup ip w o m : inv w → find_rec ip (w_meter w) = (o, m) →
  o = table w !! ip ∧ contents (cache_tbl m) = table w ∧ inv (w <| w_meter := m |>).
Proof.
  intros H Hf. unfold find_rec in Hf.
  pose proof (lookup_found ip (cache_tbl (w_meter w))) as Hl.
  pose proof (lookup_contents ip (cache_tbl (w_meter w))) as Hc.
  destruct (cache_lookup _ _) as [o' c]. cbn in *. injection Hf as <- <-. split; [done|].
  split; [exact Hc|]. apply (inv_cache c w); [done|rewrite Hc; done|]. rewrite Hc. apply (i_table _ H).
Qed.

Lemma inv_next w : inv w → inv (w <| w_meter ::= fun m => m <| m_next ::= Z.succ |> |>
                                  <| w_meter ::= fun m => m <| recs := <[m_next (w_meter w) := zero_user]> (recs m) |> |>).
Proof.
  intros [Hd Hl Hf Hr Hz Hb Hu Ho Hm Hy Hi Hp Hk].
  destruct w as [[rs nx ct] pc mc out now h]. unfold set, rec_at in *. cbn in *.
  assert (∀ p, <[nx := zero_user]> rs !!! p = rs !!! p) as Hrs.
  { intros p. rewrite rec_insert. destruct (Z.eqb_spec nx p) as [->|]; [|done].
    symmetry. apply Hz. done. }
  constructor; unfold rec_at; cbn in *; try done;
    try (intros p; rewrite Hrs; done).
  - intros p Hp'. rewrite Hrs. apply Hz. lia.
  - intros ip p Hp'. specialize (Hb _ _ Hp'). lia.
  - intros p Hp'. specialize (Hu _ Hp'). lia.
  - intros p j Hj. rewrite Hrs. eauto.
Qed.

Lemma inv_alloc ip w p m : inv w → alloc_rec ip (w_meter w) = (p, m) → table w ⊆ contents (cache_tbl m) →
  contents (cache_tbl m) !! ip = Some p ∧ p < m_next m ∧ inv (w <| w_meter := m |>).
Proof.
  intros H [= <- <-] Ht. pose proof (inv_next _ H) as Hn.
  destruct w as [[rs nx ct] pc mc out now h]. unfold set in *. cbn in *.
  split; [apply insert_found|]. split; [lia|].
  apply (inv_cache _ _ Hn); [exact Ht|]. cbn. intros k q Hq.
  destruct (decide (ip = k)) as [<-|Hne].
  - rewrite insert_found in Hq. injection Hq as <-. lia.
  - apply insert_others in Hq; [|done]. apply (i_table _ H) in Hq. cbn in Hq. lia.
Qed.

(** ** Steps of the threads

    The state is made explicit and every field of the invariant is looked at in
    the record the step touches and in the others. *)

Ltac close_field :=
  repeat match goal with
  | |- context [<[?q := ?x]> ?rs !!! ?p] => rewrite (rec_insert rs q x p)
  end; unfold only in *;
  repeat match goal with
  | |- context [if ?q =? ?p then _ else _] => destruct (Z.eqb_spec q p); subst; cbn -[due hold_out] in *
  | H : context [if ?q =? ?p then _ else _] |- _ => destruct (Z.eqb_spec q p); subst; cbn -[due hold_out] in *
  end.

Ltac step_inv H :=
  let Hd := fresh "Hd" in let Hl := fresh "Hl" in let Hf := fresh "Hf" in let Hr := fresh "Hr" in
  let Hz := fresh "Hz" in let Ho := fresh "Ho" in let Hm := fresh "Hm" in let Hy := fresh "Hy" in
  let Hb := fresh "Hb" in let Hu := fresh "Hu" in let Hi := fresh "Hi" in let Hp := fresh "Hp" in let Hk := fresh "Hk" in
  destruct H as [Hd Hl Hf Hr Hz Hb Hu Ho Hm Hy Hi Hp Hk];
  constructor; unfold rec_at, only in *; cbn -[due hold_out] in *;
  [ intros p'; destruct (Hd p') as [k0 Hd']; rewrite ?due_cons in *; close_field; try (exists k0; lia)
  | intros p'; specialize (Hl p'); rewrite ?hold_out_cons in *; close_field; try lia
  | intros p'; specialize (Hf p'); close_field; try lia
  | intros p'; specialize (Hr p'); close_field; try done
  | intros p' ?; specialize (Hz p'); close_field; try (apply Hz; lia);
    exfalso; first [specialize (Hb _ _ (Hp _ _ eq_refl)); lia | specialize (Hb _ _ (Hm _ _ eq_refl)); lia
                   | specialize (Hu _ eq_refl); lia]
  | try done
  | try (intros p' [=]; subst; by eauto)
  | try done
  | try (intros p' ip' [=]; subst; by eauto)
  | try (intros ip' [=]; subst; by eauto)
  | try (intros ip' [=]; subst; by eauto)
  | try (intros p' j' [=]; subst; by eauto)
  | try (intros p' j' E; specialize (Hk p' j'); close_field; simplify_eq; by eauto) ].

(** The packet is bound to its record. *)
Lemma inv_begin w p j ft : inv w → pcap_job (w_pcap w) = None → table w !! j_ip j = Some p →
  inv (at_pcap (P_or_load p j ft) (note (EvPacket p (j_len j)) w)).
Proof.
  intros H Hj Ht. destruct w as [[rs nx ct] pc mc out now h]. unfold at_pcap, note, set in *. cbn in *.
  destruct pc; try done; step_inv H; done.
Qed.

Lemma inv_wait w pc : inv w → pcap_job (w_pcap w) = None → pcap_job pc = None → inv (at_pcap pc w).
Proof.
  intros H Hj Hpc. destruct w as [[rs nx ct] pc0 mc out now h]. unfold at_pcap, set. cbn in *.
  destruct pc0; try done; destruct pc; try done; step_inv H; done.
Qed.

(** What the threads do to the traffic of the record, as sums. *)
Lemma cas_due d old l new pm k : d = old + l + pm + k * 2 ^ 32 → new = add_traffic old l →
  ∃ k', d = new + 0 + pm + k' * 2 ^ 32.
Proof. intros -> ->. destruct (add_traffic_spec old l) as [k2 ->]. exists (k - k2). lia. Qed.

Lemma store_due d t l pm k : d = t + l + pm + k * 2 ^ 32 →
  ∃ k', d = - MinAckLen + u64 (t + l + MinAckLen) + pm + k' * 2 ^ 32.
Proof. intros ->. destruct (u64_spec (t + l + MinAckLen)) as [k2 ->]. exists (k - k2). lia. Qed.

Lemma cas_new t old l new :
  (new = add_traffic old l ∧ (t = old ∨ t = - MinAckLen)) ∨
  (new = add_traffic (- MinAckLen) l ∧ t = - MinAckLen) →
  t = old → new = add_traffic old l.
Proof. intros [[-> _]|[-> ->]] Ht; subst; done. Qed.

Lemma pcap_cache_inv w w' j ft : w_pcap w = P_lookup j ft ∨ w_pcap w = P_insert j ft →
  inv w → pcap_step true w = Some w' → table w ⊆ table w' → inv w'.
Proof.
  intros Hpc H Hs Ht. assert (pcap_job (w_pcap w) = None) as Hj by (destruct Hpc as [-> | ->]; done).
  unfold pcap_step in Hs. destruct Hpc as [Hpc|Hpc]; rewrite Hpc in Hs.
  - destruct (find_rec _ _) as [o m] eqn:Hf. destruct (inv_lookup _ _ _ _ H Hf) as (Ho & Hc & H1).
    injection Hs as <-. destruct o as [p|].
    + apply inv_begin; [done|exact Hj|]. symmetry. rewrite Ho. f_equal. symmetry. exact Hc.
    + apply inv_wait; [done|exact Hj|done].
  - destruct (alloc_rec _ _) as [p m] eqn:Hf. injection Hs as <-.
    destruct (inv_alloc _ _ _ _ H Hf Ht) as (Hc & _ & H1).
    apply inv_begin; [done|exact Hj|exact Hc].
Qed.

Lemma pcap_step_inv w w' : inv w → pcap_step true w = Some w' → table w ⊆ table w' → inv w'.
Proof.
  intros H Hs Ht. destruct (w_pcap w) eqn:Hpc; try (eapply pcap_cache_inv; by eauto);
    unfold pcap_step in Hs; rewrite Hpc in Hs; destruct w as [[rs nx ct] pc mc out now h];
    cbn in Hpc; subst pc;
    unfold send_report, at_pcap, note, store, upd, set, rec_at in Hs; cbn in Hs;
    repeat case_match; simplify_eq; bool_to_prop; step_inv H; try done.
  - intros p0 j0 [= <- <-]. destruct (Hk _ _ eq_refl) as [->|Hk']; [left; tauto|].
    rewrite Hk'. right. done.
  - eapply cas_due; [exact Hd'|]. eapply cas_new; [exact (Hk _ _ eq_refl)|done].
  - rewrite (cas_new _ _ _ _ (Hk _ _ eq_refl)); [apply add_traffic_range|done].
  - rewrite (Hk _ _ eq_refl). eapply store_due. exact Hd'.
  - constructor; [|done]. cbn. apply (Hp _ _ eq_refl).
Qed.

(** [dpi_run] is bound to the record of a login. *)
Lemma inv_login w pc : inv w → main_job (w_main w) = None → (∀ ip, w_main w ≠ R_lookup ip) →
  main_job pc = None → (∀ ip, pc ≠ R_lookup ip ∧ pc ≠ R_insert ip) →
  (∀ p, login_ptr pc = Some p → p < m_next (w_meter w)) → inv (at_main pc w).
Proof.
  intros H Hj Hn Hpc Hne Hu'. destruct w as [[rs nx ct] pc0 mc out now h]. unfold at_main, set. cbn in *.
  destruct mc; try done; try (by destruct (Hn ip)); try (by destruct (i_insert _ H ip));
    destruct pc; try done; try (by edestruct Hne);
    step_inv H; try done; try lia; try (intros p' [=]; subst; by eauto).
Qed.

Lemma main_reply_lookup_inv w w' ip : inv w → w_main w = R_lookup ip → main_step w = Some w' → inv w'.
Proof.
  intros H Hmc Hs. unfold main_step in Hs. rewrite Hmc in Hs.
  destruct (find_rec _ _) as [o m] eqn:Hf. destruct (inv_lookup _ _ _ _ H Hf) as (Ho & Hc & H1).
  destruct (i_reply _ H _ Hmc) as [p Hp]. rewrite Hp in Ho. subst o. injection Hs as <-.
  destruct w as [[rs nx ct] pc mc out now h]. cbn in Hmc. subst mc. destruct m as [rs' nx' ct'].
  unfold at_main, set in *. cbn in *. rewrite <- Hc in Hp.
  step_inv H1; try rewrite Hp in Hl; close_field; try done; try lia.
Qed.

Ltac main_explicit w Hmc Hs H :=
  destruct w as [[rs nx ct] pc mc out now h]; cbn in Hmc; subst mc;
  unfold send_report, note, at_main, store, upd, set, rec_at in Hs; cbn in Hs;
  repeat case_match; simplify_eq; bool_to_prop; step_inv H; try done.

Lemma main_login_inv w w' : inv w → main_job (w_main w) = None → (∀ ip, w_main w ≠ R_lookup ip) →
  main_step w = Some w' → table w ⊆ table w' → inv w'.
Proof.
  intros H Hj Hn Hs Ht. unfold main_step in Hs. destruct (w_main w) eqn:Hmc; try done.
  - by destruct (Hn ip).
  - by destruct (i_insert _ H ip).
  - destruct (find_rec _ _) as [o m] eqn:Hf. destruct (inv_lookup _ _ _ _ H Hf) as (Ho & Hc & H1).
    injection Hs as <-.
    apply inv_login; [done|unfold set; cbn; rewrite Hmc; done|unfold set; cbn; rewrite Hmc; done|
      destruct o; done|destruct o; done|].
    intros q Hq. destruct o as [q'|]; [|done]. injection Hq as ->.
    symmetry in Ho. rewrite <- Hc in Ho. apply (i_table _ H1 _ _ Ho).
  - destruct (alloc_rec _ _) as [p m] eqn:Hf. injection Hs as <-.
    destruct (inv_alloc _ _ _ _ H Hf Ht) as (Hc & Hlt & H1).
    apply inv_login; [done|unfold set; cbn; rewrite Hmc; done|unfold set; cbn; rewrite Hmc; done|done|done|].
    intros q [= <-]. done.
  - main_explicit w Hmc Hs H.
  - main_explicit w Hmc Hs H.
  - main_explicit w Hmc Hs H.
Qed.

(** A reset by the other thread does not surprise [pcap_run] unless it is the one
    that reports. *)
Lemma knows_reset pc t p j : pcap_job pc = Some (p, j) → hold_pcap pc p = 0 →
  knows pc t → knows pc (- MinAckLen).
Proof.
  unfold hold_pcap, only. destruct pc; cbn; try done; try tauto.
  intros [= <- <-]. rewrite Z.eqb_refl. done.
Qed.

Lemma main_step_inv w w' : inv w → main_step w = Some w' → table w ⊆ table w' → inv w'.
Proof.
  intros H Hs Ht. destruct (main_job (w_main w)) as [[q ip]|] eqn:Hj.
  - unfold main_step in Hs. destruct (w_main w) eqn:Hmc; try done.
    all: main_explicit w Hmc Hs H.
    + pose proof (hold_out_nonneg out p'). pose proof (hold_nonneg pc R_idle ∅ p') as [? _]. lia.
    + intros p0 j0 Hp0. rewrite rec_insert. destruct (Z.eqb_spec p p0) as [<-|]; [|by eauto].
      cbn. eapply knows_reset; [exact Hp0| |by eauto]. specialize (Hl p). specialize (Hf p).
      unfold only in Hl. rewrite Z.eqb_refl in Hl. pose proof (hold_out_nonneg out p).
      pose proof (hold_nonneg pc R_idle ∅ p) as [? _]. lia.
    + destruct (u64_i32_spec (v + MinAckLen)) as [k2 ->]. exists (k0 - k2). lia.
    + constructor; [|done]. cbn. apply (Hm _ _ eq_refl).
  - destruct (w_main w) eqn:Hmc; try done;
      first [eapply main_reply_lookup_inv; by eauto | eapply main_login_inv; rewrite ?Hmc; by eauto].
Qed.

(** ** Runs *)

Lemma hold_out_delete l i e p : l !! i = Some e → hold_out l p = only e.1 p 1 + hold_out (delete i l) p.
Proof.
  revert i. induction l as [|x l IH]; intros [|i] Hi; try done.
  - injection Hi as ->. done.
  - change (delete (S i) (x :: l)) with (x :: delete i l). rewrite !hold_out_cons, (IH i) by done. lia.
Qed.

Lemma exec1_inv a w w' : inv w → answers a = true → exec1 true a w = Some w' →
  table w ⊆ table w' → inv w'.
Proof.
  intros H Ha Hs Ht. destruct a; cbn in Hs; try done.
  - destruct (w_pcap w) eqn:Hpc; try done. injection Hs as <-.
    apply inv_wait; [done|rewrite Hpc; done|done].
  - eapply pcap_step_inv; done.
  - eapply main_step_inv; done.
  - destruct w as [[rs nx ct] pc mc out now h]. cbn in *. destruct mc; try done.
    destruct (out !! i) as [[p r]|] eqn:Hi; [|done]. injection Hs as <-.
    assert (ct_r : contents ct !! tr_ip r = Some p) by exact (proj1 (Forall_lookup _ _) (i_out _ H) _ _ Hi).
    unfold at_main, set. step_inv H.
    + rewrite (hold_out_delete _ _ _ _ Hi), ct_r in *. cbn in Hl. unfold only in Hl. lia.
    + apply Forall_delete. done.
  - destruct (w_main w) eqn:Hmc; try done. injection Hs as <-.
    apply inv_login; try done; rewrite Hmc; done.
Qed.

Lemma inv_init now : inv (world_init now).
Proof.
  constructor; unfold world_init, Init, rec_at, due; cbn; rewrite ?empty_contents; try done.
  - intros p. exists 0. rewrite lookup_total_empty. done.
Qed.

(** A run in which the cache keeps what it has: nothing is evicted and no entry
    is inserted over another. *)
Inductive kept_run (old_first : bool) : world C → list act → world C → Prop :=
  | kept_nil w : kept_run old_first w [] w
  | kept_cons a l w w1 w' : exec1 old_first a w = Some w1 → table w ⊆ table w1 →
      kept_run old_first w1 l w' → kept_run old_first w (a :: l) w'.

Lemma kept_run_inv l w w' : kept_run true w l w' → forallb answers l = true → inv w → inv w'.
Proof.
  induction 1 as [|a l w w1 w' Ha Ht Hr IH]; [done|]. cbn. intros [Hx Hl]%andb_true_iff H.
  apply IH; [done|]. eapply exec1_inv; done.
Qed.

Lemma inv_conserved w p : inv w → w_pcap w = P_idle → w_main w = R_idle →
  iu_traffic (rec_at p w) = i32 (metered p (w_hist w) - dropped p (w_hist w) - reported p (w_hist w)).
Proof.
  intros H Hp Hm. destruct (i_due _ H p) as [k Hk]. pose proof (i_range _ H p) as Ht. rewrite Hp, Hm in Hk. cbn in Hk.
  fold (due p (w_hist w)). rewrite Hk.
  rewrite !Z.add_0_r. unfold swrap. rewrite <- Z.add_assoc, (Z.add_comm (k * 2 ^ 32)), Z.add_assoc, Z_mod_plus_full.
  symmetry. apply (swrap_id 32); [lia|done].
Qed.

(** C6: the two threads of the dpi, interleaved in any way between single memory
    accesses, lose and invent no traffic: when the arguments of atomic_cas are read left
    to right, the recorder answers each report at most once and the cache drops no
    entry, then whenever both threads are idle the traffic of every record is the bytes
    of the packets counted on it minus those dropped and those reported, as a 32 bit
    int. *)
Theorem meter_conserved now l w p : kept_run true (world_init now) l w → forallb answers l = true →
  w_pcap w = P_idle → w_main w = R_idle →
  iu_traffic (rec_at p w) = i32 (metered p (w_hist w) - dropped p (w_hist w) - reported p (w_hist w)).
Proof. intros Hr Ha. apply inv_conserved. exact (kept_run_inv _ _ _ Hr Ha (inv_init now)). Qed.

(** C21: reporting works as a lock: in any interleaving (under the same conditions) at
    most one report per record is unanswered, while one is unanswered the flag is set
    and pcap_run is not reporting on that record, and when both threads are idle a set
    flag means that a report is unanswered. *)
Theorem single_report now l w p : kept_run true (world_init now) l w → forallb answers l = true →
  hold_out (w_out w) p ≤ 1 ∧
  (hold_out (w_out w) p = 1 → iu_reporting (rec_at p w) = 1 ∧ hold_pcap (w_pcap w) p = 0) ∧
  (iu_reporting (rec_at p w) = 1 → w_pcap w = P_idle → w_main w = R_idle → hold_out (w_out w) p = 1).
Proof.
  intros Hr Ha. pose proof (kept_run_inv _ _ _ Hr Ha (inv_init now)) as H.
  pose proof (i_lock _ H p) as Hl. pose proof (i_flag _ H p) as Hf.
  pose proof (hold_nonneg (w_pcap w) (w_main w) (table w) p) as [??].
  pose proof (hold_out_nonneg (w_out w) p).
  split_and!; try lia. intros Hrep Hp Hm. rewrite Hp, Hm in Hl. cbn in Hl. lia.
Qed.
End Invariant.

(** ** A thread that is not interrupted *)

Section Solo.
Context {C : Type} `{!LruCache C}.

Lemma upd_upd p f g (m : meter C) : upd p f (upd p g m) = upd p (fun x => f (g x)) m.
Proof.
  destruct m as [rs nx ct]. unfold upd, set. cbn. rewrite lookup_total_insert_eq, insert_insert_eq. done.
Qed.

Lemma upd_ext p f g (m : meter C) : f (recs m !!! p) = g (recs m !!! p) → upd p f m = upd p g m.
Proof. intros E. unfold upd. rewrite E. done. Qed.

Lemma recs_upd p f (m : meter C) : recs (upd p f m) !!! p = f (recs m !!! p).
Proof. destruct m. unfold upd, set. cbn. apply lookup_total_insert_eq. Qed.

(** Some number of steps of [pcap_run], of [dpi_run]. *)
Definition goes (b : bool) (a : act) (w w' : world C) : Prop := ∃ n, run b (replicate n a) w = Some w'.

Lemma goes_refl b a w : goes b a w w.
Proof. exists O. done. Qed.

Lemma goes_step b a w w1 w' : exec1 b a w = Some w1 → goes b a w1 w' → goes b a w w'.
Proof. intros H1 [n Hn]. exists (S n). cbn. rewrite H1. done. Qed.

Ltac step_on :=
  eapply goes_step; [
    cbn -[upd]; unfold pcap_step, main_step, send_report, at_pcap, at_main, note, store, rec_at, set; cbn -[upd];
    rewrite ?recs_upd; cbn -[upd];
    repeat match goal with
           | H : ?b = true |- context [?b] => rewrite H
           | H : ?b = false |- context [?b] => rewrite H
           end;
    rewrite ?Z.eqb_refl; cbn [negb]; reflexivity
  |].

Lemma add_solo b p j fin m mc out now h :
  goes b APcap (MkWorld m (P_add1 p j fin) mc out now h)
    (MkWorld (upd p (fun x => x <| iu_traffic ::= fun t => add_traffic t (j_len j) |>) m) P_idle mc out now h).
Proof.
  destruct b; do 3 step_on; apply goes_refl.
Qed.

Lemma report_solo b p j m mc out now h : (iu_reporting (recs m !!! p) =? 0) = true →
  let x := recs m !!! p in
  let r := make_report (iu_mobile x) (iu_app x) (j_ip j) (u64 (iu_traffic x + j_len j + MinAckLen)) now in
  goes b APcap (MkWorld m (P_acquire p j) mc out now h)
    (MkWorld (upd p (fun x => x <| iu_reporting := 1 |> <| iu_traffic := - MinAckLen |> <| iu_fins := 0 |>) m)
       P_idle mc ((p, r) :: out) now (EvReport p (tr_traffic r) :: h)).
Proof.
  intros Hr x r. do 8 step_on. rewrite !upd_upd. apply goes_refl.
Qed.

Lemma count_solo b p j ft m mc out now h :
  let '(m', o) := count_packet p (j_ip j) (j_len j) ft now m in
  ∃ h', goes b APcap (MkWorld m (P_or_load p j ft) mc out now h)
    (MkWorld m' P_idle mc (match o with Some r => (p, r) :: out | None => out end) now h').
Proof.
  unfold count_packet. set (m1 := upd p (fun x => x <| iu_fins ::= Z.lor ft |>) m). cbv zeta.
  assert (∀ w', goes b APcap (MkWorld m1 (P_fin p j) mc out now h) w' →
            goes b APcap (MkWorld m (P_or_load p j ft) mc out now h) w') as Hstart.
  { intros w' Hw. do 2 step_on. exact Hw. }
  destruct (_ <=? _) eqn:Hfin; cbn [negb].
  2:{ eexists. apply Hstart. do 2 step_on. apply add_solo. }
  destruct (iu_reporting (recs m1 !!! p) =? 0) eqn:Hrep; cbn [andb].
  2:{ eexists. apply Hstart. do 2 step_on. apply add_solo. }
  destruct (256 <? iu_traffic (recs m1 !!! p)) eqn:Htr.
  2:{ eexists. apply Hstart. do 3 step_on. apply add_solo. }
  destruct (iu_mobile (recs m1 !!! p) =? 0) eqn:Hmob.
  { eexists. apply Hstart. do 4 step_on. apply goes_refl. }
  eexists. apply Hstart. do 4 step_on. apply (report_solo b p j m1). done.
Qed.

Lemma reply_solo b p ip m pc out now h : 0 ≤ iu_reporting (recs m !!! p) ≤ 1 →
  let '(m', o) := answer_reply p ip now m in
  ∃ h', goes b AMain (MkWorld m pc (R_head p ip) out now h)
    (MkWorld m' pc R_idle (match o with Some r => (p, r) :: out | None => out end) now h').
Proof.
  intros Hr. unfold answer_reply. cbv zeta.
  destruct (iu_reporting (recs m !!! p) =? 0) eqn:Hrep.
  { eexists. step_on. apply goes_refl. }
  assert ((iu_reporting (recs m !!! p) =? 1) = true) as H1 by (apply Z.eqb_eq; bool_to_prop; lia).
  destruct (256 <? iu_traffic (recs m !!! p)) eqn:Htr; cbn [andb].
  2:{ eexists. do 3 step_on. apply goes_refl. }
  destruct (Z.land (iu_fins (recs m !!! p)) (Z.lor fin_type_c fin_type_s) =? 0) eqn:Hfin; cbn [negb].
  { eexists. do 4 step_on. apply goes_refl. }
  eexists. do 10 step_on. rewrite upd_upd. apply goes_refl.
Qed.

Lemma login_solo b p u m pc out now h :
  goes b AMain (MkWorld m pc (U_ip p u) out now h)
    (MkWorld (upd p (fun x => x <| iu_ip_be := su_src_ip_be u |> <| iu_mobile := su_mobile u |>
                                <| iu_app := su_app u |>) m) pc R_idle out now h).
Proof. do 3 step_on. rewrite !upd_upd. apply goes_refl. Qed.

(** The lookup, and the insertion when it fails. *)
Lemma find_solo_pcap b j ft m mc out now h :
  let '(p, m') := find_or_alloc (j_ip j) m in
  ∀ w', goes b APcap (MkWorld m' (P_or_load p j ft) mc out now (EvPacket p (j_len j) :: h)) w' →
  goes b APcap (MkWorld m (P_lookup j ft) mc out now h) w'.
Proof.
  unfold find_or_alloc. destruct (find_rec (j_ip j) m) as [[p|] m1] eqn:Hf.
  - intros w' Hw. eapply goes_step; [|exact Hw]. cbn. unfold pcap_step. cbn. rewrite Hf. done.
  - cbn. intros w' Hw. eapply goes_step; [cbn; unfold pcap_step; cbn; rewrite Hf; reflexivity|].
    eapply goes_step; [|exact Hw]. done.
Qed.

Lemma find_solo_main b ip pc_start pc_insert pc_go m pc out now h :
  (pc_start = R_lookup ip ∧ pc_insert = R_insert ip ∧ pc_go = fun p => R_head p ip) ∨
  (∃ u, ip = su_src_ip_be u ∧ pc_start = U_lookup u ∧ pc_insert = U_insert u ∧ pc_go = fun p => U_ip p u) →
  let '(p, m') := find_or_alloc ip m in
  ∀ w', goes b AMain (MkWorld m' pc (pc_go p) out now h) w' →
  goes b AMain (MkWorld m pc pc_start out now h) w'.
Proof.
  intros Hpc. unfold find_or_alloc. destruct (find_rec ip m) as [[p|] m1] eqn:Hf; cbn; intros w' Hw;
    destruct Hpc as [(-> & -> & ->)|(u & -> & -> & -> & ->)].
  1, 2: eapply goes_step; [|exact Hw]; cbn; unfold main_step; cbn; rewrite Hf; done.
  all: eapply goes_step; [cbn; unfold main_step; cbn; rewrite Hf; reflexivity|];
    eapply goes_step; [|exact Hw]; done.
Qed.

(** The reports waiting for an answer. *)
Definition open_reports (w : world C) : list TrafficReport := map snd (w_out w).

Lemma goes_run b a a0 w w1 w' : exec1 b a0 w = Some w1 → goes b a w1 w' →
  ∃ n, run b (a0 :: replicate n a) w = Some w'.
Proof. intros H1 [n Hn]. exists n. cbn. rewrite H1. done. Qed.

Definition sent_after (o : option TrafficReport) (w : world C) : list TrafficReport :=
  match o with Some r => r :: open_reports w | None => open_reports w end.

Definition idle (w : world C) : Prop := w_pcap w = P_idle ∧ w_main w = R_idle.

Lemma packet_alone b ip l ft w : idle w →
  ∃ n w', run b (APacket ip l ft :: replicate n APcap) w = Some w' ∧ idle w' ∧
    (w_meter w', open_reports w') =
      let '(m, o) := OnTrafficReport ip l ft (w_now w) (w_meter w) in (m, sent_after o w).
Proof.
  destruct w as [m pc mc out now h]. intros [[= ->] [= ->]]. cbn [w_meter w_now].
  pose proof (find_solo_pcap b (MkJob ip l) ft m R_idle out now h) as H1.
  unfold OnTrafficReport. cbn in H1. destruct (find_or_alloc ip m) as [p m1].
  pose proof (count_solo b p (MkJob ip l) ft m1 R_idle out now (EvPacket p l :: h)) as H2.
  cbn in H2. destruct (count_packet _ _ _ _ _ _) as [m2 o]. destruct H2 as [h' H2].
  destruct (goes_run b APcap (APacket ip l ft) (MkWorld m P_idle R_idle out now h) _ _ eq_refl (H1 _ H2))
    as [n Hn].
  exists n. eexists. split; [exact Hn|]. destruct o; done.
Qed.

Lemma find_flag ip (m : meter C) p m' : find_or_alloc ip m = (p, m') →
  (∀ q, 0 ≤ iu_reporting (recs m !!! q) ≤ 1) → ∀ q, 0 ≤ iu_reporting (recs m' !!! q) ≤ 1.
Proof.
  unfold find_or_alloc, find_rec, alloc_rec. destruct (cache_lookup _ _) as [[q'|] c];
    intros [= <- <-] Hf q; unfold set; cbn; [apply Hf|].
  rewrite rec_insert. destruct (_ =? _); [cbn; lia|apply Hf].
Qed.

Lemma reply_alone b ip w : idle w → (∀ p, 0 ≤ iu_reporting (rec_at p w) ≤ 1) →
  ∃ n w', run b (AStray ip :: replicate n AMain) w = Some w' ∧ idle w' ∧
    (w_meter w', open_reports w') =
      let '(m, o) := OnTrafficReportReply ip (w_now w) (w_meter w) in (m, sent_after o w).
Proof.
  destruct w as [m pc mc out now h]. intros [[= ->] [= ->]] Hf. cbn [w_meter w_now].
  pose proof (find_solo_main b ip _ _ _ m P_idle out now h (or_introl (conj eq_refl (conj eq_refl eq_refl)))) as H1.
  unfold OnTrafficReportReply. destruct (find_or_alloc ip m) as [p m1] eqn:Hfa.
  pose proof (reply_solo b p ip m1 P_idle out now h (find_flag _ _ _ _ Hfa Hf p)) as H2.
  destruct (answer_reply _ _ _ _) as [m2 o]. destruct H2 as [h' H2].
  destruct (goes_run b AMain (AStray ip) (MkWorld m P_idle R_idle out now h) _ _ eq_refl (H1 _ H2)) as [n Hn].
  exists n. eexists. split; [exact Hn|]. destruct o; done.
Qed.

Lemma login_alone b u w : idle w →
  ∃ n w', run b (ALogin u :: replicate n AMain) w = Some w' ∧ idle w' ∧
    (w_meter w', open_reports w') = (OnUserLogin u (w_meter w), open_reports w).
Proof.
  destruct w as [m pc mc out now h]. intros [[= ->] [= ->]]. cbn [w_meter w_now].
  pose proof (find_solo_main b (su_src_ip_be u) _ _ _ m P_idle out now h
                (or_intror (ex_intro _ u (conj eq_refl (conj eq_refl (conj eq_refl eq_refl)))))) as H1.
  unfold OnUserLogin. destruct (find_or_alloc _ m) as [p m1].
  destruct (goes_run b AMain (ALogin u) (MkWorld m P_idle R_idle out now h) _ _ eq_refl
              (H1 _ (login_solo b p u m1 P_idle out now h))) as [n Hn].
  exists n. eexists. split; [exact Hn|]. done.
Qed.

(** A thread that is not interrupted ends its call, and the single steps of
    OnTrafficReport, OnTrafficReportReply and OnUserLogin have the effect of the
    sequential functions: the same records, cache and report. *)
Theorem uninterrupted b ip l ft u w : idle w → (∀ p, 0 ≤ iu_reporting (rec_at p w) ≤ 1) →
  (∃ n w', run b (APacket ip l ft :: replicate n APcap) w = Some w' ∧ idle w' ∧
     (w_meter w', open_reports w') =
       let '(m, o) := OnTrafficReport ip l ft (w_now w) (w_meter w) in (m, sent_after o w)) ∧
  (∃ n w', run b (AStray ip :: replicate n AMain) w = Some w' ∧ idle w' ∧
     (w_meter w', open_reports w') =
       let '(m, o) := OnTrafficReportReply ip (w_now w) (w_meter w) in (m, sent_after o w)) ∧
  (∃ n w', run b (ALogin u :: replicate n AMain) w = Some w' ∧ idle w' ∧
     (w_meter w', open_reports w') = (OnUserLogin u (w_meter w), open_reports w)).
Proof. auto using packet_alone, reply_alone, login_alone. Qed.

End Solo.

(** ** Concrete runs *)

Definition user1 : SynUserTuple := MkSynUserTuple SYN_USER_TUPLE 7 13800000000 99 0.

(** A client logs in, sends 300 bytes and closes: one report; the answer finds
    nothing new and ends the reporting. *)
Definition normal_acts : list act :=
  ALogin user1 :: replicate 5 AMain ++ APacket 99 300 1 :: replicate 8 APcap
  ++ APacket 99 50 2 :: replicate 15 APcap ++ AReply 0 :: replicate 4 AMain.

Definition world0 : world (gmap Z ptr) := world_init (Tv 0 0).

Definition final (b : bool) (l : list act) : world (gmap Z ptr) := default world0 (run b l world0).

Example normal_run : let w := final true normal_acts in
  (w_pcap w, w_main w, w_out w, reported 1 (w_hist w), metered 1 (w_hist w), iu_traffic (rec_at 1 w))
  = (P_idle, R_idle, [], 390, 350, -40).
Proof. vm_compute. reflexivity. Qed.

(** An executable form of [kept_run]. *)
Section Kept.
Context {C : Type} `{!LruCache C}.

Fixpoint run_kept (b : bool) (l : list act) (w : world C) : option (world C) :=
  match l with
  | [] => Some w
  | a :: l =>
    w1 ← exec1 b a w;
    if bool_decide (contents (cache_tbl (w_meter w)) ⊆ contents (cache_tbl (w_meter w1)))
    then run_kept b l w1 else None
  end.

Lemma run_kept_sound b l w w' : run_kept b l w = Some w' → kept_run b w l w'.
Proof.
  revert w. induction l as [|a l IH]; cbn; intros w Hr.
  - injection Hr as <-. constructor.
  - destruct (exec1 b a w) as [w1|] eqn:Ha; [|done]. cbn in Hr.
    destruct (bool_decide_reflect (contents (cache_tbl (w_meter w)) ⊆ contents (cache_tbl (w_meter w1))));
      [|done].
    econstructor; eauto.
Qed.

End Kept.

(** The final state of a run, and that the run is one in which the cache keeps
    everything. *)
Lemma normal_kept : kept_run true world0 normal_acts (final true normal_acts).
Proof. apply run_kept_sound. vm_compute. reflexivity. Qed.

(** Witness of C6. *)
Lemma meter_conserved_witness : iu_traffic (rec_at 1 (final true normal_acts)) = -40 ∧
  iu_traffic (rec_at 1 (final true normal_acts)) =
    i32 (metered 1 (w_hist (final true normal_acts)) - dropped 1 (w_hist (final true normal_acts))
         - reported 1 (w_hist (final true normal_acts))).
Proof.
  split; [vm_compute; reflexivity|].
  apply (meter_conserved (Tv 0 0) normal_acts (final true normal_acts) 1 normal_kept); vm_compute; reflexivity.
Defined.

(** The run stopped while the first report is open. *)
Definition open_acts : list act := take 31 normal_acts.

Lemma open_kept : kept_run true world0 open_acts (final true open_acts).
Proof. apply run_kept_sound. vm_compute. reflexivity. Qed.

(** Witness of C21. *)
Lemma single_report_witness : hold_out (w_out (final true open_acts)) 1 = 1 ∧
  iu_reporting (rec_at 1 (final true open_acts)) = 1.
Proof.
  assert (hold_out (w_out (final true open_acts)) 1 = 1) as H by (vm_compute; reflexivity).
  split; [exact H|].
  exact (proj1 (proj1 (proj2 (single_report (Tv 0 0) open_acts (final true open_acts) 1 open_kept eq_refl)) H)).
Defined.

Lemma uninterrupted_witness : ∃ n w', run true (APacket 99 300 1 :: replicate n APcap) world0 = Some w' ∧
  idle w' ∧ (w_meter w', open_reports w') =
    let '(m, o) := OnTrafficReport 99 300 1 (w_now world0) (w_meter world0) in (m, sent_after o world0).
Proof.
  apply (uninterrupted true 99 300 1 user1 world0); [split; reflexivity|].
  intros p. unfold rec_at. cbn. rewrite lookup_total_empty. cbn. split; discriminate.
Defined.

(** Another packet is counted; between the two reads of the record's traffic the
    answer to the open report is handled. *)
Definition race_acts : list act :=
  open_acts ++ APacket 99 400 1 :: replicate 8 APcap ++ APacket 99 10 0 :: replicate 6 APcap
  ++ AReply 0 :: replicate 11 AMain ++ replicate 2 APcap.

(** When the compiler reads the third argument of atomic_cas before the second,
    which C++ allows, a reply handled between the two reads makes bytes that were
    reported be counted again: in this run the record holds 400 bytes too many. *)
Theorem argument_order_race : ∃ w, run_kept false race_acts world0 = Some w ∧
  forallb answers race_acts = true ∧ idle w ∧
  metered 1 (w_hist w) - dropped 1 (w_hist w) - reported 1 (w_hist w) = -30 ∧
  iu_traffic (rec_at 1 w) = 370.
Proof. eexists. split; [vm_compute; reflexivity|]. vm_compute. done. Qed.

(** A [TRAFFIC_REPORT_RSP] arrives while [pcap_run] is about to reset the count. *)
Definition stray_acts : list act :=
  take 15 normal_acts ++ APacket 99 50 2 :: replicate 9 APcap ++ AStray 99 :: replicate 11 AMain
  ++ replicate 6 APcap.

(** A TRAFFIC_REPORT_RSP that answers no report, handled while pcap_run is between
    computing its report and resetting the counter, makes both threads report the same
    bytes: 730 bytes are reported for 350 metered. *)
Theorem stray_reply_overcharges : ∃ w, run_kept true stray_acts world0 = Some w ∧ idle w ∧
  metered 1 (w_hist w) = 350 ∧ reported 1 (w_hist w) = 730 ∧ iu_traffic (rec_at 1 w) = -40.
Proof. eexists. split; [vm_compute; reflexivity|]. vm_compute. done. Qed.

End DpiMeter.
