(* ===== verification/DpiNet.v ===== *)
(** * The dpi process (src/ic-dpi/ic-dpi/ConnectMgr.cpp, PcapModule.cpp, main.cpp)

    [dpi_packet_process] reads a captured packet and hands it to the meter; the
    connection manager keeps the connections of the tunnel servers and the one to
    the recorder and hands their messages to the meter; [dpi_run] is the event
    loop.  The meter's operations are the sequential ones of [DpiMeter], which its
    threads implement. *)

From S2P Require Import Prelude Wire Frame Os TmsAccount DpiMeter.
From stdpp Require Import base gmap list strings.
From Stdlib Require Import ZArith Lia.
Import Wire Frame Os DpiMeter.

Open Scope Z_scope.

Module DpiNet.

(** ** Captured packets *)

Definition ETH_HDR : nat := 14.

(** A field of a header in the captured bytes: reading past them is a fault. *)
Definition peek (off n : nat) (l : bytes) : result Z :=
  if (off + n <=? length l)%nat then Ok (fld off n l) else Bad OutOfBounds.

(** What [dpi_packet_process] hands to [OnTrafficReport]: the client's address,
    the bytes (as the [U64] parameter) and the [FinType].  [len] is
    [pkthdr->len], unsigned, so the subtractions are unsigned too. *)
Definition dpi_packet_process (tms_addr len : Z) (packet : bytes) : result (Z * Z * Z) :=
  let ip_hdr := drop ETH_HDR packet in
  match peek 0 1 ip_hdr, peek 12 4 ip_hdr, peek 16 4 ip_hdr with
  | Ok b0, Ok src, Ok dst =>
    let tcp_hdr := drop (Z.to_nat (4 * Z.land b0 15)) ip_hdr in
    match peek 13 1 tcp_hdr with
    | Ok flags =>
      let fin := Z.testbit flags 0 in
      let rst := Z.testbit flags 2 in
      let '(client, fin_type) :=
        if src =? tms_addr then (dst, if fin then fin_type_s else 0)
        else (src, if fin then fin_type_c else 0) in
      let fin_type := if rst then fin_type_r else fin_type in
      let payload_len := TmsAccount.TelecomTrafficPredict (i32 (u32 (len - 14 - TmsAccount.Tcp_Ack_Len))) in
      Ok (client, u64 payload_len, fin_type)
    | Bad f => Bad f
    end
  | Bad f, _, _ | _, Bad f, _ | _, _, Bad f => Bad f
  end.

(** ** Connections *)

Definition t_center : Z := 3.
Definition t_dpi : Z := 5.
Definition t_tms : Z := 6.

Record Connect := MkConnect {
  k_sock_fd : Z;              (* U64 *)
  k_status : Z;
  k_type : Z;
  k_exit : Z;
  k_tmsid : Z;
  k_datalen : Z;
  k_reader : reader;          (* cstate, h.len, stillneedtoread, offset, buff *)
}.

#[export] Instance eta_connect : Eta Connect := fun x =>
  MkConnect (k_sock_fd x) (k_status x) (k_type x) (k_exit x) (k_tmsid x) (k_datalen x) (k_reader x).

(** [new Connect] *)
Definition Connect_new (buf : bytes) : Connect := MkConnect 0 0 0 0 0 0 (Reader s_header 0 0 0 buf).

(** [Connect::Reset]: [offset] and [datalen] are locals of the function. *)
Definition Connect_Reset (c : Connect) : Connect :=
  c <| k_reader ::= fun r => r <| stillneedtoread := 0 |> <| cstate := s_header |> |>
    <| k_status := 0 |> <| k_type := 0 |> <| k_sock_fd := u64 (-1) |>.

Section Dpi.
Context {C : Type} `{!LruCache C}.

Record dpi := MkDpi {
  conns : gmap Z Connect;
  next_conn : Z;
  fresh_buff : bytes;               (* what a new receive buffer holds *)
  Epoll_FD : Z;
  ConnMap : gmap Z Z;
  CenterConnPool : list Z;
  TmsConnPool : list Z;
  lm : meter C;
  d_sys : os;
}.

#[export] Instance eta_dpi : Eta dpi := fun x =>
  MkDpi (conns x) (next_conn x) (fresh_buff x) (Epoll_FD x) (ConnMap x) (CenterConnPool x)
    (TmsConnPool x) (lm x) (d_sys x).

#[export] Program Instance dpi_os : HasOs dpi := {|
  the_os := d_sys;
  with_os f s := s <| d_sys ::= f |>;
|}.
Next Obligation. done. Qed.

Abbreviation D := (M dpi).

Definition conn (p : Z) : D Connect := fun s =>
  match conns s !! p with Some c => Ok (c, s) | None => Bad UseAfterFree end.

Definition set_conn (p : Z) (f : Connect → Connect) : D unit := fun s =>
  match conns s !! p with
  | Some c => Ok (tt, s <| conns := <[p := f c]> (conns s) |>)
  | None => Bad UseAfterFree
  end.

Definition new_conn : D Z := fun s =>
  let p := next_conn s in
  Ok (p, s <| conns := <[p := Connect_new (fresh_buff s)]> (conns s) |> <| next_conn := p + 1 |>).

Definition free_conn (p : Z) : D unit := fun s =>
  match conns s !! p with
  | Some _ => Ok (tt, s <| conns := delete p (conns s) |>)
  | None => Bad UseAfterFree
  end.

(** [_CenterConnPool[0]] *)
Definition GetCenterConn : D Z := fun s =>
  match CenterConnPool s with p :: _ => Ok (p, s) | [] => Bad OutOfBounds end.

Definition GetTmsConn : D Z := fun s =>
  match TmsConnPool s with p :: _ => Ok (p, s) | [] => Bad OutOfBounds end.

Definition GetConn (fd : Z) : D (option Z) := gets (fun s => ConnMap s !! fd).

(** *** epoll *)

Definition ctl_event (op fd events : Z) : D Z :=
  ep ← gets Epoll_FD;
  if (ep =? 0) || (fd =? 0) || (events =? 0) then mret (-1) else
  r ← epoll_ctl op fd events;
  if r =? -1 then mret (-1) else mret 0.

Definition AddEvent (fd events : Z) : D Z := ctl_event EPOLL_CTL_ADD fd events.
Definition RemoveEvent (fd events : Z) : D Z := ctl_event EPOLL_CTL_DEL fd events.
Definition ModifyEvent (fd events : Z) : D Z := ctl_event EPOLL_CTL_MOD fd events.

Definition IN_OUT_ET : Z := Z.lor (Z.lor EPOLLIN EPOLLOUT) EPOLLET.
Definition IN_ET : Z := Z.lor EPOLLIN EPOLLET.

(** [delete c]: [Connect::~Connect], then the memory is gone. *)
Definition delete_conn (p : Z) : D unit :=
  c ← conn p;
  (if 0 <? k_sock_fd c
   then _ ← RemoveEvent (k_sock_fd c) IN_OUT_ET; close (k_sock_fd c)
   else mret tt);;
  free_conn p.

(** *** Sending *)

Definition SendMsg (p : Z) (msg : bytes) : D Z :=
  c ← conn p;
  send (k_sock_fd c) msg.

Definition SendTmsMsg (p : Z) (msg : bytes) : D Z :=
  c ← conn p;
  tmsMsg ← lift (SendTmsMsg_bytes msg);
  send (k_sock_fd c) tmsMsg.

(** *** The meter's operations with the report they send *)

Definition send_to_center (o : option TrafficReport) : D unit :=
  match o with
  | None => mret tt
  | Some r => c ← GetCenterConn; _ ← SendTmsMsg c (penc r); mret tt
  end.

Definition meter_op (f : timeval → meter C → meter C * option TrafficReport) : D unit :=
  now ← gettimeofday;
  m ← gets lm;
  let '(m', o) := f now m in
  modify (fun s => s <| lm := m' |>);;
  send_to_center o.

(** [HandleRecvMsg] *)
Definition HandleRecvMsg (msg : bytes) (msglen : Z) : D Z :=
  if msglen <? 4 then mret (-1) else
  let msg_id := fld 0 2 msg in
  (if msg_id =? SYN_USER_TUPLE then
     modify (fun s => s <| lm ::= OnUserLogin (pdec msg) |>)
   else if msg_id =? TRAFFIC_REPORT_RSP then
     meter_op (OnTrafficReportReply (tp_ip (pdec msg)))
   else mret tt);;
  mret 0.

(** A packet reaches [pcap_run]. *)
Definition on_packet (tms_addr len : Z) (packet : bytes) : D unit :=
  '(ip, l, ft) ← lift (dpi_packet_process tms_addr len packet);
  meter_op (OnTrafficReport ip l ft).

(** *** Receiving *)

(** [Connect::StreamRecvEvent]; the fuel counts reads. *)
Fixpoint recv_loop (fuel : nat) (p : Z) (fd : Z) : D Z :=
  match fuel with
  | O => fail_with OutOfFuel
  | S fuel' =>
    c ← conn p;
    let r := k_reader c in
    '(length_, got) ← read fd (stillneedtoread r);
    if length_ <=? 0 then mret length_
    else if negb (offset r + length_ <=? Z.of_nat (length (buff r))) then fail_with OutOfBounds
    else
      let r := r <| buff := blit (Z.to_nat (offset r)) got (buff r) |> in
      set_conn p (fun c => c <| k_reader := r |>);;
      if bool_decide (cstate r ≠ s_forward) && (length_ <? stillneedtoread r) then
        set_conn p (fun c => c <| k_reader := r <| offset := u16 (offset r + length_) |>
                                   <| stillneedtoread := u16 (stillneedtoread r - length_) |> |>);;
        mret (-2)
      else
        match cstate r with
        | s_header =>
          let h := pdec (buff r) in
          if negb (delim0 h =? VALIDATER0) || negb (delim1 h =? VALIDATER1) then mret (-1)
          else
            let len := ntohs (hlen16 h) in
            set_conn p (fun c => c <| k_reader := r <| h_len := len |> <| cstate := s_body |> <| offset := 0 |>
                                       <| stillneedtoread := len |> |>);;
            recv_loop fuel' p fd
        | s_body =>
          set_conn p (fun c => c <| k_reader := r <| cstate := s_header |> <| stillneedtoread := HDR |>
                                     <| offset := 0 |> |>);;
          _ ← HandleRecvMsg (buff r) (h_len r);
          recv_loop fuel' p fd
        | _ => recv_loop fuel' p fd
        end
  end.

(** Every read but the last takes a byte from the socket. *)
Definition StreamRecvEvent (p : Z) : D Z := fun s =>
  match conns s !! p with
  | Some c => recv_loop (S (length (rx_of (k_sock_fd c) (d_sys s)).1)) p (k_sock_fd c) s
  | None => Bad UseAfterFree
  end.

(** *** ConnectMgr *)

Definition erase_first (p : Z) (l : list Z) : list Z :=
  match list_find (eq p) l with
  | Some (i, _) => delete i l
  | None => l
  end.

Definition RemoveConn (fd : Z) : D Z :=
  if fd <? 0 then mret (-1) else
  m ← gets ConnMap;
  match m !! fd with
  | None => mret 0
  | Some p =>
    c ← conn p;
    (if k_type c =? t_center
     then modify (fun s => s <| CenterConnPool := erase_first p (CenterConnPool s) |>)
     else mret tt);;
    delete_conn p;;
    modify (fun s => s <| ConnMap := delete fd (ConnMap s) |>);;
    mret 0
  end.

Definition HandleAcceptEvent : D Z :=
  newfd ← accept;
  if 0 <? newfd then
    m ← gets ConnMap;
    p ← match m !! newfd with
        | Some p => set_conn p Connect_Reset;; mret p
        | None => new_conn
        end;
    set_conn p (fun c => c <| k_sock_fd := newfd |>);;
    modify (fun s => s <| ConnMap := <[newfd := p]> (ConnMap s) |>);;
    set_conn p (fun c => c <| k_type := t_tms |>
                           <| k_reader ::= fun r => r <| stillneedtoread := HDR |> |>);;
    mret newfd
  else mret newfd.

Definition HandleRecvEvent (fd : Z) : D Z :=
  m ← gets ConnMap;
  match m !! fd with
  | None => mret (-2)
  | Some p =>
    ret ← StreamRecvEvent p;
    (if negb (ret =? -1) then
       c ← conn p;
       if negb (k_exit c =? 0) then _ ← RemoveConn (k_sock_fd c); mret tt else mret tt
     else mret tt);;
    mret ret
  end.

Definition HandleEPOEvent (fd : Z) : D Z := mret 0.

(** The common part of [CreateTmsConn] and [CreateCenterConn]. *)
Definition create_conn (ip port ty : Z) (pool : Z → dpi → dpi) : D (option (Z * Z)) :=
  s ← socket;
  if s <=? 0 then mret None else
  ret ← connect s ip (htons port);
  if ret <? 0 then close s;; mret None else
  if ret =? 0 then
    p ← new_conn;
    modify (fun st => st <| ConnMap := <[s := p]> (ConnMap st) |>);;
    modify (pool p);;
    set_conn p (fun c => c <| k_sock_fd := s |> <| k_type := ty |> <| k_datalen := 0 |>
                           <| k_reader ::= fun r => r <| cstate := s_header |> <| stillneedtoread := HDR |> |>);;
    mret (Some (p, s))
  else mret None.

Definition CreateTmsConn (ip port : Z) : D (option (Z * Z)) :=
  create_conn ip port t_dpi (fun p st => st <| TmsConnPool := TmsConnPool st ++ [p] |>).

Definition CreateCenterConn (ip port : Z) : D (option (Z * Z)) :=
  create_conn ip port t_center (fun p st => st <| CenterConnPool := CenterConnPool st ++ [p] |>).

(** *** The event loop of [dpi_run]

    [err] is an uninitialised local that only the [EPOLLOUT] branch sets, through
    [getsockopt]; it is threaded through the loop. *)

Definition CENTER : Z := 0x0100007f.        (* inet_addr("127.0.0.1") *)
Definition CENTERPORT : Z := 10170.

Inductive recv_next := Next | FallThrough.

(** The [do ... while (err == EINTR)] on a readable connection.  When the
    uninitialised [err] is EINTR it repeats until [HandleRecvEvent] returns
    something that leaves it; the fuel counts rounds. *)
Fixpoint recv_event (fuel : nat) (fd events err : Z) : D recv_next :=
  match fuel with
  | O => fail_with OutOfFuel
  | S fuel' =>
    ret ← HandleRecvEvent fd;
    if ret =? -2 then mret Next
    else if ret =? -1 then
      e ← errno;
      if e =? EAGAIN then mret Next
      else if negb (Z.land events EPOLLERR =? 0) then
        _ ← RemoveConn fd; close fd;; mret Next
      else _ ← RemoveConn fd; mret Next
    else if ret =? 0 then
      if negb (err =? EINTR) then _ ← RemoveConn fd; mret Next
      else mret FallThrough
    else if err =? EINTR then recv_event fuel' fd events err
    else mret FallThrough
  end.

(** [StreamRecvEvent] never returns a positive value, so one round is enough. *)
Definition RECV_ROUNDS : nat := 1.

(** One event; the new value of [err] is returned. *)
Definition handle_event (m_socket fd events err : Z) : D Z :=
  n ← (if negb (Z.land events EPOLLIN =? 0) then
         if fd =? m_socket then
           currfd ← HandleAcceptEvent;
           (if 0 <? currfd then _ ← AddEvent currfd IN_OUT_ET; mret tt else mret tt);;
           mret FallThrough
         else recv_event RECV_ROUNDS fd events err
       else mret FallThrough);
  match n with
  | Next => mret err
  | FallThrough =>
    if negb (Z.land events EPOLLOUT =? 0) then
      e ← so_error fd;
      (if (e =? 0) || (e =? EAGAIN) then
         ret ← HandleEPOEvent fd;
         if ret =? -1 then shutdown fd else mret tt
       else mret tt);;
      mret e
    else mret err
  end.

Fixpoint handle_events (m_socket : Z) (l : list (Z * Z)) (err : Z) : D Z :=
  match l with
  | [] => mret err
  | (fd, events) :: l => err ← handle_event m_socket fd events err; handle_events m_socket l err
  end.

(** Start-up of [dpi_run] after the listening socket is set up. *)
Definition dpi_start (epfd m_socket : Z) : D Z :=
  modify (fun s => s <| lm := Init |> <| Epoll_FD := epfd |>);;
  r ← epoll_ctl EPOLL_CTL_ADD m_socket IN_ET;
  if r =? -1 then mret (-1) else
  c ← CreateCenterConn CENTER CENTERPORT;
  match c with
  | None => mret (-1)
  | Some (_, fd) => _ ← AddEvent fd IN_ET; mret 0
  end.

Definition dpi_init (buf : bytes) (o : os) : dpi := MkDpi ∅ 1 buf (-1) ∅ [] [] Init o.

End Dpi.
Arguments dpi C : clear implicits.

End DpiNet.
