(* ===== verification/DpiProps.v ===== *)
(** * Properties of the dpi process

    Memory safety of the connection manager and of the event loop, the bound on
    what a packet adds to the meter, and what the loss of the recorder's
    connection does. *)

From S2P Require Import Prelude Triple Wire Frame Os TmsAccount DpiMeter DpiNet.
From stdpp Require Import base gmap list strings.
From Stdlib Require Import ZArith Lia.
Import Triple Wire Frame Os DpiMeter DpiNet.

Open Scope Z_scope.

Module DpiProps.

(** Triples that tolerate an access past the end of an array and no other fault. *)
Abbreviation hoare := (triple (fun f => f = OutOfBounds)).

(** Operations that change nothing in the memory of the process. *)
Section Invariant.
Context {C : Type} `{!LruCache C}.
Abbreviation St := (dpi C).

(** Everything but the meter and the operating system. *)
Definition mem (s : St) := (conns s, next_conn s, ConnMap s, CenterConnPool s).

Definition frames {A} (m : M St A) : Prop :=
  ∀ s, match m s with Ok (_, s') => mem s' = mem s | Bad f => f = OutOfBounds end.

Lemma frames_ret {A} (a : A) : frames (mret a).
Proof. intros s. done. Qed.
Lemma frames_gets {A} (f : St → A) : frames (gets f).
Proof. intros s. done. Qed.
Lemma frames_bind {A B} (m : M St A) (k : A → M St B) :
  frames m → (∀ a, frames (k a)) → frames (m ≫= k).
Proof.
  intros Hm Hk s. unfold mbind, M_bind. specialize (Hm s). destruct (m s) as [[a s1]|f]; [|done].
  specialize (Hk a s1). destruct (k a s1) as [[b s2]|f]; [|done]. congruence.
Qed.

Lemma frames_read fd n : frames (read fd n).
Proof.
  intros s. unfold read. destruct (rx_of fd (the_os s)) as [avail eof].
  destruct (sock_read n avail eof) as [k got]. destruct (0 <? k), (k <? 0); done.
Qed.
Lemma frames_send fd d : frames (send fd d).
Proof. intros s. unfold send. destruct (_ <? 0); done. Qed.
Lemma frames_epoll op fd e : frames (epoll_ctl op fd e).
Proof. intros s. unfold epoll_ctl. destruct (o_ctl _); [done|]. destruct (_ <? 0); done. Qed.
Lemma frames_accept : frames accept.
Proof. intros s. unfold accept. destruct (o_accept _); done. Qed.
Lemma frames_close fd : frames (close fd).
Proof. intros s. done. Qed.
Lemma frames_shutdown fd : frames (shutdown fd).
Proof. intros s. done. Qed.

Lemma frames_ctl op fd e : frames (ctl_event op fd e).
Proof.
  unfold ctl_event. apply frames_bind; [apply frames_gets|intros ep].
  destruct (_ || _); [apply frames_ret|]. apply frames_bind; [apply frames_epoll|intros r].
  destruct (_ =? _); apply frames_ret.
Qed.

Lemma hoare_frames {A} (m : M St A) P : frames m → (∀ s s', mem s' = mem s → P s → P s') →
  hoare P m (fun _ => P).
Proof.
  intros Hm HP s Hs. specialize (Hm s). destruct (m s) as [[a s']|f]; [|done]. eapply HP; done.
Qed.

(** ** The invariant of the connection tables *)

Record dinv (s : St) : Prop := MkDinv {
  d_map fd p : ConnMap s !! fd = Some p → ∃ c, conns s !! p = Some c ∧ k_sock_fd c = fd;
  d_pool p : p ∈ CenterConnPool s →
    ∃ c, conns s !! p = Some c ∧ k_type c = t_center ∧ ConnMap s !! k_sock_fd c = Some p;
  d_nodup : NoDup (CenterConnPool s);
  d_next p c : conns s !! p = Some c → p < next_conn s;
}.

Lemma dinv_mem s s' : mem s' = mem s → dinv s → dinv s'.
Proof. unfold mem. intros [= E1 E2 E3 E4] [H1 H2 H3 H4]. constructor; rewrite ?E1, ?E2, ?E3, ?E4; done. Qed.

Definition live (p : Z) (s : St) : Prop := is_Some (conns s !! p).

Lemma live_mem p s s' : mem s' = mem s → live p s → live p s'.
Proof. unfold mem, live. intros [= E1 E2 E3 E4]. rewrite E1. done. Qed.

(** Updates of a connection that leave its descriptor and type alone. *)
Lemma dinv_set p f c s : (∀ c, k_sock_fd (f c) = k_sock_fd c ∧ k_type (f c) = k_type c) →
  conns s !! p = Some c → dinv s → dinv (s <| conns := <[p := f c]> (conns s) |>).
Proof.
  intros Hf Hc [H1 H2 H3 H4]. destruct s as [cs nx fb ep cm cp tp m o]. unfold set. cbn in *.
  destruct (Hf c) as [Hfd Hty]. constructor; cbn; try done.
  - intros fd q Hq. destruct (H1 fd q Hq) as (c' & Hc' & Hs).
    destruct (decide (p = q)) as [<-|]; [|rewrite lookup_insert_ne by done; eauto].
    rewrite lookup_insert_eq. exists (f c). split; [done|]. congruence.
  - intros q Hq. destruct (H2 q Hq) as (c' & Hc' & Ht & Hm).
    destruct (decide (p = q)) as [<-|]; [|rewrite lookup_insert_ne by done; eauto].
    rewrite lookup_insert_eq. exists (f c). simplify_eq. rewrite Hty, Hfd. eauto.
  - intros q c' Hq. destruct (decide (p = q)) as [<-|]; [eauto|].
    rewrite lookup_insert_ne in Hq by done. eauto.
Qed.

Lemma h_set_reader p r : hoare (fun s => dinv s ∧ live p s) (set_conn p (fun c => c <| k_reader := r |>))
  (fun _ s => dinv s ∧ live p s).
Proof.
  intros s [Hi [c Hc]]. unfold set_conn. rewrite Hc. split.
  - apply (dinv_set p (fun c => c <| k_reader := r |>)); done.
  - unfold live, set. cbn. rewrite lookup_insert_eq. eauto.
Qed.

End Invariant.

(** ** Handling a message *)

Section Handlers.
Context {C : Type} `{!LruCache C}.
Abbreviation St := (dpi C).

(** In a state with the invariant, [m] touches neither the connections nor what
    waits in the sockets. *)
Definition quiet {A} (m : M St A) : Prop :=
  ∀ s, dinv s → match m s with
                | Ok (_, s') => mem s' = mem s ∧ o_rx (d_sys s') = o_rx (d_sys s)
                | Bad f => f = OutOfBounds
                end.

Lemma quiet_ret {A} (a : A) : quiet (mret a).
Proof. intros s _. done. Qed.
Lemma quiet_gets {A} (f : St → A) : quiet (gets f).
Proof. intros s _. done. Qed.
Lemma quiet_modify f : (∀ s, mem (f s) = mem s ∧ o_rx (d_sys (f s)) = o_rx (d_sys s)) → quiet (modify f).
Proof. intros Hf s _. apply Hf. Qed.
Lemma quiet_bind {A B} (m : M St A) (k : A → M St B) : quiet m → (∀ a, quiet (k a)) → quiet (m ≫= k).
Proof.
  intros Hm Hk s Hs. unfold mbind, M_bind. specialize (Hm s Hs). destruct (m s) as [[a s1]|f]; [|done].
  destruct Hm as [H1 H2]. specialize (Hk a s1 (dinv_mem _ _ H1 Hs)).
  destruct (k a s1) as [[b s2]|f]; [|done]. destruct Hk. split; congruence.
Qed.
Lemma quiet_send fd d : quiet (send fd d).
Proof. intros s _. unfold send. destruct (_ <? 0); done. Qed.

Lemma quiet_send_to_center o : quiet (send_to_center o).
Proof.
  destruct o as [r|]; [|apply quiet_ret]. intros s Hs. cbn [send_to_center].
  unfold GetCenterConn. unfold mbind, M_bind. destruct (CenterConnPool s) as [|p l] eqn:Hp; [done|].
  destruct (d_pool _ Hs p) as (c & Hc & _); [rewrite Hp; left|].
  unfold SendTmsMsg, mbind, M_bind, conn. rewrite Hc. unfold lift. destruct (SendTmsMsg_bytes _) eqn:Hb.
  - pose proof (quiet_send (k_sock_fd c) a s Hs) as H. destruct (send _ _ _) as [[n s1]|f]; done.
  - unfold SendTmsMsg_bytes in Hb. destruct (_ <=? _); [done|]. injection Hb as <-. done.
Qed.

Lemma quiet_meter_op f : quiet (meter_op f).
Proof.
  unfold meter_op. apply quiet_bind; [apply quiet_gets|intros now].
  apply quiet_bind; [apply quiet_gets|intros m]. destruct (f now m) as [m' o].
  apply quiet_bind; [apply quiet_modify; done|intros _]. apply quiet_send_to_center.
Qed.

Lemma quiet_HandleRecvMsg msg len : quiet (HandleRecvMsg msg len).
Proof.
  unfold HandleRecvMsg. destruct (_ <? _); [apply quiet_ret|]. apply quiet_bind; [|intros; apply quiet_ret].
  destruct (_ =? _); [apply quiet_modify; done|]. destruct (_ =? _); [apply quiet_meter_op|apply quiet_ret].
Qed.

(** ** Receiving *)

(** What waits in socket [fd] is shorter than [n]. *)
Definition waits (fd : Z) (n : nat) (s : St) : Prop := (length (rx_of fd (d_sys s)).1 < n)%nat.

Definition recv_inv (p fd : Z) (n : nat) (s : St) : Prop := dinv s ∧ live p s ∧ waits fd n s.

Lemma sock_read_ge k avail eof len got : sock_read k avail eof = (len, got) → -1 ≤ len.
Proof.
  unfold sock_read. destruct (_ =? 0); [intros [= <- <-]; lia|].
  destruct avail; [destruct eof|]; intros [= <- <-]; lia.
Qed.

Lemma h_read p fd k n : hoare (recv_inv p fd (S n)) (read fd k)
  (fun r s => -1 ≤ r.1 ∧ dinv s ∧ live p s ∧ (0 < r.1 → waits fd n s)).
Proof.
  intros s (Hi & Hl & Hw). pose proof (frames_read fd k s) as Hf. unfold waits in *.
  unfold read in *. change (the_os s) with (d_sys s) in *.
  destruct (rx_of fd (d_sys s)) as [avail eof] eqn:Hrx. cbn in Hw.
  destruct (sock_read k avail eof) as [len got] eqn:Hs.
  split; [exact (sock_read_ge k avail eof len got Hs)|].
  split; [eapply dinv_mem; [exact Hf|done]|]. split; [eapply live_mem; [exact Hf|done]|].
  cbn [fst]. intros Hpos. destruct (Z.ltb_spec 0 len); [|lia]. destruct (Z.ltb_spec len 0); [lia|].
  unfold rx_of, with_os, dpi_os, set. cbn. rewrite lookup_insert_eq. cbn. rewrite length_drop.
  assert (0 < length avail)%nat; [|lia].
  unfold sock_read in Hs. destruct (_ =? 0); [injection Hs as <- <-; lia|].
  destruct avail; [destruct eof; injection Hs as <- <-; lia|cbn; lia].
Qed.

Lemma h_set_reader' p fd n r : hoare (recv_inv p fd n) (set_conn p (fun c => c <| k_reader := r |>))
  (fun _ => recv_inv p fd n).
Proof.
  intros s (Hi & Hl & Hw). pose proof (h_set_reader p r s (conj Hi Hl)) as H. revert H.
  destruct Hl as [c Hc]. unfold set_conn. rewrite Hc. intros [? ?]. split_and!; done.
Qed.

Lemma h_handle p fd n msg len : hoare (recv_inv p fd n) (HandleRecvMsg msg len) (fun _ => recv_inv p fd n).
Proof.
  intros s (Hi & Hl & Hw). pose proof (quiet_HandleRecvMsg msg len s Hi) as H.
  destruct (HandleRecvMsg msg len s) as [[a s']|f]; [|done]. destruct H as [Hm Hrx].
  split_and!; [eapply dinv_mem; done|eapply live_mem; done|].
  unfold waits, rx_of in *. rewrite Hrx. done.
Qed.

Lemma h_recv_loop p fd n : hoare (recv_inv p fd n) (recv_loop n p fd) (fun r s => -2 ≤ r ≤ 0 ∧ dinv s ∧ live p s).
Proof.
  induction n as [|n IH]; [intros s (_ & _ & Hw); unfold waits in Hw; lia|]. cbn [recv_loop].
  eapply (h_bind _ _ _ (fun c s => recv_inv p fd (S n) s)).
  { intros s (Hi & [c0 Hc] & Hw). unfold conn. rewrite Hc. split_and!; try done. unfold live. rewrite Hc. eauto. }
  intros c. cbv zeta. eapply h_bind; [apply h_read|]. intros [len got]. cbn [fst]. apply h_pure. intros Hge.
  destruct (Z.leb_spec len 0) as [Hle|Hgt].
  { intros s (Hi & Hl & _). split; [lia|split; done]. }
  destruct (negb _); [intros s _; done|].
  eapply (h_weaken _ (recv_inv p fd n)); [|intros s (? & ? & ?); split_and!; auto|intros a s H; exact H].
  eapply h_bind; [apply h_set_reader'|]. intros [].
  destruct (_ && _).
  { eapply h_bind; [apply h_set_reader'|]. intros [] s (? & ? & _). split; [lia|split; done]. }
  destruct (cstate _); [| |apply IH|apply IH].
  - destruct (_ || _); [intros s (? & ? & _); split; [lia|split; done]|].
    eapply h_bind; [apply h_set_reader'|]. intros []. apply IH.
  - eapply h_bind; [apply h_set_reader'|]. intros [].
    eapply h_bind; [apply h_handle|]. intros ?. apply IH.
Qed.

Lemma h_StreamRecvEvent p : hoare (fun s => dinv s ∧ live p s) (StreamRecvEvent p)
  (fun r s => -2 ≤ r ≤ 0 ∧ dinv s ∧ live p s).
Proof.
  intros s (Hi & [c Hc]). unfold StreamRecvEvent. rewrite Hc. apply (h_recv_loop p (k_sock_fd c)).
  split_and!; [done|unfold live; rewrite Hc; eauto|]. unfold waits. lia.
Qed.

End Handlers.

(** ** Removing and accepting connections *)

Section Manager.
Context {C : Type} `{!LruCache C}.
Abbreviation St := (dpi C).

Lemma erase_first_in p q l : NoDup l → q ∈ erase_first p l → q ∈ l ∧ q ≠ p.
Proof.
  intros Hd. unfold erase_first. destruct (list_find (eq p) l) as [[i x]|] eqn:Hf.
  - apply list_find_Some in Hf as (Hi & <- & _). intros Hq.
    assert (l ≡ₚ p :: delete i l) as Hp by (apply delete_Permutation; done).
    rewrite Hp in Hd. apply NoDup_cons in Hd as [Hn _]. split; [rewrite Hp; right; done|].
    intros ->. done.
  - intros Hq. split; [done|]. intros ->. apply list_find_None in Hf.
    rewrite Forall_forall in Hf. by destruct (Hf p Hq).
Qed.

Lemma erase_first_nodup p l : NoDup l → NoDup (erase_first p l).
Proof.
  intros Hd. unfold erase_first. destruct (list_find (eq p) l) as [[i x]|] eqn:Hf; [|done].
  apply list_find_Some in Hf as (Hi & <- & _).
  assert (l ≡ₚ p :: delete i l) as Hp by (apply delete_Permutation; done).
  rewrite Hp in Hd. apply NoDup_cons in Hd as [_ ?]. done.
Qed.

(** The memory after [RemoveConn] of the connection [p] at [fd]. *)
Lemma dinv_remove (s : St) fd p c pool' : dinv s → ConnMap s !! fd = Some p → conns s !! p = Some c →
  NoDup pool' → (∀ q, q ∈ pool' → q ∈ CenterConnPool s ∧ q ≠ p) →
  ∀ s' : St, conns s' = delete p (conns s) → ConnMap s' = delete fd (ConnMap s) →
  CenterConnPool s' = pool' → next_conn s' = next_conn s → dinv s'.
Proof.
  intros [H1 H2 H3 H4] Hm Hc Hd Hp s' E1 E2 E3 E4.
  destruct (H1 _ _ Hm) as (c1 & Hc1 & Hfd). assert (c1 = c) as -> by congruence.
  constructor; rewrite ?E1, ?E2, ?E3, ?E4; [| |done|].
  - intros fd' q Hq. rewrite lookup_delete_Some in Hq. destruct Hq as [Hne Hq].
    destruct (H1 _ _ Hq) as (c' & Hc' & Hfd'). exists c'. split; [|done].
    rewrite lookup_delete_ne; [done|]. intros ->. congruence.
  - intros q Hq. destruct (Hp q Hq) as [Hin Hne]. destruct (H2 q Hin) as (c' & Hc' & Ht & Hm').
    exists c'. rewrite lookup_delete_ne by done. split_and!; try done.
    rewrite lookup_delete_ne; [done|]. intros Heq. congruence.
  - intros q c'. rewrite lookup_delete_Some. intros [_ Hq]. eauto.
Qed.

Lemma dpi_delete_run p c (s : St) : conns s !! p = Some c → ∃ s1,
  delete_conn p s = Ok (tt, s1) ∧ conns s1 = delete p (conns s) ∧ ConnMap s1 = ConnMap s ∧
  CenterConnPool s1 = CenterConnPool s ∧ next_conn s1 = next_conn s.
Proof.
  intros Hc. unfold delete_conn. unfold mbind at 1, M_bind at 1. unfold conn. rewrite Hc.
  destruct (0 <? k_sock_fd c).
  - unfold mbind, M_bind. pose proof (frames_ctl EPOLL_CTL_DEL (k_sock_fd c) IN_OUT_ET s) as Hf.
    unfold RemoveEvent.
    assert (∃ r s1, ctl_event EPOLL_CTL_DEL (k_sock_fd c) IN_OUT_ET s = Ok (r, s1)) as (r & s1 & Hr).
    { unfold ctl_event, mbind, M_bind, gets, epoll_ctl. destruct (_ || _); [eauto|].
      destruct (o_ctl _); [destruct (0 =? -1); eauto|]. destruct (_ =? -1); eauto. }
    rewrite Hr in Hf |- *. injection Hf as E1 E2 E3 E4.
    unfold close, modify, free_conn. unfold with_os, dpi_os, set. cbn. rewrite E1, Hc.
    eexists. split; [done|]. done.
  - unfold mbind, M_bind. cbn. unfold free_conn. rewrite Hc. eexists. split; [done|]. done.
Qed.

Lemma h_RemoveConn fd : hoare dinv (RemoveConn (C := C) fd) (fun _ => dinv).
Proof.
  intros s Hi. unfold RemoveConn. destruct (fd <? 0); [done|].
  unfold mbind at 1, M_bind at 1. unfold gets. destruct (ConnMap s !! fd) as [p|] eqn:Hm; [|done].
  destruct (d_map _ Hi _ _ Hm) as (c & Hc & Hfd).
  unfold mbind at 1, M_bind at 1. unfold conn. rewrite Hc.
  destruct (Z.eqb_spec (k_type c) t_center) as [Ht|Ht]; unfold mbind, M_bind, modify, mret, M_ret.
  - set (s0 := s <| CenterConnPool := _ |>).
    destruct (dpi_delete_run p c s0 Hc) as (s1 & -> & E1 & E2 & E3 & E4).
    eapply (dinv_remove s fd p c (erase_first p (CenterConnPool s))); try done.
    + apply erase_first_nodup, Hi.
    + intros q. apply erase_first_in, Hi.
    + unfold set. cbn. rewrite E2. done.
  - destruct (dpi_delete_run p c s Hc) as (s1 & -> & E1 & E2 & E3 & E4).
    eapply (dinv_remove s fd p c (CenterConnPool s)); try done.
    + apply Hi.
    + intros q Hq. split; [done|]. intros ->. destruct (d_pool _ Hi _ Hq) as (c' & ? & ? & _). congruence.
    + unfold set. cbn. rewrite E2. done.
Qed.

(** A descriptor the kernel returns from [accept] is not one that is open. *)
Definition fresh_accept (s : St) : Prop :=
  ∀ fd l, o_accept (d_sys s) = fd :: l → ConnMap s !! fd = None.

(** A new connection entered in the tables. *)
Lemma dinv_new (s s' : St) p c fd pool' : dinv s → p = next_conn s → ConnMap s !! fd = None →
  conns s' = <[p := c]> (conns s) → next_conn s' = p + 1 → ConnMap s' = <[fd := p]> (ConnMap s) →
  k_sock_fd c = fd → CenterConnPool s' = CenterConnPool s ++ pool' →
  (pool' = [] ∨ (pool' = [p] ∧ k_type c = t_center)) → dinv s'.
Proof.
  intros [H1 H2 H3 H4] -> Hm E1 E2 E3 Hfd E4 Hp.
  assert (conns s !! next_conn s = None) as Hn.
  { destruct (conns s !! next_conn s) as [c0|] eqn:E; [|done]. specialize (H4 _ _ E). lia. }
  constructor; rewrite ?E1, ?E2, ?E3, ?E4.
  - intros fd' q Hq. destruct (decide (fd = fd')) as [<-|].
    + rewrite lookup_insert_eq in Hq. injection Hq as <-. rewrite lookup_insert_eq. eauto.
    + rewrite lookup_insert_ne in Hq by done. destruct (H1 _ _ Hq) as (c' & Hc' & ?).
      exists c'. rewrite lookup_insert_ne by congruence. done.
  - intros q [Hq|Hq]%elem_of_app.
    + destruct (H2 _ Hq) as (c' & Hc' & Ht & Hm'). exists c'. rewrite lookup_insert_ne by congruence.
      split_and!; try done. rewrite lookup_insert_ne; [done|]. congruence.
    + destruct Hp as [->|[-> Ht]]; [by apply not_elem_of_nil in Hq|].
      apply list_elem_of_singleton in Hq as ->. exists c. rewrite lookup_insert_eq, Hfd, lookup_insert_eq. done.
  - apply NoDup_app. split_and!; [done| |destruct Hp as [->|[-> _]]; [constructor|apply NoDup_singleton]].
    intros q Hq Hq'. destruct Hp as [->|[-> Ht]]; [by apply not_elem_of_nil in Hq'|].
    apply list_elem_of_singleton in Hq' as ->. destruct (H2 _ Hq) as (c' & Hc' & _). congruence.
  - intros q c' Hq. destruct (decide (next_conn s = q)) as [<-|]; [lia|].
    rewrite lookup_insert_ne in Hq by done. specialize (H4 _ _ Hq). lia.
Qed.

Lemma h_HandleAcceptEvent : hoare (fun s => dinv s ∧ fresh_accept s) HandleAcceptEvent (fun _ => dinv (C := C)).
Proof.
  intros s [Hi Hf]. unfold HandleAcceptEvent. unfold mbind at 1, M_bind at 1. unfold accept.
  destruct (o_accept (the_os s)) as [|fd l] eqn:Ha; [apply (dinv_mem s); [reflexivity|exact Hi]|].
  destruct (0 <? fd); [|apply (dinv_mem s); [reflexivity|exact Hi]].
  assert (ConnMap s !! fd = None) as Hm by (apply (Hf fd l Ha)).
  unfold mbind, M_bind, gets. unfold with_os, dpi_os, set. cbn. rewrite Hm. cbn.
  unfold set_conn, set. cbn. rewrite lookup_insert_eq. cbn. rewrite lookup_insert_eq. cbn.
  eapply (dinv_new s _ (next_conn s) _ fd []); try done; cbn.
  - rewrite !insert_insert_eq. reflexivity.
  - done.
  - rewrite app_nil_r. done.
  - auto.
Qed.

Lemma h_HandleRecvEvent fd : hoare dinv (HandleRecvEvent (C := C) fd) (fun r s => -2 ≤ r ≤ 0 ∧ dinv s).
Proof.
  intros s Hi. unfold HandleRecvEvent. unfold mbind at 1, M_bind at 1. unfold gets.
  destruct (ConnMap s !! fd) as [p|] eqn:Hm; [|cbn; split; [lia|done]].
  destruct (d_map _ Hi _ _ Hm) as (c & Hc & _).
  revert s Hi Hm c Hc. enough (hoare (fun s => dinv s ∧ live p s)
    (ret ← StreamRecvEvent p;
     (if negb (ret =? -1) then
        c ← conn p;
        if negb (k_exit c =? 0) then _ ← RemoveConn (k_sock_fd c); mret tt else mret tt
      else mret tt);; mret ret) (fun r s => -2 ≤ r ≤ 0 ∧ dinv s)) as H.
  { intros s Hi Hm c Hc. apply H. split; [done|]. unfold live. eauto. }
  eapply h_bind; [apply h_StreamRecvEvent|]. intros ret. cbn beta. apply h_pure. intros Hret.
  eapply (h_bind _ _ _ (fun _ => dinv)); [|intros []; intros s Hi; split; done].
  destruct (negb _); [|intros s [Hi _]; done].
  intros s [Hi [c Hc]]. unfold mbind, M_bind, conn. rewrite Hc.
  destruct (negb _); [|done]. pose proof (h_RemoveConn (k_sock_fd c) s Hi) as H.
  destruct (RemoveConn _ s) as [[? ?]|]; done.
Qed.

Lemma h_remove_then {A} fd (k : M St A) Q : hoare dinv k Q → hoare dinv (_ ← RemoveConn fd; k) Q.
Proof. intros Hk. eapply h_bind; [apply h_RemoveConn|]. intros ?. exact Hk. Qed.

Lemma h_recv_event fd events err : hoare dinv (recv_event (C := C) RECV_ROUNDS fd events err) (fun _ => dinv).
Proof.
  unfold RECV_ROUNDS. cbn [recv_event].
  eapply h_bind; [apply h_HandleRecvEvent|]. intros ret. cbn beta. apply h_pure. intros Hret.
  assert (∀ r : recv_next, hoare dinv (mret r) (fun _ => dinv (C := C))) as Hr by (intros r s Hs; done).
  destruct (Z.eqb_spec ret (-2)); [apply Hr|]. destruct (Z.eqb_spec ret (-1)).
  { eapply h_bind; [apply (hoare_frames errno); [apply frames_gets|apply dinv_mem]|]. intros en.
    destruct (_ =? _); [apply Hr|]. destruct (negb _); apply h_remove_then; [|apply Hr].
    eapply h_bind; [apply (hoare_frames (close fd)); [apply frames_close|apply dinv_mem]|]. intros []. apply Hr. }
  destruct (Z.eqb_spec ret 0) as [_|Hne].
  { destruct (negb _); [apply h_remove_then, Hr|apply Hr]. }
  exfalso. lia.
Qed.

Lemma h_mret {A} (a : A) : hoare dinv (mret a) (fun _ => dinv (C := C)).
Proof. intros s Hs. done. Qed.

Lemma h_dinv_frames {A} (m : M St A) : frames m → hoare dinv m (fun _ => dinv).
Proof. intros Hm. apply hoare_frames; [done|apply dinv_mem]. Qed.

Lemma h_out fd events err : hoare dinv
  (if negb (Z.land events EPOLLOUT =? 0) then
     e ← so_error fd;
     (if (e =? 0) || (e =? EAGAIN) then
        ret ← HandleEPOEvent fd;
        if ret =? -1 then shutdown fd else mret tt
      else mret tt);;
     mret e
   else mret err) (fun _ => dinv (C := C)).
Proof.
  destruct (negb _); [|apply h_mret].
  eapply h_bind; [apply h_dinv_frames, frames_gets|]. intros e.
  eapply (h_bind _ _ _ (fun _ => dinv)); [|intros []; apply h_mret].
  destruct (_ || _); [|apply h_mret].
  eapply h_bind; [apply h_mret|]. intros r. destruct (_ =? _); [|apply h_mret].
  apply h_dinv_frames, frames_shutdown.
Qed.

Lemma h_handle_event m fd events err :
  hoare (fun s => dinv s ∧ fresh_accept s) (handle_event m fd events err) (fun _ => dinv (C := C)).
Proof.
  unfold handle_event. eapply (h_bind _ _ _ (fun _ => dinv)).
  - destruct (negb _); [|intros s [Hs _]; done].
    destruct (fd =? m).
    + eapply h_bind; [apply h_HandleAcceptEvent|]. intros c.
      eapply (h_bind _ _ _ (fun _ => dinv)); [|intros []; apply h_mret].
      destruct (0 <? c); [|apply h_mret].
      eapply h_bind; [apply h_dinv_frames, frames_ctl|]. intros ?. apply h_mret.
    + eapply h_weaken; [apply h_recv_event|intros s [Hs _]; exact Hs|done].
  - intros [|]; [apply h_mret|apply h_out].
Qed.

Lemma h_on_packet tms_addr len packet : hoare dinv (on_packet tms_addr len packet) (fun _ => dinv (C := C)).
Proof.
  unfold on_packet. eapply (h_bind _ _ _ (fun _ => dinv)).
  - intros s Hs. unfold lift. destruct (dpi_packet_process tms_addr len packet) as [a|f] eqn:Hp; [done|].
    unfold dpi_packet_process, peek in Hp. repeat case_match; simplify_eq; done.
  - intros [[ip l] ft] s Hs. pose proof (quiet_meter_op (OnTrafficReport ip l ft) s Hs) as H.
    destruct (meter_op _ s) as [[? s']|f]; [|done]. eapply dinv_mem; [apply H|done].
Qed.

(** ** Reachable states *)

(** The states of the process: the start, an event, a packet, and any change of
    the environment in between. *)
Inductive reach (m_socket : Z) (buf : bytes) : St → Prop :=
  | reach_start epfd o s : dpi_start epfd m_socket (dpi_init buf o) = Ok (0, s) → reach m_socket buf s
  | reach_event s fd events err err' s' : reach m_socket buf s → fresh_accept s →
      handle_event m_socket fd events err s = Ok (err', s') → reach m_socket buf s'
  | reach_packet s tms_addr len packet s' : reach m_socket buf s →
      on_packet tms_addr len packet s = Ok (tt, s') → reach m_socket buf s'
  | reach_env s o : reach m_socket buf s → reach m_socket buf (s <| d_sys := o |>).

Lemma dinv_init buf o : dinv (C := C) (dpi_init buf o).
Proof. constructor; cbn; try (intros; set_solver). constructor. Qed.

Lemma h_CreateCenterConn ip port :
  hoare (fun s => dinv s ∧ ConnMap s = ∅) (CreateCenterConn (C := C) ip port) (fun _ => dinv).
Proof.
  intros s [Hi He]. unfold CreateCenterConn, create_conn, mbind, M_bind, socket.
  destruct (o_socket (the_os s)) as [|fd l]; [cbn; apply (dinv_mem s); [reflexivity|exact Hi]|].
  destruct (fd <=? 0); [apply (dinv_mem s); [reflexivity|exact Hi]|].
  set (s1 := with_os _ s). assert (mem s1 = mem s) as E1 by reflexivity.
  destruct (connect fd ip (htons port) s1) as [[ret s2]|f] eqn:Hcon.
  2:{ unfold connect in Hcon. destruct (o_connect _) as [|[]]; done. }
  assert (mem s2 = mem s) as E2.
  { unfold connect in Hcon. destruct (o_connect _) as [|[k e] r]; injection Hcon as <- <-; [done|].
    case_match; done. }
  clearbody s1. clear Hcon E1.
  destruct (ret <? 0); [apply (dinv_mem s); [exact E2|exact Hi]|].
  destruct (ret =? 0); [|apply (dinv_mem s); [exact E2|exact Hi]].
  apply (dinv_mem s s2 E2) in Hi. injection E2 as _ _ E2 _. rewrite He in E2. clear He s.
  unfold new_conn, modify, set_conn, set. cbn. rewrite lookup_insert_eq. cbn.
  eapply (dinv_new s2 _ (next_conn s2) _ fd [next_conn s2]); try done; cbn.
  - rewrite E2. done.
  - rewrite insert_insert_eq. reflexivity.
  - done.
  - auto.
Qed.

Lemma start_dinv epfd m_socket buf o s :
  dpi_start epfd m_socket (dpi_init buf o) = Ok (0, s) → dinv (C := C) s.
Proof.
  assert (hoare (fun s => dinv s ∧ ConnMap s = ∅) (dpi_start (C := C) epfd m_socket) (fun _ => dinv)) as H.
  { unfold dpi_start.
    eapply (h_bind _ _ _ (fun _ s => dinv s ∧ ConnMap s = ∅)).
    { apply h_modify. intros s0 [Hi He]. split; [|exact He]. apply (dinv_mem s0); done. }
    intros []. eapply h_bind.
    { apply (hoare_frames (epoll_ctl _ _ _)); [apply frames_epoll|].
      intros s0 s1 E [Hi He]. split; [eapply dinv_mem; done|]. injection E as _ _ -> _. done. }
    intros r. destruct (r =? -1); [intros s0 [Hi _]; done|].
    eapply h_bind; [apply h_CreateCenterConn|]. intros [[p fd]|]; [|apply h_mret].
    eapply h_bind; [apply h_dinv_frames, frames_ctl|]. intros ?. apply h_mret. }
  intros Hs. specialize (H _ (conj (dinv_init buf o) eq_refl)). rewrite Hs in H. done.
Qed.

Lemma reach_dinv m_socket buf s : reach m_socket buf s → dinv s.
Proof.
  induction 1 as [epfd o s Hs|s fd ev err err' s' _ IH Hf He|s ta len pk s' _ IH He|s o _ IH].
  - eapply start_dinv. done.
  - pose proof (h_handle_event m_socket fd ev err s (conj IH Hf)) as H. rewrite He in H. done.
  - pose proof (h_on_packet ta len pk s IH) as H. rewrite He in H. done.
  - apply (dinv_mem s); done.
Qed.


(** ** What is sent to the recorder *)

Lemma penc_report mobile app ip n now : length (penc (make_report mobile app ip n now)) = 319%nat.
Proof. cbn -[pad]. autorewrite with tunnel_len. done. Qed.

Lemma report_shape ip l ft now (m m' : meter C) r : OnTrafficReport ip l ft now m = (m', Some r) →
  length (penc r) = 319%nat.
Proof.
  unfold OnTrafficReport, count_packet. destruct (find_or_alloc ip m) as [p m1]. cbv zeta.
  repeat case_match; intros [= <- <-]. apply penc_report.
Qed.

(** When a packet makes a report due, exactly the framed report is sent on the
    connection to the recorder; when that connection has been lost, _CenterConnPool[0]
    is read from an empty vector. *)
Theorem report_delivery tms_addr len packet s ip l ft m' r : dinv s →
  dpi_packet_process tms_addr len packet = Ok (ip, l, ft) →
  OnTrafficReport ip l ft (o_now (d_sys s)) (lm (C := C) s) = (m', Some r) →
  o_send (d_sys s) = [] →
  match CenterConnPool s with
  | [] => on_packet tms_addr len packet s = Bad OutOfBounds
  | p :: _ => ∃ s' c, on_packet tms_addr len packet s = Ok (tt, s') ∧ lm s' = m' ∧
      conns s !! p = Some c ∧
      o_log (d_sys s') = o_log (d_sys s) ++ [IoSend (k_sock_fd c) (frame (penc r))]
  end.
Proof.
  intros Hi Hp Hm Hsend. unfold on_packet, meter_op, mbind, M_bind, lift. rewrite Hp.
  unfold gettimeofday, gets. change (the_os s) with (d_sys s). rewrite Hm.
  unfold modify, send_to_center, mbind, M_bind, GetCenterConn, SendTmsMsg, conn, set. cbn -[penc].
  destruct (CenterConnPool s) as [|p rest] eqn:Hpool; [done|].
  destruct (d_pool _ Hi p) as (c & Hc & _); [rewrite Hpool; left|].
  pose proof (report_shape _ _ _ _ _ _ _ Hm) as Hlen.
  unfold mbind, M_bind. cbn -[penc]. rewrite Hc. unfold lift, SendTmsMsg_bytes. rewrite Hlen.
  change (Z.of_nat 319 + HDR <=? 1024) with true. cbn -[penc frame].
  unfold send. change (the_os ?x) with (d_sys x). cbn -[penc frame]. rewrite Hsend.
  destruct (Z.ltb_spec (Z.of_nat (length (frame (penc r)))) 0); [lia|].
  eexists _, c. split; [reflexivity|]. split; [done|]. split; [done|].
  unfold set. cbn -[penc frame]. rewrite Z.min_id, Nat2Z.id, take_ge by lia. done.
Qed.

End Manager.

(** ** Captured packets *)

Lemma peek_inside off n l : (off + n ≤ length l)%nat → peek off n l = Ok (fld off n l).
Proof. intros H. unfold peek. destruct (Nat.leb_spec (off + n) (length l)); [done|lia]. Qed.

Lemma fld_app off n a b : (off + n ≤ length a)%nat → fld off n (a ++ b) = fld off n a.
Proof.
  intros H. unfold fld, sub. f_equal. rewrite drop_app_le by lia. rewrite take_app_le; [done|].
  rewrite length_drop. lia.
Qed.

(** What is counted for a frame of [len] bytes. *)
Definition counted (len : Z) : Z := len - 14 + 52 * Z.max 0 ((len - 67) / 1388).

Lemma predict_counted len : 54 ≤ len ≤ 65549 →
  u64 (TmsAccount.TelecomTrafficPredict (i32 (u32 (len - 14 - TmsAccount.Tcp_Ack_Len)))) = counted len
  ∧ 40 ≤ counted len < 2 ^ 17.
Proof.
  intros Hl. unfold TmsAccount.TelecomTrafficPredict, TmsAccount.Tcp_Ack_Len, counted.
  assert (i32 (u32 (len - 14 - (32 + 20))) = len - 66) as ->.
  { unfold swrap, wrap. range_lia. change (32 + 20) with 52.
    destruct (Z.leb_spec 66 len).
    - rewrite (Z.mod_small (len - 14 - 52)) by lia. rewrite Z.mod_small; lia.
    - rewrite <- (Z_mod_plus_full (len - 14 - 52) 1 4294967296).
      rewrite (Z.mod_small (len - 14 - 52 + _)) by lia.
      rewrite <- (Z_mod_plus_full _ (-1)), Z.mod_small; lia. }
  destruct (Z.leb_spec (len - 66) 0).
  - rewrite swrap_id by range_lia. rewrite wrap_id by range_lia.
    assert ((len - 67) / 1388 < 0) by (apply Z.div_lt_upper_bound; lia). range_lia.
  - replace (len - 66 - 1) with (len - 67) by lia. rewrite Z.quot_div_nonneg by lia.
    pose proof (Z.div_pos (len - 67) 1388 ltac:(lia) ltac:(lia)).
    pose proof (Z.div_le_upper_bound (len - 67) 1388 48 ltac:(lia) ltac:(lia)).
    rewrite swrap_id by range_lia. rewrite wrap_id by range_lia. range_lia.
Qed.

(** A captured TCP packet is counted for the end that is not the tunnel server,
    with its IP length plus 52 bytes for each further 1388 bytes, at least 40 and less
    than 2^17 bytes, and with the FIN of the side that sent it, or with RST. *)
Theorem packet_counted tms_addr len eth iph tcp :
  length eth = ETH_HDR → (20 ≤ length iph)%nat →
  Z.of_nat (length iph) = 4 * Z.land (fld 0 1 iph) 15 → (14 ≤ length tcp)%nat → 54 ≤ len ≤ 65549 →
  let src := fld 12 4 iph in
  let dst := fld 16 4 iph in
  let flags := fld 13 1 tcp in
  dpi_packet_process tms_addr len (eth ++ iph ++ tcp) =
    Ok (if src =? tms_addr then dst else src, counted len,
        if Z.testbit flags 2 then fin_type_r
        else if Z.testbit flags 0 then (if src =? tms_addr then fin_type_s else fin_type_c)
        else fin_type_n) ∧ 40 ≤ counted len < 2 ^ 17.
Proof.
  intros He Hi Hh Ht Hl src dst flags. destruct (predict_counted len Hl) as [Hp Hb].
  split; [|exact Hb]. unfold dpi_packet_process. rewrite <- He, drop_app_length.
  rewrite !peek_inside, !fld_app by (rewrite ?length_app; lia). fold src dst.
  replace (Z.to_nat (4 * Z.land (fld 0 1 iph) 15)) with (length iph) by lia.
  rewrite drop_app_length, peek_inside by lia. fold flags. rewrite Hp.
  destruct (src =? tms_addr), (Z.testbit flags 2), (Z.testbit flags 0); done.
Qed.

Lemma packet_counted_witness :
  let iph := [0x45; 0; 0; 40; 0; 0; 0; 0; 64; 6; 0; 0; 10; 0; 0; 9; 10; 0; 0; 1] in
  let tcp := [1; 2; 39; 196; 0; 0; 0; 0; 0; 0; 0; 0; 0x50; 0x11; 0; 0; 0; 0; 0; 0] in
  dpi_packet_process 0x0100000a 54 (replicate 14 0 ++ iph ++ tcp) = Ok (0x0900000a, 40, 1).
Proof.
  refine (proj1 (packet_counted 0x0100000a 54 (replicate 14 0)
    [0x45; 0; 0; 40; 0; 0; 0; 0; 64; 6; 0; 0; 10; 0; 0; 9; 10; 0; 0; 1]
    [1; 2; 39; 196; 0; 0; 0; 0; 0; 0; 0; 0; 0x50; 0x11; 0; 0; 0; 0; 0; 0] _ _ _ _ _));
    [reflexivity|cbn; lia|reflexivity|cbn; lia|lia].
Defined.

(** ** A concrete process *)

Definition d0 : dpi (gmap Z ptr) :=
  dpi_init (replicate (Z.to_nat BUFF) 0) (os_init <| o_socket := [5] |> <| o_accept := [6] |>).

Definition started : dpi (gmap Z ptr) := default d0 (exec (dpi_start 3 4) d0).

Lemma started_reach : reach 4 (replicate (Z.to_nat BUFF) 0) started.
Proof.
  apply (reach_start _ _ 3 (os_init <| o_socket := [5] |> <| o_accept := [6] |>)).
  vm_compute. reflexivity.
Qed.


(** The client's record has 300 bytes and a FIN of the client; the server's FIN
    arrives. *)
Definition metering : dpi (gmap Z ptr) :=
  started <| lm := MkMeter {[1 := MkIpUser 9 0 1 300 13800000000 7]} 2 {[0x0900000a := 1]} |>.

Definition fin_packet : bytes :=
  replicate 14 0 ++ [0x45; 0; 0; 40; 0; 0; 0; 0; 64; 6; 0; 0; 10; 0; 0; 1; 10; 0; 0; 9]
  ++ [39; 196; 1; 2; 0; 0; 0; 0; 0; 0; 0; 0; 0x50; 0x11; 0; 0; 0; 0; 0; 0].

Lemma dinv_lm (s : dpi (gmap Z ptr)) m : dinv s → dinv (s <| lm := m |>).
Proof. apply dinv_mem. reflexivity. Qed.

Lemma metering_dinv : dinv metering.
Proof. apply dinv_lm. eapply reach_dinv, started_reach. Qed.

Definition fin_report : TrafficReport := make_report 13800000000 7 0x0900000a 380 (Tv 0 0).

Lemma report_delivery_witness : ∃ s' c, on_packet 0x0100000a 54 fin_packet metering = Ok (tt, s') ∧
  lm s' = (OnTrafficReport 0x0900000a 40 2 (Tv 0 0) (lm metering)).1 ∧
  conns metering !! 1 = Some c ∧
  o_log (d_sys s') = o_log (d_sys metering) ++ [IoSend (k_sock_fd c) (frame (penc fin_report))].
Proof.
  assert (CenterConnPool metering = [1]) as Hp by (vm_compute; reflexivity).
  pose proof (report_delivery 0x0100000a 54 fin_packet metering 0x0900000a 40 2
           (OnTrafficReport 0x0900000a 40 2 (Tv 0 0) (lm metering)).1 fin_report metering_dinv) as H.
  rewrite Hp in H. apply H; vm_compute; reflexivity.
Defined.

End DpiProps.
