(* ===== verification/LruTable.v ===== *)
(** * Hash table of leveldb's cache (src/ic-dpi/ic-leveldb/util/cache.cc, hash.cc)

    The dpi keeps its records in leveldb's LRU cache.  This file has the heap of
    [LRUHandle]s the cache works on, [Hash], and the class [HandleTable]: an array
    of bucket heads whose chains run through the [next_hash] fields of the
    entries, doubled when there are more entries than buckets.

    The heap is explicit: pointers are addresses, 0 is null, reading a freed entry
    is a fault, a failed [assert] is [Aborted].  [trep] relates the array and the
    fields to the list of chains, and the theorems say the table is a finite map
    from keys to entries. *)

From S2P Require Import Prelude.
From stdpp Require Import base gmap list strings.
From Stdlib Require Import ZArith Lia.

Open Scope Z_scope.

Module LruTable.

Abbreviation ptr := Z.

(** ** Hash *)

(** [DecodeFixed32] on a little-endian machine. *)
Definition DecodeFixed32 (data : bytes) : Z := of_le (take 4 data).

Definition hash_m : Z := 0xc6a4a793.
Definition hash_r : Z := 24.

(** One turn of the loop on a word of four bytes. *)
Definition hash_word (h w : Z) : Z :=
  let h := u32 (h + w) in
  let h := u32 (h * hash_m) in
  Z.lxor h (Z.shiftr h 16).

(** The remaining bytes, by fall-through. *)
Definition hash_tail (h : Z) (data : bytes) : Z :=
  let at_ i := default 0 (data !! i) in
  let fin h :=
    let h := u32 (h + at_ 0%nat) in
    let h := u32 (h * hash_m) in
    Z.lxor h (Z.shiftr h hash_r) in
  match length data with
  | 3%nat => fin (u32 (u32 (h + Z.shiftl (at_ 2%nat) 16) + Z.shiftl (at_ 1%nat) 8))
  | 2%nat => fin (u32 (h + Z.shiftl (at_ 1%nat) 8))
  | 1%nat => fin h
  | _ => h
  end.

Fixpoint hash_loop (h : Z) (data : bytes) : Z :=
  match data with
  | b0 :: b1 :: b2 :: b3 :: data' => hash_loop (hash_word h (DecodeFixed32 [b0; b1; b2; b3])) data'
  | _ => hash_tail h data
  end.

(** [Hash(data, n, seed)] *)
Definition Hash (data : bytes) (seed : Z) : Z :=
  hash_loop (Z.lxor seed (u32 (Z.of_nat (length data) * hash_m))) data.

(** ** The heap of entries *)

Record LRUHandle := MkHandle {
  lh_value : Z;
  lh_deleter : Z;          (* which function *)
  lh_next_hash : ptr;
  lh_next : ptr;
  lh_prev : ptr;
  lh_charge : Z;           (* size_t *)
  lh_key : bytes;          (* key_length and key_data *)
  lh_in_cache : bool;
  lh_refs : Z;             (* uint32_t *)
  lh_hash : Z;             (* uint32_t *)
}.

#[export] Instance eta_handle : Eta LRUHandle := fun x =>
  MkHandle (lh_value x) (lh_deleter x) (lh_next_hash x) (lh_next x) (lh_prev x) (lh_charge x)
    (lh_key x) (lh_in_cache x) (lh_refs x) (lh_hash x).

(** What [malloc] and the constructor of a list head leave uninitialised. *)
Definition raw_handle : LRUHandle := MkHandle 0 0 0 0 0 0 [] false 0 0.

#[export] Instance handle_inhabited : Inhabited LRUHandle := populate raw_handle.

Record HandleTable := MkTable {
  t_length_ : Z;           (* uint32_t *)
  t_elems_ : Z;            (* uint32_t *)
  t_list_ : list ptr;
}.

#[export] Instance eta_table : Eta HandleTable := fun x => MkTable (t_length_ x) (t_elems_ x) (t_list_ x).

Abbreviation cells := (gmap ptr LRUHandle).

(** Memory and one table. *)
Record tst := MkTst { ts_cells : cells; ts_tbl : HandleTable }.
#[export] Instance eta_tst : Eta tst := fun x => MkTst (ts_cells x) (ts_tbl x).

(** A state whose entries and table can be reached. *)
Class HasCells (S : Type) := {
  the_cells : S → cells;
  with_cells : (cells → cells) → S → S;
}.

Section Access.
Context {S : Type} `{!HasCells S}.

Definition deref (p : ptr) : M S LRUHandle := fun s =>
  if p =? 0 then Bad NullDeref else
  match the_cells s !! p with
  | Some x => Ok (x, s)
  | None => Bad UseAfterFree
  end.

(** [p->field = v] *)
Definition store (p : ptr) (f : LRUHandle → LRUHandle) : M S unit :=
  x ← deref p;
  modify (with_cells (fun c => <[p := f x]> c)).

Definition assert_ (b : bool) : M S unit := if b then mret tt else fail_with Aborted.

(** [LRUHandle::key] *)
Definition handle_key (p : ptr) : M S bytes :=
  x ← deref p;
  _ ← assert_ (negb (lh_next x =? p));
  mret (lh_key x).

End Access.

#[export] Instance has_cells_tst : HasCells tst := {|
  the_cells := ts_cells;
  with_cells f s := s <| ts_cells := f (ts_cells s) |>;
|}.

(** ** HandleTable *)

(** An [LRUHandle**]: an array element or the [next_hash] field of an entry. *)
Inductive slot := SlotBucket (i : Z) | SlotNext (p : ptr).

Definition bucket_read (i : Z) (l : list ptr) : result ptr :=
  if i <? 0 then Bad OutOfBounds else
  match l !! Z.to_nat i with Some p => Ok p | None => Bad OutOfBounds end.

Definition bucket_write (i : Z) (v : ptr) (l : list ptr) : result (list ptr) :=
  if (0 <=? i) && (i <? Z.of_nat (length l)) then Ok (<[Z.to_nat i := v]> l) else Bad OutOfBounds.

(** [*ptr] *)
Definition slot_read (sl : slot) : M tst ptr :=
  match sl with
  | SlotBucket i => l ← gets (fun s => t_list_ (ts_tbl s)); lift (bucket_read i l)
  | SlotNext p => x ← deref p; mret (lh_next_hash x)
  end.

(** [*ptr = v] *)
Definition slot_write (sl : slot) (v : ptr) : M tst unit :=
  match sl with
  | SlotBucket i =>
    l ← gets (fun s => t_list_ (ts_tbl s));
    l ← lift (bucket_write i v l);
    modify (fun s => s <| ts_tbl := ts_tbl s <| t_list_ := l |> |>)
  | SlotNext p => store p (fun x => x <| lh_next_hash := v |>)
  end.

(** The bound of the loops over chains: more turns than there are entries. *)
Definition chain_fuel (s : tst) : nat := S (size (ts_cells s)).

Fixpoint find_loop (fuel : nat) (sl : slot) (key : bytes) (hash : Z) : M tst slot :=
  match fuel with
  | O => fail_with OutOfFuel
  | S fuel' =>
    p ← slot_read sl;
    if p =? 0 then mret sl else
    x ← deref p;
    if negb (lh_hash x =? hash) then find_loop fuel' (SlotNext p) key hash else
    k ← handle_key p;
    if bool_decide (key ≠ k) then find_loop fuel' (SlotNext p) key hash else mret sl
  end.

Definition FindPointer (key : bytes) (hash : Z) : M tst slot :=
  len ← gets (fun s => t_length_ (ts_tbl s));
  fuel ← gets chain_fuel;
  find_loop fuel (SlotBucket (Z.land hash (u32 (len - 1)))) key hash.

(** [while (new_length < elems_) new_length *= 2;] *)
Fixpoint grow_loop (fuel : nat) (new_length elems : Z) : result Z :=
  match fuel with
  | O => Bad OutOfFuel
  | S fuel' => if new_length <? elems then grow_loop fuel' (u32 (new_length * 2)) elems else Ok new_length
  end.

(** The inner loop of [Resize]: the entries of one chain go to the front of their
    new chains. *)
Fixpoint move_chain (fuel : nat) (h : ptr) (new_length : Z) (new_list : list ptr) (count : Z) :
    M tst (list ptr * Z) :=
  match fuel with
  | O => fail_with OutOfFuel
  | S fuel' =>
    if h =? 0 then mret (new_list, count) else
    x ← deref h;
    let i := Z.land (lh_hash x) (u32 (new_length - 1)) in
    v ← lift (bucket_read i new_list);
    _ ← store h (fun x => x <| lh_next_hash := v |>);
    new_list ← lift (bucket_write i h new_list);
    move_chain fuel' (lh_next_hash x) new_length new_list (u32 (count + 1))
  end.

(** [for (i = 0; i < length_; i++)] *)
Fixpoint move_all (old : list ptr) (new_length : Z) (new_list : list ptr) (count : Z) : M tst (list ptr * Z) :=
  match old with
  | [] => mret (new_list, count)
  | h :: old' =>
    fuel ← gets chain_fuel;
    r ← move_chain fuel h new_length new_list count;
    move_all old' new_length r.1 r.2
  end.

(** The doubling from 4 passes every 32-bit count up to 2^31 in 29 turns. *)
Definition grow_fuel : nat := 32.

Definition Resize : M tst unit :=
  t ← gets ts_tbl;
  new_length ← lift (grow_loop grow_fuel 4 (t_elems_ t));
  let new_list := replicate (Z.to_nat new_length) 0 in
  r ← move_all (t_list_ t) new_length new_list 0;
  _ ← assert_ (t_elems_ t =? r.2);
  modify (fun s => s <| ts_tbl := MkTable new_length (t_elems_ t) r.1 |>).

(** The constructor. *)
Definition HandleTable_new : M tst unit :=
  _ ← modify (fun s => s <| ts_tbl := MkTable 0 0 [] |>);
  Resize.

Definition Table_Lookup (key : bytes) (hash : Z) : M tst ptr :=
  sl ← FindPointer key hash;
  slot_read sl.

Definition Table_Insert (h : ptr) : M tst ptr :=
  k ← handle_key h;
  x ← deref h;
  sl ← FindPointer k (lh_hash x);
  old ← slot_read sl;
  nh ← (if old =? 0 then mret 0 else y ← deref old; mret (lh_next_hash y));
  _ ← store h (fun x => x <| lh_next_hash := nh |>);
  _ ← slot_write sl h;
  _ ← (if old =? 0 then
         _ ← modify (fun s => s <| ts_tbl := ts_tbl s <| t_elems_ := u32 (t_elems_ (ts_tbl s) + 1) |> |>);
         t ← gets ts_tbl;
         if t_length_ t <? t_elems_ t then Resize else mret tt
       else mret tt);
  mret old.

Definition Table_Remove (key : bytes) (hash : Z) : M tst ptr :=
  sl ← FindPointer key hash;
  result ← slot_read sl;
  _ ← (if result =? 0 then mret tt else
         y ← deref result;
         _ ← slot_write sl (lh_next_hash y);
         modify (fun s => s <| ts_tbl := ts_tbl s <| t_elems_ := u32 (t_elems_ (ts_tbl s) - 1) |> |>));
  mret result.

(** ** Representation *)

(** The entries from [p] to [q] along [next_hash]. *)
Fixpoint lseg (c : cells) (p : ptr) (l : list ptr) (q : ptr) : Prop :=
  match l with
  | [] => p = q
  | a :: l' => p = a ∧ a ≠ 0 ∧ ∃ x, c !! a = Some x ∧ lseg c (lh_next_hash x) l' q
  end.

Abbreviation chain c p l := (lseg c p l 0).

(** [c'] is [c] but for [next_hash] fields. *)
Definition strip (x : LRUHandle) : LRUHandle := x <| lh_next_hash := 0 |>.
Definition nh_eq (c c' : cells) : Prop := ∀ p, strip <$> c !! p = strip <$> c' !! p.

(** Only the entries of [D] may differ. *)
Definition only (D : list ptr) (c c' : cells) : Prop := ∀ p, p ∉ D → c' !! p = c !! p.

Definition index (hash len : Z) : Z := Z.land hash (u32 (len - 1)).

(** The array [heads] of [len] buckets holds the chains [bk], each entry in the
    bucket of its hash. *)
Record brep (c : cells) (len : Z) (heads : list ptr) (bk : list (list ptr)) : Prop := {
  br_len : ∃ k, 2 ≤ k ≤ 31 ∧ len = 2 ^ k;
  br_size : length heads = Z.to_nat len;
  br_chains : Forall2 (fun p l => chain c p l) heads bk;
  br_place : ∀ i l p, bk !! i = Some l → p ∈ l →
    ∃ x, c !! p = Some x ∧ lh_next x ≠ p ∧ index (lh_hash x) len = Z.of_nat i;
  br_nodup : NoDup (concat bk);
}.

(** No two entries of [ps] have the same key. *)
Definition keys_unique (c : cells) (ps : list ptr) : Prop := ∀ p q x y,
  p ∈ ps → q ∈ ps → c !! p = Some x → c !! q = Some y →
  lh_hash x = lh_hash y → lh_key x = lh_key y → p = q.

Record trep (c : cells) (t : HandleTable) (bk : list (list ptr)) : Prop := {
  tr_b : brep c (t_length_ t) (t_list_ t) bk;
  tr_elems : t_elems_ t = Z.of_nat (length (concat bk));
  tr_load : t_elems_ t ≤ t_length_ t;
  tr_keys : keys_unique c (concat bk);
}.

(** The entry [p] has this key. *)
Definition hit (c : cells) (key : bytes) (hash : Z) (p : ptr) : bool :=
  match c !! p with
  | Some x => (lh_hash x =? hash) && bool_decide (key = lh_key x)
  | None => false
  end.

(** The part of a chain before the entry with the key, and the rest. *)
Fixpoint split_hit (c : cells) (key : bytes) (hash : Z) (l : list ptr) : list ptr * list ptr :=
  match l with
  | [] => ([], [])
  | p :: l' =>
    if hit c key hash p then ([], l)
    else (p :: (split_hit c key hash l').1, (split_hit c key hash l').2)
  end.

(** ** Chains *)

Lemma lseg_app c p l1 l2 q : lseg c p (l1 ++ l2) q ↔ ∃ r, lseg c p l1 r ∧ lseg c r l2 q.
Proof.
  revert p. induction l1 as [|a l1 IH]; intros p; cbn.
  - split; [eauto|]. intros (r & -> & H). done.
  - split.
    + intros (-> & Ha & x & Hx & H). apply IH in H as (r & H1 & H2). exists r. eauto 8.
    + intros (r & (-> & Ha & x & Hx & H1) & H2). repeat split; [done|]. exists x. split; [done|].
      apply IH. eauto.
Qed.

Lemma lseg_frame c c' D p l q : lseg c p l q → only D c c' → (∀ a, a ∈ l → a ∉ D) → lseg c' p l q.
Proof.
  intros H Hf. revert p H. induction l as [|a l IH]; intros p H HD; [done|].
  destruct H as (-> & Ha & x & Hx & H). repeat split; [done|]. exists x.
  rewrite Hf by (apply HD; left). split; [done|]. apply IH; [done|]. intros b Hb. apply HD. right. done.
Qed.

Lemma lseg_live c p l q a : lseg c p l q → a ∈ l → a ≠ 0 ∧ ∃ x, c !! a = Some x.
Proof.
  revert p. induction l as [|b l IH]; intros p; [intros _ H; by apply not_elem_of_nil in H|].
  intros (-> & Hb & x & Hx & H) [->|Ha]%elem_of_cons; eauto.
Qed.

Lemma chain_length c p l : chain c p l → NoDup l → (length l ≤ size c)%nat.
Proof.
  intros H Hn. rewrite <- (size_dom (D := gset ptr)).
  rewrite <- (size_list_to_set (C := gset ptr)) by done. apply subseteq_size. intros a.
  rewrite elem_of_list_to_set, elem_of_dom. intros Ha. destruct (lseg_live _ _ _ _ _ H Ha) as (_ & x & Hx). eauto.
Qed.

Lemma only_refl D c : only D c c.
Proof. done. Qed.

Lemma only_trans D c1 c2 c3 : only D c1 c2 → only D c2 c3 → only D c1 c3.
Proof. intros H1 H2 p Hp. rewrite H2, H1; done. Qed.

Lemma only_weaken D D' c c' : only D c c' → (∀ p, p ∈ D → p ∈ D') → only D' c c'.
Proof. intros H HD p Hp. apply H. auto. Qed.

Lemma only_insert D c p x : p ∈ D → only D c (<[p := x]> c).
Proof. intros Hp q Hq. rewrite lookup_insert_ne; [done|]. set_solver. Qed.

#[export] Instance nh_eq_equiv : Equivalence nh_eq.
Proof.
  split; [intros c p; done|intros c c' H p; symmetry; apply H|].
  intros c1 c2 c3 H1 H2 p. rewrite (H1 p). apply H2.
Qed.

Lemma nh_eq_set c p x v : c !! p = Some x → nh_eq c (<[p := x <| lh_next_hash := v |>]> c).
Proof.
  intros Hx q. destruct (decide (p = q)) as [<-|Hpq].
  - rewrite lookup_insert_eq, Hx. done.
  - rewrite lookup_insert_ne; done.
Qed.

(** What [strip] keeps. *)
Lemma nh_eq_some c c' p x : nh_eq c c' → c !! p = Some x → ∃ x', c' !! p = Some x' ∧ strip x' = strip x.
Proof.
  intros H Hx. specialize (H p). rewrite Hx in H. destruct (c' !! p) as [x'|]; [|done].
  cbn in H. apply (inj Some) in H. eauto.
Qed.

Lemma strip_fields x y : strip x = strip y →
  lh_value x = lh_value y ∧ lh_deleter x = lh_deleter y ∧ lh_next x = lh_next y ∧ lh_prev x = lh_prev y ∧
  lh_charge x = lh_charge y ∧ lh_key x = lh_key y ∧ lh_in_cache x = lh_in_cache y ∧
  lh_refs x = lh_refs y ∧ lh_hash x = lh_hash y.
Proof. destruct x, y. intros [=]. subst. done. Qed.

Lemma hit_nh_eq c c' key hash p : nh_eq c c' → hit c key hash p = hit c' key hash p.
Proof.
  intros H. specialize (H p). unfold hit.
  destruct (c !! p) as [x|], (c' !! p) as [y|]; try done.
  apply (inj Some), strip_fields in H. destruct H as (_ & _ & _ & _ & _ & -> & _ & _ & ->). done.
Qed.

Lemma keys_unique_nh_eq c c' ps : nh_eq c c' → keys_unique c ps → keys_unique c' ps.
Proof.
  intros He Hk p q x y Hp Hq Hx Hy Hh Hkey. symmetry in He.
  destruct (nh_eq_some _ _ _ _ He Hx) as (x' & Hx' & Ex%strip_fields).
  destruct (nh_eq_some _ _ _ _ He Hy) as (y' & Hy' & Ey%strip_fields).
  eapply (Hk p q x' y'); naive_solver congruence.
Qed.

Lemma keys_unique_sub c ps qs : (∀ p, p ∈ qs → p ∈ ps) → keys_unique c ps → keys_unique c qs.
Proof. intros Hs Hk p q x y Hp Hq. apply Hk; auto. Qed.

(** ** Searching a chain *)

Lemma split_hit_app c key hash l : (split_hit c key hash l).1 ++ (split_hit c key hash l).2 = l.
Proof.
  induction l as [|p l IH]; [done|]. cbn. destruct (hit c key hash p); [done|]. cbn. rewrite IH. done.
Qed.

Lemma split_hit_miss c key hash l p : p ∈ (split_hit c key hash l).1 → hit c key hash p = false.
Proof.
  induction l as [|q l IH]; cbn; [intros H; by apply not_elem_of_nil in H|].
  destruct (hit c key hash q) eqn:Hq; cbn; [intros H; by apply not_elem_of_nil in H|].
  intros [->|H]%elem_of_cons; auto.
Qed.

Lemma split_hit_found c key hash l p l2 : (split_hit c key hash l).2 = p :: l2 → hit c key hash p = true.
Proof.
  induction l as [|q l IH]; cbn; [done|]. destruct (hit c key hash q) eqn:Hq; cbn; [|apply IH].
  intros [= <- <-]. done.
Qed.

Lemma split_hit_none c key hash l : (split_hit c key hash l).2 = [] → ∀ p, p ∈ l → hit c key hash p = false.
Proof.
  intros H p Hp. apply (split_hit_miss c key hash l).
  rewrite <- (split_hit_app c key hash l), H, app_nil_r in Hp. done.
Qed.

(** The slot behind the entries [l1] of the chain that starts at [sl]. *)
Definition slot_after (sl : slot) (l1 : list ptr) : slot :=
  match last l1 with Some q => SlotNext q | None => sl end.

Lemma slot_after_cons sl p l1 : slot_after (SlotNext p) l1 = slot_after sl (p :: l1).
Proof. unfold slot_after. rewrite last_cons. destruct (last l1); done. Qed.

Section AccessRun.
Context {S : Type} `{!HasCells S}.

Lemma deref_run p x (s : S) : p ≠ 0 → the_cells s !! p = Some x → deref p s = Ok (x, s).
Proof. intros Hp Hx. unfold deref. rewrite (proj2 (Z.eqb_neq _ _) Hp), Hx. done. Qed.

Lemma handle_key_run p x (s : S) : p ≠ 0 → the_cells s !! p = Some x → lh_next x ≠ p →
  handle_key p s = Ok (lh_key x, s).
Proof.
  intros Hp Hx Hn. unfold handle_key. eapply bind_run; [apply deref_run; done|].
  rewrite (proj2 (Z.eqb_neq _ _) Hn). done.
Qed.

Lemma store_run p x f (s : S) : p ≠ 0 → the_cells s !! p = Some x →
  store p f s = Ok (tt, with_cells (fun c => <[p := f x]> c) s).
Proof. intros Hp Hx. unfold store. eapply bind_run; [apply deref_run; done|]. done. Qed.

Lemma assert_run b (s : S) : b = true → assert_ b s = Ok (tt, s).
Proof. intros ->. done. Qed.

End AccessRun.

Lemma slot_next_run p x s : p ≠ 0 → ts_cells s !! p = Some x → slot_read (SlotNext p) s = Ok (lh_next_hash x, s).
Proof. intros Hp Hx. cbn. eapply bind_run; [apply deref_run; done|]. done. Qed.

(** The entries of [l] can be asked for their key. *)
Definition readable (c : cells) (l : list ptr) : Prop :=
  ∀ p, p ∈ l → ∃ x, c !! p = Some x ∧ lh_next x ≠ p.

(** The search stops at the entry with the key, or at the end of the chain. *)
Lemma find_loop_run fuel sl key hash s p l :
  slot_read sl s = Ok (p, s) → chain (ts_cells s) p l → readable (ts_cells s) l → (length l < fuel)%nat →
  find_loop fuel sl key hash s = Ok (slot_after sl (split_hit (ts_cells s) key hash l).1, s).
Proof.
  revert sl p l. induction fuel as [|fuel IH]; intros sl p l Hsl Hc Hr Hf; [lia|]. cbn [find_loop].
  eapply bind_run; [exact Hsl|]. destruct l as [|a l]; [cbn in Hc; subst p; done|].
  destruct Hc as (-> & Ha & x & Hx & Hc). rewrite (proj2 (Z.eqb_neq _ _) Ha).
  destruct (Hr a ltac:(left)) as (y & Hy & Hn). simplify_eq.
  eapply bind_run; [apply deref_run; done|]. cbn [split_hit]. unfold hit at 1. rewrite Hx.
  assert (find_loop fuel (SlotNext a) key hash s =
          Ok (slot_after sl (a :: (split_hit (ts_cells s) key hash l).1), s)) as Hrec.
  { rewrite <- slot_after_cons. eapply IH; [apply slot_next_run; done|done| |cbn in Hf; lia].
    intros q Hq. apply Hr. right. done. }
  destruct (lh_hash x =? hash); cbn [negb andb]; [|exact Hrec].
  eapply bind_run; [apply handle_key_run; done|].
  destruct (decide (key = lh_key x)) as [->|Hk].
  - rewrite bool_decide_eq_false_2, bool_decide_eq_true_2 by (try intros []; done). done.
  - rewrite bool_decide_eq_true_2, bool_decide_eq_false_2 by done. exact Hrec.
Qed.

(** The pointer in the slot behind [l1]. *)
Lemma slot_after_run sl s p l1 q : slot_read sl s = Ok (p, s) → lseg (ts_cells s) p l1 q →
  slot_read (slot_after sl l1) s = Ok (q, s).
Proof.
  revert sl p. induction l1 as [|a l1 IH]; intros sl p Hsl H; [cbn in H; subst; done|].
  destruct H as (-> & Ha & x & Hx & H). rewrite <- slot_after_cons.
  eapply IH; [apply slot_next_run; done|done].
Qed.

(** Writing [v] behind [l1] makes the chain go on from [v]. *)
Lemma lseg_redirect c p l1 b q x v : lseg c p (l1 ++ [b]) q → NoDup (l1 ++ [b]) → c !! b = Some x →
  lseg (<[b := x <| lh_next_hash := v |>]> c) p (l1 ++ [b]) v.
Proof.
  intros H Hn Hx. apply lseg_app in H as (r & H1 & H2). apply lseg_app. exists r. split.
  - eapply (lseg_frame _ _ [b]); [done|apply only_insert; left|].
    intros a Ha. apply NoDup_app in Hn as (_ & Hn & _). intros ->%list_elem_of_singleton.
    apply (Hn b Ha). left.
  - destruct H2 as (-> & Hb & _). repeat split; [done|]. eexists. rewrite lookup_insert_eq. done.
Qed.

(** ** Buckets *)

Lemma index_range hash len : (∃ k, 2 ≤ k ≤ 31 ∧ len = 2 ^ k) → 0 ≤ index hash len < len.
Proof.
  intros (k & Hk & ->). unfold index.
  assert (2 ^ 2 ≤ 2 ^ k ≤ 2 ^ 31) as Hp by (split; apply Z.pow_le_mono_r; lia).
  rewrite wrap_id by range_lia. rewrite Z.sub_1_r, <- Z.ones_equiv, Z.land_ones by lia.
  apply Z.mod_pos_bound. lia.
Qed.

Lemma brep_head c len heads bk i l : brep c len heads bk → bk !! i = Some l →
  ∃ p, heads !! i = Some p ∧ chain c p l.
Proof. intros Hb Hl. destruct (Forall2_lookup_r _ _ _ _ _ (br_chains _ _ _ _ Hb) Hl) as (p & ? & ?). eauto. Qed.

Lemma brep_bucket c len heads bk hash : brep c len heads bk →
  ∃ l, bk !! Z.to_nat (index hash len) = Some l.
Proof.
  intros Hb. pose proof (index_range hash len (br_len _ _ _ _ Hb)) as Hi.
  apply lookup_lt_is_Some. rewrite <- (Forall2_length _ _ _ (br_chains _ _ _ _ Hb)), (br_size _ _ _ _ Hb). lia.
Qed.

Lemma brep_readable c len heads bk i l : brep c len heads bk → bk !! i = Some l → readable c l.
Proof. intros Hb Hl p Hp. destruct (br_place _ _ _ _ Hb i l p Hl Hp) as (x & ? & ? & _). eauto. Qed.

Lemma elem_of_bucket (bk : list (list ptr)) i l p : bk !! i = Some l → p ∈ l → p ∈ concat bk.
Proof.
  intros Hl Hp. apply list_elem_of_In, in_concat. exists l.
  split; apply list_elem_of_In; [by apply list_elem_of_lookup_2 in Hl|done].
Qed.

Lemma elem_of_buckets (bk : list (list ptr)) p : p ∈ concat bk → ∃ i l, bk !! i = Some l ∧ p ∈ l.
Proof.
  intros H. apply list_elem_of_In, in_concat in H as (l & Hl & Hp). apply list_elem_of_In in Hl, Hp.
  apply list_elem_of_lookup in Hl as (i & Hi). eauto.
Qed.

(** Replacing one bucket. *)
Lemma concat_split (bk : list (list ptr)) i l : bk !! i = Some l →
  concat bk ≡ₚ l ++ concat (delete i bk) ∧ ∀ l', concat (<[i := l']> bk) ≡ₚ l' ++ concat (delete i bk).
Proof.
  intros Hl. assert (i < length bk)%nat as Hi by (eapply lookup_lt_Some; done). split.
  - rewrite <- (take_drop_middle bk i l Hl) at 1. rewrite delete_take_drop, !concat_app. cbn.
    rewrite Permutation_app_swap_app. done.
  - intros l'. rewrite insert_take_drop by done. rewrite delete_take_drop, !concat_app. cbn.
    rewrite Permutation_app_swap_app. done.
Qed.

Lemma nodup_bucket (bk : list (list ptr)) i l : NoDup (concat bk) → bk !! i = Some l → NoDup l.
Proof. intros Hn Hl. rewrite (proj1 (concat_split bk i l Hl)) in Hn. apply NoDup_app in Hn as [? _]. done. Qed.

Lemma other_bucket (bk : list (list ptr)) i j l l' p :
  NoDup (concat bk) → bk !! i = Some l → bk !! j = Some l' → i ≠ j → p ∈ l → p ∉ l'.
Proof.
  intros Hn Hl Hl' Hij Hp Hp'. rewrite (proj1 (concat_split bk i l Hl)) in Hn.
  apply NoDup_app in Hn as (_ & Hn & _). apply (Hn p Hp).
  destruct (decide (i < j)%nat) as [Hlt|Hge].
  - apply (elem_of_bucket _ (j - 1)%nat l'); [|done]. rewrite list_lookup_delete_ge by lia.
    replace (S (j - 1)) with j by lia. done.
  - apply (elem_of_bucket _ j l'); [|done]. rewrite list_lookup_delete_lt by lia. done.
Qed.


Definition placed (c : cells) (len : Z) (i : nat) (p : ptr) : Prop :=
  ∃ x, c !! p = Some x ∧ lh_next x ≠ p ∧ index (lh_hash x) len = Z.of_nat i.

Lemma placed_nh_eq c c' len i p : nh_eq c c' → placed c len i p → placed c' len i p.
Proof.
  intros He (x & Hx & Hn & Hi). destruct (nh_eq_some _ _ _ _ He Hx) as (y & Hy & E%strip_fields).
  exists y. naive_solver congruence.
Qed.

Definition head0 (l : list ptr) : ptr := default 0 (head l).

Lemma chain_head0 c p l : chain c p l → p = head0 l.
Proof. destruct l; cbn; tauto. Qed.

(** The search in a table, and what its slot holds. *)
Lemma FindPointer_run s bk key hash l : brep (ts_cells s) (t_length_ (ts_tbl s)) (t_list_ (ts_tbl s)) bk →
  bk !! Z.to_nat (index hash (t_length_ (ts_tbl s))) = Some l →
  let sl := slot_after (SlotBucket (index hash (t_length_ (ts_tbl s)))) (split_hit (ts_cells s) key hash l).1 in
  FindPointer key hash s = Ok (sl, s) ∧ slot_read sl s = Ok (head0 (split_hit (ts_cells s) key hash l).2, s).
Proof.
  intros Hb Hl sl. destruct (brep_head _ _ _ _ _ _ Hb Hl) as (p & Hp & Hc).
  pose proof (index_range hash _ (br_len _ _ _ _ Hb)) as Hi.
  assert (slot_read (SlotBucket (index hash (t_length_ (ts_tbl s)))) s = Ok (p, s)) as Hr.
  { unfold slot_read. eapply bind_run; [apply gets_run|]. apply lift_run. unfold bucket_read.
    rewrite (proj2 (Z.ltb_ge _ _)) by lia. rewrite Hp. done. }
  split.
  - unfold FindPointer. do 2 (eapply bind_run; [apply gets_run|]).
    eapply find_loop_run; [exact Hr|done|by eapply brep_readable|]. unfold chain_fuel.
    pose proof (chain_length _ _ _ Hc (nodup_bucket _ _ _ (br_nodup _ _ _ _ Hb) Hl)). lia.
  - rewrite <- (split_hit_app (ts_cells s) key hash l) in Hc. apply lseg_app in Hc as (q & H1 & H2).
    rewrite <- (chain_head0 _ _ _ H2). eapply slot_after_run; done.
Qed.

(** Writing through the slot replaces the end of one chain. *)
Lemma splice_run s bk i l1 l2 v l' : let c := ts_cells s in let t := ts_tbl s in
  brep c (t_length_ t) (t_list_ t) bk → bk !! i = Some (l1 ++ l2) → chain c v l' →
  (∀ p, p ∈ l' → placed c (t_length_ t) i p) → NoDup (concat (<[i := l1 ++ l']> bk)) →
  ∃ c' heads', slot_write (slot_after (SlotBucket (Z.of_nat i)) l1) v s =
      Ok (tt, MkTst c' (MkTable (t_length_ t) (t_elems_ t) heads')) ∧
    brep c' (t_length_ t) heads' (<[i := l1 ++ l']> bk) ∧ nh_eq c c' ∧ only l1 c c'.
Proof.
  intros c t Hb Hl Hv Hpl Hnd. assert (i < length bk)%nat as Hi by (eapply lookup_lt_Some; done).
  assert ((<[i := l1 ++ l']> bk) !! i = Some (l1 ++ l')) as Hl' by (apply list_lookup_insert_eq; done).
  destruct (brep_head _ _ _ _ _ _ Hb Hl) as (p & Hp & Hc). apply lseg_app in Hc as (q & Hc1 & Hc2).
  pose proof (nodup_bucket _ _ _ Hnd Hl') as Hnl. apply NoDup_app in Hnl as (Hn1 & Hn12 & Hn2).
  assert (∀ c' v', nh_eq c c' → only l1 c c' → chain c' v' (l1 ++ l') →
    brep c' (t_length_ t) (<[i := v']> (t_list_ t)) (<[i := l1 ++ l']> bk)) as Hmk.
  { intros c' v' He Ho Hch. pose proof (br_chains _ _ _ _ Hb) as Hbc.
    apply Forall2_same_length_lookup in Hbc as [Hlen Hbc].
    split; [apply Hb|rewrite length_insert; apply Hb| | |done].
    - apply Forall2_same_length_lookup. rewrite !length_insert. split; [done|]. intros j a k Ha Hk.
      destruct (decide (i = j)) as [<-|Hij].
      + rewrite Hl' in Hk. rewrite list_lookup_insert_eq in Ha by lia. simplify_eq. done.
      + rewrite list_lookup_insert_ne in Ha by done. rewrite list_lookup_insert_ne in Hk by done. eapply lseg_frame; [by eapply Hbc|exact Ho|].
        intros a' Ha' Hin. revert Ha'. eapply (other_bucket bk i j); [apply Hb|done|done|done|set_solver].
    - intros j k a Hk Ha. apply (placed_nh_eq c c'); [done|]. destruct (decide (i = j)) as [<-|Hij].
      + rewrite Hl' in Hk. injection Hk as <-. apply elem_of_app in Ha as [Ha|Ha]; [|auto].
        apply (br_place _ _ _ _ Hb i _ a Hl). set_solver.
      + rewrite list_lookup_insert_ne in Hk by done. apply (br_place _ _ _ _ Hb j k a Hk Ha). }
  destruct (last l1) as [b|] eqn:Hlast.
  - apply last_Some in Hlast as (l0 & ->).
    destruct (lseg_live _ _ _ _ b Hc1 ltac:(set_solver)) as (Hb0 & x & Hx).
    assert (only (l0 ++ [b]) c (<[b := x <| lh_next_hash := v |>]> c)) as Ho by (apply only_insert; set_solver).
    exists (<[b := x <| lh_next_hash := v |>]> c), (t_list_ t). split_and!; [| |by apply nh_eq_set|done].
    + unfold slot_after. rewrite last_snoc. unfold slot_write. rewrite (store_run b x) by done.
      subst c t. destruct s as [c [? ? ?]]. done.
    + rewrite <- (list_insert_id (t_list_ t) i p) by done. apply Hmk; [by apply nh_eq_set|done|].
      apply lseg_app. exists v. split; [by eapply lseg_redirect|].
      eapply lseg_frame; [done|apply (only_insert [b]); left|].
      intros a Ha ->%list_elem_of_singleton. apply (Hn12 b); set_solver.
  - apply last_None in Hlast as ->. exists c, (<[i := v]> (t_list_ t)). split_and!; [| |done|done].
    + unfold slot_after, slot_write. cbn [last]. eapply bind_run; [apply gets_run|].
      eapply bind_run; [apply lift_run|].
      { unfold bucket_write. rewrite (proj2 (Z.leb_le _ _)), (proj2 (Z.ltb_lt _ _)) by
          (try lia; apply lookup_lt_Some in Hp; subst t; lia). cbn. rewrite Nat2Z.id. done. }
      subst c t. destruct s as [c [? ? ?]]. done.
    + apply Hmk; done.
Qed.

(** ** The operations on a represented table *)

(** [r] is the entry with the key among [ps], or null when there is none. *)
Definition found (c : cells) (ps : list ptr) (key : bytes) (hash : Z) (r : ptr) : Prop :=
  (r = 0 ∧ ∀ p, p ∈ ps → hit c key hash p = false) ∨
  (r ≠ 0 ∧ r ∈ ps ∧ hit c key hash r = true).

Lemma hit_true c key hash p : hit c key hash p = true ↔
  ∃ x, c !! p = Some x ∧ lh_hash x = hash ∧ lh_key x = key.
Proof.
  unfold hit. destruct (c !! p) as [x|]; [|naive_solver].
  rewrite andb_true_iff, Z.eqb_eq, bool_decide_eq_true. naive_solver.
Qed.

(** An entry with the key can only be in the bucket of its hash. *)
Lemma hit_bucket c len heads bk key hash p : brep c len heads bk → p ∈ concat bk → hit c key hash p = true →
  ∃ l, bk !! Z.to_nat (index hash len) = Some l ∧ p ∈ l.
Proof.
  intros Hb Hp (x & Hx & Hh & _)%hit_true. apply elem_of_buckets in Hp as (i & l & Hl & Hp).
  destruct (br_place _ _ _ _ Hb i l p Hl Hp) as (y & Hy & _ & Hi). simplify_eq. rewrite Hi, Nat2Z.id. eauto.
Qed.

(** What the search of the bucket says about the whole table. *)
Lemma split_hit_table c len heads bk key hash l : brep c len heads bk →
  bk !! Z.to_nat (index hash len) = Some l →
  found c (concat bk) key hash (head0 (split_hit c key hash l).2).
Proof.
  intros Hb Hl. destruct (split_hit c key hash l).2 as [|p l2] eqn:Hs.
  - left. split; [done|]. intros p Hp. destruct (hit c key hash p) eqn:Hh; [|done].
    destruct (hit_bucket _ _ _ _ _ _ _ Hb Hp Hh) as (l' & Hl' & Hp'). simplify_eq.
    rewrite (split_hit_none _ _ _ _ Hs) in Hh by done. done.
  - right. pose proof (split_hit_app c key hash l) as Happ. rewrite Hs in Happ.
    assert (p ∈ l) as Hp by (rewrite <- Happ; set_solver). cbn. split_and!.
    + destruct (brep_head _ _ _ _ _ _ Hb Hl) as (q & _ & Hc). eapply lseg_live; done.
    + eapply elem_of_bucket; done.
    + eapply split_hit_found; done.
Qed.

Lemma Table_Lookup_run s bk key hash : trep (ts_cells s) (ts_tbl s) bk →
  ∃ r, Table_Lookup key hash s = Ok (r, s) ∧ found (ts_cells s) (concat bk) key hash r.
Proof.
  intros Ht. destruct (brep_bucket _ _ _ _ hash (tr_b _ _ _ Ht)) as (l & Hl).
  destruct (FindPointer_run s bk key hash l (tr_b _ _ _ Ht) Hl) as [Hf Hr].
  eexists. split; [|eapply split_hit_table; [apply Ht|done]].
  unfold Table_Lookup. eapply bind_run; [exact Hf|]. exact Hr.
Qed.

Lemma u32_small x : 0 ≤ x < 2 ^ 32 → u32 x = x.
Proof. intros. apply wrap_id. done. Qed.

Lemma trep_len c t bk : trep c t bk → 0 ≤ t_elems_ t ≤ t_length_ t ∧ 4 ≤ t_length_ t ≤ 2 ^ 31.
Proof.
  intros Ht. pose proof (tr_load _ _ _ Ht). pose proof (tr_elems _ _ _ Ht).
  destruct (br_len _ _ _ _ (tr_b _ _ _ Ht)) as (k & Hk & El).
  assert (2 ^ 2 ≤ 2 ^ k ≤ 2 ^ 31) by (split; apply Z.pow_le_mono_r; lia). lia.
Qed.

Lemma Table_Remove_run s bk key hash : trep (ts_cells s) (ts_tbl s) bk →
  ∃ r c' t' bk', Table_Remove key hash s = Ok (r, MkTst c' t') ∧ found (ts_cells s) (concat bk) key hash r ∧
    trep c' t' bk' ∧ nh_eq (ts_cells s) c' ∧ only (concat bk) (ts_cells s) c' ∧
    concat bk ≡ₚ (if r =? 0 then [] else [r]) ++ concat bk'.
Proof.
  intros Ht. pose proof (tr_b _ _ _ Ht) as Hb. destruct (brep_bucket _ _ _ _ hash Hb) as (l & Hl).
  pose proof (split_hit_table _ _ _ _ key _ _ Hb Hl) as Hfound.
  destruct (FindPointer_run s bk key hash l Hb Hl) as [Hf Hr].
  destruct (split_hit (ts_cells s) key hash l) as [l1 l2] eqn:Hs. cbn [fst snd] in *.
  assert (l = l1 ++ l2) as -> by (rewrite <- (split_hit_app (ts_cells s) key hash l), Hs; done).
  unfold Table_Remove. destruct l2 as [|p l2].
  - exists 0, (ts_cells s), (ts_tbl s), bk. split; [|done].
    eapply bind_run; [exact Hf|]. eapply bind_run; [exact Hr|]. destruct s; done.
  - cbn in Hfound. destruct (concat_split bk _ _ Hl) as [Hperm Hperm'].
    destruct (brep_head _ _ _ _ _ _ Hb Hl) as (a & _ & Hc). apply lseg_app in Hc as (q & _ & -> & Hp0 & x & Hx & Hc2).
    pose proof (br_nodup _ _ _ _ Hb) as Hnd. rewrite Hperm in Hnd.
    assert (concat bk ≡ₚ p :: concat (<[Z.to_nat (index hash (t_length_ (ts_tbl s))) := l1 ++ l2]> bk)) as Hp.
    { rewrite Hperm, Hperm', <- !app_assoc. cbn. rewrite <- Permutation_middle. done. }
    destruct (splice_run s bk (Z.to_nat (index hash (t_length_ (ts_tbl s)))) l1 (p :: l2) (lh_next_hash x) l2)
      as (c' & heads' & Hw & Hb' & He & Ho); [done|done|done| | |].
    { intros b Hb2. apply (br_place _ _ _ _ Hb _ _ b Hl). set_solver. }
    { pose proof (br_nodup _ _ _ _ Hb) as Hn. rewrite Hp in Hn. apply NoDup_cons in Hn as [_ ?]. done. }
    pose proof (index_range hash _ (br_len _ _ _ _ Hb)). rewrite Z2Nat.id in Hw by lia.
    eexists p, c', (MkTable _ (u32 (t_elems_ (ts_tbl s) - 1)) heads'), _. split; [|split; [done|split]].
    + eapply bind_run; [exact Hf|]. eapply bind_run; [exact Hr|]. change (head0 (p :: l2)) with p.
      rewrite (proj2 (Z.eqb_neq _ _) Hp0). eapply bind_run; [|apply ret_run].
      eapply bind_run; [apply deref_run; done|]. eapply bind_run; [exact Hw|]. done.
    + pose proof (trep_len _ _ _ Ht) as [Hlen ?]. pose proof (tr_elems _ _ _ Ht) as Hel. rewrite Hp in Hel. cbn in Hel.
      split; cbn; [done| | |].
      * rewrite u32_small by lia. lia.
      * rewrite u32_small by lia. lia.
      * eapply keys_unique_nh_eq; [done|]. eapply keys_unique_sub; [|apply Ht]. intros b Hb2. rewrite Hp. right. done.
    + split; [done|]. rewrite (proj2 (Z.eqb_neq _ _) Hp0). split; [|done].
      eapply only_weaken; [done|]. intros b Hb1. rewrite Hperm. set_solver.
Qed.

(** ** Resize *)

Lemma bucket_write_run i v (l : list ptr) : (i < length l)%nat → bucket_write (Z.of_nat i) v l = Ok (<[i := v]> l).
Proof.
  intros Hi. unfold bucket_write. rewrite (proj2 (Z.leb_le _ _)), (proj2 (Z.ltb_lt _ _)) by lia.
  cbn. rewrite Nat2Z.id. done.
Qed.

Lemma bucket_read_run i v (l : list ptr) : l !! i = Some v → bucket_read (Z.of_nat i) l = Ok v.
Proof. intros Hi. unfold bucket_read. rewrite (proj2 (Z.ltb_ge _ _)), Nat2Z.id, Hi by lia. done. Qed.

(** An entry goes to the front of its chain. *)
Lemma push_front c len heads bk a x i v l : brep c len heads bk → a ∉ concat bk → a ≠ 0 →
  c !! a = Some x → lh_next x ≠ a → index (lh_hash x) len = Z.of_nat i →
  heads !! i = Some v → bk !! i = Some l →
  brep (<[a := x <| lh_next_hash := v |>]> c) len (<[i := a]> heads) (<[i := a :: l]> bk) ∧
  concat (<[i := a :: l]> bk) ≡ₚ a :: concat bk.
Proof.
  intros Hb Ha Ha0 Hx Hn Hi Hv Hl. destruct (concat_split bk i l Hl) as [Hp Hp'].
  assert (concat (<[i := a :: l]> bk) ≡ₚ a :: concat bk) as Hperm by (rewrite Hp, Hp'; done).
  split; [|done]. assert (only [a] c (<[a := x <| lh_next_hash := v |>]> c)) as Ho by (apply only_insert; left).
  pose proof (br_chains _ _ _ _ Hb) as Hbc. apply Forall2_same_length_lookup in Hbc as [Hlen Hbc].
  assert (i < length bk)%nat by (eapply lookup_lt_Some; done).
  assert (∀ j k, bk !! j = Some k → ∀ b, b ∈ k → b ∉ [a]) as Hfr.
  { intros j k Hk b Hbk ->%list_elem_of_singleton. apply Ha. eapply elem_of_bucket; done. }
  split; [apply Hb|rewrite length_insert; apply Hb| | |].
  - apply Forall2_same_length_lookup. rewrite !length_insert. split; [done|]. intros j h k Hh Hk.
    destruct (decide (i = j)) as [<-|Hij].
    + rewrite list_lookup_insert_eq in Hh by lia. rewrite list_lookup_insert_eq in Hk by lia. simplify_eq.
      repeat split; [done|]. eexists. rewrite lookup_insert_eq. split; [done|]. cbn.
      eapply lseg_frame; [by eapply Hbc|exact Ho|]. eapply Hfr. done.
    + rewrite list_lookup_insert_ne in Hh by done. rewrite list_lookup_insert_ne in Hk by done.
      eapply lseg_frame; [by eapply Hbc|exact Ho|]. eapply Hfr. done.
  - intros j k b Hk Hbk. apply (placed_nh_eq c); [by apply nh_eq_set|]. destruct (decide (i = j)) as [<-|Hij].
    + rewrite list_lookup_insert_eq in Hk by lia. injection Hk as <-.
      apply elem_of_cons in Hbk as [->|Hbk]; [exists x; done|]. by apply (br_place _ _ _ _ Hb i l).
    + rewrite list_lookup_insert_ne in Hk by done. by apply (br_place _ _ _ _ Hb j k).
  - rewrite Hperm. apply NoDup_cons. split; [done|apply Hb].
Qed.

Lemma readable_nh_eq c c' l : nh_eq c c' → readable c l → readable c' l.
Proof.
  intros He Hr p Hp. destruct (Hr p Hp) as (x & Hx & Hn).
  destruct (nh_eq_some _ _ _ _ He Hx) as (y & Hy & E%strip_fields). exists y. naive_solver congruence.
Qed.

Lemma move_chain_run fuel : ∀ h s rest nlen nl nbk count,
  brep (ts_cells s) nlen nl nbk → chain (ts_cells s) h rest → NoDup rest → readable (ts_cells s) rest →
  (∀ p, p ∈ rest → p ∉ concat nbk) → (length rest < fuel)%nat →
  0 ≤ count → count + Z.of_nat (length rest) < 2 ^ 32 →
  ∃ c' nl' nbk', move_chain fuel h nlen nl count s =
      Ok ((nl', count + Z.of_nat (length rest)), s <| ts_cells := c' |>) ∧
    brep c' nlen nl' nbk' ∧ nh_eq (ts_cells s) c' ∧ only rest (ts_cells s) c' ∧
    concat nbk' ≡ₚ rest ++ concat nbk.
Proof.
  induction fuel as [|fuel IH]; intros h s rest nlen nl nbk count Hb Hc Hnd Hr Hdis Hf H0 H32; [lia|].
  cbn [move_chain]. destruct rest as [|a rest].
  { cbn in Hc. subst h. exists (ts_cells s), nl, nbk. split; [|done].
    cbn. rewrite Z.add_0_r. destruct s; done. }
  destruct Hc as (-> & Ha0 & x & Hx & Hc). rewrite (proj2 (Z.eqb_neq _ _) Ha0).
  destruct (Hr a ltac:(left)) as (y & Hy & Hn). simplify_eq. apply NoDup_cons in Hnd as [Ha Hnd].
  destruct (brep_bucket _ _ _ _ (lh_hash x) Hb) as (l & Hl). pose proof (index_range (lh_hash x) _ (br_len _ _ _ _ Hb)) as Hi.
  destruct (brep_head _ _ _ _ _ _ Hb Hl) as (v & Hv & _).
  destruct (push_front (ts_cells s) nlen nl nbk a x (Z.to_nat (index (lh_hash x) nlen)) v l) as [Hb' Hp'];
    [done|apply Hdis; left|done..|lia|done|done|].
  pose proof (nh_eq_set (ts_cells s) a x v Hx) as He.
  set (c1 := <[a := x <| lh_next_hash := v |>]> (ts_cells s)) in *.
  assert (only [a] (ts_cells s) c1) as Ho by (apply only_insert; left).
  destruct (IH (lh_next_hash x) (s <| ts_cells := c1 |>) rest nlen (<[Z.to_nat (index (lh_hash x) nlen) := a]> nl)
    (<[Z.to_nat (index (lh_hash x) nlen) := a :: l]> nbk) (count + 1)) as (c' & nl' & nbk' & Hrun & Hb2 & He2 & Ho2 & Hp2).
  - done.
  - eapply lseg_frame; [done|exact Ho|]. intros b Hb1 ->%list_elem_of_singleton. done.
  - done.
  - apply (readable_nh_eq (ts_cells s)); [done|]. intros b Hb1. apply Hr. right. done.
  - intros b Hb1. rewrite Hp'. rewrite not_elem_of_cons. split; [intros ->; done|]. apply Hdis. right. done.
  - cbn in Hf. lia.
  - lia.
  - cbn [length] in H32. lia.
  - exists c', nl', nbk'. split_and!.
    + eapply bind_run; [apply deref_run; done|]. cbv zeta. fold (index (lh_hash x) nlen).
      rewrite <- (Z2Nat.id (index (lh_hash x) nlen)) by lia.
      eapply bind_run; [apply lift_run, bucket_read_run; done|].
      eapply bind_run; [apply store_run; done|].
      eapply bind_run; [apply lift_run, bucket_write_run; by eapply lookup_lt_Some|].
      rewrite u32_small by (cbn [length] in H32; lia). etransitivity; [exact Hrun|]. cbn [length].
      replace (count + 1 + Z.of_nat (length rest)) with (count + Z.of_nat (S (length rest))) by lia. done.
    + done.
    + etransitivity; [exact He|exact He2].
    + eapply only_trans; eapply only_weaken; [exact Ho|set_solver|exact Ho2|set_solver].
    + rewrite Hp2, Hp'. cbn. rewrite <- Permutation_middle. done.
Qed.

Lemma move_all_run old : ∀ s obk nlen nl nbk count,
  brep (ts_cells s) nlen nl nbk → Forall2 (fun p l => chain (ts_cells s) p l) old obk →
  NoDup (concat obk) → readable (ts_cells s) (concat obk) → (∀ p, p ∈ concat obk → p ∉ concat nbk) →
  0 ≤ count → count + Z.of_nat (length (concat obk)) < 2 ^ 32 →
  ∃ c' nl' nbk', move_all old nlen nl count s =
      Ok ((nl', count + Z.of_nat (length (concat obk))), s <| ts_cells := c' |>) ∧
    brep c' nlen nl' nbk' ∧ nh_eq (ts_cells s) c' ∧ only (concat obk) (ts_cells s) c' ∧
    concat nbk' ≡ₚ concat obk ++ concat nbk.
Proof.
  induction old as [|h old IH]; intros s obk nlen nl nbk count Hb Hch Hnd Hr Hdis H0 H32; cbn [move_all].
  { apply Forall2_nil_inv_l in Hch as ->. exists (ts_cells s), nl, nbk. split; [|done].
    cbn. rewrite Z.add_0_r. destruct s; done. }
  apply Forall2_cons_inv_l in Hch as (l & obk' & Hc & Hch & ->). cbn [concat] in *.
  rewrite length_app in *. apply NoDup_app in Hnd as (Hnl & Hdl & Hnd).
  destruct (move_chain_run (chain_fuel s) h s l nlen nl nbk count) as (c1 & nl1 & nbk1 & Hrun1 & Hb1 & He1 & Ho1 & Hp1);
    [done|done|done| | | |done|lia|].
  { intros p Hp. apply Hr. set_solver. }
  { intros p Hp. apply Hdis. set_solver. }
  { unfold chain_fuel. pose proof (chain_length _ _ _ Hc Hnl). lia. }
  destruct (IH (s <| ts_cells := c1 |>) obk' nlen nl1 nbk1 (count + Z.of_nat (length l)))
    as (c' & nl' & nbk' & Hrun & Hb' & He & Ho & Hp); [done| |done| | |lia|lia|].
  { apply Forall2_same_length_lookup. apply Forall2_same_length_lookup in Hch as [Hlen Hch]. split; [done|].
    intros i p k Hpi Hk. eapply lseg_frame; [by eapply Hch|exact Ho1|].
    intros a Ha Hal. apply (Hdl a Hal). eapply elem_of_bucket; done. }
  { apply (readable_nh_eq (ts_cells s)); [done|]. intros p Hpo. apply Hr. set_solver. }
  { intros p Hpo. rewrite Hp1. intros [Hpl|Hpn]%elem_of_app; [by apply (Hdl p Hpl)|].
    apply (Hdis p); set_solver. }
  exists c', nl', nbk'. split_and!.
  - eapply bind_run; [apply gets_run|]. eapply bind_run; [exact Hrun1|]. cbn [fst snd]. rewrite Hrun.
    rewrite Nat2Z.inj_add, Z.add_assoc. done.
  - done.
  - etransitivity; [exact He1|exact He].
  - eapply only_trans; eapply only_weaken; [exact Ho1|set_solver|exact Ho|set_solver].
  - rewrite Hp, Hp1, !app_assoc. f_equiv. apply Permutation_app_comm.
Qed.

(** The doubling stops at a power of two that is large enough. *)
Lemma grow_loop_run fuel k elems : 2 ≤ k ≤ 31 → elems ≤ 2 ^ 31 → 32 ≤ k + Z.of_nat fuel →
  ∃ k', 2 ≤ k' ≤ 31 ∧ grow_loop fuel (2 ^ k) elems = Ok (2 ^ k') ∧ elems ≤ 2 ^ k'.
Proof.
  revert k. induction fuel as [|fuel IH]; intros k Hk He Hf; [lia|]. cbn [grow_loop].
  destruct (Z.ltb_spec (2 ^ k) elems) as [Hlt|Hge]; [|eauto].
  assert (k < 31) as Hk31 by (destruct (decide (k = 31)) as [->|]; lia).
  assert (0 < 2 ^ k ≤ 2 ^ 30) by (split; [lia|apply Z.pow_le_mono_r; lia]).
  rewrite u32_small by range_lia.
  replace (2 ^ k * 2) with (2 ^ (k + 1)) by (rewrite Z.pow_add_r; lia).
  apply IH; lia.
Qed.

Lemma concat_replicate_nil n : concat (replicate n ([] : list ptr)) = [].
Proof. induction n; done. Qed.

Lemma brep_empty c k : 2 ≤ k ≤ 31 →
  brep c (2 ^ k) (replicate (Z.to_nat (2 ^ k)) 0) (replicate (Z.to_nat (2 ^ k)) []).
Proof.
  intros Hk. split.
  - eauto.
  - apply length_replicate.
  - apply Forall2_same_length_lookup. rewrite !length_replicate. split; [done|].
    intros i p l [-> _]%lookup_replicate [-> _]%lookup_replicate. done.
  - intros i l p [-> _]%lookup_replicate Hp. by apply not_elem_of_nil in Hp.
  - rewrite concat_replicate_nil. constructor.
Qed.

(** [Resize] rebuilds the table over the same entries: the array it comes from may
    be overfull, or the empty one of the constructor. *)
Lemma Resize_run s bk : let t := ts_tbl s in
  Forall2 (fun p l => chain (ts_cells s) p l) (t_list_ t) bk → NoDup (concat bk) →
  readable (ts_cells s) (concat bk) → keys_unique (ts_cells s) (concat bk) →
  t_elems_ t = Z.of_nat (length (concat bk)) → t_elems_ t ≤ 2 ^ 31 →
  ∃ c' t' bk', Resize s = Ok (tt, MkTst c' t') ∧ trep c' t' bk' ∧ concat bk' ≡ₚ concat bk ∧
    nh_eq (ts_cells s) c' ∧ only (concat bk) (ts_cells s) c'.
Proof.
  intros t Hch Hnd Hr Hk Hel H31. subst t.
  destruct (grow_loop_run grow_fuel 2 (t_elems_ (ts_tbl s))) as (k & Hkk & Hg & Hge); [lia|done|unfold grow_fuel; lia|].
  destruct (move_all_run (t_list_ (ts_tbl s)) s bk (2 ^ k) (replicate (Z.to_nat (2 ^ k)) 0)
    (replicate (Z.to_nat (2 ^ k)) []) 0) as (c' & nl' & nbk' & Hrun & Hb & He & Ho & Hp);
    [by apply brep_empty|done|done|done| |lia|lia|].
  { intros p _. rewrite concat_replicate_nil. apply not_elem_of_nil. }
  rewrite concat_replicate_nil, app_nil_r in Hp.
  exists c', (MkTable (2 ^ k) (t_elems_ (ts_tbl s)) nl'), nbk'. split_and!; [|split|done..]; cbn.
  - unfold Resize. eapply bind_run; [apply gets_run|]. eapply bind_run; [apply lift_run; exact Hg|].
    eapply bind_run; [exact Hrun|]. cbn [fst snd]. rewrite Z.add_0_l, <- Hel, Z.eqb_refl. destruct s; done.
  - done.
  - rewrite Hp. done.
  - done.
  - eapply keys_unique_nh_eq; [done|]. eapply keys_unique_sub; [|done]. intros p. rewrite Hp. done.
Qed.

Lemma HandleTable_new_run s : ∃ t, HandleTable_new s = Ok (tt, s <| ts_tbl := t |>) ∧
  ∃ bk, trep (ts_cells s) t bk ∧ concat bk = [].
Proof.
  exists (MkTable 4 0 (replicate 4 0)). split.
  - unfold HandleTable_new, Resize. destruct s. reflexivity.
  - exists (replicate 4 []). split; [|done]. split; cbn; [apply (brep_empty _ 2); lia|done|lia|].
    intros p q x y Hp. by apply not_elem_of_nil in Hp.
Qed.

(** ** Insert *)

Lemma brep_frame c c' D len heads bk : brep c len heads bk → only D c c' → (∀ p, p ∈ concat bk → p ∉ D) →
  brep c' len heads bk.
Proof.
  intros Hb Ho HD. split; [apply Hb|apply Hb| | |apply Hb].
  - pose proof (br_chains _ _ _ _ Hb) as Hch. apply Forall2_same_length_lookup in Hch as [Hlen Hch].
    apply Forall2_same_length_lookup. split; [done|]. intros i p l Hp Hl.
    eapply lseg_frame; [by eapply Hch|done|]. intros a Ha. apply HD. eapply elem_of_bucket; done.
  - intros i l p Hl Hp. rewrite Ho; [by apply (br_place _ _ _ _ Hb i l)|]. apply HD. eapply elem_of_bucket; done.
Qed.

Lemma brep_readable_all c len heads bk : brep c len heads bk → readable c (concat bk).
Proof. intros Hb p Hp. apply elem_of_buckets in Hp as (i & l & Hl & Hp). by apply (brep_readable _ _ _ _ _ _ Hb Hl). Qed.

(** The entries left when [h] takes the place of the entry with its key. *)
Lemma keys_unique_cons c ps h x : keys_unique c ps → c !! h = Some x →
  (∀ p, p ∈ ps → hit c (lh_key x) (lh_hash x) p = false) → keys_unique c (h :: ps).
Proof.
  intros Hk Hx Hm p q y z Hp Hq Hy Hz Hh Hkey.
  assert (∀ r w, r ∈ ps → c !! r = Some w → lh_hash w = lh_hash x → lh_key w = lh_key x → False) as Hno.
  { intros r w Hr Hw H1 H2. specialize (Hm r Hr). apply not_true_iff_false in Hm. apply Hm, hit_true. eauto. }
  apply elem_of_cons in Hp as [->|Hp], Hq as [->|Hq]; [done| | |by eapply Hk]; exfalso; simplify_eq.
  - eapply (Hno q z); done.
  - eapply (Hno p y); done.
Qed.

Lemma keys_unique_replace c ps rest h x old : keys_unique c ps → NoDup ps → c !! h = Some x →
  found c ps (lh_key x) (lh_hash x) old → ps ≡ₚ (if old =? 0 then [] else [old]) ++ rest →
  keys_unique c (h :: rest).
Proof.
  intros Hk Hnd Hx Hf Hp. assert (∀ p, p ∈ rest → p ∈ ps) as Hsub by (intros p Hp1; rewrite Hp; set_solver).
  apply (keys_unique_cons c rest h x); [by eapply keys_unique_sub|done|]. intros p Hp1.
  destruct Hf as [[-> Hf]|(H0 & Hold & (y & Hy & Hh & Hkey)%hit_true)]; [auto|].
  rewrite (proj2 (Z.eqb_neq _ _) H0) in Hp. rewrite Hp in Hnd. apply NoDup_cons in Hnd as [Hnin _].
  apply not_true_iff_false. intros (z & Hz & Hh' & Hkey')%hit_true. apply Hnin.
  replace old with p; [done|]. apply (Hk p old z y); auto; congruence.
Qed.

(** The new entry linked in its chain, in front of what followed the old one. *)
Definition link (h : ptr) (sl : slot) (old : ptr) : M tst unit :=
  nh ← (if old =? 0 then mret 0 else y ← deref old; mret (lh_next_hash y));
  _ ← store h (fun x => x <| lh_next_hash := nh |>);
  slot_write sl h.

Lemma relink_run s bk h x i l1 l2 : let t := ts_tbl s in
  brep (ts_cells s) (t_length_ t) (t_list_ t) bk → h ∉ concat bk → h ≠ 0 → ts_cells s !! h = Some x →
  placed (ts_cells s) (t_length_ t) i h → bk !! i = Some (l1 ++ l2) →
  ∃ c' heads', link h (slot_after (SlotBucket (Z.of_nat i)) l1) (head0 l2) s =
      Ok (tt, MkTst c' (MkTable (t_length_ t) (t_elems_ t) heads')) ∧
    brep c' (t_length_ t) heads' (<[i := l1 ++ h :: tail l2]> bk) ∧ nh_eq (ts_cells s) c' ∧
    only (h :: concat bk) (ts_cells s) c'.
Proof.
  intros t Hb Hh Hh0 Hx Hpl Hl. destruct (concat_split bk _ _ Hl) as [Hperm Hperm'].
  destruct (brep_head _ _ _ _ _ _ Hb Hl) as (a & _ & Hc). apply lseg_app in Hc as (q & _ & Hc2).
  pose proof (chain_head0 _ _ _ Hc2) as ->.
  assert (∃ nh, (if head0 l2 =? 0 then mret 0 else y ← deref (head0 l2); mret (lh_next_hash y)) s = Ok (nh, s) ∧
    chain (ts_cells s) nh (tail l2)) as (nh & Hnh & Hct).
  { destruct l2 as [|b l2]; [exists 0; done|]. destruct Hc2 as (_ & Hb0 & y & Hy & Hc2).
    exists (lh_next_hash y). change (head0 (b :: l2)) with b. rewrite (proj2 (Z.eqb_neq _ _) Hb0). split; [|done].
    eapply bind_run; [apply deref_run; done|]. done. }
  pose proof (nh_eq_set (ts_cells s) h x nh Hx) as He1.
  set (c1 := <[h := x <| lh_next_hash := nh |>]> (ts_cells s)) in *.
  assert (only [h] (ts_cells s) c1) as Ho1 by (apply only_insert; left).
  assert (∀ p, p ∈ concat bk → p ∉ [h]) as Hdis by (intros p Hp1 ->%list_elem_of_singleton; done).
  pose proof (brep_frame _ _ _ _ _ _ Hb Ho1 Hdis) as Hb1.
  assert (∀ b, b ∈ tail l2 → b ∈ l1 ++ l2) as Htl by (intros b Hb2; destruct l2; set_solver).
  destruct (splice_run (s <| ts_cells := c1 |>) bk i l1 l2 h (h :: tail l2))
    as (c2 & heads2 & Hw & Hb2 & He2 & Ho2); [exact Hb1|exact Hl| | | |].
  { split; [done|]. split; [done|]. eexists. split; [apply lookup_insert_eq|]. cbn.
    eapply lseg_frame; [done|exact Ho1|]. intros b Hb2. apply Hdis. eapply elem_of_bucket; [done|]. auto. }
  { intros b [->|Hb2]%elem_of_cons; [by eapply placed_nh_eq|]. apply (br_place _ _ _ _ Hb1 i _ b Hl). auto. }
  { pose proof (br_nodup _ _ _ _ Hb) as Hnd. rewrite Hperm in Hnd, Hh. rewrite Hperm'.
    rewrite <- app_assoc in *. cbn. rewrite <- Permutation_middle. apply NoDup_cons. split.
    - intros Hin. apply Hh. destruct l2; [done|]. set_solver.
    - destruct l2; [done|]. cbn in Hnd |- *. rewrite <- Permutation_middle in Hnd. apply NoDup_cons in Hnd as [_ ?]. done. }
  exists c2, heads2. split_and!; [|exact Hb2|etransitivity; [exact He1|exact He2]|].
  - unfold link. eapply bind_run; [exact Hnh|]. eapply bind_run; [apply store_run; done|]. exact Hw.
  - eapply only_trans; eapply only_weaken; [exact Ho1|set_solver|exact Ho2|]. intros p Hp1. rewrite Hperm. set_solver.
Qed.

(** The count, and the array doubled when it is passed. *)
Definition count_new : M tst unit :=
  _ ← modify (fun s => s <| ts_tbl := ts_tbl s <| t_elems_ := u32 (t_elems_ (ts_tbl s) + 1) |> |>);
  t ← gets ts_tbl;
  if t_length_ t <? t_elems_ t then Resize else mret tt.

Lemma count_new_run s bk : let t := ts_tbl s in
  brep (ts_cells s) (t_length_ t) (t_list_ t) bk → keys_unique (ts_cells s) (concat bk) →
  t_elems_ t + 1 = Z.of_nat (length (concat bk)) → t_elems_ t < 2 ^ 31 →
  ∃ c' t' bk', count_new s = Ok (tt, MkTst c' t') ∧ trep c' t' bk' ∧ concat bk' ≡ₚ concat bk ∧
    nh_eq (ts_cells s) c' ∧ only (concat bk) (ts_cells s) c'.
Proof.
  intros t Hb Hk Hel H31. subst t. assert (u32 (t_elems_ (ts_tbl s) + 1) = t_elems_ (ts_tbl s) + 1) as Hu by (apply u32_small; clear -Hel H31; lia).
  unfold count_new. destruct (Z.ltb_spec (t_length_ (ts_tbl s)) (t_elems_ (ts_tbl s) + 1)) as [Hlt|Hge].
  - destruct (Resize_run (s <| ts_tbl := ts_tbl s <| t_elems_ := t_elems_ (ts_tbl s) + 1 |> |>) bk)
      as (c' & t' & bk' & Hrun & Ht & Hp & He & Ho); rsimpl; [apply Hb|apply Hb|by eapply brep_readable_all|done|done|lia|].
    exists c', t', bk'. split; [|done]. eapply bind_run; [apply modify_run|]. eapply bind_run; [apply gets_run|].
    rewrite Hu. rsimpl. rewrite (proj2 (Z.ltb_lt _ _)) by done. exact Hrun.
  - exists (ts_cells s), (ts_tbl s <| t_elems_ := t_elems_ (ts_tbl s) + 1 |>), bk. split; [|split; [|done]].
    + eapply bind_run; [apply modify_run|]. eapply bind_run; [apply gets_run|]. rewrite Hu. rsimpl.
      rewrite (proj2 (Z.ltb_ge _ _)) by done. destruct s; done.
    + split; done.
Qed.

Lemma Table_Insert_run s bk h x : trep (ts_cells s) (ts_tbl s) bk →
  h ∉ concat bk → h ≠ 0 → ts_cells s !! h = Some x → lh_next x ≠ h → t_elems_ (ts_tbl s) < 2 ^ 31 →
  ∃ old c' t' bk', Table_Insert h s = Ok (old, MkTst c' t') ∧
    found (ts_cells s) (concat bk) (lh_key x) (lh_hash x) old ∧
    trep c' t' bk' ∧ nh_eq (ts_cells s) c' ∧ only (h :: concat bk) (ts_cells s) c' ∧
    h :: concat bk ≡ₚ (if old =? 0 then [] else [old]) ++ concat bk'.
Proof.
  intros Ht Hh Hh0 Hx Hn H31. pose proof (tr_b _ _ _ Ht) as Hb. destruct (brep_bucket _ _ _ _ (lh_hash x) Hb) as (l & Hl).
  pose proof (index_range (lh_hash x) _ (br_len _ _ _ _ Hb)) as Hi.
  pose proof (split_hit_table _ _ _ _ (lh_key x) _ _ Hb Hl) as Hfound.
  destruct (FindPointer_run s bk (lh_key x) (lh_hash x) l Hb Hl) as [Hf Hr].
  destruct (split_hit (ts_cells s) (lh_key x) (lh_hash x) l) as [l1 l2] eqn:Hs. cbn [fst snd] in *.
  assert (l = l1 ++ l2) as -> by (rewrite <- (split_hit_app (ts_cells s) (lh_key x) (lh_hash x) l), Hs; done).
  set (i := Z.to_nat (index (lh_hash x) (t_length_ (ts_tbl s)))) in *.
  assert (index (lh_hash x) (t_length_ (ts_tbl s)) = Z.of_nat i) as Ei by lia. rewrite Ei in Hf, Hr.
  destruct (relink_run s bk h x i l1 l2) as (c1 & heads1 & Hlink & Hb1 & He1 & Ho1); [done..|exists x; done|done|].
  destruct (concat_split bk _ _ Hl) as [Hperm Hperm']. pose proof (br_nodup _ _ _ _ Hb) as Hnd.
  assert (∃ rest, concat bk ≡ₚ (if head0 l2 =? 0 then [] else [head0 l2]) ++ rest ∧
    concat (<[i := l1 ++ h :: tail l2]> bk) ≡ₚ h :: rest) as (rest & Hp1 & Hp2).
  { exists (l1 ++ tail l2 ++ concat (delete i bk)). rewrite Hperm, Hperm', <- !app_assoc. cbn.
    rewrite <- Permutation_middle. split; [|done]. destruct l2 as [|b l2]; [done|].
    destruct (brep_head _ _ _ _ _ _ Hb Hl) as (a & _ & Hc). apply lseg_app in Hc as (q & _ & _ & Hb0 & _).
    change (head0 (b :: l2)) with b. rewrite (proj2 (Z.eqb_neq _ _) Hb0). cbn. rewrite <- Permutation_middle. done. }
  pose proof (keys_unique_replace _ _ _ _ _ _ (tr_keys _ _ _ Ht) Hnd Hx Hfound Hp1) as Hku.
  assert (keys_unique c1 (concat (<[i := l1 ++ h :: tail l2]> bk))) as Hku1.
  { eapply keys_unique_nh_eq; [exact He1|]. eapply keys_unique_sub; [|exact Hku]. intros p. rewrite Hp2. done. }
  assert (∀ s', link h (slot_after (SlotBucket (Z.of_nat i)) l1) (head0 l2) s = Ok (tt, s') →
    Table_Insert h s = ((if head0 l2 =? 0 then count_new else mret tt) ≫= fun _ => mret (head0 l2)) s') as Hstep.
  { intros s' Hlk. unfold Table_Insert. eapply bind_run; [apply handle_key_run; done|].
    eapply bind_run; [apply deref_run; done|]. eapply bind_run; [exact Hf|]. eapply bind_run; [exact Hr|].
    unfold link in Hlk. inv_bind Hlk. eapply bind_run; [exact Hm|]. inv_bind Hlk. eapply bind_run; [exact Hm0|].
    eapply bind_run; [exact Hlk|]. done. }
  pose proof (Hstep _ Hlink) as Hrun. clear Hstep. exists (head0 l2).
  pose proof (tr_elems _ _ _ Ht) as Hel. rewrite Hp1 in Hel. destruct (Z.eqb_spec (head0 l2) 0) as [H0|H0].
  - destruct (count_new_run (MkTst c1 (MkTable (t_length_ (ts_tbl s)) (t_elems_ (ts_tbl s)) heads1)) (<[i := l1 ++ h :: tail l2]> bk))
      as (c' & t' & bk' & Hcn & Ht' & Hp' & He' & Ho'); cbn; [done|done|rewrite Hp2; cbn in Hel |- *; lia|done|].
    exists c', t', bk'. split_and!; [|done|done|etransitivity; done| |].
    + rewrite Hrun. eapply bind_run; [exact Hcn|]. done.
    + eapply only_trans; [exact Ho1|]. eapply only_weaken; [exact Ho'|]. intros p. rewrite Hp2, Hp1. done.
    + rewrite Hp1, Hp', Hp2. done.
  - eexists c1, _, _. split_and!; [rewrite Hrun; done|done| |done|done|].
    + split; cbn; [exact Hb1| |apply Ht|done]. rewrite Hp2. cbn in Hel |- *. lia.
    + rewrite Hp1, Hp2. cbn. apply Permutation_swap.
Qed.

End LruTable.
