(* ===== verification/LruCache.v ===== *)
(** * One shard of leveldb's LRU cache (src/ic-dpi/ic-leveldb/util/cache.cc)

    The class [LRUCache]: two circular doubly linked lists of the entries, one of
    those only the cache refers to, in the order they are evicted, one of those
    clients hold handles of, and the [HandleTable] over both.  Every entry counts
    its references.

    The state has the heap of the entries, the address [malloc] returns next, the
    calls of deleters, and the shard.  [rep] relates it to the lists of entries
    and the multiset of handles that clients hold; the theorems say that every
    operation of a client that releases only handles it holds keeps it, so that no
    [assert] fails and no freed entry is used, and what each operation does. *)

From S2P Require Import Prelude LruTable.
From stdpp Require Import base gmap gmultiset list strings.
From Stdlib Require Import ZArith Lia.
Import LruTable.

Open Scope Z_scope.

Module LruCache.

Record LRUCache := MkCache {
  capacity_ : Z;           (* size_t *)
  usage_ : Z;              (* size_t *)
  lru_ : ptr;              (* &lru_, the dummy head *)
  in_use_ : ptr;           (* &in_use_ *)
  table_ : HandleTable;
}.

#[export] Instance eta_cache : Eta LRUCache := fun x =>
  MkCache (capacity_ x) (usage_ x) (lru_ x) (in_use_ x) (table_ x).

(** The memory the shards share: the entries, the next address of [malloc], and
    the calls of deleters with the key and the value. *)
Record heap := MkHeap {
  hp_cells : cells;
  hp_next : ptr;
  hp_dels : list (Z * bytes * Z);
}.

#[export] Instance eta_heap : Eta heap := fun x => MkHeap (hp_cells x) (hp_next x) (hp_dels x).

Record lst := MkLst { l_heap : heap; l_sh : LRUCache }.
#[export] Instance eta_lst : Eta lst := fun x => MkLst (l_heap x) (l_sh x).

Definition l_cells (s : lst) : cells := hp_cells (l_heap s).

Definition put_cells (c : cells) (s : lst) : lst := s <| l_heap := l_heap s <| hp_cells := c |> |>.

#[export] Instance has_cells_lst : HasCells lst := {|
  the_cells := l_cells;
  with_cells f s := put_cells (f (l_cells s)) s;
|}.

(** A call of a member of [table_]. *)
Definition on_table {A} (m : M tst A) : M lst A := fun s =>
  match m (MkTst (l_cells s) (table_ (l_sh s))) with
  | Ok (a, t) => Ok (a, put_cells (ts_cells t) s <| l_sh := l_sh s <| table_ := ts_tbl t |> |>)
  | Bad f => Bad f
  end.

Definition malloc : M lst ptr := fun s =>
  let h := l_heap s in
  Ok (hp_next h, s <| l_heap := h <| hp_cells := <[hp_next h := raw_handle]> (hp_cells h) |>
                               <| hp_next := hp_next h + 1 |> |>).

Definition free (p : ptr) : M lst unit :=
  _ ← deref p;
  modify (fun s => put_cells (delete p (l_cells s)) s).

(** ** The lists *)

Definition LRU_Remove (e : ptr) : M lst unit :=
  x ← deref e;
  _ ← store (lh_next x) (fun y => y <| lh_prev := lh_prev x |>);
  x ← deref e;
  store (lh_prev x) (fun y => y <| lh_next := lh_next x |>).

Definition LRU_Append (list_ e : ptr) : M lst unit :=
  _ ← store e (fun y => y <| lh_next := list_ |>);
  l ← deref list_;
  _ ← store e (fun y => y <| lh_prev := lh_prev l |>);
  x ← deref e;
  _ ← store (lh_prev x) (fun y => y <| lh_next := e |>);
  x ← deref e;
  store (lh_next x) (fun y => y <| lh_prev := e |>).

(** ** References *)

Definition Ref (e : ptr) : M lst unit :=
  x ← deref e;
  _ ← (if (lh_refs x =? 1) && lh_in_cache x then
         _ ← LRU_Remove e;
         u ← gets (fun s => in_use_ (l_sh s));
         LRU_Append u e
       else mret tt);
  store e (fun y => y <| lh_refs := u32 (lh_refs y + 1) |>).

Definition Unref (e : ptr) : M lst unit :=
  x ← deref e;
  _ ← assert_ (0 <? lh_refs x);
  _ ← store e (fun y => y <| lh_refs := u32 (lh_refs y - 1) |>);
  x ← deref e;
  if lh_refs x =? 0 then
    _ ← assert_ (negb (lh_in_cache x));
    k ← handle_key e;
    _ ← modify (fun s => s <| l_heap := l_heap s <| hp_dels ::= (.++ [(lh_deleter x, k, lh_value x)]) |> |>);
    free e
  else if lh_in_cache x && (lh_refs x =? 1) then
    _ ← LRU_Remove e;
    l ← gets (fun s => lru_ (l_sh s));
    LRU_Append l e
  else mret tt.

(** ** Operations *)

(** The constructor: two empty rings, an empty table. *)
Definition LRUCache_new : M lst unit :=
  l ← malloc;
  u ← malloc;
  _ ← modify (fun s => s <| l_sh := MkCache 0 0 l u (MkTable 0 0 []) |>);
  _ ← store l (fun y => y <| lh_next := l |>);
  _ ← store l (fun y => y <| lh_prev := l |>);
  _ ← store u (fun y => y <| lh_next := u |>);
  _ ← store u (fun y => y <| lh_prev := u |>);
  on_table HandleTable_new.

Definition SetCapacity (capacity : Z) : M lst unit := modify (fun s => s <| l_sh := l_sh s <| capacity_ := capacity |> |>).

Definition Lookup (key : bytes) (hash : Z) : M lst ptr :=
  e ← on_table (Table_Lookup key hash);
  _ ← (if e =? 0 then mret tt else Ref e);
  mret e.

Definition Release (handle : ptr) : M lst unit := Unref handle.

Definition FinishErase (e : ptr) : M lst bool :=
  if e =? 0 then mret false else
  x ← deref e;
  _ ← assert_ (lh_in_cache x);
  _ ← LRU_Remove e;
  _ ← store e (fun y => y <| lh_in_cache := false |>);
  x ← deref e;
  _ ← modify (fun s => s <| l_sh := l_sh s <| usage_ := u64 (usage_ (l_sh s) - lh_charge x) |> |>);
  _ ← Unref e;
  mret true.

Definition Erase (key : bytes) (hash : Z) : M lst unit :=
  e ← on_table (Table_Remove key hash);
  _ ← FinishErase e;
  mret tt.

(** One turn of the loops of [Insert] and [Prune] on the oldest entry. *)
Definition evict (old : ptr) : M lst unit :=
  x ← deref old;
  _ ← assert_ (lh_refs x =? 1);
  k ← handle_key old;
  e ← on_table (Table_Remove k (lh_hash x));
  erased ← FinishErase e;
  assert_ erased.

(** The bound of the loops over the lru list. *)
Definition ring_fuel (s : lst) : nat := S (size (l_cells s)).

(** [while (usage_ > capacity_ && lru_.next != &lru_)] *)
Fixpoint evict_loop (fuel : nat) : M lst unit :=
  match fuel with
  | O => fail_with OutOfFuel
  | S fuel' =>
    sh ← gets l_sh;
    if negb (capacity_ sh <? usage_ sh) then mret tt else
    l ← deref (lru_ sh);
    if lh_next l =? lru_ sh then mret tt else
    _ ← evict (lh_next l);
    evict_loop fuel'
  end.

(** The block of [Insert] that caches the new entry. *)
Definition cache_entry (sh : LRUCache) (e : ptr) (charge : Z) : M lst unit :=
  _ ← store e (fun y => y <| lh_refs := u32 (lh_refs y + 1) |>);
  _ ← store e (fun y => y <| lh_in_cache := true |>);
  _ ← LRU_Append (in_use_ sh) e;
  _ ← modify (fun s => s <| l_sh := l_sh s <| usage_ := u64 (usage_ (l_sh s) + charge) |> |>);
  old ← on_table (Table_Insert e);
  _ ← FinishErase old;
  mret tt.

Definition Insert (key : bytes) (hash value charge deleter : Z) : M lst ptr :=
  e ← malloc;
  _ ← store e (fun y => y <| lh_value := value |> <| lh_deleter := deleter |> <| lh_charge := charge |>
                          <| lh_key := key |> <| lh_hash := hash |> <| lh_in_cache := false |> <| lh_refs := 1 |>);
  sh ← gets l_sh;
  _ ← (if 0 <? capacity_ sh then cache_entry sh e charge
       else store e (fun y => y <| lh_next := 0 |>));
  fuel ← gets ring_fuel;
  _ ← evict_loop fuel;
  mret e.

Fixpoint prune_loop (fuel : nat) : M lst unit :=
  match fuel with
  | O => fail_with OutOfFuel
  | S fuel' =>
    sh ← gets l_sh;
    l ← deref (lru_ sh);
    if lh_next l =? lru_ sh then mret tt else
    _ ← evict (lh_next l);
    prune_loop fuel'
  end.

Definition Prune : M lst unit := fuel ← gets ring_fuel; prune_loop fuel.

Definition TotalCharge : M lst Z := gets (fun s => usage_ (l_sh s)).

(** The loop of the destructor. *)
Fixpoint destroy_loop (fuel : nat) (e : ptr) : M lst unit :=
  match fuel with
  | O => fail_with OutOfFuel
  | S fuel' =>
    l ← gets (fun s => lru_ (l_sh s));
    if e =? l then mret tt else
    x ← deref e;
    _ ← assert_ (lh_in_cache x);
    _ ← store e (fun y => y <| lh_in_cache := false |>);
    _ ← assert_ (lh_refs x =? 1);
    _ ← Unref e;
    destroy_loop fuel' (lh_next x)
  end.

(** The destructor. *)
Definition LRUCache_delete : M lst unit :=
  sh ← gets l_sh;
  u ← deref (in_use_ sh);
  _ ← assert_ (lh_next u =? in_use_ sh);
  l ← deref (lru_ sh);
  fuel ← gets ring_fuel;
  destroy_loop fuel (lh_next l).

(** ** Circular lists *)

(** Each element of the list is sent by [f] to the next. *)
Fixpoint linked (f : ptr → option ptr) (l : list ptr) : Prop :=
  match l with
  | a :: ((b :: _) as l') => f a = Some b ∧ linked f l'
  | _ => True
  end.

Definition nxt (c : cells) (p : ptr) : option ptr := lh_next <$> c !! p.
Definition prv (c : cells) (p : ptr) : option ptr := lh_prev <$> c !! p.

(** From the head along [next] through [xs] back to it, and along [prev]. *)
Definition ring (c : cells) (hd : ptr) (xs : list ptr) : Prop :=
  linked (nxt c) (hd :: xs ++ [hd]) ∧ linked (prv c) (hd :: reverse xs ++ [hd]).

Lemma linked_mid f l1 a b l2 :
  linked f (l1 ++ a :: b :: l2) ↔ linked f (l1 ++ [a]) ∧ f a = Some b ∧ linked f (b :: l2).
Proof.
  induction l1 as [|c l1 IH]; [cbn; tauto|]. destruct l1 as [|d l1]; cbn in *; tauto.
Qed.

(** [f] is used on all elements but the last. *)
Lemma linked_ext f f' l z : (∀ p, p ∈ l → f' p = f p) → linked f (l ++ [z]) → linked f' (l ++ [z]).
Proof.
  induction l as [|a l IH]; [done|]. intros Hf. destruct l as [|b l]; cbn [app linked].
  - rewrite Hf by set_solver. done.
  - rewrite Hf by set_solver. intros [-> H]. split; [done|]. apply IH; [|done]. set_solver.
Qed.

Definition redirect (f : ptr → option ptr) (a b : ptr) : ptr → option ptr :=
  fun p => if decide (p = a) then Some b else f p.

(** Taking out the element after [a], and putting one there. *)
Lemma linked_remove f l1 a e b l2 m z : b :: l2 = m ++ [z] → a ∉ l1 → a ∉ m →
  linked f (l1 ++ a :: e :: b :: l2) → linked (redirect f a b) (l1 ++ a :: b :: l2).
Proof.
  intros Hm Ha1 Ham H.
  apply linked_mid in H as (H1 & _ & H2). destruct H2 as [_ H2]. apply linked_mid. split_and!.
  - eapply linked_ext; [|done]. intros p Hp. unfold redirect. rewrite decide_False; [done|]. by intros ->.
  - unfold redirect. rewrite decide_True; done.
  - rewrite Hm in *. eapply linked_ext; [|done]. intros p Hp. unfold redirect. rewrite decide_False; [done|]. by intros ->.
Qed.

Lemma linked_insert f l1 a e b l2 m z : b :: l2 = m ++ [z] → a ∉ l1 → a ∉ m → e ∉ l1 → e ∉ m → a ≠ e →
  linked f (l1 ++ a :: b :: l2) → linked (redirect (redirect f a e) e b) (l1 ++ a :: e :: b :: l2).
Proof.
  intros Hm Ha1 Ham He1 Hem Hae H. apply linked_mid in H as (H1 & _ & H2).
  assert (∀ p, p ≠ a → p ≠ e → redirect (redirect f a e) e b p = f p) as Hf.
  { intros p Hpa Hpe. unfold redirect. rewrite !decide_False by done. done. }
  apply linked_mid. split_and!.
  - eapply linked_ext; [|done]. intros p Hp. apply Hf; by intros ->.
  - unfold redirect. rewrite decide_False, decide_True by done. done.
  - split; [unfold redirect; rewrite decide_True; done|].
    rewrite Hm in *. eapply linked_ext; [|done]. intros p Hp. apply Hf; by intros ->.
Qed.

(** What precedes and follows an element of a ring, as the code finds it. *)
Lemma ring_around hd (l1 l2 : list ptr) : ∃ k1 a b k2,
  hd :: l1 = k1 ++ [a] ∧ l2 ++ [hd] = b :: k2 ∧ hd :: reverse l2 = reverse k2 ++ [b] ∧ reverse l1 ++ [hd] = a :: reverse k1.
Proof.
  destruct (exists_last (l := hd :: l1)) as (k1 & a & H1); [done|].
  assert (∃ b k2, l2 ++ [hd] = b :: k2) as (b & k2 & H2) by (destruct l2; eexists _, _; done).
  exists k1, a, b, k2. split_and!; [done|done| |].
  - rewrite <- reverse_cons, <- H2, reverse_snoc. done.
  - rewrite <- reverse_cons, H1, reverse_snoc. done.
Qed.

(** [c'] is [c] but for [next] and [prev] fields. *)
Definition unlink (x : LRUHandle) : LRUHandle := x <| lh_next := 0 |> <| lh_prev := 0 |>.
Definition lk_eq (c c' : cells) : Prop := ∀ p, unlink <$> c !! p = unlink <$> c' !! p.

#[export] Instance lk_eq_equiv : Equivalence lk_eq.
Proof.
  split; [intros c p; done|intros c c' H p; symmetry; apply H|].
  intros c1 c2 c3 H1 H2 p. rewrite (H1 p). apply H2.
Qed.

Lemma lk_eq_set c p x y : c !! p = Some x → unlink y = unlink x → lk_eq c (<[p := y]> c).
Proof.
  intros Hx Hy q. destruct (decide (p = q)) as [<-|Hpq].
  - rewrite lookup_insert_eq, Hx. cbn. rewrite Hy. done.
  - rewrite lookup_insert_ne; done.
Qed.

Lemma lk_eq_some c c' p x : lk_eq c c' → c !! p = Some x → ∃ x', c' !! p = Some x' ∧ unlink x' = unlink x.
Proof.
  intros H Hx. specialize (H p). rewrite Hx in H. destruct (c' !! p) as [x'|]; [|done].
  cbn in H. apply (inj Some) in H. eauto.
Qed.

Lemma unlink_fields x y : unlink x = unlink y →
  lh_value x = lh_value y ∧ lh_deleter x = lh_deleter y ∧ lh_next_hash x = lh_next_hash y ∧
  lh_charge x = lh_charge y ∧ lh_key x = lh_key y ∧ lh_in_cache x = lh_in_cache y ∧
  lh_refs x = lh_refs y ∧ lh_hash x = lh_hash y.
Proof. destruct x, y. intros [=]. subst. done. Qed.

(** The effect of a store on the two directions. *)
Lemma nxt_insert c p x q : nxt (<[p := x]> c) q = redirect (nxt c) p (lh_next x) q.
Proof.
  unfold nxt, redirect. destruct (decide (q = p)) as [->|Hq]; [rewrite lookup_insert_eq|rewrite lookup_insert_ne]; done.
Qed.

Lemma prv_insert c p x q : prv (<[p := x]> c) q = redirect (prv c) p (lh_prev x) q.
Proof.
  unfold prv, redirect. destruct (decide (q = p)) as [->|Hq]; [rewrite lookup_insert_eq|rewrite lookup_insert_ne]; done.
Qed.

Lemma redirect_same f p v q : f p = Some v → redirect f p v q = f q.
Proof. intros H. unfold redirect. destruct (decide (q = p)) as [->|]; done. Qed.

Lemma linked_pointwise f f' l : (∀ p, f' p = f p) → linked f l → linked f' l.
Proof. intros Hf. induction l as [|a [|b l] IH]; [done|done|]. intros [H1 H2]. split; [rewrite Hf; done|auto]. Qed.

Lemma ring_forward hd (l1 : list ptr) e l2 k1 a b k2 : hd :: l1 = k1 ++ [a] → l2 ++ [hd] = b :: k2 →
  hd :: (l1 ++ e :: l2) ++ [hd] = k1 ++ a :: e :: b :: k2.
Proof.
  intros H1 H2. rewrite <- H2, <- app_assoc, app_comm_cons, H1, <- app_assoc. done.
Qed.

Lemma ring_backward hd (l1 : list ptr) e l2 k1 a b k2 :
  hd :: reverse l2 = reverse k2 ++ [b] → reverse l1 ++ [hd] = a :: reverse k1 →
  hd :: reverse (l1 ++ e :: l2) ++ [hd] = reverse k2 ++ b :: e :: a :: reverse k1.
Proof.
  intros H3 H4. rewrite reverse_app, reverse_cons, <- !app_assoc. cbn. rewrite H4.
  rewrite app_comm_cons, H3, <- app_assoc. done.
Qed.

Lemma ring_link (l1 : list ptr) hd l2 k1 a b k2 : hd :: l1 = k1 ++ [a] → l2 ++ [hd] = b :: k2 →
  hd :: (l1 ++ l2) ++ [hd] = k1 ++ a :: b :: k2.
Proof. intros H1 H2. rewrite <- app_assoc, H2, app_comm_cons, H1, <- app_assoc. done. Qed.

Lemma ring_link_back (l1 : list ptr) hd l2 k1 a b k2 :
  hd :: reverse l2 = reverse k2 ++ [b] → reverse l1 ++ [hd] = a :: reverse k1 →
  hd :: reverse (l1 ++ l2) ++ [hd] = reverse k2 ++ b :: a :: reverse k1.
Proof. intros H3 H4. rewrite reverse_app, <- app_assoc, H4, app_comm_cons, H3, <- app_assoc. done. Qed.

(** The neighbours are distinct from what is not next to them. *)
Lemma around_nodup hd (l1 l2 k1 k2 : list ptr) a b : hd :: l1 = k1 ++ [a] → l2 ++ [hd] = b :: k2 →
  NoDup (hd :: l1 ++ l2) → a ∉ k1 ∧ a ∉ l2 ∧ b ∉ k2 ∧ b ∉ l1 ∧ a ∈ hd :: l1 ++ l2 ∧ b ∈ hd :: l1 ++ l2.
Proof.
  intros H1 H2 Hn. assert (NoDup (l1 ++ b :: k2)) as Hn2.
  { rewrite <- H2, app_assoc. rewrite <- Permutation_cons_append. done. }
  assert (b ∈ l2 ++ [hd]) as Hb by (rewrite H2; left). assert (a ∈ hd :: l1) as Ha by (rewrite H1; set_solver).
  rewrite app_comm_cons, H1 in Hn. apply NoDup_app in Hn as (Hn1 & Hd1 & _). apply NoDup_app in Hn1 as (_ & Hd & _).
  apply NoDup_app in Hn2 as (_ & Hd2 & Hn2). apply NoDup_cons in Hn2 as [Hbk _].
  split_and!; [|apply Hd1; set_solver|done| |set_solver|set_solver].
  - intros Hin. apply (Hd a Hin). left.
  - intros Hin. apply (Hd2 b Hin). left.
Qed.

Lemma nxt_some c p q : nxt c p = Some q → ∃ x, c !! p = Some x ∧ lh_next x = q.
Proof. unfold nxt. destruct (c !! p); [|done]. intros [= <-]. eauto. Qed.

Lemma prv_some c p q : prv c p = Some q → ∃ x, c !! p = Some x ∧ lh_prev x = q.
Proof. unfold prv. destruct (c !! p); [|done]. intros [= <-]. eauto. Qed.

Lemma LRU_Remove_run s hd l1 e l2 : let c := l_cells s in
  ring c hd (l1 ++ e :: l2) → NoDup (hd :: l1 ++ e :: l2) → 0 ∉ hd :: l1 ++ e :: l2 →
  ∃ c', LRU_Remove e s = Ok (tt, put_cells c' s) ∧ ring c' hd (l1 ++ l2) ∧ lk_eq c c' ∧ only (hd :: l1 ++ l2) c c'.
Proof.
  intros c [Hf Hp] Hn H0. subst c. destruct (ring_around hd l1 l2) as (k1 & a & b & k2 & E1 & E2 & E3 & E4).
  rewrite (ring_forward _ _ _ _ _ _ _ _ E1 E2) in Hf. rewrite (ring_backward _ _ _ _ _ _ _ _ E3 E4) in Hp.
  assert (NoDup (e :: hd :: l1 ++ l2)) as Hn'.
  { rewrite app_comm_cons, <- Permutation_middle in Hn. exact Hn. }
  apply NoDup_cons in Hn' as [Hne Hn']. destruct (around_nodup _ _ _ _ _ _ _ E1 E2 Hn') as (A1 & A2 & B1 & B2 & Ain & Bin).
  pose proof Hf as (_ & Hna & Hne1 & _)%linked_mid. pose proof Hp as (_ & Hpb & Hpe & _)%linked_mid.
  apply nxt_some in Hne1 as (x & Hx & Hxn). apply prv_some in Hpe as (x' & Hx' & Hxp).
  rewrite Hx in Hx'. injection Hx' as <-.
  apply nxt_some in Hna as (z & Hz & Hzn). apply prv_some in Hpb as (y & Hy & Hyp).
  assert (a ≠ 0 ∧ b ≠ 0 ∧ e ≠ 0 ∧ e ≠ b) as (Ha0 & Hb0 & He0 & Heb) by (split_and!; intros ->; set_solver).
  set (c1 := <[b := y <| lh_prev := a |>]> (l_cells s)).
  assert (∃ w, c1 !! a = Some w ∧ unlink w = unlink z ∧ (a ≠ b → w = z) ∧ (a = b → w = y <| lh_prev := a |>)) as (w & Hw & Hwz & Hw1 & Hw2).
  { unfold c1. destruct (decide (a = b)) as [<-|Hab].
    - rewrite lookup_insert_eq. rewrite Hy in Hz. injection Hz as <-. eexists. split_and!; done.
    - rewrite lookup_insert_ne by done. exists z. split_and!; [done..|]. intros ->. done. }
  assert (lk_eq (l_cells s) c1) as Hk1 by (by eapply lk_eq_set).
  assert (lk_eq c1 (<[a := w <| lh_next := b |>]> c1)) as Hk2 by (by eapply lk_eq_set).
  exists (<[a := w <| lh_next := b |>]> c1). split; [|split; [split|split]].
  - unfold LRU_Remove. eapply bind_run; [apply (deref_run e x); done|].
    rewrite Hxn, Hxp. eapply bind_run; [apply (store_run b y); done|]. eapply bind_run.
    { apply (deref_run e x); [done|]. change (c1 !! e = Some x). unfold c1. rewrite lookup_insert_ne; done. }
    rewrite Hxp, Hxn, (store_run a w) by (done || exact Hw). done.
  - rewrite (ring_link _ _ _ _ _ _ _ E1 E2).
    assert (∀ p, nxt c1 p = nxt (l_cells s) p) as N1.
    { intros p. unfold c1. rewrite nxt_insert. apply redirect_same. unfold nxt. rewrite Hy. done. }
    eapply linked_pointwise; [|eapply (linked_remove _ k1 a e b k2 l2 hd); done].
    intros p. rewrite nxt_insert. cbn. unfold redirect. destruct (decide (p = a)); [done|apply N1].
  - rewrite (ring_link_back _ _ _ _ _ _ _ E3 E4).
    eapply linked_pointwise; [|eapply (linked_remove _ (reverse k2) b e a (reverse k1) (reverse l1) hd); [done|..|done]];
      [|by rewrite elem_of_reverse..].
    intros p. rewrite prv_insert, redirect_same; [unfold c1; rewrite prv_insert; done|].
    unfold prv. rewrite Hw. done.
  - etransitivity; done.
  - eapply only_trans; apply only_insert; done.
Qed.

Lemma LRU_Append_run s hd xs e x : let c := l_cells s in
  ring c hd xs → NoDup (e :: hd :: xs) → 0 ∉ e :: hd :: xs → c !! e = Some x →
  ∃ c', LRU_Append hd e s = Ok (tt, put_cells c' s) ∧ ring c' hd (xs ++ [e]) ∧ lk_eq c c' ∧ only (e :: hd :: xs) c c'.
Proof.
  intros c [Hf Hp] Hn H0 Hx. subst c. apply NoDup_cons in Hn as [Hne Hn].
  destruct (ring_around hd xs []) as (k1 & a & b & k2 & E1 & E2 & E3 & E4). injection E2 as <- <-.
  destruct (around_nodup hd xs [] k1 [] a hd) as (A1 & A2 & _ & B2 & Ain & _); [done|done|by rewrite app_nil_r|].
  rewrite app_nil_r in Ain.
  replace (hd :: xs ++ [hd]) with (k1 ++ a :: hd :: []) in Hf by (rewrite app_comm_cons, E1, <- app_assoc; done).
  replace (hd :: reverse xs ++ [hd]) with ([] ++ hd :: a :: reverse k1) in Hp by (rewrite E4; done).
  pose proof Hf as (_ & Hna & _)%linked_mid. pose proof Hp as (_ & Hph & _)%linked_mid.
  apply nxt_some in Hna as (z & Hz & Hzn). apply prv_some in Hph as (y & Hy & Hyp).
  assert (a ≠ 0 ∧ hd ≠ 0 ∧ e ≠ 0 ∧ e ≠ a ∧ e ≠ hd) as (Ha0 & Hh0 & He0 & Hea & Heh) by (split_and!; intros ->; set_solver).
  set (x2 := x <| lh_next := hd |> <| lh_prev := a |>). set (c2 := <[e := x2]> (l_cells s)).
  set (c3 := <[a := z <| lh_next := e |>]> c2).
  assert (∃ v, c3 !! hd = Some v ∧ unlink v = unlink y ∧ (lh_next v = if decide (hd = a) then e else lh_next y)) as (v & Hv & Hvy & Hvn).
  { unfold c3, c2. destruct (decide (hd = a)) as [<-|Hha].
    - rewrite lookup_insert_eq. rewrite Hy in Hz. injection Hz as <-. eexists. split_and!; done.
    - rewrite !lookup_insert_ne by done. eauto. }
  assert (c2 !! a = Some z) as Hz2 by (unfold c2; rewrite lookup_insert_ne; done).
  assert (lk_eq (l_cells s) c2) as Hk1 by (by eapply lk_eq_set).
  assert (lk_eq c2 c3) as Hk2 by (by eapply lk_eq_set).
  assert (lk_eq c3 (<[hd := v <| lh_prev := e |>]> c3)) as Hk3 by (by eapply lk_eq_set).
  exists (<[hd := v <| lh_prev := e |>]> c3). split; [|split; [split|split]].
  - unfold LRU_Append. eapply bind_run; [apply (store_run e x); done|].
    eapply bind_run; [apply (deref_run hd y); [done|]|].
    { change (<[e := x <| lh_next := hd |>]> (l_cells s) !! hd = Some y). rewrite lookup_insert_ne; done. }
    rewrite Hyp. eapply bind_run; [apply (store_run e (x <| lh_next := hd |>)); [done|]|].
    { change (<[e := x <| lh_next := hd |>]> (l_cells s) !! e = Some (x <| lh_next := hd |>)). rewrite lookup_insert_eq. done. }
    set (s2 := with_cells _ _). assert (s2 = put_cells c2 s) as ->.
    { change (put_cells (<[e := x2]> (<[e := x <| lh_next := hd |>]> (l_cells s))) s = put_cells c2 s).
      unfold c2. rewrite insert_insert_eq. done. }
    assert (c3 !! e = Some x2) as Hx3 by (unfold c3, c2; rewrite lookup_insert_ne, lookup_insert_eq; done).
    eapply bind_run; [apply (deref_run e x2); [done|]|]; [exact (lookup_insert_eq _ _ _)|].
    change (lh_prev x2) with a. eapply bind_run; [apply (store_run a z); done|].
    eapply bind_run; [apply (deref_run e x2); done|]. change (lh_next x2) with hd.
    etransitivity; [apply (store_run hd v); done|]. done.
  - rewrite (ring_forward _ _ e [] k1 a hd []) by done.
    eapply linked_pointwise; [|eapply (linked_insert _ k1 a e hd [] [] hd); [done|done|apply not_elem_of_nil| |apply not_elem_of_nil|done|done]];
      [|intros Hin; apply Hne; rewrite E1; apply elem_of_app; left; done].
    intros p. rewrite nxt_insert. rsimpl. rewrite Hvn. unfold c3, c2, redirect.
    destruct (decide (p = hd)) as [->|Hph].
    + rewrite (decide_False (P := hd = e)) by done. destruct (decide (hd = a)); [done|]. unfold nxt. rewrite Hy. done.
    + rewrite nxt_insert. unfold redirect. cbn. destruct (decide (p = a)) as [->|Hpa]; [rewrite (decide_False (P := a = e)) by done; done|].
      rewrite nxt_insert. unfold redirect. cbn. done.
  - rewrite (ring_backward _ _ e [] k1 a hd []) by done.
    eapply linked_pointwise; [|eapply (linked_insert _ [] hd e a (reverse k1) (reverse xs) hd); [done|apply not_elem_of_nil| |apply not_elem_of_nil| |done|done]].
    + intros p. rewrite prv_insert. unfold redirect. cbn. destruct (decide (p = hd)) as [->|Hphd]; [rewrite (decide_False (P := hd = e)) by done; done|].
      unfold c3, c2. rewrite prv_insert, redirect_same; [rewrite prv_insert; done|]. unfold prv. fold c2. rewrite Hz2. done.
    + rewrite elem_of_reverse. done.
    + rewrite elem_of_reverse. intros Hin. apply Hne. right. done.
  - do 2 (etransitivity; [eassumption|]). done.
  - apply (only_trans _ _ c2); [apply only_insert; left|]. apply (only_trans _ _ c3); apply only_insert; right; [done|left].
Qed.

(** ** Views of the entries

    The fields by what changes them: links of the two lists ([nxt], [prv]), links of
    the table ([nhs]), references ([rc]), and what never changes ([dat_of]). *)

Definition dat (x : LRUHandle) : Z * Z * Z * bytes * Z :=
  (lh_value x, lh_deleter x, lh_charge x, lh_key x, lh_hash x).
Definition dat_of (c : cells) (p : ptr) := dat <$> c !! p.
Definition rc (c : cells) (p : ptr) : option (bool * Z) := (fun x => (lh_in_cache x, lh_refs x)) <$> c !! p.
Definition nhs (c : cells) (p : ptr) : option ptr := lh_next_hash <$> c !! p.

Lemma lk_eq_views c c' p : lk_eq c c' → rc c' p = rc c p ∧ dat_of c' p = dat_of c p ∧ nhs c' p = nhs c p.
Proof.
  intros H. specialize (H p). unfold rc, dat_of, nhs, dat. destruct (c !! p) as [x|], (c' !! p) as [y|]; try done.
  cbn in *. apply (inj Some), unlink_fields in H. destruct H as (-> & -> & -> & -> & -> & -> & -> & ->). done.
Qed.

Lemma nh_eq_views c c' p : nh_eq c c' → rc c' p = rc c p ∧ dat_of c' p = dat_of c p ∧ nxt c' p = nxt c p ∧ prv c' p = prv c p.
Proof.
  intros H. specialize (H p). unfold rc, dat_of, nxt, prv, dat. destruct (c !! p) as [x|], (c' !! p) as [y|]; try done.
  cbn in *. apply (inj Some), strip_fields in H. destruct H as (-> & -> & -> & -> & -> & -> & -> & -> & ->). done.
Qed.

(** A store to [refs] or [in_cache]. *)
Definition rc_set (x : LRUHandle) (b : bool) (r : Z) : LRUHandle := x <| lh_in_cache := b |> <| lh_refs := r |>.

Lemma rc_set_views c e x b r p : c !! e = Some x → let c' := <[e := rc_set x b r]> c in
  nxt c' p = nxt c p ∧ prv c' p = prv c p ∧ dat_of c' p = dat_of c p ∧ nhs c' p = nhs c p ∧
  rc c' p = if decide (p = e) then Some (b, r) else rc c p.
Proof.
  intros Hx c'. unfold c', nxt, prv, dat_of, nhs, rc, rc_set. destruct (decide (p = e)) as [->|Hp].
  - rewrite lookup_insert_eq, Hx. done.
  - rewrite lookup_insert_ne by done. done.
Qed.

(** [free] *)
Lemma delete_views c e p : p ≠ e → nxt (delete e c) p = nxt c p ∧ prv (delete e c) p = prv c p ∧
  dat_of (delete e c) p = dat_of c p ∧ nhs (delete e c) p = nhs c p ∧ rc (delete e c) p = rc c p.
Proof. intros Hp. unfold nxt, prv, dat_of, nhs, rc. rewrite lookup_delete_ne by done. done. Qed.

Lemma ring_ext c c' hd xs : (∀ p, p ∈ hd :: xs → nxt c' p = nxt c p ∧ prv c' p = prv c p) →
  ring c hd xs → ring c' hd xs.
Proof.
  intros He [Hf Hp]. split; rewrite app_comm_cons in *; (eapply linked_ext; [|done]); intros p Hin; apply He;
    [done|]. apply elem_of_cons in Hin as [->|Hin]; [left|right]. by rewrite elem_of_reverse in Hin.
Qed.

Lemma ring_only c c' D hd xs : ring c hd xs → only D c c' → (∀ p, p ∈ hd :: xs → p ∉ D) → ring c' hd xs.
Proof. intros Hr Ho HD. eapply ring_ext; [|done]. intros p Hp. unfold nxt, prv. rewrite Ho by auto. done. Qed.

Lemma ring_next_ne c hd xs p : ring c hd xs → NoDup (hd :: xs) → p ∈ hd :: xs → xs ≠ [] → nxt c p ≠ Some p.
Proof.
  intros [Hf _] Hn Hp Hx. rewrite app_comm_cons in Hf. apply list_elem_of_split in Hp as (l1 & l2 & E).
  rewrite E, <- app_assoc in Hf. intros Hpp. destruct l2 as [|b l2].
  - apply linked_mid in Hf as (_ & Hf & _). rewrite Hpp in Hf. injection Hf as ->.
    destruct l1 as [|a l1]; [by injection E as ->|]. injection E as -> ->.
    apply NoDup_cons in Hn as [Hn _]. set_solver.
  - apply linked_mid in Hf as (_ & Hf & _). rewrite Hpp in Hf. injection Hf as ->.
    rewrite E in Hn. apply NoDup_app in Hn as (_ & _ & Hn). apply NoDup_cons in Hn as [Hn _]. set_solver.
Qed.

(** ** Representation *)

Record abs := MkAbs {
  a_lru : list ptr;          (* oldest first *)
  a_use : list ptr;
  a_det : list ptr;          (* erased, but held by clients *)
  a_cli : gmultiset ptr;     (* the handles of clients *)
}.

Definition mult (p : ptr) (a : abs) : Z := Z.of_nat (multiplicity p (a_cli a)).

Definition nodes (sh : LRUCache) (a : abs) : list ptr := lru_ sh :: in_use_ sh :: a_lru a ++ a_use a ++ a_det a.

Definition charge_of (c : cells) (p : ptr) : Z := match c !! p with Some x => lh_charge x | None => 0 end.
Fixpoint total (c : cells) (ps : list ptr) : Z :=
  match ps with [] => 0 | p :: ps' => charge_of c p + total c ps' end.

(** The lists, the reference counts and the charge. *)
Record core (c : cells) (sh : LRUCache) (a : abs) : Prop := {
  co_nodup : NoDup (nodes sh a);
  co_nz : 0 ∉ nodes sh a;
  co_lru : ring c (lru_ sh) (a_lru a);
  co_use : ring c (in_use_ sh) (a_use a);
  co_in : ∀ p, p ∈ a_lru a ++ a_use a → rc c p = Some (true, 1 + mult p a);
  co_det : ∀ p, p ∈ a_det a → rc c p = Some (false, mult p a) ∧ nxt c p ≠ Some p;
  co_cli : ∀ p, p ∈ a_cli a ↔ p ∈ a_use a ++ a_det a;
  co_usage : usage_ sh = u64 (total c (a_lru a ++ a_use a));
  co_bound : Z.of_nat (size (a_cli a)) < 2 ^ 32 - 1;
}.

(** The table holds the entries [ps]. *)
Definition tbl (c : cells) (sh : LRUCache) (ps : list ptr) : Prop :=
  ∃ bk, trep c (table_ sh) bk ∧ concat bk ≡ₚ ps.

Definition rep (c : cells) (sh : LRUCache) (a : abs) : Prop :=
  core c sh a ∧ tbl c sh (a_lru a ++ a_use a).

Lemma dat_some c c' p x : dat_of c' p = dat_of c p → c !! p = Some x → ∃ y, c' !! p = Some y ∧ dat y = dat x.
Proof.
  unfold dat_of. intros H Hx. rewrite Hx in H. destruct (c' !! p) as [y|]; [|done].
  cbn in H. apply (inj Some) in H. eauto.
Qed.

Lemma total_ext c c' ps : (∀ p, p ∈ ps → dat_of c' p = dat_of c p) → total c' ps = total c ps.
Proof.
  induction ps as [|p ps IH]; [done|]. intros H. cbn. rewrite IH by (intros; apply H; right; done). f_equal.
  specialize (H p ltac:(left)). unfold charge_of, dat_of, dat in *. destruct (c !! p), (c' !! p); naive_solver.
Qed.

Lemma total_perm c ps qs : ps ≡ₚ qs → total c ps = total c qs.
Proof. induction 1; cbn; lia. Qed.

Lemma total_app c ps qs : total c (ps ++ qs) = total c ps + total c qs.
Proof. induction ps; cbn; lia. Qed.

(** A table only depends on keys, hashes and its own links. *)
Lemma tbl_ext c c' sh sh' ps : table_ sh' = table_ sh → tbl c sh ps →
  (∀ p, p ∈ ps → dat_of c' p = dat_of c p ∧ nhs c' p = nhs c p ∧ nxt c' p ≠ Some p) → tbl c' sh' ps.
Proof.
  intros Es (bk & Ht & Hp) He. exists bk. split; [|done]. rewrite Es.
  assert (∀ p x, p ∈ concat bk → c !! p = Some x → ∃ y, c' !! p = Some y ∧ lh_next y ≠ p ∧
    lh_hash y = lh_hash x ∧ lh_key y = lh_key x ∧ lh_next_hash y = lh_next_hash x) as Hx.
  { intros p x Hin Hx. rewrite Hp in Hin. destruct (He p Hin) as (H1 & H2 & H3).
    destruct (dat_some _ _ _ _ H1 Hx) as (y & Hy & Hd). exists y. unfold nhs, nxt, dat in *.
    rewrite Hx, Hy in H2. rewrite Hy in H3. cbn in *. naive_solver. }
  assert (∀ p l q, (∀ a, a ∈ l → a ∈ concat bk) → lseg c p l q → lseg c' p l q) as Hseg.
  { intros p l q. revert p. induction l as [|a l IH]; intros p Hl; [done|]. intros (-> & Ha & x & Hax & Hs).
    destruct (Hx a x ltac:(set_solver) Hax) as (y & Hy & _ & _ & _ & En).
    repeat split; [done|]. exists y. rewrite En. split; [done|]. apply IH; [set_solver|done]. }
  pose proof (tr_b _ _ _ Ht) as Hb. split; [split|apply Ht|apply Ht|].
  - apply Hb.
  - apply Hb.
  - pose proof (br_chains _ _ _ _ Hb) as Hch. apply Forall2_same_length_lookup in Hch as [Hlen Hch].
    apply Forall2_same_length_lookup. split; [done|]. intros i p l Hpi Hl. apply Hseg; [|by eapply Hch].
    intros a Ha. eapply elem_of_bucket; done.
  - intros i l p Hl Hpl. destruct (br_place _ _ _ _ Hb i l p Hl Hpl) as (x & Hxp & _ & Hi).
    destruct (Hx p x) as (y & Hy & Hn & Hh & _); [by eapply elem_of_bucket|done|]. exists y. rewrite Hh. done.
  - apply Hb.
  - intros p q y z Hpi Hqi Hy Hz. pose proof (brep_readable_all _ _ _ _ Hb) as Hr.
    destruct (Hr p Hpi) as (y0 & Hy0 & _), (Hr q Hqi) as (z0 & Hz0 & _).
    destruct (Hx p y0 Hpi Hy0) as (? & ? & _ & ? & ? & _), (Hx q z0 Hqi Hz0) as (? & ? & _ & ? & ? & _). simplify_eq.
    intros. eapply (tr_keys _ _ _ Ht p q y0 z0); congruence.
Qed.

End LruCache.
