(* ===== verification/LruInv.v ===== *)
(** * Reference counts and lists of the LRU cache

    What [Ref], [Unref] and [FinishErase] of cache.cc do to a represented shard, as
    functions on the lists of entries and the multiset of clients' handles. *)

From S2P Require Import Prelude LruTable LruCache.
From stdpp Require Import base gmap gmultiset list strings.
From Stdlib Require Import ZArith Lia.
Import LruTable LruCache.

Open Scope Z_scope.

Module LruInv.

(** ** The operations on the lists of entries *)

Definition without (p : ptr) (l : list ptr) : list ptr := filter (fun q => q ≠ p) l.

Definition abs_ref (p : ptr) (a : abs) : abs :=
  MkAbs (without p (a_lru a)) (if decide (p ∈ a_lru a) then a_use a ++ [p] else a_use a) (a_det a)
    ({[+ p +]} ⊎ a_cli a).

Definition abs_release (p : ptr) (a : abs) : abs :=
  let cli := a_cli a ∖ {[+ p +]} in
  if decide (p ∈ cli) then MkAbs (a_lru a) (a_use a) (a_det a) cli
  else if decide (p ∈ a_use a) then MkAbs (a_lru a ++ [p]) (without p (a_use a)) (a_det a) cli
  else MkAbs (a_lru a) (a_use a) (without p (a_det a)) cli.

(** The entry is taken out of the table; it lives on while clients hold it. *)
Definition abs_erase (p : ptr) (a : abs) : abs :=
  MkAbs (without p (a_lru a)) (without p (a_use a)) (if decide (p ∈ a_use a) then a_det a ++ [p] else a_det a) (a_cli a).

(** A new entry, held by the client that inserts it. *)
Definition abs_new (p : ptr) (a : abs) : abs :=
  MkAbs (a_lru a) (a_use a ++ [p]) (a_det a) ({[+ p +]} ⊎ a_cli a).

Lemma without_notin p l : p ∉ l → without p l = l.
Proof.
  unfold without. induction l as [|q l IH]; [done|]. intros Hp. rewrite filter_cons_True by set_solver.
  rewrite IH by set_solver. done.
Qed.

Lemma without_split p l1 l2 : NoDup (l1 ++ p :: l2) → without p (l1 ++ p :: l2) = l1 ++ l2.
Proof.
  intros Hn. unfold without. rewrite filter_app, filter_cons_False by (intros H; by apply H).
  apply NoDup_app in Hn as (_ & Hd & Hn). apply NoDup_cons in Hn as [Hn _]. f_equal; apply without_notin.
  - intros Hin. apply (Hd p Hin). left.
  - done.
Qed.

Lemma elem_of_without p q l : q ∈ without p l ↔ q ≠ p ∧ q ∈ l.
Proof. unfold without. rewrite list_elem_of_filter. done. Qed.

Lemma mult_pos p a : p ∈ a_cli a ↔ 1 ≤ mult p a.
Proof. rewrite elem_of_multiplicity. unfold mult. lia. Qed.

Lemma mult_zero p a : p ∉ a_cli a → mult p a = 0.
Proof. rewrite mult_pos. unfold mult. lia. Qed.

Lemma mult_size p a : mult p a ≤ Z.of_nat (size (a_cli a)).
Proof.
  unfold mult. apply Nat2Z.inj_le. induction (a_cli a) as [|q X IH] using gmultiset_ind.
  - rewrite multiplicity_empty. lia.
  - rewrite multiplicity_disj_union, multiplicity_singleton, gmultiset_size_disj_union, gmultiset_size_singleton.
    destruct (decide (p = q)); lia.
Qed.

Lemma nodup_sub (l k : list ptr) : NoDup k → l ⊆+ k → NoDup l.
Proof. intros Hk (r & Hr)%submseteq_Permutation. rewrite Hr in Hk. apply NoDup_app in Hk as [? _]. done. Qed.

Lemma ring_live c hd xs p : ring c hd xs → p ∈ hd :: xs → is_Some (c !! p).
Proof.
  intros [Hf _] Hp. rewrite app_comm_cons in Hf. apply list_elem_of_split in Hp as (l1 & l2 & E).
  rewrite E, <- app_assoc in Hf. destruct l2; apply linked_mid in Hf as (_ & Hf & _);
    apply nxt_some in Hf as (x & Hx & _); eauto.
Qed.

(** An entry moves from one list to the end of the other. *)
Lemma move_ring s hA hB l1 e l2 ys : let c := l_cells s in
  NoDup (hA :: hB :: (l1 ++ e :: l2) ++ ys) → 0 ∉ hA :: hB :: (l1 ++ e :: l2) ++ ys →
  ring c hA (l1 ++ e :: l2) → ring c hB ys →
  ∃ c1 c', LRU_Remove e s = Ok (tt, put_cells c1 s) ∧ LRU_Append hB e (put_cells c1 s) = Ok (tt, put_cells c' s) ∧
    ring c' hA (l1 ++ l2) ∧ ring c' hB (ys ++ [e]) ∧ lk_eq c c' ∧ only (hA :: hB :: (l1 ++ e :: l2) ++ ys) c c'.
Proof.
  intros c Hn H0 HA HB. subst c.
  assert (NoDup ((hA :: l1 ++ l2) ++ e :: hB :: ys)) as Hn2 by (eapply nodup_sub; [exact Hn|solve_submseteq]).
  destruct (LRU_Remove_run s hA l1 e l2) as (c1 & R1 & HA1 & K1 & O1); [done| |set_solver|].
  { eapply nodup_sub; [exact Hn|solve_submseteq]. }
  apply NoDup_app in Hn2 as (_ & Hdis & Hn2).
  assert (ring c1 hB ys) as HB1 by (eapply ring_only; [done|exact O1|]; intros p Hp Hin; apply (Hdis p Hin); right; done).
  assert (is_Some (c1 !! e)) as [x Hx].
  { rewrite O1; [apply (ring_live _ _ _ e HA); set_solver|]. intros Hin. apply (Hdis e Hin). left. }
  destruct (LRU_Append_run (put_cells c1 s) hB ys e x) as (c' & R2 & HB2 & K2 & O2); [done|done|set_solver|done|].
  exists c1, c'. split_and!; [done|exact R2| |done|etransitivity; [exact K1|exact K2]|].
  - eapply ring_only; [done|exact O2|]. intros p Hp Hin. apply (Hdis p Hp Hin).
  - eapply only_trans; eapply only_weaken; [exact O1|set_solver|exact O2|set_solver].
Qed.

Lemma tbl_perm c sh ps qs : tbl c sh ps → ps ≡ₚ qs → tbl c sh qs.
Proof. intros (bk & Ht & Hp) Hq. exists bk. split; [done|]. rewrite Hp. done. Qed.

Lemma core_next c sh a p : core c sh a → p ∈ a_lru a ++ a_use a → nxt c p ≠ Some p.
Proof.
  intros Hc Hp. pose proof (co_nodup _ _ _ Hc) as Hn. unfold nodes in Hn.
  apply elem_of_app in Hp as [Hp|Hp].
  - apply (ring_next_ne _ (lru_ sh) (a_lru a)); [apply Hc| |set_solver|intros E; rewrite E in Hp; set_solver].
    eapply nodup_sub; [exact Hn|solve_submseteq].
  - apply (ring_next_ne _ (in_use_ sh) (a_use a)); [apply Hc| |set_solver|intros E; rewrite E in Hp; set_solver].
    eapply nodup_sub; [exact Hn|solve_submseteq].
Qed.

(** The table survives a change of the lists. *)
Lemma rep_intro c c' sh sh' a' ps : core c' sh' a' → tbl c sh ps → table_ sh' = table_ sh →
  ps ≡ₚ a_lru a' ++ a_use a' → (∀ p, p ∈ ps → dat_of c' p = dat_of c p ∧ nhs c' p = nhs c p) → rep c' sh' a'.
Proof.
  intros Hc Ht Es Hp He. split; [done|]. eapply tbl_perm; [|exact Hp]. eapply tbl_ext; [done|done|].
  intros p Hin. destruct (He p Hin). split_and!; [done|done|]. eapply core_next; [done|]. rewrite <- Hp. done.
Qed.

Lemma mult_cons p q a l u d : mult q (MkAbs l u d ({[+ p +]} ⊎ a_cli a)) = (if decide (q = p) then 1 else 0) + mult q a.
Proof. unfold mult. cbn [a_cli]. rewrite multiplicity_disj_union, multiplicity_singleton. destruct (decide (q = p)); lia. Qed.

Lemma det_outside c sh a q : core c sh a → q ∈ a_det a → q ∉ lru_ sh :: in_use_ sh :: a_lru a ++ a_use a.
Proof.
  intros Hc Hq Hin. pose proof (co_nodup _ _ _ Hc) as Hn. unfold nodes in Hn.
  assert (NoDup (a_det a ++ lru_ sh :: in_use_ sh :: a_lru a ++ a_use a)) as Hn3
    by (eapply nodup_sub; [exact Hn|solve_submseteq]).
  apply NoDup_app in Hn3 as (_ & Hd & _). apply (Hd q Hq Hin).
Qed.

(** The entry is not held by a client exactly when it is in the lru list. *)
Lemma lru_unheld c sh a p : core c sh a → p ∈ a_lru a → p ∉ a_cli a ∧ p ∉ a_use a ∧ p ∉ a_det a.
Proof.
  intros Hc Hp. pose proof (co_nodup _ _ _ Hc) as Hn. unfold nodes in Hn.
  assert (NoDup (a_lru a ++ a_use a ++ a_det a)) as Hn2 by (eapply nodup_sub; [exact Hn|solve_submseteq]).
  apply NoDup_app in Hn2 as (_ & Hd & _). specialize (Hd p Hp). rewrite (co_cli _ _ _ Hc). set_solver.
Qed.

Lemma rc_some c p b r : rc c p = Some (b, r) → ∃ x, c !! p = Some x ∧ lh_in_cache x = b ∧ lh_refs x = r.
Proof. unfold rc. destruct (c !! p) as [x|]; [|done]. intros [= <- <-]. eauto. Qed.

Lemma nodes_nz c sh a p : core c sh a → p ∈ nodes sh a → p ≠ 0.
Proof. intros Hc Hp ->. apply (co_nz _ _ _ Hc). done. Qed.

Lemma rc_refs x b r : lh_in_cache x = b → x <| lh_refs := r |> = rc_set x b r.
Proof. intros <-. done. Qed.

Lemma rc_in x b r : lh_refs x = r → x <| lh_in_cache := b |> = rc_set x b r.
Proof. intros <-. done. Qed.

(** An entry of the lru list is moved to the other list. *)
Lemma Ref_lru_run s a l1 p l2 : rep (l_cells s) (l_sh s) a → a_lru a = l1 ++ p :: l2 →
  Z.of_nat (size (a_cli a)) < 2 ^ 32 - 2 →
  ∃ c', Ref p s = Ok (tt, put_cells c' s) ∧ rep c' (l_sh s) (abs_ref p a) ∧
    only (nodes (l_sh s) a) (l_cells s) c' ∧ ∀ q, dat_of c' q = dat_of (l_cells s) q.
Proof.
  intros [Hc Ht] El H32. set (c := l_cells s) in *. set (sh := l_sh s) in *.
  assert (p ∈ a_lru a) as Hp by (rewrite El; set_solver).
  destruct (lru_unheld _ _ _ _ Hc Hp) as (Hpc & Hpu & Hpd). pose proof (co_nodup _ _ _ Hc) as Hn. unfold nodes in Hn.
  assert (NoDup (a_lru a)) as Hnl by (eapply nodup_sub; [exact Hn|solve_submseteq]).
  assert (abs_ref p a = MkAbs (l1 ++ l2) (a_use a ++ [p]) (a_det a) ({[+ p +]} ⊎ a_cli a)) as Ea.
  { unfold abs_ref. rewrite decide_True by done. rewrite El in *. rewrite without_split by done. done. }
  destruct (rc_some _ _ _ _ (co_in _ _ _ Hc p ltac:(set_solver))) as (x & Hx & Hxi & Hxr).
  rewrite (mult_zero p a Hpc), Z.add_0_r in Hxr.
  assert (p ≠ 0) as Hp0 by (eapply nodes_nz; [done|]; unfold nodes; set_solver).
  destruct (move_ring s (lru_ sh) (in_use_ sh) l1 p l2 (a_use a)) as (c1 & c2 & R1 & R2 & HA & HB & HK & HO).
  { rewrite <- El. eapply nodup_sub; [exact Hn|solve_submseteq]. }
  { rewrite <- El. pose proof (co_nz _ _ _ Hc) as H0. unfold nodes in H0. set_solver. }
  { rewrite <- El. apply Hc. }
  { apply Hc. }
  rewrite <- El in HO. destruct (lk_eq_some _ _ _ _ HK Hx) as (y & Hy & Ey%unlink_fields).
  destruct Ey as (_ & _ & _ & _ & _ & Hyi & Hyr & _). rewrite Hxi in Hyi. rewrite Hxr in Hyr.
  set (c3 := <[p := rc_set y true 2]> c2).
  pose proof (fun q => rc_set_views c2 p y true 2 q Hy) as Hv. fold c3 in Hv.
  pose proof (fun q => lk_eq_views c c2 q HK) as Hw.
  exists c3. rewrite Ea. split_and!.
  - unfold Ref. eapply bind_run; [apply (deref_run p x); done|].
    rewrite Hxi, Hxr. cbn [andb Z.eqb Pos.eqb]. eapply bind_run.
    { eapply bind_run; [exact R1|]. eapply bind_run; [apply gets_run|]. exact R2. }
    etransitivity; [apply (store_run p y); done|]. cbv beta. rewrite Hyr, (rc_refs y true) by done. done.
  - eapply (rep_intro c c3 sh sh); [|exact Ht|done| |].
    + split; cbn [a_lru a_use a_det a_cli].
      * eapply nodup_sub; [exact Hn|]. unfold nodes. cbn. rewrite El. solve_submseteq.
      * pose proof (co_nz _ _ _ Hc) as H0. unfold nodes in *. cbn. rewrite El in H0. set_solver.
      * eapply ring_ext; [|exact HA]. intros q _. destruct (Hv q) as (-> & -> & _). done.
      * eapply ring_ext; [|exact HB]. intros q _. destruct (Hv q) as (-> & -> & _). done.
      * intros q Hq. destruct (Hv q) as (_ & _ & _ & _ & ->). rewrite mult_cons.
        destruct (decide (q = p)) as [->|Hqp]; [rewrite (mult_zero p a Hpc); done|].
        destruct (Hw q) as (-> & _). rewrite (co_in _ _ _ Hc); [done|]. rewrite El. set_solver.
      * intros q Hq. assert (q ≠ p) as Hqp by (intros ->; done). destruct (Hv q) as (-> & _ & _ & _ & ->).
        rewrite mult_cons, !decide_False by done. destruct (Hw q) as (-> & _).
        rewrite (proj1 (co_det _ _ _ Hc q Hq)). split; [done|]. unfold nxt. rewrite HO; [apply (co_det _ _ _ Hc q Hq)|].
        by eapply det_outside.
      * intros q. rewrite gmultiset_elem_of_disj_union, gmultiset_elem_of_singleton, (co_cli _ _ _ Hc). set_solver.
      * rewrite (co_usage _ _ _ Hc). f_equal. rewrite (total_ext c c3) by (intros q _; destruct (Hv q) as (_ & _ & -> & _); apply Hw).
        apply total_perm. rewrite El. solve_Permutation.
      * rewrite gmultiset_size_disj_union, gmultiset_size_singleton. lia.
    + cbn. rewrite El. solve_Permutation.
    + intros q _. destruct (Hv q) as (_ & _ & -> & -> & _). split; apply Hw.
  - eapply only_trans; [eapply only_weaken; [exact HO|]|apply only_insert]; unfold nodes; set_solver.
  - intros q. destruct (Hv q) as (_ & _ & -> & _). apply Hw.
Qed.

(** A held entry gets or loses a reference and stays where it is. *)
Lemma rep_rc c sh a p x b r cli : rep c sh a → c !! p = Some x → p ∈ a_use a ++ a_det a → p ∈ cli →
  lh_in_cache x = b → r = (if b then 1 else 0) + Z.of_nat (multiplicity p cli) →
  (∀ q, q ≠ p → multiplicity q cli = multiplicity q (a_cli a)) → Z.of_nat (size cli) < 2 ^ 32 - 1 →
  rep (<[p := rc_set x b r]> c) sh (MkAbs (a_lru a) (a_use a) (a_det a) cli).
Proof.
  intros [Hc Ht] Hx Hp Hpc Hb Hr Hcli H32. pose proof (fun q => rc_set_views c p x b r q Hx) as Hv.
  assert (∀ q, q ≠ p → mult q (MkAbs (a_lru a) (a_use a) (a_det a) cli) = mult q a) as Hm
    by (intros q Hq; unfold mult; cbn [a_cli]; rewrite Hcli; done).
  eapply (rep_intro c _ sh sh); [|exact Ht|done|done|].
  - split; cbn [a_lru a_use a_det a_cli]; [apply Hc|apply Hc|..].
    + eapply ring_ext; [|apply Hc]. intros q _. destruct (Hv q) as (-> & -> & _). done.
    + eapply ring_ext; [|apply Hc]. intros q _. destruct (Hv q) as (-> & -> & _). done.
    + intros q Hq. destruct (Hv q) as (_ & _ & _ & _ & ->). pose proof (co_in _ _ _ Hc q Hq) as Hi.
      destruct (decide (q = p)) as [->|Hqp]; [|rewrite Hm; done]. unfold rc in Hi. rewrite Hx in Hi. cbn in Hi.
      injection Hi as Hi _. rewrite Hi in Hb. subst b. rewrite Hr. done.
    + intros q Hq. destruct (Hv q) as (-> & _ & _ & _ & ->). destruct (co_det _ _ _ Hc q Hq) as [Hi Hn].
      destruct (decide (q = p)) as [->|Hqp]; [|rewrite Hm; done]. unfold rc in Hi. rewrite Hx in Hi. cbn in Hi.
      injection Hi as Hi _. rewrite Hi in Hb. subst b. rewrite Hr. done.
    + intros q. destruct (decide (q = p)) as [->|Hqp]; [done|]. rewrite <- (co_cli _ _ _ Hc q).
      rewrite !elem_of_multiplicity, Hcli by done. done.
    + rewrite (co_usage _ _ _ Hc). f_equal. symmetry. apply total_ext. intros q _. apply Hv.
    + done.
  - intros q _. destruct (Hv q) as (_ & _ & -> & -> & _). done.
Qed.

Lemma Ref_use_run s a p : rep (l_cells s) (l_sh s) a → p ∈ a_use a → Z.of_nat (size (a_cli a)) < 2 ^ 32 - 2 →
  ∃ c', Ref p s = Ok (tt, put_cells c' s) ∧ rep c' (l_sh s) (abs_ref p a) ∧
    only (nodes (l_sh s) a) (l_cells s) c' ∧ ∀ q, dat_of c' q = dat_of (l_cells s) q.
Proof.
  intros Hrep Hp H32. destruct Hrep as [Hc Ht]. assert (p ∈ a_cli a) as Hpc by (apply Hc; set_solver).
  assert (p ∉ a_lru a) as Hpl by (intros Hl; apply (lru_unheld _ _ _ _ Hc) in Hl as [? _]; done).
  destruct (rc_some _ _ _ _ (co_in _ _ _ Hc p ltac:(set_solver))) as (x & Hx & Hxi & Hxr).
  pose proof (mult_size p a). apply mult_pos in Hpc.
  assert (p ≠ 0) as Hp0 by (eapply nodes_nz; [done|]; unfold nodes; set_solver).
  exists (<[p := rc_set x true (2 + mult p a)]> (l_cells s)). split_and!.
  - unfold Ref. eapply bind_run; [apply (deref_run p x); done|].
    rewrite Hxi, Hxr, (proj2 (Z.eqb_neq _ _)) by lia. cbn [andb]. eapply bind_run; [apply ret_run|].
    etransitivity; [apply (store_run p x); done|]. cbv beta. rewrite Hxr, (rc_refs x true), u32_small by (done || lia).
    replace (1 + mult p a + 1) with (2 + mult p a) by lia. done.
  - unfold abs_ref. rewrite without_notin, decide_False by done. apply rep_rc; [done|done|set_solver|multiset_solver|done| | |].
    + rewrite multiplicity_disj_union, multiplicity_singleton_eq. unfold mult. lia.
    + intros q Hq. rewrite multiplicity_disj_union, multiplicity_singleton_ne by done. done.
    + rewrite gmultiset_size_disj_union, gmultiset_size_singleton. lia.
  - apply only_insert. unfold nodes. set_solver.
  - intros q. apply rc_set_views. done.
Qed.

(** [Ref] on an entry of the table. *)
Lemma Ref_run s a p : rep (l_cells s) (l_sh s) a → p ∈ a_lru a ++ a_use a → Z.of_nat (size (a_cli a)) < 2 ^ 32 - 2 →
  ∃ c', Ref p s = Ok (tt, put_cells c' s) ∧ rep c' (l_sh s) (abs_ref p a) ∧
    only (nodes (l_sh s) a) (l_cells s) c' ∧ ∀ q, dat_of c' q = dat_of (l_cells s) q.
Proof.
  intros Hrep Hp H32. apply elem_of_app in Hp as [Hp|Hp]; [|apply Ref_use_run; done].
  apply list_elem_of_split in Hp as (l1 & l2 & El). eapply Ref_lru_run; done.
Qed.

(** ** Dropping a reference *)

(** The state with other entries and other calls of deleters. *)
Definition put_mem (c : cells) (d : list (Z * bytes * Z)) (s : lst) : lst :=
  s <| l_heap := MkHeap c (hp_next (l_heap s)) d |>.

(** The call of the deleter when [p] is freed. *)
Definition del_of (c : cells) (p : ptr) : list (Z * bytes * Z) :=
  match c !! p with Some x => [(lh_deleter x, lh_key x, lh_value x)] | None => [] end.

Lemma Unref_dec_run s p x b r : p ≠ 0 → l_cells s !! p = Some x → lh_in_cache x = b → lh_refs x = r → 1 < r < 2 ^ 32 →
  b && (r - 1 =? 1) = false → Unref p s = Ok (tt, put_cells (<[p := rc_set x b (r - 1)]> (l_cells s)) s).
Proof.
  intros Hp Hx Hb Hr Hr1 Hbr. unfold Unref. eapply bind_run; [apply (deref_run p x); done|].
  eapply bind_run; [apply assert_run; apply Z.ltb_lt; lia|].
  eapply bind_run; [apply (store_run p x); done|]. cbv beta. rewrite Hr, u32_small, (rc_refs x b) by (done || lia).
  eapply bind_run; [apply (deref_run p (rc_set x b (r - 1))); [done|exact (lookup_insert_eq _ _ _)]|].
  change (lh_refs (rc_set x b (r - 1))) with (r - 1). change (lh_in_cache (rc_set x b (r - 1))) with b.
  rewrite (proj2 (Z.eqb_neq _ _)), Hbr by lia. done.
Qed.

Lemma Unref_free_run s p x : p ≠ 0 → l_cells s !! p = Some x → lh_in_cache x = false → lh_refs x = 1 → lh_next x ≠ p →
  Unref p s = Ok (tt, put_mem (delete p (l_cells s)) (hp_dels (l_heap s) ++ del_of (l_cells s) p) s).
Proof.
  intros Hp Hx Hb Hr Hn. unfold Unref. eapply bind_run; [apply (deref_run p x); done|].
  rewrite Hr. eapply bind_run; [apply assert_run; done|].
  eapply bind_run; [apply (store_run p x); done|]. cbv beta. rewrite Hr, (rc_refs x false) by done.
  change (u32 (1 - 1)) with 0. set (y := rc_set x false 0). set (s1 := with_cells _ s).
  assert (the_cells s1 !! p = Some y) as Hy by exact (lookup_insert_eq _ _ _).
  eapply bind_run; [apply (deref_run p y); done|]. change (lh_refs y =? 0) with true. cbv iota.
  eapply bind_run; [apply assert_run; done|]. eapply bind_run; [apply (handle_key_run p y); done|].
  eapply bind_run; [apply modify_run|]. unfold free. eapply bind_run; [apply (deref_run p y); done|].
  unfold modify. do 2 f_equal. unfold del_of. rewrite Hx.
  change (put_mem (delete p (<[p := y]> (l_cells s))) (hp_dels (l_heap s) ++ [(lh_deleter x, lh_key x, lh_value x)]) s =
          put_mem (delete p (l_cells s)) (hp_dels (l_heap s) ++ [(lh_deleter x, lh_key x, lh_value x)]) s).
  rewrite delete_insert_eq. done.
Qed.

Lemma Unref_lru_run s p x hd l1 l2 ys : l_cells s !! p = Some x → lh_in_cache x = true → lh_refs x = 2 →
  NoDup (hd :: lru_ (l_sh s) :: (l1 ++ p :: l2) ++ ys) → 0 ∉ hd :: lru_ (l_sh s) :: (l1 ++ p :: l2) ++ ys →
  ring (l_cells s) hd (l1 ++ p :: l2) → ring (l_cells s) (lru_ (l_sh s)) ys →
  ∃ c', Unref p s = Ok (tt, put_cells c' s) ∧ ring c' hd (l1 ++ l2) ∧ ring c' (lru_ (l_sh s)) (ys ++ [p]) ∧
    lk_eq (<[p := rc_set x true 1]> (l_cells s)) c' ∧
    only (hd :: lru_ (l_sh s) :: (l1 ++ p :: l2) ++ ys) (l_cells s) c'.
Proof.
  intros Hx Hb Hr Hn H0 HA HB. set (c1 := <[p := rc_set x true 1]> (l_cells s)).
  pose proof (fun q => rc_set_views (l_cells s) p x true 1 q Hx) as Hv.
  destruct (move_ring (put_cells c1 s) hd (lru_ (l_sh s)) l1 p l2 ys) as (c2 & c3 & R1 & R2 & HA' & HB' & HK & HO);
    [done|done| | |].
  { eapply ring_ext; [|exact HA]. intros q _. destruct (Hv q) as (? & ? & _). done. }
  { eapply ring_ext; [|exact HB]. intros q _. destruct (Hv q) as (? & ? & _). done. }
  exists c3. split_and!; [|done|done|done|].
  - assert (p ≠ 0) as Hp by (intros ->; set_solver). unfold Unref. eapply bind_run; [apply (deref_run p x); done|].
    rewrite Hr. eapply bind_run; [apply assert_run; done|].
    eapply bind_run; [apply (store_run p x); done|]. cbv beta. rewrite Hr, (rc_refs x true) by done.
    change (u32 (2 - 1)) with 1. eapply bind_run; [apply (deref_run p (rc_set x true 1)); [done|exact (lookup_insert_eq _ _ _)]|].
    cbn [lh_refs lh_in_cache rc_set]. eapply bind_run; [exact R1|]. eapply bind_run; [apply gets_run|]. exact R2.
  - eapply only_trans; [|exact HO]. apply only_insert. set_solver.
Qed.

Lemma mult_minus p q a l u d : p ∈ a_cli a →
  mult q (MkAbs l u d (a_cli a ∖ {[+ p +]})) = mult q a - (if decide (q = p) then 1 else 0).
Proof.
  intros Hp. rewrite elem_of_multiplicity in Hp. unfold mult. cbn [a_cli].
  rewrite multiplicity_difference, multiplicity_singleton. destruct (decide (q = p)) as [->|]; lia.
Qed.

Lemma size_minus p a : p ∈ a_cli a → (size (a_cli a ∖ {[+ p +]}) < size (a_cli a))%nat.
Proof.
  intros Hp. rewrite (gmultiset_disj_union_difference' p (a_cli a) Hp) at 2.
  rewrite gmultiset_size_disj_union, gmultiset_size_singleton. lia.
Qed.

Lemma cli_minus p a q : p ∈ a_cli a → q ∈ a_cli a ∖ {[+ p +]} ↔ q ∈ a_cli a ∧ (q ≠ p ∨ 2 ≤ mult p a).
Proof.
  rewrite !elem_of_multiplicity. intros Hp. unfold mult. rewrite multiplicity_difference, multiplicity_singleton.
  destruct (decide (q = p)) as [->|]; intuition lia.
Qed.

(** The last client of an entry of the table releases it: it becomes the newest of the lru list. *)
Lemma Release_last_run s a l1 p l2 : rep (l_cells s) (l_sh s) a → a_use a = l1 ++ p :: l2 → mult p a = 1 →
  ∃ c', Unref p s = Ok (tt, put_cells c' s) ∧
    rep c' (l_sh s) (MkAbs (a_lru a ++ [p]) (l1 ++ l2) (a_det a) (a_cli a ∖ {[+ p +]})) ∧
    only (nodes (l_sh s) a) (l_cells s) c' ∧ ∀ q, dat_of c' q = dat_of (l_cells s) q.
Proof.
  intros [Hc Ht] El Hm. set (c := l_cells s) in *. set (sh := l_sh s) in *.
  assert (p ∈ a_use a) as Hp by (rewrite El; set_solver). assert (p ∈ a_cli a) as Hpc by (apply Hc; set_solver).
  pose proof (co_nodup _ _ _ Hc) as Hn. unfold nodes in Hn. pose proof (co_nz _ _ _ Hc) as H0. unfold nodes in H0.
  destruct (rc_some _ _ _ _ (co_in _ _ _ Hc p ltac:(set_solver))) as (x & Hx & Hxi & Hxr). rewrite Hm in Hxr.
  destruct (Unref_lru_run s p x (in_use_ sh) l1 l2 (a_lru a)) as (c3 & R & HB & HA & HK & HO); try done.
  { rewrite <- El. fold sh. eapply nodup_sub; [exact Hn|solve_submseteq]. }
  { rewrite <- El. fold sh. set_solver. }
  { rewrite <- El. apply Hc. }
  { apply Hc. }
  rewrite <- El in HO. fold sh c in HK, HO, HA.
  pose proof (fun q => rc_set_views c p x true 1 q Hx) as Hv. pose proof (fun q => lk_eq_views _ c3 q HK) as Hw.
  assert (∀ q, dat_of c3 q = dat_of c q ∧ nhs c3 q = nhs c q) as Hd.
  { intros q. destruct (Hw q) as (_ & -> & ->). destruct (Hv q) as (_ & _ & -> & -> & _). done. }
  exists c3. split_and!; [done| | |apply Hd].
  - eapply (rep_intro c c3 sh sh); [|exact Ht|done| |by intros q _; apply Hd].
    + split; cbn [a_lru a_use a_det a_cli]; [| |done|done|..].
      * eapply nodup_sub; [exact Hn|]. unfold nodes. cbn. rewrite El. solve_submseteq.
      * unfold nodes in *. cbn. rewrite El in H0. set_solver.
      * intros q Hq. destruct (Hw q) as (-> & _). destruct (Hv q) as (_ & _ & _ & _ & ->). rewrite mult_minus by done.
        destruct (decide (q = p)) as [->|Hqp]; [rewrite Hm; done|]. rewrite Z.sub_0_r.
        apply (co_in _ _ _ Hc). rewrite El. set_solver.
      * intros q Hq. pose proof (det_outside _ _ _ _ Hc Hq) as Hout. assert (q ≠ p) as Hqp by (intros ->; set_solver).
        destruct (Hw q) as (-> & _). destruct (Hv q) as (_ & _ & _ & _ & ->). rewrite mult_minus, !decide_False, Z.sub_0_r by done.
        destruct (co_det _ _ _ Hc q Hq) as [-> Hnx]. split; [done|]. unfold nxt. rewrite HO; [done|]. set_solver.
      * intros q. rewrite cli_minus, (co_cli _ _ _ Hc), Hm by done. rewrite El in Hn |- *.
        assert (NoDup ((p :: l1 ++ l2) ++ a_det a)) as Hn2 by (eapply nodup_sub; [exact Hn|solve_submseteq]).
        cbn in Hn2. apply NoDup_cons in Hn2 as [Hn2 _]. rewrite !elem_of_app, elem_of_cons.
        split; [intros [? [?|?]]; [tauto|lia]|]. intros Hq. assert (q ≠ p) by (intros ->; set_solver). tauto.
      * rewrite (co_usage _ _ _ Hc). f_equal. rewrite (total_ext c c3) by (intros q _; apply Hd).
        apply total_perm. rewrite El. solve_Permutation.
      * pose proof (size_minus p a Hpc). pose proof (co_bound _ _ _ Hc). lia.
    + cbn. rewrite El. solve_Permutation.
  - eapply only_weaken; [exact HO|]. unfold nodes. set_solver.
Qed.

(** The last client of an erased entry releases it: it is freed. *)
Lemma Release_free_run s a p : rep (l_cells s) (l_sh s) a → p ∈ a_det a → mult p a = 1 →
  Unref p s = Ok (tt, put_mem (delete p (l_cells s)) (hp_dels (l_heap s) ++ del_of (l_cells s) p) s) ∧
  rep (delete p (l_cells s)) (l_sh s) (MkAbs (a_lru a) (a_use a) (without p (a_det a)) (a_cli a ∖ {[+ p +]})).
Proof.
  intros [Hc Ht] Hp Hm. set (c := l_cells s) in *. set (sh := l_sh s) in *. assert (p ∈ a_cli a) as Hpc by (apply Hc; set_solver).
  destruct (co_det _ _ _ Hc p Hp) as [(x & Hx & Hxi & Hxr)%rc_some Hnx]. rewrite Hm in Hxr.
  unfold nxt in Hnx. rewrite Hx in Hnx. cbn in Hnx. pose proof (det_outside _ _ _ _ Hc Hp) as Hout.
  assert (p ≠ 0) as Hp0 by (eapply nodes_nz; [done|]; unfold nodes; set_solver). split.
  { apply (Unref_free_run s p x); try done. intros E. rewrite E in Hnx. done. }
  pose proof (fun q => delete_views c p q) as Hv. pose proof (co_nodup _ _ _ Hc) as Hn. pose proof (co_nz _ _ _ Hc) as H0.
  assert (∀ q, q ∈ lru_ sh :: in_use_ sh :: a_lru a ++ a_use a → q ≠ p) as Hne by (intros q Hq ->; done).
  apply list_elem_of_split in Hp as (l1 & l2 & El).
  assert (without p (a_det a) = l1 ++ l2) as Ew.
  { rewrite El. apply without_split. rewrite <- El. eapply nodup_sub; [exact Hn|]. unfold nodes. solve_submseteq. }
  rewrite Ew. eapply (rep_intro c _ sh sh); [|exact Ht|done|done|].
  - split; cbn [a_lru a_use a_det a_cli].
    + eapply nodup_sub; [exact Hn|]. unfold nodes. cbn. rewrite El. solve_submseteq.
    + unfold nodes in *. cbn. rewrite El in H0. set_solver.
    + eapply ring_ext; [|apply Hc]. intros q Hq. destruct (Hv q) as (-> & -> & _); [apply Hne; set_solver|done].
    + eapply ring_ext; [|apply Hc]. intros q Hq. destruct (Hv q) as (-> & -> & _); [apply Hne; set_solver|done].
    + intros q Hq. assert (q ≠ p) as Hqp by (apply Hne; set_solver). destruct (Hv q Hqp) as (_ & _ & _ & _ & ->).
      rewrite mult_minus, decide_False, Z.sub_0_r by done. by apply (co_in _ _ _ Hc).
    + intros q Hq. assert (q ∈ a_det a) as Hqd by (rewrite El; set_solver).
      assert (q ≠ p) as Hqp by (rewrite <- Ew in Hq; apply elem_of_without in Hq as [? _]; done).
      destruct (Hv q Hqp) as (-> & _ & _ & _ & ->). rewrite mult_minus, decide_False, Z.sub_0_r by done.
      by apply (co_det _ _ _ Hc).
    + intros q. rewrite cli_minus, (co_cli _ _ _ Hc), Hm, <- Ew by done. rewrite !elem_of_app, elem_of_without.
      split; [intros [? [?|?]]; [tauto|lia]|]. intros [Hq|[? ?]]; [|tauto]. split; [tauto|]. left. apply Hne. set_solver.
    + rewrite (co_usage _ _ _ Hc). f_equal. symmetry. apply total_ext. intros q Hq.
      destruct (Hv q) as (_ & _ & -> & _); [apply Hne; set_solver|done].
    + pose proof (size_minus p a Hpc). pose proof (co_bound _ _ _ Hc). lia.
  - intros q Hq. destruct (Hv q) as (_ & _ & -> & -> & _); [apply Hne; set_solver|done].
Qed.

(** What an operation leaves: the entries it may touch, and the data of those that stay. *)
Record effect (c : cells) (sh : LRUCache) (a : abs) (c' : cells) (a' : abs) : Prop := {
  ef_only : only (nodes sh a) c c';
  ef_dat : ∀ q, q ∈ nodes sh a' → dat_of c' q = dat_of c q;
}.

Lemma effect_all c sh a c' a' : only (nodes sh a) c c' → (∀ q, dat_of c' q = dat_of c q) → effect c sh a c' a'.
Proof. intros H1 H2. split; auto. Qed.

(** [Release] of a handle that a client holds. *)
Lemma Release_run s a p : let a' := abs_release p a in rep (l_cells s) (l_sh s) a → p ∈ a_cli a →
  ∃ c', Release p s = Ok (tt, put_mem c' (hp_dels (l_heap s) ++
      (if decide (p ∈ nodes (l_sh s) a') then [] else del_of (l_cells s) p)) s) ∧
    rep c' (l_sh s) a' ∧ effect (l_cells s) (l_sh s) a c' a'.
Proof.
  intros a' Hrep Hpc. pose proof Hrep as [Hc Ht]. unfold Release, a', abs_release.
  pose proof (proj1 (co_cli _ _ _ Hc p) Hpc) as Hp. assert (p ∈ nodes (l_sh s) a) as Hpn by (unfold nodes; set_solver).
  pose proof (nodes_nz _ _ _ _ Hc Hpn) as Hp0. pose proof (co_bound _ _ _ Hc) as H32. pose proof (mult_size p a) as Hms.
  assert (∀ c', put_cells c' s = put_mem c' (hp_dels (l_heap s) ++ []) s) as Hput by (intros; rewrite app_nil_r; done).
  destruct (decide (p ∈ a_cli a ∖ {[+ p +]})) as [Hmore|Hlast].
  - apply cli_minus in Hmore as [_ Hm2]; [|done]. assert (2 ≤ mult p a) as Hm by (destruct Hm2; [done|lia]). clear Hm2.
    assert (∃ x b, l_cells s !! p = Some x ∧ lh_in_cache x = b ∧ lh_refs x = (if b then 1 else 0) + mult p a ∧ b && (mult p a =? 1) = false) as (x & b & Hx & Hb & Hxr & Hbm).
    { rewrite (proj2 (Z.eqb_neq (mult p a) 1)) by lia. apply elem_of_app in Hp as [Hp|Hp].
      - destruct (rc_some _ _ _ _ (co_in _ _ _ Hc p ltac:(set_solver))) as (x & ? & ? & ?). exists x, true. done.
      - destruct (rc_some _ _ _ _ (proj1 (co_det _ _ _ Hc p Hp))) as (x & ? & ? & ?). exists x, false. done. }
    eexists. rewrite decide_True by (unfold nodes in *; cbn; done). split_and!.
    + rewrite <- Hput. apply (Unref_dec_run s p x b (lh_refs x)); try done; [destruct b; lia|].
      rewrite Hxr. destruct b; [|done]. cbn in *. replace (1 + mult p a - 1) with (mult p a) by lia. done.
    + apply rep_rc; [done|done|done| |done| | |].
      * apply cli_minus; auto.
      * rewrite Hxr, multiplicity_difference, multiplicity_singleton_eq. unfold mult in *. destruct b; lia.
      * intros q Hq. rewrite multiplicity_difference, multiplicity_singleton_ne by done. lia.
      * pose proof (size_minus p a Hpc). lia.
    + apply effect_all; [apply only_insert; done|]. intros q. apply rc_set_views. done.
  - assert (mult p a = 1) as Hm.
    { apply mult_pos in Hpc. destruct (decide (2 ≤ mult p a)); [|lia]. exfalso. apply Hlast, cli_minus; [by apply mult_pos|].
      split; [by apply mult_pos|auto]. }
    destruct (decide (p ∈ a_use a)) as [Hpu|Hpu].
    + apply list_elem_of_split in Hpu as (l1 & l2 & El).
      assert (without p (a_use a) = l1 ++ l2) as Ew.
      { rewrite El. apply without_split. rewrite <- El. pose proof (co_nodup _ _ _ Hc) as Hn. unfold nodes in Hn.
        eapply nodup_sub; [exact Hn|solve_submseteq]. }
      rewrite Ew. destruct (Release_last_run s a l1 p l2) as (c' & R & H1 & H2 & H3); [done|done|done|].
      exists c'. rewrite decide_True by (unfold nodes; set_solver). rewrite <- Hput. split_and!; [done|done|by apply effect_all].
    + assert (p ∈ a_det a) as Hpd by set_solver. destruct (Release_free_run s a p) as [R H1]; [done|done|done|].
      exists (delete p (l_cells s)). pose proof (det_outside _ _ _ _ Hc Hpd) as Hout.
      assert (p ∉ nodes (l_sh s) (MkAbs (a_lru a) (a_use a) (without p (a_det a)) (a_cli a ∖ {[+ p +]}))) as Hnin.
      { unfold nodes. cbn. rewrite !elem_of_cons, !elem_of_app, elem_of_without. rewrite !elem_of_cons, !elem_of_app in Hout. tauto. }
      rewrite decide_False by done. split_and!; [done|done|]. split.
      * intros q Hq. apply lookup_delete_ne. intros ->. done.
      * intros q Hq. apply delete_views. intros ->. done.
Qed.

(** ** Taking an entry out *)

Lemma u64_sub x y : u64 (u64 x - y) = u64 (x - y).
Proof. apply wrap_sub_l. Qed.

(** The entry leaves its list: what both cases of [FinishErase] share. *)
Lemma erase_unlink s hd l1 p l2 x : ring (l_cells s) hd (l1 ++ p :: l2) → NoDup (hd :: l1 ++ p :: l2) →
  0 ∉ hd :: l1 ++ p :: l2 → l_cells s !! p = Some x → lh_in_cache x = true →
  ∃ c1, let c2 := <[p := rc_set x false (lh_refs x)]> c1 in
    FinishErase p s = (Unref p ≫= fun _ => mret true)
      (put_cells c2 s <| l_sh := l_sh s <| usage_ := u64 (usage_ (l_sh s) - lh_charge x) |> |>) ∧
    ring c1 hd (l1 ++ l2) ∧ lk_eq (l_cells s) c1 ∧ only (hd :: l1 ++ l2) (l_cells s) c1 ∧ c1 !! p = Some x.
Proof.
  intros Hr Hn H0 Hx Hi. destruct (LRU_Remove_run s hd l1 p l2 Hr Hn H0) as (c1 & R & Hr1 & HK & HO).
  assert (p ∉ hd :: l1 ++ l2) as Hp.
  { assert (NoDup (p :: hd :: l1 ++ l2)) as Hn' by (eapply nodup_sub; [exact Hn|solve_submseteq]).
    apply NoDup_cons in Hn' as [? _]. done. }
  assert (c1 !! p = Some x) as Hx1 by (rewrite HO by done; done). assert (p ≠ 0) as Hp0 by (intros ->; set_solver).
  exists c1. intros c2. split_and!; [|done..]. unfold FinishErase. rewrite (proj2 (Z.eqb_neq _ _) Hp0).
  eapply bind_run; [apply (deref_run p x); done|]. eapply bind_run; [apply assert_run; done|].
  eapply bind_run; [exact R|]. eapply bind_run; [apply (store_run p x); done|]. cbv beta.
  rewrite (rc_in x false (lh_refs x)) by done.
  eapply bind_run; [apply (deref_run p (rc_set x false (lh_refs x))); [done|exact (lookup_insert_eq _ _ _)]|].
  eapply bind_run; [apply modify_run|]. done.
Qed.

(** An entry no client holds is freed. *)
Lemma FinishErase_lru_run s a l1 p l2 ps : core (l_cells s) (l_sh s) a → tbl (l_cells s) (l_sh s) ps →
  a_lru a = l1 ++ p :: l2 → ps ≡ₚ (l1 ++ l2) ++ a_use a →
  let sh' := l_sh s <| usage_ := u64 (usage_ (l_sh s) - charge_of (l_cells s) p) |> in
  ∃ c', FinishErase p s = Ok (true, put_mem c' (hp_dels (l_heap s) ++ del_of (l_cells s) p) s <| l_sh := sh' |>) ∧
    rep c' sh' (MkAbs (l1 ++ l2) (a_use a) (a_det a) (a_cli a)) ∧
    only (nodes (l_sh s) a) (l_cells s) c' ∧ (∀ q, q ≠ p → dat_of c' q = dat_of (l_cells s) q).
Proof.
  intros Hc Ht El Hps sh'. set (c := l_cells s) in *. set (sh := l_sh s) in *.
  assert (p ∈ a_lru a) as Hp by (rewrite El; set_solver). pose proof (co_nodup _ _ _ Hc) as Hn. pose proof (co_nz _ _ _ Hc) as H0.
  unfold nodes in Hn, H0. destruct (lru_unheld _ _ _ _ Hc Hp) as (Hpc & Hpu & Hpd).
  destruct (rc_some _ _ _ _ (co_in _ _ _ Hc p ltac:(set_solver))) as (x & Hx & Hxi & Hxr). rewrite mult_zero, Z.add_0_r in Hxr by done.
  destruct (erase_unlink s (lru_ sh) l1 p l2 x) as (c1 & R & HA & HK & HO & Hx1);
    [rewrite <- El; apply Hc|rewrite <- El; eapply nodup_sub; [exact Hn|solve_submseteq]|rewrite <- El; set_solver|done|done|].
  assert (lh_next x ≠ p) as Hnx.
  { pose proof (core_next _ _ _ p Hc ltac:(set_solver)) as Hnx. unfold nxt in Hnx. rewrite Hx in Hnx. cbn in Hnx. congruence. }
  assert (p ≠ 0) as Hp0 by (intros ->; set_solver). rewrite Hxr in R.
  assert (∀ q, q ≠ p → nxt (delete p c1) q = nxt c1 q ∧ prv (delete p c1) q = prv c1 q ∧ dat_of (delete p c1) q = dat_of c q ∧
    nhs (delete p c1) q = nhs c q ∧ rc (delete p c1) q = rc c q) as Hv.
  { intros q Hq. destruct (delete_views c1 p q Hq) as (-> & -> & -> & -> & ->). destruct (lk_eq_views _ _ q HK) as (-> & -> & ->). done. }
  assert (NoDup (p :: lru_ sh :: in_use_ sh :: (l1 ++ l2) ++ a_use a ++ a_det a)) as Hn2.
  { eapply nodup_sub; [exact Hn|]. rewrite El. solve_submseteq. }
  apply NoDup_cons in Hn2 as [Hpn Hn2]. assert (∀ q, q ∈ lru_ sh :: in_use_ sh :: (l1 ++ l2) ++ a_use a ++ a_det a → q ≠ p) as Hne
    by (intros q Hq ->; done).
  exists (delete p c1). split_and!.
  - rewrite R. eapply bind_run.
    + apply (Unref_free_run _ p (rc_set x false 1)); [done|exact (lookup_insert_eq _ _ _)|done|done|done].
    + unfold mret, M_ret. do 2 f_equal. unfold del_of, charge_of. rewrite Hx.
      change (l_cells (put_cells ?c s <| l_sh := _ |>)) with c. rewrite delete_insert_eq.
      unfold sh', charge_of. rewrite Hx.
      rewrite lookup_insert_eq. done.
  - eapply (rep_intro c _ sh sh'); [|exact Ht|done|exact Hps|].
    + split; cbn [a_lru a_use a_det a_cli]; [done|unfold nodes; cbn; rewrite El in H0; clear -H0; set_solver| | | | | | |apply Hc].
      * eapply ring_ext; [|exact HA]. intros q Hq. destruct (Hv q) as (-> & -> & _); [apply Hne; set_solver|done].
      * eapply ring_ext; [|eapply ring_only; [apply (co_use _ _ _ Hc)|exact HO|]].
        -- intros q Hq. destruct (Hv q) as (-> & -> & _); [apply Hne; set_solver|done].
        -- intros q Hq Hin. assert (NoDup ((in_use_ sh :: a_use a) ++ lru_ sh :: l1 ++ l2)) as Hn3
             by (eapply nodup_sub; [exact Hn2|solve_submseteq]). apply NoDup_app in Hn3 as (_ & Hd & _). by apply (Hd q).
      * intros q Hq. destruct (Hv q) as (_ & _ & _ & _ & ->); [apply Hne; set_solver|]. apply (co_in _ _ _ Hc). rewrite El. set_solver.
      * intros q Hq. destruct (Hv q) as (-> & _ & _ & _ & ->); [apply Hne; set_solver|]. pose proof (det_outside _ _ _ _ Hc Hq) as Ho.
        unfold nxt. rewrite HO; [apply (co_det _ _ _ Hc q Hq)|]. rewrite El in Ho. set_solver.
      * apply Hc.
      * unfold sh'. rsimpl. rewrite (co_usage _ _ _ Hc), u64_sub. f_equal.
        rewrite El, (total_perm c _ (p :: (l1 ++ l2) ++ a_use a)) by solve_Permutation. cbn.
        rewrite (total_ext c (delete p c1)); [lia|]. intros q Hq. apply Hv, Hne. set_solver.
    + intros q Hq. rewrite Hps in Hq. destruct (Hv q) as (_ & _ & -> & -> & _); [apply Hne; set_solver|done].
  - intros q Hq. unfold nodes in Hq. rewrite El in Hq. rewrite lookup_delete_ne by (intros ->; set_solver). apply HO. set_solver.
  - intros q Hq. apply Hv. done.
Qed.

(** An entry that clients hold is detached. *)
Lemma FinishErase_use_run s a l1 p l2 ps : core (l_cells s) (l_sh s) a → tbl (l_cells s) (l_sh s) ps →
  a_use a = l1 ++ p :: l2 → ps ≡ₚ a_lru a ++ l1 ++ l2 →
  let sh' := l_sh s <| usage_ := u64 (usage_ (l_sh s) - charge_of (l_cells s) p) |> in
  ∃ c', FinishErase p s = Ok (true, put_cells c' s <| l_sh := sh' |>) ∧
    rep c' sh' (MkAbs (a_lru a) (l1 ++ l2) (a_det a ++ [p]) (a_cli a)) ∧
    only (nodes (l_sh s) a) (l_cells s) c' ∧ (∀ q, dat_of c' q = dat_of (l_cells s) q).
Proof.
  intros Hc Ht El Hps sh'. set (c := l_cells s) in *. set (sh := l_sh s) in *.
  assert (p ∈ a_use a) as Hp by (rewrite El; set_solver). pose proof (co_nodup _ _ _ Hc) as Hn. pose proof (co_nz _ _ _ Hc) as H0.
  unfold nodes in Hn, H0. assert (p ∈ a_cli a) as Hpc by (apply Hc; set_solver).
  pose proof (proj1 (mult_pos p a) Hpc) as Hm. pose proof (mult_size p a). pose proof (co_bound _ _ _ Hc).
  destruct (rc_some _ _ _ _ (co_in _ _ _ Hc p ltac:(set_solver))) as (x & Hx & Hxi & Hxr).
  destruct (erase_unlink s (in_use_ sh) l1 p l2 x) as (c1 & R & HA & HK & HO & Hx1);
    [rewrite <- El; apply Hc|rewrite <- El; eapply nodup_sub; [exact Hn|solve_submseteq]|rewrite <- El; set_solver|done|done|].
  assert (p ≠ 0) as Hp0 by (intros ->; set_solver). set (c2 := <[p := rc_set x false (mult p a)]> c1).
  assert (∀ q, nxt c2 q = nxt c1 q ∧ prv c2 q = prv c1 q ∧ dat_of c2 q = dat_of c q ∧ nhs c2 q = nhs c q ∧
    rc c2 q = if decide (q = p) then Some (false, mult p a) else rc c q) as Hv.
  { intros q. unfold c2. destruct (rc_set_views c1 p x false (mult p a) q Hx1) as (-> & -> & -> & -> & ->).
    destruct (lk_eq_views _ _ q HK) as (-> & -> & ->). done. }
  assert (NoDup (p :: lru_ sh :: in_use_ sh :: a_lru a ++ (l1 ++ l2) ++ a_det a)) as Hn2.
  { eapply nodup_sub; [exact Hn|]. rewrite El. solve_submseteq. }
  apply NoDup_cons in Hn2 as [Hpn Hn2]. assert (∀ q, q ∈ lru_ sh :: in_use_ sh :: a_lru a ++ (l1 ++ l2) ++ a_det a → q ≠ p) as Hne
    by (intros q Hq ->; done).
  exists c2. split_and!.
  - rewrite R. eapply bind_run.
    + apply (Unref_dec_run _ p (rc_set x false (lh_refs x)) false (1 + mult p a)); [done|exact (lookup_insert_eq _ _ _)|done|exact Hxr|lia|done].
    + unfold mret, M_ret. do 2 f_equal. change (l_cells (put_cells ?c s <| l_sh := _ |>)) with c.
      replace (1 + mult p a - 1) with (mult p a) by lia. unfold sh', charge_of. rewrite Hx.
      rewrite insert_insert_eq. done.
  - eapply (rep_intro c _ sh sh'); [|exact Ht|done|exact Hps|].
    + split; cbn [a_lru a_use a_det a_cli].
      * eapply nodup_sub; [exact Hn|]. unfold nodes. cbn. rewrite El. solve_submseteq.
      * unfold nodes. cbn. rewrite El in H0. set_solver.
      * eapply ring_ext; [|eapply ring_only; [apply (co_lru _ _ _ Hc)|exact HO|]].
        -- intros q Hq. destruct (Hv q) as (-> & -> & _). done.
        -- intros q Hq Hin. assert (NoDup ((lru_ sh :: a_lru a) ++ in_use_ sh :: l1 ++ l2)) as Hn3
             by (eapply nodup_sub; [exact Hn2|solve_submseteq]). apply NoDup_app in Hn3 as (_ & Hd & _). by apply (Hd q).
      * eapply ring_ext; [|exact HA]. intros q Hq. destruct (Hv q) as (-> & -> & _). done.
      * intros q Hq. destruct (Hv q) as (_ & _ & _ & _ & ->). rewrite decide_False by (apply Hne; set_solver).
        apply (co_in _ _ _ Hc). rewrite El. set_solver.
      * intros q Hq. destruct (Hv q) as (-> & _ & _ & _ & ->). apply elem_of_app in Hq as [Hq| ->%list_elem_of_singleton].
        -- rewrite decide_False by (apply Hne; set_solver). pose proof (det_outside _ _ _ _ Hc Hq) as Ho.
           unfold nxt. rewrite HO; [apply (co_det _ _ _ Hc q Hq)|]. rewrite El in Ho. set_solver.
        -- rewrite decide_True by done. split; [done|]. unfold nxt. rewrite HO by set_solver.
           apply (core_next _ _ _ p Hc). set_solver.
      * intros q. unfold sh'. rewrite (co_cli _ _ _ Hc), El. set_solver.
      * unfold sh'. rsimpl. rewrite (co_usage _ _ _ Hc), u64_sub. f_equal.
        rewrite El, (total_perm c _ (p :: a_lru a ++ l1 ++ l2)) by solve_Permutation. cbn.
        rewrite (total_ext c c2); [lia|]. intros q Hq. apply Hv.
      * done.
    + intros q Hq. destruct (Hv q) as (_ & _ & -> & -> & _). done.
  - apply (only_trans _ _ c1); [eapply only_weaken; [exact HO|]|apply only_insert]; unfold nodes; rewrite El; set_solver.
  - intros q. apply Hv.
Qed.

(** [FinishErase] of an entry that was taken out of the table. *)
Lemma FinishErase_run s a p ps : core (l_cells s) (l_sh s) a → tbl (l_cells s) (l_sh s) ps →
  a_lru a ++ a_use a ≡ₚ p :: ps →
  let sh' := l_sh s <| usage_ := u64 (usage_ (l_sh s) - charge_of (l_cells s) p) |> in
  ∃ c', FinishErase p s = Ok (true, put_mem c' (hp_dels (l_heap s) ++
      (if decide (p ∈ a_lru a) then del_of (l_cells s) p else [])) s <| l_sh := sh' |>) ∧
    rep c' sh' (abs_erase p a) ∧ effect (l_cells s) (l_sh s) a c' (abs_erase p a).
Proof.
  intros Hc Ht Hps sh'. assert (p ∈ a_lru a ++ a_use a) as Hp by (rewrite Hps; left).
  pose proof (co_nodup _ _ _ Hc) as Hn. assert (NoDup (a_lru a ++ a_use a)) as Hnlu
    by (eapply nodup_sub; [exact Hn|unfold nodes; solve_submseteq]).
  pose proof Hnlu as (Hnl & Hd & Hnu)%NoDup_app. unfold abs_erase. destruct (decide (p ∈ a_lru a)) as [Hpl|Hpl].
  - assert (p ∉ a_use a) as Hpu by (apply Hd; done). rewrite (without_notin p (a_use a)), decide_False by done.
    pose proof Hpl as (l1 & l2 & El)%list_elem_of_split.
    assert (without p (a_lru a) = l1 ++ l2) as Ew by (rewrite El in *; by apply without_split). rewrite Ew.
    destruct (FinishErase_lru_run s a l1 p l2 ps) as (c' & R & H1 & H2 & H3); [done|done|done| |].
    { rewrite El in Hps. apply (Permutation_cons_inv (a := p)). rewrite <- Hps. solve_Permutation. }
    exists c'. split_and!; [done|done|]. split; [done|]. intros q Hq. apply H3. intros ->.
    unfold nodes in *. cbn in Hq. rewrite El in Hn.
    assert (NoDup (p :: lru_ (l_sh s) :: in_use_ (l_sh s) :: (l1 ++ l2) ++ a_use a ++ a_det a)) as Hn2
      by (eapply nodup_sub; [exact Hn|solve_submseteq]).
    apply NoDup_cons in Hn2 as [Hn2 _]. done.
  - assert (p ∈ a_use a) as Hpu by set_solver. rewrite (without_notin p (a_lru a)), decide_True by done.
    pose proof Hpu as (l1 & l2 & El)%list_elem_of_split.
    assert (without p (a_use a) = l1 ++ l2) as Ew by (rewrite El in *; by apply without_split). rewrite Ew.
    destruct (FinishErase_use_run s a l1 p l2 ps) as (c' & R & H1 & H2 & H3); [done|done|done| |].
    { rewrite El in Hps. apply (Permutation_cons_inv (a := p)). rewrite <- Hps. solve_Permutation. }
    exists c'. rewrite app_nil_r. split_and!; [exact R|done|by apply effect_all].
Qed.

(** ** Calls of the table *)

Lemma core_nh c c' sh t a : core c sh a → nh_eq c c' → core c' (sh <| table_ := t |>) a.
Proof.
  intros Hc He. pose proof (fun q => nh_eq_views c c' q He) as Hv. split; try apply Hc.
  - eapply ring_ext; [|apply (co_lru _ _ _ Hc)]. intros q _. apply Hv.
  - eapply ring_ext; [|apply (co_use _ _ _ Hc)]. intros q _. apply Hv.
  - intros q Hq. destruct (Hv q) as (-> & _). by apply (co_in _ _ _ Hc).
  - intros q Hq. destruct (Hv q) as (-> & _ & -> & _). by apply (co_det _ _ _ Hc).
  - rsimpl. rewrite (co_usage _ _ _ Hc). f_equal. symmetry. apply total_ext. intros q _. apply Hv.
Qed.

Lemma found_perm c ps qs key hash r : ps ≡ₚ qs → found c ps key hash r → found c qs key hash r.
Proof.
  intros Hp [[-> H]|(H0 & Hin & H)]; [left|right].
  - split; [done|]. intros p. rewrite <- Hp. apply H.
  - split_and!; [done| |done]. rewrite <- Hp. done.
Qed.

Lemma on_table_run {A} (m : M tst A) s a c t : m (MkTst (l_cells s) (table_ (l_sh s))) = Ok (a, MkTst c t) →
  on_table m s = Ok (a, put_cells c s <| l_sh := l_sh s <| table_ := t |> |>).
Proof. intros H. unfold on_table. rewrite H. done. Qed.

Lemma lookup_table_run s a key hash : rep (l_cells s) (l_sh s) a →
  ∃ r, on_table (Table_Lookup key hash) s = Ok (r, s) ∧ found (l_cells s) (a_lru a ++ a_use a) key hash r.
Proof.
  intros [Hc (bk & Ht & Hp)]. destruct (Table_Lookup_run (MkTst (l_cells s) (table_ (l_sh s))) bk key hash Ht) as (r & R & Hf).
  exists r. split; [|eapply found_perm; done]. rewrite (on_table_run _ _ _ _ _ R). destruct s as [[] []]. done.
Qed.

(** After a removal from the table the entry is still in its list. *)
Lemma remove_table_run s a key hash : rep (l_cells s) (l_sh s) a →
  ∃ r c' t', on_table (Table_Remove key hash) s = Ok (r, put_cells c' s <| l_sh := l_sh s <| table_ := t' |> |>) ∧
    found (l_cells s) (a_lru a ++ a_use a) key hash r ∧ core c' (l_sh s <| table_ := t' |>) a ∧
    (∃ ps, tbl c' (l_sh s <| table_ := t' |>) ps ∧ a_lru a ++ a_use a ≡ₚ (if r =? 0 then [] else [r]) ++ ps) ∧
    nh_eq (l_cells s) c' ∧ only (nodes (l_sh s) a) (l_cells s) c'.
Proof.
  intros [Hc (bk & Ht & Hp)]. destruct (Table_Remove_run (MkTst (l_cells s) (table_ (l_sh s))) bk key hash Ht)
    as (r & c' & t' & bk' & R & Hf & Ht' & He & Ho & Hp'). exists r, c', t'. split_and!.
  - by apply on_table_run.
  - eapply found_perm; done.
  - by eapply core_nh.
  - exists (concat bk'). split; [exists bk'; done|]. rewrite <- Hp, Hp'. done.
  - done.
  - eapply only_weaken; [exact Ho|]. intros q. rewrite Hp. unfold nodes. set_solver.
Qed.

End LruInv.
