(* ===== verification/LruOps.v ===== *)
(** * Operations of the LRU cache

    [Lookup], [Release], [Insert], [Erase], [Prune], construction and destruction of
    a shard: each runs to its end from a represented state, with what it returns,
    what it evicts and which deleters it calls. *)

From S2P Require Import Prelude LruTable LruCache LruInv.
From stdpp Require Import base gmap gmultiset list strings.
From Stdlib Require Import ZArith Lia.
Import LruTable LruCache LruInv.

Open Scope Z_scope.

Module LruOps.

(** ** The operations of a client *)

Lemma Lookup_run s a key hash : rep (l_cells s) (l_sh s) a → Z.of_nat (size (a_cli a)) < 2 ^ 32 - 2 →
  ∃ r c', Lookup key hash s = Ok (r, put_cells c' s) ∧ found (l_cells s) (a_lru a ++ a_use a) key hash r ∧
    let a' := if r =? 0 then a else abs_ref r a in
    rep c' (l_sh s) a' ∧ effect (l_cells s) (l_sh s) a c' a'.
Proof.
  intros Hrep H32. destruct (lookup_table_run s a key hash Hrep) as (r & R & Hf). exists r. unfold Lookup.
  destruct (Z.eqb_spec r 0) as [->|Hr0].
  - exists (l_cells s). split_and!; [|done|done|by apply effect_all].
    eapply bind_run; [exact R|]. destruct s as [[] []]. done.
  - assert (r ∈ a_lru a ++ a_use a) as Hin by (destruct Hf as [[? _]|(_ & ? & _)]; done).
    destruct (Ref_run s a r Hrep Hin H32) as (c' & R' & H1 & H2 & H3). exists c'. split_and!; [|done|done|by apply effect_all].
    eapply bind_run; [exact R|]. rewrite (proj2 (Z.eqb_neq _ _) Hr0). eapply bind_run; [exact R'|]. done.
Qed.

Lemma dat_charge c c' p : dat_of c' p = dat_of c p → charge_of c' p = charge_of c p.
Proof. unfold dat_of, charge_of. destruct (c !! p), (c' !! p); [intros [= ? ? ? ? ?]|..]; done. Qed.

Lemma dat_del c c' p : dat_of c' p = dat_of c p → del_of c' p = del_of c p.
Proof. unfold dat_of, del_of. destruct (c !! p), (c' !! p); [intros [= -> -> ? -> ?]|..]; done. Qed.

(** The shard whose charge is [u]. *)
Definition with_usage (u : Z) (t : HandleTable) (sh : LRUCache) : LRUCache := sh <| table_ := t |> <| usage_ := u |>.

Lemma effect_nh c c1 sh t a c2 a' : nh_eq c c1 → only (nodes sh a) c c1 → effect c1 (sh <| table_ := t |>) a c2 a' →
  effect c sh a c2 a'.
Proof.
  intros He Ho [H1 H2]. split; [by eapply only_trans|]. intros q Hq. rewrite H2 by done. apply nh_eq_views. done.
Qed.

(** An entry is taken out of the table and finished. *)
Lemma erase_run s a key hash r c1 t1 ps : on_table (Table_Remove key hash) s = Ok (r, put_cells c1 s <| l_sh := l_sh s <| table_ := t1 |> |>) →
  r ≠ 0 → core c1 (l_sh s <| table_ := t1 |>) a → tbl c1 (l_sh s <| table_ := t1 |>) ps → a_lru a ++ a_use a ≡ₚ r :: ps →
  nh_eq (l_cells s) c1 → only (nodes (l_sh s) a) (l_cells s) c1 →
  let sh' := with_usage (u64 (usage_ (l_sh s) - charge_of (l_cells s) r)) t1 (l_sh s) in
  ∃ c', (on_table (Table_Remove key hash) ≫= FinishErase) s = Ok (true, put_mem c' (hp_dels (l_heap s) ++
      (if decide (r ∈ a_lru a) then del_of (l_cells s) r else [])) s <| l_sh := sh' |>) ∧
    rep c' sh' (abs_erase r a) ∧ effect (l_cells s) (l_sh s) a c' (abs_erase r a).
Proof.
  intros R Hr0 Hc Ht Hp He Ho sh'. destruct (nh_eq_views _ _ r He) as (_ & Hd & _).
  destruct (FinishErase_run (put_cells c1 s <| l_sh := l_sh s <| table_ := t1 |> |>) a r ps) as (c' & R' & H1 & H2); [exact Hc|exact Ht|exact Hp|].
  exists c'. change (l_cells (put_cells c1 s <| l_sh := l_sh s <| table_ := t1 |> |>)) with c1 in *.
  rewrite (dat_charge _ _ _ Hd) in *. rewrite (dat_del _ _ _ Hd) in *. split_and!; [|exact H1|exact (effect_nh _ _ _ t1 _ _ _ He Ho H2)].
  eapply bind_run; [exact R|]. exact R'.
Qed.

Lemma Erase_run s a key hash : rep (l_cells s) (l_sh s) a →
  ∃ r c' t', let sh' := if r =? 0 then l_sh s <| table_ := t' |> else
                  with_usage (u64 (usage_ (l_sh s) - charge_of (l_cells s) r)) t' (l_sh s) in
    let a' := if r =? 0 then a else abs_erase r a in
    Erase key hash s = Ok (tt, put_mem c' (hp_dels (l_heap s) ++
      (if decide (r ∈ a_lru a) then del_of (l_cells s) r else [])) s <| l_sh := sh' |>) ∧
    found (l_cells s) (a_lru a ++ a_use a) key hash r ∧ rep c' sh' a' ∧ effect (l_cells s) (l_sh s) a c' a'.
Proof.
  intros Hrep. destruct (remove_table_run s a key hash Hrep) as (r & c1 & t1 & R & Hf & Hc & (ps & Ht & Hp) & He & Ho).
  exists r. unfold Erase. destruct (Z.eqb_spec r 0) as [->|Hr0].
  - exists c1, t1. assert (0 ∉ a_lru a) as Hn0 by (pose proof (co_nz _ _ _ Hc) as H0; unfold nodes in H0; set_solver).
    rewrite decide_False, app_nil_r by done. split_and!; [|done| |].
    + eapply bind_run; [exact R|]. done.
    + split; [done|]. eapply tbl_perm; [done|]. rewrite Hp. done.
    + apply effect_all; [done|]. intros q. apply nh_eq_views. done.
  - destruct (erase_run s a key hash r c1 t1 ps R Hr0 Hc Ht Hp He Ho) as (c' & R' & H1 & H2). exists c', t1.
    split_and!; [|done|done|done]. inv_bind R'. eapply bind_run; [exact Hm|]. eapply bind_run; [exact R'|]. done.
Qed.

(** The oldest entry of the lru list is evicted: it is the one with its key. *)
Lemma evict_run s a p l : rep (l_cells s) (l_sh s) a → a_lru a = p :: l →
  ∃ c' t', let sh' := with_usage (u64 (usage_ (l_sh s) - charge_of (l_cells s) p)) t' (l_sh s) in
    let a' := MkAbs l (a_use a) (a_det a) (a_cli a) in
    evict p s = Ok (tt, put_mem c' (hp_dels (l_heap s) ++ del_of (l_cells s) p) s <| l_sh := sh' |>) ∧
    rep c' sh' a' ∧ effect (l_cells s) (l_sh s) a c' a'.
Proof.
  intros Hrep El. pose proof Hrep as [Hc0 (bk & Htr & Hbk)]. assert (p ∈ a_lru a) as Hp by (rewrite El; left).
  destruct (lru_unheld _ _ _ _ Hc0 Hp) as (Hpc & Hpu & _).
  destruct (rc_some _ _ _ _ (co_in _ _ _ Hc0 p ltac:(set_solver))) as (x & Hx & Hxi & Hxr). rewrite mult_zero in Hxr by done.
  destruct (remove_table_run s a (lh_key x) (lh_hash x) Hrep) as (r & c1 & t1 & R & Hf & Hc & (ps & Ht & Hps) & He & Ho).
  assert (hit (l_cells s) (lh_key x) (lh_hash x) p = true) as Hhit by (apply hit_true; eauto).
  assert (r = p ∧ r ≠ 0) as [-> Hp0].
  { destruct Hf as [[_ Hf]|(Hr0 & Hr & (y & Hy & Hyh & Hyk)%hit_true)]; [rewrite Hf in Hhit by set_solver; done|].
    split; [|done]. apply (tr_keys _ _ _ Htr r p y x); [rewrite Hbk; done|rewrite Hbk; set_solver|done..]. }
  rewrite (proj2 (Z.eqb_neq _ _) Hp0) in Hps.
  destruct (erase_run s a _ _ p c1 t1 ps R Hp0 Hc Ht Hps He Ho) as (c' & R' & H1 & H2). exists c', t1.
  assert (abs_erase p a = MkAbs l (a_use a) (a_det a) (a_cli a)) as Ea.
  { unfold abs_erase. rewrite (without_notin p (a_use a)), decide_False by done. rewrite El.
    change (p :: l) with ([] ++ p :: l). rewrite without_split; [done|]. cbn. rewrite <- El. pose proof (co_nodup _ _ _ Hc) as Hn.
    eapply nodup_sub; [exact Hn|unfold nodes; solve_submseteq]. }
  rewrite Ea in *. rewrite decide_True in R' by done. split_and!; [|done|done].
  unfold evict. eapply bind_run; [apply (deref_run p x); done|]. rewrite Hxr. eapply bind_run; [apply assert_run; done|].
  eapply bind_run; [apply (handle_key_run p x); try done|].
  { pose proof (core_next _ _ _ p Hc0 ltac:(set_solver)) as Hnx. unfold nxt in Hnx. rewrite Hx in Hnx. cbn in Hnx. congruence. }
  inv_bind R'. eapply bind_run; [exact Hm|]. eapply bind_run; [exact R'|]. done.
Qed.

(** ** The loops over the lru list *)

Lemma effect_trans c sh a c1 a1 c2 a2 : effect c sh a c1 a1 → effect c1 sh a1 c2 a2 →
  (∀ q, q ∈ nodes sh a1 → q ∈ nodes sh a) → (∀ q, q ∈ nodes sh a2 → q ∈ nodes sh a1) → effect c sh a c2 a2.
Proof.
  intros [O1 D1] [O2 D2] Hs1 Hs2. split.
  - eapply only_trans; [exact O1|]. eapply only_weaken; [exact O2|done].
  - intros q Hq. rewrite D2, D1 by auto. done.
Qed.

Lemma effect_sh c sh sh' a c' a' : lru_ sh' = lru_ sh → in_use_ sh' = in_use_ sh → effect c sh' a c' a' → effect c sh a c' a'.
Proof. intros H1 H2 [H3 H4]. unfold nodes in *. rewrite H1, H2 in *. split; done. Qed.

Lemma with_usage_id sh : with_usage (usage_ sh) (table_ sh) sh = sh.
Proof. destruct sh. done. Qed.

Lemma put_mem_id s : put_mem (l_cells s) (hp_dels (l_heap s)) s = s.
Proof. destruct s as [[] ?]. done. Qed.

Lemma put_with s : put_mem (l_cells s) (hp_dels (l_heap s)) s <| l_sh := with_usage (usage_ (l_sh s)) (table_ (l_sh s)) (l_sh s) |> = s.
Proof. destruct s as [[] []]. done. Qed.

(** The oldest of the lru list is what the head points to. *)
Lemma lru_next_run s a : rep (l_cells s) (l_sh s) a →
  ∃ x, deref (lru_ (l_sh s)) s = Ok (x, s) ∧ lh_next x = (match a_lru a with p :: _ => p | [] => lru_ (l_sh s) end).
Proof.
  intros [Hc _]. pose proof (co_lru _ _ _ Hc) as [Hf _].
  assert (nxt (l_cells s) (lru_ (l_sh s)) = Some (match a_lru a with p :: _ => p | [] => lru_ (l_sh s) end)) as Hx
    by (destruct (a_lru a); apply Hf).
  apply nxt_some in Hx as (x & Hx & Hn). exists x. split; [|done]. apply deref_run; [|done].
  eapply nodes_nz; [done|]. unfold nodes. set_solver.
Qed.

Lemma lru_not_head c sh a p l : core c sh a → a_lru a = p :: l → p ≠ lru_ sh.
Proof. intros Hc El ->. pose proof (co_nodup _ _ _ Hc) as Hn. unfold nodes in Hn. rewrite El in Hn. apply NoDup_cons in Hn as [Hn _]. set_solver. Qed.

(** The shared step of the two loops: one eviction, then the rest. *)
Lemma evict_step s a p l (k : nat) c1 c' d' : let a1 := MkAbs l (a_use a) (a_det a) (a_cli a) in
  let a' := MkAbs (drop k l) (a_use a) (a_det a) (a_cli a) in a_lru a = p :: l →
  effect (l_cells s) (l_sh s) a c1 a1 →
  effect c1 (l_sh s) a1 c' a' → d' = (hp_dels (l_heap s) ++ del_of (l_cells s) p) ++ concat (del_of c1 <$> take k l) →
  d' = hp_dels (l_heap s) ++ concat (del_of (l_cells s) <$> take (S k) (p :: l)) ∧ effect (l_cells s) (l_sh s) a c' a'.
Proof.
  intros a1 a' El H1 H2 ->. split; [|eapply effect_trans; [exact H1|exact H2|..]].
  - rewrite <- app_assoc. cbn. do 3 f_equal. apply list_fmap_ext. intros i q Hq%list_elem_of_lookup_2.
    apply dat_del, H1. unfold nodes, a1. cbn. apply elem_of_take in Hq as (j & Hq & _). apply list_elem_of_lookup_2 in Hq. set_solver.
  - intros q. unfold nodes, a1. cbn. rewrite El. set_solver.
  - intros q. unfold nodes, a', a1. cbn. rewrite !elem_of_cons, !elem_of_app. pose proof (subseteq_drop k l q) as Hd. tauto.
Qed.

(** The loop evicts the oldest entries, as few as bring the charge within the
    capacity. *)
Lemma evict_loop_run l : ∀ fuel s a, rep (l_cells s) (l_sh s) a → a_lru a = l → (length l < fuel)%nat →
  ∃ k c' u' t', let sh' := with_usage u' t' (l_sh s) in
    let a' := MkAbs (drop k l) (a_use a) (a_det a) (a_cli a) in
    evict_loop fuel s = Ok (tt, put_mem c' (hp_dels (l_heap s) ++ concat (del_of (l_cells s) <$> take k l)) s <| l_sh := sh' |>) ∧
    rep c' sh' a' ∧ effect (l_cells s) (l_sh s) a c' a' ∧ (k ≤ length l)%nat ∧
    (u' ≤ capacity_ (l_sh s) ∨ drop k l = []) ∧
    (∀ j, (j < k)%nat → capacity_ (l_sh s) < u64 (total (l_cells s) (drop j l ++ a_use a))).
Proof.
  induction l as [|p l IH]; intros fuel s a Hrep El Hf; (destruct fuel as [|fuel]; [cbn in Hf; lia|]); cbn [evict_loop];
    destruct (lru_next_run s a Hrep) as (x & Rx & Hx); rewrite El in Hx; pose proof Hrep as [Hc _].
  - exists 0%nat, (l_cells s), (usage_ (l_sh s)), (table_ (l_sh s)). cbn [take drop fmap list_fmap concat].
    rewrite app_nil_r, put_with, with_usage_id. split_and!; [|by rewrite <- El; destruct a|by apply effect_all|lia|auto|lia].
    eapply bind_run; [apply gets_run|]. destruct (capacity_ (l_sh s) <? usage_ (l_sh s)); cbn [negb]; [|done].
    eapply bind_run; [exact Rx|]. rewrite Hx, Z.eqb_refl. done.
  - destruct (Z.ltb_spec (capacity_ (l_sh s)) (usage_ (l_sh s))) as [Hlt|Hge].
    + destruct (evict_run s a p l Hrep El) as (c1 & t1 & R1 & Hrep1 & Hef1).
      set (s1 := put_mem c1 (hp_dels (l_heap s) ++ del_of (l_cells s) p) s <| l_sh := with_usage _ t1 (l_sh s) |>) in R1.
      destruct (IH fuel s1 _ Hrep1 eq_refl) as (k & c' & u' & t' & R & Hrep' & Hef & Hk & Hu & Hj); [cbn in Hf; lia|].
      apply (effect_sh _ (l_sh s)) in Hef; [|done|done].
      destruct (evict_step s a p l k c1 c' _ El Hef1 Hef eq_refl) as [Ed Hef'].
      exists (S k), c', u', t'. split_and!; [|exact Hrep'|exact Hef'|cbn; lia|done|].
      * eapply bind_run; [apply gets_run|]. rewrite (proj2 (Z.ltb_lt _ _) Hlt). cbn [negb].
        eapply bind_run; [exact Rx|]. rewrite Hx, (proj2 (Z.eqb_neq _ _)) by (by eapply lru_not_head).
        eapply bind_run; [exact R1|]. rewrite <- Ed. exact R.
      * intros [|j] Hjk; [change (drop 0 (p :: l)) with (p :: l); rewrite <- El, <- (co_usage _ _ _ Hc); done|].
        change (drop (S j) (p :: l)) with (drop j l). specialize (Hj j ltac:(lia)).
        rewrite (total_ext (l_cells s) (l_cells s1)) in Hj; [done|]. intros q Hq. apply Hef1. unfold nodes. cbn.
        rewrite !elem_of_cons, !elem_of_app. pose proof (subseteq_drop j l q). set_solver.
    + exists 0%nat, (l_cells s), (usage_ (l_sh s)), (table_ (l_sh s)). cbn [take drop fmap list_fmap concat].
      rewrite app_nil_r, put_with, with_usage_id. split_and!; [|by rewrite <- El; destruct a|by apply effect_all|lia|auto|lia].
      eapply bind_run; [apply gets_run|]. rewrite (proj2 (Z.ltb_ge _ _) Hge). done.
Qed.

(** [Prune] evicts every entry no client holds. *)
Lemma prune_loop_run l : ∀ fuel s a, rep (l_cells s) (l_sh s) a → a_lru a = l → (length l < fuel)%nat →
  ∃ c' u' t', let sh' := with_usage u' t' (l_sh s) in
    let a' := MkAbs [] (a_use a) (a_det a) (a_cli a) in
    prune_loop fuel s = Ok (tt, put_mem c' (hp_dels (l_heap s) ++ concat (del_of (l_cells s) <$> l)) s <| l_sh := sh' |>) ∧
    rep c' sh' a' ∧ effect (l_cells s) (l_sh s) a c' a'.
Proof.
  induction l as [|p l IH]; intros fuel s a Hrep El Hf; (destruct fuel as [|fuel]; [cbn in Hf; lia|]); cbn [prune_loop];
    destruct (lru_next_run s a Hrep) as (x & Rx & Hx); rewrite El in Hx; pose proof Hrep as [Hc _].
  - exists (l_cells s), (usage_ (l_sh s)), (table_ (l_sh s)). cbn [fmap list_fmap concat].
    rewrite app_nil_r, put_with, with_usage_id. split_and!; [|by rewrite <- El; destruct a|by apply effect_all].
    eapply bind_run; [apply gets_run|]. eapply bind_run; [exact Rx|]. rewrite Hx, Z.eqb_refl. done.
  - destruct (evict_run s a p l Hrep El) as (c1 & t1 & R1 & Hrep1 & Hef1).
    set (s1 := put_mem c1 (hp_dels (l_heap s) ++ del_of (l_cells s) p) s <| l_sh := with_usage _ t1 (l_sh s) |>) in R1.
    destruct (IH fuel s1 _ Hrep1 eq_refl) as (c' & u' & t' & R & Hrep' & Hef); [cbn in Hf; lia|].
    apply (effect_sh _ (l_sh s)) in Hef; [|done|done].
    rewrite <- (take_ge l (length l)) in R by lia. rewrite <- (drop_all l) in Hef.
    destruct (evict_step s a p l (length l) c1 c' _ El Hef1 Hef eq_refl) as [Ed Hef'].
    rewrite drop_all in Hef'. exists c', u', t'. split_and!; [|exact Hrep'|exact Hef'].
    eapply bind_run; [apply gets_run|]. eapply bind_run; [exact Rx|]. rewrite Hx, (proj2 (Z.eqb_neq _ _)) by (by eapply lru_not_head).
    eapply bind_run; [exact R1|]. rewrite (take_ge (p :: l) (S (length l))) in Ed by (cbn; lia). rewrite <- Ed. exact R.
Qed.

(** ** Insert *)

(** Every entry has an address [malloc] has already returned. *)
Definition heap_ok (h : heap) : Prop := 0 < hp_next h ∧ ∀ p, is_Some (hp_cells h !! p) → p < hp_next h.

Lemma nodes_live c sh a p : core c sh a → p ∈ nodes sh a → is_Some (c !! p).
Proof.
  intros Hc Hp. unfold nodes in Hp. rewrite !elem_of_cons, !elem_of_app in Hp.
  destruct Hp as [->|[->|[Hp|[Hp|Hp]]]].
  - eapply ring_live; [apply Hc|set_solver].
  - eapply ring_live; [apply (co_use _ _ _ Hc)|set_solver].
  - eapply ring_live; [apply (co_lru _ _ _ Hc)|set_solver].
  - eapply ring_live; [apply (co_use _ _ _ Hc)|set_solver].
  - destruct (rc_some _ _ _ _ (proj1 (co_det _ _ _ Hc p Hp))) as (x & Hx & _). eauto.
Qed.

Lemma fresh_out s a : heap_ok (l_heap s) → core (l_cells s) (l_sh s) a →
  hp_next (l_heap s) ∉ nodes (l_sh s) a ∧ l_cells s !! hp_next (l_heap s) = None ∧ hp_next (l_heap s) ≠ 0.
Proof.
  intros [H0 Hf] Hc. assert (l_cells s !! hp_next (l_heap s) = None) as Hn.
  { destruct (l_cells s !! hp_next (l_heap s)) eqn:E; [|done]. assert (hp_next (l_heap s) < hp_next (l_heap s)); [|lia].
    apply Hf. unfold l_cells in E. rewrite E. eauto. }
  split_and!; [|done|lia]. intros Hin. destruct (nodes_live _ _ _ _ Hc Hin) as [x Hx]. rewrite Hn in Hx. done.
Qed.

(** A new entry: held once by the client and, when it is cached, by the cache. *)
Definition new_entry (key : bytes) (hash value charge deleter : Z) (cached : bool) : LRUHandle :=
  MkHandle value deleter 0 0 0 charge key cached (if cached then 2 else 1) hash.

Lemma put_put c c' s : put_cells c' (put_cells c s) = put_cells c' s.
Proof. done. Qed.

(** The new entry at the end of the list of those in use, not in the table yet. *)
Lemma core_new s a e x c : core (l_cells s) (l_sh s) a → e ∉ nodes (l_sh s) a → e ≠ 0 → l_cells s !! e = None →
  lh_in_cache x = true → lh_refs x = 2 → Z.of_nat (size (a_cli a)) < 2 ^ 32 - 2 →
  ring c (in_use_ (l_sh s)) (a_use a ++ [e]) → lk_eq (<[e := x]> (l_cells s)) c →
  only (e :: in_use_ (l_sh s) :: a_use a) (<[e := x]> (l_cells s)) c →
  core c (l_sh s <| usage_ := u64 (usage_ (l_sh s) + lh_charge x) |>) (abs_new e a).
Proof.
  intros Hc He He0 Hfr Hxi Hxr H32 HB HK HO. pose proof (co_nodup _ _ _ Hc) as Hn. unfold nodes in *.
  assert (∀ q, q ≠ e → rc c q = rc (l_cells s) q ∧ dat_of c q = dat_of (l_cells s) q) as Hv.
  { intros q Hq. destruct (lk_eq_views _ _ q HK) as (-> & -> & _). unfold rc, dat_of. rewrite lookup_insert_ne by done. done. }
  assert (∀ q, q ≠ e → q ∉ in_use_ (l_sh s) :: a_use a → c !! q = l_cells s !! q) as Hout.
  { intros q Hq Hqu. rewrite HO by set_solver. apply lookup_insert_ne. done. }
  assert (e ∉ a_cli a) as Hecli by (rewrite (co_cli _ _ _ Hc); set_solver).
  assert (∀ q, q ∈ a_lru a ++ a_use a ++ a_det a → q ≠ e) as Hne by (intros q Hq ->; set_solver).
  split; cbn [a_lru a_use a_det a_cli abs_new].
  - eapply (nodup_sub _ (e :: nodes (l_sh s) a)); [apply NoDup_cons; done|]. unfold nodes. cbn. solve_submseteq.
  - pose proof (co_nz _ _ _ Hc) as H0. unfold nodes in *. cbn. set_solver.
  - eapply ring_ext; [|apply (co_lru _ _ _ Hc)]. intros q Hq. unfold nxt, prv. rewrite Hout; [done| |].
    + intros ->. set_solver.
    + intros Hin. assert (NoDup ((lru_ (l_sh s) :: a_lru a) ++ in_use_ (l_sh s) :: a_use a)) as Hn2
        by (eapply nodup_sub; [exact Hn|solve_submseteq]). apply NoDup_app in Hn2 as (_ & Hd & _). by apply (Hd q).
  - exact HB.
  - intros q Hq. unfold abs_new. rewrite mult_cons. destruct (decide (q = e)) as [->|Hqe].
    + destruct (lk_eq_views _ _ e HK) as (-> & _). unfold rc. rewrite lookup_insert_eq, mult_zero by done. cbn. rewrite Hxi, Hxr. done.
    + destruct (Hv q Hqe) as [-> _]. apply (co_in _ _ _ Hc). set_solver.
  - intros q Hq. assert (q ≠ e) as Hqe by (apply Hne; set_solver). unfold abs_new. rewrite mult_cons, decide_False by done.
    destruct (Hv q Hqe) as [-> _]. unfold nxt. rewrite Hout; [by apply (co_det _ _ _ Hc)|done|].
    pose proof (det_outside _ _ _ _ Hc Hq). set_solver.
  - intros q. rewrite gmultiset_elem_of_disj_union, gmultiset_elem_of_singleton, (co_cli _ _ _ Hc). set_solver.
  - rsimpl. rewrite (co_usage _ _ _ Hc), wrap_add_l. f_equal. rewrite app_assoc, (total_app c (a_lru a ++ a_use a) [e]).
    rewrite (total_ext (l_cells s) c) by (intros q Hq; apply Hv, Hne; set_solver). cbn. rewrite Z.add_0_r. f_equal.
    destruct (lk_eq_views _ _ e HK) as (_ & Hd & _). rewrite (dat_charge _ _ _ Hd). unfold charge_of. rewrite lookup_insert_eq. done.
  - rewrite gmultiset_size_disj_union, gmultiset_size_singleton. lia.
Qed.

Lemma insert_table_run s a ps e x : core (l_cells s) (l_sh s) a → tbl (l_cells s) (l_sh s) ps →
  a_lru a ++ a_use a ≡ₚ e :: ps → l_cells s !! e = Some x → Z.of_nat (length ps) < 2 ^ 31 →
  ∃ old c' t' ps', on_table (Table_Insert e) s = Ok (old, put_cells c' s <| l_sh := l_sh s <| table_ := t' |> |>) ∧
    found (l_cells s) ps (lh_key x) (lh_hash x) old ∧ core c' (l_sh s <| table_ := t' |>) a ∧
    tbl c' (l_sh s <| table_ := t' |>) ps' ∧ a_lru a ++ a_use a ≡ₚ (if old =? 0 then [] else [old]) ++ ps' ∧
    nh_eq (l_cells s) c' ∧ only (nodes (l_sh s) a) (l_cells s) c'.
Proof.
  intros Hc (bk & Ht & Hp) Hps Hx H31. assert (e ∈ a_lru a ++ a_use a) as He by (rewrite Hps; left).
  assert (NoDup (e :: ps)) as Hn.
  { rewrite <- Hps. eapply nodup_sub; [apply (co_nodup _ _ _ Hc)|]. unfold nodes. solve_submseteq. }
  apply NoDup_cons in Hn as [Hn _].
  destruct (Table_Insert_run (MkTst (l_cells s) (table_ (l_sh s))) bk e x) as (old & c' & t' & bk' & R & Hf & Ht' & Hh & Ho & Hp'); try done.
  - rewrite Hp. done.
  - eapply nodes_nz; [done|]. unfold nodes. set_solver.
  - pose proof (core_next _ _ _ e Hc He) as Hnx. unfold nxt in Hnx. rewrite Hx in Hnx. cbn in Hnx. congruence.
  - cbn. rewrite (tr_elems _ _ _ Ht), Hp. done.
  - exists old, c', t', (concat bk'). split_and!.
    + by apply on_table_run.
    + eapply found_perm; [exact Hp|done].
    + by eapply core_nh.
    + exists bk'. done.
    + rewrite Hps, <- Hp, Hp'. done.
    + done.
    + eapply only_weaken; [exact Ho|]. intros q. rewrite Hp, <- Hps. unfold nodes. set_solver.
Qed.

(** The abstract effect of caching [e] in place of [old]. *)
Definition abs_put (e old : ptr) (a : abs) : abs := if old =? 0 then abs_new e a else abs_erase old (abs_new e a).

Lemma found_dat c c' ps key hash r : (∀ p, p ∈ ps → dat_of c' p = dat_of c p) → found c' ps key hash r → found c ps key hash r.
Proof.
  intros Hd. assert (∀ p, p ∈ ps → hit c' key hash p = hit c key hash p) as Hh.
  { intros p Hp. specialize (Hd p Hp). unfold dat_of, dat, hit in *. destruct (c !! p), (c' !! p); try done. cbn in Hd.
    injection Hd as _ _ _ -> ->. done. }
  intros [[-> H]|(H0 & Hin & H)]; [left|right].
  - split; [done|]. intros p Hp. rewrite <- Hh by done. auto.
  - split_and!; [done|done|]. rewrite <- Hh; done.
Qed.

Lemma cache_entry_run s a e key hash value charge deleter : rep (l_cells s) (l_sh s) a →
  e ∉ nodes (l_sh s) a → e ≠ 0 → l_cells s !! e = None → Z.of_nat (size (a_cli a)) < 2 ^ 32 - 2 →
  Z.of_nat (length (a_lru a ++ a_use a)) < 2 ^ 31 →
  let x := new_entry key hash value charge deleter in
  ∃ old c' u' t', let a' := abs_put e old a in let sh' := with_usage u' t' (l_sh s) in
    cache_entry (l_sh s) e charge (put_cells (<[e := x false]> (l_cells s)) s) =
      Ok (tt, put_mem c' (hp_dels (l_heap s) ++ (if decide (old ∈ a_lru a) then del_of (l_cells s) old else [])) s <| l_sh := sh' |>) ∧
    found (l_cells s) (a_lru a ++ a_use a) key hash old ∧ rep c' sh' a' ∧
    only (e :: nodes (l_sh s) a) (l_cells s) c' ∧
    (∀ q, q ∈ nodes (l_sh s) a' → dat_of c' q = if decide (q = e) then Some (dat (x true)) else dat_of (l_cells s) q).
Proof.
  intros [Hc Ht] He He0 Hfr H32 H31 x. set (c := l_cells s) in *. set (sh := l_sh s) in *.
  set (c1 := <[e := x true]> c). pose proof (co_nodup _ _ _ Hc) as Hn.
  assert (∀ q, q ∈ in_use_ sh :: a_use a → q ≠ e) as Hneu by (intros q Hq ->; unfold nodes in He; set_solver).
  assert (∀ q, q ∈ a_lru a ++ a_use a → q ≠ e) as Hne by (intros q Hq ->; unfold nodes in He; set_solver).
  destruct (LRU_Append_run (put_cells c1 s) (in_use_ sh) (a_use a) e (x true)) as (c2 & R2 & HB & HK & HO).
  { eapply (ring_ext c); [|apply Hc]. intros q Hq. unfold nxt, prv.
    change (l_cells (put_cells c1 s)) with c1. unfold c1. rewrite lookup_insert_ne; [done|]. intros ->. by apply (Hneu q). }
  { eapply (nodup_sub _ (e :: nodes sh a)); [apply NoDup_cons; done|]. unfold nodes. solve_submseteq. }
  { pose proof (co_nz _ _ _ Hc) as H0. unfold nodes in H0. set_solver. }
  { apply lookup_insert_eq. }
  change (l_cells (put_cells c1 s)) with c1 in HK, HO.
  pose proof (core_new s a e (x true) c2 Hc He He0 Hfr eq_refl eq_refl H32 HB HK HO) as Hc2. fold sh in Hc2.
  set (sh1 := sh <| usage_ := u64 (usage_ sh + lh_charge (x true)) |>) in *.
  assert (∀ q, dat_of c2 q = if decide (q = e) then Some (dat (x true)) else dat_of c q) as Hd2.
  { intros q. destruct (lk_eq_views _ _ q HK) as (_ & -> & _). unfold dat_of, c1.
    destruct (decide (q = e)) as [->|Hq]; [rewrite lookup_insert_eq|rewrite lookup_insert_ne]; done. }
  assert (tbl c2 sh1 (a_lru a ++ a_use a)) as Ht2.
  { eapply tbl_ext; [|exact Ht|]; [done|]. intros q Hq. split_and!.
    - rewrite Hd2, decide_False by auto. done.
    - destruct (lk_eq_views _ _ q HK) as (_ & _ & ->). unfold nhs, c1. rewrite lookup_insert_ne; [done|]. intros ->. by apply (Hne q).
    - apply (core_next _ _ _ q Hc2). cbn. set_solver. }
  assert (only (e :: nodes sh a) c c2) as Ho2.
  { apply (only_trans _ _ c1); [apply only_insert; left|]. eapply only_weaken; [exact HO|]. unfold nodes. set_solver. }
  destruct (lk_eq_some _ _ e (x true) HK) as (y & Hy & Ey%unlink_fields); [apply lookup_insert_eq|].
  destruct Ey as (_ & _ & _ & _ & Eyk & _ & _ & Eyh).
  set (s2 := put_cells c2 s <| l_sh := sh1 |>).
  destruct (insert_table_run s2 (abs_new e a) (a_lru a ++ a_use a) e y) as (old & c3 & t3 & ps' & R3 & Hf & Hc3 & Ht3 & Hp3 & Hh3 & Ho3);
    [exact Hc2|exact Ht2|cbn; solve_Permutation|exact Hy|exact H31|].
  change (l_cells s2) with c2 in Hf, Hh3, Ho3. rewrite Eyk, Eyh in Hf.
  assert (∀ q, dat_of c3 q = if decide (q = e) then Some (dat (x true)) else dat_of c q) as Hd3.
  { intros q. destruct (nh_eq_views _ _ q Hh3) as (_ & -> & _). apply Hd2. }
  assert (only (e :: nodes sh a) c c3) as Ho3'.
  { apply (only_trans _ _ c2); [done|]. eapply only_weaken; [exact Ho3|]. unfold nodes. cbn. set_solver. }
  apply (found_dat c) in Hf; [|intros q Hq; rewrite Hd2, decide_False by auto; done].
  assert (cache_entry sh e charge (put_cells (<[e := x false]> c) s) =
    (FinishErase old ≫= fun _ => mret tt) (put_cells c3 s2 <| l_sh := l_sh s2 <| table_ := t3 |> |>)) as Hrun.
  { unfold cache_entry. eapply bind_run; [apply (store_run e (x false)); [done|exact (lookup_insert_eq _ _ _)]|].
    eapply bind_run; [eapply store_run; [done|exact (lookup_insert_eq _ _ _)]|].
    cbv beta. match goal with |- (_ ≫= _) ?st = _ => replace st with (put_cells c1 s) end.
    2: { symmetry. change (put_cells (<[e := x true]> (<[e := (x false) <| lh_refs := 2 |>]> (<[e := x false]> c))) s = put_cells c1 s).
      rewrite !insert_insert_eq. done. }
    eapply bind_run; [exact R2|]. eapply bind_run; [apply modify_run|]. eapply bind_run; [exact R3|]. done. }
  exists old. unfold abs_put. destruct (Z.eqb_spec old 0) as [->|Hold0].
  - exists c3, (usage_ sh1), t3. assert (0 ∉ a_lru a) as Hn0 by (pose proof (co_nz _ _ _ Hc) as H0; unfold nodes in H0; set_solver).
    rewrite decide_False, app_nil_r by done. split_and!; [|done| |done|auto].
    + rewrite Hrun. done.
    + split; [exact Hc3|]. eapply tbl_perm; [exact Ht3|]. rewrite Hp3. done.
  - set (s3 := put_cells c3 s2 <| l_sh := l_sh s2 <| table_ := t3 |> |>) in Hrun.
    destruct (FinishErase_run s3 (abs_new e a) old ps') as (c4 & R4 & Hr4 & Hef4); [exact Hc3|exact Ht3|exact Hp3|].
    assert (old ≠ e) as Hoe by (destruct Hf as [[? _]|(_ & Hin & _)]; auto).
    assert (dat_of c3 old = dat_of c old) as Hdo by (rewrite Hd3, decide_False; done).
    change (l_cells s3) with c3 in R4, Hr4, Hef4. rewrite (dat_charge _ _ _ Hdo) in R4, Hr4. rewrite (dat_del _ _ _ Hdo) in R4.
    exists c4, (u64 (usage_ sh1 - charge_of c old)), t3. split_and!; [|done|exact Hr4| |].
    + rewrite Hrun. eapply bind_run; [exact R4|]. done.
    + apply (only_trans _ _ c3); [done|]. eapply only_weaken; [apply Hef4|]. unfold nodes. cbn. set_solver.
    + intros q Hq. rewrite (ef_dat _ _ _ _ _ Hef4 q Hq). apply Hd3.
Qed.

Lemma lru_fuel c sh a : core c sh a → (length (a_lru a) < S (size c))%nat.
Proof.
  intros Hc. apply Nat.lt_succ_r. rewrite <- (size_dom (D := gset ptr)).
  assert (NoDup (a_lru a)) as Hn by (eapply nodup_sub; [apply (co_nodup _ _ _ Hc)|]; unfold nodes; solve_submseteq).
  rewrite <- (size_list_to_set (C := gset ptr)) by done. apply subseteq_size. intros p.
  rewrite elem_of_list_to_set, elem_of_dom. intros Hp. eapply nodes_live; [done|]. unfold nodes. set_solver.
Qed.

(** With no capacity the entry only belongs to the client. *)
Definition abs_uncached (e : ptr) (a : abs) : abs := MkAbs (a_lru a) (a_use a) (a_det a ++ [e]) ({[+ e +]} ⊎ a_cli a).

Lemma rep_uncached c sh a e x : rep c sh a → e ∉ nodes sh a → e ≠ 0 → c !! e = None → lh_in_cache x = false → lh_refs x = 1 →
  lh_next x ≠ e → Z.of_nat (size (a_cli a)) < 2 ^ 32 - 2 → rep (<[e := x]> c) sh (abs_uncached e a).
Proof.
  intros [Hc Ht] He He0 Hfr Hxi Hxr Hxn H32. pose proof (co_nodup _ _ _ Hc) as Hn.
  assert (∀ q, q ≠ e → nxt (<[e := x]> c) q = nxt c q ∧ prv (<[e := x]> c) q = prv c q ∧ rc (<[e := x]> c) q = rc c q ∧
    dat_of (<[e := x]> c) q = dat_of c q ∧ nhs (<[e := x]> c) q = nhs c q) as Hv.
  { intros q Hq. unfold nxt, prv, rc, dat_of, nhs. rewrite lookup_insert_ne by done. done. }
  assert (∀ q, q ∈ nodes sh a → q ≠ e) as Hne by (intros q Hq ->; done). unfold nodes in Hne.
  assert (e ∉ a_cli a) as Hecli by (rewrite (co_cli _ _ _ Hc); unfold nodes in He; set_solver).
  eapply (rep_intro c _ sh sh); [|exact Ht|done|done|].
  - split; cbn [a_lru a_use a_det a_cli abs_uncached].
    + eapply (nodup_sub _ (e :: nodes sh a)); [apply NoDup_cons; done|]. unfold nodes. cbn. solve_submseteq.
    + pose proof (co_nz _ _ _ Hc) as H0. unfold nodes in *. cbn. set_solver.
    + eapply ring_ext; [|apply (co_lru _ _ _ Hc)]. intros q Hq. destruct (Hv q) as (-> & -> & _); [apply Hne; set_solver|done].
    + eapply ring_ext; [|apply (co_use _ _ _ Hc)]. intros q Hq. destruct (Hv q) as (-> & -> & _); [apply Hne; set_solver|done].
    + intros q Hq. assert (q ≠ e) as Hqe by (apply Hne; set_solver). unfold abs_uncached. rewrite mult_cons, decide_False by done.
      destruct (Hv q Hqe) as (_ & _ & -> & _). by apply (co_in _ _ _ Hc).
    + intros q Hq. unfold abs_uncached. rewrite mult_cons. apply elem_of_app in Hq as [Hq| ->%list_elem_of_singleton].
      * assert (q ≠ e) as Hqe by (apply Hne; set_solver). rewrite decide_False by done.
        destruct (Hv q Hqe) as (-> & _ & -> & _). by apply (co_det _ _ _ Hc).
      * rewrite decide_True, mult_zero by done. unfold rc, nxt. rewrite lookup_insert_eq. cbn. rewrite Hxi, Hxr. split; [done|congruence].
    + intros q. rewrite gmultiset_elem_of_disj_union, gmultiset_elem_of_singleton, (co_cli _ _ _ Hc). set_solver.
    + rewrite (co_usage _ _ _ Hc). f_equal. symmetry. apply total_ext. intros q Hq. apply Hv, Hne. set_solver.
    + rewrite gmultiset_size_disj_union, gmultiset_size_singleton. lia.
  - intros q Hq. destruct (Hv q) as (_ & _ & _ & -> & ->); [apply Hne; set_solver|done].
Qed.

(** A step whose resulting state is known under another form. *)
Lemma bind_run_eq {S A B} (m : M S A) (k : A → M S B) s a s1 s2 r :
  m s = Ok (a, s1) → s1 = s2 → k a s2 = r → (m ≫= k) s = r.
Proof. intros Hm <-. by apply bind_run. Qed.

(** What [Insert] leaves before it evicts. *)
Definition abs_insert (cap : Z) (e old : ptr) (a : abs) : abs :=
  if 0 <? cap then abs_put e old a else abs_uncached e a.

Definition abs_drop (k : nat) (a : abs) : abs := MkAbs (drop k (a_lru a)) (a_use a) (a_det a) (a_cli a).

(** The state after the block, before the loop. *)
Lemma insert_block_run s a key hash value charge deleter : let e := hp_next (l_heap s) in
  let x := new_entry key hash value charge deleter (0 <? capacity_ (l_sh s)) in
  rep (l_cells s) (l_sh s) a → heap_ok (l_heap s) → Z.of_nat (size (a_cli a)) < 2 ^ 32 - 2 →
  Z.of_nat (length (a_lru a ++ a_use a)) < 2 ^ 31 →
  ∃ old c' u' t' d, let a' := abs_insert (capacity_ (l_sh s)) e old a in let sh' := with_usage u' t' (l_sh s) in
    (∀ s', s' = MkLst (MkHeap c' (e + 1) (hp_dels (l_heap s) ++ d)) sh' →
      Insert key hash value charge deleter s = (evict_loop (ring_fuel s') ≫= fun _ => mret e) s') ∧
    (0 < capacity_ (l_sh s) → found (l_cells s) (a_lru a ++ a_use a) key hash old ∧
      d = if decide (old ∈ a_lru a) then del_of (l_cells s) old else []) ∧
    (capacity_ (l_sh s) ≤ 0 → d = []) ∧
    rep c' sh' a' ∧ only (e :: nodes (l_sh s) a) (l_cells s) c' ∧
    (∀ q, q ∈ nodes (l_sh s) a' → dat_of c' q = if decide (q = e) then Some (dat x) else dat_of (l_cells s) q).
Proof.
  intros e x Hrep Hok H32 H31. destruct (fresh_out s a Hok (proj1 Hrep)) as (He & Hfr & He0). fold e in He, Hfr, He0.
  set (s1 := s <| l_heap := MkHeap (l_cells s) (e + 1) (hp_dels (l_heap s)) |>).
  assert (∀ r, ((if 0 <? capacity_ (l_sh s) then cache_entry (l_sh s) e charge else store e (fun y => y <| lh_next := 0 |>)) ≫= fun _ =>
      fuel ← gets ring_fuel; _ ← evict_loop fuel; mret e)
      (put_cells (<[e := new_entry key hash value charge deleter false]> (l_cells s)) s1) = r → Insert key hash value charge deleter s = r) as Hpre.
  { intros r Hr. unfold Insert. eapply bind_run; [reflexivity|]. fold e.
    eapply (bind_run_eq _ _ _ _ _ (put_cells (<[e := new_entry key hash value charge deleter false]> (l_cells s)) s1));
      [apply (store_run e raw_handle); [done|exact (lookup_insert_eq _ _ _)]| |].
    - change (put_cells (<[e := new_entry key hash value charge deleter false]> (<[e := raw_handle]> (l_cells s))) s1 =
              put_cells (<[e := new_entry key hash value charge deleter false]> (l_cells s)) s1). rewrite insert_insert_eq. done.
    - eapply bind_run; [apply gets_run|]. exact Hr. }
  unfold abs_insert, x. clear x. destruct (Z.ltb_spec 0 (capacity_ (l_sh s))) as [Hcap|Hcap].
  - destruct (cache_entry_run s1 a e key hash value charge deleter) as (old & c' & u' & t' & R & Hf & Hr & Ho & Hd); [done..|].
    eexists old, c', u', t', _. split_and!; [|intros _; split; [exact Hf|reflexivity]|lia|exact Hr|exact Ho|exact Hd].
    intros s' ->. apply Hpre. eapply bind_run; [exact R|]. eapply bind_run; [apply gets_run|]. done.
  - set (y := new_entry key hash value charge deleter false).
    exists 0, (<[e := y]> (l_cells s)), (usage_ (l_sh s)), (table_ (l_sh s)), []. rewrite with_usage_id, app_nil_r.
    split_and!; [|lia|done|apply rep_uncached; try done; congruence|apply only_insert; left|].
    + intros s' ->. apply Hpre. eapply (bind_run_eq _ _ _ _ _ (MkLst (MkHeap (<[e := y]> (l_cells s)) (e + 1) (hp_dels (l_heap s))) (l_sh s)));
        [apply (store_run e y); [done|exact (lookup_insert_eq _ _ _)]| |].
      * change (put_cells (<[e := y]> (<[e := y]> (l_cells s))) s1 = MkLst (MkHeap (<[e := y]> (l_cells s)) (e + 1) (hp_dels (l_heap s))) (l_sh s)).
        rewrite insert_insert_eq. done.
      * eapply bind_run; [apply gets_run|]. reflexivity.
    + intros q Hq. unfold dat_of. destruct (decide (q = e)) as [->|Hqe]; [rewrite lookup_insert_eq|rewrite lookup_insert_ne]; done.
Qed.

Lemma concat_bind {A B} (f : A → list B) l : concat (f <$> l) = l ≫= f.
Proof. induction l as [|x l IH]; [done|]. cbn. by rewrite <- IH. Qed.

(** ** Operations on a whole state *)

Definition ok (s : lst) (a : abs) : Prop := rep (l_cells s) (l_sh s) a ∧ heap_ok (l_heap s).

Lemma heap_ok_only h c' d' D : heap_ok h → only D (hp_cells h) c' → (∀ p, p ∈ D → p < hp_next h) →
  heap_ok (MkHeap c' (hp_next h) d').
Proof.
  intros [H0 Hf] Ho HD. split; [done|]. cbn. intros p Hp. destruct (decide (p ∈ D)) as [Hin|Hout]; [auto|].
  rewrite Ho in Hp by done. auto.
Qed.

Lemma nodes_old s a p : ok s a → p ∈ nodes (l_sh s) a → p < hp_next (l_heap s).
Proof. intros [[Hc _] [_ Hf]] Hp. apply Hf. eapply nodes_live; done. Qed.

Lemma heap_ok_step s a c' d' : ok s a → only (nodes (l_sh s) a) (l_cells s) c' → heap_ok (MkHeap c' (hp_next (l_heap s)) d').
Proof. intros Hok Ho. eapply heap_ok_only; [apply Hok|exact Ho|]. intros p Hp. by eapply nodes_old. Qed.

Lemma abs_insert_nodes sh cap e old a q : q ∈ nodes sh (abs_insert cap e old a) → q = e ∨ q ∈ nodes sh a.
Proof.
  unfold abs_insert, abs_put, abs_uncached, abs_erase, abs_new, nodes.
  destruct (0 <? cap), (old =? 0); cbn; try (set_solver).
  assert (∀ l, q ∈ without old l → q ∈ l) as Hw by (intros l Hl; apply elem_of_without in Hl as [_ ?]; done).
  rewrite !elem_of_cons, !elem_of_app. intros [->|[->|[Hq|[Hq|Hq]]]]; [set_solver..|apply Hw in Hq; set_solver|apply Hw in Hq; set_solver|].
  destruct (decide (old ∈ a_use a ++ [e])); set_solver.
Qed.

(** [Insert]: the entry with the key is replaced, then the oldest entries are
    evicted while the charge passes the capacity. *)
Lemma Insert_run s a key hash value charge deleter : let e := hp_next (l_heap s) in
  let cap := capacity_ (l_sh s) in
  ok s a → Z.of_nat (size (a_cli a)) < 2 ^ 32 - 2 → Z.of_nat (length (a_lru a ++ a_use a)) < 2 ^ 31 →
  ∃ old k s', let a1 := abs_insert cap e old a in let a' := abs_drop k a1 in
    Insert key hash value charge deleter s = Ok (e, s') ∧ ok s' a' ∧
    (∃ u t, l_sh s' = with_usage u t (l_sh s) ∧ (u ≤ cap ∨ a_lru a' = [])) ∧
    hp_next (l_heap s') = e + 1 ∧
    (0 < cap → found (l_cells s) (a_lru a ++ a_use a) key hash old) ∧ (k ≤ length (a_lru a1))%nat ∧
    only (e :: nodes (l_sh s) a) (l_cells s) (l_cells s') ∧
    (∀ q, q ∈ nodes (l_sh s) a' → dat_of (l_cells s') q =
       if decide (q = e) then Some (value, deleter, charge, key, hash) else dat_of (l_cells s) q) ∧
    (∀ j, (j < k)%nat → cap < u64 (total (<[e := new_entry key hash value charge deleter true]> (l_cells s)) (drop j (a_lru a1) ++ a_use a1))) ∧
    hp_dels (l_heap s') = hp_dels (l_heap s) ++
      (((if decide (0 < cap ∧ old ∈ a_lru a) then [old] else []) ++ take k (a_lru a1)) ≫= del_of (l_cells s)).
Proof.
  intros e cap Hok H32 H31. pose proof Hok as [Hrep Hh].
  destruct (insert_block_run s a key hash value charge deleter Hrep Hh H32 H31) as (old & c1 & u1 & t1 & d1 & R & Hf & Hcap0 & Hrep1 & Ho1 & Hd1).
  fold e cap in R, Hf, Hcap0, Hrep1, Ho1, Hd1. set (sh1 := with_usage u1 t1 (l_sh s)) in *.
  set (s1 := MkLst (MkHeap c1 (e + 1) (hp_dels (l_heap s) ++ d1)) sh1). specialize (R s1 eq_refl).
  destruct (evict_loop_run (a_lru (abs_insert cap e old a)) (ring_fuel s1) s1 (abs_insert cap e old a))
    as (k & c' & u' & t' & R' & Hrep' & Hef & Hk & Hu & Hj); [exact Hrep1|done|eapply lru_fuel; apply Hrep1|].
  apply (effect_sh _ (l_sh s)) in Hef; [|done|done]. change (l_cells s1) with c1 in *.
  assert (∀ q, q ∈ nodes (l_sh s) (abs_insert cap e old a) → q = e ∨ q ∈ nodes (l_sh s) a) as Hsub.
  { intros q Hq. eapply abs_insert_nodes. exact Hq. }
  assert (only (e :: nodes (l_sh s) a) (l_cells s) c') as Ho.
  { apply (only_trans _ _ c1); [done|]. eapply only_weaken; [apply Hef|]. intros q Hq. apply elem_of_cons. auto. }
  exists old, k, (put_mem c' (hp_dels (l_heap s1) ++ concat (del_of c1 <$> take k (a_lru (abs_insert cap e old a)))) s1 <| l_sh := with_usage u' t' sh1 |>).
  split_and!.
  - rewrite R. eapply bind_run; [exact R'|]. done.
  - split; [exact Hrep'|]. eapply (heap_ok_only (MkHeap (l_cells s) (e + 1) [])); [|exact Ho|].
    + destruct Hh as [H0 Hlt]. split; cbn; [unfold e; lia|]. intros p Hp. specialize (Hlt p Hp). unfold e. lia.
    + intros p [->|Hp]%elem_of_cons; cbn; [lia|]. pose proof (nodes_old _ _ _ Hok Hp). unfold e. lia.
  - exists u', t'. split; [done|exact Hu].
  - done.
  - intros Hcap. apply Hf. done.
  - exact Hk.
  - exact Ho.
  - intros q Hq. etransitivity; [exact (ef_dat _ _ _ _ _ Hef q Hq)|]. apply Hd1.
    revert Hq. unfold nodes, abs_drop. cbn. rewrite !elem_of_cons, !elem_of_app. pose proof (subseteq_drop k (a_lru (abs_insert cap e old a)) q). tauto.
  - intros j Hjk. specialize (Hj j Hjk). rewrite (total_ext (<[e := new_entry key hash value charge deleter true]> (l_cells s)) c1) in Hj; [done|].
    intros q Hq. rewrite Hd1.
    + unfold dat_of. destruct (decide (q = e)) as [->|Hqe]; [rewrite lookup_insert_eq|rewrite lookup_insert_ne]; [|done..].
      unfold new_entry. done.
    + unfold nodes. rewrite !elem_of_cons, !elem_of_app. apply elem_of_app in Hq as [Hq|Hq]; [|tauto].
      pose proof (subseteq_drop j (a_lru (abs_insert cap e old a)) q). tauto.
  - change (hp_dels (l_heap (put_mem ?c ?d s1 <| l_sh := ?x |>))) with d. change (hp_dels (l_heap s1)) with (hp_dels (l_heap s) ++ d1).
    rewrite <- app_assoc. f_equal. rewrite bind_app. f_equal.
    + destruct (Z.le_gt_cases cap 0) as [Hle|Hgt]; [rewrite decide_False by lia; auto|]. destruct (Hf ltac:(lia)) as [_ ->].
      destruct (decide (old ∈ a_lru a)); [rewrite decide_True by (split; [lia|done])|rewrite decide_False by tauto; done].
      cbn. rewrite app_nil_r. done.
    + rewrite concat_bind. apply Forall_bind_ext, Forall_forall. intros q Hq%subseteq_take.
      apply dat_del. rewrite Hd1 by (unfold nodes; set_solver). rewrite decide_False; [done|]. intros ->.
      apply (proj1 (fresh_out s a Hh (proj1 Hrep))). fold e. unfold nodes. apply elem_of_cons. right. apply elem_of_cons. right. apply elem_of_app. left.
      revert Hq. unfold abs_insert, abs_put, abs_erase, abs_new, abs_uncached. destruct (0 <? cap), (old =? 0); cbn; try done. by intros [_ ?]%elem_of_without.
Qed.

(** ** Construction and destruction *)

Definition abs0 : abs := MkAbs [] [] [] ∅.

(** The constructor gives an empty cache of capacity 0; [SetCapacity] follows. *)
Lemma LRUCache_new_run s : heap_ok (l_heap s) → let n := hp_next (l_heap s) in
  ∃ s', LRUCache_new s = Ok (tt, s') ∧ ok s' abs0 ∧ hp_next (l_heap s') = n + 2 ∧ hp_dels (l_heap s') = hp_dels (l_heap s) ∧
    lru_ (l_sh s') = n ∧ in_use_ (l_sh s') = n + 1 ∧ only [n; n + 1] (l_cells s) (l_cells s') ∧
    usage_ (l_sh s') = 0 ∧ (∀ p, p ∈ [n; n + 1] → rc (l_cells s') p = Some (false, 0)).
Proof.
  intros [H0 Hf] n. set (hd p := raw_handle <| lh_next := p |> <| lh_prev := p |>).
  set (c2 := <[n + 1 := hd (n + 1)]> (<[n := hd n]> (l_cells s))).
  assert (n ≠ 0 ∧ n + 1 ≠ 0 ∧ n ≠ n + 1) as (Hn0 & Hn1 & Hnn) by (unfold n; lia).
  set (h2 := MkHeap c2 (n + 2) (hp_dels (l_heap s))). set (sh := MkCache 0 0 n (n + 1) (MkTable 0 0 [])).
  destruct (HandleTable_new_run (MkTst c2 (MkTable 0 0 []))) as (t & Rt & bk & Ht & Hbk).
  exists (MkLst h2 (sh <| table_ := t |>)). 
  assert (LRUCache_new s = on_table HandleTable_new (MkLst h2 sh)) as ->.
  { unfold LRUCache_new. eapply bind_run; [reflexivity|]. fold n. eapply bind_run; [reflexivity|].
    eapply bind_run; [apply modify_run|].
    set (c0 := <[n + 1 := raw_handle]> (<[n := raw_handle]> (l_cells s))).
    eapply (bind_run_eq _ _ _ _ _ (MkLst (MkHeap (<[n := raw_handle <| lh_next := n |>]> c0) (n + 2) (hp_dels (l_heap s))) sh)).
    { apply (store_run n raw_handle); [done|]. change (c0 !! n = Some raw_handle). unfold c0. rewrite lookup_insert_ne, lookup_insert_eq by done. done. }
    { unfold sh. replace (n + 2) with (n + 1 + 1) by lia. done. }
    eapply (bind_run_eq _ _ _ _ _ (MkLst (MkHeap (<[n := hd n]> c0) (n + 2) (hp_dels (l_heap s))) sh)).
    { eapply store_run; [done|]. apply lookup_insert_eq. }
    { change (MkLst (MkHeap (<[n := hd n]> (<[n := raw_handle <| lh_next := n |>]> c0)) (n + 2) (hp_dels (l_heap s))) sh =
              MkLst (MkHeap (<[n := hd n]> c0) (n + 2) (hp_dels (l_heap s))) sh). rewrite insert_insert_eq. done. }
    assert (<[n := hd n]> c0 !! (n + 1) = Some raw_handle) as Hu.
    { unfold c0. rewrite lookup_insert_ne, lookup_insert_eq by done. done. }
    eapply bind_run; [apply (store_run (n + 1) raw_handle); [done|exact Hu]|].
    eapply (bind_run_eq _ _ _ _ _ (MkLst h2 sh)); [eapply store_run; [done|apply lookup_insert_eq]| |done].
    change (MkLst (MkHeap (<[n + 1 := hd (n + 1)]> (<[n + 1 := raw_handle <| lh_next := n + 1 |>]> (<[n := hd n]> c0))) (n + 2) (hp_dels (l_heap s))) sh = MkLst h2 sh).
    unfold h2, c2, c0. rewrite insert_insert_eq, (insert_insert_ne _ n (n + 1)), !insert_insert_eq by done. done. }
  assert (c2 !! n = Some (hd n)) as Hcn by (unfold c2; rewrite lookup_insert_ne, lookup_insert_eq by done; done).
  assert (c2 !! (n + 1) = Some (hd (n + 1))) as Hcn1 by apply lookup_insert_eq.
  split_and!; try done.
  - apply (on_table_run HandleTable_new (MkLst h2 sh) tt c2 t Rt).
  - split; [split|].
    + split; cbn; try done.
      * change (NoDup [n; n + 1]). repeat constructor; set_solver.
      * change (0 ∉ [n; n + 1]). set_solver.
      * change (ring c2 n []). unfold ring, nxt, prv. cbn. rewrite Hcn. done.
      * change (ring c2 (n + 1) []). unfold ring, nxt, prv. cbn. rewrite Hcn1. done.
      * intros p Hp. by apply not_elem_of_nil in Hp.
      * intros p Hp. by apply not_elem_of_nil in Hp.
      * intros p. rewrite gmultiset_elem_of_empty, elem_of_nil. done.
    + exists bk. split; [exact Ht|]. rewrite Hbk. done.
    + split; cbn; [unfold n; lia|]. intros p [x Hx]. unfold c2 in Hx. apply lookup_insert_Some in Hx as [[<- _]|[_ Hx]]; [lia|].
      apply lookup_insert_Some in Hx as [[<- _]|[_ Hx]]; [lia|]. specialize (Hf p (ex_intro _ x Hx)). unfold n. lia.
  - intros p Hp. change (c2 !! p = l_cells s !! p). unfold c2. rewrite !lookup_insert_ne; set_solver.
  - intros p. change (l_cells _) with c2. unfold rc. rewrite elem_of_cons, list_elem_of_singleton. intros [->| ->]; [rewrite Hcn|rewrite Hcn1]; done.
Qed.

(** The loop of the destructor frees the entries in order. *)
Lemma destroy_loop_run l : ∀ fuel s, let z := lru_ (l_sh s) in let c := l_cells s in
  linked (nxt c) (l ++ [z]) → (∀ p, p ∈ l → rc c p = Some (true, 1)) → NoDup l → z ∉ l → 0 ∉ l → (length l < fuel)%nat →
  ∃ c', destroy_loop fuel (default z (head l)) s =
      Ok (tt, put_mem c' (hp_dels (l_heap s) ++ concat (del_of c <$> l)) s) ∧
    (∀ p, c' !! p = if decide (p ∈ l) then None else c !! p).
Proof.
  induction l as [|p l IH]; intros fuel s z c Hl Hrc Hn Hz H0 Hf; (destruct fuel as [|fuel]; [cbn in Hf; lia|]); cbn [destroy_loop].
  - exists c. split; [|done]. eapply bind_run; [apply gets_run|]. change (default z (head [])) with z. fold z.
    rewrite Z.eqb_refl. cbn [fmap list_fmap concat]. unfold c. rewrite app_nil_r, put_mem_id. done.
  - apply NoDup_cons in Hn as [Hpl Hn]. destruct (rc_some _ _ _ _ (Hrc p ltac:(left))) as (x & Hx & Hxi & Hxr).
    assert (lh_next x = default z (head l)) as Hxn.
    { assert (nxt c p = Some (default z (head l))) as Hnx by (destruct l; cbn in *; tauto).
      unfold nxt in Hnx. rewrite Hx in Hnx. cbn in Hnx. congruence. }
    assert (default z (head l) ≠ p) as Hnp by (destruct l; cbn; intros ->; set_solver).
    assert (p ≠ 0 ∧ p ≠ z) as [Hp0 Hpz] by (split; intros ->; set_solver).
    set (s1 := put_mem (delete p c) (hp_dels (l_heap s) ++ del_of c p) s).
    assert (∀ q, q ∈ l → q ≠ p) as Hne by (intros q Hq ->; done).
    destruct (IH fuel s1) as (c' & R & Hc'); [| |done|set_solver|set_solver|cbn in Hf; lia|].
    { eapply linked_ext; [|destruct l; [done|apply Hl]]. intros q Hq. apply delete_views. auto. }
    { intros q Hq. change (rc (delete p c) q = Some (true, 1)). destruct (delete_views c p q) as (_ & _ & _ & _ & ->); [auto|]. apply Hrc. right. done. }
    exists c'. change (l_cells s1) with (delete p c) in R, Hc'. change (lru_ (l_sh s1)) with z in R. split.
    + eapply bind_run; [apply gets_run|]. change (default z (head (p :: l))) with p. fold z. rewrite (proj2 (Z.eqb_neq _ _) Hpz).
      eapply bind_run; [apply (deref_run p x); done|]. eapply bind_run; [apply assert_run; done|].
      eapply bind_run; [apply (store_run p x); done|]. eapply bind_run; [apply assert_run; apply Z.eqb_eq; done|].
      cbv beta. rewrite (rc_in x false 1) by done.
      eapply (bind_run_eq _ _ _ _ _ s1); [apply (Unref_free_run _ p (rc_set x false 1)); [done|apply lookup_insert_eq|done|done|change (lh_next x ≠ p); congruence]| |].
      * unfold s1, del_of. rewrite Hx. change (l_cells (with_cells ?f s)) with (f c). cbv beta. rewrite lookup_insert_eq, delete_insert_eq. done.
      * rewrite Hxn. etransitivity; [exact R|]. change (hp_dels (l_heap s1)) with (hp_dels (l_heap s) ++ del_of c p). cbn [fmap list_fmap concat].
        replace (del_of (delete p c) <$> l) with (del_of c <$> l); [rewrite <- app_assoc; done|].
        apply list_fmap_ext. intros i q Hq%list_elem_of_lookup_2. symmetry. apply dat_del, delete_views. auto.
    + intros q. rewrite Hc'. destruct (decide (q ∈ l)) as [Hq|Hq].
      * rewrite decide_True by set_solver. done.
      * destruct (decide (q = p)) as [->|Hqp]; [rewrite lookup_delete_eq, decide_True by set_solver; done|].
        rewrite lookup_delete_ne, decide_False by set_solver. done.
Qed.

(** When no client holds a handle the destructor passes its checks, and every
    entry is handed to its deleter once, oldest first. *)
Lemma LRUCache_delete_run s a : ok s a → a_cli a = ∅ →
  ∃ c', LRUCache_delete s = Ok (tt, put_mem c' (hp_dels (l_heap s) ++ concat (del_of (l_cells s) <$> a_lru a)) s) ∧
    (∀ p, c' !! p = if decide (p ∈ a_lru a) then None else l_cells s !! p).
Proof.
  intros [[Hc Ht] Hh] Hcli. pose proof (co_nodup _ _ _ Hc) as Hn. unfold nodes in Hn.
  assert (∀ p, p ∉ a_use a) as Hnu.
  { intros p Hp. assert (p ∈ a_cli a) as Hin by (apply Hc; set_solver). rewrite Hcli in Hin. by apply gmultiset_elem_of_empty in Hin. }
  assert (a_use a = []) as Eu by (destruct (a_use a) as [|p]; [done|]; destruct (Hnu p); left).
  pose proof (co_use _ _ _ Hc) as [Hu _]. rewrite Eu in Hu. cbn in Hu. destruct Hu as [Hu _]. apply nxt_some in Hu as (u & Hu & Hun).
  destruct (lru_next_run s a (conj Hc Ht)) as (x & Rx & Hx).
  destruct (destroy_loop_run (a_lru a) (ring_fuel s) s) as (c' & R & Hc').
  - pose proof (co_lru _ _ _ Hc) as [Hl _]. destruct (a_lru a); [done|apply Hl].
  - intros p Hp. rewrite (co_in _ _ _ Hc) by set_solver. rewrite mult_zero; [done|]. rewrite Hcli, gmultiset_elem_of_empty. tauto.
  - eapply nodup_sub; [exact Hn|solve_submseteq].
  - apply NoDup_cons in Hn as [Hn _]. set_solver.
  - pose proof (co_nz _ _ _ Hc) as H0. unfold nodes in H0. set_solver.
  - eapply lru_fuel. done.
  - exists c'. split; [|done]. unfold LRUCache_delete. eapply bind_run; [apply gets_run|].
    eapply bind_run; [apply (deref_run (in_use_ (l_sh s)) u); [|done]; eapply nodes_nz; [done|]; unfold nodes; set_solver|].
    eapply bind_run; [apply assert_run, Z.eqb_eq; done|]. eapply bind_run; [exact Rx|]. eapply bind_run; [apply gets_run|].
    rewrite Hx. destruct (a_lru a); exact R.
Qed.

End LruOps.
