(* ===== verification/LruShard.v ===== *)
(** * leveldb's sharded LRU cache (src/ic-dpi/ic-leveldb/util/cache.cc)

    The class [ShardedLRUCache]: sixteen [LRUCache]s over one heap, the shard of a
    key chosen by the high bits of its hash.  [contents] walks the tables and is
    the map from keys to values that can be looked up; the theorems say what each
    operation does to it.  The last part is the cache as the dpi uses it: it
    discharges the interface [DpiMeter.LruCache] that the theorems about the meter
    are proved against. *)

From S2P Require Import Prelude LruTable LruCache LruInv LruOps.
From stdpp Require Import base gmap gmultiset list strings.
From Stdlib Require Import ZArith Lia.
Import LruTable LruCache LruInv LruOps.

Open Scope Z_scope.

Module LruShard.

Record cst := MkCst {
  cs_heap : heap;
  cs_shard : list LRUCache;
  cs_last_id : Z;            (* uint64_t *)
}.

#[export] Instance eta_cst : Eta cst := fun x => MkCst (cs_heap x) (cs_shard x) (cs_last_id x).

#[export] Instance has_cells_cst : HasCells cst := {|
  the_cells s := hp_cells (cs_heap s);
  with_cells f s := s <| cs_heap := cs_heap s <| hp_cells := f (hp_cells (cs_heap s)) |> |>;
|}.

Definition kNumShardBits : Z := 4.
Definition kNumShards : Z := Z.shiftl 1 kNumShardBits.

Definition HashSlice (s : bytes) : Z := Hash s 0.
Definition Shard (hash : Z) : Z := Z.shiftr hash (32 - kNumShardBits).

(** A call of a member of [shard_[i]]. *)
Definition on_shard {A} (i : Z) (m : M lst A) : M cst A := fun s =>
  if i <? 0 then Bad OutOfBounds else
  match cs_shard s !! Z.to_nat i with
  | None => Bad OutOfBounds
  | Some sh =>
    match m (MkLst (cs_heap s) sh) with
    | Ok (a, l) => Ok (a, s <| cs_heap := l_heap l |> <| cs_shard := <[Z.to_nat i := l_sh l]> (cs_shard s) |>)
    | Bad f => Bad f
    end
  end.

(** An [LRUCache] of the array is constructed. *)
Definition construct_shard : M cst unit := fun s =>
  match LRUCache_new (MkLst (cs_heap s) (MkCache 0 0 0 0 (MkTable 0 0 []))) with
  | Ok (_, l) => Ok (tt, s <| cs_heap := l_heap l |> <| cs_shard := cs_shard s ++ [l_sh l] |>)
  | Bad f => Bad f
  end.

Fixpoint repeat_m {S} (n : nat) (m : M S unit) : M S unit :=
  match n with O => mret tt | S n' => _ ← m; repeat_m n' m end.

(** [for (int s = from; s < from + n; s++)] *)
Fixpoint for_shards {S} (from : Z) (n : nat) (f : Z → M S unit) : M S unit :=
  match n with O => mret tt | S n' => _ ← f from; for_shards (from + 1) n' f end.

Definition per_shard (capacity : Z) : Z := u64 (capacity + (kNumShards - 1)) / kNumShards.

(** [NewLRUCache(capacity)]: the members are constructed, then the body runs. *)
Definition NewLRUCache (capacity : Z) : M cst unit :=
  _ ← modify (fun s => s <| cs_shard := [] |>);
  _ ← repeat_m (Z.to_nat kNumShards) construct_shard;
  _ ← modify (fun s => s <| cs_last_id := 0 |>);
  for_shards 0 (Z.to_nat kNumShards) (fun i => on_shard i (SetCapacity (per_shard capacity))).

Definition Cache_Insert (key : bytes) (value charge deleter : Z) : M cst ptr :=
  let hash := HashSlice key in
  on_shard (Shard hash) (Insert key hash value charge deleter).

Definition Cache_Lookup (key : bytes) : M cst ptr :=
  let hash := HashSlice key in
  on_shard (Shard hash) (Lookup key hash).

Definition Cache_Release (handle : ptr) : M cst unit :=
  h ← deref handle;
  on_shard (Shard (lh_hash h)) (Release handle).

Definition Cache_Erase (key : bytes) : M cst unit :=
  let hash := HashSlice key in
  on_shard (Shard hash) (Erase key hash).

Definition Cache_Value (handle : ptr) : M cst Z :=
  h ← deref handle;
  mret (lh_value h).

Definition Cache_NewId : M cst Z :=
  _ ← modify (fun s => s <| cs_last_id := u64 (cs_last_id s + 1) |>);
  gets cs_last_id.

Definition Cache_Prune : M cst unit := for_shards 0 (Z.to_nat kNumShards) (fun i => on_shard i Prune).

Fixpoint total_loop (from : Z) (n : nat) (total : Z) : M cst Z :=
  match n with
  | O => mret total
  | S n' => u ← on_shard from TotalCharge; total_loop (from + 1) n' (u64 (total + u))
  end.

Definition Cache_TotalCharge : M cst Z := total_loop 0 (Z.to_nat kNumShards) 0.

(** [~ShardedLRUCache]: the shards are destroyed, the last of the array first. *)
Fixpoint destroy_shards (n : nat) : M cst unit :=
  match n with
  | O => mret tt
  | S n' => _ ← on_shard (Z.of_nat n') LRUCache_delete; destroy_shards n'
  end.

Definition Cache_delete : M cst unit := destroy_shards (Z.to_nat kNumShards).

(** ** Contents *)

(** The entries of a chain. *)
Fixpoint walk (fuel : nat) (c : cells) (p : ptr) : list ptr :=
  match fuel with
  | O => []
  | S fuel' =>
    if p =? 0 then [] else
    match c !! p with Some x => p :: walk fuel' c (lh_next_hash x) | None => [] end
  end.

Definition entries (c : cells) (sh : LRUCache) : list ptr :=
  t_list_ (table_ sh) ≫= walk (S (size c)) c.

Definition kv (c : cells) (p : ptr) : option (bytes * Z) := (fun x => (lh_key x, lh_value x)) <$> c !! p.

(** The keys and values in the tables. *)
Definition contents (s : cst) : gmap bytes Z :=
  let c := hp_cells (cs_heap s) in
  list_to_map (omap (kv c) (cs_shard s ≫= entries c)).

(** ** A session *)

Definition cst0 : cst := MkCst (MkHeap ∅ 1 []) [] 0.

(** [test_lvldb] of the dpi: a cache of capacity 1, each entry released before the
    next is inserted.  The values are the addresses of the locals. *)
Definition insert_release (key : bytes) (v : Z) : M cst unit :=
  h ← Cache_Insert key v 1 0;
  Cache_Release h.

Definition test_lvldb : M cst unit :=
  _ ← NewLRUCache 1;
  _ ← insert_release (bs "k1") 1001;
  _ ← insert_release (bs "k2") 1002;
  _ ← insert_release (bs "k3") 1003;
  _ ← insert_release (bs "k4") 1003;
  insert_release (bs "k5") 1003.

(** Each key has a shard of its own there: nothing is evicted and no deleter runs. *)
Example test_lvldb_keeps : ∃ s, test_lvldb cst0 = Ok (tt, s) ∧ hp_dels (cs_heap s) = [] ∧
  bs "k1" ∈ dom (contents s) ∧ size (contents s) = 5%nat.
Proof. eexists. split_and!; [vm_compute; reflexivity|..]; by_decide. Qed.

(** The vectors of hash_test.cc. *)
Example hash_vectors :
  Hash [] 0xbc9f1d34 = 0xbc9f1d34 ∧ Hash [0x62] 0xbc9f1d34 = 0xef1345c4 ∧
  Hash [0xc3; 0x97] 0xbc9f1d34 = 0x5b663814 ∧ Hash [0xe2; 0x99; 0xa5] 0xbc9f1d34 = 0x323c078f ∧
  Hash [0xe1; 0x80; 0xb9; 0x32] 0xbc9f1d34 = 0xed21633a.
Proof. vm_compute. done. Qed.

(** ** Invariant *)

(** The entry [p] has the hash of its key, and belongs to shard [i]. *)
Definition homed (c : cells) (i : nat) (p : ptr) : Prop :=
  ∃ x, c !! p = Some x ∧ lh_hash x = HashSlice (lh_key x) ∧ Shard (lh_hash x) = Z.of_nat i.

Definition held (a : abs) : list ptr := a_lru a ++ a_use a ++ a_det a.

Record cinv (s : cst) (As : list abs) : Prop := {
  ci_count : length (cs_shard s) = Z.to_nat kNumShards;
  ci_length : length As = length (cs_shard s);
  ci_rep : ∀ i sh a, cs_shard s !! i = Some sh → As !! i = Some a → rep (hp_cells (cs_heap s)) sh a;
  ci_heap : heap_ok (cs_heap s);
  ci_disjoint : ∀ i j sh a sh' a' p, cs_shard s !! i = Some sh → As !! i = Some a →
    cs_shard s !! j = Some sh' → As !! j = Some a' → p ∈ nodes sh a → p ∈ nodes sh' a' → i = j;
  ci_home : ∀ i a p, As !! i = Some a → p ∈ held a → homed (hp_cells (cs_heap s)) i p;
}.

(** The handles of clients in all shards. *)
Fixpoint handles (As : list abs) : gmultiset ptr :=
  match As with [] => ∅ | a :: As' => a_cli a ⊎ handles As' end.

(** The entries of the tables. *)
Definition cached (As : list abs) : list ptr := As ≫= fun a => a_lru a ++ a_use a.

Lemma nodes_only c c' sh a D : rep c sh a → only D c c' → (∀ p, p ∈ nodes sh a → p ∉ D) → rep c' sh a.
Proof.
  intros [Hc Ht] Ho HD. assert (∀ p, p ∈ nodes sh a → c' !! p = c !! p) as He by (intros p Hp; apply Ho; auto).
  assert (∀ p, p ∈ lru_ sh :: a_lru a ∨ p ∈ in_use_ sh :: a_use a ∨ p ∈ held a → p ∈ nodes sh a) as Hin
    by (unfold nodes, held; set_solver).
  eapply (rep_intro c c' sh sh); [|exact Ht|done|done|].
  - split; try apply Hc.
    + eapply ring_ext; [|apply Hc]. intros p Hp. unfold nxt, prv. rewrite He by auto. done.
    + eapply ring_ext; [|apply (co_use _ _ _ Hc)]. intros p Hp. unfold nxt, prv. rewrite He by auto. done.
    + intros p Hp. unfold rc. rewrite He by (apply Hin; unfold held; set_solver). by apply (co_in _ _ _ Hc).
    + intros p Hp. unfold rc, nxt. rewrite He by (apply Hin; unfold held; set_solver). by apply (co_det _ _ _ Hc).
    + rewrite (co_usage _ _ _ Hc). f_equal. symmetry. apply total_ext. intros p Hp. unfold dat_of.
      rewrite He by (apply Hin; unfold held; set_solver). done.
  - intros p Hp. unfold dat_of, nhs. rewrite He by (apply Hin; unfold held; set_solver). done.
Qed.

Lemma homed_dat c c' i p : homed c i p → dat_of c' p = dat_of c p → homed c' i p.
Proof.
  intros (x & Hx & Hh & Hs) Hd. destruct (dat_some _ _ _ _ Hd Hx) as (y & Hy & Ed). exists y.
  unfold dat in Ed. injection Ed as _ _ _ Ek Eh. rewrite Ek, Eh. done.
Qed.

Lemma held_nodes sh a p : p ∈ held a → p ∈ nodes sh a.
Proof. unfold held, nodes. set_solver. Qed.

(** An operation of one shard keeps the invariant of all. *)
Lemma cinv_step s As i sh a l' a' : cinv s As → cs_shard s !! i = Some sh → As !! i = Some a →
  let e := hp_next (cs_heap s) in let c := hp_cells (cs_heap s) in
  rep (l_cells l') (l_sh l') a' → heap_ok (l_heap l') → lru_ (l_sh l') = lru_ sh → in_use_ (l_sh l') = in_use_ sh →
  only (e :: nodes sh a) c (l_cells l') → (∀ p, p ∈ held a' → p = e ∨ p ∈ held a) →
  (∀ p, p ∈ held a' → homed (l_cells l') i p) →
  cinv (s <| cs_heap := l_heap l' |> <| cs_shard := <[i := l_sh l']> (cs_shard s) |>) (<[i := a']> As).
Proof.
  intros Hi Hsh Ha e c Hrep Hok E1 E2 Ho Hsub Hhome.
  assert (i < length (cs_shard s))%nat as Hlt by (eapply lookup_lt_Some; done).
  assert (i < length As)%nat as Hlt' by (eapply lookup_lt_Some; done).
  assert (∀ p, p ∈ nodes (l_sh l') a' → p = e ∨ p ∈ nodes sh a) as Hn.
  { intros p. unfold nodes. rewrite E1, E2, !elem_of_cons. intros [->|[->|Hp]]; [auto..|].
    destruct (Hsub p Hp) as [->|?]; auto. }
  assert (∀ j sh' a1 p, j ≠ i → cs_shard s !! j = Some sh' → As !! j = Some a1 → p ∈ nodes sh' a1 → p ∉ e :: nodes sh a) as Hdis.
  { intros j sh' a1 p Hji Hj Ha1 Hp [->|Hp']%elem_of_cons.
    - pose proof (nodes_live _ _ _ _ (proj1 (ci_rep _ _ Hi j sh' a1 Hj Ha1)) Hp) as Hl. apply (proj2 (ci_heap _ _ Hi)) in Hl. unfold e in Hl. lia.
    - apply Hji. eapply (ci_disjoint _ _ Hi j i); done. }
  split; rsimpl.
  - rewrite length_insert. apply Hi.
  - rewrite !length_insert. apply Hi.
  - intros j sh' a1 Hj Ha1. destruct (decide (i = j)) as [<-|Hij].
    + rewrite list_lookup_insert_eq in Hj by done. rewrite list_lookup_insert_eq in Ha1 by done. simplify_eq. exact Hrep.
    + rewrite list_lookup_insert_ne in Hj by done. rewrite list_lookup_insert_ne in Ha1 by done.
      eapply nodes_only; [by eapply (ci_rep _ _ Hi)|exact Ho|]. intros p Hp. eapply Hdis; eauto.
  - done.
  - intros j k sh1 a1 sh2 a2 p Hj Ha1 Hk Ha2 Hp1 Hp2.
    destruct (decide (i = j)) as [<-|Hij], (decide (i = k)) as [<-|Hik]; [done| | |].
    + rewrite list_lookup_insert_eq in Hj by done. rewrite list_lookup_insert_eq in Ha1 by done. simplify_eq.
      rewrite list_lookup_insert_ne in Hk by done. rewrite list_lookup_insert_ne in Ha2 by done.
      exfalso. apply (Hdis k sh2 a2 p); auto. apply elem_of_cons. auto.
    + rewrite list_lookup_insert_eq in Hk by done. rewrite list_lookup_insert_eq in Ha2 by done. simplify_eq.
      rewrite list_lookup_insert_ne in Hj by done. rewrite list_lookup_insert_ne in Ha1 by done.
      exfalso. apply (Hdis j sh1 a1 p); auto. apply elem_of_cons. auto.
    + rewrite list_lookup_insert_ne in Hj by done. rewrite list_lookup_insert_ne in Ha1 by done.
      rewrite list_lookup_insert_ne in Hk by done. rewrite list_lookup_insert_ne in Ha2 by done.
      eapply (ci_disjoint _ _ Hi j k); done.
  - intros j a1 p Ha1 Hp. destruct (decide (i = j)) as [<-|Hij].
    + rewrite list_lookup_insert_eq in Ha1 by done. injection Ha1 as <-. auto.
    + rewrite list_lookup_insert_ne in Ha1 by done. pose proof (ci_home _ _ Hi j a1 p Ha1 Hp) as Hh.
      assert (is_Some (cs_shard s !! j)) as [sh' Hj] by (apply lookup_lt_is_Some; rewrite <- (ci_length _ _ Hi); eapply lookup_lt_Some; done).
      eapply homed_dat; [exact Hh|]. unfold dat_of. change (hp_cells (l_heap l')) with (l_cells l'). rewrite Ho; [done|].
      eapply Hdis; eauto. apply held_nodes. done.
Qed.

(** ** What the tables hold *)

Lemma walk_chain c : ∀ fuel p l, chain c p l → (length l < fuel)%nat → walk fuel c p = l.
Proof.
  induction fuel as [|fuel IH]; intros p l Hl Hf; [lia|]. cbn. destruct l as [|a l]; [cbn in Hl; subst; done|].
  destruct Hl as (-> & Ha & x & Hx & Hl). rewrite (proj2 (Z.eqb_neq _ _) Ha), Hx. rewrite (IH _ l); [done|done|cbn in Hf; lia].
Qed.

Lemma entries_rep c sh a : rep c sh a → entries c sh ≡ₚ a_lru a ++ a_use a.
Proof.
  intros [_ (bk & Ht & Hp)]. rewrite <- Hp. unfold entries. pose proof (tr_b _ _ _ Ht) as Hb.
  pose proof (br_nodup _ _ _ _ Hb) as Hn. pose proof (br_chains _ _ _ _ Hb) as Hch. clear -Hch Hn.
  induction Hch as [|p l ps bk Hl Hch IH]; [done|]. cbn -[walk] in *. apply NoDup_app in Hn as (Hnl & _ & Hn).
  rewrite (walk_chain c _ p l); [|done|]. 2: { pose proof (chain_length _ _ _ Hl Hnl). lia. }
  f_equiv. apply IH. done.
Qed.

Lemma nodup_bind {A} (f : A → list ptr) (l : list A) : (∀ i x, l !! i = Some x → NoDup (f x)) →
  (∀ i j x y p, l !! i = Some x → l !! j = Some y → p ∈ f x → p ∈ f y → i = j) → NoDup (l ≫= f).
Proof.
  induction l as [|x l IH]; intros Hn Hd; [constructor|]. cbn. apply NoDup_app. split_and!.
  - by apply (Hn 0%nat).
  - intros p Hp Hq. apply list_elem_of_bind in Hq as (y & Hy & Hin). apply list_elem_of_lookup in Hin as (j & Hj).
    specialize (Hd 0%nat (S j) x y p eq_refl Hj Hp Hy). done.
  - apply IH; [intros i y Hy; by apply (Hn (S i))|]. intros i j y z p Hy Hz H1 H2.
    specialize (Hd (S i) (S j) y z p Hy Hz H1 H2). lia.
Qed.

Lemma elem_of_cached As p : p ∈ cached As ↔ ∃ i a, As !! i = Some a ∧ p ∈ a_lru a ++ a_use a.
Proof.
  unfold cached. rewrite list_elem_of_bind. split.
  - intros (a & Hp & Ha). apply list_elem_of_lookup in Ha as (i & Hi). eauto.
  - intros (i & a & Hi & Hp). exists a. split; [done|]. by eapply list_elem_of_lookup_2.
Qed.

Lemma cinv_shard s As i a : cinv s As → As !! i = Some a → ∃ sh, cs_shard s !! i = Some sh.
Proof. intros Hi Ha. apply lookup_lt_is_Some. rewrite <- (ci_length _ _ Hi). eapply lookup_lt_Some. done. Qed.

Lemma nodup_cached s As : cinv s As → NoDup (cached As).
Proof.
  intros Hi. apply nodup_bind.
  - intros i a Ha. destruct (cinv_shard _ _ _ _ Hi Ha) as [sh Hsh].
    eapply nodup_sub; [apply (co_nodup _ _ _ (proj1 (ci_rep _ _ Hi i sh a Hsh Ha)))|]. unfold nodes. solve_submseteq.
  - intros i j a b p Ha Hb Hp Hq. destruct (cinv_shard _ _ _ _ Hi Ha) as [sh Hsh], (cinv_shard _ _ _ _ Hi Hb) as [sh' Hsh'].
    apply (ci_disjoint _ _ Hi i j sh a sh' b p); [done..| |]; apply held_nodes; unfold held; set_solver.
Qed.

Lemma entries_all s As : cinv s As → cs_shard s ≫= entries (hp_cells (cs_heap s)) ≡ₚ cached As.
Proof.
  intros Hi. pose proof (ci_rep _ _ Hi) as Hr. pose proof (ci_length _ _ Hi) as Hl. unfold cached.
  generalize dependent (cs_shard s). clear Hi. induction As as [|a As IH]; intros [|sh l] Hr Hl; try done.
  cbn. f_equiv; [apply entries_rep; by apply (Hr 0%nat)|]. apply IH; [|cbn in Hl; lia].
  intros i sh' a' H1 H2. by apply (Hr (S i)).
Qed.

(** Two cached entries with the same key are the same. *)
Lemma cached_key s As p q x y : cinv s As → let c := hp_cells (cs_heap s) in p ∈ cached As → q ∈ cached As →
  c !! p = Some x → c !! q = Some y → lh_key x = lh_key y → p = q.
Proof.
  intros Hi c Hp Hq Hx Hy Hk. apply elem_of_cached in Hp as (i & a & Ha & Hp), Hq as (j & b & Hb & Hq).
  destruct (ci_home _ _ Hi i a p Ha) as (x' & Hx' & Hh1 & Hs1); [unfold held; set_solver|].
  destruct (ci_home _ _ Hi j b q Hb) as (y' & Hy' & Hh2 & Hs2); [unfold held; set_solver|].
  fold c in Hx', Hy'. rewrite Hx in Hx'. injection Hx' as <-. rewrite Hy in Hy'. injection Hy' as <-.
  assert (lh_hash x = lh_hash y) as Hh by congruence.
  assert (i = j) as <- by (rewrite Hh in Hs1; lia). rewrite Ha in Hb. injection Hb as <-.
  destruct (cinv_shard _ _ _ _ Hi Ha) as [sh Hsh]. destruct (ci_rep _ _ Hi i sh a Hsh Ha) as [_ (bk & Ht & Hbk)].
  apply (tr_keys _ _ _ Ht p q x y); [rewrite Hbk; done..|done|done|done|done].
Qed.

Lemma contents_iff s As key v : cinv s As → contents s !! key = Some v ↔
  ∃ p x, p ∈ cached As ∧ hp_cells (cs_heap s) !! p = Some x ∧ lh_key x = key ∧ lh_value x = v.
Proof.
  intros Hi. unfold contents. set (c := hp_cells (cs_heap s)). pose proof (entries_all _ _ Hi) as Hp. fold c in Hp.
  pose proof (nodup_cached _ _ Hi) as Hn. set (ps := cs_shard s ≫= entries c) in *.
  assert (∀ kvp, kvp ∈ omap (kv c) ps ↔ ∃ p x, p ∈ cached As ∧ c !! p = Some x ∧ kvp = (lh_key x, lh_value x)) as Hel.
  { intros kvp. rewrite list_elem_of_omap. unfold kv. split.
    - intros (p & Hin & Hk). rewrite Hp in Hin. destruct (c !! p) as [x|] eqn:Hx; [|done]. injection Hk as <-. eauto.
    - intros (p & x & Hin & Hx & ->). exists p. rewrite Hp, Hx. done. }
  assert (NoDup (omap (kv c) ps).*1) as Hnk.
  { rewrite <- Hp in Hn. assert (∀ p, p ∈ ps → p ∈ cached As) as Hsub by (intros p; rewrite Hp; done). clear Hel Hp.
    induction ps as [|p ps IH]; [constructor|]. apply NoDup_cons in Hn as [Hnp Hn]. cbn.
    destruct (kv c p) as [[k w]|] eqn:Hk; cbn; [|apply IH; [done|set_solver]]. apply NoDup_cons. split; [|apply IH; [done|set_solver]].
    intros Hin. apply list_elem_of_fmap in Hin as ([k' w'] & E & Hin). cbn in E. subst k'.
    apply list_elem_of_omap in Hin as (q & Hq & Hkq). unfold kv in Hk, Hkq.
    destruct (c !! p) as [x|] eqn:Hx; [|done]. destruct (c !! q) as [y|] eqn:Hy; [|done]. cbn in *. simplify_eq.
    apply Hnp. replace p with q; [done|]. eapply (cached_key s As q p y x Hi); [apply Hsub; set_solver|apply Hsub; left|done..]. }
  rewrite <- elem_of_list_to_map by done. rewrite Hel. split.
  - intros (p & x & H1 & H2 & [= -> ->]). exists p, x. done.
  - intros (p & x & H1 & H2 & <- & <-). exists p, x. done.
Qed.

(** ** The shard of a key *)

Lemma lxor_range n a b : 0 < n → 0 ≤ a < 2 ^ n → 0 ≤ b < 2 ^ n → 0 ≤ Z.lxor a b < 2 ^ n.
Proof.
  intros Hn Ha Hb. assert (0 ≤ Z.lxor a b) as H0 by (apply Z.lxor_nonneg; tauto). split; [done|].
  destruct (decide (Z.lxor a b = 0)) as [->|Hne]; [lia|]. apply Z.log2_lt_pow2; [lia|].
  eapply Z.le_lt_trans; [apply Z.log2_lxor; lia|]. apply Z.max_lub_lt.
  - destruct (decide (a = 0)) as [->|]; [cbn; lia|]. apply Z.log2_lt_pow2; lia.
  - destruct (decide (b = 0)) as [->|]; [cbn; lia|]. apply Z.log2_lt_pow2; lia.
Qed.

Lemma shift_range h k : 0 ≤ k → in_u 32 h → in_u 32 (Z.lxor h (Z.shiftr h k)).
Proof.
  intros Hk Hh. apply lxor_range; [lia|exact Hh|]. rewrite Z.shiftr_div_pow2 by done. destruct Hh as [H0 H1]. split.
  - apply Z.div_pos; [done|]. apply Z.pow_pos_nonneg; lia.
  - eapply Z.le_lt_trans; [|exact H1]. apply Z.div_le_upper_bound; [apply Z.pow_pos_nonneg; lia|].
    assert (1 ≤ 2 ^ k) by (pose proof (Z.pow_pos_nonneg 2 k); lia). nia.
Qed.

Lemma hash_tail_range h data : in_u 32 h → in_u 32 (hash_tail h data).
Proof.
  intros Hh. unfold hash_tail. destruct (length data) as [|[|[|[|]]]]; [done|..|done];
    apply shift_range; try (unfold hash_r; lia); apply wrap_range; lia.
Qed.

Lemma hash_loop_range n : ∀ h data, (length data ≤ n)%nat → in_u 32 h → in_u 32 (hash_loop h data).
Proof.
  induction n as [|n IH]; intros h data Hn Hh.
  - destruct data; [apply hash_tail_range; done|cbn in Hn; lia].
  - destruct data as [|b0 [|b1 [|b2 [|b3 data]]]]; try (apply hash_tail_range; done). cbn [hash_loop]. apply IH; [cbn in Hn; lia|].
    apply shift_range; [lia|]. apply wrap_range. lia.
Qed.

Lemma HashSlice_range key : in_u 32 (HashSlice key).
Proof. apply (hash_loop_range (length key)); [done|]. apply lxor_range; [lia|lia|]. apply wrap_range. lia. Qed.

Lemma shard_range key : 0 ≤ Shard (HashSlice key) < kNumShards.
Proof.
  pose proof (HashSlice_range key) as [H0 H1]. unfold Shard, kNumShardBits, kNumShards. rewrite Z.shiftr_div_pow2 by lia.
  split; [apply Z.div_pos; lia|]. apply Z.div_lt_upper_bound; [lia|]. exact H1.
Qed.

Lemma cinv_find s As key : cinv s As → let i := Z.to_nat (Shard (HashSlice key)) in
  ∃ sh a, cs_shard s !! i = Some sh ∧ As !! i = Some a ∧ ok (MkLst (cs_heap s) sh) a ∧ Shard (HashSlice key) = Z.of_nat i.
Proof.
  intros Hi i. pose proof (shard_range key) as Hr. assert (Shard (HashSlice key) = Z.of_nat i) as Ei by (unfold i; lia).
  assert (is_Some (cs_shard s !! i)) as [sh Hsh] by (apply lookup_lt_is_Some; rewrite (ci_count _ _ Hi); unfold kNumShards in *; lia).
  assert (is_Some (As !! i)) as [a Ha] by (apply lookup_lt_is_Some; rewrite (ci_length _ _ Hi); eapply lookup_lt_Some; done).
  exists sh, a. split_and!; [done|done| |done]. split; [by eapply (ci_rep _ _ Hi)|apply Hi].
Qed.

Lemma on_shard_run {A} (m : M lst A) s (i : nat) sh r l : cs_shard s !! i = Some sh → m (MkLst (cs_heap s) sh) = Ok (r, l) →
  on_shard (Z.of_nat i) m s = Ok (r, s <| cs_heap := l_heap l |> <| cs_shard := <[i := l_sh l]> (cs_shard s) |>).
Proof. intros Hs Hm. unfold on_shard. rewrite (proj2 (Z.ltb_ge _ _)), Nat2Z.id, Hs, Hm by lia. done. Qed.

(** The entry [found] returns is the one of [contents]. *)
Lemma found_contents s As key i sh a r : cinv s As → cs_shard s !! i = Some sh → As !! i = Some a → Shard (HashSlice key) = Z.of_nat i →
  found (hp_cells (cs_heap s)) (a_lru a ++ a_use a) key (HashSlice key) r →
  contents s !! key = if r =? 0 then None else lh_value <$> hp_cells (cs_heap s) !! r.
Proof.
  intros Hi Hsh Ha Ei [[-> Hm]|(H0 & Hin & (x & Hx & Hh & Hk)%hit_true)].
  - rewrite Z.eqb_refl. destruct (contents s !! key) as [v|] eqn:Hc; [|done].
    apply (contents_iff _ _ _ _ Hi) in Hc as (p & x & Hp & Hx & Hk & _). apply elem_of_cached in Hp as (j & b & Hb & Hp).
    destruct (ci_home _ _ Hi j b p Hb) as (x' & Hx' & Hh & Hs); [unfold held; set_solver|]. rewrite Hx in Hx'. injection Hx' as <-.
    rewrite Hk in Hh. rewrite Hh, Ei in Hs. assert (i = j) as <- by lia. rewrite Ha in Hb. injection Hb as <-.
    assert (hit (hp_cells (cs_heap s)) key (HashSlice key) p = true) as Hhit by (apply hit_true; eauto).
    rewrite Hm in Hhit by done. done.
  - rewrite (proj2 (Z.eqb_neq _ _) H0), Hx. cbn. apply (contents_iff _ _ _ _ Hi). exists r, x. split_and!; [|done..].
    apply elem_of_cached. eauto.
Qed.

(** ** Operations *)

Lemma cached_insert As i a' p : (i < length As)%nat → p ∈ cached (<[i := a']> As) ↔
  p ∈ a_lru a' ++ a_use a' ∨ ∃ j b, j ≠ i ∧ As !! j = Some b ∧ p ∈ a_lru b ++ a_use b.
Proof.
  intros Hi. rewrite elem_of_cached. split.
  - intros (j & b & Hb & Hp). destruct (decide (i = j)) as [<-|Hij].
    + rewrite list_lookup_insert_eq in Hb by done. injection Hb as <-. auto.
    + rewrite list_lookup_insert_ne in Hb by done. right. eauto.
  - intros [Hp|(j & b & Hj & Hb & Hp)].
    + exists i, a'. rewrite list_lookup_insert_eq by done. done.
    + exists j, b. rewrite list_lookup_insert_ne by done. done.
Qed.

Lemma cached_at As i a p : As !! i = Some a → p ∈ cached As ↔
  p ∈ a_lru a ++ a_use a ∨ ∃ j b, j ≠ i ∧ As !! j = Some b ∧ p ∈ a_lru b ++ a_use b.
Proof.
  intros Ha. rewrite <- (list_insert_id As i a Ha) at 1. apply cached_insert. eapply lookup_lt_Some. done.
Qed.

(** The entries of the other shards are untouched. *)
Lemma others_same s As i sh a c' j b p : cinv s As → cs_shard s !! i = Some sh → As !! i = Some a →
  only (hp_next (cs_heap s) :: nodes sh a) (hp_cells (cs_heap s)) c' → j ≠ i → As !! j = Some b → p ∈ held b →
  c' !! p = hp_cells (cs_heap s) !! p.
Proof.
  intros Hi Hsh Ha Ho Hj Hb Hp. destruct (cinv_shard _ _ _ _ Hi Hb) as [sh' Hsh']. apply Ho.
  pose proof (held_nodes sh' b p Hp) as Hn. intros [->|Hin]%elem_of_cons.
  - pose proof (nodes_live _ _ _ _ (proj1 (ci_rep _ _ Hi j sh' b Hsh' Hb)) Hn) as Hl. apply (proj2 (ci_heap _ _ Hi)) in Hl. lia.
  - apply Hj. eapply (ci_disjoint _ _ Hi j i); done.
Qed.

Lemma contents_same s As s' As' : cinv s As → cinv s' As' → (∀ p, p ∈ cached As' ↔ p ∈ cached As) →
  (∀ p, p ∈ cached As → dat_of (hp_cells (cs_heap s')) p = dat_of (hp_cells (cs_heap s)) p) → contents s' = contents s.
Proof.
  intros Hi Hi' Hc Hd. apply map_eq. intros key. apply option_eq. intros v.
  rewrite (contents_iff _ _ _ _ Hi), (contents_iff _ _ _ _ Hi'). split.
  - intros (p & x & Hp & Hx & <- & <-). rewrite Hc in Hp. destruct (dat_some _ _ _ _ (eq_sym (Hd p Hp)) Hx) as (y & Hy & E).
    unfold dat in E. injection E as E1 _ _ E2 _. exists p, y. done.
  - intros (p & x & Hp & Hx & <- & <-). destruct (dat_some _ _ _ _ (Hd p Hp) Hx) as (y & Hy & E).
    unfold dat in E. injection E as E1 _ _ E2 _. exists p, y. rewrite Hc. done.
Qed.

Lemma homed_all s As i a c' : cinv s As → As !! i = Some a → (∀ p, p ∈ held a → dat_of c' p = dat_of (hp_cells (cs_heap s)) p) →
  ∀ p, p ∈ held a → homed c' i p.
Proof. intros Hi Ha Hd p Hp. eapply homed_dat; [by eapply (ci_home _ _ Hi)|auto]. Qed.

(** The shards hold the same entries. *)
Definition same_tables (s : cst) (As : list abs) (s' : cst) (As' : list abs) : Prop :=
  cs_shard s' = cs_shard s ∧ ∀ j a', As' !! j = Some a' → ∃ a, As !! j = Some a ∧
    a_lru a' ++ a_use a' ≡ₚ a_lru a ++ a_use a ∧
    ∀ p, p ∈ a_lru a ++ a_use a → dat_of (hp_cells (cs_heap s')) p = dat_of (hp_cells (cs_heap s)) p.

(** An operation that keeps the entries of the table keeps the contents. *)
Lemma quiet_step s As i sh a l' a' : cinv s As → cs_shard s !! i = Some sh → As !! i = Some a →
  rep (l_cells l') (l_sh l') a' → l_sh l' = sh → hp_next (l_heap l') = hp_next (cs_heap s) →
  effect (hp_cells (cs_heap s)) sh a (l_cells l') a' →
  (∀ p, p ∈ a_lru a' ++ a_use a' ↔ p ∈ a_lru a ++ a_use a) → (∀ p, p ∈ a_det a' → p ∈ held a) →
  let s' := s <| cs_heap := l_heap l' |> <| cs_shard := <[i := l_sh l']> (cs_shard s) |> in
  cinv s' (<[i := a']> As) ∧ contents s' = contents s ∧ same_tables s As s' (<[i := a']> As).
Proof.
  intros Hi Hsh Ha Hrep El En Hef Hlu Hdet s'. assert (i < length As)%nat as Hlt by (eapply lookup_lt_Some; done).
  assert (only (hp_next (cs_heap s) :: nodes sh a) (hp_cells (cs_heap s)) (l_cells l')) as Ho
    by (eapply only_weaken; [apply Hef|set_solver]).
  assert (∀ p, p ∈ held a' → p ∈ held a) as Hsub.
  { intros p. unfold held at 1. rewrite app_assoc. intros [Hp|Hp]%elem_of_app; [|auto]. rewrite Hlu in Hp. unfold held. set_solver. }
  assert (∀ p, p ∈ held a' → dat_of (l_cells l') p = dat_of (hp_cells (cs_heap s)) p) as Hd.
  { intros p Hp. apply (ef_dat _ _ _ _ _ Hef). apply held_nodes. done. }
  assert (cinv s' (<[i := a']> As)) as Hi'.
  { apply (cinv_step s As i sh a l' a'); try done; [|by rewrite El..|auto|].
    - pose proof (heap_ok_only (cs_heap s) (l_cells l') (hp_dels (l_heap l')) (nodes sh a) (ci_heap _ _ Hi) (ef_only _ _ _ _ _ Hef)) as Hok.
      destruct (l_heap l') as [c' n' d'] eqn:Eh. cbn in En. rewrite En. unfold l_cells in Hok. rewrite Eh in Hok. apply Hok.
      intros p Hp. apply (ci_heap _ _ Hi). eapply nodes_live; [apply (ci_rep _ _ Hi i sh a Hsh Ha)|done].
    - intros p Hp. eapply homed_dat; [eapply (ci_home _ _ Hi i a); auto|auto]. }
  assert (∀ p, p ∈ cached As → dat_of (l_cells l') p = dat_of (hp_cells (cs_heap s)) p) as Hdc.
  { intros p Hp. apply (cached_at As i a) in Hp as [Hp|(j & b & Hj & Hb & Hp)]; [|..|done].
    - apply Hd. apply Hlu in Hp. unfold held. set_solver.
    - unfold dat_of. erewrite (others_same s As i sh a (l_cells l')); try done. unfold held. set_solver. }
  split_and!; [done| |split].
  - eapply contents_same; [exact Hi|exact Hi'| |exact Hdc].
    intros p. rewrite cached_insert, (cached_at As i a) by done. rewrite Hlu. done.
  - unfold s'. rsimpl. rewrite El. apply list_insert_id. done.
  - intros j b Hb. destruct (decide (i = j)) as [<-|Hij].
    + rewrite list_lookup_insert_eq in Hb by done. injection Hb as <-. exists a. split_and!; [done| |].
      * apply NoDup_Permutation; [| |exact Hlu].
        -- eapply nodup_sub; [apply (co_nodup _ _ _ (proj1 Hrep))|]. unfold nodes. solve_submseteq.
        -- eapply nodup_sub; [apply (co_nodup _ _ _ (proj1 (ci_rep _ _ Hi i sh a Hsh Ha)))|]. unfold nodes. solve_submseteq.
      * intros p Hp. apply Hdc, elem_of_cached. eauto.
    + rewrite list_lookup_insert_ne in Hb by done. exists b. split_and!; [done|done|]. intros p Hp. apply Hdc, elem_of_cached. eauto.
Qed.

(** ** Capacities *)

Definition same_caps (s s' : cst) : Prop := capacity_ <$> cs_shard s' = capacity_ <$> cs_shard s.

Lemma same_caps_insert s s' i sh sh' : cs_shard s !! i = Some sh → cs_shard s' = <[i := sh']> (cs_shard s) → capacity_ sh' = capacity_ sh → same_caps s s'.
Proof. intros Hsh E Ec. unfold same_caps. rewrite E, list_fmap_insert, Ec. apply list_insert_id. by rewrite list_lookup_fmap, Hsh. Qed.

(** ** Deleters *)

(** The calls of deleters the entries that live still owe. *)
Definition owed (s : cst) (As : list abs) : list (Z * bytes * Z) := (As ≫= held) ≫= del_of (hp_cells (cs_heap s)).

(** With [new] entries made, what was owed is owed or was paid; an entry a client
    goes on holding is the same. *)
Definition settles (s : cst) (As : list abs) (s' : cst) (As' : list abs) (new : list (Z * bytes * Z)) : Prop :=
  hp_dels (cs_heap s') ++ owed s' As' ≡ₚ new ++ hp_dels (cs_heap s) ++ owed s As ∧
  ∀ p, p ∈ handles As → p ∈ handles As' → dat_of (hp_cells (cs_heap s')) p = dat_of (hp_cells (cs_heap s)) p.

Lemma elem_of_handles As p : p ∈ handles As ↔ ∃ i a, As !! i = Some a ∧ p ∈ a_cli a.
Proof.
  induction As as [|a As IH]; cbn.
  - rewrite gmultiset_elem_of_empty. split; [done|]. intros (i & a & Hi & _). done.
  - rewrite gmultiset_elem_of_disj_union, IH. split.
    + intros [Hp|(i & b & Hb & Hp)]; [exists 0%nat, a; done|exists (S i), b; done].
    + intros ([|i] & b & Hb & Hp); [injection Hb as ->; auto|right; eauto].
Qed.

Lemma handle_held s As p : cinv s As → p ∈ handles As → ∃ i a, As !! i = Some a ∧ p ∈ held a.
Proof.
  intros Hi (i & a & Ha & Hp)%elem_of_handles. exists i, a. split; [done|]. destruct (cinv_shard _ _ _ _ Hi Ha) as [sh Hsh].
  apply (co_cli _ _ _ (proj1 (ci_rep _ _ Hi i sh a Hsh Ha))) in Hp. unfold held. set_solver.
Qed.

Lemma nodup_held c sh a : core c sh a → NoDup (held a).
Proof. intros Hc. eapply nodup_sub; [apply (co_nodup _ _ _ Hc)|]. unfold nodes, held. solve_submseteq. Qed.

(** An entry that is held before and after is not a new one. *)
Lemma held_stable s As i sh a l' a' (N : list ptr) : cinv s As → cs_shard s !! i = Some sh → As !! i = Some a →
  only (hp_next (cs_heap s) :: nodes sh a) (hp_cells (cs_heap s)) (l_cells l') →
  (∀ p, p ∈ held a' → p ∉ N → dat_of (l_cells l') p = dat_of (hp_cells (cs_heap s)) p) → (∀ p, p ∈ N → p ∉ held a) →
  cinv (s <| cs_heap := l_heap l' |> <| cs_shard := <[i := l_sh l']> (cs_shard s) |>) (<[i := a']> As) →
  ∀ p, p ∈ handles As → p ∈ handles (<[i := a']> As) → dat_of (l_cells l') p = dat_of (hp_cells (cs_heap s)) p.
Proof.
  intros Hi Hsh Ha Ho Hd HN Hi' p (k & b & Hb & Hpb)%(handle_held _ _ _ Hi) (j & b' & Hb' & Hpb')%(handle_held _ _ _ Hi').
  assert (i < length As)%nat as Hlt by (eapply lookup_lt_Some; done). destruct (decide (i = j)) as [<-|Hij].
  - rewrite list_lookup_insert_eq in Hb' by done. injection Hb' as <-. apply Hd; [done|]. intros HpN. destruct (decide (i = k)) as [<-|Hik].
    + rewrite Ha in Hb. injection Hb as <-. by apply (HN p).
    + assert (<[i := a']> As !! k = Some b) as Hk by (by rewrite list_lookup_insert_ne). assert (<[i := a']> As !! i = Some a') as Hii by (by rewrite list_lookup_insert_eq).
      destruct (cinv_shard _ _ _ _ Hi' Hk) as [sk Hsk]. destruct (cinv_shard _ _ _ _ Hi' Hii) as [si Hsi].
      apply Hik. apply (ci_disjoint _ _ Hi' i k si a' sk b p); try done; by apply held_nodes.
  - rewrite list_lookup_insert_ne in Hb' by done. unfold dat_of. erewrite (others_same s As i sh a (l_cells l')); done.
Qed.

(** One shard pays for the entries [P] it frees, and owes for the entries [N] it makes. *)
Lemma owed_step s As i sh a l' a' P N : cinv s As → cs_shard s !! i = Some sh → As !! i = Some a →
  only (hp_next (cs_heap s) :: nodes sh a) (hp_cells (cs_heap s)) (l_cells l') →
  (∀ p, p ∈ held a' → p ∉ N → dat_of (l_cells l') p = dat_of (hp_cells (cs_heap s)) p) →
  (∀ p, p ∈ N → p ∉ held a) → (∀ p, p ∈ P → p ∈ held a) → P ++ held a' ≡ₚ N ++ held a →
  hp_dels (l_heap l') = hp_dels (cs_heap s) ++ (P ≫= del_of (hp_cells (cs_heap s))) →
  cinv (s <| cs_heap := l_heap l' |> <| cs_shard := <[i := l_sh l']> (cs_shard s) |>) (<[i := a']> As) →
  settles s As (s <| cs_heap := l_heap l' |> <| cs_shard := <[i := l_sh l']> (cs_shard s) |>) (<[i := a']> As) (N ≫= del_of (l_cells l')).
Proof.
  intros Hi Hsh Ha Ho Hd HN HP Hperm Hdel Hi'. split; [|by eapply held_stable]. unfold owed. rsimpl. change (hp_cells (l_heap l')) with (l_cells l').
  set (c := hp_cells (cs_heap s)) in *. set (c' := l_cells l') in *. assert (i < length As)%nat as Hlt by (eapply lookup_lt_Some; done).
  assert (∀ rest, (As ≫= held) ≡ₚ held a ++ rest → (<[i := a']> As ≫= held) ≡ₚ held a' ++ rest) as Hins.
  { intros rest. rewrite <- (take_drop_middle As i a Ha) at 1. rewrite insert_take_drop by done. rewrite !bind_app, !bind_cons.
    intros E. rewrite Permutation_app_swap_app in E |- *. apply Permutation_app_inv_l in E. by rewrite E. }
  assert ((As ≫= held) ≡ₚ held a ++ (take i As ≫= held) ++ (drop (S i) As ≫= held)) as Hall.
  { rewrite <- (take_drop_middle As i a Ha) at 1. rewrite bind_app, bind_cons. by rewrite Permutation_app_swap_app. }
  set (rest := (take i As ≫= held) ++ _) in Hall. rewrite (Hins rest Hall), Hall, Hdel, !bind_app.
  assert (rest ≫= del_of c' = rest ≫= del_of c) as ->.
  { apply Forall_bind_ext, Forall_forall. intros p Hp. apply dat_del. assert (∃ j b, j ≠ i ∧ As !! j = Some b ∧ p ∈ held b) as (j & b & Hj & Hb & Hpb).
    { unfold rest in Hp. rewrite elem_of_app, !list_elem_of_bind in Hp. destruct Hp as [(b & Hpb & (j & Hb)%list_elem_of_lookup)|(b & Hpb & (j & Hb)%list_elem_of_lookup)].
      - apply lookup_take_Some in Hb as [Hb Hj]. exists j, b. split_and!; [lia|done|done].
      - rewrite lookup_drop in Hb. exists (S i + j)%nat, b. split_and!; [lia|done|done]. }
    unfold dat_of. erewrite (others_same s As i sh a c'); done. }
  set (g p := if decide (p ∈ N) then del_of c' p else del_of c p).
  assert (∀ l, (∀ p, p ∈ l → p ∉ N) → l ≫= del_of c = l ≫= g) as Hg.
  { intros l Hl. apply Forall_bind_ext, Forall_forall. intros p Hp. unfold g. by rewrite decide_False by auto. }
  assert (held a' ≫= del_of c' = held a' ≫= g) as ->.
  { apply Forall_bind_ext, Forall_forall. intros p Hp. unfold g. destruct (decide (p ∈ N)); [done|]. apply dat_del. auto. }
  assert (N ≫= del_of c' = N ≫= g) as ->.
  { apply Forall_bind_ext, Forall_forall. intros p Hp. unfold g. by rewrite decide_True. }
  rewrite (Hg P), (Hg (held a)) by (intros p Hp HpN; eapply HN; eauto). 
  apply (bind_Permutation g) in Hperm. rewrite !bind_app in Hperm. rewrite <- app_assoc, (app_assoc (P ≫= g)), Hperm. solve_Permutation.
Qed.

Lemma without_perm p l : NoDup l → l ≡ₚ (if decide (p ∈ l) then [p] else []) ++ without p l.
Proof.
  intros Hn. destruct (decide (p ∈ l)) as [Hl|Hl]; [|by rewrite without_notin].
  apply list_elem_of_split in Hl as (l1 & l2 & ->). rewrite without_split by done. solve_Permutation.
Qed.

Lemma nodup_parts a : NoDup (held a) → NoDup (a_lru a) ∧ NoDup (a_use a) ∧ NoDup (a_det a).
Proof. unfold held. intros (H1 & _ & (H2 & _ & H3)%NoDup_app)%NoDup_app. done. Qed.

Lemma held_ref a p : NoDup (held a) → held (abs_ref p a) ≡ₚ held a.
Proof.
  intros (Hl & Hu & _)%nodup_parts. unfold held, abs_ref. cbn. pose proof (without_perm p (a_lru a) Hl) as Hw.
  set (w := without p (a_lru a)) in *. clearbody w. destruct (decide (p ∈ a_lru a)); rewrite Hw; solve_Permutation.
Qed.

Lemma held_release sh a p : p ∈ a_use a ++ a_det a → NoDup (nodes sh a) →
  let a' := abs_release p a in (if decide (p ∈ nodes sh a') then [] else [p]) ++ held a' ≡ₚ held a.
Proof.
  intros Hp Hn a'. assert (NoDup (held a)) as Hnh by (eapply nodup_sub; [exact Hn|]; unfold nodes, held; solve_submseteq).
  pose proof (nodup_parts _ Hnh) as (Hl & Hu & Hd). unfold a', abs_release.
  destruct (decide (p ∈ a_cli a ∖ {[+ p +]})); [|destruct (decide (p ∈ a_use a)) as [Hpu|Hpu]].
  - rewrite decide_True by (unfold nodes; cbn; set_solver). done.
  - rewrite decide_True by (unfold nodes; cbn; set_solver). unfold held. cbn. pose proof (without_perm p (a_use a) Hu) as Hw.
    set (w := without p (a_use a)) in *. clearbody w. rewrite decide_True in Hw by done. rewrite Hw. solve_Permutation.
  - assert (p ∈ a_det a) as Hpd by set_solver. pose proof (without_perm p (a_det a) Hd) as Hw. rewrite (decide_True _ _ Hpd) in Hw. rewrite decide_False.
    + unfold held. cbn. set (w := without p (a_det a)) in *. clearbody w. rewrite Hw. solve_Permutation.
    + assert (NoDup (nodes sh (MkAbs (a_lru a) (a_use a) (without p (a_det a)) ∅) ++ [p])) as Hn2.
      { eapply nodup_sub; [exact Hn|]. unfold nodes. cbn. set (w := without p (a_det a)) in *. clearbody w. rewrite Hw. solve_submseteq. }
      apply NoDup_app in Hn2 as (_ & Hn2 & _). intros Hin. apply (Hn2 p); [exact Hin|left].
Qed.

Lemma held_erase a p : NoDup (held a) → p ∈ a_lru a ++ a_use a →
  (if decide (p ∈ a_lru a) then [p] else []) ++ held (abs_erase p a) ≡ₚ held a.
Proof.
  intros Hn Hp. pose proof (nodup_parts _ Hn) as (Hl & Hu & Hd). unfold held, abs_erase. cbn.
  pose proof (without_perm p (a_lru a) Hl) as Hw. pose proof (without_perm p (a_use a) Hu) as Hv.
  set (w := without p (a_lru a)) in *. set (v := without p (a_use a)) in *. clearbody w v.
  destruct (decide (p ∈ a_lru a)), (decide (p ∈ a_use a)); [|rewrite Hw, Hv; solve_Permutation..|set_solver].
  unfold held in Hn. apply NoDup_app in Hn as (_ & Hn & _). exfalso. apply (Hn p); set_solver.
Qed.

Lemma held_drop k a : take k (a_lru a) ++ held (abs_drop k a) ≡ₚ held a.
Proof. unfold held, abs_drop. cbn. rewrite app_assoc, take_drop. done. Qed.

Lemma held_insert cap e old a : NoDup (held a) → e ∉ held a → (0 < cap → old = 0 ∨ old ∈ a_lru a ++ a_use a) → 0 ∉ held a →
  (if decide (0 < cap ∧ old ∈ a_lru a) then [old] else []) ++ held (abs_insert cap e old a) ≡ₚ e :: held a.
Proof.
  intros Hn He Ho H0. unfold abs_insert. destruct (Z.ltb_spec 0 cap) as [Hcap|Hcap].
  - assert (held (abs_new e a) ≡ₚ e :: held a) as Hnew by (unfold held, abs_new; cbn; solve_Permutation). unfold abs_put.
    destruct (Z.eqb_spec old 0) as [->|Hold].
    + rewrite decide_False; [done|]. intros [_ Hin]. apply H0. unfold held. set_solver.
    + destruct (Ho Hcap) as [?|Hin]; [done|]. rewrite <- Hnew. rewrite <- (held_erase (abs_new e a) old); [|by rewrite Hnew; apply NoDup_cons|cbn; set_solver].
      cbn. destruct (decide (old ∈ a_lru a)); [rewrite decide_True by done|rewrite decide_False by tauto]; done.
  - rewrite decide_False by lia. unfold held, abs_uncached. cbn. solve_Permutation.
Qed.

(** Room for one more handle and one more entry in every shard. *)
Definition roomy (As : list abs) : Prop := ∀ i a, As !! i = Some a →
  Z.of_nat (size (a_cli a)) < 2 ^ 32 - 2 ∧ Z.of_nat (length (a_lru a ++ a_use a)) < 2 ^ 31.

Lemma handles_insert As i a a' X : As !! i = Some a → a_cli a' = X ⊎ a_cli a → handles (<[i := a']> As) = X ⊎ handles As.
Proof.
  revert i. induction As as [|b As IH]; intros i Ha Hc; [done|]. destruct i as [|i].
  - injection Ha as ->. cbn. rewrite Hc. multiset_solver.
  - change (<[S i := a']> (b :: As)) with (b :: <[i := a']> As). cbn [handles]. rewrite (IH i) by done. multiset_solver.
Qed.

Lemma abs_ref_table p a q : p ∈ a_lru a ++ a_use a → q ∈ a_lru (abs_ref p a) ++ a_use (abs_ref p a) ↔ q ∈ a_lru a ++ a_use a.
Proof.
  intros Hp. unfold abs_ref. cbn. rewrite !elem_of_app, elem_of_without. destruct (decide (p ∈ a_lru a)) as [Hl|Hl].
  - rewrite elem_of_app, list_elem_of_singleton. destruct (decide (q = p)) as [->|]; tauto.
  - destruct (decide (q = p)) as [->|]; [set_solver|]. tauto.
Qed.

Lemma abs_release_table p a q : q ∈ a_lru (abs_release p a) ++ a_use (abs_release p a) ↔ q ∈ a_lru a ++ a_use a.
Proof.
  unfold abs_release. destruct (decide (p ∈ a_cli a ∖ {[+ p +]})); [done|]. destruct (decide (p ∈ a_use a)) as [Hu|]; [|done].
  cbn. rewrite !elem_of_app, elem_of_without, list_elem_of_singleton. destruct (decide (q = p)) as [->|]; tauto.
Qed.

Lemma abs_release_det p a q : q ∈ a_det (abs_release p a) → q ∈ held a.
Proof.
  unfold abs_release, held. repeat case_decide; cbn; [set_solver..|]. rewrite elem_of_without. set_solver.
Qed.

Lemma abs_release_cli p a : p ∈ a_cli a → a_cli a = {[+ p +]} ⊎ a_cli (abs_release p a).
Proof. intros Hp. unfold abs_release. repeat case_decide; cbn; by apply gmultiset_disj_union_difference'. Qed.

Lemma value_run s p x : p ≠ 0 → hp_cells (cs_heap s) !! p = Some x → Cache_Value p s = Ok (lh_value x, s).
Proof. intros Hp Hx. unfold Cache_Value. eapply bind_run; [apply (deref_run p x); done|]. done. Qed.

(** [Lookup] returns a handle of the value of the key, or null when it has none, and
    changes nothing that can be looked up. *)
Lemma Cache_Lookup_run s As key : cinv s As → roomy As →
  ∃ r s' As', Cache_Lookup key s = Ok (r, s') ∧ cinv s' As' ∧ contents s' = contents s ∧ same_tables s As s' As' ∧ settles s As s' As' [] ∧
    match contents s !! key with
    | None => r = 0 ∧ handles As' = handles As
    | Some v => r ≠ 0 ∧ handles As' = {[+ r +]} ⊎ handles As ∧ Cache_Value r s' = Ok (v, s')
    end.
Proof.
  intros Hi Hroom. destruct (cinv_find s As key Hi) as (sh & a & Hsh & Ha & [Hrep Hok] & Ei). set (i := Z.to_nat _) in *. clearbody i.
  destruct (Hroom i a Ha) as [H32 _].
  destruct (Lookup_run (MkLst (cs_heap s) sh) a key (HashSlice key) Hrep H32) as (r & c' & R & Hf & Hrep' & Hef).
  set (l' := put_cells c' (MkLst (cs_heap s) sh)) in *. set (a' := if r =? 0 then a else abs_ref r a) in *.
  pose proof (found_contents s As key i sh a r Hi Hsh Ha Ei Hf) as Hc.
  assert (r ≠ 0 → r ∈ a_lru a ++ a_use a) as Hr by (intros H0; destruct Hf as [[? _]|(_ & ? & _)]; done).
  destruct (quiet_step s As i sh a l' a') as (Hi' & Hcs & Hst); [done|done|done|exact Hrep'|done|done|exact Hef| | |].
  { intros q. unfold a'. destruct (Z.eqb_spec r 0); [done|]. apply abs_ref_table. auto. }
  { intros q. unfold a', held. destruct (r =? 0); cbn; set_solver. }
  eexists r, _, (<[i := a']> As). split_and!; [|exact Hi'|exact Hcs|exact Hst| |].
  - unfold Cache_Lookup. rewrite Ei. eapply on_shard_run; [done|exact R].
  - apply (owed_step s As i sh a l' a' [] []); [done..|eapply only_weaken; [apply Hef|set_solver]| |by intros ? ?%not_elem_of_nil|by intros ? ?%not_elem_of_nil| |exact (eq_sym (app_nil_r _))|exact Hi'].
    + intros p Hp _. apply (ef_dat _ _ _ _ _ Hef), held_nodes. exact Hp.
    + unfold a'. destruct (Z.eqb_spec r 0); [done|]. apply held_ref. by eapply nodup_held, Hrep.
  - rewrite Hc. unfold a'. destruct (Z.eqb_spec r 0) as [->|H0].
    + split; [reflexivity|]. rewrite (list_insert_id As i a Ha). reflexivity.
    + assert (r ∈ nodes sh a') as Hrn.
      { apply held_nodes. unfold a', held. rewrite app_assoc. apply elem_of_app. left. apply abs_ref_table; auto. }
      pose proof (ef_dat _ _ _ _ _ Hef r Hrn) as Hd. destruct Hf as [[? _]|(_ & Hin & (x & Hx & _)%hit_true)]; [done|].
      destruct (dat_some _ _ _ _ Hd Hx) as (y & Hy & E). unfold dat in E. injection E as E1 _ _ _ _.
      change (hp_cells (cs_heap s) !! r = Some x) in Hx. rewrite Hx. change (lh_value <$> Some x) with (Some (lh_value x)). cbv iota beta. split_and!; [exact H0| |].
      * apply (handles_insert As i a); [exact Ha|reflexivity].
      * rewrite <- E1. apply value_run; [done|]. exact Hy.
Qed.

(** [Release] of a handle that is held changes nothing that can be looked up. *)
Lemma Cache_Release_run s As r : cinv s As → r ∈ handles As →
  ∃ s' As', Cache_Release r s = Ok (tt, s') ∧ cinv s' As' ∧ contents s' = contents s ∧ same_tables s As s' As' ∧ settles s As s' As' [] ∧
    handles As = {[+ r +]} ⊎ handles As'.
Proof.
  intros Hi Hr. apply elem_of_handles in Hr as (i & a & Ha & Hr). destruct (cinv_shard _ _ _ _ Hi Ha) as [sh Hsh].
  pose proof (ci_rep _ _ Hi i sh a Hsh Ha) as Hrep. pose proof Hrep as [Hc _].
  assert (r ∈ held a) as Hh by (apply Hc in Hr; unfold held; set_solver).
  destruct (ci_home _ _ Hi i a r Ha Hh) as (x & Hx & Hhash & Hshard).
  destruct (Release_run (MkLst (cs_heap s) sh) a r Hrep Hr) as (c' & R & Hrep' & Hef).
  set (l' := put_mem c' _ _) in R.
  destruct (quiet_step s As i sh a l' (abs_release r a)) as (Hi' & Hcs & Hst); [done|done|done|exact Hrep'|done|done|exact Hef| | |].
  { intros q. apply abs_release_table. }
  { intros q. apply abs_release_det. }
  eexists _, (<[i := abs_release r a]> As). split_and!; [|exact Hi'|exact Hcs|exact Hst| |].
  - unfold Cache_Release. eapply bind_run; [apply (deref_run r x); [|done]; eapply nodes_nz; [done|by apply held_nodes]|].
    rewrite Hshard. eapply on_shard_run; [done|exact R].
  - eapply (owed_step s As i sh a l' (abs_release r a) (if decide (r ∈ nodes sh (abs_release r a)) then [] else [r]) []); [done..| | |by intros ? ?%not_elem_of_nil| | | |exact Hi'].
    + eapply only_weaken; [apply Hef|set_solver].
    + intros p Hp _. apply (ef_dat _ _ _ _ _ Hef), held_nodes. exact Hp.
    + intros p. destruct (decide _); [by intros ?%not_elem_of_nil|]. by intros ->%list_elem_of_singleton.
    + apply held_release; [by apply Hc|apply Hc].
    + change (hp_dels (l_heap l')) with (hp_dels (cs_heap s) ++ if decide (r ∈ nodes sh (abs_release r a)) then [] else del_of (hp_cells (cs_heap s)) r).
      destruct (decide _); [done|]. cbn. by rewrite app_nil_r.
  - rewrite <- (list_insert_id As i a Ha) at 1. rewrite <- (list_insert_insert_eq As i a (abs_release r a)).
    eapply handles_insert; [apply list_lookup_insert_eq; by eapply lookup_lt_Some|]. by apply abs_release_cli.
Qed.

Lemma abs_insert_cli cap e old a k : a_cli (abs_drop k (abs_insert cap e old a)) = {[+ e +]} ⊎ a_cli a.
Proof. unfold abs_drop, abs_insert, abs_put, abs_erase, abs_new, abs_uncached. destruct (0 <? cap), (old =? 0); done. Qed.

Lemma abs_insert_table cap e old a k p : let a' := abs_drop k (abs_insert cap e old a) in
  p ∈ a_lru a' ++ a_use a' → p = e ∨ p ∈ a_lru a ++ a_use a.
Proof.
  intros a'. unfold a', abs_drop, abs_insert, abs_put, abs_erase, abs_new, abs_uncached. cbn.
  assert (∀ l, p ∈ without old l → p ∈ l) as Hw by (intros l Hl; apply elem_of_without in Hl as [_ ?]; done).
  assert (∀ l, p ∈ drop k l → p ∈ l) as Hd by (intros l; apply subseteq_drop).
  destruct (0 <? cap), (old =? 0); cbn; intros [Hp|Hp]%elem_of_app; try (apply Hd in Hp); try (apply Hw in Hp); set_solver.
Qed.

(** The new entry is in the table whatever was evicted. *)
Lemma abs_insert_self cap e old a k : 0 < cap → old ≠ e → e ∈ a_use (abs_drop k (abs_insert cap e old a)).
Proof.
  intros Hcap Ho. unfold abs_drop, abs_insert, abs_put. rewrite (proj2 (Z.ltb_lt _ _) Hcap). cbn.
  destruct (old =? 0); cbn; [set_solver|]. apply elem_of_without. set_solver.
Qed.

Lemma held_not_head c sh a p : core c sh a → p ∈ held a → p ≠ lru_ sh ∧ p ≠ in_use_ sh.
Proof.
  intros Hc Hp. pose proof (co_nodup _ _ _ Hc) as Hn. unfold nodes in Hn. fold (held a) in Hn.
  apply NoDup_cons in Hn as [H1 Hn]. apply NoDup_cons in Hn as [H2 _]. split; intros ->; set_solver.
Qed.

(** [Insert] returns a handle of the new entry; the key now has its value (unless the
    capacity is 0), other keys keep theirs or are evicted, and evictions stop as soon
    as the charge of the shard is within its capacity. *)
Lemma Cache_Insert_run s As key v charge d : cinv s As → roomy As →
  let i := Z.to_nat (Shard (HashSlice key)) in
  ∃ r s' As' sh sh' a', Cache_Insert key v charge d s = Ok (r, s') ∧ cinv s' As' ∧ r ≠ 0 ∧
    handles As' = {[+ r +]} ⊎ handles As ∧ Cache_Value r s' = Ok (v, s') ∧
    cs_shard s !! i = Some sh ∧ cs_shard s' !! i = Some sh' ∧ As' = <[i := a']> As ∧ cs_shard s' = <[i := sh']> (cs_shard s) ∧
    capacity_ sh' = capacity_ sh ∧ (usage_ sh' ≤ capacity_ sh ∨ a_lru a' = []) ∧
    (0 < capacity_ sh → contents s' !! key = Some v) ∧
    (∀ key' v', key' ≠ key → contents s' !! key' = Some v' → contents s !! key' = Some v') ∧
    (∀ p, p ∈ a_lru a' ++ a_use a' → (p = r ∨ ∃ a, As !! i = Some a ∧ p ∈ a_lru a ++ a_use a) ∧
       charge_of (hp_cells (cs_heap s')) p = if decide (p = r) then charge else charge_of (hp_cells (cs_heap s)) p) ∧
    (∀ j b p, j ≠ i → As !! j = Some b → p ∈ held b → hp_cells (cs_heap s') !! p = hp_cells (cs_heap s) !! p) ∧
    (∃ a old k, let a1 := abs_insert (capacity_ sh) r old a in As !! i = Some a ∧ a' = abs_drop k a1 ∧
       (0 < capacity_ sh → found (hp_cells (cs_heap s)) (a_lru a ++ a_use a) key (HashSlice key) old) ∧
       hp_cells (cs_heap s) !! r = None ∧ (∀ p, p ∈ held a' → p ≠ r → dat_of (hp_cells (cs_heap s')) p = dat_of (hp_cells (cs_heap s)) p) ∧
       ∀ j, (j < k)%nat → capacity_ sh < u64 (total (<[r := new_entry key (HashSlice key) v charge d true]> (hp_cells (cs_heap s)))
         (drop j (a_lru a1) ++ a_use a1))) ∧
    settles s As s' As' [(d, key, v)].
Proof.
  intros Hi Hroom. destruct (cinv_find s As key Hi) as (sh & a & Hsh & Ha & Hok & Ei). set (i := Z.to_nat _) in *. clearbody i. cbv zeta.
  destruct (Hroom i a Ha) as [H32 H31]. set (e := hp_next (cs_heap s)).
  destruct (Insert_run (MkLst (cs_heap s) sh) a key (HashSlice key) v charge d Hok H32 H31)
    as (old & k & l' & R & [Hrep' Hok'] & (u & t & Esh & Hu) & _ & Hf & _ & Ho & Hd & Hmin & Hdel).
  cbn [l_heap l_sh] in R, Hrep', Esh, Hu, Hf, Ho, Hd, Hmin, Hdel. fold e in R, Hrep', Hu, Ho, Hd, Hmin, Hdel. set (a' := abs_drop k (abs_insert (capacity_ sh) e old a)) in *.
  change (l_cells (MkLst (cs_heap s) sh)) with (hp_cells (cs_heap s)) in *.
  assert (i < length As)%nat as Hlt by (eapply lookup_lt_Some; exact Ha).
  assert (i < length (cs_shard s))%nat as Hlt' by (eapply lookup_lt_Some; exact Hsh).
  assert (lru_ (l_sh l') = lru_ sh ∧ in_use_ (l_sh l') = in_use_ sh ∧ capacity_ (l_sh l') = capacity_ sh ∧ usage_ (l_sh l') = u) as (E1 & E2 & E3 & E4)
    by (rewrite Esh; done).
  assert (∀ p, p ∈ held a' → p = e ∨ p ∈ held a) as Hsub.
  { intros p Hp. destruct (held_not_head _ _ _ _ (proj1 Hrep') Hp) as [N1 N2]. rewrite E1 in N1. rewrite E2 in N2.
    assert (p ∈ nodes sh (abs_insert (capacity_ sh) e old a)) as Hn.
    { apply held_nodes. unfold held, a', abs_drop in *. cbn in Hp. rewrite elem_of_app in Hp |- *.
      pose proof (subseteq_drop k (a_lru (abs_insert (capacity_ sh) e old a)) p). tauto. }
    apply abs_insert_nodes in Hn as [->|Hn]; [auto|]. right. unfold nodes in Hn. fold (held a) in Hn. rewrite !elem_of_cons in Hn. tauto. }
  assert (∀ p, p ∈ held a' → dat_of (l_cells l') p = if decide (p = e) then Some (v, d, charge, key, HashSlice key) else dat_of (hp_cells (cs_heap s)) p) as Hdat
    by (intros p Hp; apply Hd; apply held_nodes; done).
  assert (∀ p, p ∈ held a' → homed (l_cells l') i p) as Hhome.
  { intros p Hp. specialize (Hdat p Hp). destruct (decide (p = e)) as [->|Hpe].
    - unfold dat_of in Hdat. destruct (l_cells l' !! e) as [x|] eqn:Hx; [|done]. unfold dat in Hdat. cbn in Hdat. injection Hdat as _ _ _ Hk Hh.
      exists x. rewrite Hh, Hk. done.
    - destruct (Hsub p Hp) as [?|Hp']; [done|]. eapply homed_dat; [by eapply (ci_home _ _ Hi)|done]. }
  pose proof (cinv_step s As i sh a l' a' Hi Hsh Ha Hrep' Hok' E1 E2 Ho Hsub Hhome) as Hi'. set (s' := s <| cs_heap := l_heap l' |> <| cs_shard := _ |>) in Hi'.
  destruct (fresh_out _ _ (proj2 Hok) (proj1 (proj1 Hok))) as (Hfr & Hnone & He0). cbn [l_heap l_sh] in Hfr, Hnone, He0. fold e in Hfr, Hnone, He0.
  assert (e ∈ a_cli a') as Hecli by (unfold a'; rewrite abs_insert_cli; multiset_solver).
  assert (e ∈ held a') as Heh by (apply (proj1 Hrep') in Hecli; unfold held; set_solver).
  assert (∃ x, l_cells l' !! e = Some x ∧ lh_key x = key ∧ lh_value x = v) as (x & Hx & Hxk & Hxv).
  { specialize (Hdat e Heh). rewrite decide_True in Hdat by done. unfold dat_of in Hdat. destruct (l_cells l' !! e) as [x|]; [|done].
    unfold dat in Hdat. cbn in Hdat. injection Hdat as Hxv _ _ Hxk _. exists x. done. }
  exists e, s', (<[i := a']> As), sh, (l_sh l'), a'. split_and!; [|exact Hi'|exact He0| | |exact Hsh| |reflexivity|reflexivity|exact E3|by rewrite E4| | | | | |].
  - unfold Cache_Insert. rewrite Ei. apply (on_shard_run _ s i sh e l' Hsh R).
  - apply (handles_insert As i a); [exact Ha|]. apply abs_insert_cli.
  - rewrite <- Hxv. apply value_run; [exact He0|exact Hx].
  - apply list_lookup_insert_eq. done.
  - intros Hcap. apply (contents_iff _ _ _ _ Hi'). exists e, x. split_and!; [|exact Hx|exact Hxk|exact Hxv].
    apply cached_insert; [done|]. left. apply elem_of_app. right. apply abs_insert_self; [done|].
    destruct (Hf Hcap) as [[-> _]|(_ & Hin & _)]; [congruence|]. intros ->. apply Hfr, held_nodes. unfold held. set_solver.
  - intros key' v' Hne Hc. apply (contents_iff _ _ _ _ Hi') in Hc as (p & y & Hp & Hy & Hk & Hv).
    change (l_cells l' !! p = Some y) in Hy. apply cached_insert in Hp; [|done].
    assert (p ≠ e) as Hpe by (intros ->; rewrite Hx in Hy; injection Hy as <-; congruence).
    assert (p ∈ cached As ∧ dat_of (l_cells l') p = dat_of (hp_cells (cs_heap s)) p) as [Hpc Hdp].
    { destruct Hp as [Hp|(j & b & Hj & Hb & Hp)].
      - split; [|rewrite Hdat by (unfold held; set_solver); rewrite decide_False by done; done].
        apply (cached_at As i a); [exact Ha|]. left. apply abs_insert_table in Hp as [?|?]; done.
      - split; [apply elem_of_cached; eauto|]. unfold dat_of. erewrite (others_same s As i sh a (l_cells l')); try done. unfold held. set_solver. }
    destruct (dat_some _ _ _ _ (eq_sym Hdp) Hy) as (z & Hz & E). unfold dat in E. injection E as F1 _ _ F2 _.
    apply (contents_iff _ _ _ _ Hi). exists p, z. rewrite F1, F2. done.
  - intros p Hp. split; [apply abs_insert_table in Hp as [?|?]; eauto|].
    assert (p ∈ held a') as Hph by (unfold held; set_solver). specialize (Hdat p Hph). change (hp_cells (cs_heap s')) with (l_cells l').
    destruct (decide (p = e)) as [->|Hpe]; [|by apply dat_charge]. unfold dat_of, dat in Hdat. unfold charge_of.
    destruct (l_cells l' !! e); [|done]. cbn in Hdat. congruence.
  - intros j b p Hj Hb Hp. by apply (others_same s As i sh a (l_cells l') j b p).
  - exists a, old, k. split_and!; [exact Ha|reflexivity|exact Hf|exact Hnone| |exact Hmin].
    intros p Hp Hpe. specialize (Hdat p Hp). rewrite decide_False in Hdat by done. exact Hdat.
  - pose proof (proj1 (proj1 Hok)) as Hcore. set (b := abs_insert (capacity_ sh) e old a) in *. pose proof (nodup_held _ _ _ Hcore) as Hnh.
    assert (del_of (l_cells l') e = [(d, key, v)]) as Ede.
    { specialize (Hdat e Heh). rewrite decide_True in Hdat by done. unfold del_of, dat_of, dat in *. destruct (l_cells l' !! e); [|done]. cbn in Hdat. congruence. }
    assert (∀ q, q ∈ a_lru b → q ∈ a_lru a) as Hlb.
    { intros q. unfold b, abs_insert, abs_put, abs_erase, abs_new, abs_uncached. destruct (0 <? capacity_ sh), (old =? 0); cbn; try done. by intros [_ ?]%elem_of_without. }
    assert (settles s As s' (<[i := a']> As) ([e] ≫= del_of (l_cells l'))) as Hse; [|cbn in Hse; rewrite Ede in Hse; exact Hse].
    set (P0 := if decide (0 < capacity_ sh ∧ old ∈ a_lru a) then [old] else []) in *.
    apply (owed_step s As i sh a l' a' (P0 ++ take k (a_lru b)) [e]); [done..|exact Ho| | | | |exact Hdel|exact Hi'].
    + intros p Hp Hpe. rewrite Hdat, decide_False by set_solver. done.
    + intros p ->%list_elem_of_singleton Hp. apply Hfr, held_nodes. exact Hp.
    + intros p [Hp|Hp]%elem_of_app; [unfold P0 in Hp; destruct (decide _) as [[_ Hl]|]; [|by apply not_elem_of_nil in Hp]; apply list_elem_of_singleton in Hp as ->|apply subseteq_take, Hlb in Hp];
        unfold held; set_solver.
    + rewrite <- app_assoc. unfold a'. rewrite held_drop. apply held_insert; [done| | |].
      * intros Hin. apply Hfr, held_nodes. exact Hin.
      * intros Hcap. destruct (Hf Hcap) as [[-> _]|(_ & Hin & _)]; auto.
      * intros Hin. apply (co_nz _ _ _ Hcore), held_nodes. exact Hin.
Qed.

Lemma abs_erase_table r a p : p ∈ a_lru (abs_erase r a) ++ a_use (abs_erase r a) ↔ p ≠ r ∧ p ∈ a_lru a ++ a_use a.
Proof. unfold abs_erase. cbn. rewrite !elem_of_app, !elem_of_without. tauto. Qed.

Lemma abs_erase_held r a p : p ∈ held (abs_erase r a) → p ∈ held a.
Proof.
  unfold held. rewrite app_assoc. intros [Hp|Hp]%elem_of_app; [apply abs_erase_table in Hp; set_solver|].
  unfold abs_erase in Hp. cbn in Hp. destruct (decide (r ∈ a_use a)); set_solver.
Qed.

(** [Erase] removes the key, and no other; clients keep their handles. *)
Lemma Cache_Erase_run s As key : cinv s As →
  ∃ s' As', Cache_Erase key s = Ok (tt, s') ∧ cinv s' As' ∧ handles As' = handles As ∧ contents s' = delete key (contents s) ∧
    settles s As s' As' [] ∧ same_caps s s'.
Proof.
  intros Hi. destruct (cinv_find s As key Hi) as (sh & a & Hsh & Ha & Hok & Ei). set (i := Z.to_nat _) in *. clearbody i.
  destruct (Erase_run (MkLst (cs_heap s) sh) a key (HashSlice key) (proj1 Hok)) as (r & c' & t' & R & Hf & Hrep' & Hef).
  cbn [l_heap l_sh] in *. set (sh' := if r =? 0 then _ else _) in *. set (a' := if r =? 0 then a else abs_erase r a) in *.
  change (l_cells (MkLst (cs_heap s) sh)) with (hp_cells (cs_heap s)) in *.
  set (l' := put_mem c' _ _ <| l_sh := sh' |>) in R.
  assert (lru_ sh' = lru_ sh ∧ in_use_ sh' = in_use_ sh) as [E1 E2] by (unfold sh'; destruct (r =? 0); done).
  assert (i < length As)%nat as Hlt by (eapply lookup_lt_Some; exact Ha).
  assert (only (hp_next (cs_heap s) :: nodes sh a) (hp_cells (cs_heap s)) c') as Ho by (eapply only_weaken; [apply Hef|set_solver]).
  assert (∀ p, p ∈ held a' → p ∈ held a) as Hsub by (intros p; unfold a'; destruct (r =? 0); [done|apply abs_erase_held]).
  assert (∀ p, p ∈ held a' → dat_of c' p = dat_of (hp_cells (cs_heap s)) p) as Hd.
  { intros p Hp. apply (ef_dat _ _ _ _ _ Hef). apply held_nodes. exact Hp. }
  assert (cinv (s <| cs_heap := l_heap l' |> <| cs_shard := <[i := l_sh l']> (cs_shard s) |>) (<[i := a']> As)) as Hi'.
  { apply (cinv_step s As i sh a l' a'); try done; [|auto|].
    - eapply (heap_ok_step _ _ _ _ Hok). apply Hef.
    - intros p Hp. eapply homed_dat; [eapply (ci_home _ _ Hi i a); auto|auto]. }
  set (s' := s <| cs_heap := l_heap l' |> <| cs_shard := _ |>) in Hi'. exists s', (<[i := a']> As). split_and!; [|exact Hi'| | | |].
  - unfold Cache_Erase. rewrite Ei. apply (on_shard_run _ s i sh tt l' Hsh R).
  - rewrite (handles_insert As i a a' ∅); [apply (left_id_L ∅ (⊎))|exact Ha|].
    rewrite (left_id_L ∅ (⊎)). unfold a'. destruct (r =? 0); reflexivity.
  - apply map_eq. intros key'. apply option_eq. intros v. rewrite lookup_delete_Some, (contents_iff _ _ _ _ Hi), (contents_iff _ _ _ _ Hi').
    assert (∀ p x, p ∈ a_lru a ++ a_use a → hp_cells (cs_heap s) !! p = Some x → lh_key x = key → p = r) as Huniq.
    { intros p x Hp Hx Hk. destruct (ci_home _ _ Hi i a p Ha) as (x' & Hx' & Hh & _); [unfold held; set_solver|]. rewrite Hx in Hx'. injection Hx' as <-.
      assert (hit (hp_cells (cs_heap s)) key (HashSlice key) p = true) as Hhit by (apply hit_true; exists x; rewrite Hh, Hk; done).
      destruct Hf as [[-> Hm]|(_ & Hin & (y & Hy & _ & Hky)%hit_true)]; [rewrite Hm in Hhit by done; done|].
      eapply (cached_key s As p r x y Hi); [apply elem_of_cached; eauto..|exact Hx|exact Hy|congruence]. }
    assert (∀ p, p ∈ cached (<[i := a']> As) ↔ p ∈ cached As ∧ (p ∈ a_lru a ++ a_use a → r = 0 ∨ p ≠ r)) as Hc.
    { intros p. rewrite cached_insert, (cached_at As i a) by done. unfold a'. destruct (Z.eqb_spec r 0) as [->|Hr0]; [tauto|].
      rewrite abs_erase_table. split; [|intuition tauto].
      intros [[? ?]|(j & b & Hj & Hb & Hp)]; [tauto|]. split; [right; eauto|]. intros Hin. exfalso. apply Hj.
      destruct (cinv_shard _ _ _ _ Hi Hb) as [sh1 Hsh1].
      apply (ci_disjoint _ _ Hi j i sh1 b sh a p); [done..| |]; apply held_nodes; unfold held; set_solver. }
    assert (∀ p, p ∈ cached (<[i := a']> As) → dat_of c' p = dat_of (hp_cells (cs_heap s)) p) as Hdp.
    { intros p Hp. apply cached_insert in Hp as [Hp|(j & b & Hj & Hb & Hp)]; [apply Hd; unfold held; set_solver| |done].
      unfold dat_of. erewrite (others_same s As i sh a c'); try done. unfold held. set_solver. }
    split.
    + intros (p & x & Hp & Hx & Hk & Hv). change (c' !! p = Some x) in Hx.
      destruct (dat_some _ _ _ _ (eq_sym (Hdp p Hp)) Hx) as (y & Hy & E). unfold dat in E. injection E as F1 _ _ F2 _.
      apply Hc in Hp as [Hp Hpr]. split; [|exists p, y; rewrite F1, F2; done]. intros <-.
      apply (cached_at As i a) in Hp as [Hp|(j & b & Hj & Hb & Hp)]; [| |done].
      * pose proof (Huniq p y Hp Hy (eq_trans F2 Hk)) as Epr. destruct (Hpr Hp) as [Er|Hpr']; [|done].
        subst p. rewrite Er in Hp. assert (0 ≠ 0); [|done]. eapply nodes_nz; [apply (proj1 Hok)|apply held_nodes; unfold held; set_solver].
      * destruct (ci_home _ _ Hi j b p Hb) as (y' & Hy' & Hh & Hs); [unfold held; set_solver|]. rewrite Hy in Hy'. injection Hy' as <-.
        rewrite Hh, F2, Hk, Ei in Hs. lia.
    + intros [Hne (p & y & Hp & Hy & Hk & Hv)]. assert (p ∈ cached (<[i := a']> As)) as Hp'.
      { apply Hc. split; [done|]. intros Hin. destruct (decide (r = 0)); [auto|]. right. intros ->.
        destruct Hf as [[? _]|(_ & _ & (z & Hz & _ & Hkz)%hit_true)]; [done|]. rewrite Hy in Hz. injection Hz as <-. congruence. }
      destruct (dat_some _ _ _ _ (Hdp p Hp') Hy) as (x & Hx & E). unfold dat in E. injection E as F1 _ _ F2 _.
      exists p, x. rewrite F1, F2. done.
  - pose proof (proj1 (proj1 Hok)) as Hcore. pose proof (nodup_held _ _ _ Hcore) as Hnh.
    assert (r = 0 → r ∉ a_lru a) as Hr0 by (intros -> Hin; apply (co_nz _ _ _ Hcore), held_nodes; unfold held; set_solver).
    apply (owed_step s As i sh a l' a' (if decide (r ∈ a_lru a) then [r] else []) []); [done..|exact Ho| |by intros ? ?%not_elem_of_nil| | | |exact Hi'].
    + intros p Hp _. apply Hd. exact Hp.
    + intros p. destruct (decide _); [|by intros ?%not_elem_of_nil]. intros ->%list_elem_of_singleton. unfold held. set_solver.
    + unfold a'. destruct (Z.eqb_spec r 0) as [E|Hne]; [rewrite decide_False by auto; done|]. apply held_erase; [done|].
      destruct Hf as [[? _]|(_ & ? & _)]; done.
    + change (hp_dels (l_heap l')) with (hp_dels (cs_heap s) ++ if decide (r ∈ a_lru a) then del_of (hp_cells (cs_heap s)) r else []).
      destruct (decide _); [|done]. cbn. by rewrite app_nil_r.
  - eapply same_caps_insert; [exact Hsh|reflexivity|]. change (l_sh l') with sh'. unfold sh'. by destruct (r =? 0).
Qed.

(** ** Construction *)

(** The shards constructed so far: empty, with heads of their own. *)
Record fresh_shards (s : cst) : Prop := {
  fs_heap : heap_ok (cs_heap s);
  fs_rep : ∀ i sh, cs_shard s !! i = Some sh → rep (hp_cells (cs_heap s)) sh abs0;
  fs_disjoint : ∀ i j sh sh' p, cs_shard s !! i = Some sh → cs_shard s !! j = Some sh' →
    p ∈ nodes sh abs0 → p ∈ nodes sh' abs0 → i = j;
}.

Lemma construct_run s : fresh_shards s → ∃ s', construct_shard s = Ok (tt, s') ∧ fresh_shards s' ∧
  length (cs_shard s') = S (length (cs_shard s)) ∧ hp_dels (cs_heap s') = hp_dels (cs_heap s).
Proof.
  intros [Hok Hrep Hdis].
  destruct (LRUCache_new_run (MkLst (cs_heap s) (MkCache 0 0 0 0 (MkTable 0 0 []))) Hok) as (l & R & [Hr Hok'] & Hn & Hdl & E1 & E2 & Ho & _).
  cbn [l_heap l_sh] in *. change (l_cells (MkLst (cs_heap s) _)) with (hp_cells (cs_heap s)) in Ho. set (n := hp_next (cs_heap s)) in *.
  eexists. split; [unfold construct_shard; rewrite R; reflexivity|].
  assert (∀ i sh p, cs_shard s !! i = Some sh → p ∈ nodes sh abs0 → p ∉ [n; n + 1]) as Hold.
  { intros i sh p Hi Hp Hin. pose proof (nodes_live _ _ _ _ (proj1 (Hrep i sh Hi)) Hp) as Hl. apply (proj2 Hok) in Hl. fold n in Hl. set_solver by lia. }
  assert (∀ p, p ∈ nodes (l_sh l) abs0 → p ∈ [n; n + 1]) as Hnew by (unfold nodes; rewrite E1, E2; done).
  split_and!; [|rsimpl; rewrite length_app; cbn; lia|exact Hdl]. split; rsimpl.
  - exact Hok'.
  - intros i sh Hi. apply lookup_app_Some in Hi as [Hi|[Hge Hi]].
    + eapply nodes_only; [by eapply Hrep|exact Ho|]. intros p Hp. by eapply Hold.
    + destruct (i - length (cs_shard s))%nat; [|done]. injection Hi as <-. exact Hr.
  - intros i j sh sh' p Hi Hj Hp Hp'. apply lookup_app_Some in Hi as [Hi|[Hgi Hi]], Hj as [Hj|[Hgj Hj]].
    + by eapply Hdis.
    + destruct (j - length (cs_shard s))%nat; [|done]. injection Hj as <-. destruct (Hold i sh p Hi Hp). auto.
    + destruct (i - length (cs_shard s))%nat; [|done]. injection Hi as <-. destruct (Hold j sh' p Hj Hp'). auto.
    + apply lookup_lt_Some in Hi, Hj. cbn in Hi, Hj. lia.
Qed.

Lemma construct_all n : ∀ s, fresh_shards s → ∃ s', repeat_m n construct_shard s = Ok (tt, s') ∧ fresh_shards s' ∧
  length (cs_shard s') = (n + length (cs_shard s))%nat ∧ hp_dels (cs_heap s') = hp_dels (cs_heap s).
Proof.
  induction n as [|n IH]; intros s Hs; [exists s; done|]. cbn. destruct (construct_run s Hs) as (s1 & R1 & Hs1 & Hl1 & Hd1).
  destruct (IH s1 Hs1) as (s' & R & Hs' & Hl & Hd). exists s'. split_and!; [|done|lia|congruence]. eapply bind_run; done.
Qed.

Lemma set_capacities n : ∀ (from : nat) s cap, (from + n ≤ length (cs_shard s))%nat →
  for_shards (Z.of_nat from) n (fun i => on_shard i (SetCapacity cap)) s =
    Ok (tt, s <| cs_shard := imap (fun i sh => if bool_decide (from ≤ i < from + n)%nat then sh <| capacity_ := cap |> else sh) (cs_shard s) |>).
Proof.
  induction n as [|n IH]; intros from s cap Hlen.
  - cbn [for_shards]. unfold mret, M_ret. do 2 f_equal. destruct s as [h l d]. cbn [cs_shard]. unfold set; cbn. f_equal.
    apply list_eq. intros i. rewrite list_lookup_imap. destruct (l !! i); cbn; [|done].
    rewrite bool_decide_false by lia. done.
  - cbn [for_shards]. assert (is_Some (cs_shard s !! from)) as [sh Hsh] by (apply lookup_lt_is_Some; lia).
    eapply bind_run; [eapply on_shard_run; [exact Hsh|reflexivity]|].
    replace (Z.of_nat from + 1) with (Z.of_nat (S from)) by lia. rewrite IH by (rsimpl; rewrite length_insert; lia).
    destruct s as [h l d]. unfold set; cbn in *. do 3 f_equal. apply list_eq. intros i. rewrite !list_lookup_imap.
    destruct (decide (i = from)) as [->|Hi].
    + rewrite list_lookup_insert_eq by (eapply lookup_lt_Some; done). rewrite Hsh. cbn.
      rewrite bool_decide_false, bool_decide_true by lia. done.
    + rewrite list_lookup_insert_ne by done. destruct (l !! i); [|done]. cbn. do 2 f_equal.
      destruct (decide (from ≤ i < from + S n)%nat); [rewrite !bool_decide_true by lia|rewrite !bool_decide_false by lia]; done.
Qed.

Lemma rep_capacity c sh a cap : rep c sh a → rep c (sh <| capacity_ := cap |>) a.
Proof. intros [Hc (bk & Ht)]. split; [split; apply Hc|exists bk; exact Ht]. Qed.

(** A new cache is empty, and each shard has its part of the capacity. *)
Lemma NewLRUCache_run s capacity : heap_ok (cs_heap s) →
  ∃ s', NewLRUCache capacity s = Ok (tt, s') ∧ cinv s' (replicate (Z.to_nat kNumShards) abs0) ∧ contents s' = ∅ ∧
    hp_dels (cs_heap s') = hp_dels (cs_heap s) ∧
    (∀ i sh, cs_shard s' !! i = Some sh → capacity_ sh = per_shard capacity).
Proof.
  intros Hok. destruct (construct_all (Z.to_nat kNumShards) (s <| cs_shard := [] |>)) as (s1 & R1 & [Hok1 Hrep1 Hdis1] & Hl1 & Hd1).
  { split; [exact Hok|done|done]. }
  change (cs_shard (s <| cs_shard := [] |>)) with (@nil LRUCache) in Hl1. cbn [length] in Hl1. rewrite Nat.add_0_r in Hl1.
  set (cap := per_shard capacity). set (s2 := s1 <| cs_last_id := 0 |>).
  set (f i sh := if bool_decide (0 ≤ i < 0 + Z.to_nat kNumShards)%nat then sh <| capacity_ := cap |> else sh : LRUCache).
  exists (s2 <| cs_shard := imap f (cs_shard s1) |>).
  assert (∀ i sh, imap f (cs_shard s1) !! i = Some sh → ∃ sh1, cs_shard s1 !! i = Some sh1 ∧ sh = sh1 <| capacity_ := cap |>) as Hf.
  { intros i sh Hi. rewrite list_lookup_imap in Hi. destruct (cs_shard s1 !! i) as [sh1|] eqn:Hs1; [|done]. cbn in Hi. injection Hi as <-.
    exists sh1. split; [done|]. unfold f. rewrite bool_decide_true; [done|]. apply lookup_lt_Some in Hs1. lia. }
  assert (cinv (s2 <| cs_shard := imap f (cs_shard s1) |>) (replicate (Z.to_nat kNumShards) abs0)) as Hi.
  { split; rsimpl.
    - rewrite length_imap. done.
    - rewrite length_replicate, length_imap. done.
    - intros i sh a Hi [-> _]%lookup_replicate. apply Hf in Hi as (sh1 & Hs1 & ->). apply rep_capacity. by eapply Hrep1.
    - exact Hok1.
    - intros i j sh a sh' a' p Hi [-> _]%lookup_replicate Hj [-> _]%lookup_replicate Hp Hp'.
      apply Hf in Hi as (sh1 & Hs1 & ->), Hj as (sh2 & Hs2 & ->). by apply (Hdis1 i j sh1 sh2 p).
    - intros i a p [-> _]%lookup_replicate Hp. by apply not_elem_of_nil in Hp. }
  split_and!; [|exact Hi| |exact Hd1|].
  - unfold NewLRUCache. eapply bind_run; [apply modify_run|]. eapply bind_run; [exact R1|]. eapply bind_run; [apply modify_run|].
    apply (set_capacities _ 0 s2 cap). change (cs_shard s2) with (cs_shard s1). lia.
  - apply map_eq. intros key. rewrite lookup_empty. destruct (contents _ !! key) as [v|] eqn:Hc; [|done].
    apply (contents_iff _ _ _ _ Hi) in Hc as (p & x & Hp & _). apply elem_of_cached in Hp as (i & a & [-> _]%lookup_replicate & Hp).
    by apply not_elem_of_nil in Hp.
  - intros i sh Hs. apply Hf in Hs as (sh1 & _ & ->). done.
Qed.
(** ** Room *)

Lemma total_nonneg c l : (∀ p, p ∈ l → 0 ≤ charge_of c p) → 0 ≤ total c l.
Proof. induction l as [|p l IH]; intros H; cbn [total]; [done|]. pose proof (H p ltac:(left)). assert (0 ≤ total c l) by (apply IH; intros; apply H; by right). lia. Qed.

Lemma total_sub c l k : (∀ p, p ∈ k → 0 ≤ charge_of c p) → l ⊆+ k → 0 ≤ total c l ≤ total c k.
Proof.
  intros Hk [m Hm]%submseteq_Permutation. rewrite (total_perm c _ _ Hm), total_app. assert (∀ p, p ∈ l ++ m → 0 ≤ charge_of c p) as H by (intros p; rewrite <- Hm; auto).
  pose proof (total_nonneg c l ltac:(intros; apply H; set_solver)). pose proof (total_nonneg c m ltac:(intros; apply H; set_solver)). lia.
Qed.

Lemma abs_insert_sub cap e old a : let a1 := abs_insert cap e old a in a_lru a1 ++ a_use a1 ⊆+ e :: a_lru a ++ a_use a.
Proof.
  assert (∀ l, without old l ⊆+ l) as Hw by (intros l; apply sublist_submseteq, sublist_filter).
  unfold abs_insert, abs_put, abs_erase, abs_new, abs_uncached. destruct (0 <? cap), (old =? 0); cbn.
  - rewrite Permutation_app_comm. cbn. solve_submseteq.
  - etransitivity; [apply submseteq_app; apply Hw|]. solve_submseteq.
  - solve_submseteq.
  - solve_submseteq.
Qed.

Lemma abs_insert_keeps cap e old a p : 0 < cap → p ∈ a_lru a ++ a_use a → p ≠ old → p ≠ e →
  let a1 := abs_insert cap e old a in p ∈ a_lru a1 ++ a_use a1.
Proof.
  intros Hcap Hp Ho He. unfold abs_insert. rewrite (proj2 (Z.ltb_lt _ _) Hcap). unfold abs_put. cbv zeta.
  destruct (old =? 0); [|apply abs_erase_table; split; [done|]]; unfold abs_new; cbn; set_solver.
Qed.

(** While the charge of the shard stays within its capacity nothing is evicted:
    [Insert] is the insertion into a map. *)
Lemma Cache_Insert_room s As key v charge d sh a : cinv s As → roomy As → let i := Z.to_nat (Shard (HashSlice key)) in
  cs_shard s !! i = Some sh → As !! i = Some a → 0 ≤ charge → 0 < capacity_ sh < 2 ^ 64 →
  (∀ p, p ∈ a_lru a ++ a_use a → 0 ≤ charge_of (hp_cells (cs_heap s)) p) →
  total (hp_cells (cs_heap s)) (a_lru a ++ a_use a) + charge ≤ capacity_ sh →
  ∃ r s', Cache_Insert key v charge d s = Ok (r, s') ∧ contents s' = <[key := v]> (contents s).
Proof.
  intros Hi Hroom i Hsh Ha Hch Hcap Hnn Htot.
  destruct (Cache_Insert_run s As key v charge d Hi Hroom) as (r & s1 & As1 & sh0 & sh1 & a1 & R1 & Hi1 & Hr0 & Hh1 & Rv & Hsh0 & Hsh1 & EA & ES & Ecap & Hu
    & Hkey & Hoth & Hent & Hfar & (a0 & old & k & Ha0 & Ea1 & Hf & Hnone & Hdat & Hmin) & _). fold i in Hsh0, Hsh1, EA, ES, Hent, Hfar, Ha0. clearbody i.
  rewrite Hsh in Hsh0. injection Hsh0 as <-. rewrite Ha in Ha0. injection Ha0 as <-. exists r, s1. split; [done|].
  set (c := hp_cells (cs_heap s)) in *. set (b := abs_insert (capacity_ sh) r old a) in *.
  assert (r ∉ a_lru a ++ a_use a) as Hr.
  { intros Hin. pose proof (nodes_live c sh a r (proj1 (ci_rep _ _ Hi i sh a Hsh Ha))) as Hl. rewrite Hnone in Hl. destruct Hl as [? ?]; [|done].
    apply held_nodes. unfold held. set_solver. }
  assert (k = 0)%nat as ->.
  { destruct k as [|k]; [done|]. specialize (Hmin 0%nat ltac:(lia)). rewrite drop_0 in Hmin. set (c1 := <[r := _]> c) in Hmin.
    assert (∀ p, p ∈ a_lru a ++ a_use a → charge_of c1 p = charge_of c p) as Hc1.
    { intros p Hp. unfold charge_of, c1. rewrite lookup_insert_ne; [done|]. intros ->. done. }
    assert (charge_of c1 r = charge) as Hcr by (unfold charge_of, c1; rewrite lookup_insert_eq; done).
    destruct (total_sub c1 _ (r :: a_lru a ++ a_use a) ltac:(intros p [->|Hp]%elem_of_cons; [lia|rewrite Hc1; auto]) (abs_insert_sub (capacity_ sh) r old a)) as [H1 H2].
    cbn [total] in H2. rewrite Hcr in H2. assert (total c1 (a_lru a ++ a_use a) = total c (a_lru a ++ a_use a)) as Et.
    { clear -Hc1. induction (a_lru a ++ a_use a) as [|p l IH]; [done|]. cbn. rewrite IH, Hc1 by set_solver. done. }
    fold b in H1, H2. rewrite (wrap_id 64) in Hmin by (split; lia). lia. }
  apply map_eq. intros key'. destruct (decide (key' = key)) as [->|Hne]; [rewrite lookup_insert_eq; apply Hkey; lia|]. rewrite lookup_insert_ne by done.
  apply option_eq. intros v'. split; [apply Hoth; done|]. intros (p & x & Hp & Hx & Hk & Hv)%(contents_iff _ _ _ _ Hi).
  assert (i < length As)%nat as Hlt by (eapply lookup_lt_Some; done). apply (contents_iff _ _ _ _ Hi1). apply (cached_at As i a) in Hp; [|done].
  destruct Hp as [Hp|(j & b' & Hj & Hb' & Hp)].
  - assert (p ∈ a_lru a1 ++ a_use a1) as Hp1.
    { rewrite Ea1. unfold abs_drop. cbn [a_lru a_use]. rewrite drop_0. apply abs_insert_keeps; [lia|done| |intros ->; done].
      intros ->. destruct (Hf ltac:(lia)) as [[-> _]|(_ & _ & (y & Hy & E)%hit_true)]; [|fold c in Hx; rewrite Hx in Hy; injection Hy as <-; naive_solver].
      by apply (nodes_nz c sh a 0 (proj1 (ci_rep _ _ Hi i sh a Hsh Ha))); [apply held_nodes; unfold held; set_solver|]. }
    assert (dat_of (hp_cells (cs_heap s1)) p = dat_of c p) as Hd by (apply Hdat; [unfold held; set_solver|intros ->; done]).
    destruct (dat_some _ _ _ _ Hd Hx) as (y & Hy & E). unfold dat in E. injection E as F1 _ _ F2 _.
    exists p, y. rewrite F1, F2. split_and!; [|done|done|done]. rewrite EA. apply cached_insert; [done|]. auto.
  - exists p, x. split_and!; [|by rewrite (Hfar j b' p); [| | |unfold held; set_solver]|done|done]. rewrite EA. apply cached_insert; [done|]. right. eauto.
Qed.

End LruShard.
