(* ===== verification/LruProps.v ===== *)
(** * Correctness of the cache

    What a client of the cache of src/ic-dpi/ic-leveldb/util/cache.cc can rely on,
    over every sequence of calls in which it releases only handles it holds. *)

From S2P Require Import Prelude LruTable LruCache LruInv LruOps LruShard.
From stdpp Require Import base gmap gmultiset list strings.
From Stdlib Require Import ZArith Lia.
Import LruTable LruCache LruInv LruOps LruShard.

Open Scope Z_scope.

Module LruProps.

(** ** Prune *)

Lemma contents_sub s As s' As' : cinv s As → cinv s' As' → (∀ p, p ∈ cached As' → p ∈ cached As ∧
    dat_of (hp_cells (cs_heap s')) p = dat_of (hp_cells (cs_heap s)) p) → contents s' ⊆ contents s.
Proof.
  intros Hi Hi' Hp. apply map_subseteq_spec. intros key v (p & x & Hin & Hx & Hk & Hv)%(contents_iff _ _ _ _ Hi').
  destruct (Hp p Hin) as [Hc Hd]. destruct (dat_some _ _ _ _ (eq_sym Hd) Hx) as (y & Hy & E). unfold dat in E. injection E as F1 _ _ F2 _.
  apply (contents_iff _ _ _ _ Hi). exists p, y. rewrite F1, F2. done.
Qed.

Definition abs_prune (a : abs) : abs := MkAbs [] (a_use a) (a_det a) (a_cli a).

Lemma prune_shard_run s As i sh a : cinv s As → cs_shard s !! i = Some sh → As !! i = Some a →
  ∃ s', on_shard (Z.of_nat i) Prune s = Ok (tt, s') ∧ cinv s' (<[i := abs_prune a]> As) ∧ contents s' ⊆ contents s ∧
    settles s As s' (<[i := abs_prune a]> As) [] ∧ same_caps s s'.
Proof.
  intros Hi Hsh Ha. pose proof (ci_rep _ _ Hi i sh a Hsh Ha) as Hrep. pose proof Hrep as [Hc _]. set (l := MkLst (cs_heap s) sh).
  assert (i < length As)%nat as Hlt by (eapply lookup_lt_Some; exact Ha).
  destruct (prune_loop_run (a_lru a) (ring_fuel l) l a Hrep eq_refl) as (c' & u & t & R & Hrep' & Hef); [eapply lru_fuel; exact Hc|].
  set (l' := put_mem c' _ l <| l_sh := _ |>) in R.
  assert (∀ p, p ∈ held (abs_prune a) → p ∈ held a) as Hsub by (intros p; unfold held, abs_prune; cbn; set_solver).
  assert (∀ p, p ∈ held (abs_prune a) → dat_of c' p = dat_of (hp_cells (cs_heap s)) p) as Hd.
  { intros p Hp. apply (ef_dat _ _ _ _ _ Hef), held_nodes. exact Hp. }
  assert (only (hp_next (cs_heap s) :: nodes sh a) (hp_cells (cs_heap s)) c') as Ho by (eapply only_weaken; [apply Hef|set_solver]).
  assert (cinv (s <| cs_heap := l_heap l' |> <| cs_shard := <[i := l_sh l']> (cs_shard s) |>) (<[i := abs_prune a]> As)) as Hi'.
  { apply (cinv_step s As i sh a l' (abs_prune a)); try done; [|auto|].
    - eapply (heap_ok_step l a); [split; [exact Hrep|apply Hi]|]. apply Hef.
    - intros p Hp. eapply homed_dat; [eapply (ci_home _ _ Hi i a); auto|auto]. }
  eexists. split_and!; [|exact Hi'| | |by eapply same_caps_insert].
  - eapply on_shard_run; [exact Hsh|]. unfold Prune. eapply bind_run; [apply gets_run|]. exact R.
  - eapply contents_sub; [exact Hi|exact Hi'|]. intros p Hp. apply cached_insert in Hp as [Hp|(j & b & Hj & Hb & Hp)]; [| |done].
    + split; [apply elem_of_cached; exists i, a; split; [done|]; cbn in Hp; set_solver|]. apply Hd. unfold held. set_solver.
    + split; [apply elem_of_cached; eauto|]. unfold dat_of. erewrite (others_same s As i sh a c'); try done. unfold held. set_solver.
  - apply (owed_step s As i sh a l' (abs_prune a) (a_lru a) []); [done..|exact Ho| |by intros ? ?%not_elem_of_nil| |done| |exact Hi'].
    + intros p Hp _. apply Hd. exact Hp.
    + intros p Hp. unfold held. set_solver.
    + change (hp_dels (l_heap l')) with (hp_dels (cs_heap s) ++ concat (del_of (hp_cells (cs_heap s)) <$> a_lru a)). by rewrite concat_bind.
Qed.

Lemma settles_trans s As s1 As1 s2 As2 n1 n2 : settles s As s1 As1 n1 → settles s1 As1 s2 As2 n2 → handles As1 = handles As →
  settles s As s2 As2 (n2 ++ n1).
Proof.
  intros [H1 K1] [H2 K2] Eh. split; [rewrite H2, H1; by rewrite app_assoc|]. intros p Hp Hp2. rewrite K2, K1; [done|done|by rewrite Eh..|done].
Qed.

Lemma prune_shards_run n : ∀ i s As, cinv s As → (i + n ≤ length (cs_shard s))%nat →
  ∃ s' As', for_shards (Z.of_nat i) n (fun i => on_shard i Prune) s = Ok (tt, s') ∧ cinv s' As' ∧ contents s' ⊆ contents s ∧
    handles As' = handles As ∧ settles s As s' As' [] ∧ same_caps s s'.
Proof.
  induction n as [|n IH]; intros i s As Hi Hn; [exists s, As; split_and!; try done; split; done|]. cbn [for_shards].
  assert (is_Some (cs_shard s !! i)) as [sh Hsh] by (apply lookup_lt_is_Some; lia).
  assert (is_Some (As !! i)) as [a Ha] by (apply lookup_lt_is_Some; rewrite (ci_length _ _ Hi); lia).
  destruct (prune_shard_run s As i sh a Hi Hsh Ha) as (s1 & R1 & Hi1 & Hc1 & Hs1 & Hk1).
  assert (length (cs_shard s1) = length (cs_shard s)) as Hl1 by (rewrite (ci_count _ _ Hi1), (ci_count _ _ Hi); done).
  destruct (IH (S i) s1 _ Hi1 ltac:(lia)) as (s2 & As2 & R2 & Hi2 & Hc2 & Hh2 & Hs2 & Hk2).
  assert (handles (<[i := abs_prune a]> As) = handles As) as Hh1 by (rewrite (handles_insert As i a (abs_prune a) ∅ Ha); rewrite (left_id_L ∅ (⊎)); done).
  exists s2, As2. split_and!; [|exact Hi2|by transitivity (contents s1)|by rewrite Hh2|exact (settles_trans _ _ _ _ _ _ _ _ Hs1 Hs2 Hh1)|exact (eq_trans Hk2 Hk1)].
  eapply bind_run; [exact R1|]. replace (Z.of_nat i + 1) with (Z.of_nat (S i)) by lia. exact R2.
Qed.

Lemma Cache_Prune_run s As : cinv s As → ∃ s' As', Cache_Prune s = Ok (tt, s') ∧ cinv s' As' ∧ contents s' ⊆ contents s ∧
  handles As' = handles As ∧ settles s As s' As' [] ∧ same_caps s s'.
Proof. intros Hi. apply (prune_shards_run _ 0); [done|]. pose proof (ci_count _ _ Hi). lia. Qed.
(** ** The destructor *)

Lemma held_released c sh a : core c sh a → a_cli a = ∅ → held a = a_lru a.
Proof.
  intros Hc Hcli. assert (∀ p, p ∉ a_use a ++ a_det a) as Hn.
  { intros p Hp. apply Hc in Hp. rewrite Hcli in Hp. by apply gmultiset_elem_of_empty in Hp. }
  unfold held. destruct (a_use a ++ a_det a) as [|p l]; [by rewrite app_nil_r|]. destruct (Hn p). left.
Qed.

(** The first [n] shards are destroyed: all their entries go to their deleters. *)
Lemma destroy_shards_run n : ∀ s As, length As = length (cs_shard s) → (n ≤ length As)%nat → heap_ok (cs_heap s) →
  (∀ i sh a, (i < n)%nat → cs_shard s !! i = Some sh → As !! i = Some a → rep (hp_cells (cs_heap s)) sh a ∧ a_cli a = ∅) →
  (∀ i j sh a sh' a' p, (i < n)%nat → (j < n)%nat → cs_shard s !! i = Some sh → As !! i = Some a →
    cs_shard s !! j = Some sh' → As !! j = Some a' → p ∈ nodes sh a → p ∈ nodes sh' a' → i = j) →
  ∃ s', destroy_shards n s = Ok (tt, s') ∧
    hp_dels (cs_heap s') ≡ₚ hp_dels (cs_heap s) ++ ((take n As ≫= held) ≫= del_of (hp_cells (cs_heap s))).
Proof.
  induction n as [|n IH]; intros s As Hl Hn Hok Hrep Hdis; [exists s; cbn; rewrite app_nil_r; done|]. cbn [destroy_shards].
  assert (is_Some (As !! n)) as [a Ha] by (apply lookup_lt_is_Some; lia).
  assert (is_Some (cs_shard s !! n)) as [sh Hsh] by (apply lookup_lt_is_Some; lia).
  destruct (Hrep n sh a ltac:(lia) Hsh Ha) as [Hr Hcli]. pose proof (held_released _ _ _ (proj1 Hr) Hcli) as Eh.
  destruct (LRUCache_delete_run (MkLst (cs_heap s) sh) a (conj Hr Hok) Hcli) as (c' & R & Hc').
  change (l_cells (MkLst (cs_heap s) sh)) with (hp_cells (cs_heap s)) in *. set (c := hp_cells (cs_heap s)) in *.
  set (l' := put_mem c' _ _) in R. set (s1 := s <| cs_heap := l_heap l' |> <| cs_shard := <[n := l_sh l']> (cs_shard s) |>).
  assert (only (a_lru a) c c') as Ho by (intros p Hp; rewrite Hc'; by rewrite decide_False).
  assert (∀ i sh' a' p, (i < n)%nat → cs_shard s !! i = Some sh' → As !! i = Some a' → p ∈ nodes sh' a' → p ∉ a_lru a) as Hfar.
  { intros i sh' a' p Hin Hi' Ha' Hp Hpl. assert (i = n); [|lia]. apply (Hdis i n sh' a' sh a p); try done; [lia..|].
    apply held_nodes. unfold held. set_solver. }
  assert (∀ i sh', (i < n)%nat → cs_shard s1 !! i = Some sh' → cs_shard s !! i = Some sh') as Hs1.
  { intros i sh' Hin Hi'. unfold s1 in Hi'. revert Hi'. rsimpl. rewrite list_lookup_insert_ne by lia. done. }
  assert ((take n As ≫= held) ≫= del_of c' = (take n As ≫= held) ≫= del_of c) as Ed.
  { apply Forall_bind_ext, Forall_forall. intros p (b & Hp & (i & (Hb & Hin)%lookup_take_Some)%list_elem_of_lookup)%list_elem_of_bind.
    unfold del_of. rewrite Ho; [done|]. assert (is_Some (cs_shard s !! i)) as [sh' Hsh'] by (apply lookup_lt_is_Some; lia).
    eapply (Hfar i sh' b); [lia|done|done|]. by apply held_nodes. }
  destruct (IH s1 As) as (s' & R' & Hd').
  - unfold s1. rsimpl. by rewrite length_insert.
  - lia.
  - destruct Hok as [H0 Hlt]. split; [exact H0|]. intros p [x Hx]. apply Hlt. change (c' !! p = Some x) in Hx. rewrite Hc' in Hx.
    destruct (decide _); [done|]. eauto.
  - intros i sh' b Hin Hi' Hb. apply Hs1 in Hi'; [|done]. destruct (Hrep i sh' b ltac:(lia) Hi' Hb) as [Hrb Hcb]. split; [|done].
    eapply nodes_only; [exact Hrb|exact Ho|]. intros p Hp. by eapply Hfar.
  - intros i j sh1 a1 sh2 a2 p Hin Hjn Hi1 Ha1 Hj2 Ha2. apply Hs1 in Hi1, Hj2; [|done..]. apply (Hdis i j sh1 a1 sh2 a2 p); try done; lia.
  - exists s'. split; [eapply bind_run; [eapply on_shard_run; [exact Hsh|exact R]|exact R']|]. rewrite Hd'.
    change (hp_cells (cs_heap s1)) with c'. rewrite Ed. change (hp_dels (cs_heap s1)) with (hp_dels (cs_heap s) ++ concat (del_of c <$> a_lru a)).
    rewrite (take_S_r As n a Ha), !bind_app, concat_bind. cbn. rewrite app_nil_r, Eh, <- app_assoc. f_equiv. apply Permutation_app_comm.
Qed.

Lemma Cache_delete_run s As : cinv s As → handles As = ∅ → ∃ s', Cache_delete s = Ok (tt, s') ∧
  hp_dels (cs_heap s') ≡ₚ hp_dels (cs_heap s) ++ owed s As.
Proof.
  intros Hi Hh. pose proof (ci_count _ _ Hi) as Hc. pose proof (ci_length _ _ Hi) as Hl.
  destruct (destroy_shards_run (Z.to_nat kNumShards) s As Hl ltac:(lia) (ci_heap _ _ Hi)) as (s' & R & Hd).
  - intros i sh a _ Hsh Ha. split; [by apply (ci_rep _ _ Hi i)|]. apply gmultiset_eq. intros p. rewrite multiplicity_empty.
    destruct (decide (p ∈ a_cli a)) as [Hp|]; [|by apply not_elem_of_multiplicity].
    assert (p ∈ handles As) as Hin by (apply elem_of_handles; eauto). rewrite Hh in Hin. by apply gmultiset_elem_of_empty in Hin.
  - intros i j sh a sh' a' p _ _. apply (ci_disjoint _ _ Hi).
  - exists s'. split; [exact R|]. rewrite Hd, (take_ge As) by lia. done.
Qed.
(** ** Clients *)

Inductive cop :=
  | CInsert (key : bytes) (value charge deleter : Z)
  | CLookup (key : bytes)
  | CRelease (handle : ptr)
  | CErase (key : bytes)
  | CPrune.

(** The call, and the handle it returns (null for a call that returns nothing). *)
Definition exec (o : cop) : M cst ptr :=
  match o with
  | CInsert key value charge deleter => Cache_Insert key value charge deleter
  | CLookup key => Cache_Lookup key
  | CRelease h => _ ← Cache_Release h; mret 0
  | CErase key => _ ← Cache_Erase key; mret 0
  | CPrune => _ ← Cache_Prune; mret 0
  end.

(** The cache, the handles its clients hold, and all that was inserted. *)
Record client := MkClient {
  cl_cache : cst;
  cl_held : gmultiset ptr;
  cl_inserted : list (Z * bytes * Z);
}.

Definition legal (o : cop) (c : client) : bool :=
  match o with CRelease h => bool_decide (h ∈ cl_held c) | _ => true end.

Definition held_after (o : cop) (h : ptr) (hs : gmultiset ptr) : gmultiset ptr :=
  match o with
  | CRelease h' => hs ∖ {[+ h' +]}
  | _ => if h =? 0 then hs else {[+ h +]} ⊎ hs
  end.

Definition made (o : cop) : list (Z * bytes * Z) :=
  match o with CInsert key value _ deleter => [(deleter, key, value)] | _ => [] end.

Definition step (o : cop) (c : client) : result (ptr * client) :=
  match exec o (cl_cache c) with
  | Ok (h, s) => Ok (h, MkClient s (held_after o h (cl_held c)) (made o ++ cl_inserted c))
  | Bad f => Bad f
  end.

(** The states after [n] calls on a new cache. *)
Inductive reach (capacity : Z) : nat → client → Prop :=
  | reach_new s : NewLRUCache capacity cst0 = Ok (tt, s) → reach capacity 0 (MkClient s ∅ [])
  | reach_step n c o h c' : reach capacity n c → legal o c = true → step o c = Ok (h, c') → reach capacity (S n) c'.

(** The specification: a finite map that may forget other keys on an insertion, and
    any on [Prune]. *)
Definition spec (o : cop) (m m' : gmap bytes Z) : Prop :=
  match o with
  | CInsert key value _ _ => m' !! key = Some value ∧ m' ⊆ <[key := value]> m
  | CErase key => m' = delete key m
  | CPrune => m' ⊆ m
  | CLookup _ | CRelease _ => m' = m
  end.

(** The value behind the handle that is returned. *)
Definition returns (o : cop) (m : gmap bytes Z) : option Z :=
  match o with
  | CInsert _ value _ _ => Some value
  | CLookup key => m !! key
  | _ => None
  end.

Definition value_of (h : ptr) (s : cst) : option Z :=
  if h =? 0 then None else match Cache_Value h s with Ok (v, _) => Some v | Bad _ => None end.

Record good (capacity : Z) (n : nat) (c : client) (As : list abs) : Prop := {
  go_inv : cinv (cl_cache c) As;
  go_held : handles As = cl_held c;
  go_paid : hp_dels (cs_heap (cl_cache c)) ++ owed (cl_cache c) As ≡ₚ cl_inserted c;
  go_handles : (size (cl_held c) ≤ n)%nat;
  go_size : (size (contents (cl_cache c)) ≤ n)%nat;
  go_cap : ∀ i sh, cs_shard (cl_cache c) !! i = Some sh → capacity_ sh = per_shard capacity;
}.

(** A shard holds no more entries than there are keys. *)
Lemma shard_size s As i a : cinv s As → As !! i = Some a → (length (a_lru a ++ a_use a) ≤ size (contents s))%nat.
Proof.
  intros Hi Ha. set (c := hp_cells (cs_heap s)). destruct (cinv_shard _ _ _ _ Hi Ha) as [sh Hsh].
  pose proof (ci_rep _ _ Hi i sh a Hsh Ha) as [Hc _]. set (l := a_lru a ++ a_use a).
  assert (NoDup l) as Hn by (eapply nodup_sub; [apply (co_nodup _ _ _ Hc)|]; unfold nodes, l; solve_submseteq).
  assert (∀ p, p ∈ l → p ∈ cached As ∧ ∃ x, c !! p = Some x) as Hl.
  { intros p Hp. split; [apply elem_of_cached; eauto|]. apply (nodes_live c sh a); [done|]. apply held_nodes. unfold held. unfold l in Hp. set_solver. }
  set (key p := match c !! p with Some x => lh_key x | None => [] end).
  assert (length l = size (list_to_set (C := gset bytes) (key <$> l))) as ->.
  { rewrite size_list_to_set, length_fmap; [done|]. apply NoDup_fmap_2_strong; [|done]. intros p q Hp Hq E.
    destruct (Hl p Hp) as (Hcp & x & Hx), (Hl q Hq) as (Hcq & y & Hy). unfold key in E. rewrite Hx, Hy in E. eapply (cached_key s As p q x y Hi); done. }
  rewrite <- size_dom. apply subseteq_size. intros k (p & -> & Hp)%elem_of_list_to_set%list_elem_of_fmap. destruct (Hl p Hp) as (Hcp & x & Hx).
  apply elem_of_dom. exists (lh_value x). apply (contents_iff _ _ _ _ Hi). exists p, x. unfold key. rewrite Hx. done.
Qed.

Lemma size_shard_cli As i a : As !! i = Some a → (size (a_cli a) ≤ size (handles As))%nat.
Proof.
  revert i. induction As as [|b As IH]; intros i Ha; [done|]. cbn [handles]. rewrite gmultiset_size_disj_union.
  destruct i; [injection Ha as ->; lia|]. specialize (IH i Ha). lia.
Qed.

Lemma good_roomy capacity n c As : good capacity n c As → Z.of_nat n < 2 ^ 31 → roomy As.
Proof.
  intros Hg Hn i a Ha. pose proof (size_shard_cli As i a Ha) as H1. pose proof (shard_size _ _ _ _ (go_inv _ _ _ _ Hg) Ha) as H2.
  rewrite (go_held _ _ _ _ Hg) in H1. pose proof (go_handles _ _ _ _ Hg). pose proof (go_size _ _ _ _ Hg). lia.
Qed.
Lemma value_of_eq h s : value_of h s = if h =? 0 then None else lh_value <$> hp_cells (cs_heap s) !! h.
Proof.
  unfold value_of, Cache_Value. destruct (Z.eqb_spec h 0) as [|H0]; [done|]. unfold mbind, M_bind, deref. cbn.
  rewrite (proj2 (Z.eqb_neq h 0) H0). change (the_cells s) with (hp_cells (cs_heap s)). destruct (hp_cells (cs_heap s) !! h); done.
Qed.

Lemma value_of_run h s v : h ≠ 0 → Cache_Value h s = Ok (v, s) → value_of h s = Some v.
Proof. intros H0 R. unfold value_of. by rewrite (proj2 (Z.eqb_neq _ _) H0), R. Qed.

Lemma value_of_dat h s s' : dat_of (hp_cells (cs_heap s')) h = dat_of (hp_cells (cs_heap s)) h → value_of h s' = value_of h s.
Proof.
  rewrite !value_of_eq. intros Hd. destruct (h =? 0); [done|]. unfold dat_of, dat in Hd.
  destruct (hp_cells (cs_heap s') !! h), (hp_cells (cs_heap s) !! h); cbn in *; congruence.
Qed.

(** What a call promises. *)
Definition promise (capacity : Z) (n : nat) (c : client) (o : cop) : Prop := ∃ h c' As',
  step o c = Ok (h, c') ∧ good capacity (S n) c' As' ∧ spec o (contents (cl_cache c)) (contents (cl_cache c')) ∧
  value_of h (cl_cache c') = returns o (contents (cl_cache c)) ∧
  ∀ p, p ∈ cl_held c → p ∈ cl_held c' → value_of p (cl_cache c') = value_of p (cl_cache c).

Lemma spec_size o m m' : spec o m m' → (size m' ≤ S (size m))%nat.
Proof.
  assert (∀ m1 : gmap bytes Z, m' ⊆ m1 → (size m' ≤ size m1)%nat) as Hs.
  { intros m1 H. rewrite <- !size_dom. apply subseteq_size. by apply subseteq_dom. }
  destruct o as [key v ch d| | |key|]; cbn; [|intros ->; lia..| |intros H%Hs; lia].
  - intros [_ H%Hs]. rewrite map_size_insert in H. destruct (m !! key); cbn in H; lia.
  - intros ->. rewrite map_size_delete. destruct (m !! key); cbn; lia.
Qed.

Lemma promise_intro capacity n c As o h s' As' : good capacity n c As → exec o (cl_cache c) = Ok (h, s') → cinv s' As' →
  handles As' = held_after o h (cl_held c) → settles (cl_cache c) As s' As' (made o) → same_caps (cl_cache c) s' →
  spec o (contents (cl_cache c)) (contents s') → value_of h s' = returns o (contents (cl_cache c)) → promise capacity n c o.
Proof.
  intros Hg R Hi' Hh [Hpay Hst] Hcap Hsp Hv. pose proof (go_held _ _ _ _ Hg) as Eh. eexists h, (MkClient s' _ _), As'.
  split_and!; [unfold step; rewrite R; reflexivity| |exact Hsp|exact Hv|].
  - split; cbn [cl_cache cl_held cl_inserted].
    + exact Hi'.
    + exact Hh.
    + rewrite Hpay. f_equiv. apply Hg.
    + pose proof (go_handles _ _ _ _ Hg). assert (∀ X : gmultiset ptr, size (cl_held c ∖ X) ≤ size (cl_held c))%nat as Hsz
        by (intros X; apply gmultiset_subseteq_size; multiset_solver).
      unfold held_after. destruct o; [destruct (h =? 0)..| | |]; rewrite ?gmultiset_size_disj_union, ?gmultiset_size_singleton; try lia.
      * rewrite Hsz. lia.
      * destruct (h =? 0); rewrite ?gmultiset_size_disj_union, ?gmultiset_size_singleton; lia.
      * destruct (h =? 0); rewrite ?gmultiset_size_disj_union, ?gmultiset_size_singleton; lia.
    + pose proof (spec_size _ _ _ Hsp). pose proof (go_size _ _ _ _ Hg). lia.
    + intros i sh Hs. assert ((capacity_ <$> cs_shard s') !! i = Some (capacity_ sh)) as Hc by (rewrite list_lookup_fmap, Hs; done).
      rewrite Hcap, list_lookup_fmap in Hc. destruct (cs_shard (cl_cache c) !! i) as [sh0|] eqn:Hs0; [|done]. cbn in Hc. injection Hc as <-.
      by apply (go_cap _ _ _ _ Hg i).
  - intros p Hp Hp'. cbn [cl_cache cl_held] in *. apply value_of_dat, Hst; [by rewrite Eh|by rewrite Hh].
Qed.

Lemma same_tables_caps s As s' As' : same_tables s As s' As' → same_caps s s'.
Proof. intros [E _]. unfold same_caps. by rewrite E. Qed.

(** Every call the client may make succeeds and keeps the promises. *)
Lemma good_step capacity n c As o : 0 < per_shard capacity → good capacity n c As → Z.of_nat n < 2 ^ 31 → legal o c = true →
  promise capacity n c o.
Proof.
  intros Hcap Hg Hn Hl. pose proof (go_inv _ _ _ _ Hg) as Hi. pose proof (go_held _ _ _ _ Hg) as Eh. pose proof (good_roomy _ _ _ _ Hg Hn) as Hroom.
  destruct o as [key v ch d|key|h|key|].
  - destruct (Cache_Insert_run _ As key v ch d Hi Hroom) as (r & s1 & As1 & sh & sh1 & a1 & R1 & Hi1 & Hr0 & Hh1 & Rv & Hsh & Hsh1 & EA & ES & Ecap & Hu
      & Hkey & Hoth & _ & _ & _ & Hset).
    eapply promise_intro; [exact Hg|exact R1|exact Hi1| |exact Hset|by eapply same_caps_insert| |by apply value_of_run].
    + cbn. rewrite (proj2 (Z.eqb_neq _ _) Hr0), <- Eh. exact Hh1.
    + cbn. pose proof (Hkey ltac:(rewrite (go_cap _ _ _ _ Hg _ _ Hsh); done)) as Hk. split; [done|]. apply map_subseteq_spec. intros k w Hw.
      destruct (decide (k = key)) as [->|Hne]; [rewrite lookup_insert_eq; congruence|]. rewrite lookup_insert_ne by done. by apply Hoth.
  - destruct (Cache_Lookup_run _ As key Hi Hroom) as (r & s1 & As1 & R1 & Hi1 & Hc1 & Hst1 & Hset & Hm).
    eapply promise_intro; [exact Hg|exact R1|exact Hi1| |exact Hset|by eapply same_tables_caps|exact Hc1|]; cbn; destruct (contents (cl_cache c) !! key).
    + destruct Hm as (Hr0 & Hh & _). rewrite (proj2 (Z.eqb_neq _ _) Hr0), <- Eh. exact Hh.
    + destruct Hm as (-> & Hh). by rewrite Hh.
    + destruct Hm as (Hr0 & _ & Rv). by apply value_of_run.
    + destruct Hm as (-> & _). done.
  - cbn in Hl. apply bool_decide_eq_true in Hl. destruct (Cache_Release_run _ As h Hi) as (s1 & As1 & R1 & Hi1 & Hc1 & Hst1 & Hset & Hh); [by rewrite Eh|].
    eapply (promise_intro _ _ _ _ _ 0); [exact Hg|cbn; eapply bind_run; [exact R1|done]|exact Hi1| |exact Hset|by eapply same_tables_caps|exact Hc1|done].
    cbn. rewrite <- Eh, Hh. clear. multiset_solver.
  - destruct (Cache_Erase_run _ As key Hi) as (s1 & As1 & R1 & Hi1 & Hh & Hc1 & Hset & Hcaps).
    eapply (promise_intro _ _ _ _ _ 0); [exact Hg|cbn; eapply bind_run; [exact R1|done]|exact Hi1| |exact Hset|exact Hcaps|exact Hc1|done].
    cbn. by rewrite Hh.
  - destruct (Cache_Prune_run _ As Hi) as (s1 & As1 & R1 & Hi1 & Hc1 & Hh & Hset & Hcaps).
    eapply (promise_intro _ _ _ _ _ 0); [exact Hg|cbn; eapply bind_run; [exact R1|done]|exact Hi1| |exact Hset|exact Hcaps|exact Hc1|done].
    cbn. by rewrite Hh.
Qed.

Lemma heap_ok_start : heap_ok (cs_heap cst0).
Proof. split; [reflexivity|]. intros p [x Hx]. exfalso. revert Hx. apply lookup_empty_Some. Qed.

Lemma reach_good capacity n c : 0 < per_shard capacity → reach capacity n c → Z.of_nat n ≤ 2 ^ 31 → ∃ As, good capacity n c As.
Proof.
  intros Hcap Hr. induction Hr as [s R|n c o h c' Hr IH Hl R]; intros Hn.
  - destruct (NewLRUCache_run cst0 capacity heap_ok_start) as (s' & R' & Hi & Hc & Hd & Hcp). rewrite R in R'. injection R' as <-.
    exists (replicate (Z.to_nat kNumShards) abs0). split; cbn [cl_cache cl_held cl_inserted]; [exact Hi|reflexivity| |reflexivity|by rewrite Hc|exact Hcp].
    rewrite Hd. unfold owed. reflexivity.
  - destruct IH as [As Hg]; [lia|]. destruct (good_step _ _ _ _ o Hcap Hg ltac:(lia) Hl) as (h' & c1 & As' & R' & Hg' & _).
    rewrite R in R'. injection R' as -> ->. eauto.
Qed.
(** ** The theorems *)

Lemma handle_value s As h : cinv s As → h ∈ handles As → is_Some (value_of h s).
Proof.
  intros Hi (i & a & Ha & Hp)%(handle_held _ _ _ Hi). destruct (cinv_shard _ _ _ _ Hi Ha) as [sh Hsh]. pose proof (proj1 (ci_rep _ _ Hi i sh a Hsh Ha)) as Hc.
  apply (held_nodes sh) in Hp. destruct (nodes_live _ _ _ _ Hc Hp) as [x Hx]. rewrite value_of_eq, (proj2 (Z.eqb_neq _ _) (nodes_nz _ _ _ _ Hc Hp)), Hx. eauto.
Qed.

Lemma elem_of_owed s As i a p x : As !! i = Some a → p ∈ held a → hp_cells (cs_heap s) !! p = Some x → (lh_deleter x, lh_key x, lh_value x) ∈ owed s As.
Proof.
  intros Ha Hp Hx. unfold owed. apply list_elem_of_bind. exists p. split; [unfold del_of; rewrite Hx; left|].
  apply list_elem_of_bind. exists a. split; [done|]. by eapply list_elem_of_lookup_2.
Qed.

(** C8: the sharded LRU cache of leveldb refines a finite map: after any sequence of
    fewer than 2^31 calls in which clients release only handles they hold, every call
    passes its assertions and touches only live memory, Lookup returns a handle of the
    value of the key (or null when it has none), Insert makes its value the one of the
    key and may only forget other keys, Erase removes exactly its key, Prune only
    forgets, and a handle that is still held keeps its value. *)
Theorem cache_refines_map capacity n c o : 0 < per_shard capacity → reach capacity n c → Z.of_nat n < 2 ^ 31 → legal o c = true →
  ∃ h c', step o c = Ok (h, c') ∧ spec o (contents (cl_cache c)) (contents (cl_cache c')) ∧
    value_of h (cl_cache c') = returns o (contents (cl_cache c)) ∧
    ∀ p, p ∈ cl_held c → p ∈ cl_held c' → value_of p (cl_cache c') = value_of p (cl_cache c) ∧ is_Some (value_of p (cl_cache c')).
Proof.
  intros Hcap Hr Hn Hl. destruct (reach_good _ _ _ Hcap Hr ltac:(lia)) as [As Hg].
  destruct (good_step _ _ _ _ o Hcap Hg Hn Hl) as (h & c' & As' & R & Hg' & Hsp & Hv & Hst). exists h, c'. split_and!; [done..|].
  intros p Hp Hp'. split; [by apply Hst|]. by eapply (handle_value _ As'); [apply Hg'|rewrite (go_held _ _ _ _ Hg')].
Qed.

(** C14: reference counting neither leaks nor frees twice: after any such sequence the
    deleter calls made so far and the entries still alive are together exactly the
    entries inserted, every cached entry and every entry a client holds is among those
    alive, and once no handle is held the destructor passes its checks and brings the
    calls to exactly one per insertion. *)
Theorem deleter_exactly_once capacity n c : 0 < per_shard capacity → reach capacity n c → Z.of_nat n ≤ 2 ^ 31 →
  ∃ alive, hp_dels (cs_heap (cl_cache c)) ++ alive ≡ₚ cl_inserted c ∧
    (∀ key v, contents (cl_cache c) !! key = Some v → ∃ d, (d, key, v) ∈ alive) ∧
    (∀ h, h ∈ cl_held c → ∃ d key v, value_of h (cl_cache c) = Some v ∧ (d, key, v) ∈ alive) ∧
    (cl_held c = ∅ → ∃ s', Cache_delete (cl_cache c) = Ok (tt, s') ∧ hp_dels (cs_heap s') ≡ₚ cl_inserted c).
Proof.
  intros Hcap Hr Hn. destruct (reach_good _ _ _ Hcap Hr Hn) as [As Hg]. pose proof (go_inv _ _ _ _ Hg) as Hi.
  exists (owed (cl_cache c) As). split_and!.
  - apply Hg.
  - intros key v (p & x & Hp & Hx & <- & <-)%(contents_iff _ _ _ _ Hi). apply elem_of_cached in Hp as (i & a & Ha & Hp).
    exists (lh_deleter x). eapply elem_of_owed; [exact Ha| |exact Hx]. unfold held. set_solver.
  - intros h Hh. rewrite <- (go_held _ _ _ _ Hg) in Hh. destruct (handle_held _ _ _ Hi Hh) as (i & a & Ha & Hp).
    destruct (handle_value _ _ _ Hi Hh) as [v Hv]. rewrite value_of_eq in *. destruct (h =? 0); [done|].
    destruct (hp_cells _ !! h) as [x|] eqn:Hx; [|done]. exists (lh_deleter x), (lh_key x), (lh_value x). split; [done|]. by eapply elem_of_owed.
  - intros He. rewrite <- (go_held _ _ _ _ Hg) in He. destruct (Cache_delete_run _ _ Hi He) as (s' & R & Hd). exists s'. split; [done|].
    rewrite Hd. apply Hg.
Qed.

(** ** A session *)

Fixpoint run_ops (ops : list cop) (c : client) : result client :=
  match ops with
  | [] => Ok c
  | o :: ops' => if legal o c then match step o c with Ok (_, c') => run_ops ops' c' | Bad f => Bad f end else Bad Aborted
  end.

Definition run (capacity : Z) (ops : list cop) : result client :=
  match NewLRUCache capacity cst0 with Ok (_, s) => run_ops ops (MkClient s ∅ []) | Bad f => Bad f end.

Lemma run_ops_reach capacity ops : ∀ n c c', reach capacity n c → run_ops ops c = Ok c' → reach capacity (length ops + n) c'.
Proof.
  induction ops as [|o ops IH]; intros n c c' Hr R; cbn in R; [by injection R as <-|]. destruct (legal o c) eqn:Hl; [|done].
  destruct (step o c) as [[h c1]|] eqn:Hs; [|done]. replace (length (o :: ops) + n)%nat with (length ops + S n)%nat by (cbn; lia).
  eapply IH; [|exact R]. by eapply reach_step.
Qed.

Lemma run_reach capacity ops c : run capacity ops = Ok c → reach capacity (length ops) c.
Proof.
  unfold run. destruct (NewLRUCache capacity cst0) as [[[] s]|] eqn:R; [|done]. intros Ho.
  rewrite <- (Nat.add_0_r (length ops)). eapply run_ops_reach; [|exact Ho]. by apply reach_new.
Qed.

(** Two entries of one key, one of another, one of them still held. *)
Definition demo : list cop :=
  [CInsert [1; 2; 3; 4] 10 1 7; CInsert [1; 2; 3; 4] 11 1 7; CInsert [5; 6; 7; 8] 12 1 8; CLookup [1; 2; 3; 4]; CErase [5; 6; 7; 8]].

(** Witness of C8. *)
Lemma cache_refines_map_witness : ∃ c, run 32 demo = Ok c ∧ ∃ h c', step (CLookup [1; 2; 3; 4]) c = Ok (h, c') ∧
  value_of h (cl_cache c') = Some 11.
Proof.
  destruct (run 32 demo) as [c|] eqn:E; [|exfalso; vm_compute in E; discriminate].
  assert (match run 32 demo with Ok c => contents (cl_cache c) !! [1; 2; 3; 4] | Bad _ => None end = Some 11) as Hc by (vm_compute; reflexivity).
  rewrite E in Hc. exists c. split; [reflexivity|].
  destruct (cache_refines_map 32 5 c (CLookup [1; 2; 3; 4])) as (h & c' & R & _ & Hv & _);
    [reflexivity|exact (run_reach 32 demo c E)|reflexivity|reflexivity|]. exists h, c'. split; [exact R|]. rewrite Hv. exact Hc.
Defined.

(** Witness of C14. *)
Lemma deleter_exactly_once_witness : ∃ c, run 32 [CInsert [9] 5 1 7; CPrune] = Ok c ∧ ∃ alive, hp_dels (cs_heap (cl_cache c)) ++ alive ≡ₚ [(7, [9], 5)].
Proof.
  destruct (run 32 [CInsert [9] 5 1 7; CPrune]) as [c|] eqn:E; [|exfalso; vm_compute in E; discriminate].
  assert (match run 32 [CInsert [9] 5 1 7; CPrune] with Ok c => cl_inserted c | Bad _ => [] end = [(7, [9], 5)]) as Hc by (vm_compute; reflexivity).
  rewrite E in Hc. exists c. split; [reflexivity|].
  destruct (deleter_exactly_once 32 2 c) as (alive & Hp & _); [reflexivity|exact (run_reach _ _ c E)|discriminate|].
  exists alive. rewrite Hc in Hp. exact Hp.
Defined.
(** ** Eviction *)

(** The entries of a circular list from [p] to the head. *)
Fixpoint ring_walk (fuel : nat) (c : cells) (hd p : ptr) : list ptr :=
  match fuel with
  | O => []
  | S fuel' => if p =? hd then [] else p :: match c !! p with Some x => ring_walk fuel' c hd (lh_next x) | None => [] end
  end.

Definition ring_list (c : cells) (hd : ptr) : list ptr :=
  match c !! hd with Some x => ring_walk (S (size c)) c hd (lh_next x) | None => [] end.

(** The list from its oldest entry. *)
Definition lru_list (s : cst) (sh : LRUCache) : list ptr := ring_list (hp_cells (cs_heap s)) (lru_ sh).
Definition use_list (s : cst) (sh : LRUCache) : list ptr := ring_list (hp_cells (cs_heap s)) (in_use_ sh).

Definition key_at (s : cst) (p : ptr) : option bytes := lh_key <$> hp_cells (cs_heap s) !! p.

Lemma ring_walk_linked c hd xs : ∀ fuel p, linked (nxt c) (p :: tail xs ++ [hd]) → xs = p :: tail xs → hd ∉ xs → (length xs < fuel)%nat →
  ring_walk fuel c hd p = xs.
Proof.
  induction xs as [|q xs IH]; intros fuel p Hl Ex Hhd Hf; [done|]. injection Ex as <-. cbn [tail] in Hl. destruct fuel as [|fuel]; [cbn in Hf; lia|].
  cbn [ring_walk]. destruct (Z.eqb_spec q hd) as [->|Hq]; [destruct Hhd; left|]. f_equal. destruct xs as [|r xs].
  - destruct Hl as [(x & Hx & E)%nxt_some _]. rewrite Hx, E. destruct fuel as [|fuel]; [done|]. cbn. by rewrite Z.eqb_refl.
  - destruct Hl as [(x & Hx & E)%nxt_some Hl]. rewrite Hx, E. apply IH; [exact Hl|done|set_solver|cbn in *; lia].
Qed.

Lemma ring_list_ring c hd xs : ring c hd xs → NoDup (hd :: xs) → ring_list c hd = xs.
Proof.
  intros Hr [Hhd Hn]%NoDup_cons. assert (∀ p, p ∈ xs → is_Some (c !! p)) as Hlive by (intros p Hp; eapply ring_live; [exact Hr|by right]).
  assert (length xs ≤ size c)%nat as Hsz.
  { rewrite <- (size_dom (D := gset ptr)), <- (size_list_to_set (C := gset ptr) xs Hn). apply subseteq_size. intros p Hp%elem_of_list_to_set. by apply elem_of_dom, Hlive. }
  destruct Hr as [Hf _]. unfold ring_list. destruct xs as [|p xs].
  - destruct Hf as [(x & Hx & E)%nxt_some _]. rewrite Hx, E. cbn. by rewrite Z.eqb_refl.
  - destruct Hf as [(x & Hx & E)%nxt_some Hl]. rewrite Hx, E. apply ring_walk_linked; [exact Hl|done|done|lia].
Qed.

Lemma lists_rep s As i sh a : cinv s As → cs_shard s !! i = Some sh → As !! i = Some a → lru_list s sh = a_lru a ∧ use_list s sh = a_use a.
Proof.
  intros Hi Hsh Ha. pose proof (proj1 (ci_rep _ _ Hi i sh a Hsh Ha)) as Hc. pose proof (co_nodup _ _ _ Hc) as Hn. unfold nodes in Hn.
  split; apply ring_list_ring; try apply Hc; (eapply nodup_sub; [exact Hn|]); solve_submseteq.
Qed.

(** The entry that is replaced is the one with the key. *)
Lemma abs_insert_lru s As i sh a key e old : cinv s As → cs_shard s !! i = Some sh → As !! i = Some a → 0 < capacity_ sh →
  found (hp_cells (cs_heap s)) (a_lru a ++ a_use a) key (HashSlice key) old →
  a_lru (abs_insert (capacity_ sh) e old a) = filter (fun p => key_at s p ≠ Some key) (a_lru a).
Proof.
  intros Hi Hsh Ha Hcap Hf. set (c := hp_cells (cs_heap s)) in *.
  assert (∀ p, p ∈ a_lru a ++ a_use a → key_at s p = Some key → p = old) as Huniq.
  { intros p Hp (x & Hx & Hk)%fmap_Some. fold c in Hx. destruct (ci_home _ _ Hi i a p Ha) as (x' & Hx' & Hh & _); [unfold held; set_solver|].
    fold c in Hx'. rewrite Hx in Hx'. injection Hx' as <-.
    assert (hit c key (HashSlice key) p = true) as Hhit by (apply hit_true; exists x; rewrite Hh, <- Hk; done).
    destruct Hf as [[-> Hm]|(_ & Hin & (y & Hy & _ & Hky)%hit_true)]; [rewrite Hm in Hhit by done; done|].
    eapply (cached_key s As p old x y Hi); [apply elem_of_cached; eauto..|exact Hx|exact Hy|congruence]. }
  assert (∀ p, p ∈ a_lru a → key_at s p ≠ Some key ↔ p ≠ old) as Hiff.
  { intros p Hp. split.
    - intros Hne ->. apply Hne. destruct Hf as [[-> _]|(_ & _ & (y & Hy & _ & Hky)%hit_true)].
      + exfalso. apply (co_nz _ _ _ (proj1 (ci_rep _ _ Hi i sh a Hsh Ha))), held_nodes. unfold held. set_solver.
      + unfold key_at. fold c. by rewrite Hy, <- Hky.
    - intros Hne Hk. apply Hne, Huniq; [set_solver|done]. }
  unfold abs_insert. rewrite (proj2 (Z.ltb_lt _ _) Hcap). unfold abs_put.
  assert (without old (a_lru a) = filter (fun p => key_at s p ≠ Some key) (a_lru a)) as Ew.
  { unfold without. clear Huniq Hf. induction (a_lru a) as [|p l IH]; [done|]. assert (Hp := Hiff p ltac:(left)).
    destruct (decide (p = old)) as [->|Hpo].
    - rewrite !filter_cons_False by tauto. apply IH. intros q Hq. apply Hiff. by right.
    - rewrite !filter_cons_True by tauto. f_equal. apply IH. intros q Hq. apply Hiff. by right. }
  rewrite <- Ew. destruct (Z.eqb_spec old 0) as [->|]; [|done]. symmetry. apply without_notin. intros Hin.
  apply (co_nz _ _ _ (proj1 (ci_rep _ _ Hi i sh a Hsh Ha))), held_nodes. unfold held. set_solver.
Qed.

(** C32: Insert evicts in LRU order and no more than it must: after it the list of
    unreferenced entries of the shard is the old one without the replaced key and
    without its k oldest entries, where the charge is within the capacity or the list is
    empty, and for every smaller k the charge would exceed the capacity. *)
Theorem insert_evicts_oldest capacity n c key v charge d sh : 0 < per_shard capacity → reach capacity n c → Z.of_nat n < 2 ^ 31 →
  cs_shard (cl_cache c) !! Z.to_nat (Shard (HashSlice key)) = Some sh →
  let others := filter (fun p => key_at (cl_cache c) p ≠ Some key) (lru_list (cl_cache c) sh) in
  ∃ h c' sh' k, step (CInsert key v charge d) c = Ok (h, c') ∧ cs_shard (cl_cache c') !! Z.to_nat (Shard (HashSlice key)) = Some sh' ∧
    capacity_ sh' = per_shard capacity ∧ lru_list (cl_cache c') sh' = drop k others ∧
    (usage_ sh' ≤ capacity_ sh' ∨ lru_list (cl_cache c') sh' = []) ∧
    ∀ j, (j < k)%nat → capacity_ sh' <
      u64 (total (hp_cells (cs_heap (cl_cache c))) (drop j others) + total (hp_cells (cs_heap (cl_cache c'))) (use_list (cl_cache c') sh')).
Proof.
  intros Hcap Hr Hn Hsh others. destruct (reach_good _ _ _ Hcap Hr ltac:(lia)) as [As Hg]. pose proof (go_inv _ _ _ _ Hg) as Hi.
  set (s := cl_cache c) in *. pose proof (go_cap _ _ _ _ Hg _ _ Hsh) as Ecap0.
  destruct (Cache_Insert_run s As key v charge d Hi (good_roomy _ _ _ _ Hg Hn)) as (r & s1 & As1 & sh0 & sh1 & a1 & R1 & Hi1 & Hr0 & Hh1 & Rv & Hsh0 & Hsh1 & EA & ES & Ecap & Hu
    & Hkey & Hoth & Hent & Hfar & (a & old & k & Ha & Ea1 & Hf & Hnone & Hdat & Hmin) & _).
  set (i := Z.to_nat _) in *. clearbody i. rewrite Hsh in Hsh0. injection Hsh0 as <-.
  assert (As1 !! i = Some a1) as Ha1 by (rewrite EA; apply list_lookup_insert_eq, (lookup_lt_Some _ _ a); done).
  destruct (lists_rep s As i sh a Hi Hsh Ha) as [El _]. destruct (lists_rep s1 As1 i sh1 a1 Hi1 Hsh1 Ha1) as [El1 Eu1].
  assert (0 < capacity_ sh) as Hc0 by (rewrite Ecap0; done). set (b := abs_insert (capacity_ sh) r old a) in *.
  assert (a_lru b = others) as Eo by (unfold others; rewrite El; apply (abs_insert_lru s As i); [done..|by apply Hf]).
  eexists r, (MkClient s1 _ _), sh1, k. cbn [cl_cache]. split_and!; [unfold step, exec; fold s; rewrite R1; reflexivity|exact Hsh1|congruence| | |].
  - rewrite El1, Ea1. cbn. by rewrite Eo.
  - rewrite El1, Ecap. exact Hu.
  - intros j Hj. specialize (Hmin j Hj). rewrite Ecap, Eu1. rewrite total_app, Eo in Hmin. eapply Z.lt_le_trans; [exact Hmin|]. apply Z.eq_le_incl. f_equal.
    assert (∀ p, p ∈ a_lru a → p ≠ r) as Hnr.
    { intros p Hp ->. assert (is_Some (hp_cells (cs_heap s) !! r)) as [? Hx]; [|congruence].
      eapply nodes_live; [apply (ci_rep _ _ Hi i sh a Hsh Ha)|]. apply held_nodes. unfold held. set_solver. }
    assert (a_use b = a_use a1) as Ub by (rewrite Ea1; done). f_equal.
    + apply total_ext. intros p Hp%subseteq_drop. unfold dat_of. rewrite lookup_insert_ne; [done|]. apply not_eq_sym, Hnr.
      unfold others in Hp. rewrite El in Hp. by apply list_elem_of_filter in Hp as [_ ?].
    + rewrite Ub. clear -Hent Hdat. assert (∀ p, p ∈ a_use a1 → charge_of (hp_cells (cs_heap s1)) p = charge_of (<[r := new_entry key (HashSlice key) v charge d true]> (hp_cells (cs_heap s))) p) as Hc.
      { intros p Hp. destruct (Hent p ltac:(set_solver)) as [_ ->]. unfold charge_of. destruct (decide (p = r)) as [->|]; [by rewrite lookup_insert_eq|by rewrite lookup_insert_ne]. }
      clear Hent Hdat. induction (a_use a1) as [|p l IH]; [done|]. cbn [total]. rewrite IH, Hc by set_solver. done.
Qed.

(** Witness of C32. *)
Lemma insert_evicts_oldest_witness : ∃ c sh, run 16 [CInsert [1] 10 1 7] = Ok c ∧ cs_shard (cl_cache c) !! Z.to_nat (Shard (HashSlice [1])) = Some sh ∧
  ∃ h c' sh', step (CInsert [1] 11 1 7) c = Ok (h, c') ∧ cs_shard (cl_cache c') !! Z.to_nat (Shard (HashSlice [1])) = Some sh' ∧ capacity_ sh' = 1.
Proof.
  destruct (run 16 [CInsert [1] 10 1 7]) as [c|] eqn:E; [|exfalso; vm_compute in E; discriminate].
  destruct (cs_shard (cl_cache c) !! Z.to_nat (Shard (HashSlice [1]))) as [sh|] eqn:Hs.
  - exists c, sh. split_and!; [reflexivity|exact Hs|].
    destruct (insert_evicts_oldest 16 1 c [1] 11 1 7 sh) as (h & c' & sh' & k & R & Hs' & Hc & _);
      [reflexivity|exact (run_reach _ _ c E)|reflexivity|exact Hs|]. exists h, c', sh'. split_and!; [exact R|exact Hs'|exact Hc].
  - exfalso. assert (match run 16 [CInsert [1] 10 1 7] with Ok c => bool_decide (is_Some (cs_shard (cl_cache c) !! Z.to_nat (Shard (HashSlice [1])))) | Bad _ => false end = true)
      as Hb by (vm_compute; reflexivity). rewrite E in Hb. apply bool_decide_eq_true in Hb. rewrite Hs in Hb. destruct Hb; discriminate.
Defined.

End LruProps.
