(* ===== verification/DpiCache.v ===== *)
(** * The dpi's record cache on leveldb's LRU cache

    [LvldbMgr] of the dpi (src/ic-dpi/ic-dpi/LvldbMgr.cpp) looks its records up in a
    [leveldb::Cache] and inserts them with charge 1.  [DpiMeter] states what it
    relies on as the interface [LruCache]; here the cache of cache.cc discharges it,
    so that the theorems about the meter hold for the program with its real cache.

    Every use of a handle is one lookup or insert followed by a release; the handles
    the threads hold in between do not change what can be looked up
    ([Cache_Release_run]). *)

From S2P Require Import Prelude LruTable LruCache LruInv LruOps LruShard LruProps Wire DpiMeter.
From stdpp Require Import countable base gmap gmultiset list strings.
From Stdlib Require Import ZArith Lia.
Import LruTable LruCache LruInv LruOps LruShard LruProps.

Open Scope Z_scope.

Module DpiCache.

(** [LvldbMgr::hash_capacity] *)
Definition hash_capacity : Z := 100000.

(** [::deleter], the only deleter of the dpi: it prints, and frees nothing. *)
Definition deleter : Z := 1.

(** The key slice over the four bytes of an address.  Addresses are [U32]; the
    other integers get keys of other lengths so that the function is injective. *)
Definition ip_key (ip : Z) : bytes :=
  if decide (in_u 32 ip) then to_le 4 ip else replicate (5 + encode_nat ip) 0.

(** [h = c->Lookup(key); if (h) dbu = c->Value(h); ... c->Release(h);] *)
Definition find (key : bytes) : M cst (option Z) :=
  h ← Cache_Lookup key;
  if h =? 0 then mret None else
  v ← Cache_Value h;
  _ ← Cache_Release h;
  mret (Some v).

(** [h = c->Insert(key, dbu, 1, ::deleter); dbu = c->Value(h); ... c->Release(h);] *)
Definition put (key : bytes) (dbu : Z) : M cst Z :=
  h ← Cache_Insert key dbu 1 deleter;
  v ← Cache_Value h;
  _ ← Cache_Release h;
  mret v.

Definition key_ip (k : bytes) : option Z :=
  ip ← if decide (length k = 4%nat) then Some (of_le k) else decode_nat (length k - 5);
  if decide (ip_key ip = k) then Some ip else None.

Lemma key_ip_key ip : key_ip (ip_key ip) = Some ip.
Proof.
  unfold key_ip. enough ((if decide (length (ip_key ip) = 4%nat) then Some (of_le (ip_key ip)) else decode_nat (length (ip_key ip) - 5)) = Some ip) as ->.
  { cbn. by rewrite decide_True. }
  unfold ip_key. destruct (decide (in_u 32 ip)) as [Hu|_].
  - rewrite length_to_le, decide_True, of_to_le_id by done. done.
  - rewrite length_replicate, decide_False by lia. replace (5 + encode_nat ip - 5)%nat with (encode_nat ip) by lia. apply decode_encode_nat.
Qed.

Lemma key_ip_inv k ip : key_ip k = Some ip → k = ip_key ip.
Proof. unfold key_ip. intros (ip' & _ & H)%bind_Some. case_decide; [|done]. congruence. Qed.

(** ** Between uses *)

(** The keys of the cache are addresses. *)
Definition addressed (s : cst) : Prop := ∀ key v, contents s !! key = Some v → is_Some (key_ip key).

Definition idle_with (s : cst) (As : list abs) : Prop :=
  cinv s As ∧ handles As = ∅ ∧ ∀ i sh a, cs_shard s !! i = Some sh → As !! i = Some a →
    capacity_ sh = per_shard hash_capacity ∧ Z.of_nat (length (a_lru a ++ a_use a)) ≤ capacity_ sh ∧
    ∀ p, p ∈ a_lru a ++ a_use a → charge_of (hp_cells (cs_heap s)) p = 1.

(** No handle is held, no shard is over its capacity. *)
Definition idle (s : cst) : Prop := (∃ As, idle_with s As) ∧ addressed s.

Lemma handles_none As i a : handles As = ∅ → As !! i = Some a → a_cli a = ∅.
Proof.
  intros He Ha. apply gmultiset_eq. intros p. rewrite multiplicity_empty.
  assert (p ∉ a_cli a) as Hp; [|by apply not_elem_of_multiplicity].
  intros Hp. assert (p ∈ handles As) as Hin by (apply elem_of_handles; eauto). rewrite He in Hin. by apply gmultiset_elem_of_empty in Hin.
Qed.

Lemma idle_roomy s As : idle_with s As → roomy As.
Proof.
  intros (Hi & He & Hb) i a Ha. destruct (cinv_shard _ _ _ _ Hi Ha) as [sh Hsh]. destruct (Hb i sh a Hsh Ha) as (Hc & Hl & _).
  rewrite (handles_none _ _ _ He Ha), gmultiset_size_empty. rewrite Hc in Hl. split; [lia|].
  change (per_shard hash_capacity) with 6250 in Hl. lia.
Qed.

(** Handling a held entry and releasing it brings the cache back to rest. *)
Lemma idle_same s As s' As' : (∀ i sh a, cs_shard s !! i = Some sh → As !! i = Some a →
    capacity_ sh = per_shard hash_capacity ∧ Z.of_nat (length (a_lru a ++ a_use a)) ≤ capacity_ sh ∧
    ∀ p, p ∈ a_lru a ++ a_use a → charge_of (hp_cells (cs_heap s)) p = 1) →
  same_tables s As s' As' → ∀ i sh a, cs_shard s' !! i = Some sh → As' !! i = Some a →
    capacity_ sh = per_shard hash_capacity ∧ Z.of_nat (length (a_lru a ++ a_use a)) ≤ capacity_ sh ∧
    ∀ p, p ∈ a_lru a ++ a_use a → charge_of (hp_cells (cs_heap s')) p = 1.
Proof.
  intros Hb [Es Hs] i sh a' Hsh Ha'. rewrite Es in Hsh. destruct (Hs i a' Ha') as (a & Ha & Hp & Hd).
  destruct (Hb i sh a Hsh Ha) as (H1 & H2 & H3). split_and!; [done|by rewrite Hp|].
  intros p Hin. rewrite Hp in Hin. rewrite (dat_charge _ _ _ (Hd p Hin)). auto.
Qed.

Lemma find_run s key : idle s → ∃ s', find key s = Ok (contents s !! key, s') ∧ idle s' ∧ contents s' = contents s.
Proof.
  intros [(As & Hid) Had]. enough (∃ s', find key s = Ok (contents s !! key, s') ∧ (∃ As, idle_with s' As) ∧ contents s' = contents s) as (s' & R & Hs' & Hc').
  { exists s'. split_and!; [done|split; [done|]|done]. unfold addressed. by rewrite Hc'. } pose proof Hid as (Hi & He & Hb).
  destruct (Cache_Lookup_run s As key Hi (idle_roomy _ _ Hid)) as (r & s1 & As1 & R1 & Hi1 & Hc1 & Hst1 & _ & Hm).
  unfold find. destruct (contents s !! key) as [v|] eqn:Hv.
  - destruct Hm as (Hr0 & Hh1 & Rv). destruct (Cache_Release_run s1 As1 r Hi1) as (s2 & As2 & R2 & Hi2 & Hc2 & Hst2 & _ & Hh2).
    { rewrite Hh1. multiset_solver. }
    exists s2. split_and!; [|exists As2; split_and!; [done| |]|by rewrite Hc2].
    + eapply bind_run; [exact R1|]. rewrite (proj2 (Z.eqb_neq _ _) Hr0). eapply bind_run; [exact Rv|]. eapply bind_run; [exact R2|]. done.
    + rewrite Hh1, He in Hh2. clear -Hh2. multiset_solver.
    + eapply idle_same; [|exact Hst2]. eapply idle_same; [exact Hb|exact Hst1].
  - destruct Hm as (-> & Hh1). exists s1. split_and!; [|exists As1; split_and!; [done|congruence|]|done].
    + eapply bind_run; [exact R1|]. done.
    + eapply idle_same; [exact Hb|exact Hst1].
Qed.

Lemma total_ones c ps : (∀ p, p ∈ ps → charge_of c p = 1) → total c ps = Z.of_nat (length ps).
Proof. induction ps as [|p ps IH]; intros H; [done|]. cbn [total length]. rewrite IH, H by set_solver. lia. Qed.

(** With charges of 1 the entries are counted, and eviction keeps them few. *)
Lemma put_bound s' As' i sh' a' a r cap : cinv s' As' → cs_shard s' !! i = Some sh' → As' !! i = Some a' → handles As' = {[+ r +]} →
  (∀ p, p ∈ a_lru a' ++ a_use a' → p = r ∨ p ∈ a_lru a ++ a_use a) → Z.of_nat (length (a_lru a ++ a_use a)) ≤ cap → 1 ≤ cap < 2 ^ 32 →
  (∀ p, p ∈ a_lru a' ++ a_use a' → charge_of (hp_cells (cs_heap s')) p = 1) → usage_ sh' ≤ cap ∨ a_lru a' = [] →
  Z.of_nat (length (a_lru a' ++ a_use a')) ≤ cap.
Proof.
  intros Hi Hsh Ha Hh Hsub Hlen Hcap Hone Hu. destruct (ci_rep _ _ Hi i sh' a' Hsh Ha) as [Hc _].
  assert (NoDup (a_lru a' ++ a_use a')) as Hn by (eapply nodup_sub; [apply (co_nodup _ _ _ Hc)|]; unfold nodes; solve_submseteq).
  destruct Hu as [Hu|Hnil].
  - rewrite (co_usage _ _ _ Hc), (total_ones _ _ Hone), wrap_id in Hu; [done|].
    assert (length (a_lru a' ++ a_use a') ≤ length (r :: a_lru a ++ a_use a))%nat as Hle.
    { apply submseteq_length, NoDup_submseteq; [done|]. intros p Hp. apply elem_of_cons. auto. }
    cbn [length] in Hle. split; [lia|]. change (2 ^ 64) with (2 ^ 32 * 2 ^ 32). lia.
  - rewrite Hnil in Hn |- *. cbn in *. assert (length (a_use a') ≤ length [r])%nat as Hle; [|cbn in Hle; lia].
    apply submseteq_length, NoDup_submseteq; [done|]. intros p Hp. assert (p ∈ handles As') as Hin.
    { apply elem_of_handles. exists i, a'. split; [done|]. apply Hc. set_solver. }
    rewrite Hh in Hin. apply gmultiset_elem_of_singleton in Hin as ->. left.
Qed.

Lemma put_run s key v : idle s → is_Some (key_ip key) → ∃ s', put key v s = Ok (v, s') ∧ idle s' ∧ contents s' !! key = Some v ∧
  ∀ key' v', key' ≠ key → contents s' !! key' = Some v' → contents s !! key' = Some v'.
Proof.
  intros [(As & Hid) Had] Hkey0. pose proof Hid as (Hi & He & Hb).
  enough (∃ s', put key v s = Ok (v, s') ∧ (∃ As, idle_with s' As) ∧ contents s' !! key = Some v ∧
    ∀ key' v', key' ≠ key → contents s' !! key' = Some v' → contents s !! key' = Some v') as (s' & R' & Hs' & Hk' & Ho').
  { exists s'. split_and!; [done|split; [done|]|done|done]. intros key' v' Hv'. destruct (decide (key' = key)) as [->|Hne]; [done|]. by apply (Had key' v'), Ho'. }
  destruct (Cache_Insert_run s As key v 1 deleter Hi (idle_roomy _ _ Hid))
    as (r & s1 & As1 & sh & sh1 & a1 & R1 & Hi1 & Hr0 & Hh1 & Rv & Hsh & Hsh1 & EA & ES & Ecap & Hu & Hkey & Hoth & Hent & Hfar & _).
  set (i := Z.to_nat _) in *. clearbody i. rewrite He in Hh1.
  assert (is_Some (As !! i)) as [a Ha] by (apply lookup_lt_is_Some; rewrite (ci_length _ _ Hi); eapply lookup_lt_Some; done).
  destruct (Hb i sh a Hsh Ha) as (Hcap & Hlen & Hch). assert (i < length As)%nat as Hlt by (eapply lookup_lt_Some; done).
  assert (As1 !! i = Some a1) as Ha1 by (rewrite EA; apply list_lookup_insert_eq; done).
  destruct (Cache_Release_run s1 As1 r Hi1) as (s2 & As2 & R2 & Hi2 & Hc2 & Hst2 & _ & Hh2); [rewrite Hh1; multiset_solver|].
  change (per_shard hash_capacity) with 6250 in Hcap.
  assert (handles As1 = {[+ r +]}) as Hh1' by (rewrite Hh1; clear; multiset_solver).
  exists s2. split_and!; [|exists As2; split_and!; [done| |]|rewrite Hc2; apply Hkey; rewrite Hcap; lia|rewrite Hc2; exact Hoth].
  - unfold put. eapply bind_run; [exact R1|]. eapply bind_run; [exact Rv|]. eapply bind_run; [exact R2|]. done.
  - rewrite Hh1' in Hh2. clear -Hh2. multiset_solver.
  - eapply idle_same; [|exact Hst2]. intros j sh' b Hj Hb'. destruct (decide (i = j)) as [<-|Hij].
    + rewrite Hsh1 in Hj. injection Hj as <-. rewrite Ha1 in Hb'. injection Hb' as <-. split_and!; [by rewrite Ecap| |].
      * rewrite Ecap. eapply (put_bound s1 As1 i sh1 a1 a r); try done; [|lia|].
        -- intros p Hp. destruct (Hent p Hp) as [[?|(a2 & Ha2 & ?)] _]; [auto|]. rewrite Ha in Ha2. injection Ha2 as <-. auto.
        -- intros p Hp. destruct (Hent p Hp) as [Hor ->]. destruct (decide (p = r)); [done|]. destruct Hor as [?|(a2 & Ha2 & ?)]; [done|].
           rewrite Ha in Ha2. injection Ha2 as <-. auto.
      * intros p Hp. destruct (Hent p Hp) as [Hor ->]. destruct (decide (p = r)); [done|]. destruct Hor as [?|(a2 & Ha2 & ?)]; [done|].
        rewrite Ha in Ha2. injection Ha2 as <-. auto.
    + rewrite ES, list_lookup_insert_ne in Hj by done. rewrite EA, list_lookup_insert_ne in Hb' by done.
      destruct (Hb j sh' b Hj Hb') as (H1 & H2 & H3). split_and!; [done|done|]. intros p Hp. rewrite <- (H3 p Hp).
      unfold charge_of. rewrite (Hfar j b p); [done|done|done|]. unfold held. set_solver.
Qed.
(** ** The cache as the meter uses it *)

(** What is cached, by address. *)
Definition by_ip (m : gmap bytes Z) : gmap Z Z :=
  list_to_map (omap (fun kv => (fun ip => (ip, kv.2)) <$> key_ip kv.1) (map_to_list m)).

Lemma elem_of_by_ip (m : gmap bytes Z) ip v : (ip, v) ∈ omap (fun kv => (fun ip => (ip, kv.2)) <$> key_ip kv.1) (map_to_list m) ↔ m !! ip_key ip = Some v.
Proof.
  rewrite list_elem_of_omap. split.
  - intros ([k w] & Hin & (ip' & Hk & E)%fmap_Some). injection E as -> ->. apply key_ip_inv in Hk. cbn in Hk. subst k. by apply elem_of_map_to_list.
  - intros Hm. exists (ip_key ip, v). split; [by apply elem_of_map_to_list|]. cbn. by rewrite key_ip_key.
Qed.

Lemma nodup_by_ip (l : list (bytes * Z)) : NoDup l.*1 → NoDup (omap (fun kv => (fun ip => (ip, kv.2)) <$> key_ip kv.1) l).*1.
Proof.
  induction l as [|[k v] l IH]; cbn; [constructor|]. intros [Hk Hl]%NoDup_cons. destruct (key_ip k) as [ip|] eqn:Hip; cbn; [|auto].
  apply NoDup_cons. split; [|auto]. intros ([ip' w] & E & ([k' w'] & Hin & (ip2 & Hk2 & E2)%fmap_Some)%list_elem_of_omap)%list_elem_of_fmap.
  cbn in E. subst ip'. injection E2 as <- ->. apply key_ip_inv in Hip, Hk2. cbn in Hk2. subst k k'. apply Hk, list_elem_of_fmap. exists (ip_key ip, w'). done.
Qed.

Lemma lookup_by_ip (m : gmap bytes Z) ip : by_ip m !! ip = m !! ip_key ip.
Proof.
  apply option_eq. intros v. rewrite <- elem_of_by_ip. symmetry. apply elem_of_list_to_map, nodup_by_ip, NoDup_fst_map_to_list.
Qed.

Lemma idle_new : ∃ s, NewLRUCache hash_capacity cst0 = Ok (tt, s) ∧ idle s ∧ contents s = ∅.
Proof.
  assert (heap_ok (cs_heap cst0)) as Hok by (split; [reflexivity|]; intros p [x Hx]; exfalso; revert Hx; apply lookup_empty_Some).
  destruct (NewLRUCache_run cst0 hash_capacity Hok) as (s & R & Hi & Hc & _ & Hcap).
  exists s. split_and!; [exact R|split; [|intros key v Hv; rewrite Hc in Hv; exfalso; exact (lookup_empty_Some _ _ Hv)]|exact Hc]. exists (replicate (Z.to_nat kNumShards) abs0). split_and!; [exact Hi|reflexivity|].
  intros i sh a Hsh [-> _]%lookup_replicate. rewrite (Hcap i sh Hsh). clear R. split_and!; [reflexivity|by vm_compute|]. intros p Hp. by apply not_elem_of_nil in Hp.
Qed.

(** A cache no thread is inside of. *)
Definition idle_cache : Type := { s : cst | idle s }.

Definition ends_idle {A} (r : result (A * cst)) : Prop := match r with Ok (_, s) => idle s | Bad _ => False end.

(** An operation that brings every idle cache to an idle cache, as a function. *)
Definition run_idle {A} (m : M cst A) (H : ∀ s, idle s → ends_idle (m s)) (c : idle_cache) : A * idle_cache :=
  match m (proj1_sig c) as r return ends_idle r → A * idle_cache with
  | Ok (a, s) => fun h => (a, exist idle s h)
  | Bad _ => fun h => False_rect _ h
  end (H _ (proj2_sig c)).

Lemma run_idle_eq {A} (m : M cst A) H c a s : m (proj1_sig c) = Ok (a, s) →
  (run_idle m H c).1 = a ∧ proj1_sig (run_idle m H c).2 = s.
Proof. intros E. unfold run_idle. generalize (H (proj1_sig c) (proj2_sig c)). rewrite E. done. Qed.

Lemma find_idle key s : idle s → ends_idle (find key s).
Proof. intros (s' & -> & ? & _)%(find_run _ key). done. Qed.

Lemma key_ip_some ip : is_Some (key_ip (ip_key ip)).
Proof. rewrite key_ip_key. eauto. Qed.

Lemma put_idle ip v s : idle s → ends_idle (put (ip_key ip) v s).
Proof. intros Hs. destruct (put_run s (ip_key ip) v Hs (key_ip_some ip)) as (s' & -> & ? & _). done. Qed.

Lemma new_idle : ends_idle (NewLRUCache hash_capacity cst0).
Proof. destruct idle_new as (s & -> & Hs & _). done. Qed.

(** [NewLRUCache(hash_capacity)] *)
Definition new_cache : idle_cache :=
  match NewLRUCache hash_capacity cst0 as r return ends_idle r → idle_cache with
  | Ok (_, s) => fun h => exist idle s h
  | Bad _ => fun h => False_rect _ h
  end new_idle.

Lemma new_cache_contents : contents (proj1_sig new_cache) = ∅.
Proof. unfold new_cache. generalize new_idle. destruct idle_new as (s & -> & Hs & Hc). done. Qed.

#[export] Program Instance leveldb_cache : DpiMeter.LruCache idle_cache := {|
  DpiMeter.contents c := by_ip (contents (proj1_sig c));
  DpiMeter.cache_empty := new_cache;
  DpiMeter.cache_lookup ip c := run_idle (find (ip_key ip)) (find_idle (ip_key ip)) c;
  DpiMeter.cache_insert ip p c := (run_idle (put (ip_key ip) p) (put_idle ip p) c).2;
|}.
Next Obligation. exact (f_equal by_ip new_cache_contents). Qed.
Next Obligation.
  intros ip c. destruct (find_run (proj1_sig c) (ip_key ip) (proj2_sig c)) as (s' & R & _ & _).
  rewrite (proj1 (run_idle_eq _ (find_idle _) c _ _ R)), lookup_by_ip. done.
Qed.
Next Obligation.
  intros ip c. destruct (find_run (proj1_sig c) (ip_key ip) (proj2_sig c)) as (s' & R & _ & Hc).
  rewrite (proj2 (run_idle_eq _ (find_idle _) c _ _ R)), Hc. done.
Qed.
Next Obligation.
  intros ip p c. destruct (put_run (proj1_sig c) (ip_key ip) p (proj2_sig c) (key_ip_some ip)) as (s' & R & _ & Hk & _).
  rewrite (proj2 (run_idle_eq _ (put_idle _ _) c _ _ R)), lookup_by_ip. done.
Qed.
Next Obligation.
  intros ip p c ip' p' Hne. destruct (put_run (proj1_sig c) (ip_key ip) p (proj2_sig c) (key_ip_some ip)) as (s' & R & _ & _ & Ho).
  rewrite (proj2 (run_idle_eq _ (put_idle _ _) c _ _ R)), !lookup_by_ip. apply Ho. intros E.
  apply (f_equal key_ip) in E. rewrite !key_ip_key in E. congruence.
Qed.
(** ** Room in the cache *)

Lemma by_ip_insert m ip v : by_ip (<[ip_key ip := v]> m) = <[ip := v]> (by_ip m).
Proof.
  apply map_eq. intros ip'. rewrite lookup_by_ip. destruct (decide (ip' = ip)) as [->|Hne]; [by rewrite !lookup_insert_eq|].
  rewrite !lookup_insert_ne, lookup_by_ip; [done|done|]. intros E. apply Hne. apply (f_equal key_ip) in E. rewrite !key_ip_key in E. congruence.
Qed.

Lemma size_by_ip s : addressed s → (size (contents s) ≤ size (by_ip (contents s)))%nat.
Proof.
  intros Ha. assert (Inj (=) (=) ip_key) as Hinj by (intros x y Hxy; apply (f_equal key_ip) in Hxy; rewrite !key_ip_key in Hxy; congruence).
  set (ips := elements (dom (by_ip (contents s)) : gset Z)).
  assert (dom (contents s) ⊆ (list_to_set (ip_key <$> ips) : gset bytes)) as Hsub.
  { intros key [v Hv]%elem_of_dom. destruct (Ha key v Hv) as [ip Hip]. pose proof (key_ip_inv _ _ Hip) as ->.
    apply elem_of_list_to_set, list_elem_of_fmap. exists ip. split; [done|]. apply elem_of_elements, elem_of_dom. rewrite lookup_by_ip. eauto. }
  apply subseteq_size in Hsub. rewrite size_dom, size_list_to_set, length_fmap in Hsub by (apply NoDup_fmap_2; [done|apply NoDup_elements]).
  rewrite <- (size_dom (D := gset Z) (by_ip (contents s))). exact Hsub.
Qed.

(** A shard with fewer entries than its capacity evicts none for another. *)
Lemma put_room s key v : idle s → Z.of_nat (size (contents s)) < per_shard hash_capacity →
  ∃ s', put key v s = Ok (v, s') ∧ contents s' = <[key := v]> (contents s).
Proof.
  intros [(As & Hid) _] Hsz. pose proof Hid as (Hi & He & Hb). pose proof (idle_roomy _ _ Hid) as Hroom.
  destruct (cinv_find s As key Hi) as (sh & a & Hsh & Ha & _ & _). destruct (Hb _ sh a Hsh Ha) as (Hcap & _ & Hone).
  pose proof (shard_size s As _ a Hi Ha) as Hlen.
  destruct (Cache_Insert_room s As key v 1 deleter sh a) as (r & s1 & R & Hc); [done..| | | |].
  - rewrite Hcap. done.
  - intros p Hp. rewrite Hone; done.
  - rewrite (total_ones _ _ Hone), Hcap. lia.
  - destruct (Cache_Insert_run s As key v 1 deleter Hi Hroom) as (r' & s1' & As1 & sh0 & sh1 & a1 & R1 & Hi1 & Hr0 & Hh1 & Rv & _).
    rewrite R in R1. injection R1 as <- <-.
    destruct (Cache_Release_run s1 As1 r Hi1) as (s2 & As2 & R2 & _ & Hc2 & _); [rewrite Hh1; clear; multiset_solver|].
    exists s2. split; [|by rewrite Hc2, Hc]. unfold put. eapply bind_run; [exact R|]. eapply bind_run; [exact Rv|]. eapply bind_run; [exact R2|]. done.
Qed.

(** While fewer addresses are cached than one shard has room for, an insertion into
    the cache of the meter is an insertion into a map. *)
Lemma insert_kept (c : idle_cache) ip p : Z.of_nat (size (DpiMeter.contents c)) < per_shard hash_capacity →
  DpiMeter.contents (DpiMeter.cache_insert ip p c) = <[ip := p]> (DpiMeter.contents c).
Proof.
  cbn [DpiMeter.contents DpiMeter.cache_insert leveldb_cache]. intros Hsz. pose proof (proj2_sig c) as Hid. pose proof (size_by_ip _ (proj2 Hid)) as Hle.
  destruct (put_room (proj1_sig c) (ip_key ip) p Hid ltac:(lia)) as (s' & R & Hc).
  rewrite (proj2 (run_idle_eq _ (put_idle ip p) c _ _ R)), Hc. apply by_ip_insert.
Qed.
(** ** The meter on this cache *)

Section Steps.
Context {C : Type} `{!DpiMeter.LruCache C}.
Import Wire DpiMeter.
Abbreviation table w := (DpiMeter.contents (cache_tbl (w_meter w))).


(** The address a step inserts a record for. *)
Definition inserts (a : act) (w : world C) : option Z :=
  match a, w_pcap w, w_main w with
  | APcap, P_insert j _, _ => Some (j_ip j)
  | AMain, _, R_insert ip => Some ip
  | AMain, _, U_insert u => Some (su_src_ip_be u)
  | _, _, _ => None
  end.

Lemma lookup_table ip (c c' : C) o : cache_lookup ip c = (o, c') → DpiMeter.contents c' = DpiMeter.contents c.
Proof. intros E. pose proof (lookup_contents ip c) as Hc. by rewrite E in Hc. Qed.

Lemma exec1_table b a w w1 : exec1 b a w = Some w1 →
  match inserts a w with
  | None => table w1 = table w
  | Some ip => ∃ p, table w1 = DpiMeter.contents (cache_insert ip p (cache_tbl (w_meter w)))
  end.
Proof.
  destruct a as [ip l ft| | |i|u|ip]; cbn; unfold inserts; intros Hs.
  - destruct (w_pcap w); try done. by injection Hs as <-.
  - unfold pcap_step, find_rec, alloc_rec in Hs. destruct (w_pcap w); try done.
    all: try (destruct (cache_lookup _ _) as [o c] eqn:E; apply lookup_table in E; destruct o; injection Hs as <-; exact E).
    all: injection Hs as <-; try (eexists; reflexivity); repeat case_match; done.
  - unfold main_step, find_rec, alloc_rec in Hs. destruct (w_main w); try done.
    all: try (destruct (cache_lookup _ _) as [o c] eqn:E; apply lookup_table in E; destruct o; injection Hs as <-; exact E).
    all: injection Hs as <-; try (eexists; reflexivity); repeat case_match; done.
  - destruct (w_main w); try done. destruct (w_out w !! i) as [[p r]|]; [|done]. by injection Hs as <-.
  - destruct (w_main w); try done. by injection Hs as <-.
  - destruct (w_main w); try done. by injection Hs as <-.
Qed.

(** The addresses the threads are looking up. *)
Definition pcap_wants (pc : pcap_pc) : option Z := match pc with P_lookup j _ | P_insert j _ => Some (j_ip j) | _ => None end.
Definition main_wants (pc : main_pc) : option Z :=
  match pc with R_lookup ip | R_insert ip => Some ip | U_lookup u | U_insert u => Some (su_src_ip_be u) | _ => None end.

(** The address of a packet or of a login. *)
Definition act_ip (a : act) : option Z := match a with APacket ip _ _ => Some ip | ALogin u => Some (su_src_ip_be u) | _ => None end.

Ltac wants := first [assumption | intros ? Hx; discriminate Hx].

Record within (X : gset Z) (w : world C) : Prop := {
  wi_table : dom (table w) ⊆ X;
  wi_pcap ip : pcap_wants (w_pcap w) = Some ip → ip ∈ X;
  wi_main ip : main_wants (w_main w) = Some ip → ip ∈ X;
}.

Lemma inserts_within X a w ip : within X w → inserts a w = Some ip → ip ∈ X.
Proof.
  intros Hw. unfold inserts. destruct a; try done; [destruct (w_pcap w) eqn:E|destruct (w_main w) eqn:E]; try done; intros [= <-].
  all: first [apply (wi_pcap _ _ Hw); rewrite E; reflexivity | apply (wi_main _ _ Hw); rewrite E; reflexivity].
Qed.

Lemma exec1_wants b a w w1 X : exec1 b a w = Some w1 → within X w → (∀ ip, act_ip a = Some ip → ip ∈ X) → inv w → answers a = true →
  (∀ ip, pcap_wants (w_pcap w1) = Some ip → ip ∈ X) ∧ (∀ ip, main_wants (w_main w1) = Some ip → ip ∈ X).
Proof.
  intros Hs Hw Ha Hinv Hans. pose proof (wi_pcap _ _ Hw) as Hp. pose proof (wi_main _ _ Hw) as Hm. destruct a as [ip l ft| | |i|u|ip]; cbn in Hs, Ha; try done.
  - destruct (w_pcap w); try done. injection Hs as <-. split; [intros ip' [= <-]; auto|exact Hm].
  - unfold pcap_step, find_rec, alloc_rec in Hs. destruct (w_pcap w); try done.
    all: try (destruct (cache_lookup _ _) as [o c]; destruct o).
    all: injection Hs as <-; repeat case_match; split; wants.
  - unfold main_step, find_rec, alloc_rec in Hs. destruct (w_main w) eqn:Hmc; try done.
    all: try (destruct (cache_lookup _ _) as [o c]; destruct o).
    all: injection Hs as <-; repeat case_match; split; rewrite ?Hmc; wants.
  - destruct (w_main w); try done. destruct (w_out w !! i) as [[p r]|] eqn:Hi; [|done]. injection Hs as <-. split; [exact Hp|].
    intros ip [= <-]. apply (wi_table _ _ Hw), elem_of_dom. exists p. exact (proj1 (Forall_lookup _ _) (i_out _ Hinv) _ _ Hi).
  - destruct (w_main w); try done. injection Hs as <-. split; [exact Hp|]. intros ip [= <-]. auto.
Qed.
End Steps.
Section OnLeveldb.
Import Wire DpiMeter.
Abbreviation table w := (DpiMeter.contents (cache_tbl (w_meter w))).

(** A run in which no thread inserts a record for an address that the other has just
    inserted one for. *)
Fixpoint run_alone (b : bool) (l : list act) (w : world idle_cache) : option (world idle_cache) :=
  match l with
  | [] => Some w
  | a :: l' =>
    w1 ← exec1 b a w;
    if match inserts a w with Some ip => bool_decide (table w !! ip = None) | None => true end
    then run_alone b l' w1 else None
  end.

Definition in_set (X : gset Z) (a : act) : bool := match act_ip a with Some ip => bool_decide (ip ∈ X) | None => true end.

Lemma size_room (X : gset Z) (m : gmap Z ptr) ip : dom m ⊆ X → ip ∈ X → m !! ip = None → Z.of_nat (size X) ≤ per_shard hash_capacity →
  Z.of_nat (size m) < per_shard hash_capacity.
Proof.
  intros Hd Hin Hm HX. assert (dom m ⊂ X) as Hlt.
  { split; [done|]. intros Hsub. apply not_elem_of_dom in Hm. by apply Hm, Hsub. }
  apply subset_size in Hlt. rewrite size_dom in Hlt. lia.
Qed.

Lemma alone_kept X l : Z.of_nat (size X) ≤ per_shard hash_capacity → ∀ w w', inv w → within X w →
  forallb answers l = true → forallb (in_set X) l = true → run_alone true l w = Some w' → kept_run true w l w'.
Proof.
  intros HX. induction l as [|a l IH]; cbn [forallb run_alone]; intros w w' Hinv Hw Hans Hset Hr; [injection Hr as <-; constructor|].
  apply andb_true_iff in Hans as [Ha Hans], Hset as [Hs Hset]. destruct (exec1 true a w) as [w1|] eqn:He; [|done]. cbn in Hr.
  destruct (match inserts a w with Some _ => _ | None => _ end) eqn:Hlone; [|done].
  assert (table w ⊆ table w1 ∧ dom (table w1) ⊆ X) as [Hsub Hdom].
  { pose proof (exec1_table _ _ _ _ He) as Ht. destruct (inserts a w) as [ip|] eqn:Hins; [|rewrite Ht; split; [done|apply Hw]].
    apply bool_decide_eq_true in Hlone. pose proof (inserts_within _ _ _ _ Hw Hins) as Hin. destruct Ht as [p Ht].
    rewrite insert_kept in Ht by (eapply size_room; [apply Hw|exact Hin|exact Hlone|exact HX]). rewrite Ht. split; [by apply insert_subseteq|].
    rewrite dom_insert_L. pose proof (wi_table _ _ Hw). set_solver. }
  apply (kept_cons _ _ _ _ w1); [done|done|]. apply IH; [eapply exec1_inv; done| |done|done|done].
  destruct (exec1_wants _ _ _ _ X He Hw) as [Hp Hm]; [|done|done|by split].
  intros ip Hip. unfold in_set in Hs. rewrite Hip in Hs. by apply bool_decide_eq_true in Hs.
Qed.

Lemma within_init X now : within X (world_init (C := idle_cache) now).
Proof. split; [|done|done]. cbn [w_meter world_init Init cache_tbl]. rewrite empty_contents, dom_empty_L. set_solver. Qed.


Definition leveldb_end : option (world idle_cache) := run_alone true normal_acts (world_init (Tv 0 0)).

End OnLeveldb.

End DpiCache.
