(* ===== verification/Recorder.v ===== *)
(** * The traffic recorder (src/trafficRecorder/trafficRecorder/TRNet.cpp)

    The recorder keeps tokens and balances in a Redis server.  [NetRead] reads
    framed messages from a connection and starts a coroutine per message; a
    coroutine runs until it calls Redis, so coroutines interleave at the commands.
    A handler is a [prog]: a tree of Redis commands and sent messages.  It is run
    alone by [run_prog] and interleaved with others by [sched].

    Redis, behind hiredis, is not part of the program: [Redis] is the operation
    the handlers use and [RedisDb] what its documentation promises of the commands
    they send. *)

From S2P Require Import Prelude Wire Frame.
From stdpp Require Import base gmap list strings.
From Stdlib Require Import ZArith Lia.
Import Wire Frame.

Open Scope Z_scope.

Module Recorder.

(** ** hiredis replies *)

Definition REDIS_REPLY_STRING : Z := 1.
Definition REDIS_REPLY_ARRAY : Z := 2.
Definition REDIS_REPLY_INTEGER : Z := 3.
Definition REDIS_REPLY_NIL : Z := 4.
Definition REDIS_REPLY_STATUS : Z := 5.
Definition REDIS_REPLY_ERROR : Z := 6.

(** [redisReply] without the elements of arrays, which the handlers do not use;
    [str] is null for the types that carry no string. *)
Record redisReply := MkReply { rp_type : Z; rp_integer : Z; rp_str : option bytes }.

#[export] Instance reply_eq_dec : EqDecision redisReply.
Proof. solve_decision. Defined.

(** ** Coroutines *)

Inductive prog :=
  | PRet
  | PCrash (f : fault)
  | PSend (msg : bytes) (k : prog)                           (* SendMsg2Tms *)
  | PExec (cmd : bytes) (k : option redisReply → prog)       (* redis_pool.exec_command *)
  | PPipe (count : Z) (cmd : bytes) (k : prog).              (* exec_command_pipeline *)

(** [r.reply_->str] *)
Definition str_of (r : redisReply) (k : bytes → prog) : prog :=
  match rp_str r with Some s => k s | None => PCrash NullDeref end.

(** [%0.<n>lu]: at least [n] digits. *)
Definition print_prec (n : nat) (v : Z) : bytes :=
  replicate (n - length (print_u v)) 48 ++ print_u v.

(** ["%0.11lu:%0.8lu"] *)
Definition user_key (mobile app : Z) : bytes := print_prec 11 mobile ++ bs ":" ++ print_prec 8 app.

Definition auth_key (mobile app : Z) : bytes := bs "auth:" ++ user_key mobile app.
Definition bal_key (mobile app : Z) : bytes := bs "bal:" ++ user_key mobile app.
Definition dtl_key (mobile app : Z) : bytes := bs "dtl:" ++ user_key mobile app.

Definition cmd_get (key : bytes) : bytes := bs "get " ++ key.
Definition cmd_set (key v : bytes) : bytes := bs "set " ++ key ++ bs " " ++ v.
Definition cmd_rpush (key v : bytes) : bytes := bs "rpush " ++ key ++ bs " " ++ v.
Definition cmd_expire (key : bytes) : bytes := bs "expire " ++ key ++ bs " 360000000".

Arguments user_key _ _ : simpl never.
Arguments auth_key _ _ : simpl never.
Arguments bal_key _ _ : simpl never.
Arguments dtl_key _ _ : simpl never.
Arguments cmd_get _ : simpl never.
Arguments cmd_set _ _ : simpl never.
Arguments cmd_rpush _ _ : simpl never.
Arguments cmd_expire _ : simpl never.

(** *** READ_TOKEN_REQ *)

(** The token of the request: the C string at its place in [rz_buf], which holds
    the message and, after it, whatever the allocation left there. *)
Definition req_token (rz_buf : bytes) : bytes := drop 26 rz_buf.

(** [memcmp(req->token, str, len) == 0] with [len] the larger of the two lengths;
    [str] ends with a NUL. *)
Definition token_matches (rz_buf str : bytes) : bool :=
  let len := Nat.max (length str) (length (cstr (req_token rz_buf))) in
  bool_decide (take len (req_token rz_buf) = take len (str ++ [0])).

Definition ReadToken (sz_buf rz_buf : bytes) : prog :=
  let req : ReadTokenReq := pdec rz_buf in
  let rsp : ReadTokenRsp := pdec sz_buf in
  let rsp := MkReadTokenRsp READ_TOKEN_RSP (rr_rsp_code rsp) (rq_cid req) (rq_app req) (rq_mobile req)
               (rr_balance rsp) (rr_token rsp) in
  let answer code balance token :=
    PSend (penc (MkReadTokenRsp READ_TOKEN_RSP code (rr_cid rsp) (rr_app rsp) (rr_mobile rsp) balance token))
      PRet in
  PExec (cmd_get (auth_key (rq_mobile req) (rq_app req))) (fun r =>
  match r with
  | None => PCrash NullDeref
  | Some r =>
    if rp_type r =? REDIS_REPLY_NIL then answer USER_NOT_EXIST (rr_balance rsp) (rr_token rsp)
    else
      str_of r (fun str =>
      if negb (token_matches rz_buf str) then answer INCORRECT_TOKEN (rr_balance rsp) (rr_token rsp)
      else if 988 <? Z.of_nat (length str) + 1 then PCrash OutOfBounds
      else
        let token := take 32 (str ++ [0] ++ drop (length str + 1) (rr_token rsp)) in
        PExec (cmd_get (bal_key (rq_mobile req) (rq_app req))) (fun rt =>
        match rt with
        | None => PCrash NullDeref
        | Some rt =>
          if rp_type rt =? REDIS_REPLY_NIL then answer NO_BALANCE (rr_balance rsp) token
          else
            str_of rt (fun s =>
            let balance := atoll s in
            answer (if balance <? 4000 then NO_BALANCE else 0) balance token)
        end))
  end).

(** *** TRAFFIC_REPORT *)

(** ["%s,%lu,%u%0.3d,%u%0.3d"]: the detail record. *)
Definition print_prec_s (n : nat) (v : Z) : bytes :=
  if v <? 0 then 45 :: print_prec n (- v) else print_prec n v.

Definition print_time (t : timeval) : bytes :=
  print_u (u32 (tv_sec t)) ++ print_prec_s 3 (i32 (Z.quot (tv_usec t) 1000)).

Definition detail (req : TrafficReport) : bytes :=
  cstr (tr_host req) ++ bs "," ++ print_u (tr_traffic req) ++ bs "," ++ print_time (tr_btime req) ++ bs ","
  ++ print_time (tr_etime req).

Definition report_rsp (req : TrafficReport) (code : Z) : bytes :=
  penc (MkTrafficReportRsp TRAFFIC_REPORT_RSP (tr_app req) (tr_mobile req) (tr_traffic req) (tr_ip req) code).

Arguments detail _ : simpl never.
Arguments report_rsp _ _ : simpl never.

Definition HandleTrafficReport (rz_buf : bytes) : prog :=
  let req : TrafficReport := pdec rz_buf in
  let key := bal_key (tr_mobile req) (tr_app req) in
  let fail := PSend (report_rsp req 0xff) PRet in
  PExec (cmd_get key) (fun r =>
  match r with
  | None => fail
  | Some r =>
    if negb (rp_type r =? REDIS_REPLY_STRING) then fail else
    str_of r (fun s =>
    let balance := atoll s in
    let remain := i64 (u64 (balance - tr_traffic req)) in
    PExec (cmd_set key (print_s remain)) (fun r2 =>
    match r2 with
    | None => fail
    | Some r2 =>
      if negb (rp_type r2 =? REDIS_REPLY_STATUS) then fail else
      str_of r2 (fun s2 =>
      if negb (default 0 (s2 !! 0%nat) =? 79) || negb (default 0 (s2 !! 1%nat) =? 75) then fail else
      PExec (cmd_rpush (dtl_key (tr_mobile req) (tr_app req)) (detail req)) (fun r3 =>
      match r3 with
      | None => fail
      | Some r3 =>
        if negb (rp_type r3 =? REDIS_REPLY_INTEGER) || (rp_integer r3 <? 1) then fail else
        PExec (cmd_expire (auth_key (tr_mobile req) (tr_app req))) (fun _ =>
        PSend (report_rsp req 0) PRet)
      end))
    end))
  end).

(** *** KEEP_ALIVE_TOKEN *)

Definition ka_app (i : nat) (l : bytes) : Z := fld (2 + 8 * i) 8 l.
Definition ka_mobile (i : nat) (l : bytes) : Z := fld (130 + 8 * i) 8 l.

(** The loop over the 16 users: the commands written one after the other, and how
    many. *)
Fixpoint keep_alive_loop (n i : nat) (l : bytes) : bytes * nat :=
  match n with
  | O => ([], i)
  | S n' =>
    if 0 <? ka_mobile i l then
      let '(rest, k) := keep_alive_loop n' (S i) l in
      (cmd_expire (auth_key (ka_mobile i l) (ka_app i l)) ++ rest, k)
    else ([], i)
  end.

Definition KeepAlive (rz_buf : bytes) : prog :=
  let '(setcmd, i) := keep_alive_loop 16 0 rz_buf in
  if (0 <? Z.of_nat i) then PPipe (Z.of_nat i) setcmd PRet else PRet.

(** *** NetRead *)

(** The switch on the message id: the coroutine that is started. *)
Definition on_message (sz_buf rz_buf : bytes) : prog :=
  let msgid := fld 0 2 rz_buf in
  if msgid =? READ_TOKEN_REQ then ReadToken sz_buf rz_buf
  else if msgid =? TRAFFIC_REPORT then HandleTrafficReport rz_buf
  else if msgid =? KEEP_ALIVE_TOKEN then KeepAlive rz_buf
  else PRet.

(** A blocking socket: the segments that arrive; a read returns what is left of
    the first one, at most what it asks for, and 0 after the last. *)
Definition read_seg (n : Z) (segs : list bytes) : Z * bytes * list bytes :=
  match segs with
  | [] => (0, [], [])
  | s :: rest =>
    let got := take (Z.to_nat n) s in
    let left := drop (Z.to_nat n) s in
    (Z.of_nat (length got), got, if bool_decide (left = []) then rest else left :: rest)
  end.

Definition RZ_BUF : nat := 1024.

(** The loop of [NetRead]: the messages it starts coroutines for, each as the
    contents of [rz_buf]; [fresh] is what a new [msg_t] holds in [rz_buf].  The
    fuel counts rounds. *)
Fixpoint NetRead (fuel : nat) (fresh : bytes) (segs : list bytes) : result (list bytes) :=
  match fuel with
  | O => Bad OutOfFuel
  | S fuel' =>
    let '(length1, hdr, segs) := read_seg HDR segs in
    if length1 <=? 0 then Ok []
    else
      let n := ntohs (fld 2 2 hdr) in
      let '(length2, body, segs) := read_seg n segs in
      if length2 <=? 0 then Ok []
      else if negb (length body <=? RZ_BUF)%nat then Bad OutOfBounds
      else
        match NetRead fuel' fresh segs with
        | Ok l => Ok (blit 0 body fresh :: l)
        | Bad f => Bad f
        end
  end.

(** ** Running coroutines *)

Class Redis (R : Type) := { exec_command : bytes → R → option redisReply * R }.

Section Run.
Context {R : Type} `{!Redis R}.

(** A coroutine alone: the messages it sends. *)
Fixpoint run_prog (p : prog) (r : R) : result (list bytes * R) :=
  match p with
  | PRet => Ok ([], r)
  | PCrash f => Bad f
  | PSend msg k => match run_prog k r with Ok (l, r') => Ok (msg :: l, r') | Bad f => Bad f end
  | PExec cmd k => let '(o, r') := exec_command cmd r in run_prog (k o) r'
  | PPipe _ _ k => run_prog k r
  end.

(** One action of a coroutine. *)
Definition step_prog (p : prog) (r : R) : result (prog * list bytes * R) :=
  match p with
  | PRet => Ok (PRet, [], r)
  | PCrash f => Bad f
  | PSend msg k => Ok (k, [msg], r)
  | PExec cmd k => let '(o, r') := exec_command cmd r in Ok (k o, [], r')
  | PPipe _ _ k => Ok (k, [], r)
  end.

(** Coroutines interleaved: [l] is who acts at each point; a message is recorded
    with its sender. *)
Fixpoint sched (l : list nat) (ps : list prog) (r : R) : result (list prog * list (nat * bytes) * R) :=
  match l with
  | [] => Ok (ps, [], r)
  | i :: l =>
    match ps !! i with
    | None => sched l ps r
    | Some p =>
      match step_prog p r with
      | Bad f => Bad f
      | Ok (p', out, r') =>
        match sched l (<[i := p']> ps) r' with
        | Ok (ps', out', r'') => Ok (ps', map (pair i) out ++ out', r'')
        | Bad f => Bad f
        end
      end
    end
  end.

End Run.

(** What Redis documents of the commands: a string database.  A word holds no
    space and no percent sign. *)
Definition word (l : bytes) : Prop := 32 ∉ l ∧ 37 ∉ l ∧ l ≠ [].

#[export] Instance word_dec l : Decision (word l).
Proof. unfold word. apply _. Defined.

Class RedisDb (R : Type) `{!Redis R} := {
  db : R → gmap bytes bytes;
  get_law : ∀ k r, word k →
    (exec_command (cmd_get k) r).1 =
      Some (match db r !! k with
            | Some v => MkReply REDIS_REPLY_STRING 0 (Some v)
            | None => MkReply REDIS_REPLY_NIL 0 None
            end) ∧
    db (exec_command (cmd_get k) r).2 = db r;
  set_law : ∀ k v r, word k → word v →
    (exec_command (cmd_set k v) r).1 = Some (MkReply REDIS_REPLY_STATUS 0 (Some (bs "OK"))) ∧
    db (exec_command (cmd_set k v) r).2 = <[k := v]> (db r);
  rpush_law : ∀ k v r, word k → word v → db r !! k = None →
    (∃ n, 1 ≤ n ∧ (exec_command (cmd_rpush k v) r).1 = Some (MkReply REDIS_REPLY_INTEGER n None)) ∧
    db (exec_command (cmd_rpush k v) r).2 = db r;
  expire_law : ∀ k r, word k → db (exec_command (cmd_expire k) r).2 = db r;
}.

(** ** Words *)

Lemma digit_word l : Forall (fun b => is_digit b = true) l → 32 ∉ l ∧ 37 ∉ l.
Proof.
  intros Hl. rewrite Forall_forall in Hl. split; intros H%Hl; discriminate H.
Qed.

Lemma print_prec_digits n v : Forall (fun b => is_digit b = true) (print_prec n v).
Proof. apply Forall_app. split; [apply Forall_replicate; done|apply print_u_digits]. Qed.

Lemma word_app a b : word a → 32 ∉ b ∧ 37 ∉ b → word (a ++ b).
Proof.
  intros (H1 & H2 & H3) [H4 H5]. split_and!; [set_solver|set_solver|]. destruct a; done.
Qed.

Lemma key_word pre mobile app : word pre → word (pre ++ user_key mobile app).
Proof.
  intros Hp. unfold user_key. rewrite app_assoc, app_assoc. apply word_app; [|apply digit_word, print_prec_digits].
  apply word_app; [apply word_app; [done|apply digit_word, print_prec_digits]|].
  split; by_decide.
Qed.

Lemma auth_word mobile app : word (auth_key mobile app).
Proof. apply key_word. by_decide. Qed.
Lemma bal_word mobile app : word (bal_key mobile app).
Proof. apply key_word. by_decide. Qed.
Lemma dtl_word mobile app : word (dtl_key mobile app).
Proof. apply key_word. by_decide. Qed.

Lemma print_s_word v : word (print_s v).
Proof.
  unfold print_s. pose proof (print_u_digits v). pose proof (print_u_digits (- v)).
  destruct (v <? 0).
  - apply (word_app [45]); [by_decide|apply digit_word; done].
  - destruct (digit_word (print_u v)) as [? ?]; [done|]. split_and!; [done|done|apply print_u_nonnil].
Qed.

#[export] Hint Resolve auth_word bal_word dtl_word print_s_word : tunnel.

(** ** Traffic reports *)

Section Reports.
Context {R : Type} `{!Redis R} `{!RedisDb R}.

(** The balance of a user as the database has it. *)
Definition balance_of (mobile app : Z) (r : R) : option Z := atoll <$> (db r !! bal_key mobile app).

Definition new_balance (balance traffic : Z) : Z := i64 (u64 (balance - traffic)).

(** A detail record without spaces and percent signs: what the host name has to
    be for the command to be what is meant. *)
Definition plain (req : TrafficReport) : Prop := word (detail req).

(** A command run in the database. *)
Lemma run_get key v k (r : R) (Q : result (list bytes * R) → Prop) : word key → db r !! key = Some v →
  (∀ r', db r' = db r → Q (run_prog (k (Some (MkReply REDIS_REPLY_STRING 0 (Some v)))) r')) →
  Q (run_prog (PExec (cmd_get key) k) r).
Proof.
  intros Hk Hv HQ. cbn [run_prog]. destruct (get_law key r Hk) as [G1 G2]. rewrite Hv in G1.
  destruct (exec_command _ r) as [o r1]. cbn in G1, G2. subst o. auto.
Qed.

Lemma run_get_none key k (r : R) (Q : result (list bytes * R) → Prop) : word key → db r !! key = None →
  (∀ r', db r' = db r → Q (run_prog (k (Some (MkReply REDIS_REPLY_NIL 0 None))) r')) →
  Q (run_prog (PExec (cmd_get key) k) r).
Proof.
  intros Hk Hv HQ. cbn [run_prog]. destruct (get_law key r Hk) as [G1 G2]. rewrite Hv in G1.
  destruct (exec_command _ r) as [o r1]. cbn in G1, G2. subst o. auto.
Qed.

Lemma run_set key v k (r : R) (Q : result (list bytes * R) → Prop) : word key → word v →
  (∀ r', db r' = <[key := v]> (db r) →
    Q (run_prog (k (Some (MkReply REDIS_REPLY_STATUS 0 (Some [79; 75])))) r')) →
  Q (run_prog (PExec (cmd_set key v) k) r).
Proof.
  intros Hk Hv HQ. cbn [run_prog]. destruct (set_law key v r Hk Hv) as [G1 G2].
  destruct (exec_command _ r) as [o r1]. cbn in G1, G2. subst o. auto.
Qed.

Lemma run_rpush key v k (r : R) (Q : result (list bytes * R) → Prop) : word key → word v → db r !! key = None →
  (∀ r' n, 1 ≤ n → db r' = db r → Q (run_prog (k (Some (MkReply REDIS_REPLY_INTEGER n None))) r')) →
  Q (run_prog (PExec (cmd_rpush key v) k) r).
Proof.
  intros Hk Hv Hn HQ. cbn [run_prog]. destruct (rpush_law key v r Hk Hv Hn) as [(n & Hn' & G1) G2].
  destruct (exec_command _ r) as [o r1]. cbn in G1, G2. subst o. auto.
Qed.

Lemma report_run rz_buf b (r : R) : let req : TrafficReport := pdec rz_buf in
  plain req → db r !! dtl_key (tr_mobile req) (tr_app req) = None →
  db r !! bal_key (tr_mobile req) (tr_app req) = Some b →
  ∃ r', run_prog (HandleTrafficReport rz_buf) r = Ok ([report_rsp req 0], r') ∧
    db r' = <[bal_key (tr_mobile req) (tr_app req) := print_s (new_balance (atoll b) (tr_traffic req))]> (db r).
Proof.
  intros req Hp Hd Hb.
  assert (bal_key (tr_mobile req) (tr_app req) ≠ dtl_key (tr_mobile req) (tr_app req)) as Hne by congruence.
  unfold HandleTrafficReport. fold req.
  eapply run_get; [apply bal_word|exact Hb|]. intros r1 E1. cbn -[run_prog].
  fold (new_balance (atoll b) (tr_traffic req)).
  eapply run_set; [apply bal_word|apply print_s_word|]. intros r2 E2. cbn -[run_prog].
  eapply run_rpush; [apply dtl_word|exact Hp| |].
  { rewrite E2, E1, lookup_insert_ne by exact Hne. exact Hd. }
  intros r3 n Hn E3. cbn -[run_prog]. destruct (Z.ltb_spec n 1); [lia|]. cbn.
  pose proof (expire_law (auth_key (tr_mobile req) (tr_app req)) r3 (auth_word _ _)) as E4.
  destruct (exec_command (cmd_expire _) r3) as [o4 r4]. cbn in E4.
  exists r4. split; [done|]. rewrite E4, E3, E2, E1. done.
Qed.

(** Coroutines one after the other. *)
Fixpoint run_seq (ps : list prog) (r : R) : result (list bytes * R) :=
  match ps with
  | [] => Ok ([], r)
  | p :: ps =>
    match run_prog p r with
    | Ok (l, r') => match run_seq ps r' with Ok (l', r'') => Ok (l ++ l', r'') | Bad f => Bad f end
    | Bad f => Bad f
    end
  end.

(** The reports of one user. *)
Definition report_for (mobile app : Z) (rz_buf : bytes) : Prop :=
  let req : TrafficReport := pdec rz_buf in tr_mobile req = mobile ∧ tr_app req = app ∧ plain req.

Definition total (bufs : list bytes) : Z := fold_right (fun b n => tr_traffic (pdec b) + n) 0 bufs.

Lemma i64_sub_sub b t n : i64 (u64 (i64 (u64 (b - t)) - n)) = i64 (u64 (b - (t + n))).
Proof.
  assert (∀ x, i64 (u64 x) = i64 x) as H.
  { intros x. unfold swrap, wrap. rewrite Zplus_mod_idemp_l. done. }
  rewrite !H, swrap_sub_l. f_equal. lia.
Qed.

Lemma new_balance_range b n : in_s 64 (new_balance b n).
Proof. apply swrap_range. lia. Qed.

Lemma reports_run mobile app bufs b (r : R) : Forall (report_for mobile app) bufs →
  db r !! dtl_key mobile app = None → balance_of mobile app r = Some b → bufs ≠ [] →
  ∃ r', run_seq (map HandleTrafficReport bufs) r = Ok (map (fun x => report_rsp (pdec x) 0) bufs, r') ∧
    db r' !! dtl_key mobile app = None ∧ balance_of mobile app r' = Some (new_balance b (total bufs)).
Proof.
  intros Hf. revert r b. induction Hf as [|x bufs (Hm & Ha & Hp) Hf IH]; intros r b Hd Hb Hne; [done|].
  unfold balance_of in Hb. destruct (db r !! bal_key mobile app) as [v|] eqn:Hv; [|done].
  injection Hb as Hb. subst mobile app.
  set (mobile := tr_mobile (pdec x)) in *. set (app := tr_app (pdec x)) in *.
  assert (bal_key mobile app ≠ dtl_key mobile app) as Hk by congruence.
  destruct (report_run x v r Hp Hd Hv) as (r1 & H1 & E1). fold mobile app in E1.
  assert (db r1 !! dtl_key mobile app = None) as Hd1 by (rewrite E1, lookup_insert_ne by done; done).
  assert (balance_of mobile app r1 = Some (new_balance b (tr_traffic (pdec x)))) as Hb1.
  { unfold balance_of. rewrite E1, lookup_insert_eq. cbn. rewrite Hb, atoll_print_s by apply new_balance_range. done. }
  cbn [map run_seq]. rewrite H1. destruct (decide (bufs = [])) as [->|Hn].
  - exists r1. split; [done|]. split; [done|]. rewrite Hb1. unfold total. cbn. rewrite Z.add_0_r. done.
  - destruct (IH r1 _ Hd1 Hb1 Hn) as (r2 & H2 & Hd2 & Hb2). rewrite H2. exists r2. split; [done|].
    split; [done|]. rewrite Hb2. f_equal. unfold new_balance. rewrite i64_sub_sub. done.
Qed.

(** Traffic reports of a user handled one after the other reduce the balance stored
    in Redis by exactly the sum of their traffic and are each answered with code 0 (as
    long as the balance fits 64 bits and the detail records hold no space or percent
    sign, which would change the Redis command). *)
Theorem reports_settle mobile app bufs b (r : R) : Forall (report_for mobile app) bufs → bufs ≠ [] →
  db r !! dtl_key mobile app = None → balance_of mobile app r = Some b →
  in_s 64 (b - total bufs) →
  ∃ r', run_seq (map HandleTrafficReport bufs) r = Ok (map (fun x => report_rsp (pdec x) 0) bufs, r') ∧
    balance_of mobile app r' = Some (b - total bufs).
Proof.
  intros Hf Hne Hd Hb Hr. destruct (reports_run mobile app bufs b r Hf Hd Hb Hne) as (r' & H1 & _ & H2).
  exists r'. split; [done|]. rewrite H2. unfold new_balance. f_equal.
  unfold swrap, wrap. rewrite Zplus_mod_idemp_l. apply (swrap_id 64); [lia|done].
Qed.

(** ** Every report is answered once *)

(** hiredis: a string or status reply has its string. *)
Definition wf_reply (o : option redisReply) : Prop :=
  match o with
  | Some r => rp_type r = REDIS_REPLY_STRING ∨ rp_type r = REDIS_REPLY_STATUS → is_Some (rp_str r)
  | None => True
  end.

(** A coroutine that has still to send its one message, one in [P]. *)
Inductive todo (P : bytes → Prop) : prog → Prop :=
  | todo_send m : P m → todo P (PSend m PRet)
  | todo_exec c k : (∀ o, wf_reply o → todo P (k o)) → todo P (PExec c k).

Lemma todo_mono (P Q : bytes → Prop) p : (∀ m, P m → Q m) → todo P p → todo Q p.
Proof. intros HPQ. induction 1; constructor; auto. Qed.

Definition answer_to (rz_buf m : bytes) : Prop :=
  m = report_rsp (pdec rz_buf) 0 ∨ m = report_rsp (pdec rz_buf) 0xff.

Lemma str_of_todo P r k : rp_type r = REDIS_REPLY_STRING ∨ rp_type r = REDIS_REPLY_STATUS →
  wf_reply (Some r) → (∀ s, todo P (k s)) → todo P (str_of r k).
Proof. intros Ht Hw Hk. destruct (Hw Ht) as [s Hs]. unfold str_of. rewrite Hs. auto. Qed.

Lemma report_todo rz_buf : todo (answer_to rz_buf) (HandleTrafficReport rz_buf).
Proof.
  unfold HandleTrafficReport. cbv zeta.
  assert (todo (answer_to rz_buf) (PSend (report_rsp (pdec rz_buf) 0xff) PRet)) as Hfail
    by (constructor; right; done).
  constructor. intros [r|] Hr; [|exact Hfail].
  destruct (Z.eqb_spec (rp_type r) REDIS_REPLY_STRING); [cbn [negb]|exact Hfail].
  apply str_of_todo; [auto|done|]. intros s.
  constructor. intros [r2|] Hr2; [|exact Hfail].
  destruct (Z.eqb_spec (rp_type r2) REDIS_REPLY_STATUS); [cbn [negb]|exact Hfail].
  apply str_of_todo; [auto|done|]. intros s2. destruct (_ || _); [exact Hfail|].
  constructor. intros [r3|] Hr3; [|exact Hfail]. destruct (_ || _); [exact Hfail|].
  constructor. intros o _. constructor. left. done.
Qed.

(** The messages of coroutine [i]. *)
Definition mine (i : nat) (out : list (nat * bytes)) : list bytes :=
  omap (fun e => if decide (e.1 = i) then Some e.2 else None) out.

Lemma mine_app i a b : mine i (a ++ b) = mine i a ++ mine i b.
Proof. apply omap_app. Qed.

Lemma mine_pair i j ms : mine i (map (pair j) ms) = if decide (j = i) then ms else [].
Proof.
  induction ms as [|m ms IH]; cbn; [destruct (decide _); done|]. fold (mine i (map (pair j) ms)). rewrite IH.
  destruct (decide (j = i)); done.
Qed.

(** What is known of coroutine [i], which sends a message in [P]: it is at [p] and
    has sent [ms]. *)
Definition co_state (P : bytes → Prop) (p : option prog) (ms : list bytes) : Prop :=
  (ms = [] ∧ ∃ q, p = Some q ∧ todo P q) ∨ (∃ m, P m ∧ ms = [m] ∧ p = Some PRet).

Lemma sched_answers (P : nat → bytes → Prop) l : (∀ cmd (r : R), wf_reply (exec_command cmd r).1) →
  ∀ ps sent r, (∀ i, (i < length ps)%nat → co_state (P i) (ps !! i) (mine i sent)) →
  ∃ ps' out r', sched l ps r = Ok (ps', out, r') ∧ length ps' = length ps ∧
    ∀ i, (i < length ps)%nat → co_state (P i) (ps' !! i) (mine i (sent ++ out)).
Proof.
  intros Hw. induction l as [|j l IH]; intros ps sent r Hps.
  { exists ps, [], r. split_and!; [done|done|]. rewrite app_nil_r. done. }
  cbn [sched]. destruct (ps !! j) as [p|] eqn:Hj; [|apply IH; done].
  assert (j < length ps)%nat as Hlt by (apply lookup_lt_is_Some; eauto).
  assert (∃ p' out1 r1, step_prog p r = Ok (p', out1, r1) ∧
            co_state (P j) (Some p') (mine j sent ++ out1)) as (p' & out1 & r1 & Hs & Hco).
  { pose proof (Hps j Hlt) as Hc. rewrite Hj in Hc.
    destruct Hc as [(Hm & q & [= <-] & Ht)|(m & Hm & Hms & [= ->])].
    - rewrite Hm. inversion Ht as [m Hm' E|c k Hk E]; subst p; cbn.
      + eexists _, _, _. split; [done|]. right. eauto.
      + pose proof (Hw c r) as Hwr. destruct (exec_command c r) as [o r1].
        eexists _, _, _. split; [done|]. left. split; [done|]. eauto.
    - eexists _, _, _. split; [done|]. rewrite app_nil_r. right. eauto. }
  rewrite Hs. destruct (IH (<[j := p']> ps) (sent ++ map (pair j) out1) r1) as (ps' & out & r' & H1 & H2 & H3).
  { intros i. rewrite length_insert. intros Hi. rewrite mine_app, mine_pair.
    destruct (decide (j = i)) as [<-|Hne].
    - rewrite list_lookup_insert_eq by done. exact Hco.
    - rewrite list_lookup_insert_ne, app_nil_r by done. apply Hps. done. }
  rewrite H1. rewrite length_insert in *. eexists _, _, _. split; [done|]. split; [done|].
  intros i Hi. rewrite app_assoc. apply H3. done.
Qed.


(** ** Tokens *)

Lemma cstr_split l : ∃ rest, l = cstr l ++ rest ∧ (rest = [] ∨ ∃ t, rest = 0 :: t).
Proof.
  induction l as [|b l (rest & E & Hr)]; cbn; [eauto|]. destruct (Z.eqb_spec b 0) as [->|].
  - exists (0 :: l). eauto.
  - exists rest. cbn. rewrite <- E. eauto.
Qed.

(** The comparison accepts exactly the stored token. *)
Lemma token_matches_spec rz_buf str : 0 ∉ str →
  token_matches rz_buf str = true ↔ cstr (req_token rz_buf) = str.
Proof.
  intros H0. unfold token_matches. rewrite bool_decide_eq_true. set (tok := req_token rz_buf).
  destruct (cstr_split tok) as (rest & E & Hr). pose proof (cstr_no_nul tok) as Hn.
  set (c := cstr tok) in *. rewrite E. split; [|intros <-; rewrite Nat.max_id, !take_app_length; done].
  destruct (Nat.le_gt_cases (length c) (length str)) as [Hle|Hgt].
  - rewrite Nat.max_l, take_app_length by done. intros Ht.
    destruct (decide (length c = length str)) as [El|Hne].
    { rewrite <- El, take_app_length in Ht. done. }
    exfalso. rewrite take_app_ge in Ht by lia. destruct Hr as [->|[t ->]].
    + rewrite take_nil, app_nil_r in Ht. rewrite Ht in Hne. done.
    + destruct (length str - length c)%nat eqn:Ek; [lia|]. apply H0. rewrite <- Ht. set_solver.
  - rewrite Nat.max_r, take_app_length, take_ge by (rewrite ?length_app; cbn; lia). intros Ht.
    exfalso. apply Hn. rewrite Ht. set_solver.
Qed.

(** The verdict on a client: what is stored for it, what it presented, and its
    balance. *)
Definition verdict (stored : option bytes) (presented : bytes) (balance : option Z) : Z :=
  match stored with
  | None => USER_NOT_EXIST
  | Some t =>
    if negb (bool_decide (presented = t)) then INCORRECT_TOKEN
    else match balance with
         | None => NO_BALANCE
         | Some b => if b <? 4000 then NO_BALANCE else SUCC
         end
  end.

Lemma ReadToken_run sz_buf rz_buf (r : R) : let req : ReadTokenReq := pdec rz_buf in
  let stored := db r !! auth_key (rq_mobile req) (rq_app req) in
  let code := verdict stored (cstr (req_token rz_buf)) (balance_of (rq_mobile req) (rq_app req) r) in
  (∀ t, stored = Some t → 0 ∉ t ∧ (length t ≤ 32)%nat) →
  ∃ rsp r', run_prog (ReadToken sz_buf rz_buf) r = Ok ([penc rsp], r') ∧ db r' = db r ∧
    rr_msg_id rsp = READ_TOKEN_RSP ∧ rr_rsp_code rsp = code ∧ rr_cid rsp = rq_cid req ∧
    (code = SUCC → Some (rr_balance rsp) = balance_of (rq_mobile req) (rq_app req) r ∧
                   4000 ≤ rr_balance rsp ∧
                   take (length (cstr (req_token rz_buf))) (rr_token rsp) = cstr (req_token rz_buf) ∧
                   ((length (cstr (req_token rz_buf)) < 32)%nat → 0 ∈ rr_token rsp ∧ cstr (rr_token rsp) = cstr (req_token rz_buf))).
Proof.
  intros req stored code Ht. unfold ReadToken. fold req. cbv zeta. unfold code, verdict, stored in *.
  set (ak := auth_key (rq_mobile req) (rq_app req)) in *. set (bk := bal_key (rq_mobile req) (rq_app req)).
  unfold balance_of. fold bk. destruct (db r !! ak) as [t|] eqn:Ha.
  2:{ eapply run_get_none; [apply auth_word|exact Ha|]. intros r1 E1.
      cbn -[penc]. eexists _, r1. split_and!; try done. }
  destruct (Ht t eq_refl) as [Hn Hl]. eapply run_get; [apply auth_word|exact Ha|]. intros r1 E1.
  cbn -[penc run_prog].
  destruct (token_matches rz_buf t) eqn:Hm.
  2:{ rewrite bool_decide_eq_false_2; [|intros E; apply token_matches_spec in E; congruence].
      cbn -[penc]. eexists _, r1. split_and!; try done. }
  apply token_matches_spec in Hm; [|done]. rewrite bool_decide_eq_true_2 by done. cbn [negb].
  destruct (Z.ltb_spec 988 (Z.of_nat (length t) + 1)); [lia|].
  destruct (db r !! bk) as [v|] eqn:Hb.
  2:{ eapply run_get_none; [apply bal_word|rewrite E1; exact Hb|]. intros r2 E2.
      cbn -[penc]. eexists _, r2. split_and!; try done. congruence. }
  eapply run_get; [apply bal_word|rewrite E1; exact Hb|]. intros r2 E2. cbn -[penc].
  eexists _, r2. split; [done|]. split; [congruence|]. cbn. split_and!; try done.
  destruct (Z.ltb_spec (atoll v) 4000); [done|]. intros _. split_and!; try done.
  - rewrite Hm, take_take, Nat.min_l, take_app_length by lia. done.
  - rewrite Hm. intros Hlt. rewrite take_app_ge by lia. destruct (32 - length t)%nat eqn:E32; [lia|]. cbn [take]. split; [set_solver|].
    apply cstr_app_nul. done.
Qed.

(** C24: the answer to a token query implements the abstract verdict: USER_NOT_EXIST
    without a stored token, INCORRECT_TOKEN unless the presented C string is the stored
    token, NO_BALANCE below 4000, and otherwise success with the stored balance and the
    token; the database is not changed. *)
Theorem token_verdict sz_buf rz_buf (r : R) : let req : ReadTokenReq := pdec rz_buf in
  let stored := db r !! auth_key (rq_mobile req) (rq_app req) in
  let code := verdict stored (cstr (req_token rz_buf)) (balance_of (rq_mobile req) (rq_app req) r) in
  (∀ t, stored = Some t → 0 ∉ t ∧ (length t ≤ 32)%nat) →
  ∃ rsp r', run_prog (ReadToken sz_buf rz_buf) r = Ok ([penc rsp], r') ∧ db r' = db r ∧
    rr_msg_id rsp = READ_TOKEN_RSP ∧ rr_rsp_code rsp = code ∧ rr_cid rsp = rq_cid req ∧
    (code = SUCC → Some (rr_balance rsp) = balance_of (rq_mobile req) (rq_app req) r ∧
                   4000 ≤ rr_balance rsp ∧
                   take (length (cstr (req_token rz_buf))) (rr_token rsp) = cstr (req_token rz_buf) ∧
                   ((length (cstr (req_token rz_buf)) < 32)%nat → 0 ∈ rr_token rsp ∧ cstr (rr_token rsp) = cstr (req_token rz_buf))).
Proof. exact (ReadToken_run sz_buf rz_buf r). Qed.

End Reports.

(** ** A Redis for the examples *)

(** Strings and lists. *)
Record store := MkStore { st_strings : gmap bytes bytes; st_lists : gmap bytes (list bytes) }.

(** The words of a command. *)
Fixpoint words (cur l : bytes) : list bytes :=
  match l with
  | [] => [cur]
  | b :: l => if b =? 32 then cur :: words [] l else words (cur ++ [b]) l
  end.

Definition store_exec (cmd : bytes) (s : store) : option redisReply * store :=
  match words [] cmd with
  | [c; k] =>
    if bool_decide (c = bs "get") then
      (Some (match st_strings s !! k with
             | Some v => MkReply REDIS_REPLY_STRING 0 (Some v)
             | None => MkReply REDIS_REPLY_NIL 0 None
             end), s)
    else (Some (MkReply REDIS_REPLY_ERROR 0 (Some [])), s)
  | [c; k; v] =>
    if bool_decide (c = bs "set") then
      (Some (MkReply REDIS_REPLY_STATUS 0 (Some (bs "OK"))), MkStore (<[k := v]> (st_strings s)) (st_lists s))
    else if bool_decide (c = bs "rpush") then
      if bool_decide (st_strings s !! k = None) then
        let l := default [] (st_lists s !! k) ++ [v] in
        (Some (MkReply REDIS_REPLY_INTEGER (Z.of_nat (length l)) None), MkStore (st_strings s) (<[k := l]> (st_lists s)))
      else (Some (MkReply REDIS_REPLY_ERROR 0 (Some [])), s)
    else if bool_decide (c = bs "expire") then (Some (MkReply REDIS_REPLY_INTEGER 1 None), s)
    else (Some (MkReply REDIS_REPLY_ERROR 0 (Some [])), s)
  | _ => (Some (MkReply REDIS_REPLY_ERROR 0 (Some [])), s)
  end.

#[export] Instance store_redis : Redis store := {| exec_command := store_exec |}.

Lemma words_nospace cur l : 32 ∉ l → words cur l = [cur ++ l].
Proof.
  revert cur. induction l as [|b l IH]; intros cur H; cbn; [rewrite app_nil_r; done|].
  destruct (Z.eqb_spec b 32) as [->|]; [set_solver|]. rewrite IH by set_solver. rewrite <- app_assoc. done.
Qed.

Lemma words_space cur a l : 32 ∉ a → words cur (a ++ 32 :: l) = (cur ++ a) :: words [] l.
Proof.
  revert cur. induction a as [|b a IH]; intros cur H; cbn; [rewrite app_nil_r; done|].
  destruct (Z.eqb_spec b 32) as [->|]; [set_solver|]. rewrite IH by set_solver. rewrite <- app_assoc. done.
Qed.

Lemma words_cmd2 c k : 32 ∉ c → 32 ∉ k → words [] (c ++ 32 :: k) = [c; k].
Proof. intros Hc Hk. rewrite words_space, words_nospace; done. Qed.

Lemma words_cmd3 c k v : 32 ∉ c → 32 ∉ k → 32 ∉ v → words [] (c ++ 32 :: k ++ 32 :: v) = [c; k; v].
Proof. intros Hc Hk Hv. rewrite !words_space, words_nospace; done. Qed.

#[export] Program Instance store_db : RedisDb store := {| db := st_strings |}.
Next Obligation.
  intros k r (Hk & _ & _). cbn. unfold store_exec, cmd_get.
  change (bs "get " ++ k) with (bs "get" ++ 32 :: k). rewrite words_cmd2 by (done || by_decide).
  change (bool_decide (bs "get" = bs "get")) with true. done.
Qed.
Next Obligation.
  intros k v r (Hk & _ & _) (Hv & _ & _). cbn. unfold store_exec, cmd_set.
  change (bs "set " ++ k ++ bs " " ++ v) with (bs "set" ++ 32 :: k ++ 32 :: v).
  rewrite words_cmd3 by (done || by_decide).
  change (bool_decide (bs "set" = bs "set")) with true. done.
Qed.
Next Obligation.
  intros k v r (Hk & _ & _) (Hv & _ & _) Hn. cbn. unfold store_exec, cmd_rpush.
  change (bs "rpush " ++ k ++ bs " " ++ v) with (bs "rpush" ++ 32 :: k ++ 32 :: v).
  rewrite words_cmd3 by (done || by_decide).
  change (bool_decide (bs "rpush" = bs "set")) with false.
  change (bool_decide (bs "rpush" = bs "rpush")) with true. rewrite bool_decide_eq_true_2 by done. cbn.
  split; [|done]. eexists. split; [|done]. rewrite length_app. cbn. lia.
Qed.
Next Obligation.
  intros k r (Hk & _ & _). cbn. unfold store_exec, cmd_expire.
  change (bs "expire " ++ k ++ bs " 360000000") with (bs "expire" ++ 32 :: k ++ 32 :: bs "360000000").
  rewrite words_cmd3 by (done || by_decide).
  change (bool_decide (bs "expire" = bs "set")) with false.
  change (bool_decide (bs "expire" = bs "rpush")) with false.
  change (bool_decide (bs "expire" = bs "expire")) with true. done.
Qed.

(** A user with a token and a balance of 10000, and a report of 700 bytes. *)
Definition store0 : store :=
  MkStore {[auth_key 13800000000 7 := bs "tok"; bal_key 13800000000 7 := bs "10000"]} ∅.

Definition report (traffic : Z) : bytes :=
  penc (MkTrafficReport TRAFFIC_REPORT 7 13800000000 traffic (Tv 5 0) (Tv 6 0) 9 1 (pad 256 (bs "-"))).

Lemma reports_settle_witness : ∃ r',
  run_seq (map HandleTrafficReport [report 700; report 300]) store0
    = Ok (map (fun x => report_rsp (pdec x) 0) [report 700; report 300], r') ∧
  balance_of 13800000000 7 r' = Some (10000 - total [report 700; report 300]).
Proof.
  apply (reports_settle 13800000000 7 [report 700; report 300] 10000 store0);
    [|discriminate|vm_compute; reflexivity|vm_compute; reflexivity|by_decide].
  repeat constructor; by_decide.
Defined.


(** Both reports read the balance before either writes it. *)
Definition crossed : list nat := [0; 1; 0; 1; 0; 1; 0; 1; 0; 1]%nat.

(** Two traffic reports of the same user whose coroutines both read the balance
    before either writes it are both answered with success but only one is charged: of
    1000 bytes reported, 300 are taken from the balance. *)
Theorem concurrent_reports_lose : ∃ ps out r,
  sched crossed (map HandleTrafficReport [report 700; report 300]) store0 = Ok (ps, out, r) ∧
  ps = [PRet; PRet] ∧ balance_of 13800000000 7 r = Some 9700 ∧
  map snd out = [report_rsp (pdec (report 700)) 0; report_rsp (pdec (report 300)) 0].
Proof. eexists _, _, _. split; [vm_compute; reflexivity|]. split_and!; vm_compute; reflexivity. Qed.

(** A token request as it lies in [rz_buf]. *)
Definition token_req : bytes :=
  penc (MkReadTokenReq READ_TOKEN_REQ 5 7 13800000000 (pad 32 (bs "tok"))) ++ replicate 966 0.

(** Witness of C24. *)
Lemma token_verdict_witness : ∃ rsp r',
  run_prog (ReadToken (replicate 1024 170) token_req) store0 = Ok ([penc rsp], r') ∧
  rr_rsp_code rsp = SUCC ∧ Some (rr_balance rsp) = Some 10000.
Proof.
  destruct (token_verdict (replicate 1024 170) token_req store0) as (rsp & r' & H1 & H2 & H3 & H4 & H5 & H6).
  { intros t Ht. vm_compute in Ht. injection Ht as <-. split; [by_decide|cbn; lia]. }
  exists rsp, r'. split; [exact H1|]. split; [rewrite H4; vm_compute; reflexivity|].
  destruct H6 as [H6 _]; [vm_compute; reflexivity|]. rewrite H6. vm_compute. reflexivity.
Defined.

(** ** Reading messages *)

(** A segment of whole frames. *)
Definition segment (ms : list bytes) : bytes := concat (map frame ms).

Definition sendable (m : bytes) : Prop := (0 < length m ≤ RZ_BUF)%nat.

Lemma read_seg_some n a b segs : n = Z.of_nat (length a) → a ≠ [] →
  read_seg n ((a ++ b) :: segs) = (n, a, if bool_decide (b = []) then segs else b :: segs).
Proof. intros -> Ha. unfold read_seg. rewrite Nat2Z.id, take_app_length, drop_app_length. done. Qed.

(** The segments left after a frame. *)
Definition rest_segs (b : bytes) (segs : list bytes) : list bytes :=
  if bool_decide (b = []) then segs else b :: segs.

Lemma frame_split m : sendable m → ∃ h, frame m = h ++ m ∧ length h = 6%nat ∧
  ntohs (fld 2 2 h) = Z.of_nat (length m).
Proof.
  intros [H1 H2]. unfold RZ_BUF in H2. unfold frame. eexists. split; [reflexivity|]. split; [done|].
  set (n := Z.of_nat (length m)).
  assert (in_u 16 n) as Hn by (unfold n; range_lia).
  transitivity (ntohs (hlen16 (pdec (penc (Hdr VALIDATER0 VALIDATER1 (htons n) 0) ++ [])))).
  { rewrite app_nil_r. done. }
  rewrite pdec_enc; [cbn; apply ntohs_htons; done|]. cbn. unfold VALIDATER0, VALIDATER1.
  split_and!; [range_lia|range_lia|apply htons_range|range_lia].
Qed.

Lemma NetRead_frame fuel fresh m b segs : sendable m →
  NetRead (S fuel) fresh ((frame m ++ b) :: segs) =
    match NetRead fuel fresh (rest_segs b segs) with
    | Ok l => Ok (blit 0 m fresh :: l)
    | Bad f => Bad f
    end.
Proof.
  intros Hm. destruct (frame_split m Hm) as (h & -> & Hh & Hlen). destruct Hm as [Hm1 Hm2].
  rewrite <- app_assoc. cbn [NetRead]. rewrite (read_seg_some HDR h);
    [|unfold HDR; lia|intros ->; done].
  change (HDR <=? 0) with false. cbn beta iota.
  rewrite bool_decide_eq_false_2 by (destruct m; [cbn in Hm1; lia|done]).
  rewrite Hlen, (read_seg_some _ m); [|done|intros ->; cbn in Hm1; lia].
  destruct (Z.leb_spec (Z.of_nat (length m)) 0); [lia|].
  destruct (Nat.leb_spec (length m) RZ_BUF); [|lia]. done.
Qed.

(** When every segment that arrives holds whole frames of 1 to 1024 bytes, NetRead
    starts a coroutine for exactly the framed messages, in order. *)
Theorem netread_whole_frames fresh mss : Forall (Forall sendable) mss → Forall (fun ms => ms ≠ []) mss →
  NetRead (S (length (concat mss))) fresh (map segment mss) = Ok (map (fun m => blit 0 m fresh) (concat mss)).
Proof.
  induction mss as [|ms mss IH]; [done|]. intros [Hs Hss]%Forall_cons [Hn Hns]%Forall_cons. cbn [map concat].
  specialize (IH Hss Hns). revert Hn. induction Hs as [|m ms Hm Hs IHs]; [done|]. intros _.
  cbn [app length map]. change (segment (m :: ms)) with (frame m ++ segment ms).
  rewrite NetRead_frame by done. destruct (decide (ms = [])) as [->|Hne].
  - change (rest_segs (segment []) (map segment mss)) with (map segment mss). cbn [app]. rewrite IH. done.
  - assert (rest_segs (segment ms) (map segment mss) = segment ms :: map segment mss) as ->.
    { unfold rest_segs. rewrite bool_decide_eq_false_2; [done|]. destruct ms; [done|].
      unfold segment. cbn. unfold frame. cbn. done. }
    rewrite (IHs Hne). done.
Qed.

Lemma netread_witness :
  NetRead 4 (replicate 1024 0) (map segment [[report 1; report 2]; [report 3]])
  = Ok (map (fun m => blit 0 m (replicate 1024 0)) [report 1; report 2; report 3]).
Proof.
  apply (netread_whole_frames (replicate 1024 0) [[report 1; report 2]; [report 3]]).
  - repeat constructor; cbn; unfold RZ_BUF; lia.
  - repeat constructor; discriminate.
Defined.

(** A frame whose body arrives in two segments is taken for a whole message with
    its tail missing, and the rest of the stream is read out of step: the message after
    it is lost. *)
Theorem netread_split_body : ∃ l x,
  NetRead 10 (replicate 1024 0) [take 100 (frame (report 1)); drop 100 (frame (report 1)) ++ frame (report 2)]
  = Ok l ∧ l = [x] ∧ take 94 x = take 94 (report 1) ∧ drop 94 x = replicate 930 0.
Proof. eexists _, _. split; [vm_compute; reflexivity|]. split_and!; vm_compute; reflexivity. Qed.

End Recorder.
