(* ===== verification/RedisConn.v ===== *)
(** * Redis connections of the recorder
      (src/trafficRecorder/trafficRecorder/redis_connect.cpp, redis_connect.h)

    [RedisConnect] owns a hiredis context: it connects and authenticates on first
    use, sends a command, reconnects once when the server has closed the
    connection, and drops the context when a command has no reply.

    hiredis is not part of the program: [Hiredis] holds the functions the class
    calls, over a state [W] of the library and the servers, and [HiredisDoc] what
    its documentation says of the replies.  Contexts and connection objects live on
    heaps of their own, so that a use after [redisFree] is a fault. *)

From S2P Require Import Prelude Triple Recorder.
From stdpp Require Import base gmap list strings.
From Stdlib Require Import ZArith Lia.
Import Triple.

Open Scope Z_scope.

Module RedisConn.

(** The constants of hiredis are those of the recorder's handlers. *)
Abbreviation REDIS_REPLY_STRING := Recorder.REDIS_REPLY_STRING.
Abbreviation REDIS_REPLY_ARRAY := Recorder.REDIS_REPLY_ARRAY.
Abbreviation REDIS_REPLY_INTEGER := Recorder.REDIS_REPLY_INTEGER.
Abbreviation REDIS_REPLY_NIL := Recorder.REDIS_REPLY_NIL.
Abbreviation REDIS_REPLY_STATUS := Recorder.REDIS_REPLY_STATUS.
Abbreviation REDIS_REPLY_ERROR := Recorder.REDIS_REPLY_ERROR.

Definition REDIS_OK : Z := 0.
Definition REDIS_ERR_EOF : Z := 3.

(** [redisReply] of hiredis, with the elements of arrays; [str] is null for the
    types without a string, and its length is [len]. *)
Inductive reply := MkRep (rtype : Z) (integer : Z) (str : option bytes) (element : list (option reply)).

Definition rtype (r : reply) : Z := let 'MkRep t _ _ _ := r in t.
Definition integer (r : reply) : Z := let 'MkRep _ i _ _ := r in i.
Definition str (r : reply) : option bytes := let 'MkRep _ _ s _ := r in s.
Definition element (r : reply) : list (option reply) := let 'MkRep _ _ _ e := r in e.

Definition redisContext : Type := Z * bytes.     (* err, errstr *)

(** The functions of hiredis the class calls.  The pointer names the context. *)
Class Hiredis (W : Type) := {
  redisConnect : positive → bytes → Z → W → option redisContext * W;
  redisConnectWithTimeout : positive → bytes → Z → Z → W → option redisContext * W;
  redisSetTimeout : positive → Z → W → W;
  redisvCommand : positive → bytes → W → option reply * redisContext * W;
  redisReconnect : positive → W → Z * redisContext * W;
  redisAppendCommand : positive → bytes → W → W;
  redisGetReply : positive → W → option reply * redisContext * W;
  redisClose : positive → W → W
}.

Record RedisConnect := MkRC {
  host_ip_ : bytes;
  port_ : Z;
  passwd_ : bytes;
  timeout_ : Z;
  redis_ctx_ : option positive;
  b_connect_ : bool
}.

#[export] Instance eta_RC : Eta RedisConnect := fun r =>
  MkRC (host_ip_ r) (port_ r) (passwd_ r) (timeout_ r) (redis_ctx_ r) (b_connect_ r).

(** [RedisConnect::RedisConnect] followed by [init]. *)
Definition RedisConnect_init (host_ip : bytes) (port : Z) (passwd : bytes) (timeout : Z) : RedisConnect :=
  MkRC host_ip port passwd timeout None false.

Record rstate (W : Type) := MkR {
  net : W;
  ctxs : gmap positive redisContext;
  objs : gmap positive RedisConnect
}.
Arguments MkR {W} _ _ _.
Arguments net {W} _.
Arguments ctxs {W} _.
Arguments objs {W} _.

(** [strcasecmp(s, t) == 0] *)
Definition strcaseeq (s t : bytes) : bool := bool_decide (tolower <$> cstr s = tolower <$> cstr t).

(** [strtoull(s, NULL, 10)] *)
Definition strtoull (s : bytes) : Z :=
  let v := dec_value (cstr s) in if 2 ^ 64 <=? Z.abs v then 2 ^ 64 - 1 else u64 v.

Definition set_net {W} (w : W) (s : rstate W) : rstate W := MkR w (ctxs s) (objs s).
Definition set_ctxs {W} (f : gmap positive redisContext → gmap positive redisContext) (s : rstate W) :=
  MkR (net s) (f (ctxs s)) (objs s).
Definition set_objs {W} (f : gmap positive RedisConnect → gmap positive RedisConnect) (s : rstate W) :=
  MkR (net s) (ctxs s) (f (objs s)).

Section Connection.
Context {W : Type} {HR : Hiredis W}.

Abbreviation R := (M (rstate W)).

(** A call of hiredis. *)
Definition act {A} (f : rstate W → result (A * rstate W)) : R A := f.

Definition this (p : positive) : R RedisConnect := fun s =>
  match objs s !! p with Some c => Ok (c, s) | None => Bad UseAfterFree end.

Definition set_this (p : positive) (f : RedisConnect → RedisConnect) : R unit :=
  modify (set_objs (alter f p)).

(** A context handed to hiredis is read: it must be a context not yet freed. *)
Definition deref_ctx (o : option positive) : R positive := fun s =>
  match o with
  | None => Bad NullDeref
  | Some k => match ctxs s !! k with Some _ => Ok (k, s) | None => Bad UseAfterFree end
  end.

(** [redisFree]: nothing for a null pointer. *)
Definition redisFree (o : option positive) : R unit :=
  match o with
  | None => mret tt
  | Some _ =>
    k ← deref_ctx o;
    modify (fun s => set_ctxs (delete k) (set_net (redisClose k (net s)) s))
  end.

(** [redisCommand], [redisvCommand] *)
Definition command (o : option positive) (cmd : bytes) : R (option reply) :=
  k ← deref_ctx o;
  act (fun s =>
    let '(r, cx, w) := redisvCommand k cmd (net s) in
    Ok (r, set_ctxs (insert k cx) (set_net w s))).

Definition connect_with_timeout (host_ip : bytes) (port timeout : Z) : R (option positive) := fun s =>
  let k := fresh (dom (ctxs s)) in
  let '(context, w) := if negb (timeout =? 0) then redisConnectWithTimeout k host_ip port timeout (net s)
                       else redisConnect k host_ip port (net s) in
  let s := set_net w s in
  match context with
  | None => Ok (None, s)
  | Some cx =>
    let s := set_ctxs (insert k cx) s in
    if negb (cx.1 =? 0) then (redisFree (Some k);; mret None) s else Ok (Some k, s)
  end.

(** The string of a reply that is read as a C string. *)
Definition reply_str (r : reply) : R bytes := nonnull (str r).

Definition auth (p : positive) (passwd : bytes) : R bool :=
  c ← this p;
  reply ← command (redis_ctx_ c) (bs "AUTH " ++ passwd);
  match reply with
  | None => mret false
  | Some r =>
    s ← reply_str r;
    mret (strcaseeq s (bs "OK") || strcaseeq s (bs "ERR Client sent AUTH, but no password is set"))
  end.

Definition try_connect (p : positive) : R bool :=
  c ← this p;
  if bool_decide (host_ip_ c = []) then mret false
  else
    (match redis_ctx_ c with
     | Some k => redisFree (Some k);; set_this p (fun c => c <| redis_ctx_ := None |> <| b_connect_ := false |>)
     | None => mret tt
     end);;
    ctx ← connect_with_timeout (host_ip_ c) (port_ c) (timeout_ c);
    set_this p (fun c => c <| redis_ctx_ := ctx |>);;
    match ctx with
    | None => set_this p (fun c => c <| b_connect_ := false |>);; mret false
    | Some k =>
      modify (fun s => set_net (redisSetTimeout k (timeout_ c) (net s)) s);;
      ret ← auth p (passwd_ c);
      if negb ret : bool then
        redisFree (Some k);;
        set_this p (fun c => c <| redis_ctx_ := None |> <| b_connect_ := false |>);;
        mret ret
      else
        set_this p (fun c => c <| b_connect_ := true |>);;
        mret ret
    end.

Definition check_reply (p : positive) (reply : option reply) : R bool :=
  match reply with
  | None =>
    c ← this p;
    redisFree (redis_ctx_ c);;
    set_this p (fun c => c <| redis_ctx_ := None |> <| b_connect_ := false |>);;
    mret false
  | Some r =>
    if bool_decide (rtype r ∈ [REDIS_REPLY_STRING; REDIS_REPLY_ARRAY; REDIS_REPLY_INTEGER; REDIS_REPLY_NIL])
    then mret true
    else if rtype r =? REDIS_REPLY_STATUS then s ← reply_str r; mret (strcaseeq s (bs "OK"))
    else mret false
  end.

(** The error of the context: [err == REDIS_ERR_EOF] with the text of a closed
    connection. *)
Definition server_closed (cx : redisContext) : bool :=
  (cx.1 =? REDIS_ERR_EOF) && bool_decide (cstr cx.2 = bs "Server closed the connection").

Definition ctx_closed (o : option positive) : R bool :=
  k ← deref_ctx o; gets (fun s => from_option server_closed false (ctxs s !! k)).

(** [redisReconnect(redis_ctx_)] *)
Definition reconnect (o : option positive) : R Z :=
  k ← deref_ctx o;
  act (fun s =>
    let '(r, cx, w) := redisReconnect k (net s) in
    Ok (r, set_ctxs (insert k cx) (set_net w s))).

(** The command, once more after a reconnect when it found the connection closed. *)
Definition command_retry (p : positive) (cmd : bytes) : R (option reply) :=
  c ← this p;
  reply ← command (redis_ctx_ c) cmd;
  lost ← (match reply with None => mret true | Some _ => ctx_closed (redis_ctx_ c) end);
  if lost : bool then
    reconn ← reconnect (redis_ctx_ c);
    if reconn =? REDIS_OK then
      set_this p (fun c => c <| b_connect_ := true |>);;
      command (redis_ctx_ c) cmd
    else mret None
  else mret reply.

Definition exec_v_command (p : positive) (cmd : bytes) : R (option reply) :=
  c ← this p;
  ready ← (if negb (b_connect_ c) || bool_decide (redis_ctx_ c = None) then try_connect p else mret true);
  if negb ready : bool then mret None
  else
    reply ← command_retry p cmd;
    check_reply p reply;;
    mret reply.

(** The result parameters are the second component of the value. *)
Definition exec_v_command_int (p : positive) (result : Z) (cmd : bytes) : R (Z * Z) :=
  reply ← exec_v_command p cmd;
  ok ← check_reply p reply;
  if negb ok : bool then mret (-1, result)
  else
    r ← nonnull reply;
    if negb (rtype r =? REDIS_REPLY_INTEGER) && negb (rtype r =? REDIS_REPLY_STATUS) then mret (-1, result)
    else mret (0, integer r).

Definition exec_v_command_string (p : positive) (result : bytes) (cmd : bytes) : R (Z * bytes) :=
  reply ← exec_v_command p cmd;
  ok ← check_reply p reply;
  if negb ok : bool then mret (-1, result)
  else
    r ← nonnull reply;
    if rtype r =? REDIS_REPLY_STRING then s ← reply_str r; mret (0, s)
    else if rtype r =? REDIS_REPLY_NIL then mret (1, result)
    else mret (-1, result).

(** Appends the string of an element that is a string. *)
Definition push_string (r : reply) (vec : list bytes) : R (list bytes) :=
  if rtype r =? REDIS_REPLY_STRING then s ← reply_str r; mret (vec ++ [s]) else mret vec.

Fixpoint vec_loop (p : positive) (l : list (option reply)) (vec : list bytes) : R (Z * list bytes) :=
  match l with
  | [] => mret (0, vec)
  | e :: l' =>
    ok ← check_reply p e;
    if negb ok : bool then mret (-1, vec)
    else r ← nonnull e; vec ← push_string r vec; vec_loop p l' vec
  end.

Definition exec_v_command_vec_string (p : positive) (vec : list bytes) (cmd : bytes) : R (Z * list bytes) :=
  reply ← exec_v_command p cmd;
  ok ← check_reply p reply;
  if negb ok : bool then mret (-1, vec)
  else
    r ← nonnull reply;
    if rtype r =? REDIS_REPLY_ARRAY then vec_loop p (element r) vec
    else if rtype r =? REDIS_REPLY_STRING then
      ok ← check_reply p reply;
      if negb ok : bool then mret (-1, vec) else vec ← push_string r vec; mret (0, vec)
    else mret (0, vec).

Inductive SCAN_TYPE := REDIS_SCAN_TYPE_KEY | REDIS_SCAN_TYPE_VAL | REDIS_SCAN_TYPE_ALL.

(** One element of a scan: checked, and appended when it is a string. *)
Definition scan_one (p : positive) (e : option reply) (vec : list bytes)
    (k : list bytes → R (Z * list bytes)) : R (Z * list bytes) :=
  ok ← check_reply p e;
  if negb ok : bool then mret (-1, vec) else r ← nonnull e; vec ← push_string r vec; k vec.

(** The loops of the three specialisations: keys at the even places, values at the
    odd ones, and every element as key and as value. *)
Fixpoint scan_keys (p : positive) (l : list (option reply)) (vec : list bytes) : R (Z * list bytes) :=
  match l with
  | [] => mret (0, vec)
  | [e] => scan_one p e vec (fun vec => mret (0, vec))
  | e :: _ :: l' => scan_one p e vec (scan_keys p l')
  end.

Fixpoint scan_vals (p : positive) (l : list (option reply)) (vec : list bytes) : R (Z * list bytes) :=
  match l with
  | [] => mret (0, vec)
  | [_] => fail_with OutOfBounds
  | _ :: e :: l' => scan_one p e vec (scan_vals p l')
  end.

Fixpoint scan_all (p : positive) (l : list (option reply)) (vec : list bytes) : R (Z * list bytes) :=
  match l with
  | [] => mret (0, vec)
  | e :: l' =>
    let pKey := e in
    let pVal := e in
    okk ← check_reply p pKey;
    okv ← (if okk : bool then check_reply p pVal else mret false);
    if negb okv : bool then mret (-1, vec)
    else
      kr ← nonnull pKey; vr ← nonnull pVal;
      if (rtype kr =? REDIS_REPLY_STRING) && (rtype vr =? REDIS_REPLY_STRING) then
        vec ← push_string kr vec; vec ← push_string vr vec; scan_all p l' vec
      else scan_all p l' vec
  end.

(** [element[i]] *)
Definition elem (r : reply) (i : nat) : R reply :=
  match element r !! i with None => fail_with OutOfBounds | Some e => nonnull e end.

(** The value is [(ret, (curserid, vresult))]. *)
Definition exec_v_command_hscan (stype : SCAN_TYPE) (p : positive) (curserid : Z) (vec : list bytes)
    (cmd : bytes) : R (Z * (Z * list bytes)) :=
  reply ← exec_v_command p cmd;
  ok ← check_reply p reply;
  if negb ok : bool then mret (-1, (curserid, vec))
  else
    r ← nonnull reply;
    if negb (rtype r =? REDIS_REPLY_ARRAY) then mret (-1, (curserid, vec))
    else if bool_decide (element r = []) then mret (0, (0, vec))
    else
      e0 ← elem r 0;
      s0 ← reply_str e0;
      let curserid := i64 (strtoull s0) in
      elements ← elem r 1;
      res ← (match stype with
             | REDIS_SCAN_TYPE_KEY => scan_keys p (element elements) vec
             | REDIS_SCAN_TYPE_VAL => scan_vals p (element elements) vec
             | REDIS_SCAN_TYPE_ALL => scan_all p (element elements) vec
             end);
      mret (res.1, (curserid, res.2)).

(** [redisGetReply] and [freeReplyObject] on what it stored; [reply] is not
    initialised, so after an error a wild pointer is freed. *)
Definition pipeline_reply (o : option positive) : R unit :=
  k ← deref_ctx o;
  act (fun s =>
    let '(r, cx, w) := redisGetReply k (net s) in
    match r with
    | Some _ => Ok (tt, set_ctxs (insert k cx) (set_net w s))
    | None => Bad UseAfterFree
    end).

(** [exec_command_pipeline]: the command of the caller is not used. *)
Definition exec_command_pipeline (p : positive) (cmd : bytes) : R Z :=
  c ← this p;
  k ← deref_ctx (redis_ctx_ c);
  modify (fun s => set_net (redisAppendCommand k (bs "incr foo") (net s)) s);;
  modify (fun s => set_net (redisAppendCommand k (bs "incr foo") (net s)) s);;
  pipeline_reply (redis_ctx_ c);;
  pipeline_reply (redis_ctx_ c);;
  mret 0.

(** [RedisConnect::~RedisConnect] and the end of the object. *)
Definition delete_RedisConnect (p : positive) : R unit :=
  c ← this p;
  redisFree (redis_ctx_ c);;
  modify (set_objs (delete p)).

End Connection.
(** ** Ownership of the contexts *)

(** A reply as hiredis documents it: the types with a string carry one, and the
    elements of an array are replies. *)
Fixpoint reply_ok (r : reply) : bool :=
  let 'MkRep t _ s e := r in
  (negb (bool_decide (t ∈ [REDIS_REPLY_STRING; REDIS_REPLY_STATUS; REDIS_REPLY_ERROR])) || bool_decide (s ≠ None))
  && forallb (fun o => match o with Some r => reply_ok r | None => false end) e.

Class HiredisDoc (W : Type) {HR : Hiredis W} : Prop := {
  doc_reply k cmd w r cx w' : redisvCommand k cmd w = (Some r, cx, w') → reply_ok r = true;
  (** AUTH is answered with a status or an error, which carry a string. *)
  doc_auth k pw w r cx w' : redisvCommand k (bs "AUTH " ++ pw) w = (Some r, cx, w') →
    rtype r = REDIS_REPLY_STATUS ∨ rtype r = REDIS_REPLY_ERROR
}.

(** Connection [p] has the field [fld] and the flag [b] and is responsible for the
    context [own]; every other connection owns the context its field names, its
    flag says whether there is one, and no context is without an owner. *)
Record part {W} (D : gset positive) (p : positive) (own fld : option positive) (b : bool) (s : rstate W) : Prop := MkPart {
  pt_dom : dom (objs s) = D;
  pt_obj : ∃ c, objs s !! p = Some c ∧ redis_ctx_ c = fld ∧ b_connect_ c = b;
  pt_live k : own = Some k → is_Some (ctxs s !! k);
  pt_flag q c : q ≠ p → objs s !! q = Some c → b_connect_ c = bool_decide (redis_ctx_ c ≠ None);
  pt_others q c k : q ≠ p → objs s !! q = Some c → redis_ctx_ c = Some k →
    is_Some (ctxs s !! k) ∧ own ≠ Some k;
  pt_inj q q' c c' k : q ≠ p → q' ≠ p → objs s !! q = Some c → objs s !! q' = Some c' →
    redis_ctx_ c = Some k → redis_ctx_ c' = Some k → q = q';
  pt_owned k : is_Some (ctxs s !! k) → own = Some k ∨
    ∃ q c, q ≠ p ∧ objs s !! q = Some c ∧ redis_ctx_ c = Some k
}.

Definition rinv {W} (s : rstate W) : Prop :=
  (∀ p c k, objs s !! p = Some c → redis_ctx_ c = Some k → is_Some (ctxs s !! k)) ∧
  (∀ p c, objs s !! p = Some c → b_connect_ c = bool_decide (redis_ctx_ c ≠ None)) ∧
  (∀ p q c d k, objs s !! p = Some c → objs s !! q = Some d →
     redis_ctx_ c = Some k → redis_ctx_ d = Some k → p = q) ∧
  (∀ k, is_Some (ctxs s !! k) → ∃ p c, objs s !! p = Some c ∧ redis_ctx_ c = Some k).

Lemma rinv_part {W} (s : rstate W) p c : rinv s → objs s !! p = Some c →
  part (dom (objs s)) p (redis_ctx_ c) (redis_ctx_ c) (bool_decide (redis_ctx_ c ≠ None)) s.
Proof.
  intros (Hl & Hb & Hi & Ho) Hc. split.
  - done.
  - exists c. eauto.
  - eauto.
  - eauto.
  - intros q d k Hq Hd Hk. split; [eauto|]. intros Hk'. apply Hq. eauto.
  - eauto.
  - intros k Hk. destruct (Ho k Hk) as (q & d & Hd & Hdk).
    destruct (decide (q = p)) as [->|]; [|right; eauto 10].
    left. congruence.
Qed.

Lemma part_rinv {W} (s : rstate W) D p o : part D p o o (bool_decide (o ≠ None)) s → rinv s.
Proof.
  intros [_ (c & Hc & Hf & Hb) Hl Hfl Hot Hi Ho]. split_and!.
  - intros q d k Hd Hk. destruct (decide (q = p)) as [->|]; [|eapply Hot; eauto].
    apply Hl. congruence.
  - intros q d Hd. destruct (decide (q = p)) as [->|]; [|eauto].
    rewrite Hc in Hd. simplify_eq. done.
  - intros q q' d d' k Hd Hd' Hk Hk'.
    destruct (decide (q = p)) as [->|Hq], (decide (q' = p)) as [->|Hq']; [done| | |eauto].
    + destruct (Hot q' d' k Hq' Hd' Hk') as [_ []]. congruence.
    + destruct (Hot q d k Hq Hd Hk) as [_ []]. congruence.
  - intros k Hk. destruct (Ho k Hk) as [Hown|(q & d & _ & Hd & Hdk)]; [exists p, c; split; congruence|eauto].
Qed.

Lemma part_net {W} (s : rstate W) D p o f b w : part D p o f b s → part D p o f b (set_net w s).
Proof. intros [? ? ? ? ? ? ?]. split; done. Qed.

Lemma part_ctx {W} (s : rstate W) D p k f b cx : part D p (Some k) f b s → part D p (Some k) f b (set_ctxs (insert k cx) s).
Proof.
  intros [Hd Ho Hl Hf Hot Hi Hw]. specialize (Hl k eq_refl).
  assert (∀ j, is_Some (<[k := cx]> (ctxs s) !! j) ↔ is_Some (ctxs s !! j)) as He.
  { intros j. destruct (decide (j = k)) as [->|]; [rewrite lookup_insert_eq; naive_solver|].
    rewrite lookup_insert_ne; done. }
  split; simpl; try setoid_rewrite He; auto. naive_solver.
Qed.

Lemma part_this {W} (s : rstate W) D p o f b g : part D p o f b s →
  (∀ c, redis_ctx_ c = f → b_connect_ c = b → redis_ctx_ (g c) = redis_ctx_ (g (MkRC [] 0 [] 0 f b)) ∧
        b_connect_ (g c) = b_connect_ (g (MkRC [] 0 [] 0 f b))) →
  part D p o (redis_ctx_ (g (MkRC [] 0 [] 0 f b))) (b_connect_ (g (MkRC [] 0 [] 0 f b))) (set_objs (alter g p) s).
Proof.
  intros [Hdm (c & Hc & Hcf & Hcb) Hl Hf Hot Hi Hw] Hg.
  assert (∀ q, q ≠ p → alter g p (objs s) !! q = objs s !! q) as Hne
    by (intros q Hq; rewrite lookup_alter_ne; done).
  split; simpl.
  - rewrite dom_alter_L. done.
  - exists (g c). rewrite lookup_alter_eq, Hc. split; [done|]. apply Hg; done.
  - done.
  - intros q d Hq. rewrite Hne by done. eauto.
  - intros q d k Hq. rewrite Hne by done. eauto.
  - intros q q' d d' k Hq Hq'. rewrite !Hne by done. eauto.
  - intros k Hk. destruct (Hw k Hk) as [?|(q & d & Hq & ?)]; [eauto|].
    right. exists q, d. rewrite Hne; done.
Qed.

Section Safe.
Context {W : Type} {HR : Hiredis W} {HD : HiredisDoc W}.

Implicit Types D : gset positive.
#[local] Abbreviation safe := (triple (S := rstate W) (fun _ => False)).

Lemma safe_this D p o f b : safe (part D p o f b) (this p)
  (fun c s => redis_ctx_ c = f ∧ b_connect_ c = b ∧ part D p o f b s).
Proof. intros s Hs. destruct (pt_obj _ _ _ _ _ _ Hs) as (c & Hc & ?). unfold this. rewrite Hc. naive_solver. Qed.

(** The flag and the field of the object change together with the ownership. *)
Lemma safe_set_this D p o f b f' b' (g : RedisConnect → RedisConnect) :
  (∀ c, redis_ctx_ c = f → b_connect_ c = b → redis_ctx_ (g c) = f' ∧ b_connect_ (g c) = b') →
  safe (part D p o f b) (set_this p g) (fun _ => part D p o f' b').
Proof.
  intros Hg. apply h_modify. intros s Hs.
  destruct (Hg (MkRC [] 0 [] 0 f b) eq_refl eq_refl) as [<- <-].
  apply part_this; [done|]. intros c Hc Hb.
  pose proof (Hg c Hc Hb). pose proof (Hg (MkRC [] 0 [] 0 f b) eq_refl eq_refl). intuition congruence.
Qed.

Lemma safe_deref D p k f b : safe (part D p (Some k) f b) (deref_ctx (Some k)) (fun j s => j = k ∧ part D p (Some k) f b s).
Proof.
  intros s Hs. destruct (pt_live _ _ _ _ _ _ Hs k eq_refl) as [cx Hcx]. simpl. rewrite Hcx. done.
Qed.

Lemma part_free (s : rstate W) D p k f b : part D p (Some k) f b s → part D p None f b (set_ctxs (delete k) s).
Proof.
  intros [Hd Ho Hl Hf Hot Hi Hw]. split; simpl; auto; [naive_solver| |].
  - intros q c j Hq Hc Hj. destruct (Hot q c j Hq Hc Hj) as [? Hne].
    rewrite lookup_delete_ne by congruence. done.
  - intros j Hj. destruct (decide (j = k)) as [->|].
    { rewrite lookup_delete_eq in Hj. by destruct Hj. }
    rewrite lookup_delete_ne in Hj by done. destruct (Hw j Hj) as [?|?]; [congruence|naive_solver].
Qed.

Lemma safe_free D p o f b : safe (part D p o f b) (redisFree o) (fun _ => part D p None f b).
Proof.
  destruct o as [k|]; [|intros s Hs; done].
  unfold redisFree. eapply h_bind; [apply safe_deref|]. intros j. apply h_pure. intros ->.
  apply h_modify. intros s Hs. apply part_free, part_net, Hs.
Qed.

Lemma safe_command D p k f b cmd : safe (part D p (Some k) f b) (command (Some k) cmd)
  (fun r s => from_option (fun r => reply_ok r = true ∧ ((∃ pw, cmd = bs "AUTH " ++ pw) → str r ≠ None)) True r
              ∧ part D p (Some k) f b s).
Proof.
  unfold command. eapply h_bind; [apply safe_deref|]. intros j. apply h_pure. intros ->.
  intros s Hs. unfold act. destruct (redisvCommand k cmd (net s)) as [[r cx] w] eqn:Hc. split.
  - destruct r as [r|]; [|done]. simpl. pose proof (doc_reply _ _ _ _ _ _ Hc) as Hr. split; [done|].
    intros [pw ->]. pose proof (doc_auth _ _ _ _ _ _ Hc) as Ht. destruct r as [t i st e]. simpl in *.
    apply andb_prop in Hr as [Hr _]. destruct st; [done|].
    destruct Ht as [-> | ->]; cbv in Hr; done.
  - apply part_ctx, part_net, Hs.
Qed.

Lemma safe_connect D p f b ip port timeout :
  safe (part D p None f b) (connect_with_timeout ip port timeout) (fun o => part D p o f b).
Proof.
  intros s Hs. unfold connect_with_timeout. set (k := fresh (dom (ctxs s))).
  assert (ctxs s !! k = None) as Hk.
  { destruct (ctxs s !! k) eqn:E; [|done]. exfalso. apply (is_fresh (dom (ctxs s))).
    apply elem_of_dom. eauto. }
  destruct (if negb (timeout =? 0) then _ else _) as [[cx|] w]; [|apply part_net, Hs].
  assert (part D p (Some k) f b (set_ctxs (insert k cx) (set_net w s))) as Hp.
  { destruct Hs as [Hd Ho Hl Hf Hot Hi Hw].
    assert (∀ j, is_Some (ctxs s !! j) → j ≠ k) as Hne by (intros j [x Hx] ->; congruence).
    split; simpl; auto.
    - intros j [= <-]. rewrite lookup_insert_eq. eauto.
    - intros q c j Hq Hc Hj. destruct (Hot q c j Hq Hc Hj) as [Hx _].
      pose proof (Hne j Hx). rewrite lookup_insert_ne by done. split; [done|congruence].
    - intros j. destruct (decide (j = k)) as [->|]; [auto|].
      rewrite lookup_insert_ne by done. intros Hj. destruct (Hw j Hj); [done|auto]. }
  cbv zeta. destruct (negb (cx.1 =? 0)); [|done].
  apply (h_bind _ _ _ _ _ (safe_free D p (Some k) f b)); [|done].
  intros ? s1 Hs1. exact Hs1.
Qed.

Lemma safe_auth D p k b pw : safe (part D p (Some k) (Some k) b) (auth p pw) (fun _ => part D p (Some k) (Some k) b).
Proof.
  unfold auth. eapply h_bind; [apply safe_this|]. intros c. apply h_pure. intros Hc. apply h_pure. intros _.
  rewrite Hc. eapply h_bind; [apply safe_command|]. intros [r|]; apply h_pure; [|intros _ s Hs; exact Hs].
  intros [_ Hr]. specialize (Hr ltac:(eauto)). unfold reply_str.
  destruct (str r) as [x|]; [|done]. intros s Hs. exact Hs.
Qed.

Lemma safe_try_connect D p o b : safe (part D p o o b) (try_connect p)
  (fun ret s => ∃ o' b', part D p o' o' b' s ∧
     (ret = true → b' = true ∧ o' ≠ None) ∧ (ret = false → (o' = o ∧ b' = b) ∨ (o' = None ∧ b' = false))).
Proof.
  unfold try_connect. eapply h_bind; [apply safe_this|]. intros c. apply h_pure. intros Hc. apply h_pure. intros Hb.
  case_bool_decide; [intros s Hs; exists o, b; naive_solver|]. rewrite Hc.
  eapply (h_bind _ _ _ (fun _ s => ∃ b, part D p None None b s)).
  { destruct o as [k|]; [|intros s Hs; exists b; done].
    eapply h_bind; [apply safe_free|]. intros ?.
    eapply h_post; [apply (safe_set_this _ _ _ _ _ None false)|naive_solver].
    intros d. rsimpl. done. }
  intros _. apply h_exists. intros b1.
  eapply h_bind; [apply safe_connect|]. intros ctx.
  eapply h_bind; [apply (safe_set_this _ _ _ _ _ ctx b1); intros d; rsimpl; done|]. intros ?.
  destruct ctx as [k|].
  - eapply h_bind; [apply h_modify; intros s Hs; apply part_net, Hs|]. intros ?.
    eapply h_bind; [apply safe_auth|]. intros [].
    + simpl. eapply h_bind; [apply (safe_set_this _ _ _ _ _ (Some k) true); intros d; rsimpl; done|].
      intros ? s Hs. exists (Some k), true. naive_solver.
    + simpl. eapply h_bind; [apply safe_free|]. intros ?.
      eapply h_bind; [apply (safe_set_this _ _ _ _ _ None false); intros d; rsimpl; done|].
      intros ? s Hs. exists None, false. naive_solver.
  - eapply h_bind; [apply (safe_set_this _ _ _ _ _ None false); intros d; rsimpl; done|].
    intros ? s Hs. exists None, false. naive_solver.
Qed.

(** Between two operations of the class. *)
Definition pin D p (s : rstate W) : Prop := ∃ o, part D p o o (bool_decide (o ≠ None)) s.

Definition orep_ok (r : option reply) : Prop := from_option (fun r => reply_ok r = true) True r.

Lemma reply_ok_str r : reply_ok r = true →
  rtype r ∈ [REDIS_REPLY_STRING; REDIS_REPLY_STATUS; REDIS_REPLY_ERROR] → ∃ x, str r = Some x.
Proof.
  destruct r as [t i st e]. simpl. intros Hr Ht. apply andb_prop in Hr as [Hr _].
  rewrite bool_decide_true in Hr by done. simpl in Hr. apply bool_decide_eq_true in Hr. destruct st; [eauto|done].
Qed.

Lemma safe_reply_str (P : rstate W → Prop) r : reply_ok r = true →
  rtype r ∈ [REDIS_REPLY_STRING; REDIS_REPLY_STATUS; REDIS_REPLY_ERROR] → safe P (reply_str r) (fun _ => P).
Proof. intros Hr Ht s Hs. unfold reply_str. destruct (reply_ok_str r Hr Ht) as [x ->]. exact Hs. Qed.

(** A null reply drops the context; the flag says so. *)
Lemma safe_check D p r : orep_ok r → safe (pin D p) (check_reply p r) (fun ok s => (ok = true → r ≠ None) ∧ pin D p s).
Proof.
  intros Hr. destruct r as [r|]; simpl.
  - case_bool_decide; [intros s Hs; naive_solver|].
    destruct (Z.eqb_spec (rtype r) REDIS_REPLY_STATUS) as [Ht|]; [|intros s Hs; naive_solver].
    eapply h_bind; [apply safe_reply_str; [done|rewrite Ht; apply (bool_decide_unpack _); by vm_compute]|].
    intros x s Hs. naive_solver.
  - apply h_exists. intros o. eapply h_bind; [apply safe_this|]. intros c. apply h_pure. intros ->.
    apply h_pure. intros _. eapply h_bind; [apply safe_free|]. intros ?.
    eapply h_bind; [apply (safe_set_this _ _ _ _ _ None false); intros d; rsimpl; done|].
    intros ? s Hs. split; [done|]. exists None. exact Hs.
Qed.

Lemma safe_retry D p k cmd : safe (part D p (Some k) (Some k) true) (command_retry p cmd)
  (fun r s => orep_ok r ∧ part D p (Some k) (Some k) true s).
Proof.
  unfold command_retry. eapply h_bind; [apply safe_this|]. intros c. apply h_pure. intros ->. apply h_pure. intros _.
  eapply h_bind; [apply safe_command|]. intros r. apply h_pure. intros Hr.
  assert (orep_ok r) as Hro by (destruct r; [apply Hr|done]).
  eapply (h_bind _ _ _ (fun _ => part D p (Some k) (Some k) true)).
  { destruct r; [|intros s Hs; exact Hs]. unfold ctx_closed.
    eapply h_bind; [apply safe_deref|]. intros j. apply h_pure. intros -> s Hs. exact Hs. }
  intros []; [|intros s Hs; exact (conj Hro Hs)].
  eapply (h_bind _ _ _ (fun _ => part D p (Some k) (Some k) true)).
  { unfold reconnect. eapply h_bind; [apply safe_deref|]. intros j. apply h_pure. intros -> s Hs. unfold act.
    destruct (redisReconnect k (net s)) as [[x cx] w]. apply part_ctx, part_net, Hs. }
  intros x. destruct (x =? REDIS_OK); [|intros s Hs; exact (conj I Hs)].
  eapply h_bind; [apply (safe_set_this _ _ _ _ _ (Some k) true); intros d; rsimpl; done|]. intros ?.
  eapply h_post; [apply safe_command|]. intros r' s [Hr' Hs]. split; [|done]. destruct r'; [apply Hr'|done].
Qed.

Lemma safe_exec D p cmd : safe (pin D p) (exec_v_command p cmd) (fun r s => orep_ok r ∧ pin D p s).
Proof.
  unfold exec_v_command. apply h_exists. intros o. eapply h_bind; [apply safe_this|]. intros c.
  apply h_pure. intros Hc. apply h_pure. intros Hb. rewrite Hc, Hb.
  eapply (h_bind _ _ _ (fun ready s => if ready : bool then ∃ k, part D p (Some k) (Some k) true s else pin D p s)).
  { destruct o as [k|]; [intros s Hs; exists k; exact Hs|].
    eapply h_post; [apply safe_try_connect|]. intros ret s (o' & b' & Hs & H1 & H2).
    destruct ret.
    - destruct (H1 eq_refl) as [-> Hn]. destruct o' as [k|]; [eauto|done].
    - exists None. destruct (H2 eq_refl) as [[-> ->]|[-> ->]]; exact Hs. }
  intros []; [|intros s Hs; exact (conj I Hs)].
  apply h_exists. intros k. eapply h_bind; [apply safe_retry|]. intros r. apply h_pure. intros Hr.
  eapply h_bind; [eapply h_weaken; [apply (safe_check D p r Hr)| |intros ok s [_ Hs]; exact Hs]|].
  - intros s Hs. exists (Some k). exact Hs.
  - intros ok s Hs. exact (conj Hr Hs).
Qed.

(** A command and the check of its reply, shared by the typed variants. *)
Lemma safe_checked {A} D p cmd (bad : A) (k : option reply → M (rstate W) A) :
  (∀ r, reply_ok r = true → safe (pin D p) (k (Some r)) (fun _ => pin D p)) →
  safe (pin D p) (reply ← exec_v_command p cmd; ok ← check_reply p reply;
                  if negb ok : bool then mret bad else k reply) (fun _ => pin D p).
Proof.
  intros Hk. eapply h_bind; [apply safe_exec|]. intros r. apply h_pure. intros Hr.
  eapply h_bind; [apply safe_check, Hr|]. intros ok. apply h_pure. intros Hok.
  destruct ok; [|intros s Hs; exact Hs]. destruct r as [r|]; [apply Hk, Hr|]. by destruct Hok.
Qed.

Lemma safe_push (P : rstate W → Prop) r vec : reply_ok r = true → safe P (push_string r vec) (fun _ => P).
Proof.
  intros Hr. unfold push_string. destruct (Z.eqb_spec (rtype r) REDIS_REPLY_STRING) as [Ht|]; [|intros s Hs; exact Hs].
  eapply h_bind; [apply safe_reply_str; [done|rewrite Ht; apply (bool_decide_unpack _); by vm_compute]|].
  intros x s Hs. exact Hs.
Qed.

Lemma reply_ok_elements r : reply_ok r = true → Forall (fun e => ∃ r, e = Some r ∧ reply_ok r = true) (element r).
Proof.
  destruct r as [t i st e]. simpl. intros Hr. apply andb_prop in Hr as [_ Hr].
  apply Forall_forall. intros x Hx. rewrite forallb_forall in Hr.
  specialize (Hr x (proj1 (list_elem_of_In _ _) Hx)). destruct x as [x|]; [eauto|done].
Qed.

Lemma safe_vec D p l vec : Forall (fun e => ∃ r, e = Some r ∧ reply_ok r = true) l →
  safe (pin D p) (vec_loop p l vec) (fun _ => pin D p).
Proof.
  intros Hl. revert vec. induction Hl as [|e l (r & -> & Hr) Hl IH]; intros vec; [intros s Hs; exact Hs|].
  cbn [vec_loop]. eapply h_bind; [apply safe_check, Hr|]. intros []; apply h_pure; intros _; [|intros s Hs; exact Hs].
  simpl. eapply (h_bind _ _ _ (fun x s => x = r ∧ pin D p s)); [intros s Hs; exact (conj eq_refl Hs)|].
  intros x. apply h_pure. intros ->. eapply h_bind; [apply safe_push, Hr|]. intros vec'. apply IH.
Qed.

(** *** HSCAN *)

Definition rstring (x : bytes) : reply := MkRep REDIS_REPLY_STRING 0 (Some x) [].

Definition scan_elements (kv : list (bytes * bytes)) : list (option reply) :=
  concat ((fun x => [Some (rstring x.1); Some (rstring x.2)]) <$> kv).

(** The reply Redis documents: the next cursor and the list of keys and values. *)
Definition scan_reply (cursor : bytes) (kv : list (bytes * bytes)) : reply :=
  MkRep REDIS_REPLY_ARRAY 0 None [Some (rstring cursor); Some (MkRep REDIS_REPLY_ARRAY 0 None (scan_elements kv))].

Definition scan_result (stype : SCAN_TYPE) (kv : list (bytes * bytes)) : list bytes :=
  match stype with
  | REDIS_SCAN_TYPE_KEY => kv.*1
  | REDIS_SCAN_TYPE_VAL => kv.*2
  | REDIS_SCAN_TYPE_ALL => concat ((fun x => [x.1; x.1; x.2; x.2]) <$> kv)
  end.

Definition scan_loop (stype : SCAN_TYPE) (p : positive) (l : list (option reply)) (vec : list bytes) :
    M (rstate W) (Z * list bytes) :=
  match stype with
  | REDIS_SCAN_TYPE_KEY => scan_keys p l vec
  | REDIS_SCAN_TYPE_VAL => scan_vals p l vec
  | REDIS_SCAN_TYPE_ALL => scan_all p l vec
  end.

Lemma scan_loop_run stype p kv vec s :
  scan_loop stype p (scan_elements kv) vec s = Ok ((0, vec ++ scan_result stype kv), s).
Proof.
  revert vec. induction kv as [|[k v] kv IH]; intros vec; destruct stype; simpl; try by rewrite app_nil_r.
  - change (scan_keys p (scan_elements kv) (vec ++ [k]) s = Ok ((0, vec ++ [k] ++ kv.*1), s)).
    rewrite app_assoc. apply IH.
  - change (scan_vals p (scan_elements kv) (vec ++ [v]) s = Ok ((0, vec ++ [v] ++ kv.*2), s)).
    rewrite app_assoc. apply IH.
  - change (scan_all p (scan_elements kv) ((((vec ++ [k]) ++ [k]) ++ [v]) ++ [v]) s =
            Ok ((0, vec ++ [k; k; v; v] ++ scan_result REDIS_SCAN_TYPE_ALL kv), s)).
    rewrite (app_assoc vec [k; k; v; v]). replace (vec ++ [k; k; v; v]) with ((((vec ++ [k]) ++ [k]) ++ [v]) ++ [v])
      by (rewrite <-!app_assoc; done). apply IH.
Qed.

Lemma scan_tail stype p cursor kv curserid vec s :
  (r ← nonnull (Some (scan_reply cursor kv));
   if negb (rtype r =? REDIS_REPLY_ARRAY) then mret (-1, (curserid, vec))
   else if bool_decide (element r = []) then mret (0, (0, vec))
   else
     e0 ← elem r 0; s0 ← reply_str e0;
     let curserid := i64 (strtoull s0) in
     elements ← elem r 1;
     res ← scan_loop stype p (element elements) vec;
     mret (res.1, (curserid, res.2))) s
  = Ok ((0, (i64 (strtoull cursor), vec ++ scan_result stype kv)), s).
Proof.
  pose proof (scan_loop_run stype p kv vec s) as E. unfold mbind, M_bind at 1.
  cbn -[scan_loop scan_elements i64 strtoull]. unfold M_bind. cbn -[scan_loop scan_elements i64 strtoull].
  rewrite E. done.
Qed.

(** The replies an HSCAN command may get. *)
Definition scan_ok (r : reply) : Prop := rtype r = REDIS_REPLY_ERROR ∨ ∃ cursor kv, r = scan_reply cursor kv.

(** *** Sequences of operations *)

Inductive rop :=
  | OExec (p : positive) (cmd : bytes)
  | OInt (p : positive) (cmd : bytes)
  | OString (p : positive) (cmd : bytes)
  | OVec (p : positive) (cmd : bytes).

Definition rop_conn (o : rop) : positive :=
  match o with OExec p _ | OInt p _ | OString p _ | OVec p _ => p end.

Definition run_rop (o : rop) : M (rstate W) unit :=
  match o with
  | OExec p cmd => exec_v_command p cmd;; mret tt
  | OInt p cmd => exec_v_command_int p 0 cmd;; mret tt
  | OString p cmd => exec_v_command_string p [] cmd;; mret tt
  | OVec p cmd => exec_v_command_vec_string p [] cmd;; mret tt
  end.

Fixpoint run_rops (l : list rop) : M (rstate W) unit :=
  match l with [] => mret tt | o :: l' => run_rop o;; run_rops l' end.

Lemma safe_nonnull {A} (P : rstate W → Prop) (r : A) : safe P (nonnull (Some r)) (fun x s => x = r ∧ P s).
Proof. intros s Hs. split; done. Qed.

Lemma safe_rop D o : safe (pin D (rop_conn o)) (run_rop o) (fun _ => pin D (rop_conn o)).
Proof.
  destruct o as [p cmd|p cmd|p cmd|p cmd]; simpl; (eapply (h_bind _ _ _ (fun _ => pin D p)); [|intros ? s Hs; exact Hs]).
  - eapply h_post; [apply safe_exec|]. naive_solver.
  - apply safe_checked. intros r Hr. eapply h_bind; [apply safe_nonnull|]. intros x. apply h_pure. intros ->.
    destruct (_ && _); intros s Hs; exact Hs.
  - apply safe_checked. intros r Hr. eapply h_bind; [apply safe_nonnull|]. intros x. apply h_pure. intros ->.
    destruct (Z.eqb_spec (rtype r) REDIS_REPLY_STRING) as [Ht|]; [|destruct (_ =? _); intros s Hs; exact Hs].
    eapply h_bind; [apply safe_reply_str; [done|rewrite Ht; apply (bool_decide_unpack _); by vm_compute]|].
    intros x s Hs. exact Hs.
  - apply safe_checked. intros r Hr. eapply h_bind; [apply safe_nonnull|]. intros x. apply h_pure. intros ->.
    destruct (rtype r =? REDIS_REPLY_ARRAY); [apply safe_vec, reply_ok_elements, Hr|].
    destruct (rtype r =? REDIS_REPLY_STRING); [|intros s Hs; exact Hs].
    eapply h_bind; [apply (safe_check D p (Some r)), Hr|]. intros []; apply h_pure; intros _; [|intros s Hs; exact Hs].
    simpl. eapply h_bind; [apply safe_push, Hr|]. intros v s Hs. exact Hs.
Qed.

Lemma pin_rinv D p s : pin D p s → rinv s ∧ dom (objs s) = D.
Proof. intros [o Ho]. split; [eapply part_rinv, Ho|apply Ho]. Qed.

Lemma rinv_pin p s : rinv s → p ∈ dom (objs s) → pin (dom (objs s)) p s.
Proof.
  intros Hs [c Hc]%elem_of_dom. exists (redis_ctx_ c). apply rinv_part; done.
Qed.


End Safe.

(** ** Behaviour of the operations *)

Section Behaviour.
Context {W : Type} {HR : Hiredis W}.

(** The three variants of a hash scan return the cursor and the keys, the values, or,
    for all, every key twice and every value twice. *)
(** The three variants of a hash scan return the cursor and the keys, the values, or,
    for all, every key twice and every value twice. *)
(** The three variants of a hash scan return the cursor and the keys, the values, or,
    for all, every key twice and every value twice. *)
(** The three variants of a hash scan return the cursor and the keys, the values, or,
    for all, every key twice and every value twice. *)
(** The three variants of a hash scan return the cursor and the keys, the values, or,
    for all, every key twice and every value twice. *)
(** The three variants of a hash scan return the cursor and the keys, the values, or,
    for all, every key twice and every value twice. *)
(** The three variants of a hash scan return the cursor and the keys, the values, or,
    for all, every key twice and every value twice. *)
(** The three variants of a hash scan return the cursor and the keys, the values, or,
    for all, every key twice and every value twice. *)
(** The three variants of a hash scan return the cursor and the keys, the values, or,
    for all, every key twice and every value twice. *)
(** The three variants of a hash scan return the cursor and the keys, the values, or,
    for all, every key twice and every value twice. *)
(** The three variants of a hash scan return the cursor and the keys, the values, or,
    for all, every key twice and every value twice. *)
(** The three variants of a hash scan return the cursor and the keys, the values, or,
    for all, every key twice and every value twice. *)
(** The three variants of a hash scan return the cursor and the keys, the values, or,
    for all, every key twice and every value twice. *)
(** The three variants of a hash scan return the cursor and the keys, the values, or,
    for all, every key twice and every value twice. *)
(** The three variants of a hash scan return the cursor and the keys, the values, or,
    for all, every key twice and every value twice. *)
Theorem hscan_result stype p curserid vec cmd cursor kv s s' :
  exec_v_command p cmd s = Ok (Some (scan_reply cursor kv), s') →
  exec_v_command_hscan stype p curserid vec cmd s =
    Ok ((0, (i64 (strtoull cursor), vec ++ scan_result stype kv)), s').
Proof.
  intros He. unfold exec_v_command_hscan. unfold mbind at 1, M_bind at 1. rewrite He.
  exact (scan_tail stype p cursor kv curserid vec s').
Qed.

(** What a server that is running does: a context on which the connection was just
    made gets a reply to every command, and connecting succeeds. *)
Class ServerUp (up : W → Prop) (fresh_on : positive → W → Prop) : Prop := {
  up_command k cmd w : fresh_on k w → ∃ r cx w', redisvCommand k cmd w = (Some r, cx, w') ∧
    server_closed cx = false ∧ fresh_on k w';
  up_lost k cmd w : up w → up (redisvCommand k cmd w).2;
  up_auth k pw w : fresh_on k w → ∃ r cx w', redisvCommand k (bs "AUTH " ++ pw) w = (Some r, cx, w') ∧
    str r = Some (bs "OK");
  up_connect k ip port w : up w → ∃ e w', redisConnect k ip port w = (Some (0, e), w') ∧ fresh_on k w';
  up_connect_timeout k ip port t w : up w → ∃ e w', redisConnectWithTimeout k ip port t w = (Some (0, e), w') ∧
    fresh_on k w';
  up_timeout k t w : fresh_on k w → fresh_on k (redisSetTimeout k t w);
  up_reconnect k w : up w → ∃ cx w', redisReconnect k w = (REDIS_OK, cx, w') ∧ fresh_on k w'
}.

Context {up : W → Prop} {fresh_on : positive → W → Prop} {HS : ServerUp up fresh_on}.

Lemma command_fresh k cmd s : is_Some (ctxs s !! k) → fresh_on k (net s) →
  ∃ r s', command (Some k) cmd s = Ok (Some r, s') ∧ objs s' = objs s ∧ is_Some (ctxs s' !! k) ∧
    ctx_closed (Some k) s' = Ok (false, s') ∧ fresh_on k (net s') ∧
    ((∃ pw, cmd = bs "AUTH " ++ pw) → str r = Some (bs "OK")).
Proof.
  intros [x Hx] Hf. destruct (up_command k cmd _ Hf) as (r & cx & w & Hc & Hcl & Hf').
  exists r, (set_ctxs (insert k cx) (set_net w s)).
  unfold command, mbind, M_bind, deref_ctx, act, ctx_closed. rewrite Hx, Hc.
  split; [done|]. unfold mbind, M_bind, gets. cbn [ctxs set_ctxs set_net net objs]. rewrite !lookup_insert_eq.
  unfold deref_ctx. cbn [ctxs set_ctxs set_net]. rewrite !lookup_insert_eq.
  cbn [ctxs set_ctxs]. rewrite !lookup_insert_eq. cbn [from_option]. rewrite Hcl.
  split_and!; eauto. intros [pw ->]. destruct (up_auth k pw _ Hf) as (? & ? & ? & Hc' & ?).
  rewrite Hc in Hc'. naive_solver.
Qed.

Lemma connect_up ip port t s : up (net s) →
  ∃ k s', connect_with_timeout ip port t s = Ok (Some k, s') ∧ objs s' = objs s ∧ is_Some (ctxs s' !! k) ∧ fresh_on k (net s').
Proof.
  intros Hu. unfold connect_with_timeout. set (k := fresh (dom (ctxs s))). destruct (negb (t =? 0)).
  - destruct (up_connect_timeout k ip port t _ Hu) as (e & w & -> & Hf). simpl.
    exists k. eexists. split; [done|]. simpl. rewrite lookup_insert_eq. eauto.
  - destruct (up_connect k ip port _ Hu) as (e & w & -> & Hf). simpl.
    exists k. eexists. split; [done|]. simpl. rewrite lookup_insert_eq. eauto.
Qed.

Lemma try_connect_up p c s : up (net s) → objs s !! p = Some c → host_ip_ c ≠ [] → redis_ctx_ c = None →
  ∃ k c' s', try_connect p s = Ok (true, s') ∧ objs s' !! p = Some c' ∧ redis_ctx_ c' = Some k ∧
    is_Some (ctxs s' !! k) ∧ fresh_on k (net s').
Proof.
  intros Hu Hc Hip Hn. unfold try_connect. unfold mbind at 1, M_bind at 1. unfold this at 1. rewrite Hc.
  rewrite bool_decide_false by done. rewrite Hn. unfold mbind at 1, M_bind at 1. cbn [mret M_ret].
  unfold mbind at 1, M_bind at 1.
  destruct (connect_up (host_ip_ c) (port_ c) (timeout_ c) s Hu) as (k & s1 & -> & Ho1 & Hk1 & Hf1).
  unfold mbind at 1, M_bind at 1. unfold set_this at 1, modify at 1.
  unfold mbind at 1, M_bind at 1. unfold modify at 1.
  set (s2 := set_net _ _).
  assert (objs s2 !! p = Some (c <| redis_ctx_ := Some k |>)) as Ho2
    by (subst s2; simpl; rewrite lookup_alter_eq, Ho1, Hc; done).
  destruct (command_fresh k (bs "AUTH " ++ passwd_ c) s2) as (r & s3 & Hr & Ho3 & Hk3 & _ & Hf3 & Hok);
    [exact Hk1|apply (up_timeout (up := up)), Hf1|].
  unfold mbind at 1, M_bind at 1. unfold auth, mbind at 1, M_bind at 1. unfold this at 1. rewrite Ho2.
  rsimpl. unfold mbind at 1, M_bind at 1. rewrite Hr. unfold reply_str. rewrite Hok by eauto.
  cbn [nonnull mbind M_bind mret M_ret]. simpl. unfold mbind, M_bind, set_this, modify.
  exists k. eexists _, _. split; [done|]. simpl. rewrite lookup_alter_eq, Ho3, Ho2. simpl. eauto.
Qed.

(** The last part of [exec_v_command], on a connection with a context. *)
Lemma retry_up p c k cmd s : objs s !! p = Some c → redis_ctx_ c = Some k → is_Some (ctxs s !! k) →
  fresh_on k (net s) ∨ up (net s) → ∃ r s', command_retry p cmd s = Ok (Some r, s').
Proof.
  intros Hc Hck Hk Hw. unfold command_retry. unfold mbind at 1, M_bind at 1. unfold this at 1. rewrite Hc, Hck.
  unfold mbind at 1, M_bind at 1.
  destruct Hw as [Hf|Hu].
  { destruct (command_fresh k cmd s Hk Hf) as (r & s1 & -> & _ & _ & Hcl & _ & _).
    unfold mbind, M_bind. rewrite Hcl. eauto. }
  assert (∃ r s1, command (Some k) cmd s = Ok (r, s1) ∧ is_Some (ctxs s1 !! k) ∧ up (net s1)) as (r & s1 & -> & Hk1 & Hu1).
  { destruct Hk as [x Hx]. pose proof (up_lost k cmd _ Hu) as Hu'. unfold command, mbind, M_bind, deref_ctx, act. rewrite Hx.
    destruct (redisvCommand k cmd (net s)) as [[r cx] w]. eexists _, _. split; [done|]. simpl.
    rewrite lookup_insert_eq. eauto. }
  unfold mbind at 1, M_bind at 1.
  assert (∃ b, (match r with None => mret true | Some _ => ctx_closed (Some k) end) s1 = Ok (b, s1) ∧ (b = false → r ≠ None))
    as (b & -> & Hb).
  { destruct r; [|eexists; split; [done|done]]. destruct Hk1 as [x Hx]. unfold ctx_closed, mbind, M_bind, deref_ctx, gets.
    rewrite Hx. eauto. }
  destruct b; [|destruct r; [eauto|by destruct Hb]].
  destruct Hk1 as [x Hx]. destruct (up_reconnect k _ Hu1) as (cx & w & Hrc & Hf).
  unfold mbind at 1, M_bind at 1. unfold reconnect, deref_ctx, mbind at 1, M_bind at 1, act. rewrite Hx, Hrc. simpl.
  unfold mbind, M_bind, set_this, modify.
  edestruct (command_fresh k cmd) as (r2 & s2 & -> & _); [| |by eexists _, _]; simpl; [rewrite lookup_insert_eq; eauto|done].
Qed.

(** Whatever became of its connection, an object gets a reply from a server that is up. *)
Lemma exec_up {HD : HiredisDoc W} p c cmd s : rinv s → objs s !! p = Some c → host_ip_ c ≠ [] → up (net s) →
  ∃ r s', exec_v_command p cmd s = Ok (Some r, s') ∧ rinv s'.
Proof.
  intros Hs Hc Hip Hu. pose proof Hs as Hin.
  pose proof (safe_exec (dom (objs s)) p cmd s (rinv_pin p s Hs ltac:(apply elem_of_dom; eauto))) as Hsafe.
  assert (∃ s1 c1 k, (if negb (b_connect_ c) || bool_decide (redis_ctx_ c = None) then try_connect p else mret true) s
            = Ok (true, s1) ∧ objs s1 !! p = Some c1 ∧ redis_ctx_ c1 = Some k ∧ is_Some (ctxs s1 !! k) ∧
            (fresh_on k (net s1) ∨ up (net s1))) as (s1 & c1 & k & H1 & Hc1 & Hk1 & Hl1 & Hw1).
  { destruct Hs as (Hl & Hb & _). rewrite (Hb p c Hc). destruct (redis_ctx_ c) as [k|] eqn:Hk.
    - exists s, c, k. split; [done|]. eauto 10.
    - simpl.
      destruct (try_connect_up p c s Hu Hc Hip Hk) as (k & c' & s' & -> & ? & ? & ? & ?). exists s', c', k. eauto 10. }
  destruct (retry_up p c1 k cmd s1 Hc1 Hk1 Hl1 Hw1) as (r & s2 & H2).
  assert (exec_v_command p cmd s = (check_reply p (Some r);; mret (Some r)) s2) as He.
  { unfold exec_v_command. unfold mbind at 1, M_bind at 1. unfold this at 1. rewrite Hc.
    unfold mbind at 1, M_bind at 1. rewrite H1. simpl. unfold mbind at 1, M_bind at 1. rewrite H2. done. }
  rewrite He in Hsafe |- *. unfold mbind, M_bind in *.
  destruct (check_reply p (Some r) s2) as [[b s3]|f]; [|done].
  exists r, s3. split; [done|]. apply (pin_rinv _ _ _ (proj2 Hsafe)).
Qed.

End Behaviour.

(** ** A server *)

(** A server that wants a password: the contexts that gave it, and those whose
    connection the server has closed. *)
Record server := MkSrv { sv_authed : gset positive; sv_closed : gset positive; sv_log : list bytes }.

Definition rstatus (x : bytes) : reply := MkRep REDIS_REPLY_STATUS 0 (Some x) [].
Definition rerror (x : bytes) : reply := MkRep REDIS_REPLY_ERROR 0 (Some x) [].

Definition server_command (k : positive) (cmd : bytes) (w : server) : option reply * redisContext * server :=
  if decide (k ∈ sv_closed w) then (None, (REDIS_ERR_EOF, bs "Server closed the connection"), w)
  else if bool_decide (take 5 cmd = bs "AUTH ")
  then (Some (rstatus (bs "OK")), (0, []), MkSrv ({[k]} ∪ sv_authed w) (sv_closed w) (sv_log w))
  else if decide (k ∈ sv_authed w)
  then (Some (rstring (bs "value")), (0, []), MkSrv (sv_authed w) (sv_closed w) (sv_log w ++ [cmd]))
  else (Some (rerror (bs "NOAUTH Authentication required.")), (0, []), w).

Definition server_accept (k : positive) (w : server) : server :=
  MkSrv (sv_authed w ∖ {[k]}) (sv_closed w ∖ {[k]}) (sv_log w).

#[export] Instance server_hiredis : Hiredis server := {
  redisConnect k _ _ w := (Some (0, []), server_accept k w);
  redisConnectWithTimeout k _ _ _ w := (Some (0, []), server_accept k w);
  redisSetTimeout _ _ w := w;
  redisvCommand := server_command;
  redisReconnect k w := (REDIS_OK, (0, []), server_accept k w);
  redisAppendCommand _ _ w := w;
  redisGetReply k w := (None, (REDIS_ERR_EOF, bs "Server closed the connection"), w);
  redisClose _ w := w
}.

#[export] Instance server_doc : HiredisDoc server.
Proof.
  split; intros *; simpl; unfold server_command.
  - repeat case_match; intros [= <- <- <-]; reflexivity.
  - case_decide; [done|]. rewrite bool_decide_true by (by vm_compute). intros [= <- <- <-]. left. done.
Qed.

#[export] Instance server_up : ServerUp (fun _ : server => True) (fun k w => k ∉ sv_closed w).
Proof.
  split; intros *; simpl; unfold server_command; [|done| | | |done|].
  - intros Hk. rewrite decide_False by done. repeat case_match; eexists _, _, _; (split_and!; [done|by vm_compute|done]).
  - intros Hk. rewrite decide_False, bool_decide_true by (try done; by vm_compute). eexists _, _, _. done.
  - intros _. eexists _, _. split; [done|]. set_solver.
  - intros _. eexists _, _. split; [done|]. set_solver.
  - intros _. eexists _, _. split; [done|]. set_solver.
Qed.

Definition server0 : server := MkSrv ∅ ∅ [].
Definition rc0 : RedisConnect := RedisConnect_init (bs "127.0.0.1") 6379 (bs "secret") 1.
Definition rstate0 : rstate server := MkR server0 ∅ {[1%positive := rc0; 2%positive := rc0]}.

Lemma rstate0_inv : rinv rstate0.
Proof.
  assert (∀ p c, objs rstate0 !! p = Some c → c = rc0) as H0.
  { intros p c. simpl. rewrite lookup_insert_Some, lookup_singleton_Some. naive_solver. }
  split_and!.
  - intros p c k Hc%H0. by subst.
  - intros p c Hc%H0. by subst.
  - intros p q c d k Hc%H0. by subst.
  - intros k [x Hx]. simpl in Hx. by rewrite lookup_empty in Hx.
Qed.


(** A server with one hash. *)
Definition scan_server : Hiredis unit := {|
  redisConnect k _ _ w := (Some (0, []), w);
  redisConnectWithTimeout k _ _ _ w := (Some (0, []), w);
  redisSetTimeout _ _ w := w;
  redisvCommand k cmd w :=
    (Some (if bool_decide (take 5 cmd = bs "AUTH ") then rstatus (bs "OK")
           else scan_reply (bs "17") [(bs "k1", bs "v1"); (bs "k2", bs "v2")]), (0, []), w);
  redisReconnect k w := (REDIS_OK, (0, []), w);
  redisAppendCommand _ _ w := w;
  redisGetReply k w := (None, (0, []), w);
  redisClose _ w := w
|}.

(** A concrete instance. *)
(** A concrete instance. *)
(** A concrete instance. *)
(** A concrete instance. *)
(** A concrete instance. *)
(** A concrete instance. *)
(** A concrete instance. *)
(** A concrete instance. *)
(** A concrete instance. *)
(** A concrete instance. *)
(** A concrete instance. *)
(** A concrete instance. *)
(** A concrete instance. *)
(** A concrete instance. *)
(** A concrete instance. *)
Lemma hscan_witness : let s := MkR tt ∅ {[1%positive := rc0]} in ∃ s',
  exec_v_command_hscan (HR := scan_server) REDIS_SCAN_TYPE_ALL 1 0 [] (bs "hscan h 0") s =
    Ok ((0, (17, [bs "k1"; bs "k1"; bs "v1"; bs "v1"; bs "k2"; bs "k2"; bs "v2"; bs "v2"])), s').
Proof.
  eexists. apply (hscan_result (HR := scan_server) REDIS_SCAN_TYPE_ALL 1 0 [] (bs "hscan h 0")
    (bs "17") [(bs "k1", bs "v1"); (bs "k2", bs "v2")]). vm_compute. reflexivity.
Defined.

(** The reply of [exec_v_command] and the commands the server executed. *)
Definition exec_reply (cmd : bytes) (s : rstate server) : option (option reply * rstate server) :=
  match exec_v_command 1 cmd s with Ok (r, s') => Some (r, s') | Bad _ => None end.

(** After the server has closed the connection the class reconnects without
    authenticating: the command is refused although the password is known, and the
    next ones too. *)
Example reconnect_not_authenticated :
  (r1 ← exec_reply (bs "get a") rstate0;
   let s1 := set_net (MkSrv (sv_authed (net r1.2)) (dom (ctxs r1.2)) []) r1.2 in
   r2 ← exec_reply (bs "get a") s1;
   r3 ← exec_reply (bs "get a") r2.2;
   Some (r1.1, r2.1, r3.1))
  = Some (Some (rstring (bs "value")), Some (rerror (bs "NOAUTH Authentication required.")),
          Some (rerror (bs "NOAUTH Authentication required."))).
Proof. vm_compute. reflexivity. Qed.

(** [exec_command_pipeline] does not connect: on a connection that was not used
    before, the null context is dereferenced. *)
Theorem pipeline_unconnected_faults {W} {HR : Hiredis W} p c cmd (s : rstate W) :
  objs s !! p = Some c → redis_ctx_ c = None → exec_command_pipeline p cmd s = Bad NullDeref.
Proof.
  intros Hc Hn. unfold exec_command_pipeline, mbind, M_bind, this. rewrite Hc, Hn. done.
Qed.

End RedisConn.
