(* ===== verification/RedisPool.v ===== *)
(** * The pool of Redis connections
      (src/trafficRecorder/trafficRecorder/redis_conn_pool.cpp, redis_conn_pool.h,
       src/trafficRecorder/libgo/block_object.cpp, channel.h)

    The coroutines of the recorder share a stack of connections.  A libgo channel
    counts the connections that are free: [get_connection] reads from it, which
    suspends the coroutine when there is none, and [push_back_connection] writes to
    it.  The scheduler has one thread, so coroutines interleave only where one is
    suspended; a coroutine that was woken runs at any later time. *)

From S2P Require Import Prelude Triple Recorder RedisConn.
From stdpp Require Import base gmap list strings.
From Stdlib Require Import ZArith Lia.
Import Triple RedisConn.

Open Scope Z_scope.

Module RedisPool.

(** ** libgo: signals and channels *)

Definition task := nat.

Record BlockObject := MkBlock { wakeup_ : Z; max_wakeup_ : Z; wait_queue_ : list task }.

#[export] Instance eta_BlockObject : Eta BlockObject := fun r =>
  MkBlock (wakeup_ r) (max_wakeup_ r) (wait_queue_ r).

(** [BlockObject(init_wakeup, max_wakeup = -1)] *)
Definition BlockObject_new (init_wakeup : Z) : BlockObject := MkBlock init_wakeup (2 ^ 64 - 1) [].

(** The end of [CoBlockWait]: the task is switched out, and the scheduler, which
    finds it in state [sys_block], calls [AddWaitTask].  The boolean says whether
    the task waits. *)
Definition AddWaitTask (t : task) (b : BlockObject) : BlockObject * bool :=
  if negb (wakeup_ b =? 0) then (b <| wakeup_ ::= Z.pred |>, false)
  else (b <| wait_queue_ ::= (fun q => q ++ [t]) |>, true).

Definition CoBlockWait (t : task) (b : BlockObject) : BlockObject * bool :=
  if 0 <? wakeup_ b then (b <| wakeup_ ::= Z.pred |>, false) else AddWaitTask t b.

(** The task made runnable, if one waits. *)
Definition Wakeup (b : BlockObject) : BlockObject * option task :=
  match wait_queue_ b with
  | [] => if max_wakeup_ b <=? wakeup_ b then (b, None) else (b <| wakeup_ ::= Z.succ |>, None)
  | t :: q => (b <| wait_queue_ := q |>, Some t)
  end.

Record Channel := MkChan { write_block_ : BlockObject; read_block_ : BlockObject; queue_ : list Z }.

#[export] Instance eta_Channel : Eta Channel := fun r => MkChan (write_block_ r) (read_block_ r) (queue_ r).

Definition Channel_new (capacity : Z) : Channel := MkChan (BlockObject_new capacity) (BlockObject_new 0) [].

(** The value read by [size()]. *)
Definition chan_size (ch : Channel) : Z := Z.of_nat (length (queue_ ch)).

(** [operator>>] up to the wait: the task made runnable and whether the reader waits. *)
Definition read_begin (t : task) (ch : Channel) : Channel * option task * bool :=
  let '(wb, w) := Wakeup (write_block_ ch) in
  let '(rb, waits) := CoBlockWait t (read_block_ ch) in
  (ch <| write_block_ := wb |> <| read_block_ := rb |>, w, waits).

(** [operator>>] after the wait: [front] of an empty queue is undefined. *)
Definition read_end (ch : Channel) : result (Z * Channel) :=
  match queue_ ch with
  | [] => Bad OutOfBounds
  | v :: q => Ok (v, ch <| queue_ := q |>)
  end.

(** [operator<<] up to the wait. *)
Definition write_begin (t : task) (ch : Channel) : Channel * bool :=
  let '(wb, waits) := CoBlockWait t (write_block_ ch) in (ch <| write_block_ := wb |>, waits).

(** [operator<<] after the wait: the task made runnable. *)
Definition write_end (v : Z) (ch : Channel) : Channel * option task :=
  let ch := ch <| queue_ ::= (fun q => q ++ [v]) |> in
  let '(rb, w) := Wakeup (read_block_ ch) in (ch <| read_block_ := rb |>, w).

(** ** The pool *)

Record pool := MkPool {
  pl_host_ip_ : bytes;
  pl_port_ : Z;
  pl_passwd_ : bytes;
  pl_timeout_ : Z;
  pool_size_ : Z;
  redis_conn_stack_ : list positive;      (* the top first *)
  ready_chan_ : option Channel
}.

#[export] Instance eta_pool : Eta pool := fun r =>
  MkPool (pl_host_ip_ r) (pl_port_ r) (pl_passwd_ r) (pl_timeout_ r) (pool_size_ r) (redis_conn_stack_ r) (ready_chan_ r).

Definition RedisConnPool_new : pool := MkPool [] 0 [] 0 0 [] None.

(** Where a coroutine is: outside the pool, suspended in [co_wait] or made runnable
    there, using a connection, suspended in [co_ready] or made runnable there. *)
Inductive pc :=
  | Idle
  | WaitRead
  | ReadWoken
  | Using (c : positive)
  | WaitWrite (c : positive)
  | WriteWoken (c : positive).

#[export] Instance pc_eq_dec : EqDecision pc.
Proof. solve_decision. Defined.

Record pstate (W : Type) := MkPS { ps_pool : pool; ps_redis : rstate W; ps_tasks : gmap task pc }.
Arguments MkPS {W} _ _ _.
Arguments ps_pool {W} _.
Arguments ps_redis {W} _.
Arguments ps_tasks {W} _.

Definition set_pool {W} (f : pool → pool) (s : pstate W) : pstate W := MkPS (f (ps_pool s)) (ps_redis s) (ps_tasks s).
Definition set_redis {W} (r : rstate W) (s : pstate W) : pstate W := MkPS (ps_pool s) r (ps_tasks s).
Definition set_pc {W} (t : task) (c : pc) (s : pstate W) : pstate W := MkPS (ps_pool s) (ps_redis s) (<[t := c]> (ps_tasks s)).

Definition pc_of {W} (t : task) (s : pstate W) : pc := default Idle (ps_tasks s !! t).

Section Pool.
Context {W : Type} {HR : Hiredis W}.

Abbreviation P := (M (pstate W)).

(** [AddTaskRunnable] *)
Definition make_runnable (w : option task) : P unit :=
  match w with
  | None => mret tt
  | Some t => modify (fun s =>
      match pc_of t s with
      | WaitRead => set_pc t ReadWoken s
      | WaitWrite c => set_pc t (WriteWoken c) s
      | _ => s
      end)
  end.

Definition chan : P Channel := s ← get_s; nonnull (ready_chan_ (ps_pool s)).

Definition set_chan (ch : Channel) : P unit := modify (set_pool (fun p => p <| ready_chan_ := Some ch |>)).

(** A method of [RedisConnect] on the connections of the pool. *)
Definition on_redis {A} (m : M (rstate W) A) : P A := fun s =>
  match m (ps_redis s) with Ok (a, r) => Ok (a, set_redis r s) | Bad f => Bad f end.

(** The rest of [get_connection] once [co_wait] returns; [top] of an empty stack is
    undefined. *)
Definition get_end (t : task) : P unit :=
  ch ← chan;
  v ← lift (read_end ch);
  set_chan v.2;;
  s ← get_s;
  match redis_conn_stack_ (ps_pool s) with
  | [] => fail_with OutOfBounds
  | c :: st =>
    modify (set_pool (fun p => p <| redis_conn_stack_ := st |>));;
    modify (set_pc t (Using c))
  end.

Definition get_connection (t : task) : P unit :=
  ch ← chan;
  let '(ch, w, waits) := read_begin t ch in
  set_chan ch;;
  make_runnable w;;
  if waits : bool then modify (set_pc t WaitRead) else get_end t.

(** The rest of [push_back_connection] once the write does not wait. *)
Definition push_end (t : task) (c : positive) : P unit :=
  ch ← chan;
  let '(ch, w) := write_end 1 ch in
  set_chan ch;;
  make_runnable w;;
  modify (set_pool (fun p => p <| redis_conn_stack_ ::= cons c |>));;
  modify (set_pc t Idle).

Definition push_back_connection (t : task) (c : positive) : P unit :=
  ch ← chan;
  let '(ch, waits) := write_begin t ch in
  set_chan ch;;
  if waits : bool then modify (set_pc t (WaitWrite c)) else push_end t c.

(** A coroutine whose signal has come goes on where it was suspended. *)
Definition resume (t : task) : P unit :=
  s ← get_s;
  match pc_of t s with
  | ReadWoken => get_end t
  | WriteWoken c => push_end t c
  | _ => mret tt
  end.

(** The loop of [init_redis_pool]; the calling task never waits in [co_ready],
    which [init_run] shows. *)
Fixpoint init_loop (t : task) (n : nat) : P unit :=
  match n with
  | O => mret tt
  | S n' =>
    s ← get_s;
    let p := ps_pool s in
    let c := fresh (dom (objs (ps_redis s))) in
    let rc := RedisConnect_init (pl_host_ip_ p) (pl_port_ p) (pl_passwd_ p) (pl_timeout_ p) in
    modify (set_redis (set_objs (insert c rc) (ps_redis s)));;
    modify (set_pool (fun p => p <| redis_conn_stack_ ::= cons c |>));;
    ch ← chan;
    let '(ch, waits) := write_begin t ch in
    set_chan ch;;
    if waits : bool then modify (set_pc t (WaitWrite c))
    else
      let '(ch, w) := write_end 1 ch in
      set_chan ch;;
      make_runnable w;;
      init_loop t n'
  end.

Definition init_redis_pool (t : task) : P Z :=
  s ← get_s;
  let p := ps_pool s in
  if bool_decide (ready_chan_ p ≠ None) then mret 0
  else if pool_size_ p <=? 0 then mret (-1)
  else if bool_decide (pl_host_ip_ p = []) then mret (-1)
  else
    (if pl_port_ p =? 0 then modify (set_pool (fun p => p <| pl_port_ := 6379 |>)) else mret tt);;
    set_chan (Channel_new (pool_size_ p));;
    init_loop t (Z.to_nat (pool_size_ p));;
    mret 0.

Definition init (t : task) (host_ip : bytes) (port : Z) (passwd : bytes) (timeout pool_size : Z) : P Z :=
  modify (set_pool (fun p => p <| pl_host_ip_ := host_ip |> <| pl_port_ := port |> <| pl_passwd_ := passwd |>
                              <| pl_timeout_ := timeout |> <| pool_size_ := pool_size |>));;
  init_redis_pool t.

Definition get_chan_size : P Z :=
  s ← get_s; mret (match ready_chan_ (ps_pool s) with None => 0 | Some ch => chan_size ch end).

(** The command a coroutine gives to its connection: the variants of
    [exec_command] differ in the method they call. *)
Inductive pcmd := CExec (cmd : bytes) | CInt (cmd : bytes) | CString (cmd : bytes) | CVec (cmd : bytes).

Definition on_conn (c : positive) (m : pcmd) : rop :=
  match m with CExec x => OExec c x | CInt x => OInt c x | CString x => OString c x | CVec x => OVec c x end.

(** [RedisConnPool::exec_command] and its variants are [PGet], [PCommand] and
    [PPush] in this order, with [PResume] where the coroutine was suspended. *)
Inductive pevent :=
  | PGet (t : task)
  | PResume (t : task)
  | PCommand (t : task) (m : pcmd)
  | PPush (t : task).

Definition ptask (e : pevent) : task :=
  match e with PGet t | PResume t | PCommand t _ | PPush t => t end.

(** A step that the coroutine cannot take where it is does nothing. *)
Definition pstep (e : pevent) : P unit :=
  s ← get_s;
  match e, pc_of (ptask e) s with
  | PGet t, Idle => get_connection t
  | PResume t, _ => resume t
  | PCommand t m, Using c => on_redis (run_rop (on_conn c m))
  | PPush t, Using c => push_back_connection t c
  | _, _ => mret tt
  end.

Fixpoint psteps (l : list pevent) : P unit :=
  match l with [] => mret tt | e :: l' => pstep e;; psteps l' end.

(** [RedisConnPool::exec_command] by a coroutine that need not wait. *)
Definition exec_command (t : task) (cmd : bytes) : P (option reply) :=
  get_connection t;;
  s ← get_s;
  match pc_of t s with
  | Using c =>
    reply ← on_redis (exec_v_command c cmd);
    push_back_connection t c;;
    mret reply
  | _ => mret None
  end.

(** [RedisConnPool::exec_command_pipeline], likewise. *)
Definition pool_exec_command_pipeline (t : task) (cmd : bytes) : P Z :=
  get_connection t;;
  s ← get_s;
  match pc_of t s with
  | Using c =>
    ret ← on_redis (exec_command_pipeline c cmd);
    push_back_connection t c;;
    mret ret
  | _ => mret (-1)
  end.

(** The loop of [~RedisConnPool]. *)
Fixpoint delete_stack (st : list positive) : P unit :=
  match st with
  | [] => mret tt
  | c :: st' =>
    modify (set_pool (fun p => p <| redis_conn_stack_ := st' |>));;
    on_redis (delete_RedisConnect c);;
    delete_stack st'
  end.

Definition delete_RedisConnPool : P unit :=
  s ← get_s;
  match ready_chan_ (ps_pool s) with
  | None => mret tt
  | Some _ =>
    delete_stack (redis_conn_stack_ (ps_pool s));;
    modify (set_pool (fun p => p <| ready_chan_ := None |>))
  end.

End Pool.
(** ** The invariant *)

(** [K] are the coroutines made runnable in [co_wait] and [H] those that use a
    connection, with it; [cs] are the connections of the pool and [T] bounds the
    number of coroutines. *)
Record pinv {W} (T : nat) (cs : list positive) (wb rb : BlockObject) (q : list Z)
    (K : list task) (H : list (task * positive)) (s : pstate W) : Prop := MkPInv {
  pi_chan : ready_chan_ (ps_pool s) = Some (MkChan wb rb q);
  pi_wq : wait_queue_ wb = [];
  pi_max : max_wakeup_ wb = 2 ^ 64 - 1 ∧ max_wakeup_ rb = 2 ^ 64 - 1;
  pi_queue : length q = length (redis_conn_stack_ (ps_pool s));
  pi_read : wakeup_ rb + Z.of_nat (length K) = Z.of_nat (length q) ∧ 0 ≤ wakeup_ rb;
  pi_write : wakeup_ wb = Z.of_nat (length cs) - Z.of_nat (length q) +
                          Z.of_nat (length (wait_queue_ rb)) + Z.of_nat (length K);
  pi_wait : wait_queue_ rb ≠ [] → wakeup_ rb = 0;
  pi_Q : NoDup (wait_queue_ rb) ∧ ∀ t, t ∈ wait_queue_ rb ↔ pc_of t s = WaitRead;
  pi_K : NoDup K ∧ ∀ t, t ∈ K ↔ pc_of t s = ReadWoken;
  pi_H : NoDup H.*1 ∧ ∀ t c, (t, c) ∈ H ↔ pc_of t s = Using c;
  pi_conns : NoDup cs ∧ redis_conn_stack_ (ps_pool s) ++ H.*2 ≡ₚ cs;
  pi_nowrite t : match pc_of t s with WaitWrite _ | WriteWoken _ => False | _ => True end;
  pi_tasks t : pc_of t s ≠ Idle → (t < T)%nat;
  pi_bound : Z.of_nat (length cs) + Z.of_nat T < 2 ^ 64 - 1;
  pi_redis : rinv (ps_redis s) ∧ dom (objs (ps_redis s)) = list_to_set cs
}.

Definition pool_inv {W} (T : nat) (cs : list positive) (s : pstate W) : Prop :=
  ∃ wb rb q K H, pinv T cs wb rb q K H s.

Lemma pc_of_set {W} t t' x (s : pstate W) : pc_of t (set_pc t' x s) = if decide (t = t') then x else pc_of t s.
Proof.
  unfold pc_of. simpl. case_decide as Ht; [subst; rewrite lookup_insert_eq; done|].
  rewrite lookup_insert_ne by done. done.
Qed.

Lemma pc_of_pool {W} t f (s : pstate W) : pc_of t (set_pool f s) = pc_of t s.
Proof. done. Qed.

(** Lists of coroutines that are described by their [pc]. *)
Lemma remove_from {A} (x : A) l : NoDup l → x ∈ l → ∃ l', l ≡ₚ x :: l' ∧ NoDup l' ∧ ∀ y, y ∈ l' ↔ y ∈ l ∧ y ≠ x.
Proof.
  intros Hd Hx. apply elem_of_Permutation in Hx as [l' Hl]. exists l'. split; [done|].
  rewrite Hl in Hd. apply NoDup_cons in Hd as [Hn Hd]. split; [done|].
  intros y. rewrite Hl, elem_of_cons. naive_solver.
Qed.

Lemma bounded_tasks (T : nat) (l : list task) : NoDup l → (∀ t, t ∈ l → (t < T)%nat) → (length l ≤ T)%nat.
Proof.
  intros Hd Hb. rewrite <-(length_seq T 0). apply submseteq_length.
  apply NoDup_submseteq; [done|]. intros t Ht. apply elem_of_seq. specialize (Hb t Ht). lia.
Qed.

Section PoolInv.
Context {W : Type} {HR : Hiredis W}.
Implicit Types s : pstate W.

(** The waiting and the woken coroutines are bounded by [T]. *)
Lemma pinv_waiters T cs wb rb q K H s : pinv T cs wb rb q K H s →
  Z.of_nat (length (wait_queue_ rb)) + Z.of_nat (length K) ≤ Z.of_nat T.
Proof.
  intros Hs. destruct (pi_Q _ _ _ _ _ _ _ _ Hs) as [HQ HQ'], (pi_K _ _ _ _ _ _ _ _ Hs) as [HK HK'].
  rewrite <-Nat2Z.inj_add, <-length_app. apply Nat2Z.inj_le, bounded_tasks.
  - apply NoDup_app. split_and!; [done| |done]. intros t Ht Hk. rewrite HQ' in Ht. rewrite HK' in Hk. congruence.
  - intros t. rewrite elem_of_app, HQ', HK'. intros Ht. apply (pi_tasks _ _ _ _ _ _ _ _ Hs). destruct Ht as [-> | ->]; done.
Qed.

Lemma get_end_run wb rb q s t :
  ready_chan_ (ps_pool s) = Some (MkChan wb rb q) → length q = length (redis_conn_stack_ (ps_pool s)) → q ≠ [] →
  ∃ v q' c st, q = v :: q' ∧ redis_conn_stack_ (ps_pool s) = c :: st ∧
    get_end t s = Ok (tt, set_pc t (Using c) (set_pool (fun p => p <| ready_chan_ := Some (MkChan wb rb q') |>
                                                           <| redis_conn_stack_ := st |>) s)).
Proof.
  intros Hch Hlen Hq. destruct q as [|v q]; [done|].
  destruct (redis_conn_stack_ (ps_pool s)) as [|c st] eqn:Hst; [done|].
  exists v, q, c, st. split_and!; try done.
  unfold get_end, chan, mbind, M_bind, get_s. rewrite Hch. simpl.
  unfold set_chan, modify. simpl. rewrite Hst. done.
Qed.

Lemma get_waits T cs wb rb q K H s t : pinv T cs wb rb q K H s → pc_of t s = Idle → (t < T)%nat → wakeup_ rb = 0 →
  ∃ s', get_connection t s = Ok (tt, s') ∧ pool_inv T cs s'.
Proof.
  intros Hs Ht HT Hr. pose proof (pinv_waiters _ _ _ _ _ _ _ _ Hs) as Hw.
  destruct Hs as [Hch Hwq [Hmx Hmx'] Hq [Hrd Hrd'] Hwr Hwt [HQ HQ'] [HK HK'] [HH HH'] [Hcs Hcs'] Hnw Htk Hb Hre].
  unfold get_connection, chan, mbind, M_bind, get_s. rewrite Hch. simpl.
  unfold read_begin, Wakeup, CoBlockWait, AddWaitTask. simpl. rewrite Hwq, Hmx, Hr. simpl.
  replace (2 ^ 64 - 1 <=? wakeup_ wb) with false by lia. unfold set_chan, modify, make_runnable. simpl.
  eexists. split; [done|]. eexists _, _, q, K, H. split.
  - simpl. reflexivity.
  - done.
  - done.
  - done.
  - simpl. rewrite Hr in Hrd |- *. lia.
  - simpl. rewrite length_app. simpl. lia.
  - intros _. done.
  - simpl. split.
    + apply NoDup_app. split_and!; [done| |by apply NoDup_singleton].
      intros x Hx Hx'. apply list_elem_of_singleton in Hx' as ->. rewrite HQ' in Hx. congruence.
    + intros x. rewrite elem_of_app, list_elem_of_singleton, pc_of_set. case_decide; [naive_solver|].
      rewrite HQ'. naive_solver.
  - split; [done|]. intros x. rewrite pc_of_set, HK'. case_decide; [subst; rewrite Ht; done|done].
  - split; [done|]. intros x c. rewrite pc_of_set, HH'. case_decide; [subst; rewrite Ht; done|done].
  - done.
  - intros x. rewrite pc_of_set. case_decide; [done|apply Hnw].
  - intros x. rewrite pc_of_set. case_decide; [naive_solver|apply Htk].
  - done.
  - done.
Qed.


Lemma get_end_pc t x s : get_end t (set_pc t x s) = get_end t s.
Proof.
  unfold get_end, chan, mbind, M_bind, get_s. simpl. destruct (ready_chan_ (ps_pool s)) as [ch|]; [|done]. simpl.
  destruct (read_end ch) as [[v ch']|]; [|done]. simpl. destruct (redis_conn_stack_ (ps_pool s)) as [|c st]; [done|].
  unfold modify, set_pc, set_pool. simpl. rewrite insert_insert_eq. done.
Qed.

Lemma get_end_inv T cs wb rb q K H s t : pinv T cs wb rb q K H s → pc_of t s = ReadWoken →
  ∃ s', get_end t s = Ok (tt, s') ∧ pool_inv T cs s'.
Proof.
  intros [Hch Hwq [Hmx Hmx'] Hq [Hrd Hrd'] Hwr Hwt [HQ HQ'] [HK HK'] [HH HH'] [Hcs Hcs'] Hnw Htk Hb Hre] Ht.
  destruct (remove_from t K HK) as (K' & HKp & HKd & HKe); [by apply HK'|].
  assert (length K = S (length K')) as HKl by (rewrite HKp; done).
  destruct (get_end_run wb rb q s t Hch Hq) as (v & q' & c & st & Eq & Est & ->).
  { intros ->. simpl in Hrd. lia. }
  subst q. rewrite Est in *. simpl in Hq, Hrd, Hwr.
  eexists. split; [done|]. eexists wb, rb, q', K', ((t, c) :: H). split; simpl; try done.
  - lia.
  - lia.
  - lia.
  - split; [done|]. intros x. rewrite pc_of_set. case_decide as Hx; [|apply HQ'].
    subst. rewrite HQ', Ht. done.
  - split; [done|]. intros x. rewrite HKe, pc_of_set, HK'. case_decide; naive_solver.
  - split.
    + apply NoDup_cons. split; [|done]. intros [[t' c'] [-> Hin]]%list_elem_of_fmap. apply HH' in Hin. simpl in *. congruence.
    + intros x d. rewrite elem_of_cons, pc_of_set, HH'. case_decide as Hx; [subst; rewrite Ht; naive_solver|naive_solver].
  - split; [done|]. rewrite <-Hcs'. simpl. rewrite <-Permutation_middle. done.
  - intros x. rewrite pc_of_set. case_decide; [done|apply Hnw].
  - intros x. rewrite pc_of_set. case_decide; [subst; intros _; apply Htk; rewrite Ht; done|apply Htk].
Qed.

Lemma get_inv T cs s t : pool_inv T cs s → pc_of t s = Idle → (t < T)%nat →
  ∃ s', get_connection t s = Ok (tt, s') ∧ pool_inv T cs s'.
Proof.
  intros (wb & rb & q & K & H & Hs) Ht HT.
  destruct (decide (wakeup_ rb = 0)) as [?|Hr]; [eapply get_waits; done|].
  pose proof (pinv_waiters _ _ _ _ _ _ _ _ Hs) as Hw.
  set (s1 := set_pc t ReadWoken (set_pool (fun p => p <| ready_chan_ :=
               Some (MkChan (wb <| wakeup_ ::= Z.succ |>) (rb <| wakeup_ ::= Z.pred |>) q) |>) s)).
  assert (pinv T cs (wb <| wakeup_ ::= Z.succ |>) (rb <| wakeup_ ::= Z.pred |>) q (t :: K) H s1) as H1.
  { destruct Hs as [Hch Hwq [Hmx Hmx'] Hq [Hrd Hrd'] Hwr Hwt [HQ HQ'] [HK HK'] [HH HH'] [Hcs Hcs'] Hnw Htk Hb Hre].
    assert (wait_queue_ rb = []) as HQ0 by (destruct (wait_queue_ rb); [done|by destruct Hr; apply Hwt]).
    unfold s1. split; simpl; try done.
    - lia.
    - lia.
    - split; [done|]. intros x. rewrite pc_of_set. case_decide as Hx; [subst; rewrite HQ', Ht; done|apply HQ'].
    - split; [apply NoDup_cons; split; [rewrite HK'; congruence|done]|].
      intros x. rewrite elem_of_cons, pc_of_set, HK'. case_decide; [naive_solver|]. naive_solver.
    - split; [done|]. intros x d. rewrite pc_of_set, HH'. case_decide as Hx; [subst; rewrite Ht; done|done].
    - intros x. rewrite pc_of_set. case_decide; [done|apply Hnw].
    - intros x. rewrite pc_of_set. case_decide; [naive_solver|apply Htk]. }
  destruct (get_end_inv _ _ _ _ _ _ _ _ t H1) as (s2 & H2 & Hi2); [unfold s1; rewrite pc_of_set, decide_True; done|].
  exists s2. split; [|done]. unfold s1 in H2. rewrite get_end_pc in H2. rewrite <-H2.
  destruct Hs as [Hch Hwq [Hmx Hmx'] _ [Hrd Hrd'] Hwr _ _ _ _ _ _ _ Hb _].
  unfold get_connection, chan, mbind at 1, M_bind at 1. unfold mbind at 1, M_bind at 1, get_s at 1. rewrite Hch. simpl.
  unfold read_begin, Wakeup, CoBlockWait. simpl. rewrite Hwq, Hmx.
  replace (2 ^ 64 - 1 <=? wakeup_ wb) with false by lia.
  replace (0 <? wakeup_ rb) with true by lia. done.
Qed.

Lemma resume_inv T cs s t : pool_inv T cs s → ∃ s', resume t s = Ok (tt, s') ∧ pool_inv T cs s'.
Proof.
  intros Hs. unfold resume, mbind, M_bind, get_s.
  destruct (pc_of t s) eqn:Ht; try by eexists.
  - destruct Hs as (wb & rb & q & K & H & Hs). eapply get_end_inv; done.
  - destruct Hs as (wb & rb & q & K & H & Hs). pose proof (pi_nowrite _ _ _ _ _ _ _ _ Hs t) as Hn.
    rewrite Ht in Hn. done.
Qed.

(** The state after [push_back_connection]: the first coroutine that waits is woken. *)
Lemma push_run T cs wb rb q K H s t c : pinv T cs wb rb q K H s → pc_of t s = Using c →
  push_back_connection t c s = Ok (tt, set_pc t Idle
    (set_pool (fun p => p <| redis_conn_stack_ ::= cons c |>)
    (match wait_queue_ rb with
     | [] => set_pool (fun p => p <| ready_chan_ :=
               Some (MkChan (wb <| wakeup_ ::= Z.pred |>) (rb <| wakeup_ ::= Z.succ |>) (q ++ [1])) |>) s
     | w :: Q => set_pc w ReadWoken (set_pool (fun p => p <| ready_chan_ :=
               Some (MkChan (wb <| wakeup_ ::= Z.pred |>) (rb <| wait_queue_ := Q |>) (q ++ [1])) |>) s)
     end))).
Proof.
  intros [Hch Hwq [Hmx Hmx'] Hq [Hrd Hrd'] Hwr Hwt [HQ HQ'] [HK HK'] [HH HH'] [Hcs Hcs'] Hnw Htk Hb Hre] Ht.
  assert ((t, c) ∈ H) as Hin by (by apply HH').
  assert (length (redis_conn_stack_ (ps_pool s)) < length cs)%nat as Hlt.
  { rewrite <-Hcs', length_app, length_fmap. destruct H; [by apply elem_of_nil in Hin|]. simpl. lia. }
  unfold push_back_connection, chan, mbind at 1, M_bind at 1. unfold mbind at 1, M_bind at 1, get_s at 1. rewrite Hch. simpl.
  unfold write_begin, CoBlockWait. simpl. replace (0 <? wakeup_ wb) with true by lia.
  unfold mbind, M_bind, set_chan, modify. unfold push_end, chan, mbind, M_bind, get_s. simpl.
  unfold write_end, Wakeup. simpl. destruct (wait_queue_ rb) as [|w Q] eqn:EQ.
  - rewrite Hmx'. replace (2 ^ 64 - 1 <=? wakeup_ rb) with false by lia. done.
  - simpl. unfold set_chan, modify. simpl.
    assert (pc_of w s = WaitRead) as Hw by (apply HQ', elem_of_cons; auto).
    unfold pc_of in *. simpl. rewrite Hw. done.
Qed.

Lemma push_inv T cs s t c : pool_inv T cs s → pc_of t s = Using c →
  ∃ s', push_back_connection t c s = Ok (tt, s') ∧ pool_inv T cs s'.
Proof.
  intros (wb & rb & q & K & H & Hs) Ht. rewrite (push_run _ _ _ _ _ _ _ _ _ _ Hs Ht).
  eexists. split; [done|].
  destruct Hs as [Hch Hwq [Hmx Hmx'] Hq [Hrd Hrd'] Hwr Hwt [HQ HQ'] [HK HK'] [HH HH'] [Hcs Hcs'] Hnw Htk Hb Hre].
  destruct (remove_from (t, c) H) as (H' & HHp & HHd & HHe); [by eapply NoDup_fmap_1|by apply HH'|].
  assert (NoDup H'.*1) as HHd' by (rewrite HHp in HH; by apply NoDup_cons in HH as [_ ?]).
  assert (c :: redis_conn_stack_ (ps_pool s) ++ H'.*2 ≡ₚ cs) as Hcs2.
  { rewrite <-Hcs', HHp. simpl. rewrite <-Permutation_middle. done. }
  destruct (wait_queue_ rb) as [|w Q] eqn:EQ.
  - eexists (wb <| wakeup_ ::= Z.pred |>), (rb <| wakeup_ ::= Z.succ |>), (q ++ [1]), K, H'.
    split; simpl; try done; try (rewrite ?length_app, ?EQ; simpl in *; lia).
    + rewrite EQ. split; [done|]. intros x. rewrite pc_of_set. case_decide; [set_solver|apply HQ'].
    + split; [done|]. intros x. rewrite pc_of_set, HK'. case_decide as Hx; [subst; rewrite Ht; done|done].
    + split; [done|]. intros x d. rewrite HHe, pc_of_set, HH'. case_decide as Hx; [subst; rewrite Ht; naive_solver|naive_solver].
    + intros x. rewrite pc_of_set. case_decide; [done|apply Hnw].
    + intros x. rewrite pc_of_set. case_decide; [done|apply Htk].
  - assert (pc_of w s = WaitRead) as Hw by (apply HQ', elem_of_cons; auto).
    assert (w ≠ t) as Hwt' by congruence.
    apply NoDup_cons in HQ as [Hw' HQ]. rewrite (Hwt ltac:(done)) in Hrd.
    eexists (wb <| wakeup_ ::= Z.pred |>), (rb <| wait_queue_ := Q |>), (q ++ [1]), (w :: K), H'.
    split; simpl; try done; try (rewrite ?length_app, ?(Hwt ltac:(done)); simpl in *; lia).
    + split; [done|]. intros x. rewrite pc_of_set, pc_of_pool, pc_of_set. specialize (HQ' x). rewrite elem_of_cons in HQ'.
      case_decide as Hx; [subst; split; [intros Hx; exfalso|done]; assert (pc_of t s = WaitRead) by (apply HQ'; auto); congruence|].
      case_decide as Hx'; [subst; done|]. rewrite <-HQ'. split; [auto|intros [|]; done].
    + split; [apply NoDup_cons; split; [rewrite HK'; congruence|done]|]. intros x. rewrite elem_of_cons, pc_of_set, pc_of_pool, pc_of_set, HK'.
      case_decide as Hx; [subst; rewrite Ht; naive_solver|]. case_decide; naive_solver.
    + split; [done|]. intros x d. rewrite HHe, pc_of_set, pc_of_pool, pc_of_set, HH'. case_decide as Hx; [subst; rewrite Ht; naive_solver|].
      case_decide as Hx'; [subst; rewrite Hw; naive_solver|naive_solver].
    + intros x. rewrite pc_of_set, pc_of_pool, pc_of_set. case_decide; [done|]. case_decide; [done|apply Hnw].
    + intros x. rewrite pc_of_set, pc_of_pool, pc_of_set. case_decide; [done|]. case_decide as Hx; [|apply Htk].
      subst. intros _. apply Htk. rewrite Hw. done.
Qed.

Lemma command_inv {HD : HiredisDoc W} T cs s t c m : pool_inv T cs s → pc_of t s = Using c →
  ∃ s', on_redis (run_rop (on_conn c m)) s = Ok (tt, s') ∧ pool_inv T cs s' ∧ ps_tasks s' = ps_tasks s ∧ ps_pool s' = ps_pool s.
Proof.
  intros (wb & rb & q & K & H & Hs) Ht.
  destruct (pi_redis _ _ _ _ _ _ _ _ Hs) as [Hre Hdom].
  assert (rop_conn (on_conn c m) = c) as Hcm by (destruct m; done).
  assert (c ∈ cs) as Hc.
  { destruct (pi_conns _ _ _ _ _ _ _ _ Hs) as [_ <-]. apply elem_of_app. right.
    apply list_elem_of_fmap. exists (t, c). split; [done|]. apply (pi_H _ _ _ _ _ _ _ _ Hs). done. }
  assert (rop_conn (on_conn c m) ∈ dom (objs (ps_redis s))) as Hin
    by (rewrite Hcm, Hdom; apply elem_of_list_to_set; done).
  pose proof (safe_rop _ _ _ (rinv_pin _ _ Hre Hin)) as Hr. unfold on_redis.
  destruct (run_rop (on_conn c m) (ps_redis s)) as [[[] r]|]; [|done].
  destruct (pin_rinv _ _ _ Hr) as [Hri Hrd].
  eexists. split; [done|]. split; [|done]. exists wb, rb, q, K, H.
  destruct Hs as [Hch Hwq Hmx Hq Hrd0 Hwr Hwt HQ HK HH Hcs Hnw Htk Hb _]. split; try done.
  simpl. rewrite Hrd. done.
Qed.

(** *** Start-up *)

(** [i] connections made and [r] places left in the channel. *)
Record making (i r : nat) s : Prop := MkMaking {
  mk_chan : ∃ q, ready_chan_ (ps_pool s) = Some (MkChan (MkBlock (Z.of_nat r) (2 ^ 64 - 1) [])
                                                  (MkBlock (Z.of_nat i) (2 ^ 64 - 1) []) q) ∧ length q = i;
  mk_stack : NoDup (redis_conn_stack_ (ps_pool s)) ∧ length (redis_conn_stack_ (ps_pool s)) = i;
  mk_objs : dom (objs (ps_redis s)) = list_to_set (redis_conn_stack_ (ps_pool s));
  mk_fresh p c : objs (ps_redis s) !! p = Some c → redis_ctx_ c = None ∧ b_connect_ c = false;
  mk_ctxs : ctxs (ps_redis s) = ∅;
  mk_tasks : ps_tasks s = ∅
}.

Lemma init_loop_run t n i s : making i n s → Z.of_nat i + Z.of_nat n < 2 ^ 64 - 1 →
  ∃ s', init_loop t n s = Ok (tt, s') ∧ making (i + n) 0 s'.
Proof.
  revert i s. induction n as [|n IH]; intros i s Hs Hn.
  { exists s. rewrite Nat.add_0_r. done. }
  destruct Hs as [(q & Hch & Hq) [Hd Hl] Ho Hf Hc Ht].
  cbn [init_loop]. unfold mbind at 1, M_bind at 1, get_s at 1. cbv zeta.
  set (c := fresh (dom (objs (ps_redis s)))). set (rc := RedisConnect_init _ _ _ _).
  assert (c ∉ redis_conn_stack_ (ps_pool s)) as Hnew.
  { intros Hin. apply (is_fresh (dom (objs (ps_redis s)))). rewrite Ho at 2. apply elem_of_list_to_set. done. }
  unfold mbind, M_bind, modify, chan, mbind, M_bind, get_s. simpl. rewrite Hch. simpl.
  unfold write_begin, CoBlockWait. simpl. unfold set_chan, modify. simpl.
  unfold write_end, Wakeup. simpl. replace (2 ^ 64 - 1 <=? Z.of_nat i) with false by lia. simpl.
  match goal with |- context [init_loop t n ?x] => set (s1 := x) end. destruct (IH (S i) s1) as (s2 & H2 & Hm2); [|lia|].
  - unfold s1. split; simpl.
    + exists (q ++ [1]). split; [|rewrite length_app; simpl; lia]. f_equal. unfold set. simpl. f_equal; f_equal; lia.
    + split; [apply NoDup_cons; done|lia].
    + rewrite dom_insert_L, Ho. done.
    + intros p d. rewrite lookup_insert_Some. intros [[_ <-]|[_ Hp]]; [done|eauto].
    + done.
    + done.
  - exists s2. split; [exact H2|]. replace (i + S n)%nat with (S i + n)%nat by lia. done.
Qed.

Lemma making_inv T n s : making n 0 s → Z.of_nat n + Z.of_nat T < 2 ^ 64 - 1 →
  pool_inv T (redis_conn_stack_ (ps_pool s)) s.
Proof.
  intros [(q & Hch & Hq) [Hd Hl] Ho Hf Hc Ht] Hn.
  assert (∀ t, pc_of t s = Idle) as Hpc by (intros t; unfold pc_of; rewrite Ht, lookup_empty; done).
  eexists _, _, q, [], []. split; try done; simpl.
  - lia.
  - lia.
  - lia.
  - split; [constructor|]. intros t. rewrite Hpc. set_solver.
  - split; [constructor|]. intros t. rewrite Hpc. set_solver.
  - split; [constructor|]. intros t c. rewrite Hpc. set_solver.
  - rewrite app_nil_r. done.
  - intros t. rewrite Hpc. done.
  - intros t. rewrite Hpc. done.
  - lia.
  - split; [|done]. split_and!.
    + intros p c k Hp Hk. destruct (Hf p c Hp). congruence.
    + intros p c Hp. destruct (Hf p c Hp) as [-> ->]. done.
    + intros p p' c d k Hp _ Hk. destruct (Hf p c Hp). congruence.
    + intros k. rewrite Hc, lookup_empty. intros [? ?]. done.
Qed.

Definition ps0 (w : W) : pstate W := MkPS RedisConnPool_new (MkR w ∅ ∅) ∅.

Lemma init_run T t w host port passwd timeout n : host ≠ [] → 0 < n → n + Z.of_nat T < 2 ^ 64 - 1 →
  ∃ s, init t host port passwd timeout n (ps0 w) = Ok (0, s) ∧
    Z.of_nat (length (redis_conn_stack_ (ps_pool s))) = n ∧ pool_inv T (redis_conn_stack_ (ps_pool s)) s.
Proof.
  intros Hh Hn HT. unfold init. unfold mbind at 1, M_bind at 1, modify at 1.
  unfold init_redis_pool. unfold mbind at 1, M_bind at 1, get_s at 1. cbv zeta.
  change (ready_chan_ (ps_pool (set_pool _ (ps0 w)))) with (@None Channel). rewrite bool_decide_false by (intros H'; by destruct H').
  change (pool_size_ (ps_pool (set_pool _ (ps0 w)))) with n. replace (n <=? 0) with false by lia.
  change (pl_host_ip_ (ps_pool (set_pool _ (ps0 w)))) with host. rewrite bool_decide_false by done.
  change (pl_port_ (ps_pool (set_pool _ (ps0 w)))) with port.
  unfold mbind, M_bind.
  match goal with |- context [match (if port =? 0 then ?a else ?b) ?s with _ => _ end] =>
    assert (∃ s1, (if port =? 0 then a else b) s = Ok (tt, s1) ∧ redis_conn_stack_ (ps_pool s1) = [] ∧
            ps_redis s1 = MkR w ∅ ∅ ∧ ps_tasks s1 = ∅) as (s1 & -> & Hst & Hre & Htk)
      by (destruct (port =? 0); eexists; done) end.
  unfold set_chan, modify.
  destruct (init_loop_run t (Z.to_nat n) 0 (set_pool (fun p => p <| ready_chan_ := Some (Channel_new n) |>) s1))
    as (s2 & -> & Hm); [|lia|].
  - split; simpl; rewrite ?Hst, ?Hre; simpl.
    + exists []. rewrite Z2Nat.id by lia. done.
    + split; [constructor|done].
    + rewrite dom_empty_L. done.
    + intros p c. rewrite lookup_empty. done.
    + done.
    + done.
  - exists s2. simpl in Hm. split; [done|]. split; [destruct Hm as [_ [_ ->] _ _ _ _]; lia|].
    eapply making_inv; [done|]. lia.
Qed.

(** *** Any number of steps *)

Lemma pstep_inv {HD : HiredisDoc W} T cs e s : pool_inv T cs s → (ptask e < T)%nat →
  ∃ s', pstep e s = Ok (tt, s') ∧ pool_inv T cs s'.
Proof.
  intros Hs Ht. unfold pstep, mbind, M_bind, get_s.
  destruct e as [t|t|t m|t]; simpl in *; [|by apply resume_inv| |]; destruct (pc_of t s) eqn:Hpc; try by exists s.
  - apply get_inv; done.
  - destruct (command_inv T cs s t c m Hs Hpc) as (s' & ? & ? & _). eauto.
  - eapply push_inv; done.
Qed.

Lemma psteps_inv {HD : HiredisDoc W} T cs l s : pool_inv T cs s → Forall (fun e => ptask e < T)%nat l →
  ∃ s', psteps l s = Ok (tt, s') ∧ pool_inv T cs s'.
Proof.
  intros Hs Hl. revert s Hs. induction Hl as [|e l He Hl IH]; intros s Hs; [eexists; done|].
  simpl. unfold mbind, M_bind. destruct (pstep_inv T cs e s Hs He) as (s1 & -> & H1). apply IH, H1.
Qed.

(** What the invariant says of a state. *)
Lemma pool_inv_exclusive T cs s : pool_inv T cs s →
  (∀ t t' c, pc_of t s = Using c → pc_of t' s = Using c → t = t') ∧
  (∀ t c, pc_of t s = Using c → c ∉ redis_conn_stack_ (ps_pool s)) ∧
  NoDup (redis_conn_stack_ (ps_pool s)) ∧
  (∃ held, NoDup held.*1 ∧ (∀ t c, (t, c) ∈ held ↔ pc_of t s = Using c) ∧
     (length (redis_conn_stack_ (ps_pool s)) + length held = length cs)%nat) ∧
  (∀ t c, pc_of t s ≠ WaitWrite c).
Proof.
  intros (wb & rb & q & K & H & [_ _ _ _ _ _ _ _ _ [HH HH'] [Hcs Hcs'] Hnw _ _ _]).
  rewrite <-Hcs' in Hcs. apply NoDup_app in Hcs as (Hst & Hdis & Hheld).
  assert (∀ t c, pc_of t s = Using c → c ∈ H.*2) as Hin.
  { intros t c Ht%HH'. apply list_elem_of_fmap. exists (t, c). done. }
  split_and!.
  - intros t t' c Ht%HH' Ht'%HH'.
    apply list_elem_of_lookup in Ht as [i Hi], Ht' as [j Hj].
    assert (i = j) as ->; [|congruence].
    apply (NoDup_lookup H.*2 i j c); [done| |]; rewrite list_lookup_fmap; [rewrite Hi|rewrite Hj]; done.
  - intros t c Ht Hc. apply (Hdis c Hc). eauto.
  - done.
  - exists H. split_and!; [done|done|]. rewrite <-Hcs', length_app, length_fmap. done.
  - intros t c Ht. specialize (Hnw t). rewrite Ht in Hnw. done.
Qed.

(** C9: the pool starts with the connections it was asked for, and however coroutines
    then take, use and give back connections: top and front are never called on an empty
    container, no connection is used by two coroutines or is on the stack while it is
    used, none is lost, and giving one back never waits. *)
Theorem pool_exclusive {HD : HiredisDoc W} T t0 w host port passwd timeout n l :
  host ≠ [] → 0 < n → n + Z.of_nat T < 2 ^ 64 - 1 → Forall (fun e => ptask e < T)%nat l →
  ∃ s, (init t0 host port passwd timeout n ≫= fun _ => psteps l) (ps0 w) = Ok (tt, s) ∧
    (∀ t t' c, pc_of t s = Using c → pc_of t' s = Using c → t = t') ∧
    (∀ t c, pc_of t s = Using c → c ∉ redis_conn_stack_ (ps_pool s)) ∧
    NoDup (redis_conn_stack_ (ps_pool s)) ∧
    (∃ held, NoDup held.*1 ∧ (∀ t c, (t, c) ∈ held ↔ pc_of t s = Using c) ∧
       Z.of_nat (length (redis_conn_stack_ (ps_pool s)) + length held) = n) ∧
    (∀ t c, pc_of t s ≠ WaitWrite c) ∧ rinv (ps_redis s).
Proof.
  intros Hh Hn HT Hl. destruct (init_run T t0 w host port passwd timeout n Hh Hn HT) as (s1 & H1 & Hlen & Hi1).
  destruct (psteps_inv T _ l s1 Hi1 Hl) as (s2 & H2 & Hi2). exists s2.
  split; [unfold mbind, M_bind; rewrite H1; exact H2|].
  destruct (pool_inv_exclusive _ _ _ Hi2) as (? & ? & ? & (held & ? & ? & Hc) & ?). split_and!; try done.
  - exists held. rewrite Hc, Hlen. done.
  - destruct Hi2 as (? & ? & ? & ? & ? & Hi2). apply Hi2.
Qed.

(** The states of a pool of [n] connections shared by [T] coroutines. *)
Definition pool_reached (T : nat) (n : Z) s : Prop :=
  ∃ t0 w host port passwd timeout l, host ≠ [] ∧ 0 < n ∧ n + Z.of_nat T < 2 ^ 64 - 1 ∧
    Forall (fun e => ptask e < T)%nat l ∧
    (init t0 host port passwd timeout n ≫= fun _ => psteps l) (ps0 w) = Ok (tt, s).

Lemma pool_reached_intro T n s t0 w host port passwd timeout l : host ≠ [] → 0 < n → n + Z.of_nat T < 2 ^ 64 - 1 →
  Forall (fun e => ptask e < T)%nat l →
  (init t0 host port passwd timeout n ≫= fun _ => psteps l) (ps0 w) = Ok (tt, s) → pool_reached T n s.
Proof. intros. exists t0, w, host, port, passwd, timeout, l. auto. Qed.

(** The coroutines suspended in [co_wait], the one that waits longest first. *)
Definition waiting s : list task := from_option (fun ch => wait_queue_ (read_block_ ch)) [] (ready_chan_ (ps_pool s)).

Lemma reached_inv {HD : HiredisDoc W} T n s : pool_reached T n s → ∃ cs, pool_inv T cs s ∧ Z.of_nat (length cs) = n ∧ 0 < n.
Proof.
  intros (t0 & w & host & port & passwd & timeout & l & Hh & Hn & HT & Hl & Hrun).
  destruct (init_run T t0 w host port passwd timeout n Hh Hn HT) as (s1 & H1 & Hlen & Hi1).
  destruct (psteps_inv T _ l s1 Hi1 Hl) as (s2 & H2 & Hi2).
  unfold mbind, M_bind in Hrun. rewrite H1 in Hrun. rewrite H2 in Hrun. simplify_eq. eauto.
Qed.

(** C35: a coroutine that waits for a connection is not forgotten: another one has been
    woken or all connections are in use, and each connection that is given back wakes
    the coroutine that has waited longest. *)
Theorem pool_no_lost_wakeup {HD : HiredisDoc W} T n s t : pool_reached T n s → pc_of t s = WaitRead →
  t ∈ waiting s ∧
  ((∃ t', pc_of t' s = ReadWoken) ∨ redis_conn_stack_ (ps_pool s) = [] ∧ ∃ t' c, pc_of t' s = Using c) ∧
  (∀ t' c, pc_of t' s = Using c → ∃ x s', pstep (PPush t') s = Ok (tt, s') ∧
     waiting s = x :: waiting s' ∧ pc_of x s' = ReadWoken).
Proof.
  intros (cs & (wb & rb & q & K & H & Hs) & Hlen & Hn)%reached_inv Ht. pose proof Hs as Hs'.
  destruct Hs as [Hch Hwq _ Hq [Hrd Hrd'] Hwr Hwt [HQ HQ'] [HK HK'] [HH HH'] [Hcs Hcs'] _ _ _ _].
  assert (waiting s = wait_queue_ rb) as Hwait by (unfold waiting; rewrite Hch; done).
  assert (t ∈ wait_queue_ rb) as Hin by (by apply HQ'). rewrite Hwait. split; [done|].
  destruct (wait_queue_ rb) as [|x Q] eqn:EQ; [set_solver|]. specialize (Hwt ltac:(done)).
  split.
  - destruct K as [|k K]; [|left; exists k; apply HK', elem_of_cons; auto].
    right. assert (redis_conn_stack_ (ps_pool s) = []) as Hst by (apply length_zero_iff_nil; simpl in Hrd; lia).
    split; [done|]. destruct H as [|[t' c] H]; [rewrite Hst in Hcs'; apply Permutation_length in Hcs'; simpl in *; lia|].
    exists t', c. apply HH', elem_of_cons. auto.
  - intros t' c Ht'. unfold pstep, mbind, M_bind, get_s. simpl. rewrite Ht'.
    rewrite (push_run _ _ _ _ _ _ _ _ _ _ Hs' Ht'), EQ. eexists x, _. split; [done|]. split; [done|].
    assert (pc_of x s = WaitRead) by (apply HQ', elem_of_cons; auto).
    rewrite pc_of_set, pc_of_pool, pc_of_set, decide_False, decide_True by congruence. done.
Qed.

End PoolInv.

(** ** The destructor *)

Section Destructor.
Context {W : Type} {HR : Hiredis W} {HD : HiredisDoc W}.

Lemma delete_rc_inv p (r : rstate W) : rinv r → p ∈ dom (objs r) →
  ∃ r', delete_RedisConnect p r = Ok (tt, r') ∧ rinv r' ∧ dom (objs r') = dom (objs r) ∖ {[p]}.
Proof.
  intros Hr [c Hc]%elem_of_dom. pose proof (rinv_part r p c Hr Hc) as Hp.
  unfold delete_RedisConnect, mbind, M_bind, this. rewrite Hc.
  pose proof (safe_free _ _ _ _ _ r Hp) as Hf. destruct (redisFree (redis_ctx_ c) r) as [[[] r1]|]; [|done].
  unfold modify. eexists. split; [done|].
  destruct Hf as [Hd Ho Hl Hfl Hot Hi Hw]. split; [|simpl; rewrite dom_delete_L, Hd; done].
  assert (∀ q d, delete p (objs r1) !! q = Some d → q ≠ p ∧ objs r1 !! q = Some d) as Hdel
    by (intros q d; rewrite lookup_delete_Some; naive_solver).
  split_and!; simpl.
  - intros q d k [Hq Hq']%Hdel Hk. apply (Hot q d k); done.
  - intros q d [Hq Hq']%Hdel. eauto.
  - intros q q' d d' k [Hq1 Hq]%Hdel [Hq2 Hq']%Hdel. eauto.
  - intros k Hk. destruct (Hw k Hk) as [|(q & d & Hq & Hq' & Hk')]; [done|].
    exists q, d. rewrite lookup_delete_ne by done. done.
Qed.

Lemma delete_stack_run st (s : pstate W) : rinv (ps_redis s) → NoDup st → list_to_set st = dom (objs (ps_redis s)) →
  ∃ s', delete_stack st s = Ok (tt, s') ∧ rinv (ps_redis s') ∧ dom (objs (ps_redis s')) = ∅.
Proof.
  revert s. induction st as [|c st IH]; intros s Hr Hd Hst; [exists s; done|].
  apply NoDup_cons in Hd as [Hc Hd]. cbn [delete_stack]. unfold mbind at 1, M_bind at 1, modify at 1.
  unfold mbind at 1, M_bind at 1, on_redis. simpl.
  destruct (delete_rc_inv c (ps_redis s) Hr) as (r & -> & Hr' & Hdom); [set_solver|].
  apply IH; [done|done|]. simpl. rewrite Hdom, <-Hst. simpl.
  rewrite difference_union_distr_l_L, difference_diag_L, union_empty_l_L, difference_disjoint_L; [done|set_solver].
Qed.

(** The destructor of a pool whose connections are not in use deletes every connection
    and frees every context. *)
(** The destructor of a pool whose connections are not in use deletes every connection
    and frees every context. *)
(** The destructor of a pool whose connections are not in use deletes every connection
    and frees every context. *)
(** The destructor of a pool whose connections are not in use deletes every connection
    and frees every context. *)
(** The destructor of a pool whose connections are not in use deletes every connection
    and frees every context. *)
(** The destructor of a pool whose connections are not in use deletes every connection
    and frees every context. *)
(** The destructor of a pool whose connections are not in use deletes every connection
    and frees every context. *)
(** The destructor of a pool whose connections are not in use deletes every connection
    and frees every context. *)
(** The destructor of a pool whose connections are not in use deletes every connection
    and frees every context. *)
(** The destructor of a pool whose connections are not in use deletes every connection
    and frees every context. *)
(** The destructor of a pool whose connections are not in use deletes every connection
    and frees every context. *)
(** The destructor of a pool whose connections are not in use deletes every connection
    and frees every context. *)
(** The destructor of a pool whose connections are not in use deletes every connection
    and frees every context. *)
(** The destructor of a pool whose connections are not in use deletes every connection
    and frees every context. *)
(** The destructor of a pool whose connections are not in use deletes every connection
    and frees every context. *)
Theorem pool_destructor_frees T n (s : pstate W) : pool_reached T n s → (∀ t c, pc_of t s ≠ Using c) →
  ∃ s', delete_RedisConnPool s = Ok (tt, s') ∧ objs (ps_redis s') = ∅ ∧ ctxs (ps_redis s') = ∅ ∧
    ready_chan_ (ps_pool s') = None.
Proof.
  intros (cs & (wb & rb & q & K & H & Hs) & _ & _)%reached_inv Hno.
  destruct Hs as [Hch _ _ _ _ _ _ _ _ [_ HH] [Hcs Hcs'] _ _ _ [Hr Hdom]].
  assert (H = []) as -> by (destruct H as [|[t c] H]; [done|]; destruct (Hno t c); apply HH, elem_of_cons; auto).
  rewrite app_nil_r in Hcs'. rewrite <-Hcs' in Hcs.
  destruct (delete_stack_run (redis_conn_stack_ (ps_pool s)) s Hr Hcs) as (s1 & H1 & Hr1 & Hd1).
  { rewrite Hdom, Hcs'. done. }
  apply dom_empty_inv_L in Hd1.
  unfold delete_RedisConnPool, mbind at 1, M_bind at 1, get_s at 1. rewrite Hch.
  unfold mbind, M_bind, modify. rewrite H1. eexists. split; [done|]. simpl. split_and!; [done| |done].
  apply map_eq. intros k. rewrite lookup_empty. destruct (ctxs (ps_redis s1) !! k) eqn:Hk; [|done].
  destruct Hr1 as (_ & _ & _ & Ho). destruct (Ho k ltac:(eauto)) as (p & c & Hp & _).
  rewrite Hd1, lookup_empty in Hp. done.
Qed.

End Destructor.

(** ** A run *)

Definition demo_events : list pevent :=
  [PGet 0%nat; PGet 1%nat; PGet 2%nat; PCommand 0%nat (CString (bs "get a")); PCommand 1%nat (CInt (bs "incr b"));
   PPush 0%nat; PGet 0%nat; PResume 2%nat; PCommand 2%nat (CVec (bs "hvals c")); PPush 1%nat; PResume 0%nat].

Abbreviation demo_pool l :=
  ((init 0%nat (bs "127.0.0.1") 0 (bs "secret") 1 2 ≫= fun _ => psteps l) (ps0 server0)).

(** The places of the three coroutines and the length of the stack. *)
Definition demo_view (r : result (unit * pstate server)) : option (list pc * nat) :=
  match r with
  | Ok (_, s) => Some ((fun t => pc_of t s) <$> [0; 1; 2]%nat, length (redis_conn_stack_ (ps_pool s)))
  | Bad _ => None
  end.

Lemma demo_reached l s : Forall (fun e => ptask e < 3)%nat l → demo_pool l = Ok (tt, s) → pool_reached 3%nat 2 s.
Proof.
  intros Hl Hr. eapply pool_reached_intro; [| | |exact Hl|exact Hr]; [discriminate|lia|lia].
Qed.

Lemma demo_tasks : Forall (fun e => ptask e < 3)%nat demo_events.
Proof. repeat constructor. Qed.

(** Two connections and three coroutines: the third waits, gets the connection
    the first gives back, and the first gets the one of the second. *)
Example demo_run :
  demo_view (demo_pool (take 3 demo_events)) = Some ([Using 2; Using 1; WaitRead], 0%nat) ∧
  demo_view (demo_pool (take 7 demo_events)) = Some ([WaitRead; Using 1; ReadWoken], 1%nat) ∧
  demo_view (demo_pool demo_events) = Some ([Using 1; Idle; Using 2], 0%nat).
Proof. vm_compute. done. Qed.

(** Witness of C9. *)
Lemma pool_exclusive_witness : ∃ s, demo_pool demo_events = Ok (tt, s) ∧
  (∀ t t' c, pc_of t s = Using c → pc_of t' s = Using c → t = t') ∧ rinv (ps_redis s).
Proof.
  destruct (pool_exclusive 3%nat 0%nat server0 (bs "127.0.0.1") 0 (bs "secret") 1 2 demo_events)
    as (s & Hr & He & _ & _ & _ & _ & Hi); [done|lia|lia|exact demo_tasks|]. eauto.
Defined.

Definition demo_state (l : list pevent) : pstate server :=
  match demo_pool l with Ok (_, s) => s | Bad _ => ps0 server0 end.

Lemma demo_state_reached l : Forall (fun e => ptask e < 3)%nat l → is_ok (demo_pool l) = true → pool_reached 3%nat 2 (demo_state l).
Proof.
  intros Hl Hok. apply (demo_reached l); [done|]. unfold demo_state. destruct (demo_pool l) as [[[] s]|]; done.
Qed.

(** Witness of C35. *)
Lemma pool_wakeup_witness : let s := demo_state (take 3 demo_events) in
  2%nat ∈ waiting s ∧
  ((∃ t', pc_of t' s = ReadWoken) ∨ redis_conn_stack_ (ps_pool s) = [] ∧ ∃ t' c, pc_of t' s = Using c) ∧
  (∀ t' c, pc_of t' s = Using c → ∃ x s', pstep (PPush t') s = Ok (tt, s') ∧
     waiting s = x :: waiting s' ∧ pc_of x s' = ReadWoken).
Proof.
  apply (pool_no_lost_wakeup 3%nat 2); [apply demo_state_reached; [repeat constructor|by vm_compute]|by vm_compute].
Defined.

(** A concrete instance. *)
(** A concrete instance. *)
(** A concrete instance. *)
(** A concrete instance. *)
(** A concrete instance. *)
(** A concrete instance. *)
(** A concrete instance. *)
(** A concrete instance. *)
(** A concrete instance. *)
(** A concrete instance. *)
(** A concrete instance. *)
(** A concrete instance. *)
(** A concrete instance. *)
(** A concrete instance. *)
(** A concrete instance. *)
Lemma pool_destructor_witness : ∃ s', delete_RedisConnPool (demo_state [PGet 0%nat; PCommand 0%nat (CExec (bs "get a")); PPush 0%nat])
    = Ok (tt, s') ∧ objs (ps_redis s') = ∅ ∧ ctxs (ps_redis s') = ∅ ∧ ready_chan_ (ps_pool s') = None.
Proof.
  apply (pool_destructor_frees 3%nat 2); [apply demo_state_reached; [repeat constructor|by vm_compute]|].
  intros t c. change (default Idle (({[0%nat := Idle]} : gmap task pc) !! t) ≠ Using c).
  destruct (decide (t = 0%nat)) as [->|]; [rewrite lookup_singleton_eq; done|rewrite lookup_singleton_ne by done; done].
Defined.

(** The first KEEP_ALIVE_TOKEN after start-up ends the recorder: its connection has
    no context yet and [exec_command_pipeline] does not connect. *)
Example first_pipeline_faults :
  match init 0%nat (bs "127.0.0.1") 0 (bs "secret") 1 200 (ps0 server0) with
  | Ok (_, s) => pool_exec_command_pipeline 1%nat (bs "expire auth:1:1 360000000") s = Bad NullDeref
  | Bad _ => False
  end.
Proof. vm_compute. reflexivity. Qed.

End RedisPool.
