(* ===== verification/RecorderPool.v ===== *)
(** * The recorder over the pool

    The handlers of [Recorder] are verified against an interface, [RedisDb].  Here
    the pool of [RedisPool] implements it: [RedisServer] is what the Redis
    documentation says of the commands, [exec_command] of the pool is shown to
    answer as the interface promises, also when the server has closed the
    connection, and the theorems of the handlers hold for the whole stack. *)

From S2P Require Import Prelude Triple Wire Recorder RedisConn RedisPool.
From stdpp Require Import base gmap list strings.
From Stdlib Require Import ZArith Lia.
Import Triple Wire RedisConn RedisPool.

Open Scope Z_scope.

Module RecorderPool.

(** The part of a reply the handlers read. *)
Definition flat (r : reply) : Recorder.redisReply := Recorder.MkReply (rtype r) (integer r) (str r).

Definition rnil : reply := MkRep REDIS_REPLY_NIL 0 None [].
Definition rinteger (n : Z) : reply := MkRep REDIS_REPLY_INTEGER n None [].

(** What Redis documents, at the level of hiredis.  A command without a reply may
    have been executed or not. *)
Class RedisServer (W : Type) {HR : Hiredis W} (up : W → Prop) (fresh_on : positive → W → Prop)
    {HS : ServerUp up fresh_on} := {
  sdb : W → gmap bytes bytes;
  srv_up_fresh k w : fresh_on k w → up w;
  srv_up_timeout k t w : up w → up (redisSetTimeout k t w);
  srv_up_close k w : up w → up (redisClose k w);
  srv_connect k ip port w : sdb (redisConnect k ip port w).2 = sdb w;
  srv_connect_timeout k ip port t w : sdb (redisConnectWithTimeout k ip port t w).2 = sdb w;
  srv_timeout k t w : sdb (redisSetTimeout k t w) = sdb w;
  srv_close k w : sdb (redisClose k w) = sdb w;
  srv_reconnect k w : sdb (redisReconnect k w).2 = sdb w;
  srv_auth k pw w : sdb (redisvCommand k (bs "AUTH " ++ pw) w).2 = sdb w;
  srv_get k key w r cx w' : Recorder.word key → redisvCommand k (Recorder.cmd_get key) w = (r, cx, w') →
    sdb w' = sdb w ∧ (∀ x, r = Some x → x = match sdb w !! key with Some v => rstring v | None => rnil end);
  srv_set k key v w r cx w' : Recorder.word key → Recorder.word v →
    redisvCommand k (Recorder.cmd_set key v) w = (r, cx, w') →
    (r = Some (rstatus (bs "OK")) ∧ sdb w' = <[key := v]> (sdb w)) ∨
    (r = None ∧ (sdb w' = sdb w ∨ sdb w' = <[key := v]> (sdb w)));
  srv_rpush k key v w r cx w' : Recorder.word key → Recorder.word v → sdb w !! key = None →
    redisvCommand k (Recorder.cmd_rpush key v) w = (r, cx, w') →
    sdb w' = sdb w ∧ (∀ x, r = Some x → ∃ n, 1 ≤ n ∧ x = rinteger n);
  srv_expire k key w : Recorder.word key → sdb (redisvCommand k (Recorder.cmd_expire key) w).2 = sdb w
}.

Section Effect.
Context {W : Type} {HR : Hiredis W} {up : W → Prop} {fresh_on : positive → W → Prop}.
Context {HS : ServerUp up fresh_on} {SV : RedisServer W up fresh_on}.

(** Partial correctness: what holds when an operation returns. *)
#[local] Abbreviation partial := (triple (S := rstate W) (fun _ => True)).

Definition hosts (s : rstate W) : Prop := ∀ p c, objs s !! p = Some c → host_ip_ c ≠ [].

(** The server is up, its data are [d], and every connection has an address. *)
Definition base (d : gmap bytes bytes) (s : rstate W) : Prop := up (net s) ∧ sdb (net s) = d ∧ hosts s.

(** [E d r d']: the command answers [r] and changes the data from [d] to [d']. *)
Definition effect (cmd : bytes) (E : gmap bytes bytes → option reply → gmap bytes bytes → Prop) : Prop :=
  ∀ k w r cx w', redisvCommand k cmd w = (r, cx, w') → E (sdb w) r (sdb w').

Lemma partial_this d p : partial (base d) (this p) (fun _ => base d).
Proof. intros s Hs. unfold this. destruct (objs s !! p); done. Qed.

Lemma partial_set d p g : (∀ c, host_ip_ (g c) = host_ip_ c) → partial (base d) (set_this p g) (fun _ => base d).
Proof.
  intros Hg. apply h_modify. intros s (Hu & Hd & Hh). split_and!; [done|done|].
  intros q c. simpl. rewrite lookup_alter_Some. intros [(_ & c' & Hc & ->)|[_ Hc]]; [rewrite Hg|]; eauto.
Qed.

Lemma partial_deref d o : partial (base d) (deref_ctx o) (fun _ => base d).
Proof. intros s Hs. destruct o as [k|]; [|done]. simpl. destruct (ctxs s !! k); done. Qed.

Lemma partial_free d o : partial (base d) (redisFree o) (fun _ => base d).
Proof.
  destruct o as [k|]; [|intros s Hs; exact Hs]. simpl. eapply h_bind; [apply partial_deref|]. intros j.
  apply h_modify. intros s (Hu & Hd & Hh). split_and!; simpl; [apply srv_up_close, Hu|rewrite srv_close; done|exact Hh].
Qed.

Lemma partial_command d cmd E o : effect cmd E →
  partial (base d) (command o cmd) (fun r s => ∃ d', E d r d' ∧ base d' s).
Proof.
  intros HE. unfold command. eapply h_bind; [apply partial_deref|]. intros k s (Hu & Hd & Hh). unfold act.
  pose proof (up_lost k cmd _ Hu) as Hu'.
  destruct (redisvCommand k cmd (net s)) as [[r cx] w] eqn:Hc. exists (sdb w). split; [|done].
  rewrite <-Hd. exact (HE _ _ _ _ _ Hc).
Qed.

Lemma partial_auth d p pw : partial (base d) (auth p pw) (fun _ => base d).
Proof.
  unfold auth. eapply h_bind; [apply partial_this|]. intros c.
  eapply h_bind; [apply (partial_command d _ (fun d _ d' => d' = d))|].
  { intros k w r cx w' Hc. pose proof (srv_auth k pw w) as Ha. rewrite Hc in Ha. done. }
  intros r s (d' & -> & Hs). destruct r as [r|]; [|exact Hs]. unfold mbind, M_bind, reply_str. destruct (str r); done.
Qed.

Lemma partial_connect d ip port t : partial (base d) (connect_with_timeout ip port t) (fun _ => base d).
Proof.
  intros s (Hu & Hd & Hh). unfold connect_with_timeout. set (k := fresh (dom (ctxs s))).
  assert (∃ e w, (if negb (t =? 0) then redisConnectWithTimeout k ip port t (net s) else redisConnect k ip port (net s))
            = (Some (0, e), w) ∧ up w ∧ sdb w = d) as (e & w & -> & Hu' & Hd').
  { destruct (negb (t =? 0)).
    - destruct (up_connect_timeout k ip port t _ Hu) as (e & w & Hc & Hf). exists e, w.
      pose proof (srv_connect_timeout k ip port t (net s)) as Hs. rewrite Hc in Hs. simpl in Hs.
      split_and!; [done|eapply srv_up_fresh, Hf|congruence].
    - destruct (up_connect k ip port _ Hu) as (e & w & Hc & Hf). exists e, w.
      pose proof (srv_connect k ip port (net s)) as Hs. rewrite Hc in Hs. simpl in Hs.
      split_and!; [done|eapply srv_up_fresh, Hf|congruence]. }
  simpl. split_and!; done.
Qed.

Lemma partial_try_connect d p : partial (base d) (try_connect p) (fun _ => base d).
Proof.
  unfold try_connect. eapply h_bind; [apply partial_this|]. intros c.
  case_bool_decide; [intros s Hs; exact Hs|].
  eapply (h_bind _ _ _ (fun _ => base d)).
  { destruct (redis_ctx_ c); [|intros s Hs; exact Hs].
    eapply h_bind; [apply partial_free|]. intros ?. apply partial_set. done. }
  intros ?. eapply h_bind; [apply partial_connect|]. intros ctx.
  eapply h_bind; [apply partial_set; done|]. intros ?. destruct ctx as [k|].
  - eapply (h_bind _ _ _ (fun _ => base d)).
    { apply h_modify. intros s (Hu & Hd & Hh). split_and!; simpl; [apply srv_up_timeout, Hu|rewrite srv_timeout; done|exact Hh]. }
    intros ?. eapply h_bind; [apply partial_auth|]. intros []; cbn [negb].
    + eapply h_bind; [apply partial_set; done|]. intros ? s Hs. exact Hs.
    + eapply h_bind; [apply partial_free|]. intros ?.
      eapply h_bind; [apply partial_set; done|]. intros ? s Hs. exact Hs.
  - eapply h_bind; [apply partial_set; done|]. intros ? s Hs. exact Hs.
Qed.

Lemma partial_check d p r : partial (base d) (check_reply p r) (fun _ => base d).
Proof.
  destruct r as [r|]; simpl.
  - case_bool_decide; [intros s Hs; exact Hs|]. destruct (_ =? _); [|intros s Hs; exact Hs].
    intros s Hs. unfold mbind, M_bind, reply_str. destruct (str r); done.
  - eapply h_bind; [apply partial_this|]. intros c. eapply h_bind; [apply partial_free|]. intros ?.
    eapply h_bind; [apply partial_set; done|]. intros ? s Hs. exact Hs.
Qed.

(** A command that was sent once, or once more after a reconnect. *)
Definition once_or_twice (E : gmap bytes bytes → option reply → gmap bytes bytes → Prop) d (r : option reply) d' : Prop :=
  E d r d' ∨ ∃ o d1, E d o d1 ∧ (E d1 r d' ∨ (r = None ∧ d' = d1)).

Lemma partial_retry d p cmd E : effect cmd E →
  partial (base d) (command_retry p cmd) (fun r s => ∃ d', once_or_twice E d r d' ∧ base d' s).
Proof.
  intros HE. unfold command_retry. eapply h_bind; [apply partial_this|]. intros c.
  eapply h_bind; [apply partial_command, HE|]. intros r. apply h_exists. intros d1. apply h_pure. intros HE1.
  eapply (h_bind _ _ _ (fun _ => base d1)).
  { destruct r; [|intros s Hs; exact Hs]. unfold ctx_closed. eapply h_bind; [apply partial_deref|].
    intros k s Hs. exact Hs. }
  intros []; [|intros s Hs; exists d1; split; [left; done|exact Hs]].
  eapply (h_bind _ _ _ (fun _ => base d1)).
  { unfold reconnect. eapply h_bind; [apply partial_deref|]. intros k s (Hu & Hd & Hh). unfold act.
    destruct (up_reconnect k _ Hu) as (cx & w & Hc & Hf). pose proof (srv_reconnect k (net s)) as Hs. rewrite Hc in Hs |- *.
    split_and!; simpl in *; [eapply srv_up_fresh, Hf|congruence|exact Hh]. }
  intros x. destruct (x =? REDIS_OK).
  - eapply h_bind; [apply partial_set; done|]. intros ?. eapply h_post; [apply partial_command, HE|].
    intros r' s (d' & HE' & Hs). exists d'. split; [right; eauto|exact Hs].
  - intros s Hs. exists d1. split; [right; eauto 10|exact Hs].
Qed.

Lemma partial_exec d p cmd E : effect cmd E → partial (base d) (exec_v_command p cmd)
  (fun r s => ∃ d', (once_or_twice E d r d' ∨ (r = None ∧ d' = d)) ∧ base d' s).
Proof.
  intros HE. unfold exec_v_command. eapply h_bind; [apply partial_this|]. intros c.
  eapply (h_bind _ _ _ (fun _ => base d)).
  { destruct (_ || _); [apply partial_try_connect|intros s Hs; exact Hs]. }
  intros []; [|intros s Hs; exists d; auto].
  eapply h_bind; [apply partial_retry, HE|]. intros r. apply h_exists. intros d'. apply h_pure. intros HE'.
  eapply h_bind; [apply partial_check|]. intros ok s Hs. exists d'. auto.
Qed.

End Effect.

(** ** The pool between commands *)

Section IdlePool.
Context {W : Type} {HR : Hiredis W} {HD : HiredisDoc W} {up : W → Prop} {fresh_on : positive → W → Prop}.
Context {HS : ServerUp up fresh_on} {SV : RedisServer W up fresh_on}.

(** No coroutine is in the pool, the server is up, and every connection has an address. *)
Definition pool_idle (T : nat) (s : pstate W) : Prop :=
  (∃ cs, pool_inv T cs s ∧ cs ≠ []) ∧ (∀ t, pc_of t s = Idle) ∧ up (net (ps_redis s)) ∧ hosts (ps_redis s).

Lemma get_idle T cs (s : pstate W) t : pool_inv T cs s → cs ≠ [] → (∀ t, pc_of t s = Idle) → (t < T)%nat →
  ∃ c s', get_connection t s = Ok (tt, s') ∧ pool_inv T cs s' ∧ ps_redis s' = ps_redis s ∧ c ∈ dom (objs (ps_redis s)) ∧
    ∀ x, pc_of x s' = if decide (x = t) then Using c else Idle.
Proof.
  intros Hs Hcs Hidle Ht. destruct (get_inv T cs s t Hs (Hidle t) Ht) as (s' & Hget & Hs').
  destruct Hs as (wb & rb & q & K & H & Hs). pose proof (pinv_waiters _ _ _ _ _ _ _ _ Hs) as Hw.
  destruct Hs as [Hch Hwq [Hmx Hmx'] Hq [Hrd Hrd'] Hwr Hwt [HQ HQ'] [HK HK'] [HH HH'] [Hd Hp] _ _ Hb [_ Hdom]].
  assert (K = []) as -> by (destruct K as [|k K]; [done|]; specialize (HK' k); rewrite Hidle in HK'; set_solver).
  assert (H = []) as -> by (destruct H as [|[x c] H]; [done|]; specialize (HH' x c); rewrite Hidle in HH'; set_solver).
  simpl in Hp. rewrite app_nil_r in Hp. simpl in Hrd.
  assert (q ≠ []) as Hne.
  { intros ->. symmetry in Hq. apply length_zero_iff_nil in Hq. rewrite Hq in Hp. by apply Permutation_nil in Hp. }
  assert (0 < wakeup_ rb) as Hr by (destruct q; [done|simpl in Hrd; lia]).
  set (s1 := set_pool (fun p => p <| ready_chan_ :=
               Some (MkChan (wb <| wakeup_ ::= Z.succ |>) (rb <| wakeup_ ::= Z.pred |>) q) |>) s).
  assert (get_connection t s = get_end t s1) as E.
  { unfold get_connection, chan, mbind at 1, M_bind at 1. unfold mbind at 1, M_bind at 1, get_s at 1. rewrite Hch. simpl.
    unfold read_begin, Wakeup, CoBlockWait. simpl. rewrite Hwq, Hmx.
    replace (2 ^ 64 - 1 <=? wakeup_ wb) with false by lia. replace (0 <? wakeup_ rb) with true by lia. done. }
  destruct (get_end_run (wb <| wakeup_ ::= Z.succ |>) (rb <| wakeup_ ::= Z.pred |>) q s1 t eq_refl Hq Hne)
    as (v & q' & c & st & _ & Est & Hend).
  rewrite E, Hend in Hget |- *. injection Hget as <-. exists c. eexists. split; [done|]. split; [done|].
  split; [done|]. split.
  - rewrite Hdom. apply elem_of_list_to_set. rewrite <-Hp. change (redis_conn_stack_ (ps_pool s) = c :: st) in Est.
    rewrite Est. apply elem_of_cons. auto.
  - intros x. rewrite pc_of_set, pc_of_pool. case_decide; [done|]. apply Hidle.
Qed.

Lemma exec_idle T cmd E (s : pstate W) t : effect cmd E → pool_idle T s → (t < T)%nat →
  ∃ r s', RedisPool.exec_command t cmd s = Ok (Some r, s') ∧ pool_idle T s' ∧
    once_or_twice E (sdb (net (ps_redis s))) (Some r) (sdb (net (ps_redis s'))).
Proof.
  intros HE ((cs & Hs & Hcs) & Hidle & Hup & Hh) Ht.
  destruct (get_idle T cs s t Hs Hcs Hidle Ht) as (c & s1 & Hget & Hs1 & Hre & Hc & Hpc).
  assert (pc_of t s1 = Using c) as Ht1 by (rewrite Hpc, decide_True; done).
  apply elem_of_dom in Hc as [rc Hrc].
  assert (rinv (ps_redis s)) as Hri by (destruct Hs as (? & ? & ? & ? & ? & Hs); apply Hs).
  destruct (exec_up (up := up) c rc cmd (ps_redis s) Hri Hrc (Hh c rc Hrc) Hup) as (r & r' & Hex & Hri').
  pose proof (partial_exec (sdb (net (ps_redis s))) c cmd E HE (ps_redis s) (conj Hup (conj eq_refl Hh))) as Hpart.
  rewrite Hex in Hpart. destruct Hpart as (d' & HE' & (Hu' & Hd' & Hh')).
  pose proof (safe_exec _ c cmd (ps_redis s) (rinv_pin c _ Hri ltac:(apply elem_of_dom; eauto))) as Hdom.
  rewrite Hex in Hdom. apply proj2, pin_rinv, proj2 in Hdom.
  assert (pool_inv T cs (set_redis r' s1)) as Hs2.
  { destruct Hs1 as (wb & rb & q & K & H & [Hch Hwq Hmx Hq Hrd0 Hwr Hwt HQ HK HH Hcs0 Hnw Htk Hb [_ Hd1]]).
    exists wb, rb, q, K, H. split; try done. simpl. rewrite Hdom, <-Hre. done. }
  assert (pc_of t (set_redis r' s1) = Using c) as Ht2 by exact Ht1.
  destruct (push_inv T cs _ t c Hs2 Ht2) as (s3 & Hpush & Hs3).
  exists r, s3. split; [|].
  { unfold RedisPool.exec_command, mbind, M_bind, get_s. rewrite Hget, Ht1. unfold on_redis. rewrite Hre, Hex, Hpush. done. }
  destruct Hs2 as (wb & rb & q & K & H & Hs2). pose proof (pi_Q _ _ _ _ _ _ _ _ Hs2) as [_ HQ].
  assert (wait_queue_ rb = []) as HQ0.
  { destruct (wait_queue_ rb) as [|x Q]; [done|]. assert (pc_of x (set_redis r' s1) = WaitRead) as Hx by (apply HQ, elem_of_cons; auto).
    change (pc_of x s1 = WaitRead) in Hx. rewrite Hpc in Hx. case_decide; done. }
  rewrite (push_run _ _ _ _ _ _ _ _ _ _ Hs2 Ht2), HQ0 in Hpush. injection Hpush as <-.
  split; [split_and!|].
  - eauto.
  - intros x. rewrite pc_of_set, !pc_of_pool. case_decide as Hx; [done|]. change (pc_of x s1 = Idle). rewrite Hpc, decide_False; done.
  - exact Hu'.
  - exact Hh'.
  - destruct HE' as [HE'|[? _]]; [|done]. simpl. rewrite Hd'. exact HE'.
Qed.


(** *** The interface of the handlers *)

Definition idle_pool : Type := { s : pstate W | pool_idle 1 s }.

Lemma exec_idle_keeps cmd (x : idle_pool) o s' : RedisPool.exec_command 0%nat cmd (proj1_sig x) = Ok (o, s') → pool_idle 1 s'.
Proof.
  intros He. destruct (exec_idle 1 cmd (fun _ _ _ => True) (proj1_sig x) 0 ltac:(done) (proj2_sig x) ltac:(lia))
    as (r & s1 & H1 & H2 & _). rewrite H1 in He. injection He as _ <-. done.
Qed.

Definition pool_exec (cmd : bytes) (x : idle_pool) : option Recorder.redisReply * idle_pool :=
  match RedisPool.exec_command 0%nat cmd (proj1_sig x) as res
    return RedisPool.exec_command 0%nat cmd (proj1_sig x) = res → option Recorder.redisReply * idle_pool with
  | Ok (o, s') => fun He => (flat <$> o, exist _ s' (exec_idle_keeps cmd x o s' He))
  | Bad _ => fun _ => (None, x)
  end eq_refl.

#[export] Instance pool_redis : Recorder.Redis idle_pool := {| Recorder.exec_command := pool_exec |}.

Definition pool_db (x : idle_pool) : gmap bytes bytes := sdb (net (ps_redis (proj1_sig x))).

Lemma pool_exec_effect cmd E (x : idle_pool) : effect cmd E →
  ∃ r, (pool_exec cmd x).1 = Some (flat r) ∧ once_or_twice E (pool_db x) (Some r) (pool_db (pool_exec cmd x).2).
Proof.
  intros HE. destruct (exec_idle 1 cmd E (proj1_sig x) 0 HE (proj2_sig x) ltac:(lia)) as (r & s' & He & _ & Heff).
  exists r. unfold pool_exec, pool_db.
  generalize (exec_idle_keeps cmd x). revert He.
  destruct (RedisPool.exec_command 0%nat cmd (proj1_sig x)) as [[o s1]|]; [|done].
  intros [= -> ->] Hk. simpl. done.
Qed.

(** Effects of the four commands of the handlers; a set that is repeated changes
    nothing more. *)
Definition get_effect (key : bytes) (d : gmap bytes bytes) (r : option reply) (d' : gmap bytes bytes) : Prop :=
  d' = d ∧ ∀ x, r = Some x → x = match d !! key with Some v => rstring v | None => rnil end.
Definition set_effect (key v : bytes) (d : gmap bytes bytes) (r : option reply) (d' : gmap bytes bytes) : Prop :=
  (r = Some (rstatus (bs "OK")) ∧ d' = <[key := v]> d) ∨ (r = None ∧ (d' = d ∨ d' = <[key := v]> d)).
Definition rpush_effect (key : bytes) (d : gmap bytes bytes) (r : option reply) (d' : gmap bytes bytes) : Prop :=
  d !! key = None → d' = d ∧ ∀ x, r = Some x → ∃ n, 1 ≤ n ∧ x = rinteger n.

#[export] Program Instance pool_redis_db : Recorder.RedisDb idle_pool := {| Recorder.db := pool_db |}.
Next Obligation.
  intros key x Hk. cbn [Recorder.exec_command pool_redis].
  destruct (pool_exec_effect (Recorder.cmd_get key) (get_effect key) x) as (r & -> & He).
  { intros k w r cx w' Hc. exact (srv_get k key w r cx w' Hk Hc). }
  destruct He as [[-> Hr]|(o & d1 & [-> _] & [[-> Hr]|[? _]])]; [| |done];
    rewrite (Hr r eq_refl); (split; [|done]); destruct (pool_db x !! key); done.
Qed.
Next Obligation.
  intros key v x Hk Hv. cbn [Recorder.exec_command pool_redis].
  destruct (pool_exec_effect (Recorder.cmd_set key v) (set_effect key v) x) as (r & -> & He).
  { intros k w r cx w' Hc. exact (srv_set k key v w r cx w' Hk Hv Hc). }
  assert (∀ d d' : gmap bytes bytes, set_effect key v d (Some r) d' → r = rstatus (bs "OK") ∧ d' = <[key := v]> d) as Hset
    by (intros d d' [[? ?]|[? _]]; [simplify_eq; done|done]).
  destruct He as [He|(o & d1 & H1 & [H2|[? _]])]; [|  |done].
  - destruct (Hset _ _ He) as [-> ->]. done.
  - destruct (Hset _ _ H2) as [-> ->]. split; [done|].
    destruct H1 as [[_ ->]|[_ [-> | ->]]]; rewrite ?insert_insert_eq; done.
Qed.
Next Obligation.
  intros key v x Hk Hv Hn. cbn [Recorder.exec_command pool_redis].
  destruct (pool_exec_effect (Recorder.cmd_rpush key v) (rpush_effect key) x) as (r & -> & He).
  { intros k w r cx w' Hc Hnone. exact (srv_rpush k key v w r cx w' Hk Hv Hnone Hc). }
  destruct He as [He|(o & d1 & H1 & [H2|[? _]])]; [|  |done].
  - destruct (He Hn) as [-> Hr]. destruct (Hr r eq_refl) as (n & ? & ->). split; [|done]. exists n. done.
  - destruct (H1 Hn) as [-> _]. destruct (H2 Hn) as [-> Hr]. destruct (Hr r eq_refl) as (n & ? & ->). split; [|done]. exists n. done.
Qed.
Next Obligation.
  intros key x Hk. cbn [Recorder.exec_command pool_redis].
  destruct (pool_exec_effect (Recorder.cmd_expire key) (fun d _ d' => d' = d) x) as (r & _ & He).
  { intros k w r cx w' Hc. pose proof (srv_expire k key w Hk) as He. rewrite Hc in He. exact He. }
  destruct He as [He|(o & d1 & H1 & [H2|[? _]])]; [done| |done]. congruence.
Qed.


End IdlePool.

(** ** A server with data *)

#[local] Existing Instances Recorder.store_redis Recorder.store_db.

(** The store of [Recorder] behind connections that the server may close. *)
Record dbserver := MkDb { ds_store : Recorder.store; ds_closed : gset positive }.

Definition unflat (r : Recorder.redisReply) : reply :=
  MkRep (Recorder.rp_type r) (Recorder.rp_integer r) (Recorder.rp_str r) [].

Definition db_command (k : positive) (cmd : bytes) (w : dbserver) : option reply * redisContext * dbserver :=
  if decide (k ∈ ds_closed w) then (None, (REDIS_ERR_EOF, bs "Server closed the connection"), w)
  else if bool_decide (take 5 cmd = bs "AUTH ") then (Some (rstatus (bs "OK")), (0, []), w)
  else
    let '(o, st) := Recorder.store_exec cmd (ds_store w) in
    (Some (from_option unflat (rerror []) o), (0, []), MkDb st (ds_closed w)).

Definition db_accept (k : positive) (w : dbserver) : dbserver := MkDb (ds_store w) (ds_closed w ∖ {[k]}).

#[export] Instance db_hiredis : Hiredis dbserver := {
  redisConnect k _ _ w := (Some (0, []), db_accept k w);
  redisConnectWithTimeout k _ _ _ w := (Some (0, []), db_accept k w);
  redisSetTimeout _ _ w := w;
  redisvCommand := db_command;
  redisReconnect k w := (REDIS_OK, (0, []), db_accept k w);
  redisAppendCommand _ _ w := w;
  redisGetReply k w := (None, (0, []), w);
  redisClose _ w := w
}.

Lemma store_exec_reply cmd st : ∃ r st', Recorder.store_exec cmd st = (Some r, st') ∧ reply_ok (unflat r) = true.
Proof. unfold Recorder.store_exec. repeat case_match; eexists _, _; (split; [done|]); reflexivity. Qed.

Lemma db_command_auth k pw w : k ∉ ds_closed w →
  db_command k (bs "AUTH " ++ pw) w = (Some (rstatus (bs "OK")), (0, []), w).
Proof. intros Hk. unfold db_command. rewrite decide_False, bool_decide_true by (try done; by vm_compute). done. Qed.

#[export] Instance db_doc : HiredisDoc dbserver.
Proof.
  split; intros k cmd w r cx w'; cbn [redisvCommand db_hiredis]; [unfold db_command|].
  - case_decide; [done|]. case_bool_decide; [intros [= <- <- <-]; done|].
    destruct (store_exec_reply cmd (ds_store w)) as (x & st & -> & Hx). intros [= <- <- <-]. exact Hx.
  - destruct (decide (k ∈ ds_closed w)) as [Hk|Hk].
    + unfold db_command. rewrite decide_True by done. done.
    + rewrite db_command_auth by done. intros [= <- <- <-]. left. done.
Qed.

#[export] Instance db_up : ServerUp (fun _ : dbserver => True) (fun k w => k ∉ ds_closed w).
Proof.
  split; intros *; cbn [redisvCommand db_hiredis redisConnect redisConnectWithTimeout redisReconnect redisSetTimeout]; [|done| | | |done|].
  - intros Hk. unfold db_command. rewrite decide_False by done. case_bool_decide; [eexists _, _, _; done|].
    destruct (store_exec_reply cmd (ds_store w)) as (x & st & -> & _). eexists _, _, _. done.
  - intros Hk. rewrite db_command_auth by done. eexists _, _, _. done.
  - intros _. eexists _, _. split; [done|]. set_solver.
  - intros _. eexists _, _. split; [done|]. set_solver.
  - intros _. eexists _, _. split; [done|]. set_solver.
Qed.

(** A command of the handlers is executed by the store when the connection is open. *)
Lemma db_command_store k cmd w r cx w' : take 1 cmd ≠ bs "A" → db_command k cmd w = (r, cx, w') →
  (r = None ∧ w' = w) ∨
  (∃ x, r = Some (unflat x) ∧ (Recorder.store_exec cmd (ds_store w)).1 = Some x ∧
        ds_store w' = (Recorder.store_exec cmd (ds_store w)).2).
Proof.
  intros Ha. unfold db_command. case_decide; [intros [= <- <- <-]; auto|].
  rewrite bool_decide_false by (intros Hc; apply Ha; destruct cmd; [done|]; simpl in Hc; injection Hc as -> _; done).
  destruct (store_exec_reply cmd (ds_store w)) as (x & st & -> & _). intros [= <- <- <-]. right. exists x. done.
Qed.

#[export] Program Instance db_server : RedisServer dbserver (fun _ => True) (fun k w => k ∉ ds_closed w) :=
  {| sdb w := Recorder.st_strings (ds_store w) |}.
Solve Obligations with (simpl; intros; done).
Next Obligation.
  intros k pw w. cbn [redisvCommand db_hiredis]. destruct (decide (k ∈ ds_closed w)) as [Hk|Hk].
  - unfold db_command. rewrite decide_True by done. done.
  - rewrite db_command_auth by done. done.
Qed.
Next Obligation.
  intros k key w r cx w' Hk Hc. destruct (Recorder.get_law key (ds_store w) Hk) as [H1 H2].
  apply db_command_store in Hc as [[-> ->]|(x & -> & Hx & Hst)]; [done| |by vm_compute].
  cbn in H1, H2. rewrite Hst, H2. split; [done|]. intros y [= <-].
  rewrite H1 in Hx. injection Hx as <-. destruct (Recorder.st_strings (ds_store w) !! key); done.
Qed.
Next Obligation.
  intros k key v w r cx w' Hk Hv Hc. destruct (Recorder.set_law key v (ds_store w) Hk Hv) as [H1 H2].
  apply db_command_store in Hc as [[-> ->]|(x & -> & Hx & Hst)]; [auto| |by vm_compute].
  cbn in H1, H2. left. rewrite Hst, H2. split; [|done]. rewrite H1 in Hx. injection Hx as <-. done.
Qed.
Next Obligation.
  intros k key v w r cx w' Hk Hv Hn Hc.
  assert (Recorder.db (ds_store w) !! key = None) as Hn' by exact Hn.
  destruct (Recorder.rpush_law key v (ds_store w) Hk Hv Hn') as [(n & Hn1 & H1) H2].
  apply db_command_store in Hc as [[-> ->]|(x & -> & Hx & Hst)]; [done| |by vm_compute].
  cbn in H1, H2. rewrite Hst, H2. split; [done|]. intros y [= <-]. rewrite H1 in Hx. injection Hx as <-. eauto.
Qed.
Next Obligation.
  intros k key w Hk. cbn [redisvCommand db_hiredis]. pose proof (Recorder.expire_law key (ds_store w) Hk) as H1.
  destruct (db_command k (Recorder.cmd_expire key) w) as [[r cx] w'] eqn:Hc.
  apply db_command_store in Hc as [[-> ->]|(x & -> & Hx & Hst)]; [done| |by vm_compute].
  simpl. rewrite Hst. exact H1.
Qed.

(** ** A run of the whole stack *)

Definition stack_pool : pstate dbserver :=
  match init 0%nat (bs "127.0.0.1") 6379 [] 1 2 (ps0 (MkDb Recorder.store0 ∅)) with Ok (_, s) => s | Bad _ => ps0 (MkDb Recorder.store0 ∅) end.

Lemma stack_idle : pool_idle (up := fun _ : dbserver => True) 1 stack_pool.
Proof.
  destruct (init_run 1 0%nat (MkDb Recorder.store0 ∅) (bs "127.0.0.1") 6379 [] 1 2) as (s & Hs & Hlen & Hinv);
    [discriminate|lia|lia|].
  assert (stack_pool = s) as -> by (unfold stack_pool; rewrite Hs; done).
  assert (ps_tasks s = ∅ ∧ Forall (fun c => host_ip_ c ≠ []) (map_to_list (objs (ps_redis s))).*2) as [Ht Hh].
  { revert Hs. vm_compute. intros [= <-]. split; [done|]. repeat constructor; discriminate. }
  split_and!.
  - exists (redis_conn_stack_ (ps_pool s)). split; [done|]. intros Hn. rewrite Hn in Hlen. done.
  - intros t. unfold pc_of. rewrite Ht, lookup_empty. done.
  - exact I.
  - intros p c Hc. rewrite Forall_forall in Hh. apply Hh. apply list_elem_of_fmap. exists (p, c).
    split; [done|]. apply elem_of_map_to_list. done.
Qed.



End RecorderPool.
