(* ===== verification/TsQueue.v ===== *)
(** * Task queues of libgo

    TSQueue and SList of src/trafficRecorder/libgo/ts_queue.h: intrusive doubly
    linked lists behind a sentinel, with the reference counts of util.h.  Run queues,
    wait queues and sleep lists of the coroutines are such queues.  A hook is a cell
    of a heap; the operations follow the pointers, so a missing or a freed hook is a
    fault.  Each operation runs under the lock of its queue.

    The queue is shown to be the list of its elements, and StealHalf of processer.cpp
    to move half of one queue to another. *)

From S2P Require Import Prelude.
From stdpp Require Import base gmap list strings.
From Stdlib Require Import ZArith Lia.

Open Scope Z_scope.

Module TsQueue.

Abbreviation ptr := Z.

(** ** Data *)

(** [TSQueueHook] and the count of [RefObject] *)
Record hook := MkHook {
  h_prev : ptr;
  h_next : ptr;
  h_check : ptr;
  reference_ : Z;
}.

#[export] Instance eta_hook : Eta hook := fun x => MkHook (h_prev x) (h_next x) (h_check x) (reference_ x).

(** [TSQueue] *)
Record queue := MkQueue {
  head_ : ptr;
  tail_ : ptr;
  count_ : Z;         (* size_t *)
  check_ : ptr;
}.

#[export] Instance eta_queue : Eta queue := fun x => MkQueue (head_ x) (tail_ x) (count_ x) (check_ x).

(** [SList], a list that was taken out of a queue *)
Record slist := MkSList {
  sl_head : ptr;
  sl_tail : ptr;
  sl_check : ptr;
  sl_count : Z;
}.

Definition SList_new : slist := MkSList 0 0 0 0.

Record qst := MkQst {
  hooks : gmap ptr hook;
  queues : gmap Z queue;
}.

#[export] Instance eta_qst : Eta qst := fun x => MkQst (hooks x) (queues x).

Definition hook_at (p : ptr) : M qst hook := fun s =>
  if p =? 0 then Bad NullDeref else
  match hooks s !! p with
  | Some x => Ok (x, s)
  | None => Bad UseAfterFree
  end.

Definition set_hook (p : ptr) (f : hook → hook) : M qst unit :=
  _ ← hook_at p;
  modify (fun s => s <| hooks ::= alter f p |>).

Definition queue_at (q : Z) : M qst queue := fun s =>
  match queues s !! q with
  | Some t => Ok (t, s)
  | None => Bad UseAfterFree
  end.

Definition set_queue (q : Z) (f : queue → queue) : M qst unit :=
  modify (fun s => s <| queues ::= alter f q |>).

(** ** Reference counts *)

Definition IncrementRef (p : ptr) : M qst unit := set_hook p (fun x => x <| reference_ ::= Z.succ |>).

Definition DecrementRef (p : ptr) : M qst unit :=
  _ ← set_hook p (fun x => x <| reference_ ::= Z.pred |>);
  x ← hook_at p;
  if reference_ x =? 0 then modify (fun s => s <| hooks ::= delete p |>) else mret tt.

(** ** TSQueue *)

(** [TSQueue::TSQueue]: [h] is the address of the new sentinel. *)
Definition TSQueue_new (q : Z) (h : ptr) (check : ptr) : M qst unit :=
  modify (fun s => s <| hooks ::= <[h := MkHook 0 0 0 0]> |> <| queues ::= <[q := MkQueue h h 0 check]> |>).

Definition empty (q : Z) : M qst bool := t ← queue_at q; mret (head_ t =? tail_ t).
Definition size_ (q : Z) : M qst Z := t ← queue_at q; mret (count_ t).

Definition push (q : Z) (element : ptr) : M qst unit :=
  t ← queue_at q;
  _ ← set_hook (tail_ t) (fun x => x <| h_next := element |>);
  _ ← set_hook element (fun x => x <| h_prev := tail_ t |>);
  _ ← set_hook element (fun x => x <| h_next := 0 |>);
  _ ← set_hook element (fun x => x <| h_check := check_ t |>);
  _ ← set_queue q (fun t => t <| tail_ := element |>);
  _ ← set_queue q (fun t => t <| count_ := u64 (count_ t + 1) |>);
  IncrementRef element.

Definition pop (q : Z) : M qst ptr :=
  t ← queue_at q;
  if head_ t =? tail_ t then mret 0 else
  h ← hook_at (head_ t);
  let p := h_next h in
  _ ← (if p =? tail_ t then set_queue q (fun t => t <| tail_ := head_ t |>) else mret tt);
  x ← hook_at p;
  _ ← set_hook (head_ t) (fun y => y <| h_next := h_next x |>);
  _ ← (if h_next x =? 0 then mret tt else set_hook (h_next x) (fun y => y <| h_prev := head_ t |>));
  _ ← set_hook p (fun x => x <| h_prev := 0 |> <| h_next := 0 |>);
  _ ← set_hook p (fun x => x <| h_check := 0 |>);
  _ ← set_queue q (fun t => t <| count_ := u64 (count_ t - 1) |>);
  _ ← DecrementRef p;
  mret p.

(** [push(SList&&)]: the list is given up. *)
Definition push_list (q : Z) (l : slist) : M qst unit :=
  if sl_head l =? 0 then mret tt else
  t ← queue_at q;
  _ ← (if sl_check l =? check_ t then mret tt else fail_with Aborted);
  _ ← set_queue q (fun t => t <| count_ := u64 (count_ t + sl_count l) |>);
  _ ← set_hook (tail_ t) (fun x => x <| h_next := sl_head l |>);
  _ ← set_hook (sl_head l) (fun x => x <| h_prev := tail_ t |>);
  _ ← set_hook (sl_tail l) (fun x => x <| h_next := 0 |>);
  set_queue q (fun t => t <| tail_ := sl_tail l |>).

(** [for (; c < n && last->next; ++c) last = last->next;] with [k = n - c] turns left *)
Fixpoint front_loop (k : nat) (last : ptr) (c : Z) : M qst (ptr * Z) :=
  match k with
  | O => mret (last, c)
  | S k' =>
    x ← hook_at last;
    if h_next x =? 0 then mret (last, c) else front_loop k' (h_next x) (c + 1)
  end.

Definition pop_front (q : Z) (n : nat) : M qst slist :=
  t ← queue_at q;
  if head_ t =? tail_ t then mret SList_new else
  h ← hook_at (head_ t);
  let first := h_next h in
  '(last, c) ← front_loop (n - 1) first 1;
  _ ← (if last =? tail_ t then set_queue q (fun t => t <| tail_ := head_ t |>) else mret tt);
  x ← hook_at last;
  _ ← set_hook (head_ t) (fun y => y <| h_next := h_next x |>);
  _ ← (if h_next x =? 0 then mret tt else set_hook (h_next x) (fun y => y <| h_prev := head_ t |>));
  _ ← set_hook last (fun y => y <| h_next := 0 |>);
  _ ← set_hook first (fun y => y <| h_prev := 0 |>);
  _ ← set_queue q (fun t => t <| count_ := u64 (count_ t - c) |>);
  mret (MkSList first last (check_ t) c).

(** [for (; c < n && first->prev && first->prev != head_; ++c) first = first->prev;] *)
Fixpoint back_loop (k : nat) (head first : ptr) (c : Z) : M qst (ptr * Z) :=
  match k with
  | O => mret (first, c)
  | S k' =>
    x ← hook_at first;
    if (h_prev x =? 0) || (h_prev x =? head) then mret (first, c) else back_loop k' head (h_prev x) (c + 1)
  end.

Definition pop_back (q : Z) (n : nat) : M qst slist :=
  t ← queue_at q;
  if head_ t =? tail_ t then mret SList_new else
  let last := tail_ t in
  '(first, c) ← back_loop (n - 1) (head_ t) last 1;
  x ← hook_at first;
  _ ← set_queue q (fun t => t <| tail_ := h_prev x |>);
  _ ← set_hook (h_prev x) (fun y => y <| h_next := 0 |>);
  _ ← set_hook first (fun y => y <| h_prev := 0 |>);
  _ ← set_queue q (fun t => t <| count_ := u64 (count_ t - c) |>);
  mret (MkSList first last (check_ t) c).

Definition pop_all (q : Z) : M qst slist :=
  t ← queue_at q;
  if head_ t =? tail_ t then mret SList_new else
  h ← hook_at (head_ t);
  let first := h_next h in
  let last := tail_ t in
  _ ← set_queue q (fun t => t <| tail_ := head_ t |>);
  _ ← set_hook (head_ t) (fun y => y <| h_next := 0 |>);
  _ ← set_hook last (fun y => y <| h_next := 0 |>);
  _ ← set_hook first (fun y => y <| h_prev := 0 |>);
  _ ← set_queue q (fun t => t <| count_ := 0 |>);
  mret (MkSList first last (check_ t) (count_ t)).

Definition erase (q : Z) (p : ptr) : M qst bool :=
  t ← queue_at q;
  x ← hook_at p;
  if negb (h_check x =? check_ t) then mret false else
  _ ← (if h_prev x =? 0 then mret tt else set_hook (h_prev x) (fun y => y <| h_next := h_next x |>));
  _ ← (if negb (h_next x =? 0) then set_hook (h_next x) (fun y => y <| h_prev := h_prev x |>)
       else if p =? tail_ t then
         y ← hook_at (tail_ t);
         set_queue q (fun t => t <| tail_ := h_prev y |>)
       else mret tt);
  _ ← set_hook p (fun x => x <| h_prev := 0 |> <| h_next := 0 |>);
  _ ← set_hook p (fun x => x <| h_check := 0 |>);
  _ ← set_queue q (fun t => t <| count_ := u64 (count_ t - 1) |>);
  _ ← DecrementRef p;
  mret true.

(** [~TSQueue] *)
Fixpoint destroy_loop (fuel : nat) (q : Z) : M qst unit :=
  match fuel with
  | O => fail_with OutOfFuel
  | S fuel' =>
    t ← queue_at q;
    if head_ t =? tail_ t then mret tt else
    x ← hook_at (tail_ t);
    _ ← DecrementRef (tail_ t);
    _ ← set_queue q (fun t => t <| tail_ := h_prev x |>);
    destroy_loop fuel' q
  end.

Definition TSQueue_delete (q : Z) : M qst unit :=
  fuel ← gets (fun s => S (size (hooks s)));
  _ ← destroy_loop fuel q;
  t ← queue_at q;
  _ ← hook_at (head_ t);
  modify (fun s => s <| hooks ::= delete (head_ t) |> <| queues ::= delete q |>).

(** ** SList *)

(** [SList::erase]: the element after, and the list. *)
Definition SList_erase (l : slist) (p : ptr) : M qst (ptr * slist) :=
  x ← hook_at p;
  l ← (if negb (h_prev x =? 0) then
         _ ← set_hook (h_prev x) (fun y => y <| h_next := h_next x |>); mret l
       else y ← hook_at (sl_head l); mret (MkSList (h_next y) (sl_tail l) (sl_check l) (sl_count l)));
  l ← (if negb (h_next x =? 0) then
         _ ← set_hook (h_next x) (fun y => y <| h_prev := h_prev x |>); mret l
       else y ← hook_at (sl_tail l); mret (MkSList (sl_head l) (h_prev y) (sl_check l) (sl_count l)));
  _ ← set_hook p (fun x => x <| h_prev := 0 |> <| h_next := 0 |>);
  _ ← set_hook p (fun x => x <| h_check := 0 |>);
  _ ← DecrementRef p;
  mret (h_next x, MkSList (sl_head l) (sl_tail l) (sl_check l) (u64 (sl_count l - 1))).

(** [SList::clear] *)
Fixpoint clear_loop (fuel : nat) (it : ptr) (l : slist) : M qst slist :=
  match fuel with
  | O => fail_with OutOfFuel
  | S fuel' =>
    if it =? 0 then mret SList_new else
    '(it, l) ← SList_erase l it;
    clear_loop fuel' it l
  end.

Definition SList_clear (l : slist) : M qst slist :=
  fuel ← gets (fun s => S (size (hooks s)));
  clear_loop fuel (sl_head l) l.

(** [Processer::StealHalf]: [q] is the run queue of this processer, [other] that of the
    one that steals. *)
Definition StealHalf (q other : Z) : M qst Z :=
  runnable_task_count ← size_ q;
  tasks ← pop_back q (Z.to_nat (u32 (u64 (runnable_task_count + 1) / 2)));
  let c := sl_count tasks in
  if c =? 0 then mret 0 else
  _ ← push_list other tasks;
  mret c.

(** *** Examples *)

Definition qst0 : qst := MkQst (list_to_map [(101, MkHook 0 0 0 1); (102, MkHook 0 0 0 1); (103, MkHook 0 0 0 1)]) ∅.

Example queue_session :
  match (_ ← TSQueue_new 1 11 9; _ ← TSQueue_new 2 12 9; _ ← push 1 101; _ ← push 1 102; _ ← push 1 103;
   n ← StealHalf 1 2; a ← pop 1; b ← pop 1; c ← pop 2; _ ← push 2 a; e ← erase 2 103; d ← pop 2; f ← pop 2;
   mret (n, a, b, c, e, d, f)) qst0 with Ok (r, _) => Some r | Bad _ => None end = Some (2, 101, 0, 102, true, 101, 0).
Proof. vm_compute. reflexivity. Qed.

(** ** Linked segments *)

Definition hd_or (d : ptr) (l : list ptr) : ptr := default d (head l).
Definition last_or (d : ptr) (l : list ptr) : ptr := default d (last l).

(** [l] is linked both ways, with [pv] before it and [nx] after it. *)
Fixpoint dseg (c : gmap ptr hook) (pv : ptr) (l : list ptr) (nx : ptr) : Prop :=
  match l with
  | [] => True
  | p :: l' => (∃ x, c !! p = Some x ∧ h_prev x = pv ∧ h_next x = hd_or nx l') ∧ dseg c p l' nx
  end.

Lemma last_or_snoc d l p : last_or d (l ++ [p]) = p.
Proof. unfold last_or. by rewrite last_snoc. Qed.

Lemma last_or_cons d p l : last_or d (p :: l) = last_or p l.
Proof. unfold last_or. destruct l as [|q l]; [done|]. rewrite last_cons_cons. destruct (last (q :: l)) eqn:E; [done|]. by apply last_None in E. Qed.

Lemma hd_or_app d l1 l2 : hd_or d (l1 ++ l2) = hd_or (hd_or d l2) l1.
Proof. by destruct l1. Qed.

Lemma dseg_app c pv l1 l2 nx : dseg c pv (l1 ++ l2) nx ↔ dseg c pv l1 (hd_or nx l2) ∧ dseg c (last_or pv l1) l2 nx.
Proof.
  revert pv. induction l1 as [|p l1 IH]; intros pv; [cbn; tauto|]. cbn [app dseg]. rewrite IH, hd_or_app, last_or_cons. tauto.
Qed.

Lemma dseg_ext c c' pv l nx : (∀ p, p ∈ l → c' !! p = c !! p) → dseg c pv l nx → dseg c' pv l nx.
Proof.
  revert pv. induction l as [|p l IH]; intros pv Hc; [done|]. intros [(x & Hx & H1) H2]. split; [|apply IH; [set_solver|done]].
  exists x. rewrite Hc by left. done.
Qed.

Lemma dseg_out c f p pv l nx : p ∉ l → dseg c pv l nx → dseg (alter f p c) pv l nx.
Proof. intros Hp. apply dseg_ext. intros q Hq. rewrite lookup_alter_ne; [done|]. by intros ->. Qed.

(** A change of other fields. *)
Lemma dseg_field c f p pv l nx : (∀ x, h_prev (f x) = h_prev x ∧ h_next (f x) = h_next x) → dseg c pv l nx → dseg (alter f p c) pv l nx.
Proof.
  intros Hf. revert pv. induction l as [|q l IH]; intros pv; [done|]. intros [(x & Hx & H1 & H2) H3]. split; [|by apply IH].
  destruct (decide (p = q)) as [<-|Hpq]; [exists (f x); rewrite lookup_alter_eq, Hx; destruct (Hf x) as [-> ->]; done|].
  exists x. rewrite lookup_alter_ne; done.
Qed.

(** The link out of the last element, and the one out of the first. *)
Lemma dseg_next c pv l p nx n : NoDup (l ++ [p]) → dseg c pv (l ++ [p]) nx → dseg (alter (fun x => x <| h_next := n |>) p c) pv (l ++ [p]) n.
Proof.
  intros Hn. rewrite !dseg_app. apply NoDup_app in Hn as (_ & Hn & _). intros [H1 [(x & Hx & H2 & H3) _]]. split.
  - apply dseg_out; [|done]. intros Hp. apply (Hn p Hp). left.
  - cbn. split; [|done]. exists (x <| h_next := n |>). rewrite lookup_alter_eq, Hx. done.
Qed.

Lemma dseg_prev c pv l p nx n : p ∉ l → dseg c pv (p :: l) nx → dseg (alter (fun x => x <| h_prev := n |>) p c) n (p :: l) nx.
Proof.
  intros Hn [(x & Hx & H1 & H2) H3]. split; [|by apply dseg_out]. exists (x <| h_prev := n |>). rewrite lookup_alter_eq, Hx. done.
Qed.

Lemma dseg_live c pv l nx p : dseg c pv l nx → p ∈ l → is_Some (c !! p).
Proof. revert pv. induction l as [|q l IH]; intros pv; [by intros _ ?%not_elem_of_nil|]. intros [(x & Hx & _) H] [->|Hp]%elem_of_cons; [eauto|by eapply IH]. Qed.

(** ** Queues *)

Section counts.

(** The references to each element that are held outside of queues and lists *)
Context (R : ptr → Z).

(** An element of a queue or list with the mark [chk], which counts one reference for
    it *)
Definition elem_ok (c : gmap ptr hook) (chk p : ptr) : Prop :=
  ∃ x, c !! p = Some x ∧ h_check x = chk ∧ 1 ≤ R p ∧ reference_ x = R p + 1.

(** The queue [q] holds the elements [l]. *)
Record qrep (s : qst) (q : Z) (t : queue) (l : list ptr) : Prop := {
  qr_queue : queues s !! q = Some t;
  qr_nodup : NoDup (head_ t :: l);
  qr_null : 0 ∉ head_ t :: l;
  qr_links : dseg (hooks s) 0 (head_ t :: l) 0;
  qr_tail : tail_ t = last_or (head_ t) l;
  qr_count : count_ t = Z.of_nat (length l);
  qr_small : Z.of_nat (length l) < 2 ^ 31;
  qr_elem p : p ∈ l → elem_ok (hooks s) (check_ t) p;
}.

(** The list [l] was taken out of a queue with the mark [chk]. *)
Record srep (c : gmap ptr hook) (chk : ptr) (l : list ptr) (sl : slist) : Prop := {
  sr_head : sl_head sl = hd_or 0 l;
  sr_tail : sl_tail sl = last_or 0 l;
  sr_count : sl_count sl = Z.of_nat (length l);
  sr_check : l ≠ [] → sl_check sl = chk;
  sr_nodup : NoDup l;
  sr_null : 0 ∉ l;
  sr_links : dseg c 0 l 0;
  sr_elem p : p ∈ l → elem_ok c chk p;
}.

Lemma hook_run p s x : p ≠ 0 → hooks s !! p = Some x → hook_at p s = Ok (x, s).
Proof. intros Hp Hx. unfold hook_at. by rewrite (proj2 (Z.eqb_neq _ _) Hp), Hx. Qed.

Lemma set_hook_run p f s : p ≠ 0 → is_Some (hooks s !! p) → set_hook p f s = Ok (tt, s <| hooks := alter f p (hooks s) |>).
Proof. intros Hp [x Hx]. unfold set_hook. eapply bind_run; [by eapply hook_run|]. done. Qed.

Lemma queue_run q s t : queues s !! q = Some t → queue_at q s = Ok (t, s).
Proof. intros Hq. unfold queue_at. by rewrite Hq. Qed.
Lemma set_queue_run q f s t : queues s !! q = Some t → set_queue q f s = Ok (tt, s <| queues := <[q := f t]> (queues s) |>).
Proof.
  intros Hq. unfold set_queue, modify. do 2 f_equal. unfold set. cbn. f_equal. apply map_eq. intros q'.
  destruct (decide (q = q')) as [<-|]; [by rewrite lookup_alter_eq, lookup_insert_eq, Hq|by rewrite lookup_alter_ne, lookup_insert_ne].
Qed.

Lemma alter_live {f} {p} {c : gmap ptr hook} q : is_Some (c !! q) → is_Some (alter f p c !! q).
Proof. intros [x Hx]. destruct (decide (p = q)) as [<-|]; [rewrite lookup_alter_eq, Hx|rewrite lookup_alter_ne by done; rewrite Hx]; eauto. Qed.

#[local] Hint Resolve alter_live : tunnel_queue.

(** One statement of the code on a known state. *)
Ltac qstep :=
  first
    [ eapply bind_run; [apply queue_run; first [eassumption | rsimpl; apply lookup_insert_eq]|]
    | eapply bind_run; [apply set_hook_run; [solve [auto]|rsimpl; solve [eauto with tunnel_queue]]|]
    | eapply bind_run; [eapply set_queue_run; rsimpl; first [eassumption | apply lookup_insert_eq]|] ].

(** A change of the links keeps the mark and the count. *)
Definition links_only (f : hook → hook) : Prop := ∀ x, h_check (f x) = h_check x ∧ reference_ (f x) = reference_ x.

Lemma elem_links c chk f p e : links_only f → elem_ok c chk e → elem_ok (alter f p c) chk e.
Proof.
  intros Hf (x & Hx & Hc & Hr). destruct (decide (p = e)) as [<-|]; [|exists x; by rewrite lookup_alter_ne].
  exists (f x). rewrite lookup_alter_eq, Hx. destruct (Hf x) as [-> ->]. done.
Qed.

Lemma elem_out c chk f p e : p ≠ e → elem_ok c chk e → elem_ok (alter f p c) chk e.
Proof. intros Hp (x & Hx & H). exists x. by rewrite lookup_alter_ne. Qed.

Lemma links_next n : links_only (fun x => x <| h_next := n |>).
Proof. done. Qed.

Lemma links_prev n : links_only (fun x => x <| h_prev := n |>).
Proof. done. Qed.

#[local] Hint Resolve elem_links links_next links_prev : tunnel_queue.

(** The sentinel or the last element *)
Lemma qr_split s q t l : qrep s q t l → ∃ k, head_ t :: l = k ++ [tail_ t] ∧ tail_ t ≠ 0 ∧ is_Some (hooks s !! tail_ t).
Proof.
  intros [Hq Hn H0 Hd Ht _ _ _]. destruct (exists_last (l := head_ t :: l)) as (k & z & E); [done|].
  assert (z = tail_ t) as ->.
  { rewrite Ht. destruct l as [|p l' _] using rev_ind; [by destruct k as [|? [|]]; simplify_eq/=|].
    rewrite last_or_snoc. rewrite app_comm_cons in E. by apply app_inj_tail in E as [_ <-]. }
  exists k. split; [done|]. assert (tail_ t ∈ head_ t :: l) as Hin by (rewrite E; set_solver).
  split; [intros Hz; rewrite Hz in Hin; done|]. by eapply dseg_live.
Qed.

(** A queue depends on its own cells only. *)
Lemma qrep_frame s s' q t l : qrep s q t l → queues s' !! q = Some t → (∀ p, p ∈ head_ t :: l → hooks s' !! p = hooks s !! p) → qrep s' q t l.
Proof.
  intros [Hq Hn H0 Hd Ht Hc Hs Hel] Hq' Hf. split; try done; [by eapply dseg_ext|].
  intros p Hp. unfold elem_ok. rewrite Hf by set_solver. by apply Hel.
Qed.

Lemma srep_frame c c' chk l sl : srep c chk l sl → (∀ p, p ∈ l → c' !! p = c !! p) → srep c' chk l sl.
Proof.
  intros [H1 H2 H3 H4 H5 H6 H7 H8] Hf. split; try done; [by eapply dseg_ext|]. intros p Hp. unfold elem_ok. rewrite Hf by done. by apply H8.
Qed.

Definition with_tail (p : ptr) (n : Z) (t : queue) : queue := t <| tail_ := p |> <| count_ := n |>.

(** A step from [s] to [s'] that changes the queue [q] to hold [l'], and no cell but
    those of [D] *)
Record qmove (D : list ptr) (s : qst) (q : Z) (t : queue) (s' : qst) (t' : queue) (l' : list ptr) : Prop := {
  qm_rep : qrep s' q t' l';
  qm_head : head_ t' = head_ t;
  qm_check : check_ t' = check_ t;
  qm_queues : queues s' = <[q := t']> (queues s);
  qm_frame p : p ∉ D → hooks s' !! p = hooks s !! p;
}.

(** *** Appending a segment *)

(** [tail_->next = hd; hd->prev = tail_] on the list [l] and the segment [m] *)
Definition attach (z e : ptr) (c : gmap ptr hook) : gmap ptr hook :=
  alter (fun x => x <| h_prev := z |>) e (alter (fun x => x <| h_next := e |>) z c).

Lemma attach_dseg c k z e m : NoDup ((k ++ [z]) ++ e :: m) → dseg c 0 (k ++ [z]) 0 → dseg c 0 (e :: m) 0 →
  dseg (attach z e c) 0 ((k ++ [z]) ++ e :: m) 0.
Proof.
  intros (Hn1 & Hn2 & Hn3)%NoDup_app H1 H2. apply NoDup_cons in Hn3 as [Hem _]. rewrite dseg_app. unfold attach. split.
  - apply dseg_out; [intros He; apply (Hn2 _ He); left|]. by eapply dseg_next.
  - rewrite last_or_snoc. eapply dseg_prev; [done|]. apply dseg_out; [apply Hn2; set_solver|done].
Qed.

Lemma last_or_app d l1 l2 : last_or d (l1 ++ l2) = last_or (last_or d l1) l2.
Proof. unfold last_or. rewrite last_app. by destruct (last l2). Qed.

Lemma dseg_same c c' pv l nx : (∀ p x, p ∈ l → c !! p = Some x → ∃ y, c' !! p = Some y ∧ h_prev y = h_prev x ∧ h_next y = h_next x) →
  dseg c pv l nx → dseg c' pv l nx.
Proof.
  intros Hc. revert pv. induction l as [|p l IH]; intros pv; [done|]. intros [(x & Hx & <- & Hnx) H]. split; [|apply IH; [|done]; intros q y Hq; apply Hc; by right].
  destruct (Hc p x) as (y & Hy & E1 & E2); [left|done|]. exists y. by rewrite Hy, E1, E2.
Qed.

(** [c0] is the heap with the segment in it, [c'] the heap after the operation. *)
Lemma qrep_append s q t l e m c0 c' t' : qrep s q t l → NoDup (head_ t :: l ++ e :: m) → 0 ∉ e :: m → dseg c0 0 (e :: m) 0 →
  (∀ p, p ∈ head_ t :: l → c0 !! p = hooks s !! p) →
  Z.of_nat (length (l ++ e :: m)) < 2 ^ 31 → (∀ p, p ∈ e :: m → elem_ok c' (check_ t) p) →
  (∀ p x, p ∈ head_ t :: l ++ e :: m → attach (tail_ t) e c0 !! p = Some x → ∃ y, c' !! p = Some y ∧ h_prev y = h_prev x ∧ h_next y = h_next x ∧ (p ≠ e → y = x)) →
  t' = with_tail (last_or e m) (Z.of_nat (length (l ++ e :: m))) t →
  qrep (MkQst c' (<[q := t']> (queues s))) q t' (l ++ e :: m).
Proof.
  intros Hq Hnd H0' Hm H0s Hsz Hme Hc' ->. pose proof Hq as [Hqt Hn H0 Hd Ht Hc Hs Hel]. destruct (qr_split _ _ _ _ Hq) as (k & Ek & Hz & Hlz).
  rewrite app_comm_cons in Hnd, Hc'. apply (dseg_ext _ c0) in Hd; [|done]. split; unfold with_tail; rsimpl; cbn [hooks queues]; try done.
  - apply lookup_insert_eq.
  - set_solver.
  - rewrite app_comm_cons. assert (dseg (attach (tail_ t) e c0) 0 ((head_ t :: l) ++ e :: m) 0) as Ha by (rewrite Ek in *; by apply attach_dseg).
    eapply dseg_same; [|exact Ha]. intros p x Hp Hx. destruct (Hc' p x Hp Hx) as (y & Hy & E1 & E2 & _). eauto.
  - by rewrite last_or_app, last_or_cons.
  - intros p [Hp|Hp]%elem_of_app; [|by apply Hme]. pose proof (Hel p Hp) as He'. assert (p ≠ e) as Hpe by (intros ->; apply NoDup_app in Hnd as (_ & Hnd & _); eapply (Hnd e); set_solver).
    unfold elem_ok in He'. rewrite <- H0s in He' by set_solver.
    apply (elem_links _ _ _ (tail_ t) _ (links_next e)) in He'. apply (elem_links _ _ _ e _ (links_prev (tail_ t))) in He'. destruct He' as (x & Hx & H).
    destruct (Hc' p x) as (y & Hy & _ & _ & Ey); [set_solver|exact Hx|]. rewrite (Ey Hpe) in Hy. by exists x.
Qed.

Lemma u64_small n : 0 ≤ n < 2 ^ 32 → u64 n = n.
Proof. intros Hn. apply wrap_id. split; [lia|]. by eapply Z.lt_trans; [apply Hn|]. Qed.

Lemma queue_push_run s q t l e x : qrep s q t l → e ∉ head_ t :: l → e ≠ 0 → hooks s !! e = Some x → 1 ≤ R e → reference_ x = R e →
  Z.of_nat (length l) + 1 < 2 ^ 31 →
  ∃ s' t', push q e s = Ok (tt, s') ∧ qmove (e :: head_ t :: l) s q t s' t' (l ++ [e]) ∧
    hooks s' !! e = Some (MkHook (tail_ t) 0 (check_ t) (R e + 1)).
Proof.
  intros Hq He He0 Hx HR Href Hsz. pose proof Hq as [Hqt Hn H0 Hd Ht Hc Hs Hel]. destruct (qr_split _ _ _ _ Hq) as (k & Ek & Hz & Hlz).
  assert (e ≠ tail_ t) as Hez by (intros ->; apply He; rewrite Ek; set_solver).
  assert (is_Some (hooks s !! e)) as Hle by eauto.
  eassert (push q e s = Ok (tt, MkQst _ (<[q := with_tail e (Z.of_nat (length (l ++ [e]))) t]> (queues s)))) as Run.
  { unfold push. do 7 qstep. rsimpl. rewrite insert_insert_eq. unfold IncrementRef. rewrite set_hook_run; [|done|rsimpl; eauto with tunnel_queue].
    do 2 f_equal. unfold with_tail, set. cbn. rewrite length_app. cbn. rewrite u64_small by lia. replace (Z.of_nat (length l + 1)) with (count_ t + 1) by lia. reflexivity. }
  eexists _, (with_tail e _ t). split_and!; [exact Run| |]; [split; cbn [hooks queues]; [|done..|]|].
  - set (x0 := MkHook 0 0 (check_ t) (reference_ x)). eapply (qrep_append _ _ _ _ _ _ (<[e := x0]> (hooks s))); try done.
    + rewrite app_comm_cons. apply NoDup_app. split_and!; [done|set_solver|apply NoDup_singleton].
    + set_solver.
    + split; [|done]. exists x0. by rewrite lookup_insert_eq.
    + intros p Hp. apply lookup_insert_ne. by intros ->.
    + rewrite length_app. cbn. lia.
    + intros p ->%list_elem_of_singleton. eexists. rewrite !lookup_alter_eq, !lookup_alter_ne, Hx by done. split; [reflexivity|]. cbn. lia.
    + intros p y _ Hy. unfold attach in Hy. destruct (decide (p = e)) as [->|Hpe].
      * rewrite lookup_alter_eq, lookup_alter_ne, lookup_insert_eq in Hy by done. rewrite !lookup_alter_eq, !lookup_alter_ne, Hx by done. eexists. split; [reflexivity|]. by simplify_eq/=.
      * rewrite lookup_alter_ne in Hy by done. exists y. rewrite !(lookup_alter_ne _ _ e) by done. split; [|done]. rewrite <- Hy.
        destruct (decide (p = tail_ t)) as [->|]; [rewrite !lookup_alter_eq|rewrite !lookup_alter_ne by done]; by rewrite lookup_insert_ne.
  - intros p Hp. rewrite !lookup_alter_ne; first [done | intros <-; apply Hp; rewrite Ek; set_solver].
  - cbn [hooks]. rewrite !lookup_alter_eq, !lookup_alter_ne, Hx by done. rewrite <- Href. done.
Qed.

Lemma srep_last c chk l sl : srep c chk l sl → l ≠ [] → ∃ k, l = k ++ [sl_tail sl].
Proof.
  intros [_ Ht _ _ _ _ _ _] Hl. destruct (exists_last Hl) as (k & z & ->). exists k. by rewrite Ht, last_or_snoc.
Qed.

(** [tail_ := e] and [count_ := n] *)
Lemma put_tail_count e n t : (t <| tail_ := e |>) <| count_ := n |> = with_tail e n t.
Proof. done. Qed.

Lemma put_count_tail e n t : (t <| count_ := n |>) <| tail_ := e |> = with_tail e n t.
Proof. done. Qed.

Lemma push_list_run s q t l m sl : qrep s q t l → srep (hooks s) (check_ t) m sl → m ≠ [] → NoDup (head_ t :: l ++ m) →
  Z.of_nat (length (l ++ m)) < 2 ^ 31 →
  ∃ s' t', push_list q sl s = Ok (tt, s') ∧ qmove (head_ t :: l ++ m) s q t s' t' (l ++ m).
Proof.
  intros Hq Hsr Hm Hnd Hsz. pose proof Hq as [Hqt Hn H0 Hd Ht Hc Hs Hel]. destruct (qr_split _ _ _ _ Hq) as (k & Ek & Hz & Hlz).
  destruct (srep_last _ _ _ _ Hsr Hm) as (k2 & Ek2). pose proof Hsr as [Sh St Sc Sk Sn S0 Sd Se]. destruct m as [|e m]; [done|].
  cbn in Sh. assert (sl_tail sl ∈ e :: m) as Hzin by (rewrite Ek2; set_solver). rewrite last_or_cons in St.
  assert (e ≠ 0) as He0 by (intros ->; set_solver). assert (sl_tail sl ≠ 0) as Hz0 by (intros E; rewrite E in Hzin; done).
  assert (is_Some (hooks s !! e)) as Hle by (eapply dseg_live; [exact Sd|left]).
  assert (is_Some (hooks s !! sl_tail sl)) as Hlt by (by eapply dseg_live).
  eassert (push_list q sl s = Ok (tt, MkQst _ (<[q := _]> (queues s)))) as Run.
  { unfold push_list. rewrite Sh, (proj2 (Z.eqb_neq _ _) He0). qstep. rewrite Sk, Z.eqb_refl by done. eapply bind_run; [done|]. do 4 qstep. rsimpl.
    erewrite set_queue_run by apply lookup_insert_eq. rsimpl. rewrite insert_insert_eq, put_count_tail. reflexivity. }
  eexists _, (with_tail (sl_tail sl) _ t). split; [exact Run|]. split; cbn [hooks queues]; [|done..|].
  - eapply (qrep_append _ _ _ _ _ _ (hooks s)); try done.
    + intros p Hp. rsimpl. do 3 (apply elem_links; [done|]). by apply Se.
    + intros p x Hp Hx. rsimpl. change (alter _ e (alter _ (tail_ t) (hooks s))) with (attach (tail_ t) e (hooks s)).
      assert (dseg (attach (tail_ t) e (hooks s)) 0 ((head_ t :: l) ++ e :: m) 0) as Ha by (rewrite app_comm_cons in Hnd; rewrite Ek in *; by apply attach_dseg).
      destruct (decide (p = sl_tail sl)) as [->|Hpt]; [|exists x; rewrite lookup_alter_ne by done; done]. rewrite lookup_alter_eq, Hx. eexists. split; [reflexivity|].
      rewrite Ek2, app_assoc, dseg_app in Ha. destruct Ha as [_ [(y & Hy & _ & Hnx) _]]. rewrite Hx in Hy. injection Hy as <-. cbn in Hnx. by destruct x; simplify_eq/=.
    + f_equal; [done|]. rewrite length_app in *. rewrite Sc, Hc, u64_small; lia.
  - intros p Hp. rsimpl. rewrite !lookup_alter_ne; [done|..]; intros <-; apply Hp; rewrite ?app_comm_cons, Ek; set_solver.
Qed.

(** *** Taking a segment out *)

(** [z->next = hd(l2)], and [hd(l2)->prev = z] when there is one *)
Definition relink (z : ptr) (l2 : list ptr) (c : gmap ptr hook) : gmap ptr hook :=
  let c1 := alter (fun x => x <| h_next := hd_or 0 l2 |>) z c in
  match l2 with
  | [] => c1
  | e :: _ => alter (fun x => x <| h_prev := z |>) e c1
  end.

Lemma relink_dseg c k z m l2 : NoDup ((k ++ [z]) ++ m ++ l2) → dseg c 0 ((k ++ [z]) ++ m ++ l2) 0 →
  dseg (relink z l2 c) 0 ((k ++ [z]) ++ l2) 0 ∧ (∀ p, p ∈ m → relink z l2 c !! p = c !! p).
Proof.
  intros (Hn1 & Hn2 & (Hm1 & Hm2 & Hm3)%NoDup_app)%NoDup_app (H1 & [H2 H3]%dseg_app)%dseg_app. rewrite last_or_snoc in H2, H3.
  assert (z ∉ m ++ l2) as Hz by (apply Hn2; set_solver). destruct l2 as [|e l2]; unfold relink.
  - rewrite app_nil_r. split; [by eapply dseg_next|]. intros p Hp. rewrite lookup_alter_ne; [done|]. intros ->. set_solver.
  - apply NoDup_cons in Hm3 as [He _]. split.
    + rewrite dseg_app, last_or_snoc. split.
      * apply dseg_out; [intros Hk; apply (Hn2 _ Hk); set_solver|]. by eapply dseg_next.
      * eapply dseg_prev; [done|]. apply dseg_out; [set_solver|done].
    + intros p Hp. rewrite !lookup_alter_ne; [done| |]; intros ->; set_solver.
Qed.

Lemma relink_elem c chk z l2 e : elem_ok c chk e → elem_ok (relink z l2 c) chk e.
Proof. intros He. unfold relink. destruct l2; eauto with tunnel_queue. Qed.

Lemma qrep_remove s q t l1 m l2 c' t' : qrep s q t (l1 ++ m ++ l2) →
  (∀ p, p ∈ head_ t :: l1 ++ l2 → c' !! p = relink (last_or (head_ t) l1) l2 (hooks s) !! p) →
  t' = with_tail (last_or (head_ t) (l1 ++ l2)) (Z.of_nat (length (l1 ++ l2))) t →
  qrep (MkQst c' (<[q := t']> (queues s))) q t' (l1 ++ l2).
Proof.
  intros Hq Hc' ->. destruct Hq as [Hqt Hn H0 Hd Ht Hc Hs Hel]. destruct (exists_last (l := head_ t :: l1)) as (k & z & E); [done|].
  assert (z = last_or (head_ t) l1) as Ez. { rewrite <- last_or_cons with (d := 0), E. by rewrite last_or_snoc. } rewrite <- Ez in *.
  rewrite app_comm_cons, E in Hn, Hd. destruct (relink_dseg _ _ _ _ _ Hn Hd) as [Hd' _].
  split; unfold with_tail; rsimpl; cbn [hooks queues]; try done.
  - apply lookup_insert_eq.
  - rewrite app_comm_cons, E. apply NoDup_app in Hn as (N1 & N2 & (_ & _ & N3)%NoDup_app). apply NoDup_app. split_and!; [done| |done]. intros p Hp. specialize (N2 p Hp). set_solver.
  - set_solver.
  - rewrite app_comm_cons, E. eapply dseg_ext; [|exact Hd']. intros p Hp. apply Hc'. rewrite app_comm_cons, E. done.
  - rewrite !length_app in *. lia.
  - intros p Hp. unfold elem_ok. rewrite Hc' by set_solver. apply relink_elem, Hel. set_solver.
Qed.

(** *** pop and erase *)

Lemma qr_head s q t l : qrep s q t l → head_ t ≠ 0 ∧ is_Some (hooks s !! head_ t).
Proof. intros [_ _ H0 Hd _ _ _ _]. split; [intros E; rewrite E in H0; set_solver|]. eapply dseg_live; [exact Hd|left]. Qed.

Lemma qr_empty s q t l : qrep s q t l → (head_ t =? tail_ t) = bool_decide (l = []).
Proof.
  intros [_ Hn _ _ Ht _ _ _]. rewrite Ht. destruct l as [|e l]; [apply Z.eqb_refl|]. apply Z.eqb_neq. intros E. apply NoDup_cons in Hn as [Hn _]. apply Hn.
  rewrite E. destruct (exists_last (l := e :: l)) as (k & z & ->); [done|]. rewrite last_or_snoc. set_solver.
Qed.

Lemma qr_cell s q t l1 e l2 : qrep s q t (l1 ++ e :: l2) →
  ∃ x, hooks s !! e = Some x ∧ h_prev x = last_or (head_ t) l1 ∧ h_next x = hd_or 0 l2 ∧ h_check x = check_ t ∧ 1 ≤ R e ∧ reference_ x = R e + 1.
Proof.
  intros [_ _ _ Hd _ _ _ Hel]. rewrite app_comm_cons, dseg_app in Hd. destruct Hd as [_ [(x & Hx & Hp & Hnx) _]]. rewrite last_or_cons in Hp.
  destruct (Hel e) as (y & Hy & H); [set_solver|]. simplify_eq. eauto 10.
Qed.

Lemma hook_head_run s q t l : qrep s q t l → ∃ h, hooks s !! head_ t = Some h ∧ h_next h = hd_or 0 l.
Proof. intros [_ _ _ Hd _ _ _ _]. destruct Hd as [(x & Hx & _ & Hnx) _]. eauto. Qed.

Lemma unref_run p s x : p ≠ 0 → hooks s !! p = Some x → 2 ≤ reference_ x →
  DecrementRef p s = Ok (tt, s <| hooks := alter (fun x => x <| reference_ ::= Z.pred |>) p (hooks s) |>).
Proof.
  intros Hp Hx Hr. unfold DecrementRef. eapply bind_run; [by apply set_hook_run; [|eauto]|]. eapply bind_run; [apply hook_run; [done|rsimpl; by rewrite lookup_alter_eq, Hx]|].
  rsimpl. rewrite (proj2 (Z.eqb_neq _ _)); [done|]. unfold Z.pred. lia.
Qed.

(** The unlinking of an element by [erase] and by [pop] *)
Definition unlinked (p : ptr) (c : gmap ptr hook) : gmap ptr hook :=
  alter (fun x => x <| reference_ ::= Z.pred |>) p
    (alter (fun x => x <| h_check := 0 |>) p (alter (fun x => x <| h_prev := 0 |> <| h_next := 0 |>) p c)).

Lemma unlinked_self p c x : c !! p = Some x → unlinked p c !! p = Some (MkHook 0 0 0 (reference_ x - 1)).
Proof. intros Hx. unfold unlinked. rewrite !lookup_alter_eq, Hx. done. Qed.

Lemma unlinked_other p p' c : p' ≠ p → unlinked p c !! p' = c !! p'.
Proof. intros H. unfold unlinked. by rewrite !lookup_alter_ne. Qed.

Lemma relink_out z l2 c p : p ≠ z → p ∉ l2 → relink z l2 c !! p = c !! p.
Proof. intros Hz Hl. unfold relink. destruct l2; rewrite !lookup_alter_ne; first [done|intros ->; set_solver]. Qed.

(** [m] is the one element [e]. *)
Lemma qmove_one s q t l1 e l2 t' : qrep s q t (l1 ++ e :: l2) →
  t' = with_tail (last_or (head_ t) (l1 ++ l2)) (Z.of_nat (length (l1 ++ l2))) t →
  let s' := MkQst (unlinked e (relink (last_or (head_ t) l1) l2 (hooks s))) (<[q := t']> (queues s)) in
  qmove (head_ t :: l1 ++ e :: l2) s q t s' t' (l1 ++ l2) ∧
  hooks s' !! e = Some (MkHook 0 0 0 (R e)).
Proof.
  intros Hq Ht' s'. pose proof Hq as [Hqt Hn _ _ _ _ _ _]. destruct (qr_cell _ _ _ _ _ _ Hq) as (x & Hx & _ & _ & _ & HR & Hr).
  rewrite app_comm_cons in Hn. apply NoDup_app in Hn as (N1 & N2 & (N3 & N4)%NoDup_cons).
  assert (last_or (head_ t) l1 ∈ head_ t :: l1) as Hz.
  { rewrite <- last_or_cons with (d := 0). destruct (exists_last (l := head_ t :: l1)) as (k & z & ->); [done|]. rewrite last_or_snoc. set_solver. }
  split; [split; try (by subst)|].
  - subst s'. eapply (qrep_remove _ _ _ _ [e]); [done| |done]. intros p Hp. apply unlinked_other. intros ->. rewrite app_comm_cons in Hp.
    apply elem_of_app in Hp as [Hp|Hp]; [by eapply (N2 e Hp); left|done].
  - intros p Hp. cbn [hooks s']. rewrite unlinked_other by (intros ->; set_solver). apply relink_out; set_solver.
  - cbn [hooks s']. erewrite unlinked_self; [|rewrite relink_out; [exact Hx| |done]; intros ->; eapply (N2 _ Hz); left]. rewrite Hr. do 2 f_equal. lia.
Qed.

Lemma put_tail_self q t t' (s : gmap Z queue) : t' = t → s !! q = Some t → <[q := t']> s = s.
Proof. intros -> Hs. by apply insert_id. Qed.

Lemma pop_run s q t e l : qrep s q t (e :: l) →
  ∃ s' t', pop q s = Ok (e, s') ∧ qmove (head_ t :: e :: l) s q t s' t' l ∧
    hooks s' !! e = Some (MkHook 0 0 0 (R e)).
Proof.
  intros Hq. pose proof Hq as [Hqt Hn H0 Hd Ht Hc Hs Hel]. destruct (qr_head _ _ _ _ Hq) as [Hh0 Hlh].
  destruct (hook_head_run _ _ _ _ Hq) as (h & Hh & Eh). cbn in Eh. destruct (qr_cell _ _ _ [] _ _ Hq) as (x & Hx & Ep & En & _ & HR & Hr). cbn in Ep.
  assert (e ≠ 0) as He0 by (intros ->; set_solver). apply NoDup_cons in Hn as [Hhe [Hel' Hnl]%NoDup_cons]. assert (head_ t ≠ e) as Hhe' by set_solver.
  assert (u64 (count_ t - 1) = Z.of_nat (length l)) as Eu by (rewrite Hc; cbn [length] in *; rewrite u64_small; lia).
  set (t' := with_tail (last_or (head_ t) l) (Z.of_nat (length l)) t). destruct (qmove_one _ _ _ [] _ _ t' Hq eq_refl) as (Hm & Hx1).
  eexists _, t'. split_and!; [|exact Hm|exact Hx1]. unfold pop. qstep. rewrite (qr_empty _ _ _ _ Hq). cbn [bool_decide].
  eapply bind_run; [by apply hook_run|]. rewrite Eh. cbn zeta.
  assert (is_Some (hooks s !! e)) as Hle by eauto. destruct l as [|e2 l].
  - cbn in Ht. rewrite Ht, Z.eqb_refl. qstep. eapply bind_run; [apply hook_run; [done|exact Hx]|]. rewrite En. cbn [hd_or default head Z.eqb]. qstep. eapply bind_run; [done|]. do 3 qstep.
    eapply bind_run; [eapply unref_run; [done| |]; rsimpl; [by rewrite !lookup_alter_eq, lookup_alter_ne, Hx|unfold set; cbn; lia]|].
    rsimpl. rewrite insert_insert_eq. rsimpl. rewrite Eu. done.
  - assert (e2 ≠ 0) as He20 by (intros ->; apply H0; right; right; left). assert (is_Some (hooks s !! e2)) as Hle2 by (eapply dseg_live; [exact Hd|right; right; left]).
    pose proof (qr_empty _ _ _ _ Hq) as Hemp.
    assert (e ≠ tail_ t) as Het. { rewrite Ht, last_or_cons. destruct (exists_last (l := e2 :: l)) as (k & z & E); [done|]. rewrite E, last_or_snoc. intros ->. apply Hel'. rewrite E. apply elem_of_app. right. left. }
    rewrite (proj2 (Z.eqb_neq _ _) Het). eapply bind_run; [done|]. eapply bind_run; [apply hook_run; [done|exact Hx]|]. rewrite En. change (hd_or 0 (e2 :: l)) with e2. qstep.
    rewrite (proj2 (Z.eqb_neq _ _) He20). do 4 qstep. eapply bind_run; [eapply unref_run; [done| |]; rsimpl; [by rewrite !lookup_alter_eq, !lookup_alter_ne, Hx by (done || (intros ->; apply Hel'; left))|unfold set; cbn; lia]|].
    rsimpl. rewrite Eu. unfold t'. rewrite !last_or_cons in Ht. rewrite last_or_cons, <- Ht. done.
Qed.

Lemma pop_empty s q t : qrep s q t [] → pop q s = Ok (0, s).
Proof. intros Hq. unfold pop. eapply bind_run; [apply queue_run, Hq|]. by rewrite (qr_empty _ _ _ _ Hq). Qed.

Lemma queue_erase_run s q t l1 e l2 : qrep s q t (l1 ++ e :: l2) →
  ∃ s' t', erase q e s = Ok (true, s') ∧ qmove (head_ t :: l1 ++ e :: l2) s q t s' t' (l1 ++ l2) ∧
    hooks s' !! e = Some (MkHook 0 0 0 (R e)).
Proof.
  intros Hq. pose proof Hq as [Hqt Hn H0 Hd Ht Hc Hs Hel]. destruct (qr_cell _ _ _ _ _ _ Hq) as (x & Hx & Ep & En & Ec & HR & Hr).
  assert (e ≠ 0) as He0 by (intros ->; set_solver). set (z := last_or (head_ t) l1) in *.
  rewrite app_comm_cons in Hn, H0, Hd. apply NoDup_app in Hn as (N1 & N2 & (N3 & N4)%NoDup_cons).
  assert (z ∈ head_ t :: l1) as Hz.
  { unfold z. rewrite <- last_or_cons with (d := 0). destruct (exists_last (l := head_ t :: l1)) as (k & y & ->); [done|]. rewrite last_or_snoc. set_solver. }
  assert (z ≠ 0) as Hz0 by (intros E; rewrite E in Hz; apply H0; apply elem_of_app; by left). assert (is_Some (hooks s !! z)) as Hlz by (eapply dseg_live; [exact Hd|apply elem_of_app; by left]).
  assert (e ≠ z) as Hez by (intros ->; apply (N2 z Hz); left).
  set (t' := with_tail (last_or (head_ t) (l1 ++ l2)) (Z.of_nat (length (l1 ++ l2))) t).
  assert (u64 (count_ t - 1) = Z.of_nat (length (l1 ++ l2))) as Eu by (rewrite Hc; rewrite !length_app in *; cbn [length] in *; rewrite u64_small; lia).
  destruct (qmove_one _ _ _ _ _ _ t' Hq eq_refl) as (Hm & Hx1).
  eexists _, t'. split_and!; [|exact Hm|exact Hx1]. clear Hm Hx1. unfold erase. qstep. eapply bind_run; [by apply hook_run|]. rewrite Ec, Z.eqb_refl, Ep, En. cbn [negb].
  rewrite (proj2 (Z.eqb_neq _ _) Hz0). qstep. assert (is_Some (hooks s !! e)) as Hle by eauto. rewrite last_or_app, last_or_cons in Ht. unfold t'. rewrite last_or_app. destruct l2 as [|e2 l2].
  - cbn in Ht. rewrite Ht. change (hd_or 0 [] =? 0) with true. cbn [negb]. rewrite Z.eqb_refl.
    eapply bind_run; [eapply bind_run; [apply hook_run; [done|rsimpl; by rewrite lookup_alter_ne]|]; rewrite Ep; eapply set_queue_run; rsimpl; done|].
    do 3 qstep. eapply bind_run; [eapply unref_run; [done| |]; rsimpl; [by rewrite !lookup_alter_eq, lookup_alter_ne, Hx|unfold set; cbn; lia]|].
    rsimpl. rewrite insert_insert_eq. rsimpl. rewrite Eu. done.
  - change (hd_or 0 (e2 :: l2)) with e2. assert (e2 ≠ 0) as He20 by (intros ->; apply H0, elem_of_app; right; right; left).
    assert (is_Some (hooks s !! e2)) as Hle2 by (eapply dseg_live; [exact Hd|apply elem_of_app; right; right; left]).
    rewrite (proj2 (Z.eqb_neq _ _) He20). cbn [negb]. do 4 qstep.
    eapply bind_run; [eapply unref_run; [done| |]; rsimpl; [by rewrite !lookup_alter_eq, !lookup_alter_ne, Hx by (done || (intros ->; apply N3; left))|unfold set; cbn; lia]|].
    rsimpl. rewrite Eu. rewrite last_or_cons in Ht |- *. rewrite <- Ht. done.
Qed.

Lemma erase_absent s q t l e x : qrep s q t l → e ≠ 0 → hooks s !! e = Some x → h_check x ≠ check_ t → erase q e s = Ok (false, s).
Proof.
  intros Hq He Hx Hc. unfold erase. eapply bind_run; [apply queue_run, Hq|]. eapply bind_run; [by apply hook_run|]. by rewrite (proj2 (Z.eqb_neq _ _) Hc).
Qed.

(** *** pop_front, pop_back and pop_all *)

Lemma detach_dseg c pv m nx e z : NoDup m → hd_or 0 m = e → last_or 0 m = z → m ≠ [] → dseg c pv m nx →
  dseg (alter (fun x => x <| h_prev := 0 |>) e (alter (fun x => x <| h_next := 0 |>) z c)) 0 m 0.
Proof.
  intros Hn He Hz Hm Hd. destruct (exists_last Hm) as (k & y & E). rewrite E, last_or_snoc in Hz. subst y. rewrite E in Hn, Hd.
  apply (dseg_next _ _ _ _ _ 0) in Hd; [|done]. rewrite <- E in Hd, Hn. destruct m as [|a m]; [done|]. cbn in He. subst a. apply NoDup_cons in Hn as [Hn _]. by eapply dseg_prev.
Qed.

Lemma qmove_seg s q t l1 m l2 c' t' : qrep s q t (l1 ++ m ++ l2) → m ≠ [] →
  (∀ p, p ∉ m → c' !! p = relink (last_or (head_ t) l1) l2 (hooks s) !! p) → dseg c' 0 m 0 → (∀ p, p ∈ m → elem_ok c' (check_ t) p) →
  t' = with_tail (last_or (head_ t) (l1 ++ l2)) (Z.of_nat (length (l1 ++ l2))) t →
  qmove (head_ t :: l1 ++ m ++ l2) s q t (MkQst c' (<[q := t']> (queues s))) t' (l1 ++ l2) ∧
  srep c' (check_ t) m (MkSList (hd_or 0 m) (last_or 0 m) (check_ t) (Z.of_nat (length m))).
Proof.
  intros Hq Hm Hc' Hd He Ht'. pose proof Hq as [_ Hn H0 _ _ _ _ _]. rewrite app_comm_cons in Hn, H0. apply NoDup_app in Hn as (N1 & N2 & (N3 & N4 & N5)%NoDup_app).
  assert (last_or (head_ t) l1 ∈ head_ t :: l1) as Hz.
  { rewrite <- last_or_cons with (d := 0). destruct (exists_last (l := head_ t :: l1)) as (k & z & ->); [done|]. rewrite last_or_snoc. set_solver. }
  split.
  - split; try (by subst).
    + eapply qrep_remove; [done| |done]. intros p Hp. apply Hc'. intros Hpm. rewrite app_comm_cons in Hp. apply elem_of_app in Hp as [Hp|Hp]; [|by eapply N4].
      apply (N2 p Hp), elem_of_app. by left.
    + intros p Hp. cbn [hooks]. rewrite Hc' by (intros Hpm; apply Hp; right; apply elem_of_app; right; apply elem_of_app; by left).
      rewrite app_comm_cons in Hp. apply relink_out; [intros ->; apply Hp, elem_of_app; by left|]. intros Hp2. apply Hp, elem_of_app. right. apply elem_of_app. by right.
  - split; try done. intros H. apply H0, elem_of_app. right. apply elem_of_app. by left.
Qed.

Lemma front_loop_run s k pv p rest n : dseg (hooks s) pv (p :: rest) 0 → 0 ∉ p :: rest →
  front_loop k p n s = Ok ((last_or p (take k rest), n + Z.of_nat (length (take k rest))), s).
Proof.
  revert pv p rest n. induction k as [|k IH]; intros pv p rest n Hd H0; [by rewrite Z.add_0_r|]. destruct Hd as [(x & Hx & _ & Hnx) Hd]. cbn [front_loop].
  assert (p ≠ 0) as Hp by (intros ->; set_solver). eapply bind_run; [by apply hook_run|]. rewrite Hnx. destruct rest as [|p2 rest]; [by rewrite Z.add_0_r|].
  change (hd_or 0 (p2 :: rest)) with p2. assert (p2 ≠ 0) as Hp2 by (intros ->; set_solver). rewrite (proj2 (Z.eqb_neq _ _) Hp2).
  rewrite (IH _ _ _ _ Hd) by set_solver. cbn [take]. rewrite last_or_cons. cbn [length]. do 3 f_equal. lia.
Qed.

Lemma back_loop_run s k h l1 p l2 n : dseg (hooks s) 0 (h :: l1 ++ p :: l2) 0 → 0 ∉ h :: l1 ++ [p] → h ∉ l1 →
  back_loop k h p n s = Ok ((hd_or p (drop (length l1 - k) l1), n + Z.of_nat (k `min` length l1)), s).
Proof.
  revert l1 p l2 n. induction k as [|k IH]; intros l1 p l2 n Hd H0 Hh; [rewrite Nat.sub_0_r, drop_all, Z.add_0_r; done|].
  rewrite app_comm_cons, dseg_app in Hd. pose proof Hd as [_ [(x & Hx & Hpv & _) _]]. rewrite last_or_cons in Hpv. cbn [back_loop].
  assert (p ≠ 0) as Hp by (intros ->; set_solver). eapply bind_run; [by apply hook_run|]. rewrite Hpv. destruct l1 as [|p1 l1 _] using rev_ind.
  - cbn. rewrite Z.eqb_refl, orb_true_r. by rewrite Z.add_0_r.
  - rewrite last_or_snoc. assert (p1 ≠ 0) as Hp1 by (intros ->; set_solver). assert (p1 ≠ h) as Hp1h by (intros ->; set_solver).
    rewrite (proj2 (Z.eqb_neq _ _) Hp1), (proj2 (Z.eqb_neq _ _) Hp1h). cbn [orb].
    rewrite <- dseg_app, app_comm_cons, <- app_assoc in Hd.
    rewrite (IH l1 p1 (p :: l2)); [|exact Hd|set_solver|set_solver]. rewrite length_app. cbn [length]. replace (length l1 + 1 - S k)%nat with (length l1 - k)%nat by lia.
    rewrite drop_app_le, hd_or_app by lia. do 3 f_equal. lia.
Qed.

Lemma qr_null_in s q t l p : qrep s q t l → p ∈ head_ t :: l → p ≠ 0 ∧ is_Some (hooks s !! p).
Proof. intros [_ _ H0 Hd _ _ _ _] Hp. split; [by intros ->|by eapply dseg_live]. Qed.

Lemma last_in d l : last_or d l ∈ d :: l.
Proof. rewrite <- last_or_cons with (d := 0). destruct (exists_last (l := d :: l)) as (k & z & ->); [done|]. rewrite last_or_snoc. set_solver. Qed.

(** The head of the segment that is left is its last element only when nothing is left. *)
Lemma tail_is_last s q t m l2 : qrep s q t (m ++ l2) → m ≠ [] → (last_or 0 m =? tail_ t) = bool_decide (l2 = []).
Proof.
  intros [_ Hn _ _ Ht _ _ _] Hm. destruct (exists_last Hm) as (k & y & ->). rewrite Ht, last_or_snoc, last_or_app, last_or_snoc. destruct l2 as [|e l2]; [apply Z.eqb_refl|].
  apply Z.eqb_neq. intros E. apply NoDup_cons in Hn as [_ (_ & Hn & _)%NoDup_app]. apply (Hn y); [set_solver|]. rewrite last_or_cons in E. rewrite E. apply last_in.
Qed.

Lemma pop_front_run s q t e rest n : qrep s q t (e :: rest) →
  let m := e :: take (n - 1) rest in let l2 := drop (n - 1) rest in
  ∃ s' t' sl, pop_front q n s = Ok (sl, s') ∧ qmove (head_ t :: e :: rest) s q t s' t' l2 ∧ srep (hooks s') (check_ t) m sl.
Proof.
  intros Hq m l2. assert (e :: rest = m ++ l2) as El by (unfold m, l2; cbn; by rewrite take_drop). pose proof Hq as [Hqt Hn H0 Hd Ht Hc Hs Hel].
  destruct (hook_head_run _ _ _ _ Hq) as (h & Hh & Eh). destruct (qr_null_in _ _ _ _ (head_ t) Hq) as [Hh0 Hlh]; [left|]. destruct (qr_null_in _ _ _ _ e Hq) as [He0 Hle]; [right; left|].
  assert (m ≠ []) as Hm by done. pose proof (tail_is_last s q t m l2) as Htl. rewrite <- El in Htl. specialize (Htl Hq Hm). set (z := last_or 0 m) in *.
  assert (z ∈ m) as Hzm by (unfold z, m; rewrite last_or_cons; apply last_in). destruct (qr_null_in _ _ _ _ z Hq) as [Hz0 Hlz]; [right; rewrite El; apply elem_of_app; by left|].
  assert (∃ x, hooks s !! z = Some x ∧ h_next x = hd_or 0 l2) as (x & Hx & Enx).
  { destruct (exists_last Hm) as (k & y & E). assert (z = y) as -> by (unfold z; by rewrite E, last_or_snoc). rewrite El, E, <- app_assoc in Hq. destruct (qr_cell _ _ _ _ _ _ Hq) as (x & Hx & _ & Enx & _). eauto. }
  assert (hd_or 0 m = e) as Ee by done.
  set (t' := with_tail (last_or (head_ t) l2) (Z.of_nat (length l2)) t).
  set (c' := alter (fun x => x <| h_prev := 0 |>) e (alter (fun x => x <| h_next := 0 |>) z (relink (head_ t) l2 (hooks s)))).
  assert (u64 (count_ t - Z.of_nat (length m)) = Z.of_nat (length l2)) as Eu by (rewrite Hc, El in *; rewrite length_app in *; rewrite u64_small; lia).
  destruct (qmove_seg s q t [] m l2 c' t') as [Hmv Hsr]; [by rewrite <- El|done| | | |done|].
  - intros p Hp. unfold c'. rewrite !lookup_alter_ne; [done|intros <-; done|intros <-; apply Hp; left].
  - unfold c'. rewrite El in Hn, Hd. destruct (relink_dseg (hooks s) [] (head_ t) m l2 Hn Hd) as [_ Hrm].
    assert (NoDup m) as Hnm by (apply NoDup_cons in Hn as [_ (Hn & _)%NoDup_app]; done). eapply detach_dseg; [done..|]. eapply dseg_ext; [exact Hrm|].
    destruct Hd as [_ Hd]. apply dseg_app in Hd as [Hd _]. exact Hd.
  - intros p Hp. unfold c'. do 2 (apply elem_links; [done|]). apply relink_elem, Hel. rewrite El. apply elem_of_app. by left.
  - exists (MkQst c' (<[q := t']> (queues s))), t', (MkSList e z (check_ t) (Z.of_nat (length m))). split; [|by rewrite El].
    clear Hmv Hsr. unfold pop_front. qstep. rewrite (qr_empty _ _ _ _ Hq). cbn [bool_decide]. eapply bind_run; [by apply hook_run|]. rewrite Eh. change (hd_or 0 (e :: rest)) with e. cbn zeta.
    destruct Hd as [_ Hd]. eapply bind_run; [eapply front_loop_run; [exact Hd|set_solver]|]. cbn beta iota.
    assert (last_or e (take (n - 1) rest) = z) as -> by (unfold z, m; by rewrite last_or_cons). rewrite Htl.
    replace (1 + Z.of_nat (length (take (n - 1) rest))) with (Z.of_nat (length m)) by (unfold m; cbn [length]; lia).
    clearbody m z. destruct l2 as [|e2 l2].
    + cbn [bool_decide]. qstep. eapply bind_run; [apply hook_run; [done|exact Hx]|]. rewrite Enx. change (hd_or 0 [] =? 0) with true. qstep. eapply bind_run; [done|]. do 3 qstep.
      rsimpl. rewrite insert_insert_eq. rsimpl. rewrite Eu. done.
    + destruct (qr_null_in _ _ _ _ e2 Hq) as [He20 Hle2]; [right; rewrite El; apply elem_of_app; right; left|].
      cbn [bool_decide]. eapply bind_run; [done|]. eapply bind_run; [apply hook_run; [done|exact Hx]|]. rewrite Enx. change (hd_or 0 (e2 :: l2)) with e2.
      qstep. rewrite (proj2 (Z.eqb_neq _ _) He20). do 4 qstep. rsimpl. rewrite Eu. unfold t'. assert (last_or (head_ t) (e2 :: l2) = tail_ t) as -> by (by rewrite Ht, El, last_or_app, !last_or_cons). done.
Qed.

Lemma pop_back_run s q t k z n : qrep s q t (k ++ [z]) →
  let j := (length k - (n - 1))%nat in let l1 := take j k in let m := drop j k ++ [z] in
  ∃ s' t' sl, pop_back q n s = Ok (sl, s') ∧ qmove (head_ t :: k ++ [z]) s q t s' t' l1 ∧ srep (hooks s') (check_ t) m sl.
Proof.
  intros Hq j l1 m. assert (k ++ [z] = l1 ++ m ++ []) as El by (unfold m, l1; rewrite app_nil_r, app_assoc; by rewrite take_drop). pose proof Hq as [Hqt Hn H0 Hd Ht Hc Hs Hel].
  rewrite last_or_snoc in Ht. assert (m ≠ []) as Hm by (unfold m; by destruct (drop j k)).
  assert (last_or 0 m = z) as Ez by (unfold m; by rewrite last_or_snoc). destruct m as [|e m'] eqn:Em; [done|]. rewrite <- Em in *. assert (hd_or 0 m = e) as Ee by (by rewrite Em).
  assert (e ∈ m) as Hem by (rewrite Em; left). destruct (qr_null_in _ _ _ _ e Hq) as [He0 Hle]; [right; rewrite El; apply elem_of_app; right; apply elem_of_app; by left|].
  set (y := last_or (head_ t) l1). destruct (qr_null_in _ _ _ _ y Hq) as [Hy0 Hly]; [rewrite El, app_comm_cons; apply elem_of_app; left; apply last_in|].
  assert (∃ x, hooks s !! e = Some x ∧ h_prev x = y) as (x & Hx & Epv).
  { rewrite El, Em, app_nil_r in Hq. destruct (qr_cell _ _ _ _ _ _ Hq) as (x & Hx & Epv & _). eauto. }
  set (t' := with_tail y (Z.of_nat (length l1)) t). set (c' := alter (fun x => x <| h_prev := 0 |>) e (relink y [] (hooks s))).
  assert (u64 (count_ t - Z.of_nat (length m)) = Z.of_nat (length l1)) as Eu by (rewrite Hc, El in *; rewrite !length_app in *; cbn [length] in *; rewrite u64_small; lia).
  destruct (qmove_seg s q t l1 m [] c' t') as [Hmv Hsr]; [by rewrite <- El|done| | | |by rewrite app_nil_r|].
  - intros p Hp. unfold c'. rewrite lookup_alter_ne; [done|]. by intros <-.
  - rewrite El, app_comm_cons in Hn, Hd. destruct (exists_last (l := head_ t :: l1)) as (k1 & y' & E); [done|]. assert (y' = y) as -> by (unfold y; by rewrite <- last_or_cons with (d := 0), E, last_or_snoc).
    rewrite E in Hn, Hd. destruct (relink_dseg (hooks s) k1 y m [] Hn Hd) as [_ Hrm]. apply dseg_app in Hd as [_ Hd]. rewrite app_nil_r in Hd.
    apply (dseg_ext _ _ _ _ _ Hrm) in Hd. apply NoDup_app in Hn as (_ & _ & Hn). rewrite app_nil_r in Hn. rewrite Em in Hd, Hn |- *. apply NoDup_cons in Hn as [Hn _]. by eapply dseg_prev.
  - intros p Hp. unfold c'. apply elem_links; [done|]. apply relink_elem, Hel. rewrite El. apply elem_of_app. right. apply elem_of_app. by left.
  - rewrite (app_nil_r l1) in Hmv. exists (MkQst c' (<[q := t']> (queues s))), t', (MkSList e z (check_ t) (Z.of_nat (length m))). split; [|rewrite Ee, Ez in Hsr; rewrite El; split; [exact Hmv|]; cbn [hooks]; exact Hsr].
    clear Hmv Hsr. unfold pop_back. qstep. rewrite (qr_empty _ _ _ _ Hq), bool_decide_false by (by destruct k). cbn zeta. rewrite Ht.
    eapply bind_run; [eapply (back_loop_run _ _ _ k z []); [exact Hd|set_solver|apply NoDup_cons in Hn as [Hn _]; set_solver]|]. cbn beta iota.
    assert (hd_or z (drop j k) = e) as Ee' by (rewrite <- Ee; unfold m; by destruct (drop j k)). unfold j in Ee'. rewrite Ee'.
    replace (1 + Z.of_nat ((n - 1) `min` length k)) with (Z.of_nat (length m)) by (unfold m, j; rewrite length_app, length_drop; cbn [length]; lia).
    eapply bind_run; [by apply hook_run|]. rewrite Epv. do 4 qstep. rsimpl. rewrite insert_insert_eq. rsimpl. rewrite Eu. done.
Qed.

Lemma pop_all_run s q t l : qrep s q t l → l ≠ [] →
  ∃ s' t' sl, pop_all q s = Ok (sl, s') ∧ qmove (head_ t :: l) s q t s' t' [] ∧ srep (hooks s') (check_ t) l sl.
Proof.
  intros Hq Hl. pose proof Hq as [Hqt Hn H0 Hd Ht Hc Hs Hel]. destruct (hook_head_run _ _ _ _ Hq) as (h & Hh & Eh).
  destruct (qr_null_in _ _ _ _ (head_ t) Hq) as [Hh0 Hlh]; [left|]. destruct l as [|e rest]; [done|]. set (l := e :: rest) in *.
  destruct (qr_null_in _ _ _ _ e Hq) as [He0 Hle]; [right; left|]. assert (tail_ t = last_or 0 l) as Ht' by (rewrite Ht; unfold l; by rewrite !last_or_cons).
  assert (tail_ t ∈ l) as Htl by (rewrite Ht'; unfold l; rewrite last_or_cons; apply last_in). destruct (qr_null_in _ _ _ _ (tail_ t) Hq) as [Ht0 Hlt]; [by right|].
  set (t' := with_tail (head_ t) 0 t). set (c' := alter (fun x => x <| h_prev := 0 |>) e (alter (fun x => x <| h_next := 0 |>) (tail_ t) (relink (head_ t) [] (hooks s)))).
  destruct (qmove_seg s q t [] l [] c' t') as [Hmv Hsr]; [by rewrite app_nil_r|done| | | |done|].
  - intros p Hp. unfold c'. rewrite !lookup_alter_ne; [done|by intros <-|intros <-; apply Hp; left].
  - destruct (relink_dseg (hooks s) [] (head_ t) l []) as [_ Hrm]; [by rewrite app_nil_r|by rewrite app_nil_r|]. unfold c'. apply NoDup_cons in Hn as [_ Hn].
    eapply detach_dseg; [done..|]. eapply dseg_ext; [exact Hrm|]. destruct Hd as [_ Hd]. exact Hd.
  - intros p Hp. unfold c'. do 2 (apply elem_links; [done|]). apply relink_elem, Hel. done.
  - rewrite app_nil_r in Hmv. exists (MkQst c' (<[q := t']> (queues s))), t', (MkSList e (tail_ t) (check_ t) (count_ t)). split; [|split; [done|]; rewrite Ht', Hc; exact Hsr].
    clear Hmv Hsr. unfold pop_all. qstep. rewrite (qr_empty _ _ _ _ Hq), bool_decide_false by done. eapply bind_run; [by apply hook_run|]. rewrite Eh. change (hd_or 0 l) with e. cbn zeta.
    do 5 qstep. rsimpl. rewrite insert_insert_eq. done.
Qed.

Lemma taken_empty s q t : qrep s q t [] → (∀ n, pop_front q n s = Ok (SList_new, s) ∧ pop_back q n s = Ok (SList_new, s)) ∧ pop_all q s = Ok (SList_new, s).
Proof.
  intros Hq. unfold pop_front, pop_back, pop_all. split; [intros n; split|]; (eapply bind_run; [apply queue_run, Hq|]); by rewrite (qr_empty _ _ _ _ Hq).
Qed.

Lemma srep_nil c chk : srep c chk [] SList_new.
Proof. split; try done; [apply NoDup_nil_2|set_solver|set_solver]. Qed.

Lemma last_take_drop_back (k : list ptr) z n : let l := k ++ [z] in let j := (length k - (n - 1))%nat in
  take j k = take (length l - (1 `max` n)) l ∧ drop j k ++ [z] = drop (length l - (1 `max` n)) l.
Proof.
  intros l j. unfold l. rewrite length_app. cbn [length]. replace (length k + 1 - (1 `max` n))%nat with j by (unfold j; lia). rewrite take_app_le, drop_app_le by (unfold j; lia). done.
Qed.

(** The lists that are taken, whatever the queue holds *)
Lemma pop_back_spec s q t l n : qrep s q t l →
  ∃ s' t' sl, pop_back q n s = Ok (sl, s') ∧ qmove (head_ t :: l) s q t s' t' (take (length l - (1 `max` n)) l) ∧
    srep (hooks s') (check_ t) (drop (length l - (1 `max` n)) l) sl.
Proof.
  intros Hq. destruct l as [|z k _] using rev_ind.
  - exists s, t, SList_new. destruct (taken_empty _ _ _ Hq) as [H _]. split_and!; [apply H| |apply srep_nil]. split; try done. by rewrite insert_id by apply Hq.
  - destruct (pop_back_run _ _ _ _ _ n Hq) as (s' & t' & sl & H). exists s', t', sl. destruct (last_take_drop_back k z n) as [<- <-]. exact H.
Qed.

Lemma pop_front_spec s q t l n : qrep s q t l →
  ∃ s' t' sl, pop_front q n s = Ok (sl, s') ∧ qmove (head_ t :: l) s q t s' t' (drop (1 `max` n) l) ∧
    srep (hooks s') (check_ t) (take (1 `max` n) l) sl.
Proof.
  intros Hq. destruct l as [|e l].
  - exists s, t, SList_new. destruct (taken_empty _ _ _ Hq) as [H _]. rewrite drop_nil, take_nil. split_and!; [apply H| |apply srep_nil]. split; try done. by rewrite insert_id by apply Hq.
  - destruct (pop_front_run _ _ _ _ _ n Hq) as (s' & t' & sl & H). exists s', t', sl. replace (1 `max` n)%nat with (S (n - 1)) by lia. exact H.
Qed.

Lemma pop_all_spec s q t l : qrep s q t l →
  ∃ s' t' sl, pop_all q s = Ok (sl, s') ∧ qmove (head_ t :: l) s q t s' t' [] ∧ srep (hooks s') (check_ t) l sl.
Proof.
  intros Hq. destruct l as [|e l]; [|by apply pop_all_run].
  exists s, t, SList_new. destruct (taken_empty _ _ _ Hq) as [_ H]. split_and!; [apply H| |apply srep_nil]. split; try done. by rewrite insert_id by apply Hq.
Qed.

Lemma in_take (k : nat) (l : list ptr) p : p ∈ take k l → p ∈ l.
Proof. intros Hp. rewrite <- (take_drop k l). apply elem_of_app. by left. Qed.

Lemma in_drop (k : nat) (l : list ptr) p : p ∈ drop k l → p ∈ l.
Proof. intros Hp. rewrite <- (take_drop k l). apply elem_of_app. by right. Qed.

(** *** Moving half a run queue *)

Lemma StealHalf_run s q q2 t t2 l l2 : qrep s q t l → qrep s q2 t2 l2 → q ≠ q2 → check_ t2 = check_ t →
  NoDup ((head_ t :: l) ++ head_ t2 :: l2) → Z.of_nat (length l + length l2) < 2 ^ 31 →
  let k := (length l / 2)%nat in
  ∃ s' t' t2', StealHalf q q2 s = Ok (Z.of_nat (length l - k), s') ∧ qrep s' q t' (take k l) ∧ qrep s' q2 t2' (l2 ++ drop k l) ∧
    (∀ q', q' ≠ q → q' ≠ q2 → queues s' !! q' = queues s !! q') ∧ (∀ p, p ∉ (head_ t :: l) ++ head_ t2 :: l2 → hooks s' !! p = hooks s !! p).
Proof.
  intros Hq Hq2 Hqq Hchk Hnd Hsz k. apply NoDup_app in Hnd as (N1 & N2 & N3). pose proof Hq as [Hqt _ _ _ _ Hc Hs _].
  set (n := Z.to_nat (u32 (u64 (count_ t + 1) / 2))).
  assert (l ≠ [] → (length l - (1 `max` n))%nat = k) as Ek.
  { intros Hl. assert (length l ≠ 0%nat) by (by destruct l). assert (n = (length l + 1) / 2)%nat as ->.
    { unfold n. rewrite Hc. assert (0 ≤ (Z.of_nat (length l) + 1) / 2 ≤ Z.of_nat (length l) + 1) as Hd.
      { split; [apply Z.div_pos; lia|]. apply Z.div_le_upper_bound; lia. }
      rewrite u64_small, wrap_id by (unfold in_u; lia). apply Nat2Z.inj. rewrite Z2Nat.id by lia. rewrite Nat2Z.inj_div, Nat2Z.inj_add. done. }
    unfold k. pose proof (Nat.div_mod_eq (length l) 2). pose proof (Nat.mod_upper_bound (length l) 2). pose proof (Nat.div_mod_eq (length l + 1) 2). pose proof (Nat.mod_upper_bound (length l + 1) 2). lia. }
  destruct (pop_back_spec _ _ _ _ n Hq) as (s1 & t1 & sl & R1 & M1 & S1). destruct M1 as [Q1 Hh1 Hc1 Hqs1 Hf1].
  assert (qrep s1 q2 t2 l2) as Hq21.
  { eapply qrep_frame; [exact Hq2|rewrite Hqs1, lookup_insert_ne by done; apply Hq2|]. intros p Hp. apply Hf1. intros Hpl. by apply (N2 p Hpl). }
  assert (size_ q s = Ok (count_ t, s)) as Rs by (unfold size_; eapply bind_run; [by apply queue_run|done]).
  destruct (decide (l = [])) as [->|Hl].
  - exists s1, t1, t2. rewrite take_nil, drop_nil in *. rewrite app_nil_r. split_and!; [|done..| |].
    + unfold StealHalf. eapply bind_run; [exact Rs|]. eapply bind_run; [exact R1|]. cbn zeta. by rewrite (sr_count _ _ _ _ S1).
    + intros q' H1 H2. by rewrite Hqs1, lookup_insert_ne.
    + intros p Hp. apply Hf1. intros Hin. apply Hp, elem_of_app. by left.
  - specialize (Ek Hl). rewrite Ek in Q1, S1. assert (k < length l)%nat as Hkl.
    { unfold k. apply Nat.div_lt; [|lia]. destruct l; [done|cbn; lia]. }
    assert (drop k l ≠ []) as Hd0 by (intros E; apply (f_equal length) in E; rewrite length_drop in E; clearbody k; cbn in E; lia).
    destruct (push_list_run s1 q2 t2 l2 (drop k l) sl) as (s2 & t2' & R2 & [Q2 Hh2 Hc2 Hqs2 Hf2]); [done|by rewrite Hchk|done| |rewrite length_app, length_drop in *; lia|].
    { rewrite app_comm_cons. apply NoDup_app. split_and!; [done| |apply S1].
      intros p Hp Hd. apply (N2 p); [|done]. right. by eapply in_drop. }
    exists s2, t1, t2'. split_and!; [| |done| |].
    + unfold StealHalf. eapply bind_run; [exact Rs|]. eapply bind_run; [exact R1|]. cbn zeta. rewrite (sr_count _ _ _ _ S1), length_drop.
      rewrite (proj2 (Z.eqb_neq _ _)) by lia. eapply bind_run; [exact R2|]. done.
    + eapply qrep_frame; [exact Q1|by rewrite Hqs2, lookup_insert_ne by done; apply Q1|]. intros p Hp. apply Hf2. rewrite Hh1 in Hp. intros Hin.
      rewrite app_comm_cons in Hin. apply elem_of_app in Hin as [Hin|Hin].
      * apply (N2 p); [|done]. apply elem_of_cons in Hp as [->|Hp]; [left|right]. by eapply in_take.
      * apply NoDup_cons in N1 as [N1 N1']. apply elem_of_cons in Hp as [->|Hp]; [apply N1; by eapply in_drop|]. rewrite <- (take_drop k l) in N1'. apply NoDup_app in N1' as (_ & N1' & _). by eapply N1'.
    + intros q' H1 H2. by rewrite Hqs2, lookup_insert_ne, Hqs1, lookup_insert_ne.
    + intros p Hp. rewrite Hf2, Hf1; [done|intros Hin; apply Hp, elem_of_app; by left|]. intros Hin. rewrite app_comm_cons in Hin. apply elem_of_app in Hin as [Hin|Hin]; apply Hp, elem_of_app; [by right|].
      left. right. by eapply in_drop.
Qed.

(** *** Giving a list up *)

Lemma SList_erase_run s chk e rest sl : srep (hooks s) chk (e :: rest) sl → Z.of_nat (length (e :: rest)) < 2 ^ 31 →
  ∃ s' sl', SList_erase sl e s = Ok ((hd_or 0 rest, sl'), s') ∧ srep (hooks s') chk rest sl' ∧ hooks s' !! e = Some (MkHook 0 0 0 (R e)) ∧
    queues s' = queues s ∧ (∀ p, p ∉ e :: rest → hooks s' !! p = hooks s !! p).
Proof.
  intros [Sh St Sc Sk Sn S0 Sd Se] Hsz. assert (e ≠ 0) as He0 by (intros ->; set_solver). destruct Sd as [(x & Hx & Ep & En) Sd].
  destruct (Se e) as (x' & Hx' & _ & HR & Hr); [left|]. rewrite Hx in Hx'. injection Hx' as <-. apply NoDup_cons in Sn as [Her Sn]. cbn in Sh.
  assert (is_Some (hooks s !! e)) as Hle by eauto. assert (u64 (sl_count sl - 1) = Z.of_nat (length rest)) as Eu by (rewrite Sc; cbn [length] in *; rewrite u64_small; lia).
  destruct rest as [|e2 rest].
  - exists (MkQst (unlinked e (hooks s)) (queues s)), (MkSList 0 0 (sl_check sl) 0). split_and!; [| |cbn [hooks]; by erewrite unlinked_self, Hr, Z.add_simpl_r by done|done|].
    + unfold SList_erase. eapply bind_run; [by apply hook_run|]. rewrite Ep, En. cbn [hd_or default head negb Z.eqb]. eapply bind_run; [eapply bind_run; [apply hook_run; [by rewrite Sh|by rewrite Sh]|done]|].
      rewrite En. cbn in St. eapply bind_run; [eapply bind_run; [apply hook_run; [by rewrite St|cbn [sl_tail]; by rewrite St]|done]|]. rewrite Ep. do 2 qstep.
      eapply bind_run; [eapply unref_run; [done| |]; rsimpl; [by rewrite !lookup_alter_eq, Hx|unfold set; cbn; lia]|]. cbn [sl_head sl_tail sl_check sl_count]. rewrite Eu. done.
    + split; try done; set_solver.
    + intros p Hp. apply unlinked_other. intros ->. set_solver.
  - assert (e2 ≠ 0) as He20 by (intros ->; set_solver). assert (is_Some (hooks s !! e2)) as Hle2 by (eapply dseg_live; [exact Sd|left]). assert (e ≠ e2) as Hee by set_solver.
    exists (MkQst (unlinked e (alter (fun x => x <| h_prev := 0 |>) e2 (hooks s))) (queues s)), (MkSList e2 (sl_tail sl) (sl_check sl) (Z.of_nat (length (e2 :: rest)))).
    split_and!; [| | |done|].
    + unfold SList_erase. eapply bind_run; [by apply hook_run|]. rewrite Ep, En. change (hd_or 0 (e2 :: rest)) with e2. change (0 =? 0) with true. rewrite (proj2 (Z.eqb_neq _ _) He20). cbn [negb].
      eapply bind_run; [eapply bind_run; [apply hook_run; [by rewrite Sh|by rewrite Sh]|done]|]. eapply bind_run; [qstep; done|]. do 2 qstep.
      eapply bind_run; [eapply unref_run; [done| |]; rsimpl; [by rewrite !lookup_alter_eq, lookup_alter_ne, Hx|unfold set; cbn; lia]|]. cbn [sl_head sl_tail sl_check sl_count]. rewrite Eu, En. done.
    + apply NoDup_cons in Sn as [Sn2 Sn3]. split; cbn [sl_head sl_tail sl_check sl_count]; try done.
      * intros _. by apply Sk.
      * by apply NoDup_cons.
      * set_solver.
      * eapply dseg_ext; [|eapply dseg_prev; [exact Sn2|exact Sd]]. intros p Hp. apply unlinked_other. intros ->. done.
      * intros p Hp. unfold elem_ok. cbn [hooks]. rewrite unlinked_other by (intros ->; done). apply (elem_links _ _ _ _ _ (links_prev 0)). apply Se. by right.
    + cbn [hooks]. erewrite unlinked_self, Hr, Z.add_simpl_r by (by rewrite lookup_alter_ne). done.
    + intros p Hp. cbn [hooks]. rewrite unlinked_other, lookup_alter_ne; [done| |]; intros ->; set_solver.
Qed.

Lemma clear_loop_run chk m : ∀ fuel s sl, srep (hooks s) chk m sl → (length m < fuel)%nat → Z.of_nat (length m) < 2 ^ 31 →
  ∃ s', clear_loop fuel (hd_or 0 m) sl s = Ok (SList_new, s') ∧ (∀ p, p ∈ m → hooks s' !! p = Some (MkHook 0 0 0 (R p))) ∧
    queues s' = queues s ∧ (∀ p, p ∉ m → hooks s' !! p = hooks s !! p).
Proof.
  induction m as [|e m IH]; intros [|fuel] s sl Hs Hf Hsz; try (cbn in Hf; lia); [exists s; split_and!; [done|set_solver|done..]|].
  assert (e ≠ 0) as He0 by (intros ->; apply (sr_null _ _ _ _ Hs); left). pose proof (sr_nodup _ _ _ _ Hs) as [Hem _]%NoDup_cons.
  destruct (SList_erase_run _ _ _ _ _ Hs Hsz) as (s1 & sl1 & R1 & S1 & He1 & Hq1 & Hf1). cbn [length] in *.
  destruct (IH fuel s1 sl1 S1) as (s2 & R2 & Hm2 & Hq2 & Hf2); [lia..|]. exists s2. split_and!.
  - cbn [clear_loop]. change (hd_or 0 (e :: m)) with e. rewrite (proj2 (Z.eqb_neq _ _) He0). eapply bind_run; [exact R1|]. exact R2.
  - intros p [->|Hp]%elem_of_cons; [by rewrite Hf2|by apply Hm2].
  - by rewrite Hq2.
  - intros p Hp. rewrite Hf2, Hf1; [done|done|]. intros Hpm. apply Hp. by right.
Qed.

Lemma live_size (c : gmap ptr hook) m : NoDup m → (∀ p, p ∈ m → is_Some (c !! p)) → (length m ≤ size c)%nat.
Proof.
  intros Hn Hl. rewrite <- (size_list_to_set (C := gset ptr) m Hn), <- size_dom. apply subseteq_size. intros p Hp%elem_of_list_to_set. by apply elem_of_dom, Hl.
Qed.

Lemma SList_clear_run s chk m sl : srep (hooks s) chk m sl → Z.of_nat (length m) < 2 ^ 31 →
  ∃ s', SList_clear sl s = Ok (SList_new, s') ∧ (∀ p, p ∈ m → hooks s' !! p = Some (MkHook 0 0 0 (R p))) ∧
    queues s' = queues s ∧ (∀ p, p ∉ m → hooks s' !! p = hooks s !! p).
Proof.
  intros Hs Hsz. destruct (clear_loop_run chk m (S (size (hooks s))) s sl Hs) as (s' & Run & H); [|done|].
  - pose proof (live_size (hooks s) m (sr_nodup _ _ _ _ Hs)) as Hl. specialize (Hl (fun p Hp => dseg_live _ _ _ _ _ (sr_links _ _ _ _ Hs) Hp)). lia.
  - exists s'. split; [|done]. unfold SList_clear. eapply bind_run; [done|]. by rewrite (sr_head _ _ _ _ Hs).
Qed.

(** *** Deleting a queue *)

Lemma queue_destroy_run q h l : ∀ fuel s t nx, queues s !! q = Some t → head_ t = h → tail_ t = last_or h l → NoDup (h :: l) → 0 ∉ h :: l →
  dseg (hooks s) 0 (h :: l) nx → (∀ p, p ∈ l → elem_ok (hooks s) (check_ t) p) → (length l < fuel)%nat →
  ∃ s' t', destroy_loop fuel q s = Ok (tt, s') ∧ queues s' = <[q := t']> (queues s) ∧ head_ t' = h ∧
    (∀ p, p ∈ l → ∃ x, hooks s' !! p = Some x ∧ reference_ x = R p) ∧ (∀ p, p ∉ l → hooks s' !! p = hooks s !! p).
Proof.
  induction l as [|z l IH] using rev_ind; intros [|fuel] s t nx Hq Hh Ht Hn H0 Hd He Hf; try (rewrite ?length_app in Hf; cbn in Hf; lia).
  - exists s, t. cbn [destroy_loop]. split_and!; [eapply bind_run; [by apply queue_run|]; cbn in Ht; by rewrite Hh, Ht, Z.eqb_refl|by rewrite insert_id|done|set_solver|done].
  - rewrite last_or_snoc in Ht. rewrite app_comm_cons in Hn, H0, Hd. apply NoDup_app in Hn as (N1 & N2 & _). assert (z ∉ h :: l) as Hz by (intros Hz; apply (N2 z Hz); left).
    assert (z ≠ 0) as Hz0 by (intros ->; apply H0, elem_of_app; right; left). apply dseg_app in Hd as [Hd [(x & Hx & Ep & _) _]]. rewrite last_or_cons in Ep.
    destruct (He z) as (x' & Hx' & _ & HR & Hr); [set_solver|]. rewrite Hx in Hx'. injection Hx' as <-.
    set (c1 := alter (fun x => x <| reference_ ::= Z.pred |>) z (hooks s)). set (t1 := t <| tail_ := last_or h l |>).
    destruct (IH fuel (MkQst c1 (<[q := t1]> (queues s))) t1 z) as (s2 & t2 & R2 & Hq2 & Hh2 & Hl2 & Hf2); [apply lookup_insert_eq|done..| |by apply dseg_out| |rewrite length_app in Hf; cbn in Hf; lia|].
    { intros Hin. apply H0, elem_of_app. by left. }
    { intros p Hp. apply elem_out; [intros ->; apply Hz; by right|]. apply He. set_solver. }
    exists s2, t2. split_and!.
    + cbn [destroy_loop]. eapply bind_run; [by apply queue_run|]. rewrite Hh, Ht. rewrite (proj2 (Z.eqb_neq _ _)) by (intros ->; apply Hz; left).
      eapply bind_run; [by apply hook_run|]. eapply bind_run; [eapply unref_run; [done..|lia]|]. rewrite Ep. eapply bind_run; [by eapply set_queue_run|]. exact R2.
    + rewrite Hq2. cbn [queues]. apply insert_insert_eq.
    + done.
    + intros p [Hp| ->%list_elem_of_singleton]%elem_of_app; [by apply Hl2|]. rewrite Hf2 by (intros Hin; apply Hz; by right). cbn [hooks]. unfold c1. rewrite lookup_alter_eq, Hx.
      eexists. split; [done|]. unfold set; cbn. lia.
    + intros p Hp. rewrite Hf2 by set_solver. unfold c1. cbn [hooks]. rewrite lookup_alter_ne; [done|]. intros ->. set_solver.
Qed.

Lemma TSQueue_delete_run s q t l : qrep s q t l →
  ∃ s', TSQueue_delete q s = Ok (tt, s') ∧ queues s' = delete q (queues s) ∧ hooks s' !! head_ t = None ∧
    (∀ p, p ∈ l → ∃ x, hooks s' !! p = Some x ∧ reference_ x = R p) ∧ (∀ p, p ∉ head_ t :: l → hooks s' !! p = hooks s !! p).
Proof.
  intros Hq. pose proof Hq as [Hqt Hn H0 Hd Ht Hc Hs Hel]. pose proof (live_size (hooks s) (head_ t :: l) Hn (fun p Hp => dseg_live _ _ _ _ _ Hd Hp)) as Hsz. cbn [length] in Hsz.
  destruct (queue_destroy_run q (head_ t) l (S (size (hooks s))) s t 0) as (s1 & t1 & R1 & Hq1 & Hh1 & Hl1 & Hf1); [done..|lia|].
  pose proof Hn as [Hhl _]%NoDup_cons. destruct (qr_head _ _ _ _ Hq) as [Hh0 [h Hlh]].
  eexists. split_and!.
  - unfold TSQueue_delete. eapply bind_run; [done|]. eapply bind_run; [exact R1|]. eapply bind_run; [apply queue_run; by rewrite Hq1, lookup_insert_eq|]. rewrite Hh1.
    eapply bind_run; [apply hook_run; [done|by rewrite Hf1]|]. unfold modify. reflexivity.
  - rsimpl. rewrite Hq1. by rewrite delete_insert_eq.
  - rsimpl. apply lookup_delete_eq.
  - intros p Hp. rsimpl. rewrite lookup_delete_ne by (intros E; apply Hhl; by rewrite E). by apply Hl1.
  - intros p Hp. rsimpl. rewrite lookup_delete_ne, Hf1; [done|set_solver..].
Qed.

End counts.

End TsQueue.
