(* ===== verification/TsQueueProps.v ===== *)
(** * Task queues of libgo: what they promise

    A client of one TSQueue and of the SList it takes elements out with: any sequence of
    operations behaves as operations on two lists, and gives back every reference.
    StealHalf moves the back half of one run queue behind another. *)

From S2P Require Import Prelude TsQueue.
From stdpp Require Import base gmap list strings.
From Stdlib Require Import ZArith Lia.

Open Scope Z_scope.

Module TsQueueProps.

Import TsQueue.

(** ** A client *)

Inductive qop :=
| OpPush (e : ptr)      (* queue.push(e) *)
| OpPop                 (* queue.pop() *)
| OpErase (e : ptr)     (* queue.erase(e) *)
| OpSize                (* queue.size() *)
| OpEmpty               (* queue.empty() *)
| OpFront (n : nat)     (* list = queue.pop_front(n) *)
| OpBack (n : nat)      (* list = queue.pop_back(n) *)
| OpAll                 (* list = queue.pop_all() *)
| OpPut                 (* queue.push(std::move(list)) *)
| OpClear               (* list.clear() *)
| OpIter.               (* for (auto & e : list) *)

Inductive qval := VUnit | VPtr (p : ptr) | VBool (b : bool) | VSize (n : Z) | VList (l : list ptr).

(** The iterator of [SList]: [++] follows [next], [end()] is null. *)
Fixpoint iter_loop (fuel : nat) (it : ptr) : M qst (list ptr) :=
  match fuel with
  | O => fail_with OutOfFuel
  | S fuel' =>
    if it =? 0 then mret [] else
    x ← hook_at it;
    l ← iter_loop fuel' (h_next x);
    mret (it :: l)
  end.

Definition SList_iter (l : slist) : M qst (list ptr) :=
  fuel ← gets (fun s => S (size (hooks s)));
  iter_loop fuel (sl_head l).

(** [SList& operator=(SList<T>&&)] *)
Definition SList_assign (l other : slist) : M qst slist :=
  _ ← SList_clear l;
  mret other.

Definition cstep (q : Z) (o : qop) (l : slist) : M qst (qval * slist) :=
  match o with
  | OpPush e => _ ← push q e; mret (VUnit, l)
  | OpPop => p ← pop q; mret (VPtr p, l)
  | OpErase e => b ← erase q e; mret (VBool b, l)
  | OpSize => n ← size_ q; mret (VSize n, l)
  | OpEmpty => b ← empty q; mret (VBool b, l)
  | OpFront n => other ← pop_front q n; l ← SList_assign l other; mret (VSize (sl_count l), l)
  | OpBack n => other ← pop_back q n; l ← SList_assign l other; mret (VSize (sl_count l), l)
  | OpAll => other ← pop_all q; l ← SList_assign l other; mret (VSize (sl_count l), l)
  | OpPut => _ ← push_list q l; mret (VUnit, if sl_head l =? 0 then l else SList_new)
  | OpClear => l ← SList_clear l; mret (VUnit, l)
  | OpIter => es ← SList_iter l; mret (VList es, l)
  end.

Fixpoint crun (q : Z) (ops : list qop) (l : slist) : M qst (list qval * slist) :=
  match ops with
  | [] => mret ([], l)
  | o :: ops =>
    '(v, l) ← cstep q o l;
    '(vs, l) ← crun q ops l;
    mret (v :: vs, l)
  end.

(** A session: the queue and the list are created and, at the end, destroyed. *)
Definition session (q : Z) (h chk : ptr) (ops : list qop) : M qst (list qval) :=
  _ ← TSQueue_new q h chk;
  '(vs, l) ← crun q ops SList_new;
  _ ← SList_clear l;
  _ ← TSQueue_delete q;
  mret vs.

(** ** The specification: two lists *)

Definition lists : Type := list ptr * list ptr.

Definition take_n (n : nat) : nat := (1 `max` n)%nat.

Definition astep (o : qop) (a : lists) : qval * lists :=
  let '(l, m) := a in
  match o with
  | OpPush e => (VUnit, (l ++ [e], m))
  | OpPop => (VPtr (hd_or 0 l), (tail l, m))
  | OpErase e => (VBool (bool_decide (e ∈ l)), (filter (fun p => p ≠ e) l, m))
  | OpSize => (VSize (Z.of_nat (length l)), a)
  | OpEmpty => (VBool (bool_decide (l = [])), a)
  | OpFront n => (VSize (Z.of_nat (length (take (take_n n) l))), (drop (take_n n) l, take (take_n n) l))
  | OpBack n => let k := (length l - take_n n)%nat in (VSize (Z.of_nat (length (drop k l))), (take k l, drop k l))
  | OpAll => (VSize (Z.of_nat (length l)), ([], l))
  | OpPut => (VUnit, (l ++ m, []))
  | OpClear => (VUnit, (l, []))
  | OpIter => (VList m, a)
  end.

Fixpoint arun (ops : list qop) (a : lists) : list qval * lists :=
  match ops with
  | [] => ([], a)
  | o :: ops => let '(v, a) := astep o a in let '(vs, a) := arun ops a in (v :: vs, a)
  end.

(** An element is pushed when it is in neither list, and [erase] is not asked for an
    element that was taken out and is still in the list. *)
Definition allowed (U : list ptr) (o : qop) (a : lists) : bool :=
  match o with
  | OpPush e => bool_decide (e ∈ U) && negb (bool_decide (e ∈ a.1 ++ a.2))
  | OpErase e => bool_decide (e ∈ U) && negb (bool_decide (e ∈ a.2))
  | _ => true
  end.

Fixpoint allowed_all (U : list ptr) (ops : list qop) (a : lists) : bool :=
  match ops with
  | [] => true
  | o :: ops => allowed U o a && allowed_all U ops (astep o a).2
  end.

(** [erase] trusts the mark of the element, which [pop_back] leaves: it takes an element
    that is no longer in the queue, miscounts the queue, and the reference it drops is
    one too many: the element is freed while its owner still has it. *)
Example erase_taken :
  match session 1 11 9 [OpPush 101; OpPush 102; OpPush 103; OpBack 1; OpErase 103; OpSize; OpClear; OpPop; OpPop; OpPop] qst0 with
  | Ok (vs, s) => vs = [VUnit; VUnit; VUnit; VSize 1; VBool true; VSize 1; VUnit; VPtr 101; VPtr 102; VPtr 0] ∧ hooks s !! 103 = None
  | Bad _ => False
  end.
Proof. vm_compute. split; reflexivity. Qed.
(** ** The simulation *)

Section simulation.

(** The elements, and the references to each that the client holds. *)
Context (U : list ptr) (R : ptr → Z) (h : ptr).
Context (U_small : Z.of_nat (length U) < 2 ^ 31) (U_null : 0 ∉ U) (R_pos : ∀ e, e ∈ U → 1 ≤ R e).

Definition idle (s : qst) (t : queue) (e : ptr) : Prop :=
  ∃ x, hooks s !! e = Some x ∧ h_check x ≠ check_ t ∧ reference_ x = R e.

Record sim (q : Z) (s : qst) (sl : slist) (a : lists) (t : queue) : Prop := {
  si_queue : qrep R s q t a.1;
  si_list : srep R (hooks s) (check_ t) a.2 sl;
  si_nodup : NoDup (a.1 ++ a.2);
  si_sub p : p ∈ a.1 ++ a.2 → p ∈ U;
  si_head : head_ t ∉ U;
  si_check : check_ t ≠ 0;
  si_idle e : e ∈ U → e ∉ a.1 ++ a.2 → idle s t e;
  si_sentinel : head_ t = h;
}.

Lemma sim_small q s sl a t : sim q s sl a t → Z.of_nat (length (a.1 ++ a.2)) < 2 ^ 31.
Proof.
  intros [_ _ Hn Hs _ _ _ _]. eapply Z.le_lt_trans; [|exact U_small]. apply inj_le. apply submseteq_length, NoDup_submseteq; [done|]. intros p. apply Hs.
Qed.

Lemma sim_disj q s sl l m t p : sim q s sl (l, m) t → p ∈ m → p ∉ head_ t :: l.
Proof.
  intros [_ _ Hn Hs Hh _ _ _] Hp [->|Hpl]%elem_of_cons; cbn in *; [apply Hh, Hs, elem_of_app; by right|]. apply NoDup_app in Hn as (_ & Hn & _). by eapply Hn.
Qed.

Lemma sim_push q s sl l m t e : sim q s sl (l, m) t → allowed U (OpPush e) (l, m) = true →
  ∃ s' t', push q e s = Ok (tt, s') ∧ sim q s' sl (l ++ [e], m) t'.
Proof.
  intros Hsim [He Hel]%andb_prop. apply bool_decide_eq_true in He. apply negb_true_iff, bool_decide_eq_false in Hel. cbn [fst snd] in Hel.
  pose proof (sim_small _ _ _ _ _ Hsim) as Hsz. pose proof Hsim as [Hq Hl Hn Hs Hh Hc Hi Hhd]. cbn [fst snd] in *. destruct (Hi e He Hel) as (x & Hx & Hxc & Hxr).
  assert (NoDup ((l ++ [e]) ++ m)) as Hn' by (rewrite <- app_assoc; cbn; rewrite <- Permutation_middle; by apply NoDup_cons).
  assert (Z.of_nat (length l) + 1 < 2 ^ 31) as Hl1.
  { eapply Z.le_lt_trans; [|exact U_small]. enough (length ((l ++ [e]) ++ m) ≤ length U)%nat as H by (rewrite !length_app in H; cbn in H; lia).
    apply submseteq_length, NoDup_submseteq; [done|]. intros p Hp. apply elem_of_app in Hp as [[Hp| ->%list_elem_of_singleton]%elem_of_app|Hp]; [apply Hs|done|apply Hs]; set_solver. }
  destruct (queue_push_run R s q t l e x) as (s' & t' & Rp & [Q' Hh' Hc' _ Hf'] & _); try done; [intros [->|Hin]%elem_of_cons; [done|set_solver]|set_solver|by apply R_pos|].
  exists s', t'. split; [exact Rp|]. split; cbn [fst snd]; rewrite ?Hh', ?Hc'; try done.
  - eapply srep_frame; [exact Hl|]. intros p Hp. apply Hf'. intros [->|Hin]%elem_of_cons; [set_solver|by eapply sim_disj].
  - intros p Hp. apply elem_of_app in Hp as [[Hp| ->%list_elem_of_singleton]%elem_of_app|Hp]; [apply Hs|done|apply Hs]; set_solver.
  - intros p Hp Hnp. unfold idle. rewrite Hf', Hc'; [apply Hi; set_solver|]. intros [->|[->|Hin]%elem_of_cons]%elem_of_cons; [set_solver|done|set_solver].
Qed.

(** An element leaves the queue for no list. *)
Lemma sim_leave q s sl l1 e l2 m t s' t' : sim q s sl (l1 ++ e :: l2, m) t → qmove R (head_ t :: l1 ++ e :: l2) s q t s' t' (l1 ++ l2) →
  hooks s' !! e = Some (MkHook 0 0 0 (R e)) → sim q s' sl (l1 ++ l2, m) t'.
Proof.
  intros Hsim [Q' Hh' Hc' _ Hf'] He. pose proof Hsim as [Hq Hl Hn Hs Hh Hc Hi Hhd]. cbn [fst snd] in *.
  rewrite <- app_assoc in Hn. cbn in Hn. rewrite <- Permutation_middle in Hn. apply NoDup_cons in Hn as [Hen Hn].
  split; cbn [fst snd]; rewrite ?Hh', ?Hc'; try done.
  - eapply srep_frame; [exact Hl|]. intros p Hp. apply Hf'. by eapply sim_disj.
  - by rewrite <- app_assoc.
  - intros p Hp. apply Hs. set_solver.
  - intros p Hp Hnp. destruct (decide (p = e)) as [->|Hpe]; [exists (MkHook 0 0 0 (R e)); split_and!; [done|cbn; congruence|done]|].
    unfold idle. rewrite Hf', Hc'; [apply Hi; set_solver|]. intros [->|Hin]%elem_of_cons; [done|set_solver].
Qed.

Lemma sim_pop q s sl l m t : sim q s sl (l, m) t → ∃ s' t', pop q s = Ok (hd_or 0 l, s') ∧ sim q s' sl (tail l, m) t'.
Proof.
  intros Hsim. destruct l as [|e l].
  - exists s, t. split; [apply (pop_empty R _ _ t), Hsim|done].
  - destruct (pop_run R s q t e l) as (s' & t' & Rp & Hm & He); [apply Hsim|]. exists s', t'. split; [exact Rp|]. by eapply (sim_leave _ _ _ []).
Qed.

Lemma filter_ne_out e (l : list ptr) : e ∉ l → filter (fun p => p ≠ e) l = l.
Proof. induction l as [|p l IH]; intros He; [done|]. rewrite filter_cons_True by set_solver. f_equal. apply IH. set_solver. Qed.

Lemma sim_erase q s sl l m t e : sim q s sl (l, m) t → allowed U (OpErase e) (l, m) = true →
  ∃ s' t', erase q e s = Ok (bool_decide (e ∈ l), s') ∧ sim q s' sl (filter (fun p => p ≠ e) l, m) t'.
Proof.
  intros Hsim [He Hem]%andb_prop. apply bool_decide_eq_true in He. apply negb_true_iff, bool_decide_eq_false in Hem. cbn [fst snd] in Hem. case_bool_decide as Hel.
  - apply list_elem_of_split in Hel as (l1 & l2 & ->). destruct (queue_erase_run R s q t l1 e l2) as (s' & t' & Rp & Hm & Hx); [apply Hsim|]. exists s', t'. split; [exact Rp|].
    pose proof (si_nodup _ _ _ _ _ Hsim) as ((_ & N2 & [N3 _]%NoDup_cons)%NoDup_app & _)%NoDup_app.
    rewrite filter_app, filter_cons_False, !filter_ne_out by (set_solver || (intros H; by apply H)). by eapply sim_leave.
  - exists s, t. destruct (si_idle _ _ _ _ _ Hsim e He) as (x & Hx & Hc & _); [cbn; set_solver|]. rewrite filter_ne_out by done. split; [|done].
    eapply (erase_absent R); [apply Hsim| |done|done]. intros ->. done.
Qed.

(** A list is taken and assigned to the one the client has. *)
Lemma sim_take q s sl l m t l' m' s1 t1 sl1 : sim q s sl (l, m) t → l ≡ₚ l' ++ m' → qmove R (head_ t :: l) s q t s1 t1 l' → srep R (hooks s1) (check_ t) m' sl1 →
  ∃ s', SList_assign sl sl1 s1 = Ok (sl1, s') ∧ sim q s' sl1 (l', m') t1.
Proof.
  intros Hsim Hp [Q1 Hh1 Hc1 Hqs1 Hf1] Hs1. pose proof Hsim as [Hq Hl Hn Hs Hh Hc Hi Hhd]. cbn [fst snd] in *. pose proof (sim_small _ _ _ _ _ Hsim) as Hsz. cbn [fst snd] in Hsz. rewrite length_app in Hsz.
  assert (srep R (hooks s1) (check_ t) m sl) as Hm1 by (eapply srep_frame; [exact Hl|]; intros p Hpm; apply Hf1; by eapply sim_disj).
  destruct (SList_clear_run R s1 (check_ t) m sl Hm1) as (s2 & R2 & Hm2 & Hqs2 & Hf2); [lia|].
  assert (∀ p, p ∈ head_ t :: l → hooks s2 !! p = hooks s1 !! p) as Hf3 by (intros p Hpl; apply Hf2; intros Hpm; by eapply sim_disj).
  exists s2. split; [unfold SList_assign; eapply bind_run; [exact R2|done]|]. split; cbn [fst snd]; rewrite ?Hh1, ?Hc1; try done.
  - eapply qrep_frame; [exact Q1|rewrite Hqs2; apply Q1|]. intros p Hpl. apply Hf3. rewrite Hh1 in Hpl. rewrite Hp. set_solver.
  - eapply srep_frame; [exact Hs1|]. intros p Hpl. apply Hf3. rewrite Hp. set_solver.
  - rewrite <- Hp. by apply NoDup_app in Hn as [Hn _].
  - intros p Hpl. apply Hs, elem_of_app. left. by rewrite Hp.
  - intros p HpU Hpl. rewrite <- Hp in Hpl. destruct (decide (p ∈ m)) as [Hpm|Hpm].
    + exists (MkHook 0 0 0 (R p)). rewrite Hm2 by done. split_and!; [done|cbn; congruence|done].
    + unfold idle. rewrite Hf2, Hf1, Hc1; [apply Hi; set_solver| |done]. intros [->|Hin]%elem_of_cons; [done|set_solver].
Qed.

Lemma sim_put q s sl l m t : sim q s sl (l, m) t →
  ∃ s' t', push_list q sl s = Ok (tt, s') ∧ sim q s' (if sl_head sl =? 0 then sl else SList_new) (l ++ m, []) t'.
Proof.
  intros Hsim. pose proof Hsim as [Hq Hl Hn Hs Hh Hc Hi Hhd]. cbn [fst snd] in *. pose proof (sim_small _ _ _ _ _ Hsim) as Hsz. cbn [fst snd] in Hsz. destruct (decide (m = [])) as [->|Hm].
  - exists s, t. unfold push_list. pose proof (sr_head _ _ _ _ _ Hl) as E. cbn in E. rewrite E. cbn [Z.eqb]. rewrite app_nil_r. done.
  - destruct (push_list_run R s q t l m sl) as (s' & t' & Rp & [Q' Hh' Hc' _ Hf']); [done..| |done|].
    { apply NoDup_cons. split; [|done]. intros Hin. by apply Hh, Hs. }
    exists s', t'. split; [exact Rp|]. assert ((sl_head sl =? 0) = false) as ->.
    { apply Z.eqb_neq. rewrite (sr_head _ _ _ _ _ Hl). destruct m as [|e m]; [done|]. cbn. intros ->. apply U_null, Hs. set_solver. }
    split; cbn [fst snd]; rewrite ?Hh', ?Hc', ?app_nil_r; try done; [apply srep_nil|]. intros p Hp Hpl. unfold idle. rewrite Hf', Hc'; [by apply Hi|].
    intros [->|Hin]%elem_of_cons; done.
Qed.

Lemma sim_clear q s sl l m t : sim q s sl (l, m) t → ∃ s', SList_clear sl s = Ok (SList_new, s') ∧ sim q s' SList_new (l, []) t.
Proof.
  intros Hsim. pose proof (sim_small _ _ _ _ _ Hsim) as Hsz. pose proof Hsim as [Hq Hl Hn Hs Hh Hc Hi Hhd]. cbn [fst snd] in *. rewrite length_app in Hsz.
  destruct (SList_clear_run R s (check_ t) m sl Hl) as (s2 & R2 & Hm2 & Hqs2 & Hf2); [lia|]. exists s2. split; [exact R2|].
  split; cbn [fst snd]; rewrite ?app_nil_r; try done.
  - eapply qrep_frame; [exact Hq|rewrite Hqs2; apply Hq|]. intros p Hp. apply Hf2. intros Hpm. by eapply sim_disj.
  - apply srep_nil.
  - by apply NoDup_app in Hn as [Hn _].
  - intros p Hp. apply Hs. set_solver.
  - intros p HpU Hpl. destruct (decide (p ∈ m)) as [Hpm|Hpm].
    + exists (MkHook 0 0 0 (R p)). rewrite Hm2 by done. split_and!; [done|cbn; congruence|done].
    + unfold idle. rewrite Hf2 by done. apply Hi; set_solver.
Qed.

Lemma iter_loop_run s : ∀ m pv fuel, dseg (hooks s) pv m 0 → 0 ∉ m → (length m < fuel)%nat → iter_loop fuel (hd_or 0 m) s = Ok (m, s).
Proof.
  induction m as [|e m IH]; intros pv [|fuel] Hd H0 Hf; try (cbn in Hf; lia); [done|]. destruct Hd as [(x & Hx & _ & Hnx) Hd]. cbn [iter_loop]. change (hd_or 0 (e :: m)) with e.
  assert (e ≠ 0) as He by (intros ->; set_solver). rewrite (proj2 (Z.eqb_neq _ _) He). eapply bind_run; [by apply hook_run|]. rewrite Hnx.
  eapply bind_run; [eapply IH; [exact Hd|set_solver|cbn in Hf; lia]|]. done.
Qed.

Lemma SList_iter_run q s sl l m t : sim q s sl (l, m) t → SList_iter sl s = Ok (m, s).
Proof.
  intros [_ Hl _ _ _ _ _ _]. cbn in Hl. unfold SList_iter. eapply bind_run; [done|]. rewrite (sr_head _ _ _ _ _ Hl).
  eapply iter_loop_run; [apply Hl|apply Hl|]. pose proof (live_size (hooks s) m (sr_nodup _ _ _ _ _ Hl) (fun p Hp => dseg_live _ _ _ _ _ (sr_links _ _ _ _ _ Hl) Hp)). lia.
Qed.

Lemma cstep_sim q o s sl a t : sim q s sl a t → allowed U o a = true →
  ∃ s' sl' t', cstep q o sl s = Ok (((astep o a).1, sl'), s') ∧ sim q s' sl' (astep o a).2 t'.
Proof.
  intros Hsim Ha. destruct a as [l m]. pose proof Hsim as [Hq _ _ _ _ _ _ _]. cbn [fst] in Hq. destruct o as [e| |e| | |n|n| | | |]; cbn [cstep astep fst snd].
  - destruct (sim_push _ _ _ _ _ _ _ Hsim Ha) as (s' & t' & Rp & Hs'). exists s', sl, t'. split; [|done]. by eapply bind_run; [exact Rp|].
  - destruct (sim_pop _ _ _ _ _ _ Hsim) as (s' & t' & Rp & Hs'). exists s', sl, t'. split; [|done]. by eapply bind_run; [exact Rp|].
  - destruct (sim_erase _ _ _ _ _ _ _ Hsim Ha) as (s' & t' & Rp & Hs'). exists s', sl, t'. split; [|done]. by eapply bind_run; [exact Rp|].
  - exists s, sl, t. split; [|done]. eapply bind_run; [eapply bind_run; [apply queue_run, Hq|done]|]. by rewrite (qr_count _ _ _ _ _ Hq).
  - exists s, sl, t. split; [|done]. eapply bind_run; [eapply bind_run; [apply queue_run, Hq|done]|]. by rewrite (qr_empty _ _ _ _ _ Hq).
  - destruct (pop_front_spec R s q t l n Hq) as (s1 & t1 & sl1 & R1 & M1 & S1).
    destruct (sim_take _ _ _ _ _ _ (drop (take_n n) l) (take (take_n n) l) s1 t1 sl1 Hsim) as (s' & R2 & Hs'); [by rewrite Permutation_app_comm, take_drop|exact M1|exact S1|].
    exists s', sl1, t1. split; [|done]. eapply bind_run; [exact R1|]. eapply bind_run; [exact R2|]. by rewrite (sr_count _ _ _ _ _ S1).
  - destruct (pop_back_spec R s q t l n Hq) as (s1 & t1 & sl1 & R1 & M1 & S1). set (k := (length l - take_n n)%nat).
    destruct (sim_take _ _ _ _ _ _ (take k l) (drop k l) s1 t1 sl1 Hsim) as (s' & R2 & Hs'); [by rewrite take_drop|exact M1|exact S1|].
    exists s', sl1, t1. split; [|done]. eapply bind_run; [exact R1|]. eapply bind_run; [exact R2|]. by rewrite (sr_count _ _ _ _ _ S1).
  - destruct (pop_all_spec R s q t l Hq) as (s1 & t1 & sl1 & R1 & M1 & S1).
    destruct (sim_take _ _ _ _ _ _ [] l s1 t1 sl1 Hsim) as (s' & R2 & Hs'); [done|exact M1|exact S1|].
    exists s', sl1, t1. split; [|done]. eapply bind_run; [exact R1|]. eapply bind_run; [exact R2|]. by rewrite (sr_count _ _ _ _ _ S1).
  - destruct (sim_put _ _ _ _ _ _ Hsim) as (s' & t' & Rp & Hs'). eexists s', _, t'. split; [|exact Hs']. by eapply bind_run; [exact Rp|].
  - destruct (sim_clear _ _ _ _ _ _ Hsim) as (s' & Rp & Hs'). eexists s', _, t. split; [|exact Hs']. by eapply bind_run; [exact Rp|].
  - exists s, sl, t. split; [|done]. eapply bind_run; [eapply SList_iter_run, Hsim|]. done.
Qed.

Lemma crun_sim q : ∀ ops s sl a t, sim q s sl a t → allowed_all U ops a = true →
  ∃ s' sl' t', crun q ops sl s = Ok (((arun ops a).1, sl'), s') ∧ sim q s' sl' (arun ops a).2 t'.
Proof.
  induction ops as [|o ops IH]; intros s sl a t Hsim Ha; [by exists s, sl, t|]. cbn [allowed_all] in Ha. apply andb_prop in Ha as [Ho Ha]. cbn [crun arun].
  destruct (cstep_sim q o s sl a t Hsim Ho) as (s1 & sl1 & t1 & R1 & S1). destruct (astep o a) as [v a1]. cbn [fst snd] in *.
  destruct (IH _ _ _ _ S1 Ha) as (s2 & sl2 & t2 & R2 & S2). destruct (arun ops a1) as [vs a2]. cbn [fst snd] in *. exists s2, sl2, t2. split; [|done].
  eapply bind_run; [exact R1|]. cbn beta iota. eapply bind_run; [exact R2|]. done.
Qed.

(** The lists a session ends with are destroyed. *)
Lemma close_run {A} q s sl a t (v : A) : sim q s sl a t →
  ∃ s', (_ ← SList_clear sl; _ ← TSQueue_delete q; mret v) s = Ok (v, s') ∧ queues s' !! q = None ∧ hooks s' !! h = None ∧
    ∀ e, e ∈ U → ∃ x, hooks s' !! e = Some x ∧ reference_ x = R e.
Proof.
  intros Hsim. destruct a as [l m]. destruct (sim_clear _ _ _ _ _ _ Hsim) as (s1 & R1 & [Hq Hl Hn Hs Hh Hc Hi Hhd]). cbn [fst snd] in *. rewrite app_nil_r in *.
  destruct (TSQueue_delete_run R s1 q t l Hq) as (s2 & R2 & Hqs2 & Hh2 & Hl2 & Hf2). exists s2. split_and!.
  - eapply bind_run; [exact R1|]. eapply bind_run; [exact R2|]. done.
  - rewrite Hqs2. apply lookup_delete_eq.
  - by rewrite <- Hhd.
  - intros e He. destruct (decide (e ∈ l)) as [Hel|Hel]; [by apply Hl2|]. destruct (Hi e He Hel) as (x & Hx & _ & Hr). exists x. split; [|done]. rewrite Hf2; [done|].
    intros [->|Hin]%elem_of_cons; done.
Qed.

Lemma new_sim q chk s : chk ≠ 0 → h ∉ U → h ≠ 0 → (∀ e, e ∈ U → ∃ x, hooks s !! e = Some x ∧ h_check x = 0 ∧ reference_ x = R e) →
  ∃ s', TSQueue_new q h chk s = Ok (tt, s') ∧ sim q s' SList_new ([], []) (MkQueue h h 0 chk).
Proof.
  intros Hchk HhU Hh0 HU. eexists. split; [reflexivity|]. split; cbn [fst snd app]; try done; [|apply srep_nil|apply NoDup_nil_2|set_solver|].
  - split; cbn [head_ tail_ count_ length]; try done; rsimpl; [apply lookup_insert_eq|apply NoDup_singleton|set_solver| |set_solver]. split; [|done]. exists (MkHook 0 0 0 0). by rewrite lookup_insert_eq.
  - intros e He _. destruct (HU e He) as (x & Hx & Hc & Hr). exists x. rsimpl. rewrite lookup_insert_ne by (intros ->; done). split_and!; [done|cbn; congruence|done].
Qed.

End simulation.

(** ** The properties *)



(** C29: StealHalf moves the last half of the tasks of a processer, rounded up, behind
    those of the thief in their order, keeps the rest, returns how many it moved, and
    does not touch the queues of others. *)
Theorem steal_half R s q q2 t t2 l l2 :
  qrep R s q t l → qrep R s q2 t2 l2 → q ≠ q2 → check_ t2 = check_ t →
  NoDup ((head_ t :: l) ++ head_ t2 :: l2) → Z.of_nat (length l + length l2) < 2 ^ 31 →
  ∃ s' t' t2', StealHalf q q2 s = Ok (Z.of_nat (length l - length l / 2), s') ∧
    qrep R s' q t' (take (length l / 2) l) ∧ qrep R s' q2 t2' (l2 ++ drop (length l / 2) l) ∧
    (∀ q3 t3 l3, q3 ≠ q → q3 ≠ q2 → qrep R s q3 t3 l3 → (∀ p, p ∈ head_ t3 :: l3 → p ∉ (head_ t :: l) ++ head_ t2 :: l2) → qrep R s' q3 t3 l3).
Proof.
  intros Hq Hq2 Hqq Hc Hn Hsz. destruct (StealHalf_run R s q q2 t t2 l l2 Hq Hq2 Hqq Hc Hn Hsz) as (s' & t' & t2' & Run & Q1 & Q2 & Hqs & Hf). exists s', t', t2'. split_and!; try done.
  intros q3 t3 l3 H1 H2 Q3 Hd. eapply qrep_frame; [exact Q3|rewrite Hqs by done; apply Q3|]. intros p Hp. by apply Hf, Hd.
Qed.

(** Two processers, of which the first has three tasks *)
Definition two_procs : qst :=
  MkQst (list_to_map [(11, MkHook 0 101 0 0); (12, MkHook 0 0 0 0); (101, MkHook 11 102 9 2); (102, MkHook 101 103 9 2); (103, MkHook 102 0 9 2)])
    (list_to_map [(1, MkQueue 11 103 3 9); (2, MkQueue 12 12 0 9)]).

Ltac concrete_queue :=
  split; [reflexivity|by apply (bool_decide_unpack _); vm_compute|by apply (bool_decide_unpack _); vm_compute|cbn; split_and?; try done; eexists; split_and!; reflexivity|reflexivity|reflexivity|reflexivity|
    let Hp := fresh in intros p Hp; repeat (apply elem_of_cons in Hp as [->|Hp]; [eexists; split_and!; [reflexivity|reflexivity|lia|reflexivity]|]); by apply elem_of_nil in Hp].

(** Witness of C29. *)
Lemma steal_half_witness : ∃ s' t2', StealHalf 1 2 two_procs = Ok (2, s') ∧ qrep (fun _ => 1) s' 2 t2' [102; 103].
Proof.
  destruct (steal_half (fun _ => 1) two_procs 1 2 (MkQueue 11 103 3 9) (MkQueue 12 12 0 9) [101; 102; 103] []) as (s' & t' & t2' & Run & _ & Q & _).
  - concrete_queue.
  - concrete_queue.
  - discriminate.
  - reflexivity.
  - by apply (bool_decide_unpack _); vm_compute.
  - reflexivity.
  - exists s', t2'. split; [exact Run|exact Q].
Defined.

End TsQueueProps.
