(* ===== verification/CoTimer.v ===== *)
(** * Timers of libgo

    CoTimer and CoTimerMgr of src/trafficRecorder/libgo/timer.h and timer.cpp.  A timer
    has a callback, which runs at most once; a manager keeps the timers by deadline, for
    the system clock and for the steady clock.  Times are in nanoseconds, the duration
    type of Linux.  The callbacks are a parameter: the scheduler of CoSched.v has two.

    The methods run one after another: each holds the lock of the manager, and
    [fn_lock_] is held while a callback runs. *)

From S2P Require Import Prelude.
From stdpp Require Import base gmap list sorting.
From Stdlib Require Import ZArith Lia.

Open Scope Z_scope.

Module CoTimer.

Inductive e_token_state := tok_none | tok_system | tok_steady.

#[export] Instance e_token_state_eq_dec : EqDecision e_token_state.
Proof. solve_decision. Defined.

(** [std::multimap<TimePoint, CoTimerPtr>]: the pairs in order of their time, those of
    the same time in order of insertion.  An iterator is known by its timer. *)
Abbreviation deadlines := (list (Z * Z)).

Fixpoint mm_insert (tp p : Z) (l : deadlines) : deadlines :=
  match l with
  | [] => [(tp, p)]
  | (t, x) :: l' => if tp <? t then (tp, p) :: l else (t, x) :: mm_insert tp p l'
  end.

Definition mm_erase (p : Z) (l : deadlines) : deadlines := filter (fun e => e.2 ≠ p) l.

(** [std::numeric_limits<long long>::max()] *)
Definition llong_max : Z := 2 ^ 63 - 1.

(** [time_point_cast<milliseconds>(tp).time_since_epoch().count()] *)
Definition to_ms (tp : Z) : Z := Z.quot tp 1000000.

Section Timers.
Context {F : Type}.

Record CoTimer := MkTimer {
  fn_ : F;
  active_ : bool;
  fn_lock_ : bool;
  token_state_ : e_token_state;
}.

Record CoTimerMgr := MkMgr {
  s_id : Z;
  timers : gmap Z CoTimer;       (* the timers that exist, by their id *)
  system_deadlines_ : deadlines;
  steady_deadlines_ : deadlines;
  system_next_trigger_time_ : Z; (* milliseconds *)
  steady_next_trigger_time_ : Z;
}.

Definition CoTimerMgr_new : CoTimerMgr := MkMgr 0 ∅ [] [] llong_max llong_max.

End Timers.

Arguments CoTimer : clear implicits.
Arguments CoTimerMgr : clear implicits.

#[export] Instance eta_CoTimer {F} : Eta (CoTimer F) := fun t => MkTimer (fn_ t) (active_ t) (fn_lock_ t) (token_state_ t).
#[export] Instance eta_CoTimerMgr {F} : Eta (CoTimerMgr F) := fun m =>
  MkMgr (s_id m) (timers m) (system_deadlines_ m) (steady_deadlines_ m) (system_next_trigger_time_ m) (steady_next_trigger_time_ m).

Section Operations.
Context {F : Type}.
Abbreviation T := (M (CoTimerMgr F)).

Definition timer_at (p : Z) : T (CoTimer F) := fun m =>
  match timers m !! p with Some t => Ok (t, m) | None => Bad NullDeref end.

Definition set_timer (p : Z) (f : CoTimer F → CoTimer F) : T unit := modify (fun m => m <| timers ::= alter f p |>).

(** [new CoTimer(fn)] *)
Definition CoTimer_new (fn : F) : T Z :=
  modify (fun m => m <| s_id ::= Z.succ |>);;
  p ← gets s_id;
  modify (fun m => m <| timers ::= <[p := MkTimer fn true false tok_none]> |>);;
  mret p.

Definition SetNextTriggerTime_system (tp : Z) : T unit := modify (fun m => m <| system_next_trigger_time_ := to_ms tp |>).
Definition SetNextTriggerTime_steady (tp : Z) : T unit := modify (fun m => m <| steady_next_trigger_time_ := to_ms tp |>).

Definition no_deadlines (m : CoTimerMgr F) : bool :=
  match system_deadlines_ m, steady_deadlines_ m with [], [] => true | _, _ => false end.

Definition ExpireAt_system (tp : Z) (fn : F) : T Z :=
  p ← CoTimer_new fn;
  e ← gets no_deadlines;
  (if e : bool then SetNextTriggerTime_system tp else mret tt);;
  set_timer p (fun t => t <| token_state_ := tok_system |>);;
  modify (fun m => m <| system_deadlines_ ::= mm_insert tp p |>);;
  mret p.

Definition ExpireAt_steady (tp : Z) (fn : F) : T Z :=
  p ← CoTimer_new fn;
  e ← gets no_deadlines;
  (if e : bool then SetNextTriggerTime_steady tp else mret tt);;
  set_timer p (fun t => t <| token_state_ := tok_steady |>);;
  modify (fun m => m <| steady_deadlines_ ::= mm_insert tp p |>);;
  mret p.

(** [ExpireAt(duration, fn)] at the time [now] of the steady clock *)
Definition ExpireAt_duration (now d : Z) (fn : F) : T Z := ExpireAt_steady (now + d) fn.

(** [CoTimer::Cancel] *)
Definition timer_Cancel (p : Z) : T bool :=
  t ← timer_at p;
  if fn_lock_ t then mret false else
  if negb (active_ t) then mret false else
  set_timer p (fun t => t <| active_ := false |>);;
  mret true.

(** [CoTimer::BlockCancel] waits for the lock; when the callback that runs is below on
    the stack, it waits for ever. *)
Definition timer_BlockCancel (p : Z) : T bool :=
  t ← timer_at p;
  if fn_lock_ t then fail_with OutOfFuel else
  if negb (active_ t) then mret false else
  set_timer p (fun t => t <| active_ := false |>);;
  mret true.

(** [__Cancel] *)
Definition erase_token (p : Z) : T unit :=
  t ← timer_at p;
  match token_state_ t with
  | tok_system =>
    modify (fun m => m <| system_deadlines_ ::= mm_erase p |>);;
    set_timer p (fun t => t <| token_state_ := tok_none |>)
  | tok_steady =>
    modify (fun m => m <| steady_deadlines_ ::= mm_erase p |>);;
    set_timer p (fun t => t <| token_state_ := tok_none |>)
  | tok_none => mret tt
  end.

Definition Cancel (p : Z) : T bool :=
  ok ← timer_Cancel p;
  if negb ok then mret false else
  erase_token p;;
  mret true.

Definition BlockCancel (p : Z) : T bool :=
  ok ← timer_BlockCancel p;
  if negb ok then mret false else
  erase_token p;;
  mret true.

(** [CoTimer::operator()] up to the call of the callback, if it is called, and after it. *)
Definition timer_enter (p : Z) : T (option F) :=
  t ← timer_at p;
  if fn_lock_ t then mret None else
  if negb (active_ t) then mret None else
  set_timer p (fun t => t <| active_ := false |> <| fn_lock_ := true |>);;
  mret (Some (fn_ t)).

Definition timer_leave (p : Z) : T unit := set_timer p (fun t => t <| fn_lock_ := false |>).

Definition Size : T Z := gets (fun m => Z.of_nat (length (system_deadlines_ m) + length (steady_deadlines_ m))).

(** The delays until the next deadlines, at the times [sys_now] and [sdy_now] *)
Definition GetNextTriggerTime (sys_now sdy_now : Z) : T Z := gets (fun m =>
  Z.min (Z.max (system_next_trigger_time_ m - to_ms sys_now) 0) (Z.max (steady_next_trigger_time_ m - to_ms sdy_now) 0)).

(** The loop of [GetExpired]: what it takes, what is left, and what is left of [n] *)
Fixpoint expire_loop (now : Z) (n : nat) (l : deadlines) : list Z * deadlines * nat :=
  match l, n with
  | (t, p) :: l', S n' => if now <? t then ([], l, n) else let '(r, l2, n2) := expire_loop now n' l' in (p :: r, l2, n2)
  | _, _ => ([], l, n)
  end.

Fixpoint clear_tokens (ps : list Z) : T unit :=
  match ps with
  | [] => mret tt
  | p :: ps => set_timer p (fun t => t <| token_state_ := tok_none |>);; clear_tokens ps
  end.

(** The clocks are read where the code reads them: [s1], [d1] before the maps are
    walked and [s2], [d2] for the delay. *)
Definition GetExpired (s1 d1 s2 d2 : Z) (n : nat) : T (list Z * Z) :=
  e ← gets no_deadlines;
  if e : bool then mret ([], llong_max) else
  sys ← gets system_deadlines_;
  let '(r1, l1, n1) := expire_loop s1 n sys in
  clear_tokens r1;;
  (match l1 with (t, _) :: _ => SetNextTriggerTime_system t | [] => modify (fun m => m <| system_next_trigger_time_ := llong_max |>) end);;
  modify (fun m => m <| system_deadlines_ := l1 |>);;
  sdy ← gets steady_deadlines_;
  let '(r2, l2, _) := expire_loop d1 n1 sdy in
  clear_tokens r2;;
  (match l2 with (t, _) :: _ => SetNextTriggerTime_steady t | [] => modify (fun m => m <| steady_next_trigger_time_ := llong_max |>) end);;
  modify (fun m => m <| steady_deadlines_ := l2 |>);;
  next ← GetNextTriggerTime s2 d2;
  mret (r1 ++ r2, next).

End Operations.

(** *** Examples *)

Example timers_ex :
  match (a ← ExpireAt_steady 3000000 1; b ← ExpireAt_steady 1000000 2; c ← ExpireAt_system 2000000 3; d ← ExpireAt_steady 1000000 4;
    x ← BlockCancel b; r ← GetExpired 5000000 1500000 5000000 1500000 128; y ← Cancel b; z ← Cancel d; f ← timer_enter d; r2 ← GetExpired 5000000 4000000 5000000 4000000 1;
    mret (r, x, y, z, f, r2)) (CoTimerMgr_new (F := Z)) with Ok (v, _) => Some v | Bad _ => None end =
  Some ([3; 4], 2, true, false, true, None, ([1], llong_max - 5)).
Proof. vm_compute. reflexivity. Qed.

(** ** Lemmas *)

Section Lemmas.
Context {F : Type}.
Implicit Types (m : CoTimerMgr F) (l : deadlines).

Lemma mm_insert_perm tp p l : mm_insert tp p l ≡ₚ (tp, p) :: l.
Proof. induction l as [|[t x] l IH]; cbn; [done|]. destruct (tp <? t); [done|]. rewrite IH. apply Permutation_swap. Qed.

Definition by_time (l : deadlines) : Prop := StronglySorted Z.le l.*1.

Lemma mm_insert_by_time tp p l : by_time l → by_time (mm_insert tp p l).
Proof.
  unfold by_time. induction l as [|[t x] l IH]; cbn [mm_insert]; intros Hs; [repeat constructor|]. cbn in Hs. apply StronglySorted_inv in Hs as [Hs Hf].
  destruct (Z.ltb_spec tp t); cbn [fmap list_fmap fst].
  - constructor; [by constructor|]. constructor; [lia|]. eapply Forall_impl; [exact Hf|]. cbn. lia.
  - constructor; [by apply IH|]. rewrite (mm_insert_perm tp p l). cbn. constructor; [lia|done].
Qed.

Lemma mm_erase_in p e l : e ∈ mm_erase p l ↔ e.2 ≠ p ∧ e ∈ l.
Proof. unfold mm_erase. by rewrite list_elem_of_filter. Qed.

Lemma mm_erase_sorted p l : by_time l → by_time (mm_erase p l).
Proof.
  unfold by_time, mm_erase. induction l as [|e l IH]; intros Hs; [done|]. cbn in Hs. apply StronglySorted_inv in Hs as [Hs Hf].
  destruct (decide (e.2 = p)) as [He|He]; [rewrite filter_cons_False by tauto; by apply IH|]. rewrite filter_cons_True by done. cbn. constructor; [by apply IH|].
  apply Forall_forall. intros t [x [-> Hx]]%list_elem_of_fmap. apply list_elem_of_filter in Hx as [_ Hx]. rewrite Forall_forall in Hf. apply Hf, list_elem_of_fmap. eauto.
Qed.

Lemma by_time_drop k l : by_time l → by_time (drop k l).
Proof. revert k. induction l as [|e l IH]; intros [|k] Hs; try done. cbn. apply IH. unfold by_time in Hs. cbn in Hs. by apply StronglySorted_inv in Hs as [? _]. Qed.

(** [expire_loop] takes due timers from the front, and stops at one that is not due
    unless [n] are taken. *)
Lemma expire_loop_spec now n l : by_time l →
  ∃ k, expire_loop now n l = ((take k l).*2, drop k l, (n - k)%nat) ∧ (k ≤ n)%nat ∧ (k ≤ length l)%nat ∧ (∀ e, e ∈ take k l → e.1 ≤ now) ∧
    ((k < n)%nat → ∀ e, e ∈ drop k l → now < e.1).
Proof.
  revert n. induction l as [|[t p] l IH]; intros n Hs.
  - exists 0%nat. cbn. rewrite Nat.sub_0_r. split_and!; [by destruct n|lia|lia|set_solver|set_solver].
  - destruct n as [|n]; [exists 0%nat; cbn; split_and!; [done|lia|lia|set_solver|lia]|]. cbn in Hs. apply StronglySorted_inv in Hs as [Hs Hf]. cbn [expire_loop].
    destruct (Z.ltb_spec now t) as [Ht|Ht].
    + exists 0%nat. cbn [take drop fmap list_fmap]. split_and!; [done|lia|lia|set_solver|]. intros _ e [->|He]%elem_of_cons; [done|]. rewrite Forall_forall in Hf.
      specialize (Hf e.1). assert (t ≤ e.1) by (apply Hf, list_elem_of_fmap; eauto). lia.
    + destruct (IH n Hs) as (k & -> & Hk & Hkl & H1 & H2). exists (S k). cbn [take drop fmap list_fmap snd length Nat.sub]. split_and!; [done|lia|lia| |].
      * intros e [->|He]%elem_of_cons; [done|by apply H1].
      * intros Hkn. apply H2. lia.
Qed.

Lemma ExpireAt_steady_run tp fn m : ∃ w,
  ExpireAt_steady tp fn m = Ok (s_id m + 1, MkMgr (s_id m + 1) (<[s_id m + 1 := MkTimer fn true false tok_steady]> (timers m)) (system_deadlines_ m)
    (mm_insert tp (s_id m + 1) (steady_deadlines_ m)) (system_next_trigger_time_ m) w).
Proof.
  unfold ExpireAt_steady, CoTimer_new, SetNextTriggerTime_steady, set_timer, modify, gets, mbind, M_bind, mret, M_ret. cbn beta iota. rsimpl. unfold Z.succ.
  destruct (no_deadlines _); eexists; cbn beta iota; rsimpl; unfold set; cbn; do 3 f_equal.
  all: rewrite alter_insert_eq; done.
Qed.

Lemma BlockCancel_stale p t m : timers m !! p = Some t → fn_lock_ t = false → active_ t = false → BlockCancel p m = Ok (false, m).
Proof.
  intros Ht Hl Ha. unfold BlockCancel, timer_BlockCancel. eapply bind_run; [eapply bind_run; [by unfold timer_at; rewrite Ht|]; by rewrite Hl, Ha|]. done.
Qed.

Lemma alter_some {A} (f : A → A) (p : Z) (c : gmap Z A) x : c !! p = Some x → alter f p c = <[p := f x]> c.
Proof. intros Hx. apply map_eq. intros q. destruct (decide (p = q)) as [<-|]; [by rewrite lookup_alter_eq, lookup_insert_eq, Hx|by rewrite lookup_alter_ne, lookup_insert_ne]. Qed.

Lemma BlockCancel_run p t m : timers m !! p = Some t → fn_lock_ t = false → active_ t = true → token_state_ t = tok_steady →
  BlockCancel p m = Ok (true, m <| timers := <[p := MkTimer (fn_ t) false false tok_none]> (timers m) |> <| steady_deadlines_ := mm_erase p (steady_deadlines_ m) |>).
Proof.
  intros Ht Hl Ha Hs. unfold BlockCancel, timer_BlockCancel. eapply bind_run.
  { eapply bind_run; [by unfold timer_at; rewrite Ht|]. rewrite Hl, Ha. cbn [negb]. eapply bind_run; [done|]. done. }
  cbn [negb]. eapply bind_run.
  { unfold erase_token. eapply bind_run; [unfold timer_at, set; cbn; rewrite lookup_alter_eq, Ht; done|]. cbn. rewrite Hs. eapply bind_run; [done|]. done. }
  unfold mret, M_ret. do 2 f_equal. unfold set; cbn. f_equal.
  rewrite (alter_some _ _ _ _ Ht). rewrite (alter_some _ _ _ _ (lookup_insert_eq _ _ _)), insert_insert_eq. cbn. rewrite Hl. done.
Qed.

(** The timers that are taken lose their tokens and nothing else. *)
Definition tokens_cleared (ps : list Z) (c : gmap Z (CoTimer F)) : gmap Z (CoTimer F) :=
  foldl (fun c p => alter (fun t => t <| token_state_ := tok_none |>) p c) c ps.

Lemma clear_tokens_run ps m : clear_tokens ps m = Ok (tt, m <| timers ::= tokens_cleared ps |>).
Proof.
  revert m. induction ps as [|p ps IH]; intros m; [by destruct m|]. cbn [clear_tokens]. eapply bind_run; [done|]. rewrite IH. by destruct m.
Qed.

Lemma tokens_cleared_lookup ps c p : tokens_cleared ps c !! p = if bool_decide (p ∈ ps) then (fun t => t <| token_state_ := tok_none |>) <$> c !! p else c !! p.
Proof.
  revert c. induction ps as [|q ps IH]; intros c; [done|]. cbn [tokens_cleared foldl]. change (foldl _ ?x ps) with (tokens_cleared ps x). rewrite IH.
  destruct (decide (q = p)) as [->|Hq].
  - rewrite lookup_alter_eq. rewrite (bool_decide_true (p ∈ p :: ps)) by left. case_bool_decide; [|done]. by destruct (c !! p).
  - rewrite lookup_alter_ne by done. destruct (decide (p ∈ ps)) as [Hp|Hp].
    + rewrite !bool_decide_true by set_solver. done.
    + rewrite !bool_decide_false by set_solver. done.
Qed.

Lemma next_steady_run l m : (match l with (t, _) :: _ => SetNextTriggerTime_steady t | [] => modify (fun m => m <| steady_next_trigger_time_ := llong_max |>) end) m =
  Ok (tt, m <| steady_next_trigger_time_ := match l with (t, _) :: _ => to_ms t | [] => llong_max end |>).
Proof. by destruct l as [|[t p] l]. Qed.

Lemma GetExpired_run s1 d1 s2 d2 n m : system_deadlines_ m = [] → by_time (steady_deadlines_ m) →
  ∃ k next w1 w2, let l := steady_deadlines_ m in
    GetExpired s1 d1 s2 d2 n m = Ok (((take k l).*2, next), MkMgr (s_id m) (tokens_cleared (take k l).*2 (timers m)) [] (drop k l) w1 w2) ∧
    (k ≤ n)%nat ∧ (k ≤ length l)%nat ∧ (∀ e, e ∈ take k l → e.1 ≤ d1) ∧ ((k < n)%nat → ∀ e, e ∈ drop k l → d1 < e.1).
Proof.
  intros Hsys Hs. destruct (expire_loop_spec d1 n (steady_deadlines_ m) Hs) as (k & E & Hk & Hkl & H1 & H2). destruct m as [i c sys sdy w1 w2]. cbn in *. subst sys.
  destruct sdy as [|e sdy].
  - exists 0%nat, llong_max, w1, w2. split_and!; [done|lia|lia|set_solver|set_solver].
  - assert (expire_loop s1 n [] = ([], [], n)) as E0 by (by destruct n). eexists k, _, _, _. split; [|done]. unfold GetExpired.
    eapply bind_run; [done|]. change (no_deadlines _) with false. cbn beta iota. eapply bind_run; [done|]. cbn [system_deadlines_]. rewrite E0. cbn beta iota.
    eapply bind_run; [apply clear_tokens_run|]. eapply bind_run; [done|]. eapply bind_run; [done|]. eapply bind_run; [done|].
    change (steady_deadlines_ _) with (e :: sdy) at 1. rewrite E. cbn beta iota. eapply bind_run; [apply clear_tokens_run|].
    eapply bind_run; [apply next_steady_run|]. eapply bind_run; [done|]. eapply bind_run; [done|]. done.
Qed.

Lemma timer_enter_run p t m : timers m !! p = Some t → fn_lock_ t = false → active_ t = true →
  timer_enter p m = Ok (Some (fn_ t), m <| timers := <[p := MkTimer (fn_ t) false true (token_state_ t)]> (timers m) |>).
Proof.
  intros Ht Hl Ha. unfold timer_enter. eapply bind_run; [by unfold timer_at; rewrite Ht|]. rewrite Hl, Ha. cbn [negb]. eapply bind_run; [done|].
  do 2 f_equal. unfold set; cbn. rewrite (alter_some _ _ _ _ Ht). done.
Qed.

End Lemmas.

End CoTimer.
