(* ===== verification/CoSched.v ===== *)
(** * The coroutine scheduler of libgo
      (src/trafficRecorder/libgo/scheduler.cpp, processer.cpp, sleep_wait.cpp,
       block_object.cpp, task.cpp)

    Scheduler, Processer, SleepWait and BlockObject with one thread, as the recorder
    runs them.  A queue is the list of its elements, which TsQueueProps.v justifies; it
    counts one reference of each.  The timers are those of CoTimer.v.

    The code of a coroutine is a tree: what it does next, and how it goes on from the
    result.  The clocks are functions of the number of times they were read.  Network
    waits and the context switch are not modelled: a coroutine here never blocks in a
    hooked system call, and a switch succeeds. *)

From S2P Require Import Prelude CoTimer.
From stdpp Require Import base gmap list.
From Stdlib Require Import ZArith Lia.
Import CoTimer.

Open Scope Z_scope.

Module CoSched.

(** ** Data *)

Inductive TaskState := st_init | st_runnable | st_io_block | st_sys_block | st_sleep | st_done | st_fatal.

#[export] Instance TaskState_eq_dec : EqDecision TaskState.
Proof. solve_decision. Defined.

(** [eCoExHandle] *)
Inductive eCoExHandle := immedaitely_throw | delay_rethrow | debugger_only.

#[export] Instance eCoExHandle_eq_dec : EqDecision eCoExHandle.
Proof. solve_decision. Defined.

(** What a coroutine does *)
Inductive code :=
  | Ret                                            (* the function returns *)
  | Throw                                          (* an exception leaves the function *)
  | Yield (k : code)                               (* co_yield *)
  | Sleep (ms : Z) (k : code)                      (* co_sleep(ms), Scheduler::SleepSwitch *)
  | Wait (b : Z) (k : code)                        (* b->CoBlockWait() *)
  | WaitTimed (b : Z) (ns : Z) (k : bool → code)   (* b->CoBlockWaitTimed(ns) *)
  | TryWait (b : Z) (k : bool → code)              (* b->TryBlockWait() *)
  | Wake (b : Z) (k : bool → code)                 (* b->Wakeup() *)
  | Ask (b : Z) (k : bool → code)                  (* b->IsWakeup() *)
  | Go (c : code) (k : code).                      (* go c *)

(** Where a coroutine goes on: at its code, or behind the [CoYield] of
    [CoBlockWait] or [CoBlockWaitTimed] *)
Inductive cont :=
  | At (k : code)
  | Waited (b : Z) (k : code)
  | WaitedTimed (b : Z) (k : bool → code).

Record Task := MkTask {
  ctx_ : cont;
  state_ : TaskState;
  yield_count_ : Z;
  eptr_ : bool;
  block_ : option Z;
  block_sequence_ : Z;             (* uint32_t *)
  block_timer_ : option Z;         (* CoTimerPtr *)
  block_timeout_ : Z;              (* nanoseconds *)
  is_block_timeout_ : bool;
  sleep_ms_ : Z;
  reference_ : Z;
}.

#[export] Instance eta_Task : Eta Task := fun t =>
  MkTask (ctx_ t) (state_ t) (yield_count_ t) (eptr_ t) (block_ t) (block_sequence_ t) (block_timer_ t) (block_timeout_ t)
    (is_block_timeout_ t) (sleep_ms_ t) (reference_ t).

Record BlockObject := MkBlock {
  wakeup_ : Z;
  max_wakeup_ : Z;
  wait_queue_ : list Z;
}.

#[export] Instance eta_BlockObject : Eta BlockObject := fun b => MkBlock (wakeup_ b) (max_wakeup_ b) (wait_queue_ b).

(** [BlockObject::BlockObject] *)
Definition BlockObject_new (init_wakeup max_wakeup : Z) : BlockObject := MkBlock init_wakeup max_wakeup [].

(** The callbacks: the one of [AddWaitTask] and the one of [SleepWait::SchedulerSwitch] *)
Inductive callback :=
  | OnTimeout (b : Z) (tk : Z) (seq : Z)
  | OnSleep (tk : Z).

Record Scheduler := MkSched {
  s_id_ : Z;                           (* Task::s_id *)
  tasks : gmap Z Task;                 (* the tasks that are alive *)
  task_count_ : Z;                     (* uint32_t *)
  current_task_ : option Z;
  runnable_list_ : list Z;
  wait_tasks_ : list Z;                (* of SleepWait *)
  blocks : gmap Z BlockObject;
  timer_mgr_ : CoTimerMgr callback;
  sleep_mgr_ : CoTimerMgr callback;    (* timer_mgr_ of SleepWait *)
  ticks : nat;                         (* how often the clocks were read *)
}.

#[export] Instance eta_Scheduler : Eta Scheduler := fun s =>
  MkSched (s_id_ s) (tasks s) (task_count_ s) (current_task_ s) (runnable_list_ s) (wait_tasks_ s) (blocks s) (timer_mgr_ s) (sleep_mgr_ s) (ticks s).

Abbreviation S := (M Scheduler).

Definition task_at (tk : Z) : S Task := fun s =>
  match tasks s !! tk with Some t => Ok (t, s) | None => Bad UseAfterFree end.

Definition set_task (tk : Z) (f : Task → Task) : S unit :=
  _ ← task_at tk;
  modify (fun s => s <| tasks ::= alter f tk |>).

Definition block_at (b : Z) : S BlockObject := fun s =>
  match blocks s !! b with Some x => Ok (x, s) | None => Bad UseAfterFree end.

Definition set_block (b : Z) (f : BlockObject → BlockObject) : S unit := modify (fun s => s <| blocks ::= alter f b |>).

Definition on_timers {A} (m : M (CoTimerMgr callback) A) : S A := fun s =>
  match m (timer_mgr_ s) with Ok (a, x) => Ok (a, s <| timer_mgr_ := x |>) | Bad f => Bad f end.

Definition on_sleepers {A} (m : M (CoTimerMgr callback) A) : S A := fun s =>
  match m (sleep_mgr_ s) with Ok (a, x) => Ok (a, s <| sleep_mgr_ := x |>) | Bad f => Bad f end.

(** [assert] *)
Definition assert_ (b : bool) : S unit := if b then mret tt else fail_with Aborted.

(** ** References and queues *)

Definition IncrementRef (tk : Z) : S unit := set_task tk (fun t => t <| reference_ ::= Z.succ |>).

Definition DecrementRef (tk : Z) : S unit :=
  set_task tk (fun t => t <| reference_ ::= Z.pred |>);;
  t ← task_at tk;
  if reference_ t =? 0 then modify (fun s => s <| tasks ::= delete tk |>) else mret tt.

Section Sched.

(** The steady and the system clock, and [exception_handle] of the options *)
Context (steady system : nat → Z) (exception_handle : eCoExHandle).

Definition SteadyNow : S Z :=
  n ← gets ticks;
  modify (fun s => s <| ticks := Datatypes.S n |>);;
  mret (steady n).

Definition SystemNow : S Z :=
  n ← gets ticks;
  modify (fun s => s <| ticks := Datatypes.S n |>);;
  mret (system n).

(** [runnable_list_.push] *)
Definition runnable_push (tk : Z) : S unit :=
  modify (fun s => s <| runnable_list_ ::= (fun l => l ++ [tk]) |>);;
  IncrementRef tk.

(** [Processer::AddTaskRunnable], which [Scheduler::AddTaskRunnable] calls: there is one
    processer *)
Definition AddTaskRunnable (tk : Z) : S unit :=
  set_task tk (fun t => t <| state_ := st_runnable |>);;
  runnable_push tk.

Definition CreateTask (fn : code) : S unit :=
  modify (fun s => s <| s_id_ ::= Z.succ |>);;
  tk ← gets s_id_;
  modify (fun s => s <| tasks ::= <[tk := MkTask (At fn) st_init 0 false None 0 None 0 false 0 1]> |>);;
  modify (fun s => s <| task_count_ := u32 (task_count_ s + 1) |>);;
  AddTaskRunnable tk.

(** ** Signals *)

Definition TryBlockWait (b : Z) : S bool :=
  x ← block_at b;
  if wakeup_ x =? 0 then mret false else
  set_block b (fun x => x <| wakeup_ ::= Z.pred |>);;
  mret true.

Definition IsWakeup (b : Z) : S bool := x ← block_at b; mret (0 <? wakeup_ x).

(** The part of [Wakeup] that is behind the lock: the task is in no queue, and its timer
    is cancelled. *)
Definition end_wait (tk : Z) : S unit :=
  set_task tk (fun t => t <| block_ := None |>);;
  t ← task_at tk;
  match block_timer_ t with
  | None => mret tt
  | Some p =>
    ok ← on_timers (BlockCancel p);
    (if ok : bool then DecrementRef tk else mret tt);;
    set_task tk (fun t => t <| block_timer_ := None |>)
  end.

Definition Wakeup (b : Z) : S bool :=
  x ← block_at b;
  match wait_queue_ x with
  | [] =>
    if max_wakeup_ x <=? wakeup_ x then mret false else
    set_block b (fun x => x <| wakeup_ ::= Z.succ |>);;
    mret true
  | tk :: q =>
    set_block b (fun x => x <| wait_queue_ := q |>);;
    DecrementRef tk;;
    end_wait tk;;
    AddTaskRunnable tk;;
    mret true
  end.

Definition CancelWait (b tk seq : Z) (in_timer : bool) : S unit :=
  t ← task_at tk;
  if negb (bool_decide (block_ t = Some b)) then mret tt else
  if negb (block_sequence_ t =? seq) then mret tt else
  x ← block_at b;
  if negb (bool_decide (tk ∈ wait_queue_ x)) then mret tt else
  set_block b (fun x => x <| wait_queue_ ::= filter (fun y => y ≠ tk) |>);;
  DecrementRef tk;;
  set_task tk (fun t => t <| block_ := None |>);;
  t ← task_at tk;
  (match in_timer, block_timer_ t with
   | false, Some p =>
     _ ← on_timers (BlockCancel p);
     set_task tk (fun t => t <| block_timer_ := None |>)
   | _, _ => mret tt
   end);;
  set_task tk (fun t => t <| is_block_timeout_ := true |>);;
  AddTaskRunnable tk.

Definition AddWaitTask (b tk : Z) : S bool :=
  x ← block_at b;
  if negb (wakeup_ x =? 0) then set_block b (fun x => x <| wakeup_ ::= Z.pred |>);; mret false else
  set_block b (fun x => x <| wait_queue_ ::= (fun q => q ++ [tk]) |>);;
  IncrementRef tk;;
  t ← task_at tk;
  (if block_timeout_ t =? 0 then mret tt else
     IncrementRef tk;;
     now ← SteadyNow;
     p ← on_timers (ExpireAt_duration now (block_timeout_ t) (OnTimeout b tk (block_sequence_ t)));
     set_task tk (fun t => t <| block_timer_ := Some p |>));;
  mret true.

(** ** Sleep *)

Definition SleepWait_SchedulerSwitch (tk : Z) : S unit :=
  modify (fun s => s <| wait_tasks_ ::= (fun l => l ++ [tk]) |>);;
  IncrementRef tk;;
  t ← task_at tk;
  now ← SteadyNow;
  _ ← on_sleepers (ExpireAt_duration now (sleep_ms_ t * 1000000) (OnSleep tk));
  mret tt.

Definition SleepWait_Wakeup (tk : Z) : S unit :=
  l ← gets wait_tasks_;
  ok ← (if bool_decide (tk ∈ l) then
          modify (fun s => s <| wait_tasks_ ::= filter (fun y => y ≠ tk) |>);; DecrementRef tk;; mret true
        else mret false);
  assert_ ok;;
  AddTaskRunnable tk.

(** ** Coroutines *)

(** [Processer::CoYield]: the coroutine goes on at [k] when it is switched in again. *)
Definition CoYield (tk : Z) (k : cont) : S unit :=
  set_task tk (fun t => t <| yield_count_ ::= Z.succ |> <| ctx_ := k |>).

(** The coroutine [tk] runs until it is switched out. *)
Fixpoint run_code (tk : Z) (c : code) : S unit :=
  match c with
  | Ret => set_task tk (fun t => t <| state_ := st_done |>);; CoYield tk (At Ret)
  | Throw =>
    match exception_handle with
    | immedaitely_throw => fail_with Aborted
    | delay_rethrow => set_task tk (fun t => t <| eptr_ := true |>)
    | debugger_only => mret tt
    end;;
    set_task tk (fun t => t <| state_ := st_done |>);; CoYield tk (At Ret)
  | Yield k => CoYield tk (At k)
  | Sleep ms k =>
    if ms <=? 0 then CoYield tk (At k) else
    set_task tk (fun t => t <| sleep_ms_ := ms |>);;
    set_task tk (fun t => t <| state_ := st_sleep |>);;
    CoYield tk (At k)
  | Wait b k =>
    x ← block_at b;
    if 0 <? wakeup_ x then set_block b (fun x => x <| wakeup_ ::= Z.pred |>);; run_code tk k else
    set_task tk (fun t => t <| block_ := Some b |> <| state_ := st_sys_block |> <| block_timeout_ := 0 |> <| is_block_timeout_ := false |>
                            <| block_sequence_ := u32 (block_sequence_ t + 1) |>);;
    CoYield tk (Waited b k)
  | WaitTimed b ns k =>
    x ← block_at b;
    if 0 <? wakeup_ x then set_block b (fun x => x <| wakeup_ ::= Z.pred |>);; run_code tk (k true) else
    set_task tk (fun t => t <| block_ := Some b |> <| state_ := st_sys_block |> <| block_sequence_ := u32 (block_sequence_ t + 1) |>
                            <| block_timeout_ := ns |> <| is_block_timeout_ := false |>);;
    CoYield tk (WaitedTimed b k)
  | TryWait b k => r ← TryBlockWait b; run_code tk (k r)
  | Wake b k => r ← Wakeup b; run_code tk (k r)
  | Ask b k => r ← IsWakeup b; run_code tk (k r)
  | Go c k => CreateTask c;; run_code tk k
  end.

(** [Task::SwapIn] *)
Definition SwapIn (tk : Z) : S unit :=
  t ← task_at tk;
  match ctx_ t with
  | At k => run_code tk k
  | Waited _ k => run_code tk k
  | WaitedTimed _ k => run_code tk (k (negb (is_block_timeout_ t)))
  end.

(** ** The processer *)

(** The [switch] of [Processer::Run] on the state of the task that was switched out:
    whether it is done, and whether its exception is thrown on. *)
Definition after_switch (tk : Z) : S (bool * bool) :=
  t ← task_at tk;
  match state_ t with
  | st_runnable => runnable_push tk;; mret (false, false)
  | st_io_block => fail_with Aborted      (* not reached: see above *)
  | st_sleep => SleepWait_SchedulerSwitch tk;; mret (false, false)
  | st_sys_block =>
    match block_ t with
    | None => fail_with Aborted
    | Some b =>
      ok ← AddWaitTask b tk;
      (if ok : bool then mret tt else runnable_push tk);;
      mret (false, false)
    end
  | _ => DecrementRef tk;; mret (true, eptr_ t)
  end.

(** One turn of the loop, for the task that was popped *)
Definition run_task (tk : Z) : S (bool * bool) :=
  modify (fun s => s <| current_task_ := Some tk |>);;
  SwapIn tk;;
  modify (fun s => s <| current_task_ := None |>);;
  after_switch tk.

(** [Processer::Run]: the number of tasks that ran and of those that are done, and
    whether an exception is thrown. *)
Fixpoint proc_loop (fuel : nat) (c done_count : Z) : S (Z * Z * bool) :=
  match fuel with
  | O => fail_with OutOfFuel
  | Datatypes.S fuel' =>
    l ← gets runnable_list_;
    if Z.of_nat (length l) <=? c then mret (c, done_count, false) else
    match l with
    | [] => mret (c, done_count, false)
    | tk :: l' =>
      modify (fun s => s <| runnable_list_ := l' |>);;
      DecrementRef tk;;
      '(d, thrown) ← run_task tk;
      let done_count := if d : bool then done_count + 1 else done_count in
      if thrown : bool then mret (c + 1, done_count, true) else proc_loop fuel' (c + 1) done_count
    end
  end.

(** The steps a coroutine has left at most, and those of all coroutines *)
Fixpoint code_size (c : code) : nat :=
  match c with
  | Ret | Throw => 1
  | Yield k | Sleep _ k | Wait _ k => 1 + code_size k
  | WaitTimed _ _ k | TryWait _ k | Wake _ k | Ask _ k => 1 + (code_size (k true) `max` code_size (k false))
  | Go c k => 1 + code_size c + code_size k
  end.

Definition cont_size (k : cont) : nat :=
  match k with
  | At k | Waited _ k => code_size k
  | WaitedTimed _ k => code_size (k true) `max` code_size (k false)
  end.

Definition work (s : Scheduler) : nat := map_fold (fun _ t n => (cont_size (ctx_ t) + n)%nat) 0%nat (tasks s).

Definition Processer_Run : S (Z * Z * bool) :=
  n ← gets work;
  proc_loop (Datatypes.S n) 0 0.

(** [DoRunnable] with one thread, which has nobody to steal from; true when an exception
    leaves it *)
Definition DoRunnable : S (Z * bool) :=
  '(do_count, done_count, thrown) ← Processer_Run;
  modify (fun s => s <| task_count_ := u32 (task_count_ s - done_count) |>);;
  mret (do_count, thrown).

(** ** The timers *)

Definition run_callback (f : callback) : S unit :=
  match f with
  | OnTimeout b tk seq =>
    t ← task_at tk;
    (if block_sequence_ t =? seq then CancelWait b tk seq true else mret tt);;
    DecrementRef tk
  | OnSleep tk => SleepWait_Wakeup tk
  end.

(** [GetExpired] with the clocks; what they show is not used when there is no timer. *)
Definition GetExpired_now (on : ∀ {A}, M (CoTimerMgr callback) A → S A) (n : nat) : S (list Z * Z) :=
  s1 ← SystemNow; d1 ← SteadyNow; s2 ← SystemNow; d2 ← SteadyNow;
  on (GetExpired s1 d1 s2 d2 n).

(** The calls [( *sp_timer)()] *)
Fixpoint fire (on : ∀ {A}, M (CoTimerMgr callback) A → S A) (ps : list Z) : S unit :=
  match ps with
  | [] => mret tt
  | p :: ps =>
    f ← on (timer_enter p);
    (match f with Some f => run_callback f;; on (timer_leave p) | None => mret tt end);;
    fire (@on) ps
  end.

(** The loop of [DoTimer] when [timer_handle_every_cycle] is 0, as it is by default, and
    of [SleepWait::WaitLoop]: the number of timers and the delay until the next one *)
Fixpoint timer_loop (on : ∀ {A}, M (CoTimerMgr callback) A → S A) (fuel : nat) (c : Z) : S (Z * Z) :=
  match fuel with
  | O => fail_with OutOfFuel
  | Datatypes.S fuel' =>
    '(ps, next_ms) ← GetExpired_now (@on) 128;
    match ps with
    | [] => mret (c, next_ms)
    | _ => fire (@on) ps;; timer_loop (@on) fuel' (c + Z.of_nat (length ps))
    end
  end.

Definition DoTimer : S (Z * Z) :=
  n ← gets (fun s => length (system_deadlines_ (timer_mgr_ s)) + length (steady_deadlines_ (timer_mgr_ s)))%nat;
  timer_loop (@on_timers) (Datatypes.S n) 0.

Definition DoSleep : S (Z * Z) :=
  n ← gets (fun s => length (system_deadlines_ (sleep_mgr_ s)) + length (steady_deadlines_ (sleep_mgr_ s)))%nat;
  timer_loop (@on_sleepers) (Datatypes.S n) 0.

(** [max_sleep_ms] of the options *)
Definition max_sleep_ms : Z := 20.

(** [Scheduler::Run] up to the wait for network events: the milliseconds it may wait,
    or none when an exception leaves it. *)
Definition Run : S (option Z) :=
  '(run_task_count, thrown) ← DoRunnable;
  if thrown : bool then mret None else
  '(tm_count, timer_next_ms) ← DoTimer;
  '(sl_count, sleep_next_ms) ← DoSleep;
  let next_ms := Z.min timer_next_ms sleep_next_ms in
  mret (Some (if negb (run_task_count =? 0) || negb (tm_count =? 0) || negb (sl_count =? 0) then 0
              else Z.min next_ms max_sleep_ms)).

(** What happens to a scheduler: a turn of its loop, and calls from outside of it. *)
Inductive event := EvRun | EvWake (b : Z) | EvTry (b : Z) | EvGo (c : code).

Definition sched_step (e : event) : S unit :=
  match e with
  | EvRun => _ ← Run; mret tt
  | EvWake b => _ ← Wakeup b; mret tt
  | EvTry b => _ ← TryBlockWait b; mret tt
  | EvGo c => CreateTask c
  end.

Fixpoint sched_run (es : list event) : S unit :=
  match es with
  | [] => mret tt
  | e :: es => sched_step e;; sched_run es
  end.

End Sched.

(** A scheduler with the signal objects [bs] *)
Definition Scheduler_new (bs : gmap Z BlockObject) : Scheduler :=
  MkSched 0 ∅ 0 None [] [] bs CoTimerMgr_new CoTimerMgr_new 0.

(** *** Examples *)

Definition ms (n : nat) : Z := 1000000 * Z.of_nat n.

(** Two coroutines and a signal: the first waits for it at most 3 ms and then at most
    1 s, the second sleeps for 5 ms and gives it. *)
Example sched_ex :
  match sched_run ms ms debugger_only
    [EvGo (WaitTimed 1 3000000 (fun r => if r then Throw else WaitTimed 1 1000000000 (fun r => if r then Ret else Throw)));
     EvGo (Sleep 5 (Wake 1 (fun _ => Ret))); EvRun; EvRun; EvRun; EvRun; EvRun] (Scheduler_new {[1 := BlockObject_new 0 10]}) with
  | Ok (_, s) => (map_to_list (tasks s), task_count_ s, runnable_list_ s, wait_tasks_ s, blocks s !! 1, length (steady_deadlines_ (timer_mgr_ s)))
  | Bad _ => ([], -1, [], [], None, 0%nat)
  end = ([], 0, [], [], Some (MkBlock 0 10 []), 0%nat).
Proof. vm_compute. reflexivity. Qed.

End CoSched.
