(* ===== verification/CoSchedInv.v ===== *)
(** * The coroutine scheduler of libgo: its invariant

    Every task that is alive is in one queue, the one its state names, or is the one that
    runs; the references of a task are those of its creator, of its queue and of its
    timer; a task that waits with a timeout has one timer, which knows it, and a task
    that sleeps has one.  Every operation keeps this. *)

From S2P Require Import Prelude CoTimer CoSched.
From stdpp Require Import base gmap list.
From Stdlib Require Import ZArith Lia.
Import CoTimer CoSched.

Open Scope Z_scope.

Module CoSchedInv.

(** ** Where a task is *)

Inductive place := PRun | PSleep | PWait (b : Z).

#[export] Instance place_eq_dec : EqDecision place.
Proof. solve_decision. Defined.

Definition list_of (s : Scheduler) (pl : place) : list Z :=
  match pl with
  | PRun => runnable_list_ s
  | PSleep => wait_tasks_ s
  | PWait b => match blocks s !! b with Some x => wait_queue_ x | None => [] end
  end.

(** The queue of a task that does not run *)
Definition home_of (t : Task) : option place :=
  match state_ t with
  | st_runnable => Some PRun
  | st_sleep => Some PSleep
  | st_sys_block => PWait <$> block_ t
  | _ => None
  end.

(** [out] are the tasks that are in no queue: the one that runs, and one that is on its
    way from one queue to another. *)
Definition home (out : gset Z) (tk : Z) (t : Task) : option place := if decide (tk ∈ out) then None else home_of t.

(** The task waits with a timeout. *)
Definition timed (t : Task) : bool := bool_decide (state_ t = st_sys_block) && negb (block_timeout_ t =? 0).

Definition refs (out : gset Z) (tk : Z) (t : Task) : Z := if decide (tk ∈ out) then 1 else if timed t then 3 else 2.

(** ** Timers *)

Definition pending (m : CoTimerMgr callback) (batch : list Z) : list Z := (steady_deadlines_ m).*2 ++ batch.

(** A timer that will run [f], and one that will run nothing *)
Definition armed (m : CoTimerMgr callback) (batch : list Z) (p : Z) (f : callback) : Prop :=
  ∃ tok, timers m !! p = Some (MkTimer f true false tok) ∧ p ∈ pending m batch ∧ (p ∈ (steady_deadlines_ m).*2 → tok = tok_steady).

Definition stale (m : CoTimerMgr callback) (o : option Z) : Prop :=
  ∀ p, o = Some p → ∃ t, timers m !! p = Some t ∧ active_ t = false ∧ fn_lock_ t = false.

Record mgr_ok (m : CoTimerMgr callback) (batch : list Z) : Prop := {
  m_system : system_deadlines_ m = [];
  m_sorted : by_time (steady_deadlines_ m);
  m_nodup : NoDup (pending m batch);
  m_id p t : timers m !! p = Some t → p ≤ s_id m;
  m_known p : p ∈ pending m batch → is_Some (timers m !! p);
}.

Definition timer_ok (m : CoTimerMgr callback) (batch : list Z) (out : gset Z) (tk : Z) (t : Task) : Prop :=
  if bool_decide (tk ∈ out) || negb (timed t) then stale m (block_timer_ t)
  else ∃ b p, block_ t = Some b ∧ block_timer_ t = Some p ∧ armed m batch p (OnTimeout b tk (block_sequence_ t)).

(** ** Code *)

Section Inv.
Context (B : gset Z) (exception_handle : eCoExHandle).

(** The code uses signals that exist, and throws only where exceptions are caught. *)
Fixpoint code_ok (c : code) : Prop :=
  match c with
  | Ret => True
  | Throw => exception_handle ≠ immedaitely_throw
  | Yield k | Sleep _ k => code_ok k
  | Wait b k => b ∈ B ∧ code_ok k
  | WaitTimed b _ k | TryWait b k | Wake b k | Ask b k => b ∈ B ∧ ∀ r, code_ok (k r)
  | Go c k => code_ok c ∧ code_ok k
  end.

Definition cont_ok (k : cont) : Prop :=
  match k with
  | At k | Waited _ k => code_ok k
  | WaitedTimed _ k => ∀ r, code_ok (k r)
  end.

Record task_ok (s : Scheduler) (out : gset Z) (bt : list Z) (tk : Z) (t : Task) : Prop := {
  t_id : 1 ≤ tk ≤ s_id_ s;
  t_ctx : cont_ok (ctx_ t);
  t_home : tk ∉ out → is_Some (home_of t);
  t_refs : reference_ t = refs out tk t;
  t_timer : timer_ok (timer_mgr_ s) bt out tk t;
}.

Record block_ok (x : BlockObject) : Prop := {
  b_range : 0 ≤ wakeup_ x ≤ max_wakeup_ x;
  b_wait : wait_queue_ x ≠ [] → wakeup_ x = 0;
}.

(** [bt] and [bs] are the timers that [GetExpired] returned and that have not been
    called. *)
Record inv (out : gset Z) (bt bs : list Z) (s : Scheduler) : Prop := {
  v_id : 0 ≤ s_id_ s;
  v_task tk t : tasks s !! tk = Some t → task_ok s out bt tk t;
  v_out tk : tk ∈ out → is_Some (tasks s !! tk);
  v_home pl tk : tk ∈ list_of s pl ↔ ∃ t, tasks s !! tk = Some t ∧ home out tk t = Some pl;
  v_nodup pl : NoDup (list_of s pl);
  v_dom : dom (blocks s) = B;
  v_block b x : blocks s !! b = Some x → block_ok x;
  v_tm : mgr_ok (timer_mgr_ s) bt;
  v_pend p : p ∈ pending (timer_mgr_ s) bt → ∃ tk t, tasks s !! tk = Some t ∧ tk ∉ out ∧ timed t = true ∧ block_timer_ t = Some p;
  v_sm : mgr_ok (sleep_mgr_ s) bs;
  v_sleep tk : tk ∈ wait_tasks_ s → ∃ p, armed (sleep_mgr_ s) bs p (OnSleep tk);
  v_spend p : p ∈ pending (sleep_mgr_ s) bs → ∃ tk, armed (sleep_mgr_ s) bs p (OnSleep tk) ∧ tk ∈ wait_tasks_ s;
  v_sinj p1 p2 tk : armed (sleep_mgr_ s) bs p1 (OnSleep tk) → armed (sleep_mgr_ s) bs p2 (OnSleep tk) → p1 = p2;
}.

(** ** Moving a task *)

(** The tasks other than [tk] are in a queue as before. *)
Definition near (out out' : gset Z) (tk : Z) : Prop := ∀ x, x ≠ tk → x ∈ out' ↔ x ∈ out.

Lemma near_add out tk : near out ({[tk]} ∪ out) tk.
Proof. intros x Hx. set_solver. Qed.

Lemma near_del out tk : near out (out ∖ {[tk]}) tk.
Proof. intros x Hx. set_solver. Qed.

Lemma near_refl out tk : near out out tk.
Proof. done. Qed.

Lemma home_ne out out' tk tk' t : tk' ≠ tk → near out out' tk → home out' tk' t = home out tk' t.
Proof. intros Hne Hn. unfold home. by rewrite (decide_ext (tk' ∈ out') (tk' ∈ out)) by (by apply Hn). Qed.

Lemma refs_ne out out' tk tk' t : tk' ≠ tk → near out out' tk → refs out' tk' t = refs out tk' t.
Proof. intros Hne Hn. unfold refs. by rewrite (decide_ext (tk' ∈ out') (tk' ∈ out)) by (by apply Hn). Qed.

(** Only the task [tk] changes. *)
Lemma move_home out out' s s' tk t' :
  (∀ pl tk', tk' ∈ list_of s pl ↔ ∃ t, tasks s !! tk' = Some t ∧ home out tk' t = Some pl) → near out out' tk →
  tasks s' = <[tk := t']> (tasks s) → (∀ pl tk', tk' ≠ tk → tk' ∈ list_of s' pl ↔ tk' ∈ list_of s pl) →
  (∀ pl, tk ∈ list_of s' pl ↔ home out' tk t' = Some pl) →
  ∀ pl tk', tk' ∈ list_of s' pl ↔ ∃ t, tasks s' !! tk' = Some t ∧ home out' tk' t = Some pl.
Proof.
  intros Hh Hn Ht Hl Htk pl tk'. destruct (decide (tk' = tk)) as [->|Hne].
  - rewrite Ht, lookup_insert_eq, Htk. naive_solver.
  - rewrite Ht, lookup_insert_ne by done. rewrite Hl, Hh by done. f_equiv. intros t. by rewrite (home_ne out out' tk).
Qed.

(** The other tasks are as they were when their timers are. *)
Lemma move_tasks out out' bt bt' s s' tk t' :
  (∀ x t, tasks s !! x = Some t → task_ok s out bt x t) → near out out' tk → tasks s' = <[tk := t']> (tasks s) → s_id_ s ≤ s_id_ s' →
  (∀ x t, x ≠ tk → tasks s !! x = Some t → timer_ok (timer_mgr_ s) bt out x t → timer_ok (timer_mgr_ s') bt' out x t) →
  task_ok s' out' bt' tk t' → ∀ x t, tasks s' !! x = Some t → task_ok s' out' bt' x t.
Proof.
  intros Hs Hn Ht Hid Htm Htk x t Hx. destruct (decide (x = tk)) as [->|Hne].
  - rewrite Ht, lookup_insert_eq in Hx. by simplify_eq.
  - rewrite Ht, lookup_insert_ne in Hx by done. pose proof (Hs x t Hx) as [H1 H2 H3 H4 H5]. pose proof (Hn x Hne) as Hiff. split; [lia|done| | |].
    + intros Hc. apply H3. by rewrite <- Hiff.
    + by rewrite (refs_ne out out' tk).
    + unfold timer_ok in *. rewrite (bool_decide_ext _ _ Hiff). by eapply Htm.
Qed.

(** *** Steps of the code *)

Lemma task_run tk s t : tasks s !! tk = Some t → task_at tk s = Ok (t, s).
Proof. intros H. unfold task_at. by rewrite H. Qed.

Lemma set_task_run tk f s t : tasks s !! tk = Some t → set_task tk f s = Ok (tt, s <| tasks := <[tk := f t]> (tasks s) |>).
Proof.
  intros H. unfold set_task. eapply bind_run; [by apply task_run|]. unfold modify. do 2 f_equal. unfold set; cbn. f_equal. by apply alter_some.
Qed.

Lemma block_run b s x : blocks s !! b = Some x → block_at b s = Ok (x, s).
Proof. intros H. unfold block_at. by rewrite H. Qed.

Lemma set_block_run b f s x : blocks s !! b = Some x → set_block b f s = Ok (tt, s <| blocks := <[b := f x]> (blocks s) |>).
Proof. intros H. unfold set_block, modify. do 2 f_equal. unfold set; cbn. f_equal. by apply alter_some. Qed.

Lemma IncrementRef_run tk s t : tasks s !! tk = Some t → IncrementRef tk s = Ok (tt, s <| tasks := <[tk := t <| reference_ ::= Z.succ |>]> (tasks s) |>).
Proof. intros H. unfold IncrementRef. by erewrite set_task_run. Qed.

Lemma task_unref_run tk s t : tasks s !! tk = Some t → 2 ≤ reference_ t →
  DecrementRef tk s = Ok (tt, s <| tasks := <[tk := t <| reference_ ::= Z.pred |>]> (tasks s) |>).
Proof.
  intros H Hr. unfold DecrementRef. eapply bind_run; [by apply set_task_run|]. eapply bind_run; [apply task_run; rsimpl; apply lookup_insert_eq|]. rsimpl.
  rewrite (proj2 (Z.eqb_neq _ _)); [done|]. unfold Z.pred. lia.
Qed.

Lemma DecrementRef_free tk s t : tasks s !! tk = Some t → reference_ t = 1 → DecrementRef tk s = Ok (tt, s <| tasks := delete tk (tasks s) |>).
Proof.
  intros H Hr. unfold DecrementRef. eapply bind_run; [by apply set_task_run|]. eapply bind_run; [apply task_run; rsimpl; apply lookup_insert_eq|]. rsimpl.
  rewrite Hr. change (Z.pred 1 =? 0) with true. cbn iota. unfold modify. do 2 f_equal. unfold set; cbn. by rewrite delete_insert_eq.
Qed.

(** What the code steps of this file leave alone: the code of the tasks and their number *)
Definition load (s : Scheduler) : gmap Z nat := (fun t => cont_size (ctx_ t)) <$> tasks s.

Definition quiet (s s' : Scheduler) : Prop := load s' = load s ∧ task_count_ s' = task_count_ s.

#[global] Instance quiet_preorder : PreOrder quiet.
Proof. split; [done|]. intros s1 s2 s3 [H1 H2] [H3 H4]. split; congruence. Qed.

Lemma load_put s s' tk t t' : tasks s !! tk = Some t → tasks s' = <[tk := t']> (tasks s) → ctx_ t' = ctx_ t → load s' = load s.
Proof.
  intros Ht Hs Hc. unfold load. rewrite Hs, fmap_insert, Hc. apply insert_id. by rewrite lookup_fmap, Ht.
Qed.

(** *** Into and out of the run queue *)

Lemma timer_ok_near m bt out out' tk t x : x ≠ tk → near out out' tk → timer_ok m bt out x t → timer_ok m bt out' x t.
Proof. intros Hne Hn. unfold timer_ok. by rewrite (bool_decide_ext _ _ (Hn x Hne)). Qed.

Lemma not_listed out bt bs s tk : inv out bt bs s → tk ∈ out → ∀ pl, tk ∉ list_of s pl.
Proof. intros Hi Ho pl (t & _ & H)%(v_home _ _ _ _ Hi). unfold home in H. by rewrite decide_True in H. Qed.

(** A task that is out goes to the end of a queue that its state names. *)
Lemma enqueue out bt bs s s' tk t t' pl l : inv out bt bs s → tk ∈ out → tasks s !! tk = Some t → tasks s' = <[tk := t']> (tasks s) →
  list_of s pl = l → list_of s' pl = l ++ [tk] → (∀ pl', pl' ≠ pl → list_of s' pl' = list_of s pl') → home_of t' = Some pl →
  (∀ pl' x, x ∈ list_of s' pl' ↔ ∃ t, tasks s' !! x = Some t ∧ home (out ∖ {[tk]}) x t = Some pl') ∧ ∀ pl', NoDup (list_of s' pl').
Proof.
  intros Hi Ho Ht Hs' Hl Hl' Hoth Hh. pose proof (not_listed _ _ _ _ _ Hi Ho) as Hnl. split.
  - eapply (move_home out); [apply Hi|apply near_del|exact Hs'| |].
    + intros pl' x Hx. destruct (decide (pl' = pl)) as [->|Hp]; [rewrite Hl', Hl; set_solver|by rewrite Hoth].
    + intros pl'. unfold home. rewrite decide_False by set_solver. rewrite Hh. destruct (decide (pl' = pl)) as [->|Hp]; [rewrite Hl'; set_solver|].
      rewrite Hoth by done. split; [intros H; by apply Hnl in H|congruence].
  - intros pl'. destruct (decide (pl' = pl)) as [->|Hp]; [|rewrite Hoth by done; apply Hi]. rewrite Hl'. apply NoDup_app. split_and!; [rewrite <- Hl; apply Hi| |apply NoDup_singleton].
    intros x Hx ->%list_elem_of_singleton. eapply (Hnl pl). by rewrite Hl.
Qed.

(** A task leaves its queue. *)
Lemma dequeue out bt bs s s' tk t t' pl : inv out bt bs s → tasks s !! tk = Some t → home out tk t = Some pl → tasks s' = <[tk := t']> (tasks s) →
  (∀ x, x ∈ list_of s' pl ↔ x ≠ tk ∧ x ∈ list_of s pl) → NoDup (list_of s' pl) → (∀ pl', pl' ≠ pl → list_of s' pl' = list_of s pl') →
  (∀ pl' x, x ∈ list_of s' pl' ↔ ∃ t, tasks s' !! x = Some t ∧ home ({[tk]} ∪ out) x t = Some pl') ∧ ∀ pl', NoDup (list_of s' pl').
Proof.
  intros Hi Ht Hh Hs' Hl' Hn' Hoth. split; [|intros pl'; destruct (decide (pl' = pl)) as [->|Hp]; [done|rewrite Hoth by done; apply Hi]].
  eapply (move_home out); [apply Hi|apply near_add|exact Hs'| |].
  - intros pl' x Hx. destruct (decide (pl' = pl)) as [->|Hp]; [rewrite Hl'; naive_solver|by rewrite Hoth].
  - intros pl'. unfold home at 1. rewrite decide_True by set_solver. split; [|done]. intros H. destruct (decide (pl' = pl)) as [->|Hp]; [apply Hl' in H; naive_solver|].
    rewrite Hoth in H by done. apply (v_home _ _ _ _ Hi) in H as (t2 & Ht2 & Hh2). simplify_eq.
Qed.

Lemma out_dom out bt bs s s' tk t' : inv out bt bs s → tasks s' = <[tk := t']> (tasks s) → ∀ x, x ∈ {[tk]} ∪ out → is_Some (tasks s' !! x).
Proof. intros Hi -> x Hx. apply lookup_insert_is_Some. destruct (decide (tk = x)) as [->|]; [by left|]. right. split; [done|]. eapply (v_out _ _ _ _ Hi). set_solver. Qed.

(** The pending timers of the other tasks *)
Lemma pend_put out out' bt bs s s' tk t t' : inv out bt bs s → near out out' tk → tasks s !! tk = Some t → tasks s' = <[tk := t']> (tasks s) → timer_mgr_ s' = timer_mgr_ s →
  (tk ∉ out → timed t = false) → ∀ p, p ∈ pending (timer_mgr_ s') bt → ∃ x t, tasks s' !! x = Some t ∧ x ∉ out' ∧ timed t = true ∧ block_timer_ t = Some p.
Proof.
  intros Hi Hn Ht Hs' Hm Htm p Hp. rewrite Hm in Hp. destruct (v_pend _ _ _ _ Hi p Hp) as (x & t2 & Hx & Ho & H1 & H2). assert (x ≠ tk) as Hne by (intros ->; simplify_eq; rewrite Htm in H1; done).
  exists x, t2. rewrite Hs', lookup_insert_ne by done. split_and!; [done|by rewrite (Hn x Hne)|done|done].
Qed.

Lemma timer_ok_out m bt out tk t : tk ∈ out → timer_ok m bt out tk t ↔ stale m (block_timer_ t).
Proof. intros H. unfold timer_ok. by rewrite bool_decide_true. Qed.

Lemma timer_ok_untimed m bt out tk t : timed t = false → timer_ok m bt out tk t ↔ stale m (block_timer_ t).
Proof. intros H. unfold timer_ok. by rewrite H, orb_true_r. Qed.

(** A task that is out changes: its references and its timer stay. *)
Lemma set_out_ok out bt bs s tk t t' : inv out bt bs s → tk ∈ out → tasks s !! tk = Some t → reference_ t' = reference_ t → block_timer_ t' = block_timer_ t → cont_ok (ctx_ t') →
  inv out bt bs (s <| tasks := <[tk := t']> (tasks s) |>).
Proof.
  intros Hi Ho Ht Hr Hb Hc. set (s' := s <| tasks := <[tk := t']> (tasks s) |>). pose proof (v_task _ _ _ _ Hi tk t Ht) as [T1 T2 T3 T4 T5]. rewrite timer_ok_out in T5 by done.
  pose proof (not_listed _ _ _ _ _ Hi Ho) as Hnl.
  split; try (apply Hi); try done.
  - eapply (move_tasks out); [apply Hi|apply near_refl|done|done|done|]. split; [done|done|done| |apply timer_ok_out; [done|by rewrite Hb]]. unfold refs in *. rewrite decide_True in * by done. congruence.
  - intros x Hx. eapply (out_dom out); [done..|set_solver].
  - eapply (move_home out); [apply Hi|apply near_refl|done|done|]. intros pl. unfold home. rewrite decide_True by done. split; [intros H; by apply Hnl in H|done].
  - eapply pend_put; [done|apply near_refl|done..].
Qed.

Lemma runnable_push_ok out bt bs s tk t : inv out bt bs s → tk ∈ out → tasks s !! tk = Some t → state_ t = st_runnable →
  ∃ s', runnable_push tk s = Ok (tt, s') ∧ inv (out ∖ {[tk]}) bt bs s' ∧ quiet s s' ∧
  (∃ t', tasks s' = <[tk := t']> (tasks s)) ∧ timer_mgr_ s' = timer_mgr_ s ∧ sleep_mgr_ s' = sleep_mgr_ s ∧ blocks s' = blocks s.
Proof.
  intros Hi Ho Ht Est. pose proof (v_task _ _ _ _ Hi tk t Ht) as [T1 T2 T3 T4 T5]. unfold refs in T4. rewrite decide_True in T4 by done. rewrite timer_ok_out in T5 by done.
  set (t' := t <| reference_ ::= Z.succ |>). set (s' := s <| runnable_list_ := runnable_list_ s ++ [tk] |> <| tasks := <[tk := t']> (tasks s) |>).
  exists s'. assert (tasks s' = <[tk := t']> (tasks s)) as Es' by done.
  split; [unfold runnable_push; eapply bind_run; [done|]; by erewrite IncrementRef_run|]. split; [|split_and!; [split; [by eapply load_put|done]|by eexists|done..]].
  assert (home_of t' = Some PRun) as Hh by (unfold home_of, t'; rsimpl; by rewrite Est). assert (timed t' = false) as Etm by (unfold timed, t'; rsimpl; by rewrite Est).
  destruct (enqueue out bt bs s s' tk t t' PRun (runnable_list_ s) Hi Ho Ht Es') as [Hh' Hn']; [done|done|by intros [| |b] Hne|done|].
  split; try (apply Hi); try done.
  - eapply (move_tasks out); [apply Hi|apply near_del|done|done|done|]. split; [done|done|by rewrite Hh| |by apply timer_ok_untimed].
    unfold refs. rewrite decide_False, Etm by set_solver. unfold t'. rsimpl. rewrite T4. done.
  - intros x Hx. eapply (out_dom out); [done..|set_solver].
  - eapply pend_put; [done|apply near_del|done..].
Qed.

Lemma AddTaskRunnable_ok out bt bs s tk : inv out bt bs s → tk ∈ out → ∃ s', AddTaskRunnable tk s = Ok (tt, s') ∧ inv (out ∖ {[tk]}) bt bs s' ∧ quiet s s' ∧
  (∃ t', tasks s' = <[tk := t']> (tasks s)) ∧ timer_mgr_ s' = timer_mgr_ s ∧ sleep_mgr_ s' = sleep_mgr_ s ∧ blocks s' = blocks s.
Proof.
  intros Hi Ho. destruct (v_out _ _ _ _ Hi tk Ho) as [t Ht]. pose proof (v_task _ _ _ _ Hi tk t Ht) as [_ T2 _ _ _].
  set (s1 := s <| tasks := <[tk := t <| state_ := st_runnable |>]> (tasks s) |>). assert (inv out bt bs s1) as Hi1 by (by eapply set_out_ok). assert (quiet s s1) as Hq1 by (split; [by eapply load_put|done]).
  destruct (runnable_push_ok out bt bs s1 tk (t <| state_ := st_runnable |>)) as (s2 & R2 & Hi2 & Hq2 & (t2 & Ht2) & H2); [done|done|apply lookup_insert_eq|done|]. exists s2. split_and!; try apply H2.
  - unfold AddTaskRunnable. eapply bind_run; [by apply set_task_run|]. exact R2.
  - done.
  - by etransitivity.
  - exists t2. rewrite Ht2. unfold s1. rsimpl. by rewrite insert_insert_eq.
Qed.

(** The task that was chosen leaves the run queue. *)
Lemma pop_ok out bt bs s tk l : inv out bt bs s → runnable_list_ s = tk :: l → ∃ t s', tasks s !! tk = Some t ∧
  (modify (fun s => s <| runnable_list_ := l |>);; DecrementRef tk) s = Ok (tt, s') ∧ inv ({[tk]} ∪ out) bt bs s' ∧ quiet s s' ∧
  tasks s' = <[tk := t <| reference_ ::= Z.pred |>]> (tasks s) ∧ state_ t = st_runnable ∧ tk ∉ out ∧ blocks s' = blocks s.
Proof.
  intros Hi Hl. assert (tk ∈ list_of s PRun) as Hin by (cbn; rewrite Hl; left). pose proof Hin as (t & Ht & Hh)%(v_home _ _ _ _ Hi).
  unfold home in Hh. destruct (decide (tk ∈ out)) as [|Ho]; [done|]. pose proof (v_task _ _ _ _ Hi tk t Ht) as [T1 T2 T3 T4 T5].
  assert (state_ t = st_runnable) as Est by (unfold home_of in Hh; destruct (state_ t); try done; by destruct (block_ t)).
  assert (timed t = false) as Etm by (unfold timed; by rewrite Est). unfold refs in T4. rewrite decide_False, Etm in T4 by done. rewrite timer_ok_untimed in T5 by done.
  set (t' := t <| reference_ ::= Z.pred |>). set (s' := s <| runnable_list_ := l |> <| tasks := <[tk := t']> (tasks s) |>).
  exists t, s'. split; [done|]. assert (tasks s' = <[tk := t']> (tasks s)) as Es' by done. split; [|split; [|split_and!; [split; [by eapply load_put|done]|done..]]].
  { eapply bind_run; [done|]. erewrite task_unref_run; [done|done|lia]. }
  pose proof (v_nodup _ _ _ _ Hi PRun) as Hnd. cbn in Hnd. rewrite Hl in Hnd. apply NoDup_cons in Hnd as [Hnd1 Hnd2].
  destruct (dequeue out bt bs s s' tk t t' PRun Hi Ht) as [Hh' Hn']; [unfold home; by rewrite decide_False|done| |done|by intros [| |b] Hne|].
  { intros x. cbn. rewrite Hl. set_solver. }
  split; try (apply Hi); try done.
  - eapply (move_tasks out); [apply Hi|apply near_add|done|done|done|]. split; [done|done|set_solver| |apply timer_ok_out; [set_solver|done]].
    unfold refs. rewrite decide_True by set_solver. unfold t'. rsimpl. rewrite T4. done.
  - by eapply out_dom.
  - eapply pend_put; [done|apply near_add|done..].
Qed.

(** *** Signals *)

Lemma block_exists out bt bs s b : inv out bt bs s → b ∈ B → ∃ x, blocks s !! b = Some x ∧ block_ok x.
Proof.
  intros Hi Hb. rewrite <- (v_dom _ _ _ _ Hi) in Hb. apply elem_of_dom in Hb as [x Hx]. exists x. split; [done|]. by eapply v_block.
Qed.

Lemma put_block_dom out bt bs s b x : inv out bt bs s → is_Some (blocks s !! b) → dom (<[b := x]> (blocks s)) = B.
Proof. intros Hi Hb. rewrite dom_insert_L, <- (v_dom _ _ _ _ Hi). apply elem_of_dom in Hb. set_solver. Qed.

(** The count of a signal changes. *)
Lemma put_count out bt bs s b x x' : inv out bt bs s → blocks s !! b = Some x → wait_queue_ x' = wait_queue_ x → block_ok x' →
  inv out bt bs (s <| blocks := <[b := x']> (blocks s) |>) ∧ quiet s (s <| blocks := <[b := x']> (blocks s) |>).
Proof.
  intros Hi Hx Hq Hx'. split; [|done]. assert (∀ pl, list_of (s <| blocks := <[b := x']> (blocks s) |>) pl = list_of s pl) as El.
  { intros [| |b']; [done..|]. unfold list_of. rsimpl. destruct (decide (b = b')) as [<-|]; [by rewrite lookup_insert_eq, Hx|by rewrite lookup_insert_ne]. }
  split; try (apply Hi).
  - intros tk t Ht. destruct (v_task _ _ _ _ Hi tk t Ht). by split.
  - intros pl tk. rewrite El. apply Hi.
  - intros pl. rewrite El. apply Hi.
  - eapply put_block_dom; [done|by eauto].
  - intros b' y Hy. destruct (decide (b = b')) as [<-|]; [rsimpl in Hy; rewrite lookup_insert_eq in Hy; by simplify_eq|].
    rsimpl in Hy. rewrite lookup_insert_ne in Hy by done. by eapply v_block.
Qed.

Lemma TryBlockWait_ok out bt bs s b : inv out bt bs s → b ∈ B → ∃ r s', TryBlockWait b s = Ok (r, s') ∧ inv out bt bs s' ∧ quiet s s' ∧ tasks s' = tasks s.
Proof.
  intros Hi Hb. destruct (block_exists _ _ _ _ _ Hi Hb) as (x & Hx & [Hr Hw]). unfold TryBlockWait. destruct (Z.eqb_spec (wakeup_ x) 0) as [E|E].
  - exists false, s. split; [|done]. eapply bind_run; [by apply block_run|]. by rewrite E.
  - destruct (put_count _ _ _ _ _ _ (x <| wakeup_ ::= Z.pred |>) Hi Hx) as [Hi' Hq']; [done|split; rsimpl; [lia|]; intros H; by apply Hw in H|].
    eexists true, _. split; [|split; [exact Hi'|split; [exact Hq'|done]]]. eapply bind_run; [by apply block_run|]. rewrite (proj2 (Z.eqb_neq _ _) E). eapply bind_run; [by apply set_block_run|]. done.
Qed.

Lemma IsWakeup_run out bt bs s b : inv out bt bs s → b ∈ B → ∃ r, IsWakeup b s = Ok (r, s).
Proof. intros Hi Hb. destruct (block_exists _ _ _ _ _ Hi Hb) as (x & Hx & _). eexists. unfold IsWakeup. eapply bind_run; [by apply block_run|]. done. Qed.

(** *** Timers that are set and cancelled *)

Lemma armed_expire m bt p f tp p' g w : p ≤ s_id m → p' = s_id m + 1 → armed m bt p f →
  armed (MkMgr p' (<[p' := MkTimer g true false tok_steady]> (timers m)) (system_deadlines_ m) (mm_insert tp p' (steady_deadlines_ m)) (system_next_trigger_time_ m) w) bt p f.
Proof.
  intros Hp -> (tok & Ht & Hin & Htok). exists tok. unfold pending in *. cbn. rewrite lookup_insert_ne by lia. split_and!; [done| |].
  - rewrite elem_of_app, !list_elem_of_fmap in *. destruct Hin as [(e & -> & He)|Hin]; [left|by right]. exists e. split; [done|]. rewrite mm_insert_perm. by right.
  - intros (e & Ee & He)%list_elem_of_fmap. rewrite mm_insert_perm in He. apply elem_of_cons in He as [->|He]; [cbn in Ee; lia|]. apply Htok, list_elem_of_fmap. eauto.
Qed.

Lemma armed_new m bt tp f w : let p := s_id m + 1 in
  armed (MkMgr p (<[p := MkTimer f true false tok_steady]> (timers m)) (system_deadlines_ m) (mm_insert tp p (steady_deadlines_ m)) (system_next_trigger_time_ m) w) bt p f.
Proof.
  intros p. exists tok_steady. cbn. rewrite lookup_insert_eq. split_and!; [done| |done]. unfold pending. cbn. apply elem_of_app. left. apply list_elem_of_fmap. exists (tp, p). split; [done|].
  rewrite mm_insert_perm. left.
Qed.

Lemma stale_expire m o p' g tp w : (∀ p t, timers m !! p = Some t → p ≤ s_id m) → p' = s_id m + 1 → stale m o →
  stale (MkMgr p' (<[p' := MkTimer g true false tok_steady]> (timers m)) (system_deadlines_ m) (mm_insert tp p' (steady_deadlines_ m)) (system_next_trigger_time_ m) w) o.
Proof. intros Hid -> Hs p Hp. destruct (Hs p Hp) as (t & Ht & H). exists t. cbn. rewrite lookup_insert_ne; [done|]. apply Hid in Ht. lia. Qed.

Lemma pending_expire m bt p' g tp w : p' = s_id m + 1 →
  pending (MkMgr p' (<[p' := MkTimer g true false tok_steady]> (timers m)) (system_deadlines_ m) (mm_insert tp p' (steady_deadlines_ m)) (system_next_trigger_time_ m) w) bt ≡ₚ p' :: pending m bt.
Proof. intros ->. unfold pending. cbn. rewrite (mm_insert_perm tp _ (steady_deadlines_ m)). done. Qed.

Lemma mgr_expire m bt p' g tp w : mgr_ok m bt → p' = s_id m + 1 →
  mgr_ok (MkMgr p' (<[p' := MkTimer g true false tok_steady]> (timers m)) (system_deadlines_ m) (mm_insert tp p' (steady_deadlines_ m)) (system_next_trigger_time_ m) w) bt.
Proof.
  intros [M1 M2 M3 M4 M5] Hp. split; [done|by apply mm_insert_by_time| | |].
  - rewrite pending_expire by done. apply NoDup_cons. split; [|done]. intros Hin. destruct (M5 _ Hin) as [t Ht]. apply M4 in Ht. lia.
  - cbn. intros p t Ht. destruct (decide (p' = p)) as [->|Hne]; [lia|]. rewrite lookup_insert_ne in Ht by done. apply M4 in Ht. lia.
  - intros p Hin. rewrite pending_expire in Hin by done. cbn. apply elem_of_cons in Hin as [->|Hin]; [rewrite lookup_insert_eq; eauto|]. apply lookup_insert_is_Some'. right. by apply M5.
Qed.

Lemma armed_cancel m bt p q f g : p ≠ q → armed m bt p f → armed (m <| timers := <[q := g]> (timers m) |> <| steady_deadlines_ := mm_erase q (steady_deadlines_ m) |>) bt p f.
Proof.
  intros Hpq (tok & Ht & Hin & Htok). exists tok. unfold pending in *. unfold set; cbn. rewrite lookup_insert_ne by done. split_and!; [done| |].
  - rewrite elem_of_app, !list_elem_of_fmap in *. destruct Hin as [(e & -> & He)|Hin]; [left|by right]. exists e. split; [done|]. by apply mm_erase_in.
  - intros (e & -> & [_ He]%mm_erase_in)%list_elem_of_fmap. apply Htok, list_elem_of_fmap. eauto.
Qed.

Lemma stale_cancel m o q g : active_ g = false → fn_lock_ g = false → stale m o → stale (m <| timers := <[q := g]> (timers m) |> <| steady_deadlines_ := mm_erase q (steady_deadlines_ m) |>) o.
Proof.
  intros H1 H2 Hs p Hp. destruct (Hs p Hp) as (t & Ht & H). unfold set; cbn. destruct (decide (q = p)) as [->|]; [exists g; by rewrite lookup_insert_eq|]. exists t. by rewrite lookup_insert_ne.
Qed.

Lemma pending_cancel m q g p : p ∈ pending (m <| timers := <[q := g]> (timers m) |> <| steady_deadlines_ := mm_erase q (steady_deadlines_ m) |>) [] ↔ p ≠ q ∧ p ∈ pending m [].
Proof.
  unfold pending. rewrite !app_nil_r. unfold set; cbn. rewrite !list_elem_of_fmap. split.
  - intros (e & -> & [H1 H2]%mm_erase_in). eauto.
  - intros [H (e & -> & He)]. exists e. split; [done|]. by apply mm_erase_in.
Qed.

Lemma mgr_cancel m q g : mgr_ok m [] → is_Some (timers m !! q) → mgr_ok (m <| timers := <[q := g]> (timers m) |> <| steady_deadlines_ := mm_erase q (steady_deadlines_ m) |>) [].
Proof.
  intros [M1 M2 M3 M4 M5] [t Hq]. split; [done|by apply mm_erase_sorted| | |].
  - unfold pending in *. rewrite app_nil_r in *. unfold set; cbn. clear -M3. unfold mm_erase. induction (steady_deadlines_ m) as [|e l IH]; [done|].
    cbn in M3. apply NoDup_cons in M3 as [Hn M3]. destruct (decide (e.2 = q)) as [He|He]; [rewrite filter_cons_False by tauto; by apply IH|]. rewrite filter_cons_True by done. cbn. apply NoDup_cons. split; [|by apply IH].
    intros (y & Ey & [_ Hy]%list_elem_of_filter)%list_elem_of_fmap. apply Hn, list_elem_of_fmap. eauto.
  - unfold set; cbn. intros p t' Hp. destruct (decide (q = p)) as [->|]; [by eapply M4|]. rewrite lookup_insert_ne in Hp by done. by eapply M4.
  - intros p [Hne Hp]%pending_cancel. unfold set; cbn. rewrite lookup_insert_ne by done. by apply M5.
Qed.

(** A task that waits, in a state without callbacks under way *)
Lemma waiter out bt bs s b x tk : inv out bt bs s → blocks s !! b = Some x → tk ∈ wait_queue_ x →
  ∃ t, tasks s !! tk = Some t ∧ tk ∉ out ∧ state_ t = st_sys_block ∧ block_ t = Some b ∧ reference_ t = (if timed t then 3 else 2) ∧
    timer_ok (timer_mgr_ s) bt out tk t ∧ cont_ok (ctx_ t) ∧ 1 ≤ tk ≤ s_id_ s.
Proof.
  intros Hi Hx Hin. assert (tk ∈ list_of s (PWait b)) as (t & Ht & Hh)%(v_home _ _ _ _ Hi) by (cbn; by rewrite Hx). unfold home in Hh. destruct (decide (tk ∈ out)) as [|Ho]; [done|].
  pose proof (v_task _ _ _ _ Hi tk t Ht) as [T1 T2 T3 T4 T5]. unfold refs in T4. rewrite decide_False in T4 by done.
  assert (state_ t = st_sys_block ∧ block_ t = Some b) as [E1 E2] by (unfold home_of in Hh; destruct (state_ t); try done; destruct (block_ t); simplify_eq/=; done). exists t. done.
Qed.

(** The task is taken out of the queue of [b]; [m'] are the timers without its timer. *)
Lemma detach_ok out bt bt' bs s b x tk t t1 q m' : inv out bt bs s → blocks s !! b = Some x → tasks s !! tk = Some t → home out tk t = Some (PWait b) →
  (∀ y, y ∈ q ↔ y ≠ tk ∧ y ∈ wait_queue_ x) → NoDup q → ctx_ t1 = ctx_ t → reference_ t1 = 1 → stale m' (block_timer_ t1) → mgr_ok m' bt' →
  (∀ y u, y ≠ tk → tasks s !! y = Some u → timer_ok (timer_mgr_ s) bt out y u → timer_ok m' bt' out y u) →
  (∀ p, p ∈ pending m' bt' → p ∈ pending (timer_mgr_ s) bt ∧ (timed t = true → block_timer_ t ≠ Some p)) →
  let s1 := s <| blocks := <[b := x <| wait_queue_ := q |>]> (blocks s) |> <| tasks := <[tk := t1]> (tasks s) |> <| timer_mgr_ := m' |> in
  inv ({[tk]} ∪ out) bt' bs s1 ∧ quiet s s1.
Proof.
  intros Hi Hx Ht Hh Hq Hnq Hctx Href Hst Hm Htm Hpd s1. assert (tasks s1 = <[tk := t1]> (tasks s)) as Es by done. split; [|split; [by eapply load_put|done]].
  assert (tk ∉ out) as Ho by (unfold home in Hh; by destruct (decide (tk ∈ out))). pose proof (v_task _ _ _ _ Hi tk t Ht) as [T1 T2 T3 T4 T5].
  assert (list_of s1 (PWait b) = q) as El by (unfold list_of, s1; rsimpl; by rewrite lookup_insert_eq).
  destruct (dequeue out bt bs s s1 tk t t1 (PWait b) Hi Ht Hh Es) as [Hh' Hn'].
  { intros y. rewrite El. cbn [list_of]. rewrite Hx. apply Hq. }
  { by rewrite El. }
  { intros [| |b'] Hne; [done..|]. unfold list_of, s1. rsimpl. rewrite lookup_insert_ne by congruence. done. }
  split; try (apply Hi); try done.
  - eapply (move_tasks out); [apply Hi|apply near_add|done|done|done|]. split; [done|by rewrite Hctx|set_solver| |apply timer_ok_out; [set_solver|done]].
    unfold refs. rewrite decide_True by set_solver. done.
  - by eapply out_dom.
  - eapply put_block_dom; [done|eauto].
  - intros b' y Hy. unfold s1 in Hy. rsimpl in Hy. destruct (decide (b = b')) as [<-|]; [|rewrite lookup_insert_ne in Hy by done; by eapply v_block].
    rewrite lookup_insert_eq in Hy. injection Hy as <-. destruct (v_block _ _ _ _ Hi b x Hx) as [H1 H2]. split; rsimpl; [done|]. intros Hq0. apply H2. destruct q as [|y q]; [done|].
    destruct (proj1 (Hq y)) as [_ Hy]; [left|]. intros E. rewrite E in Hy. by apply elem_of_nil in Hy.
  - intros p Hp. destruct (Hpd p Hp) as [Hp1 Hp2]. destruct (v_pend _ _ _ _ Hi p Hp1) as (y & u & Hy & Hyo & H1 & H2). assert (y ≠ tk) as Hne by (intros ->; simplify_eq; by apply Hp2).
    exists y, u. rewrite Es, lookup_insert_ne by done. split_and!; [done|set_solver|done|done].
Qed.

Lemma timer_ok_cancel m out tk t p g : timer_ok m [] out tk t → active_ g = false → fn_lock_ g = false →
  (tk ∉ out → timed t = true → block_timer_ t ≠ Some p) →
  timer_ok (m <| timers := <[p := g]> (timers m) |> <| steady_deadlines_ := mm_erase p (steady_deadlines_ m) |>) [] out tk t.
Proof.
  unfold timer_ok. intros H H1 H2 Hne. destruct (bool_decide (tk ∈ out) || negb (timed t)) eqn:E; [by apply stale_cancel|].
  destruct H as (b & p' & Hb & Hp' & Ha). exists b, p'. split_and!; [done|done|]. apply armed_cancel; [|done]. intros ->. apply orb_false_iff in E as [E1 E2]. apply bool_decide_eq_false in E1. apply negb_false_iff in E2. by apply Hne.
Qed.

Lemma timers_distinct s bt out x y t u p : timer_ok (timer_mgr_ s) bt out x t → timer_ok (timer_mgr_ s) bt out y u → x ∉ out → y ∉ out →
  timed t = true → timed u = true → block_timer_ t = Some p → block_timer_ u = Some p → x = y.
Proof.
  unfold timer_ok. intros Ht Hu Hx Hy Et Eu Ep Ep'. rewrite bool_decide_false, Et in Ht by done. rewrite bool_decide_false, Eu in Hu by done. cbn in Ht, Hu.
  destruct Ht as (b & p1 & _ & Hp1 & tok & Hl & _). destruct Hu as (b2 & p2 & _ & Hp2 & tok2 & Hl2 & _). simplify_eq. done.
Qed.

Lemma Wakeup_waiter out bs s b x tk q : inv out [] bs s → blocks s !! b = Some x → wait_queue_ x = tk :: q →
  ∃ s', Wakeup b s = Ok (true, s') ∧ inv out [] bs s' ∧ quiet s s' ∧ (∀ y, y ∈ out → tasks s' !! y = tasks s !! y) ∧
    blocks s' = <[b := x <| wait_queue_ := q |>]> (blocks s).
Proof.
  intros Hi Hx Hq. destruct (waiter _ _ _ _ b x tk Hi Hx) as (t & Ht & Ho & Est & Eb & Er & Htm & Hctx & Hid); [rewrite Hq; left|].
  assert (home out tk t = Some (PWait b)) as Hh by (unfold home, home_of; by rewrite decide_False, Est, Eb).
  pose proof (v_nodup _ _ _ _ Hi (PWait b)) as Hn. cbn in Hn. rewrite Hx, Hq in Hn. apply NoDup_cons in Hn as [Hn1 Hn2].
  assert (∀ y, y ∈ q ↔ y ≠ tk ∧ y ∈ wait_queue_ x) as Hqi by (intros y; rewrite Hq; set_solver).
  set (s0 := s <| blocks := <[b := x <| wait_queue_ := q |>]> (blocks s) |> <| tasks := <[tk := t <| reference_ ::= Z.pred |>]> (tasks s) |>).
  assert (∃ m' t1, let s1 := s <| blocks := <[b := x <| wait_queue_ := q |>]> (blocks s) |> <| tasks := <[tk := t1]> (tasks s) |> <| timer_mgr_ := m' |> in
    end_wait tk s0 = Ok (tt, s1) ∧ inv ({[tk]} ∪ out) [] bs s1 ∧ quiet s s1) as (m' & t1 & R1 & Hi1 & Hq1).
  { pose proof Htm as Htm'. unfold timer_ok in Htm'. rewrite bool_decide_false in Htm' by done. cbn [orb] in Htm'. destruct (timed t) eqn:Etm; cbn [negb] in Htm'.
    - destruct Htm' as (b' & p & Eb' & Ep & tok & Hp & Hpin & Htok). unfold pending in Hpin. rewrite app_nil_r in Hpin. specialize (Htok Hpin). subst tok. set (m' := timer_mgr_ s <| timers := <[p := MkTimer (OnTimeout b' tk (block_sequence_ t)) false false tok_none]> (timers (timer_mgr_ s)) |> <| steady_deadlines_ := mm_erase p (steady_deadlines_ (timer_mgr_ s)) |>).
      set (t1 := t <| reference_ ::= Z.pred |> <| block_ := None |> <| reference_ ::= Z.pred |> <| block_timer_ := None |>). exists m', t1. split.
      + unfold end_wait. eapply bind_run; [apply set_task_run; unfold s0; rsimpl; apply lookup_insert_eq|]. eapply bind_run; [apply task_run; rsimpl; apply lookup_insert_eq|]. rsimpl. rewrite Ep.
        eapply bind_run; [unfold on_timers; rsimpl; unfold s0; rsimpl; erewrite BlockCancel_run by done; reflexivity|]. cbn iota beta.
        eapply bind_run; [eapply task_unref_run; [rsimpl; apply lookup_insert_eq|rsimpl; rewrite Er; unfold Z.pred; lia]|].
        erewrite set_task_run by (rsimpl; apply lookup_insert_eq). rsimpl. rewrite !insert_insert_eq. done.
      + eapply (detach_ok out [] []); try done.
        * unfold t1. rsimpl. rewrite Er. done.
        * eapply mgr_cancel; [apply Hi|eauto].
        * intros y u Hne Hu Hok. apply timer_ok_cancel; try done. intros Hyo Eu Ep'. apply Hne. by eapply (timers_distinct s [] out y tk u t p).
        * intros p' [Hne Hp']%pending_cancel. split; [done|]. congruence.
    - destruct (block_timer_ t) as [p|] eqn:Ep.
      + destruct (Htm' p eq_refl) as (tm & Hp & Ha & Hl). set (t1 := t <| reference_ ::= Z.pred |> <| block_ := None |> <| block_timer_ := None |>). exists (timer_mgr_ s), t1. split.
        * unfold end_wait. eapply bind_run; [apply set_task_run; unfold s0; rsimpl; apply lookup_insert_eq|]. eapply bind_run; [apply task_run; rsimpl; apply lookup_insert_eq|]. rsimpl. rewrite Ep.
          eapply bind_run; [unfold on_timers; rsimpl; unfold s0; rsimpl; erewrite BlockCancel_stale by done; reflexivity|]. cbn iota beta. eapply bind_run; [done|].
          erewrite set_task_run by (rsimpl; apply lookup_insert_eq). rsimpl. rewrite !insert_insert_eq. done.
        * eapply (detach_ok out [] []); try done; try (apply Hi); unfold t1; rsimpl; rewrite ?Er; first [done | intros p' Hp'; split; [done|by rewrite Etm]].
      + set (t1 := t <| reference_ ::= Z.pred |> <| block_ := None |>). exists (timer_mgr_ s), t1. split.
        * unfold end_wait. eapply bind_run; [apply set_task_run; unfold s0; rsimpl; apply lookup_insert_eq|]. eapply bind_run; [apply task_run; rsimpl; apply lookup_insert_eq|]. rsimpl. rewrite Ep.
          unfold s0. rsimpl. rewrite !insert_insert_eq. done.
        * eapply (detach_ok out [] []); try done; try (apply Hi); unfold t1; rsimpl; rewrite ?Er, ?Ep; first [done | intros p' Hp'; split; [done|by rewrite Etm]]. }
  destruct (AddTaskRunnable_ok _ _ _ _ tk Hi1) as (s2 & R2 & Hi2 & Hq2 & (t2 & Ht2) & _ & _ & Hb2); [set_solver|]. exists s2. split_and!.
  - unfold Wakeup. eapply bind_run; [by apply block_run|]. rewrite Hq. eapply bind_run; [by apply set_block_run|]. eapply bind_run; [apply task_unref_run; [exact Ht|destruct (timed t); lia]|].
    eapply bind_run; [exact R1|]. eapply bind_run; [exact R2|]. done.
  - replace (({[tk]} ∪ out) ∖ {[tk]}) with out in Hi2 by set_solver. done.
  - by etransitivity.
  - intros y Hy. rewrite Ht2, lookup_insert_ne by set_solver. rsimpl. rewrite lookup_insert_ne by set_solver. done.
  - rewrite Hb2. done.
Qed.

Lemma Wakeup_ok out bs s b : inv out [] bs s → b ∈ B → ∃ r s', Wakeup b s = Ok (r, s') ∧ inv out [] bs s' ∧ quiet s s' ∧ (∀ y, y ∈ out → tasks s' !! y = tasks s !! y).
Proof.
  intros Hi Hb. destruct (block_exists _ _ _ _ _ Hi Hb) as (x & Hx & [Hr Hw]). destruct (wait_queue_ x) as [|tk q] eqn:Eq.
  - destruct (Z.leb_spec (max_wakeup_ x) (wakeup_ x)) as [E|E].
    + exists false, s. split; [|done]. unfold Wakeup. eapply bind_run; [by apply block_run|]. rewrite Eq. by rewrite (proj2 (Z.leb_le _ _) E).
    + destruct (put_count _ _ _ _ _ _ (x <| wakeup_ ::= Z.succ |>) Hi Hx) as [Hi' Hq']; [done|split; rsimpl; [lia|by rewrite Eq]|].
      eexists true, _. split; [|split; [exact Hi'|split; [exact Hq'|done]]]. unfold Wakeup. eapply bind_run; [by apply block_run|]. rewrite Eq, (proj2 (Z.leb_gt _ _) E).
      eapply bind_run; [by apply set_block_run|]. done.
  - destruct (Wakeup_waiter _ _ _ _ _ _ _ Hi Hx Eq) as (s' & Run & Hi' & Hq' & Ho' & _). by exists true, s'.
Qed.

(** *** New tasks *)

Lemma load_lookup s tk t : tasks s !! tk = Some t → load s !! tk = Some (cont_size (ctx_ t)).
Proof. intros H. unfold load. by rewrite lookup_fmap, H. Qed.

Lemma CreateTask_ok out bt bs s c : inv out bt bs s → code_ok c → ∃ s' tk, CreateTask c s = Ok (tt, s') ∧ inv out bt bs s' ∧ tasks s !! tk = None ∧
  load s' = <[tk := code_size c]> (load s) ∧ task_count_ s' = u32 (task_count_ s + 1) ∧ blocks s' = blocks s ∧ (∀ y, y ∈ out → tasks s' !! y = tasks s !! y).
Proof.
  intros Hi Hc. set (tk := Z.succ (s_id_ s)). assert (tasks s !! tk = None) as Hf.
  { destruct (tasks s !! tk) as [t|] eqn:E; [|done]. destruct (v_task _ _ _ _ Hi _ _ E) as [[_ ?] _ _ _ _]. unfold tk in *. lia. }
  assert (tk ∉ out) as Ho by (intros H; apply (v_out _ _ _ _ Hi) in H as [t H]; congruence).
  set (t0 := MkTask (At c) st_init 0 false None 0 None 0 false 0 1).
  set (s1 := s <| s_id_ := tk |> <| tasks := <[tk := t0]> (tasks s) |> <| task_count_ := u32 (task_count_ s + 1) |>).
  assert (∀ pl, tk ∉ list_of s pl) as Hnl by (intros pl (t & Ht & _)%(v_home _ _ _ _ Hi); congruence).
  assert (inv ({[tk]} ∪ out) bt bs s1) as Hi1.
  { pose proof (v_id _ _ _ _ Hi) as Hid. split; try (apply Hi); try done.
    - unfold s1. rsimpl. unfold tk. lia.
    - eapply (move_tasks out); [apply Hi|apply near_add|done|unfold s1; rsimpl; unfold tk; lia|done|]. split; [|done|set_solver|unfold refs; by rewrite decide_True by set_solver|apply timer_ok_out; [set_solver|done]].
      unfold s1. rsimpl. unfold tk. lia.
    - intros x Hx. by eapply (out_dom out).
    - eapply (move_home out); [apply Hi|apply near_add|done|done|]. intros pl. unfold home. rewrite decide_True by set_solver. split; [intros H; by apply Hnl in H|done].
    - intros p Hp. destruct (v_pend _ _ _ _ Hi p Hp) as (x & t2 & Hx & Hxo & H1 & H2). exists x, t2. unfold s1. rsimpl. rewrite lookup_insert_ne by congruence. split_and!; [done|set_solver|done..]. }
  destruct (AddTaskRunnable_ok _ _ _ _ tk Hi1) as (s2 & R2 & Hi2 & [Hl2 Hc2] & (t2 & Ht2) & _ & _ & Hb2); [set_solver|]. exists s2, tk. split_and!; [| |done| |done|done|].
  - unfold CreateTask. eapply bind_run; [done|]. eapply bind_run; [done|]. eapply bind_run; [done|]. eapply bind_run; [done|]. exact R2.
  - by replace (({[tk]} ∪ out) ∖ {[tk]}) with out in Hi2 by set_solver.
  - rewrite Hl2. unfold load, s1. rsimpl. by rewrite fmap_insert.
  - intros y Hy. rewrite Ht2, lookup_insert_ne by set_solver. unfold s1. rsimpl. rewrite lookup_insert_ne by set_solver. done.
Qed.

(** *** From running to sleeping and waiting *)

Lemma armed_expire_inv m bt p f tp p' g w : p ≠ p' → p' = s_id m + 1 →
  armed (MkMgr p' (<[p' := MkTimer g true false tok_steady]> (timers m)) (system_deadlines_ m) (mm_insert tp p' (steady_deadlines_ m)) (system_next_trigger_time_ m) w) bt p f → armed m bt p f.
Proof.
  intros Hp Hp' (tok & Ht & Hin & Htok). exists tok. cbn in Ht. rewrite lookup_insert_ne in Ht by done. split_and!; [done| |].
  - rewrite pending_expire in Hin by done. by apply elem_of_cons in Hin as [|].
  - intros (e & -> & He)%list_elem_of_fmap. apply Htok. cbn. apply list_elem_of_fmap. exists e. split; [done|]. rewrite mm_insert_perm. by right.
Qed.

Lemma armed_pending m bt p f : armed m bt p f → p ∈ pending m bt.
Proof. by intros (tok & _ & H & _). Qed.

Lemma armed_fn m bt p f g : armed m bt p f → armed m bt p g → f = g.
Proof. intros (tok & H1 & _) (tok' & H2 & _). by simplify_eq. Qed.

Section Clock.
Context (steady system : nat → Z).

Lemma SleepSwitch_ok out bt bs s tk t : inv out bt bs s → tk ∈ out → tasks s !! tk = Some t → state_ t = st_sleep →
  ∃ s', SleepWait_SchedulerSwitch steady tk s = Ok (tt, s') ∧ inv (out ∖ {[tk]}) bt bs s' ∧ quiet s s' ∧ blocks s' = blocks s.
Proof.
  intros Hi Ho Ht Est. pose proof (v_task _ _ _ _ Hi tk t Ht) as [T1 T2 T3 T4 T5]. unfold refs in T4. rewrite decide_True in T4 by done. rewrite timer_ok_out in T5 by done.
  set (t' := t <| reference_ ::= Z.succ |>). set (m := sleep_mgr_ s). destruct (ExpireAt_steady_run (steady (ticks s) + sleep_ms_ t * 1000000) (OnSleep tk) m) as (w & Rt).
  set (p' := s_id m + 1) in *. set (m' := MkMgr p' _ _ _ _ w) in Rt.
  set (s' := s <| wait_tasks_ := wait_tasks_ s ++ [tk] |> <| tasks := <[tk := t']> (tasks s) |> <| ticks := Datatypes.S (ticks s) |> <| sleep_mgr_ := m' |>).
  exists s'. split; [|split; [|split; [split; [by eapply load_put|done]|done]]].
  { unfold SleepWait_SchedulerSwitch. eapply bind_run; [done|]. eapply bind_run; [by apply IncrementRef_run|]. eapply bind_run; [apply task_run; rsimpl; apply lookup_insert_eq|].
    eapply bind_run; [done|]. eapply bind_run; [unfold on_sleepers, ExpireAt_duration; rsimpl; fold m; rewrite Rt; reflexivity|]. done. }
  destruct (enqueue out bt bs s s' tk t t' PSleep (wait_tasks_ s) Hi Ho Ht) as [Hh' Hn']; [done..|by intros [| |b] Hne|unfold home_of, t'; rsimpl; by rewrite Est|].
  pose proof (not_listed _ _ _ _ _ Hi Ho PSleep) as Hnl. cbn in Hnl. pose proof (v_sm _ _ _ _ Hi) as Hm. fold m in Hm. assert (timed t' = false) as Etm by (unfold timed, t'; rsimpl; by rewrite Est).
  assert (∀ p f, armed m bs p f → p ≠ p') as Hold by (intros p f (tok & H & _); apply (m_id _ _ Hm) in H; unfold p'; lia).
  split; try (apply Hi); try done.
  - eapply (move_tasks out); [apply Hi|apply near_del|done|done|done|]. split; [done|done| | |by apply timer_ok_untimed].
    + intros _. unfold home_of, t'. rsimpl. rewrite Est. eauto.
    + unfold refs. rewrite decide_False, Etm by set_solver. unfold t'. rsimpl. rewrite T4. done.
  - intros x Hx. eapply (out_dom out); [done..|set_solver].
  - eapply pend_put; [done|apply near_del|done..].
  - by apply mgr_expire.
  - intros x Hx. unfold s' in Hx. rsimpl in Hx. apply elem_of_app in Hx as [Hx| ->%list_elem_of_singleton]; [|exists p'; apply armed_new].
    destruct (v_sleep _ _ _ _ Hi x Hx) as [p Hp]. exists p. apply armed_expire; [|done|done]. destruct Hp as (tok & H & _). by apply (m_id _ _ Hm) in H.
  - intros p Hp. unfold s', m' in Hp. rsimpl in Hp. rewrite pending_expire in Hp by done. unfold s'. rsimpl. apply elem_of_cons in Hp as [->|Hp]; [exists tk; split; [apply armed_new|set_solver]|].
    destruct (v_spend _ _ _ _ Hi p Hp) as (x & Ha & Hx). exists x. split; [|set_solver]. apply armed_expire; [|done|done]. destruct Ha as (tok & H & _). by apply (m_id _ _ Hm) in H.
  - assert (∀ p x, armed m' bs p (OnSleep x) → p = p' ∧ x = tk ∨ p ≠ p' ∧ armed m bs p (OnSleep x)) as Hc.
    { intros p x Ha. destruct (decide (p = p')) as [->|Hne]; [left; split; [done|]; pose proof (armed_fn _ _ _ _ _ Ha (armed_new m bs _ _ w)); congruence|right; split; [done|by eapply armed_expire_inv]]. }
    intros p1 p2 x H1%Hc H2%Hc. assert (∀ p, armed m bs p (OnSleep tk) → False) as Hno.
    { intros p Ha. destruct (v_spend _ _ _ _ Hi p (armed_pending _ _ _ _ Ha)) as (y & Ha2 & Hy). pose proof (armed_fn _ _ _ _ _ Ha Ha2). simplify_eq. done. }
    destruct H1 as [[-> ->]|[_ H1]], H2 as [[-> ?]|[_ H2]]; simplify_eq; [done|by apply Hno in H2|by apply Hno in H1|by eapply (v_sinj _ _ _ _ Hi)].
Qed.

(** The part of [AddWaitTask_ok] that does not depend on the timeout *)
Lemma attach_ok out bs s tk t t' b x m' n : inv out [] bs s → tk ∈ out → tasks s !! tk = Some t → state_ t = st_sys_block → block_ t = Some b → blocks s !! b = Some x → wakeup_ x = 0 →
  ctx_ t' = ctx_ t → state_ t' = state_ t → block_ t' = block_ t → reference_ t' = (if timed t' then 3 else 2) → mgr_ok m' [] →
  (∀ y u, y ≠ tk → tasks s !! y = Some u → timer_ok (timer_mgr_ s) [] out y u → timer_ok m' [] out y u) →
  (timer_ok m' [] (out ∖ {[tk]}) tk t') →
  (∀ p, p ∈ pending m' [] → p ∈ pending (timer_mgr_ s) [] ∨ timed t' = true ∧ block_timer_ t' = Some p) →
  let s' := s <| blocks := <[b := x <| wait_queue_ := wait_queue_ x ++ [tk] |>]> (blocks s) |> <| tasks := <[tk := t']> (tasks s) |> <| timer_mgr_ := m' |> <| ticks := n |> in
  inv (out ∖ {[tk]}) [] bs s' ∧ quiet s s'.
Proof.
  intros Hi Ho Ht Est Eb Hx Hw Ec Es' Eb' Er Hm Htm Htm' Hpd s'. split; [|split; [by eapply load_put|done]]. pose proof (v_task _ _ _ _ Hi tk t Ht) as [T1 T2 T3 T4 T5].
  assert (home_of t' = Some (PWait b)) as Hh by (unfold home_of; by rewrite Es', Est, Eb', Eb).
  destruct (enqueue out [] bs s s' tk t t' (PWait b) (wait_queue_ x) Hi Ho Ht) as [Hh' Hn']; [done|cbn; by rewrite Hx|unfold list_of, s'; rsimpl; by rewrite lookup_insert_eq| |done|].
  { intros [| |b'] Hne; [done..|]. unfold list_of, s'. rsimpl. rewrite lookup_insert_ne by congruence. done. }
  split; try (apply Hi); try done.
  - eapply (move_tasks out); [apply Hi|apply near_del|done|done|done|]. split; [done|by rewrite Ec|by rewrite Hh| |done]. unfold refs. rewrite decide_False by set_solver. done.
  - intros y Hy. eapply (out_dom out); [done..|set_solver].
  - eapply put_block_dom; [done|eauto].
  - intros b' y Hy. unfold s' in Hy. rsimpl in Hy. destruct (decide (b = b')) as [<-|]; [|rewrite lookup_insert_ne in Hy by done; by eapply v_block].
    rewrite lookup_insert_eq in Hy. injection Hy as <-. destruct (v_block _ _ _ _ Hi b x Hx) as [H1 H2]. by split.
  - intros p Hp. destruct (Hpd p Hp) as [Hp1|[H1 H2]].
    + destruct (v_pend _ _ _ _ Hi p Hp1) as (y & u & Hy & Hyo & H1 & H2). exists y, u. unfold s'. rsimpl. rewrite lookup_insert_ne by (intros ->; done). split_and!; [done|set_solver|done|done].
    + exists tk, t'. unfold s'. rsimpl. rewrite lookup_insert_eq. split_and!; [done|set_solver|done|done].
Qed.

Lemma AddWaitTask_ok out bs s tk t b x : inv out [] bs s → tk ∈ out → tasks s !! tk = Some t → state_ t = st_sys_block → block_ t = Some b → blocks s !! b = Some x → wakeup_ x = 0 →
  ∃ s', AddWaitTask steady b tk s = Ok (true, s') ∧ inv (out ∖ {[tk]}) [] bs s' ∧ quiet s s' ∧
    blocks s' = <[b := x <| wait_queue_ := wait_queue_ x ++ [tk] |>]> (blocks s) ∧ ∃ t', tasks s' = <[tk := t']> (tasks s) ∧ ctx_ t' = ctx_ t.
Proof.
  intros Hi Ho Ht Est Eb Hx Hw. pose proof (v_task _ _ _ _ Hi tk t Ht) as [T1 T2 T3 T4 T5]. unfold refs in T4. rewrite decide_True in T4 by done. rewrite timer_ok_out in T5 by done.
  unfold AddWaitTask. destruct (Z.eqb_spec (block_timeout_ t) 0) as [E0|E0].
  - set (t' := t <| reference_ ::= Z.succ |>). assert (timed t' = false) as Etm by (unfold timed, t'; rsimpl; by rewrite Est, E0).
    destruct (attach_ok out bs s tk t t' b x (timer_mgr_ s) (ticks s) Hi Ho Ht Est Eb Hx Hw) as [Hi' Hq']; try done; [rewrite Etm; unfold t'; rsimpl; by rewrite T4|apply Hi|by apply timer_ok_untimed|by left|].
    eexists. split; [|split; [exact Hi'|split; [exact Hq'|split; [done|by exists t']]]].
    eapply bind_run; [by apply block_run|]. rewrite Hw. cbn [negb Z.eqb]. eapply bind_run; [by apply set_block_run|]. eapply bind_run; [by apply IncrementRef_run|].
    eapply bind_run; [apply task_run; rsimpl; apply lookup_insert_eq|]. rsimpl. rewrite E0. cbn [Z.eqb]. eapply bind_run; [done|]. done.
  - set (m := timer_mgr_ s). destruct (ExpireAt_steady_run (steady (ticks s) + block_timeout_ t) (OnTimeout b tk (block_sequence_ t)) m) as (w & Rt).
    set (p' := s_id m + 1) in *. set (m' := MkMgr p' _ _ _ _ w) in Rt. set (t' := t <| reference_ ::= Z.succ |> <| reference_ ::= Z.succ |> <| block_timer_ := Some p' |>).
    pose proof (v_tm _ _ _ _ Hi) as Hm. fold m in Hm. assert (timed t' = true) as Etm by (unfold timed, t'; rsimpl; rewrite Est; by rewrite (proj2 (Z.eqb_neq _ _) E0)).
    destruct (attach_ok out bs s tk t t' b x m' (Datatypes.S (ticks s)) Hi Ho Ht Est Eb Hx Hw) as [Hi' Hq']; try done.
    + rewrite Etm. unfold t'. rsimpl. by rewrite T4.
    + by apply mgr_expire.
    + intros y u Hne Hu. unfold timer_ok. destruct (_ || _); [apply stale_expire; [apply Hm|done]|]. intros (b' & p & Hb & Hp & Ha). exists b', p. split_and!; [done|done|].
      apply armed_expire; [|done|done]. destruct Ha as (tok & H & _). by apply (m_id _ _ Hm) in H.
    + unfold timer_ok. rewrite bool_decide_false, Etm by set_solver. cbn. exists b, p'. split_and!; [done|done|]. apply armed_new.
    + intros p Hp. unfold m' in Hp. rewrite pending_expire in Hp by done. apply elem_of_cons in Hp as [->|Hp]; [by right|by left].
    + eexists. split; [|split; [exact Hi'|split; [exact Hq'|split; [done|by exists t']]]].
      eapply bind_run; [by apply block_run|]. rewrite Hw. cbn [negb Z.eqb]. eapply bind_run; [by apply set_block_run|]. eapply bind_run; [by apply IncrementRef_run|].
      eapply bind_run; [apply task_run; rsimpl; apply lookup_insert_eq|]. rsimpl. rewrite (proj2 (Z.eqb_neq _ _) E0).
      eapply bind_run; [eapply bind_run; [apply IncrementRef_run; rsimpl; apply lookup_insert_eq|]|].
      { eapply bind_run; [done|]. eapply bind_run; [unfold on_timers, ExpireAt_duration; rsimpl; fold m; rewrite Rt; reflexivity|]. apply set_task_run. rsimpl. apply lookup_insert_eq. }
      rsimpl. rewrite !insert_insert_eq. done.
Qed.

(** A task that is done is freed. *)
Lemma finish_ok out bt bs s tk t : inv out bt bs s → tk ∈ out → tasks s !! tk = Some t → ∃ s', DecrementRef tk s = Ok (tt, s') ∧ inv (out ∖ {[tk]}) bt bs s' ∧
  load s' = delete tk (load s) ∧ task_count_ s' = task_count_ s ∧ blocks s' = blocks s.
Proof.
  intros Hi Ho Ht. pose proof (v_task _ _ _ _ Hi tk t Ht) as [T1 T2 T3 T4 T5]. unfold refs in T4. rewrite decide_True in T4 by done.
  eexists. split; [by eapply DecrementRef_free|]. split; [|split_and!; [unfold load; rsimpl; by rewrite fmap_delete|done..]].
  assert (∀ y u, tasks s !! y = Some u → y ≠ tk → delete tk (tasks s) !! y = Some u) as Hd by (intros; by rewrite lookup_delete_ne).
  split; try (apply Hi); try done.
  - rsimpl. intros y u Hy. rewrite lookup_delete_Some in Hy. destruct Hy as [Hne Hy]. destruct (v_task _ _ _ _ Hi y u Hy) as [U1 U2 U3 U4 U5]. split; [done|done| | |].
    + intros H. apply U3. set_solver.
    + by rewrite (refs_ne out _ tk) by (apply near_del || done).
    + eapply timer_ok_near; [|apply near_del|exact U5]. done.
  - rsimpl. intros y [Hy Hne]%elem_of_difference. destruct (v_out _ _ _ _ Hi y Hy) as [u Hu]. rewrite lookup_delete_ne by set_solver. eauto.
  - intros pl y. change (list_of (s <| tasks := delete tk (tasks s) |>) pl) with (list_of s pl). rsimpl. rewrite (v_home _ _ _ _ Hi). split; intros (u & Hu & Hh).
    + exists u. assert (y ≠ tk) as Hne by (intros ->; unfold home in Hh; by rewrite decide_True in Hh). rewrite lookup_delete_ne by done. by rewrite (home_ne out _ tk) by (apply near_del || done).
    + apply lookup_delete_Some in Hu as [Hne Hu]. exists u. by rewrite (home_ne out _ tk) in Hh by (apply near_del || done).
  - rsimpl. intros p Hp. destruct (v_pend _ _ _ _ Hi p Hp) as (y & u & Hy & Hyo & H1 & H2). exists y, u. rewrite lookup_delete_ne by (intros ->; done). split_and!; [done|set_solver|done..].
Qed.

(** *** Running a coroutine *)

(** The steps left *)
Definition total (m : gmap Z nat) : nat := map_fold (fun _ n acc => (n + acc)%nat) 0%nat m.

Lemma total_insert m k n : m !! k = None → total (<[k := n]> m) = (n + total m)%nat.
Proof. intros H. unfold total. rewrite map_fold_insert_L; [done|intros; lia|done]. Qed.

Lemma total_delete m k n : m !! k = Some n → total m = (n + total (delete k m))%nat.
Proof. intros H. rewrite <- (insert_delete_id m k n H) at 1. rewrite total_insert; [done|]. apply lookup_delete_eq. Qed.

Lemma work_total s : work s = total (load s).
Proof. unfold work, total, load. by rewrite map_fold_fmap. Qed.

(** [d] tasks are done and not yet subtracted. *)
Definition count_ok (d : Z) (s : Scheduler) : Prop := task_count_ s = u32 (Z.of_nat (size (load s)) + d).

Lemma u32_add a b : u32 (u32 a + b) = u32 (a + b).
Proof. unfold u32, wrap. by rewrite Zplus_mod_idemp_l. Qed.

Lemma count_quiet d s s' : quiet s s' → count_ok d s → count_ok d s'.
Proof. intros [H1 H2]. unfold count_ok. by rewrite H1, H2. Qed.

Definition suspended (s : Scheduler) (t : Task) : Prop :=
  match state_ t with
  | st_runnable | st_sleep | st_done => True
  | st_sys_block => ∃ b x, block_ t = Some b ∧ blocks s !! b = Some x ∧ wakeup_ x = 0
  | _ => False
  end.

(** The steps left of a task that was switched out *)
Definition residual (t : Task) : nat := if decide (state_ t = st_done) then 0 else cont_size (ctx_ t).

Lemma residual_live t : state_ t ≠ st_done → residual t = cont_size (ctx_ t).
Proof. intros H. unfold residual. by rewrite decide_False. Qed.

Definition ran (tk : Z) (c : code) (out : gset Z) (bs : list Z) (s s' : Scheduler) : Prop :=
  inv out [] bs s' ∧ (∀ d, count_ok d s → count_ok d s') ∧
  ∃ t', tasks s' !! tk = Some t' ∧ suspended s' t' ∧ (total (delete tk (load s')) + residual t' + 1 ≤ total (delete tk (load s)) + code_size c)%nat.

(** The coroutine is switched out at once. *)
Lemma switch_out out bs s tk t t' c : inv out [] bs s → tk ∈ out → tasks s !! tk = Some t → reference_ t' = reference_ t → block_timer_ t' = block_timer_ t → cont_ok (ctx_ t') →
  suspended s t' → (residual t' + 1 ≤ code_size c)%nat → ran tk c out bs s (s <| tasks := <[tk := t']> (tasks s) |>).
Proof.
  intros Hi Ho Ht Hr Hb Hc Hs Hz. assert (load (s <| tasks := <[tk := t']> (tasks s) |>) = <[tk := cont_size (ctx_ t')]> (load s)) as El by (unfold load; rsimpl; by rewrite fmap_insert).
  split_and!; [by eapply set_out_ok| |].
  - intros d. unfold count_ok. rewrite El. rsimpl. rewrite map_size_insert_Some by (rewrite (load_lookup _ _ _ Ht); eauto). done.
  - exists t'. rsimpl. rewrite lookup_insert_eq. split_and!; [done|done|]. rewrite El, delete_insert_eq. lia.
Qed.

Lemma ran_step out bs s s1 s2 tk c c1 : ran tk c1 out bs s1 s2 → (∀ d, count_ok d s → count_ok d s1) →
  (total (delete tk (load s1)) + code_size c1 ≤ total (delete tk (load s)) + code_size c)%nat → ran tk c out bs s s2.
Proof. intros (H1 & H2 & t' & H3 & H4 & H5) Hc Hl. split_and!; [done|auto|]. exists t'. split_and!; [done|done|lia]. Qed.

Lemma ran_quiet out bs s s1 s2 tk c c1 : ran tk c1 out bs s1 s2 → quiet s s1 → (code_size c1 ≤ code_size c)%nat → ran tk c out bs s s2.
Proof. intros H Hq Hc. eapply ran_step; [exact H|intros d; by apply count_quiet|]. destruct Hq as [-> _]. lia. Qed.

Lemma count_create d s s' tk n : load s !! tk = None → load s' = <[tk := n]> (load s) → task_count_ s' = u32 (task_count_ s + 1) → count_ok d s → count_ok d s'.
Proof.
  intros Hf Hl Hc Hd. unfold count_ok in *. rewrite Hl, Hc, Hd, u32_add, map_size_insert_None by done. f_equal. lia.
Qed.

Lemma CoYield_run tk k s t : tasks s !! tk = Some t → CoYield tk k s = Ok (tt, s <| tasks := <[tk := t <| yield_count_ ::= Z.succ |> <| ctx_ := k |>]> (tasks s) |>).
Proof. intros Ht. unfold CoYield. by erewrite set_task_run. Qed.

Lemma set_yield_run tk f k s t : tasks s !! tk = Some t →
  (set_task tk f;; CoYield tk k) s = Ok (tt, s <| tasks := <[tk := (f t) <| yield_count_ ::= Z.succ |> <| ctx_ := k |>]> (tasks s) |>).
Proof.
  intros Ht. eapply bind_run; [by apply set_task_run|]. erewrite CoYield_run by (rsimpl; apply lookup_insert_eq). rsimpl. rewrite insert_insert_eq. done.
Qed.

Lemma set_set_yield_run tk f g k s t : tasks s !! tk = Some t →
  (set_task tk f;; set_task tk g;; CoYield tk k) s = Ok (tt, s <| tasks := <[tk := (g (f t)) <| yield_count_ ::= Z.succ |> <| ctx_ := k |>]> (tasks s) |>).
Proof.
  intros Ht. eapply bind_run; [by apply set_task_run|]. erewrite set_yield_run by (rsimpl; apply lookup_insert_eq). rsimpl. rewrite insert_insert_eq. done.
Qed.

(** [CoBlockWait] and [CoBlockWaitTimed]: [g] is what they write to the task. *)
Lemma wait_ok out bs s tk t b c k1 g k : inv out [] bs s → tk ∈ out → tasks s !! tk = Some t → b ∈ B →
  (∀ s1, inv out [] bs s1 → tasks s1 !! tk = Some t → ∃ s', run_code exception_handle tk k1 s1 = Ok (tt, s') ∧ ran tk k1 out bs s1 s') →
  reference_ (g t) = reference_ t → block_timer_ (g t) = block_timer_ t → state_ (g t) = st_sys_block → block_ (g t) = Some b → cont_ok k →
  (code_size k1 ≤ code_size c)%nat → (cont_size k + 1 ≤ code_size c)%nat →
  ∃ s', (x ← block_at b; if 0 <? wakeup_ x then set_block b (fun x => x <| wakeup_ ::= Z.pred |>);; run_code exception_handle tk k1 else set_task tk g;; CoYield tk k) s = Ok (tt, s') ∧
    ran tk c out bs s s'.
Proof.
  intros Hi Ho Ht Hb Hk1 Hg1 Hg2 Hg3 Hg4 Hk Hz1 Hz2. destruct (block_exists _ _ _ _ _ Hi Hb) as (x & Hx & [Hr Hw]). destruct (Z.ltb_spec 0 (wakeup_ x)) as [E|E].
  - destruct (put_count _ _ _ _ _ _ (x <| wakeup_ ::= Z.pred |>) Hi Hx) as [Hi1 Hq1]; [done|split; rsimpl; [lia|]; intros H; apply Hw in H; lia|].
    destruct (Hk1 _ Hi1 Ht) as (s' & R' & Hran). exists s'. split; [|by eapply ran_quiet]. eapply bind_run; [by apply block_run|]. rewrite (proj2 (Z.ltb_lt _ _) E). eapply bind_run; [by apply set_block_run|]. done.
  - eexists. split; [eapply bind_run; [by apply block_run|]; rewrite (proj2 (Z.ltb_ge _ _) E); by apply set_yield_run|].
    eapply switch_out; try done; rsimpl; try done; [unfold suspended; rsimpl; rewrite Hg3; exists b, x; split_and!; [done|done|lia]|]. rewrite residual_live by (rsimpl; congruence). done.
Qed.

Lemma run_code_ok tk c : ∀ out bs s t, inv out [] bs s → tk ∈ out → tasks s !! tk = Some t → state_ t = st_runnable → code_ok c →
  ∃ s', run_code exception_handle tk c s = Ok (tt, s') ∧ ran tk c out bs s s'.
Proof.
  induction c as [| |k IH|ms k IH|b k IH|b ns k IH|b k IH|b k IH|b k IH|c' IHc k IH]; intros out bs s t Hi Ho Ht Est Hc; cbn [run_code code_ok] in *.
  - eexists. split; [by apply set_yield_run|]. by eapply (switch_out out bs s).
  - destruct exception_handle; [done| |].
    + eexists. split; [by apply set_set_yield_run|]. by eapply (switch_out out bs s).
    + eexists. split; [by apply set_yield_run|]. by eapply (switch_out out bs s).
  - eexists. split; [by apply CoYield_run|]. eapply (switch_out out bs s); try done; [unfold suspended; rsimpl; by rewrite Est|]. rewrite residual_live by (rsimpl; congruence). rsimpl. cbn. lia.
  - destruct (ms <=? 0); eexists; (split; [first [by apply CoYield_run|by apply set_set_yield_run]|]); eapply (switch_out out bs s); try done;
      first [unfold suspended; rsimpl; by rewrite ?Est | rewrite residual_live by (rsimpl; congruence); rsimpl; cbn; lia].
  - destruct Hc as [Hb Hc]. eapply wait_ok; try done; [|cbn; lia..]. intros s1 Hi1 Ht1. by eapply IH.
  - destruct Hc as [Hb Hc]. eapply wait_ok; try done; [|cbn; lia..]. intros s1 Hi1 Ht1. by eapply IH.
  - destruct Hc as [Hb Hc]. destruct (TryBlockWait_ok _ _ _ _ _ Hi Hb) as (r & s1 & R1 & Hi1 & Hq1 & Et1). destruct (IH r out bs s1 t) as (s2 & R2 & Hran); [done|done|by rewrite Et1|done|done|].
    exists s2. split; [by eapply bind_run; [exact R1|]|]. eapply ran_quiet; [exact Hran|done|]. cbn. destruct r; lia.
  - destruct Hc as [Hb Hc]. destruct (Wakeup_ok _ _ _ _ Hi Hb) as (r & s1 & R1 & Hi1 & Hq1 & Et1). destruct (IH r out bs s1 t) as (s2 & R2 & Hran); [done|done|by rewrite Et1|done|done|].
    exists s2. split; [by eapply bind_run; [exact R1|]|]. eapply ran_quiet; [exact Hran|done|]. cbn. destruct r; lia.
  - destruct Hc as [Hb Hc]. destruct (IsWakeup_run _ _ _ _ _ Hi Hb) as (r & R1). destruct (IH r out bs s t) as (s2 & R2 & Hran); [done..|].
    exists s2. split; [by eapply bind_run; [exact R1|]|]. eapply ran_quiet; [exact Hran|done|]. cbn. destruct r; lia.
  - destruct Hc as [Hc1 Hc2]. destruct (CreateTask_ok _ _ _ _ _ Hi Hc1) as (s1 & tk' & R1 & Hi1 & Hf & Hl1 & Hc1' & _ & Et1).
    destruct (IH out bs s1 t) as (s2 & R2 & Hran); [done|done|by rewrite Et1|done|done|]. exists s2. split; [by eapply bind_run; [exact R1|]|].
    assert (load s !! tk' = None) as Hf' by (unfold load; by rewrite lookup_fmap, Hf). assert (tk' ≠ tk) as Hne by (intros ->; congruence).
    eapply ran_step; [exact Hran|intros d; by eapply count_create|]. rewrite Hl1, delete_insert_ne by done. rewrite total_insert by (rewrite lookup_delete_ne by done; done). cbn. lia.
Qed.

(** *** The processer *)

(** Fields the invariant is not about *)
Lemma inv_fields out bt bs s c n k : inv out bt bs s → inv out bt bs (s <| current_task_ := c |> <| task_count_ := n |> <| ticks := k |>).
Proof. intros Hi. split; try (apply Hi). intros tk t Ht. destruct (v_task _ _ _ _ Hi tk t Ht). by split. Qed.

Lemma inv_current out bt bs s c : inv out bt bs s → inv out bt bs (s <| current_task_ := c |>).
Proof. apply (inv_fields out bt bs s c (task_count_ s) (ticks s)). Qed.

Lemma SwapIn_ok tk out bs s t : inv out [] bs s → tk ∈ out → tasks s !! tk = Some t → state_ t = st_runnable →
  ∃ s' c, SwapIn exception_handle tk s = Ok (tt, s') ∧ ran tk c out bs s s' ∧ (code_size c ≤ cont_size (ctx_ t))%nat.
Proof.
  intros Hi Ho Ht Est. pose proof (t_ctx _ _ _ _ _ (v_task _ _ _ _ Hi tk t Ht)) as Hc.
  assert (∃ c, code_ok c ∧ (code_size c ≤ cont_size (ctx_ t))%nat ∧ SwapIn exception_handle tk s = run_code exception_handle tk c s) as (c & Hok & Hz & E).
  { unfold SwapIn, mbind, M_bind, task_at. rewrite Ht. destruct (ctx_ t) as [k|b k|b k]; cbn in *; [by exists k|by exists k|]. exists (k (negb (is_block_timeout_ t))). split_and!; [done| |done]. destruct (is_block_timeout_ t); cbn; lia. }
  rewrite E. destruct (run_code_ok tk c out bs s t) as (s' & R & Hran); try done. by exists s', c.
Qed.

Lemma count_done n s s' tk k : load s !! tk = Some k → load s' = delete tk (load s) → task_count_ s' = task_count_ s → count_ok n s → count_ok (n + 1) s'.
Proof.
  intros Hk Hl Hc Hn. unfold count_ok in *. rewrite Hc, Hn, Hl, map_size_delete_Some by eauto. f_equal. assert (size (load s) ≠ 0%nat) by (intros E; apply map_size_empty_inv in E; rewrite E in Hk; done). lia.
Qed.

Lemma run_task_ok tk out bs s t : inv out [] bs s → tk ∈ out → tasks s !! tk = Some t → state_ t = st_runnable →
  ∃ d thrown s', run_task steady exception_handle tk s = Ok ((d, thrown), s') ∧ inv (out ∖ {[tk]}) [] bs s' ∧ (total (load s') < total (load s))%nat ∧
    ∀ n, count_ok n s → count_ok (if d then n + 1 else n) s'.
Proof.
  intros Hi Ho Ht Est. set (s0 := s <| current_task_ := Some tk |>). destruct (SwapIn_ok tk out bs s0 t (inv_current _ _ _ _ _ Hi) Ho Ht Est) as (s1 & c & R1 & (Hi1 & Hc1 & t1 & Ht1 & Hs1 & Hz1) & Hz).
  set (s2 := s1 <| current_task_ := None |>). assert (inv out [] bs s2) as Hi2 by (by apply inv_current).
  assert (load s !! tk = Some (cont_size (ctx_ t))) as Hls by (by apply load_lookup). apply total_delete in Hls. change (load s0) with (load s) in *. change (load s1) with (load s2) in *.
  assert (load s2 !! tk = Some (cont_size (ctx_ t1))) as Hl2 by (by apply load_lookup). pose proof (total_delete _ _ _ Hl2) as Hl2'.
  assert (∀ r, after_switch steady tk s2 = r → run_task steady exception_handle tk s = r) as Hrun.
  { intros r <-. unfold run_task. eapply bind_run; [done|]. eapply bind_run; [exact R1|]. eapply bind_run; [done|]. done. }
  destruct (state_ t1) eqn:Est1; unfold suspended in Hs1; rewrite Est1 in Hs1; try done.
  - rewrite residual_live in Hz1 by congruence. destruct (runnable_push_ok out [] bs s2 tk t1) as (s3 & R3 & Hi3 & [Hl3 Hc3] & _); try done. exists false, false, s3. split; [|split; [done|]].
    + apply Hrun. eapply bind_run; [by apply task_run|]. rewrite Est1. eapply bind_run; [exact R3|]. done.
    + rewrite Hl3. split; [lia|]. intros n Hn. unfold count_ok in *. rewrite Hl3, Hc3. by apply Hc1.
  - destruct Hs1 as (b & x & Eb & Hx & Hw). rewrite residual_live in Hz1 by congruence. destruct (AddWaitTask_ok out bs s2 tk t1 b x) as (s3 & R3 & Hi3 & [Hl3 Hc3] & _); try done. exists false, false, s3. split; [|split; [done|]].
    + apply Hrun. eapply bind_run; [by apply task_run|]. rewrite Est1, Eb. eapply bind_run; [exact R3|]. eapply bind_run; [done|]. done.
    + rewrite Hl3. split; [lia|]. intros n Hn. unfold count_ok in *. rewrite Hl3, Hc3. by apply Hc1.
  - rewrite residual_live in Hz1 by congruence. destruct (SleepSwitch_ok out [] bs s2 tk t1) as (s3 & R3 & Hi3 & [Hl3 Hc3] & _); try done. exists false, false, s3. split; [|split; [done|]].
    + apply Hrun. eapply bind_run; [by apply task_run|]. rewrite Est1. eapply bind_run; [exact R3|]. done.
    + rewrite Hl3. split; [lia|]. intros n Hn. unfold count_ok in *. rewrite Hl3, Hc3. by apply Hc1.
  - destruct (finish_ok out [] bs s2 tk t1) as (s3 & R3 & Hi3 & Hl3 & Hc3 & _); try done. exists true, (eptr_ t1), s3. split; [|split; [done|]].
    + apply Hrun. eapply bind_run; [by apply task_run|]. rewrite Est1. eapply bind_run; [exact R3|]. done.
    + rewrite Hl3. split; [lia|]. intros n Hn. eapply count_done; [exact Hl2|done|done|]. by apply Hc1.
Qed.

Lemma proc_loop_ok fuel : ∀ out bs s c d, inv out [] bs s → (total (load s) < fuel)%nat → count_ok d s →
  ∃ c' d' thrown s', proc_loop steady exception_handle fuel c d s = Ok ((c', d', thrown), s') ∧ inv out [] bs s' ∧ count_ok d' s'.
Proof.
  induction fuel as [|fuel IH]; intros out bs s c d Hi Hf Hd; [lia|]. cbn [proc_loop]. destruct (Z.leb_spec (Z.of_nat (length (runnable_list_ s))) c) as [E|E].
  - exists c, d, false, s. split; [|done]. eapply bind_run; [done|]. by rewrite (proj2 (Z.leb_le _ _) E).
  - destruct (runnable_list_ s) as [|tk l] eqn:El.
    + exists c, d, false, s. split; [|done]. eapply bind_run; [done|]. rewrite El. cbn [length] in E |- *. rewrite (proj2 (Z.leb_gt _ _) E). done.
    + destruct (pop_ok out [] bs s tk l Hi El) as (t & s1 & Ht & R1 & Hi1 & Hq1 & Ht1 & Est & Ho & _). apply bind_Ok in R1 as (u & s0 & Ra & Rb). injection Ra as <- <-.
      destruct (run_task_ok tk ({[tk]} ∪ out) bs s1 (t <| reference_ ::= Z.pred |>)) as (dn & thrown & s2 & R2 & Hi2 & Hz2 & Hc2); [done|set_solver|rewrite Ht1; apply lookup_insert_eq|done|].
      replace (({[tk]} ∪ out) ∖ {[tk]}) with out in Hi2 by set_solver. pose proof (Hc2 d (count_quiet _ _ _ Hq1 Hd)) as Hd2. destruct Hq1 as [Hl1 _]. rewrite Hl1 in Hz2.
      assert (Z.of_nat (length (tk :: l)) <=? c = false) as E' by (by apply Z.leb_gt).
      destruct thrown.
      * eexists _, _, true, s2. split; [|split; [exact Hi2|exact Hd2]]. eapply bind_run; [done|]. rewrite El, E'. eapply bind_run; [done|]. eapply bind_run; [exact Rb|]. eapply bind_run; [exact R2|]. done.
      * destruct (IH out bs s2 (c + 1) (if dn then d + 1 else d) Hi2) as (c' & d' & th & s3 & R3 & Hi3 & Hd3); [lia|done|]. exists c', d', th, s3. split; [|done].
        eapply bind_run; [done|]. rewrite El, E'. eapply bind_run; [done|]. eapply bind_run; [exact Rb|]. eapply bind_run; [exact R2|]. exact R3.
Qed.

Lemma DoRunnable_ok out bs s : inv out [] bs s → count_ok 0 s → ∃ r s', DoRunnable steady exception_handle s = Ok (r, s') ∧ inv out [] bs s' ∧ count_ok 0 s'.
Proof.
  intros Hi Hd. destruct (proc_loop_ok (Datatypes.S (work s)) out bs s 0 0 Hi) as (c' & d' & th & s1 & R1 & Hi1 & Hd1); [rewrite work_total; lia|done|].
  eexists _, _. split; [|split].
  - unfold DoRunnable. eapply bind_run; [unfold Processer_Run; eapply bind_run; [done|exact R1]|]. cbn beta iota. eapply bind_run; [done|]. reflexivity.
  - by apply (inv_fields out [] bs s1 (current_task_ s1) (u32 (task_count_ s1 - d')) (ticks s1)).
  - unfold count_ok in *. change (load _) with (load s1) at 1. rsimpl. rewrite Hd1. rewrite <- Z.add_opp_r, u32_add. f_equal. lia.
Qed.

(** *** Timers that expire *)

(** [GetExpired] moves [k] timers from the deadlines to the batch. *)
Definition expired (m m' : CoTimerMgr callback) (k : nat) : Prop :=
  s_id m' = s_id m ∧ timers m' = tokens_cleared (take k (steady_deadlines_ m)).*2 (timers m) ∧ system_deadlines_ m' = [] ∧ steady_deadlines_ m' = drop k (steady_deadlines_ m).

Lemma pending_expired m m' k : expired m m' k → pending m' (take k (steady_deadlines_ m)).*2 ≡ₚ pending m [].
Proof. intros (_ & _ & _ & E). unfold pending. rewrite E, app_nil_r. rewrite Permutation_app_comm, <- fmap_app, take_drop. done. Qed.

Lemma mgr_expired m m' k : mgr_ok m [] → expired m m' k → mgr_ok m' (take k (steady_deadlines_ m)).*2.
Proof.
  intros [M1 M2 M3 M4 M5] He. pose proof (pending_expired _ _ _ He) as Hp. destruct He as (E1 & E2 & E3 & E4). split.
  - done.
  - rewrite E4. by apply by_time_drop.
  - by rewrite Hp.
  - intros p t. rewrite E2, tokens_cleared_lookup, E1. case_bool_decide; [|apply M4]. destruct (timers m !! p) as [u|] eqn:Eu; [|done]. intros _. by eapply M4.
  - intros p Hin. rewrite Hp in Hin. destruct (M5 p Hin) as [u Hu]. rewrite E2, tokens_cleared_lookup, Hu. case_bool_decide; cbn; eauto.
Qed.

Lemma armed_expired m m' k p f : mgr_ok m [] → expired m m' k → armed m [] p f → armed m' (take k (steady_deadlines_ m)).*2 p f.
Proof.
  intros Hm He. pose proof (pending_expired _ _ _ He) as Hp. pose proof (m_nodup _ _ Hm) as Hn. rewrite <- Hp in Hn. unfold pending in Hn at 1. apply NoDup_app in Hn as (_ & Hn & _).
  destruct He as (E1 & E2 & E3 & E4). rewrite E4 in Hn. assert ((steady_deadlines_ m).*2 = (take k (steady_deadlines_ m)).*2 ++ (drop k (steady_deadlines_ m)).*2) as Es by (by rewrite <- fmap_app, take_drop).
  unfold armed. intros (tok & Ht & Hin & Htok). destruct (decide (p ∈ (take k (steady_deadlines_ m)).*2)) as [Hb|Hb].
  - exists tok_none. rewrite E2, tokens_cleared_lookup, Ht, Hp, E4, bool_decide_true by done. split_and!; [done|done|]. intros H. exfalso. by apply (Hn p H).
  - exists tok. rewrite E2, tokens_cleared_lookup, Ht, Hp, E4, bool_decide_false by done. split_and!; [done|done|]. intros H. apply Htok. rewrite Es. apply elem_of_app. by right.
Qed.

Lemma stale_expired m m' k o : expired m m' k → stale m o → stale m' o.
Proof.
  intros (E1 & E2 & _) Hs p Hp. destruct (Hs p Hp) as (t & Ht & Ha & Hl). rewrite E2, tokens_cleared_lookup, Ht. case_bool_decide; [|by exists t]. eexists. split; [done|]. done.
Qed.

Lemma GetExpired_on (on : ∀ A, M (CoTimerMgr callback) A → CoSched.S A) (get : Scheduler → CoTimerMgr callback) (put : CoTimerMgr callback → Scheduler → Scheduler) n s :
  (∀ A (m : M (CoTimerMgr callback) A) s a m', m (get s) = Ok (a, m') → on A m s = Ok (a, put m' s)) → (∀ j, get (s <| ticks := j |>) = get s) →
  system_deadlines_ (get s) = [] → by_time (steady_deadlines_ (get s)) →
  ∃ k next m', let l := steady_deadlines_ (get s) in let d := steady (Datatypes.S (ticks s)) in
    GetExpired_now steady system on n s = Ok (((take k l).*2, next), put m' (s <| ticks := (4 + ticks s)%nat |>)) ∧ expired (get s) m' k ∧
    (k ≤ n)%nat ∧ (k ≤ length l)%nat ∧ (∀ e, e ∈ take k l → e.1 ≤ d) ∧ ((k < n)%nat → ∀ e, e ∈ drop k l → d < e.1).
Proof.
  intros Hon Hget Hsys Hs. destruct (GetExpired_run (system (ticks s)) (steady (Datatypes.S (ticks s))) (system (2 + ticks s)%nat) (steady (3 + ticks s)%nat) n (get s) Hsys Hs) as (k & next & w1 & w2 & R & Hk).
  eexists k, next, _. split; [|split; [|exact Hk]].
  - unfold GetExpired_now. do 4 (eapply bind_run; [done|]). refine (Hon _ _ (s <| ticks := (4 + ticks s)%nat |>) _ _ _). rewrite Hget. exact R.
  - split_and!; done.
Qed.

Lemma expire_timers_ok out bs s n : inv out [] bs s → ∃ ps next s', GetExpired_now steady system (@on_timers) n s = Ok ((ps, next), s') ∧ inv out ps bs s' ∧ quiet s s' ∧
  (length (steady_deadlines_ (timer_mgr_ s')) + length ps = length (steady_deadlines_ (timer_mgr_ s)))%nat ∧
  ((length ps < n)%nat → ∀ e, e ∈ steady_deadlines_ (timer_mgr_ s') → steady (Datatypes.S (ticks s)) < e.1) ∧ sleep_mgr_ s' = sleep_mgr_ s ∧ (ticks s ≤ ticks s')%nat.
Proof.
  intros Hi. pose proof (v_tm _ _ _ _ Hi) as Hm. destruct (GetExpired_on (@on_timers) timer_mgr_ (fun m s => s <| timer_mgr_ := m |>) n s) as (k & next & m' & R & He & Hk & Hkl & Hd1 & Hd2).
  { intros A mm s0 a m' E. unfold on_timers. by rewrite E. } { done. } { apply Hm. } { apply Hm. }
  eexists _, next, _. split; [exact R|]. cbn zeta in *. pose proof He as (E1 & E2 & E3 & E4). set (l := steady_deadlines_ (timer_mgr_ s)) in *.
  split; [|split_and!; [done|rsimpl; rewrite E4, length_fmap, length_drop, length_take; fold l; lia| |done|rsimpl; lia]].
  - split; try (apply Hi).
    + intros tk t Ht. destruct (v_task _ _ _ _ Hi tk t Ht) as [T1 T2 T3 T4 T5]. split; try done. unfold timer_ok in *. rsimpl. destruct (_ || _); [by eapply stale_expired|].
      destruct T5 as (b & p & Hb & Hp & Ha). exists b, p. split_and!; [done|done|]. by apply armed_expired.
    + rsimpl. by apply mgr_expired.
    + rsimpl. intros p Hp. unfold l in Hp. rewrite (pending_expired _ _ _ He) in Hp. by apply Hi.
  - rewrite length_fmap, length_take. fold l. intros Hlt e He'. rsimpl in He'. rewrite E4 in He'. apply Hd2; [lia|done].
Qed.

Lemma expire_sleepers_ok out bt s n : inv out bt [] s → ∃ ps next s', GetExpired_now steady system (@on_sleepers) n s = Ok ((ps, next), s') ∧ inv out bt ps s' ∧ quiet s s' ∧
  (length (steady_deadlines_ (sleep_mgr_ s')) + length ps = length (steady_deadlines_ (sleep_mgr_ s)))%nat ∧
  ((length ps < n)%nat → ∀ e, e ∈ steady_deadlines_ (sleep_mgr_ s') → steady (Datatypes.S (ticks s)) < e.1) ∧ timer_mgr_ s' = timer_mgr_ s ∧ (ticks s ≤ ticks s')%nat.
Proof.
  intros Hi. pose proof (v_sm _ _ _ _ Hi) as Hm. destruct (GetExpired_on (@on_sleepers) sleep_mgr_ (fun m s => s <| sleep_mgr_ := m |>) n s) as (k & next & m' & R & He & Hk & Hkl & Hd1 & Hd2).
  { intros A mm s0 a m' E. unfold on_sleepers. by rewrite E. } { done. } { apply Hm. } { apply Hm. }
  eexists _, next, _. split; [exact R|]. cbn zeta in *. pose proof He as (E1 & E2 & E3 & E4). set (l := steady_deadlines_ (sleep_mgr_ s)) in *.
  split; [|split_and!; [done|rsimpl; rewrite E4, length_fmap, length_drop, length_take; fold l; lia| |done|rsimpl; lia]].
  - split; try (apply Hi).
    + intros tk t Ht. destruct (v_task _ _ _ _ Hi tk t Ht). by split.
    + rsimpl. by apply mgr_expired.
    + rsimpl. intros tk Htk. destruct (v_sleep _ _ _ _ Hi tk Htk) as [p Hp]. exists p. by apply armed_expired.
    + rsimpl. intros p Hp. unfold l in Hp. rewrite (pending_expired _ _ _ He) in Hp. destruct (v_spend _ _ _ _ Hi p Hp) as (tk & Ha & Htk). exists tk. split; [by apply armed_expired|done].
    + rsimpl. assert (∀ p x, armed m' (take k l).*2 p (OnSleep x) → armed (sleep_mgr_ s) [] p (OnSleep x)) as Hback.
      { intros p x Ha. pose proof (armed_pending _ _ _ _ Ha) as Hp. unfold l in Hp. rewrite (pending_expired _ _ _ He) in Hp. destruct (v_spend _ _ _ _ Hi p Hp) as (y & Ha2 & _).
        pose proof (armed_expired _ _ _ _ _ Hm He Ha2) as Ha3. pose proof (armed_fn _ _ _ _ _ Ha Ha3). congruence. }
      intros p1 p2 x H1%Hback H2%Hback. by eapply (v_sinj _ _ _ _ Hi).
  - rewrite length_fmap, length_take. fold l. intros Hlt e He'. rsimpl in He'. rewrite E4 in He'. apply Hd2; [lia|done].
Qed.

Lemma AddTaskRunnable_run tk s t : tasks s !! tk = Some t →
  AddTaskRunnable tk s = Ok (tt, s <| tasks := <[tk := t <| state_ := st_runnable |> <| reference_ ::= Z.succ |>]> (tasks s) |> <| runnable_list_ := runnable_list_ s ++ [tk] |>).
Proof.
  intros Ht. unfold AddTaskRunnable. eapply bind_run; [by apply set_task_run|]. unfold runnable_push. eapply bind_run; [done|]. erewrite IncrementRef_run by (rsimpl; apply lookup_insert_eq).
  do 2 f_equal. unfold set; cbn. by rewrite insert_insert_eq.
Qed.

(** A timer of the batch has run. *)
Definition fired (m : CoTimerMgr callback) (p : Z) (f : callback) (tok : e_token_state) (lk : bool) : CoTimerMgr callback := m <| timers := <[p := MkTimer f false lk tok]> (timers m) |>.

Lemma fired_leave m p f tok lk : timer_leave p (fired m p f tok lk) = Ok (tt, fired m p f tok false).
Proof.
  unfold timer_leave, set_timer, modify, fired. do 2 f_equal. unfold set; cbn. f_equal. rewrite (alter_some _ _ _ _ (lookup_insert_eq _ _ _)), insert_insert_eq. done.
Qed.

Lemma mgr_fired m p ps f tok lk : mgr_ok m (p :: ps) → mgr_ok (fired m p f tok lk) ps.
Proof.
  intros [M1 M2 M3 M4 M5]. assert (pending m (p :: ps) ≡ₚ p :: pending m ps) as E by (unfold pending; by rewrite Permutation_middle). rewrite E in M3. apply NoDup_cons in M3 as [M3 M3']. split; try done.
  - intros p' t. unfold fired, set; cbn. destruct (decide (p = p')) as [->|]; [intros _|rewrite lookup_insert_ne by done; apply M4]. destruct (M5 p') as [u Hu]; [rewrite E; left|]. by eapply M4.
  - intros p' Hp'. change (pending (fired m p f tok lk) ps) with (pending m ps) in Hp'. unfold fired, set; cbn. rewrite lookup_insert_is_Some'. right. apply M5. rewrite E. by right.
Qed.

Lemma armed_fired m p ps f tok lk p' g : p' ≠ p → armed m (p :: ps) p' g → armed (fired m p f tok lk) ps p' g.
Proof.
  intros Hne (tok' & Ht & Hin & Htok). exists tok'. unfold fired, set; cbn. rewrite lookup_insert_ne by done. split_and!; [done| |done]. unfold pending in *. cbn. set_solver.
Qed.

Lemma stale_fired m p f tok o : stale m o → stale (fired m p f tok false) o.
Proof.
  intros Hs p' Hp'. destruct (Hs p' Hp') as (t & Ht & H). unfold fired, set; cbn. destruct (decide (p = p')) as [->|]; [eexists; by rewrite lookup_insert_eq|]. exists t. by rewrite lookup_insert_ne.
Qed.

Lemma sched_ext (s1 s2 : Scheduler) : s_id_ s1 = s_id_ s2 → tasks s1 = tasks s2 → task_count_ s1 = task_count_ s2 → current_task_ s1 = current_task_ s2 → runnable_list_ s1 = runnable_list_ s2 →
  wait_tasks_ s1 = wait_tasks_ s2 → blocks s1 = blocks s2 → timer_mgr_ s1 = timer_mgr_ s2 → sleep_mgr_ s1 = sleep_mgr_ s2 → ticks s1 = ticks s2 → s1 = s2.
Proof. destruct s1, s2. cbn. congruence. Qed.

Lemma enter_fired m p f tok : timers m !! p = Some (MkTimer f true false tok) → timer_enter p m = Ok (Some f, fired m p f tok true).
Proof. intros H. exact (timer_enter_run p _ m H eq_refl eq_refl). Qed.

Lemma filter_out tk (l : list Z) : (∀ y, y ∈ filter (fun y => y ≠ tk) l ↔ y ≠ tk ∧ y ∈ l) ∧ (NoDup l → NoDup (filter (fun y => y ≠ tk) l)).
Proof. split; [intros y; by rewrite list_elem_of_filter|apply NoDup_filter]. Qed.

(** The task the timer [p] of the batch is for *)
Lemma batch_task out p ps bs s : inv out (p :: ps) bs s → ∃ tk t b x tok, tasks s !! tk = Some t ∧ tk ∉ out ∧ timed t = true ∧ block_timer_ t = Some p ∧ state_ t = st_sys_block ∧ block_ t = Some b ∧
  blocks s !! b = Some x ∧ tk ∈ wait_queue_ x ∧ reference_ t = 3 ∧ timers (timer_mgr_ s) !! p = Some (MkTimer (OnTimeout b tk (block_sequence_ t)) true false tok).
Proof.
  intros Hi. destruct (v_pend _ _ _ _ Hi p) as (tk & t & Ht & Ho & Htm & Hp); [unfold pending; set_solver|]. pose proof (v_task _ _ _ _ Hi tk t Ht) as [T1 T2 T3 T4 T5].
  unfold refs in T4. rewrite decide_False, Htm in T4 by done. unfold timer_ok in T5. rewrite bool_decide_false, Htm in T5 by done. destruct T5 as (b & p' & Eb & Ep & tok & Hl & _). simplify_eq.
  assert (state_ t = st_sys_block) as Est by (unfold timed in Htm; by case_bool_decide). assert (tk ∈ list_of s (PWait b)) as Hin.
  { apply (v_home _ _ _ _ Hi). exists t. split; [done|]. unfold home, home_of. by rewrite decide_False, Est, Eb. }
  cbn in Hin. destruct (blocks s !! b) as [x|] eqn:Hx; [|by apply elem_of_nil in Hin]. exists tk, t, b, x, tok. done.
Qed.

Lemma fire_timeout_ok out p ps bs s : inv out (p :: ps) bs s → ∃ s',
  (f ← on_timers (timer_enter p); (match f with Some f => run_callback f;; on_timers (timer_leave p) | None => mret tt end)) s = Ok (tt, s') ∧
  inv out ps bs s' ∧ quiet s s' ∧ steady_deadlines_ (timer_mgr_ s') = steady_deadlines_ (timer_mgr_ s) ∧ sleep_mgr_ s' = sleep_mgr_ s ∧ ticks s' = ticks s.
Proof.
  intros Hi. destruct (batch_task _ _ _ _ _ Hi) as (tk & t & b & x & tok & Ht & Ho & Htm & Hp & Est & Eb & Hx & Hin & Er & Hl).
  set (q := filter (fun y => y ≠ tk) (wait_queue_ x)). set (m' := fired (timer_mgr_ s) p (OnTimeout b tk (block_sequence_ t)) tok false).
  set (t1 := t <| reference_ ::= Z.pred |> <| block_ := None |> <| is_block_timeout_ := true |> <| reference_ ::= Z.pred |>).
  set (s1 := s <| blocks := <[b := x <| wait_queue_ := q |>]> (blocks s) |> <| tasks := <[tk := t1]> (tasks s) |> <| timer_mgr_ := m' |>).
  destruct (filter_out tk (wait_queue_ x)) as [Hq1 Hq2]. pose proof (v_nodup _ _ _ _ Hi (PWait b)) as Hn. cbn in Hn. rewrite Hx in Hn.
  assert (inv ({[tk]} ∪ out) ps bs s1 ∧ quiet s s1) as [Hi1 Hqu1].
  { eapply (detach_ok out (p :: ps) ps); try done.
    - unfold home, home_of. by rewrite decide_False, Est, Eb.
    - by apply Hq2.
    - unfold t1. rsimpl. by rewrite Er.
    - unfold t1. rsimpl. rewrite Hp. intros p' [= <-]. eexists. unfold m', fired, set; cbn. by rewrite lookup_insert_eq.
    - apply mgr_fired, Hi.
    - intros y u Hne Hu Hok. unfold timer_ok in *. destruct (_ || _) eqn:E; [by apply stale_fired|]. destruct Hok as (b' & p' & Hb' & Hp' & Ha). exists b', p'. split_and!; [done|done|].
      apply armed_fired; [|done]. intros ->. destruct Ha as (tok' & Hl' & _). by simplify_eq.
    - intros p' Hp'. change (pending m' ps) with (pending (timer_mgr_ s) ps) in Hp'. pose proof (m_nodup _ _ (v_tm _ _ _ _ Hi)) as Hnd. unfold pending in *. rewrite <- Permutation_middle in Hnd. apply NoDup_cons in Hnd as [Hnd _].
      split; [set_solver|]. intros _ E. rewrite Hp in E. injection E as ->. done. }
  destruct (AddTaskRunnable_ok _ _ _ _ tk Hi1) as (s2 & R2 & Hi2 & Hq' & _ & Hm2 & Hs2 & _); [set_solver|]. erewrite AddTaskRunnable_run in R2 by apply lookup_insert_eq. injection R2 as <-.
  replace (({[tk]} ∪ out) ∖ {[tk]}) with out in Hi2 by set_solver. eexists. split; [|split; [exact Hi2|split; [by etransitivity|done]]].
  eapply bind_run; [unfold on_timers; by erewrite enter_fired|]. cbn iota.
  eapply bind_run.
  { cbn [run_callback]. eapply bind_run; [apply task_run; exact Ht|]. rewrite Z.eqb_refl. eapply bind_run.
    - unfold CancelWait. eapply bind_run; [apply task_run; exact Ht|]. rewrite Eb, bool_decide_true by done. cbn [negb]. rewrite Z.eqb_refl. cbn [negb]. eapply bind_run; [apply block_run; exact Hx|].
      rewrite bool_decide_true by done. cbn [negb]. eapply bind_run; [by apply set_block_run|]. eapply bind_run; [eapply task_unref_run; [exact Ht|lia]|].
      eapply bind_run; [apply set_task_run; rsimpl; apply lookup_insert_eq|]. eapply bind_run; [apply task_run; rsimpl; apply lookup_insert_eq|]. eapply bind_run; [done|].
      eapply bind_run; [apply set_task_run; rsimpl; apply lookup_insert_eq|]. apply AddTaskRunnable_run. rsimpl. apply lookup_insert_eq.
    - eapply task_unref_run; [rsimpl; apply lookup_insert_eq|]. rsimpl. rewrite Er. unfold Z.succ, Z.pred. lia. }
  unfold on_timers. rsimpl. rewrite fired_leave. do 2 f_equal. unfold s1, m', q. apply sched_ext; rsimpl; try reflexivity. rewrite !insert_insert_eq. f_equal. unfold t1, set. cbn. by rewrite Er.
Qed.

Lemma fire_sleep_ok out bt p ps s : inv out bt (p :: ps) s → ∃ s',
  (f ← on_sleepers (timer_enter p); (match f with Some f => run_callback f;; on_sleepers (timer_leave p) | None => mret tt end)) s = Ok (tt, s') ∧
  inv out bt ps s' ∧ quiet s s' ∧ steady_deadlines_ (sleep_mgr_ s') = steady_deadlines_ (sleep_mgr_ s) ∧ timer_mgr_ s' = timer_mgr_ s ∧ ticks s' = ticks s.
Proof.
  intros Hi. destruct (v_spend _ _ _ _ Hi p) as (tk & Ha & Hin); [unfold pending; set_solver|]. pose proof Ha as (tok & Hl & Hpin & _).
  assert (tk ∈ list_of s PSleep) as (t & Ht & Hh)%(v_home _ _ _ _ Hi) by done. assert (tk ∉ out) as Ho by (unfold home in Hh; by destruct (decide (tk ∈ out))).
  assert (state_ t = st_sleep) as Est by (unfold home in Hh; rewrite decide_False in Hh by done; unfold home_of in Hh; destruct (state_ t); try done; by destruct (block_ t)).
  assert (timed t = false) as Etm by (unfold timed; by rewrite Est). pose proof (v_task _ _ _ _ Hi tk t Ht) as [T1 T2 T3 T4 T5]. unfold refs in T4. rewrite decide_False, Etm in T4 by done. rewrite timer_ok_untimed in T5 by done.
  set (l := filter (fun y => y ≠ tk) (wait_tasks_ s)). set (m' := fired (sleep_mgr_ s) p (OnSleep tk) tok false). set (t1 := t <| reference_ ::= Z.pred |>).
  set (s1 := s <| wait_tasks_ := l |> <| tasks := <[tk := t1]> (tasks s) |> <| sleep_mgr_ := m' |>).
  destruct (filter_out tk (wait_tasks_ s)) as [Hq1 Hq2].
  assert (∀ p' x, armed m' ps p' (OnSleep x) → p' ≠ p ∧ armed (sleep_mgr_ s) (p :: ps) p' (OnSleep x)) as Hback.
  { intros p' x (tok' & Hl' & Hin' & Htok'). unfold m', fired, set in Hl'; cbn in Hl'. destruct (decide (p = p')) as [->|Hne]; [by rewrite lookup_insert_eq in Hl'|]. rewrite lookup_insert_ne in Hl' by done.
    split; [done|]. exists tok'. split_and!; [done| |done]. change (pending m' ps) with (pending (sleep_mgr_ s) ps) in Hin'. unfold pending in *. set_solver. }
  assert (inv ({[tk]} ∪ out) bt ps s1) as Hi1.
  { destruct (dequeue out bt (p :: ps) s s1 tk t t1 PSleep Hi Ht Hh) as [Hh' Hn']; [done|done|apply Hq2, (v_nodup _ _ _ _ Hi PSleep)|by intros [| |b] Hne|].
    split; try (apply Hi); try done.
    - eapply (move_tasks out); [apply Hi|apply near_add|done|done|done|]. split; [done|done|set_solver| |apply timer_ok_out; [set_solver|done]]. unfold refs. rewrite decide_True by set_solver. unfold t1. rsimpl. by rewrite T4.
    - by eapply out_dom.
    - eapply pend_put; [done|apply near_add|done..].
    - apply mgr_fired, Hi.
    - intros x [Hne Hx]%Hq1. destruct (v_sleep _ _ _ _ Hi x Hx) as [p' Hp']. exists p'. apply armed_fired; [|done]. intros ->. pose proof (armed_fn _ _ _ _ _ Ha Hp'). congruence.
    - intros p' Hp'. change (pending m' ps) with (pending (sleep_mgr_ s) ps) in Hp'. pose proof (m_nodup _ _ (v_sm _ _ _ _ Hi)) as Hnd. unfold pending in *. rewrite <- Permutation_middle in Hnd. apply NoDup_cons in Hnd as [Hnd _].
      destruct (v_spend _ _ _ _ Hi p') as (x & Hx & Hxin); [unfold pending; set_solver|]. assert (p' ≠ p) as Hne by (intros ->; done). exists x. split; [by apply armed_fired|]. apply Hq1. split; [|done].
      intros ->. apply Hne. by eapply (v_sinj _ _ _ _ Hi).
    - intros p1 p2 x [_ H1]%Hback [_ H2]%Hback. by eapply (v_sinj _ _ _ _ Hi). }
  destruct (AddTaskRunnable_ok _ _ _ _ tk Hi1) as (s2 & R2 & Hi2 & Hq' & _ & Hm2 & Hs2 & _); [set_solver|]. erewrite AddTaskRunnable_run in R2 by apply lookup_insert_eq. injection R2 as <-.
  replace (({[tk]} ∪ out) ∖ {[tk]}) with out in Hi2 by set_solver. assert (quiet s s1) as Hqu1 by (split; [by eapply load_put|done]). eexists. split; [|split; [exact Hi2|split; [by etransitivity|done]]].
  eapply bind_run; [unfold on_sleepers; by erewrite enter_fired|]. cbn iota. eapply bind_run.
  { cbn [run_callback]. unfold SleepWait_Wakeup. eapply bind_run; [done|]. rewrite bool_decide_true by done. eapply bind_run.
    - eapply bind_run; [done|]. eapply bind_run; [eapply task_unref_run; [exact Ht|lia]|]. done.
    - eapply bind_run; [done|]. apply AddTaskRunnable_run. rsimpl. apply lookup_insert_eq. }
  unfold on_sleepers. rsimpl. rewrite fired_leave. do 2 f_equal.
Qed.

Lemma fire_timers_ok ps : ∀ out bs s, inv out ps bs s → ∃ s', fire (@on_timers) ps s = Ok (tt, s') ∧ inv out [] bs s' ∧ quiet s s' ∧
  steady_deadlines_ (timer_mgr_ s') = steady_deadlines_ (timer_mgr_ s) ∧ sleep_mgr_ s' = sleep_mgr_ s ∧ ticks s' = ticks s.
Proof.
  induction ps as [|p ps IH]; intros out bs s Hi; [by exists s|]. destruct (fire_timeout_ok _ _ _ _ _ Hi) as (s1 & R1 & Hi1 & Hq1 & H1 & H2 & H3).
  destruct (IH out bs s1 Hi1) as (s2 & R2 & Hi2 & Hq2 & H4 & H5 & H6). exists s2. split; [|split_and!; [done|by etransitivity|congruence..]].
  cbn [fire]. apply bind_Ok in R1 as (f & s0 & Ra & Rb). eapply bind_run; [exact Ra|]. eapply bind_run; [exact Rb|]. exact R2.
Qed.

Lemma fire_sleepers_ok ps : ∀ out bt s, inv out bt ps s → ∃ s', fire (@on_sleepers) ps s = Ok (tt, s') ∧ inv out bt [] s' ∧ quiet s s' ∧
  steady_deadlines_ (sleep_mgr_ s') = steady_deadlines_ (sleep_mgr_ s) ∧ timer_mgr_ s' = timer_mgr_ s ∧ ticks s' = ticks s.
Proof.
  induction ps as [|p ps IH]; intros out bt s Hi; [by exists s|]. destruct (fire_sleep_ok _ _ _ _ _ Hi) as (s1 & R1 & Hi1 & Hq1 & H1 & H2 & H3).
  destruct (IH out bt s1 Hi1) as (s2 & R2 & Hi2 & Hq2 & H4 & H5 & H6). exists s2. split; [|split_and!; [done|by etransitivity|congruence..]].
  cbn [fire]. apply bind_Ok in R1 as (f & s0 & Ra & Rb). eapply bind_run; [exact Ra|]. eapply bind_run; [exact Rb|]. exact R2.
Qed.

(** No timer that is left was due when the loop looked last. *)
Definition none_due (since : nat) (l : deadlines) : Prop := ∃ n, (since ≤ n)%nat ∧ ∀ e, e ∈ l → steady n < e.1.

Lemma timer_loop_timers fuel : ∀ out bs s c, inv out [] bs s → (length (steady_deadlines_ (timer_mgr_ s)) < fuel)%nat →
  ∃ r s', timer_loop steady system (@on_timers) fuel c s = Ok (r, s') ∧ inv out [] bs s' ∧ quiet s s' ∧ sleep_mgr_ s' = sleep_mgr_ s ∧
    none_due (ticks s) (steady_deadlines_ (timer_mgr_ s')) ∧ (ticks s ≤ ticks s')%nat.
Proof.
  induction fuel as [|fuel IH]; intros out bs s c Hi Hf; [lia|]. cbn [timer_loop]. destruct (expire_timers_ok out bs s 128 Hi) as (ps & next & s1 & R1 & Hi1 & Hq1 & Hl1 & Hd1 & Hs1 & Ht1).
  destruct ps as [|p ps].
  - exists (c, next), s1. split; [eapply bind_run; [exact R1|]; done|]. split_and!; [done|done|done| |done]. exists (Datatypes.S (ticks s)). split; [lia|]. apply Hd1. cbn. lia.
  - destruct (fire_timers_ok _ out bs s1 Hi1) as (s2 & R2 & Hi2 & Hq2 & H1 & H2 & H3). destruct (IH out bs s2 (c + Z.of_nat (length (p :: ps))) Hi2) as (r & s3 & R3 & Hi3 & Hq3 & H4 & (n & Hn1 & Hn2) & H5).
    { rewrite H1. cbn [length] in Hl1. lia. }
    exists r, s3. split; [eapply bind_run; [exact R1|]; cbn beta iota; eapply bind_run; [exact R2|]; exact R3|]. split_and!; [done|by do 2 (etransitivity; [eassumption|])|congruence| |lia]. exists n. split; [lia|done].
Qed.

Lemma timer_loop_sleepers fuel : ∀ out bt s c, inv out bt [] s → (length (steady_deadlines_ (sleep_mgr_ s)) < fuel)%nat →
  ∃ r s', timer_loop steady system (@on_sleepers) fuel c s = Ok (r, s') ∧ inv out bt [] s' ∧ quiet s s' ∧ timer_mgr_ s' = timer_mgr_ s ∧
    none_due (ticks s) (steady_deadlines_ (sleep_mgr_ s')) ∧ (ticks s ≤ ticks s')%nat.
Proof.
  induction fuel as [|fuel IH]; intros out bt s c Hi Hf; [lia|]. cbn [timer_loop]. destruct (expire_sleepers_ok out bt s 128 Hi) as (ps & next & s1 & R1 & Hi1 & Hq1 & Hl1 & Hd1 & Hs1 & Ht1).
  destruct ps as [|p ps].
  - exists (c, next), s1. split; [eapply bind_run; [exact R1|]; done|]. split_and!; [done|done|done| |done]. exists (Datatypes.S (ticks s)). split; [lia|]. apply Hd1. cbn. lia.
  - destruct (fire_sleepers_ok _ out bt s1 Hi1) as (s2 & R2 & Hi2 & Hq2 & H1 & H2 & H3). destruct (IH out bt s2 (c + Z.of_nat (length (p :: ps))) Hi2) as (r & s3 & R3 & Hi3 & Hq3 & H4 & (n & Hn1 & Hn2) & H5).
    { rewrite H1. cbn [length] in Hl1. lia. }
    exists r, s3. split; [eapply bind_run; [exact R1|]; cbn beta iota; eapply bind_run; [exact R2|]; exact R3|]. split_and!; [done|by do 2 (etransitivity; [eassumption|])|congruence| |lia]. exists n. split; [lia|done].
Qed.

(** *** The clocks go on *)

Definition later (s s' : Scheduler) : Prop := (ticks s ≤ ticks s')%nat.

#[local] Instance later_preorder : PreOrder later.
Proof. split; [intros s; unfold later; lia|intros s1 s2 s3; unfold later; lia]. Qed.

Lemma later_modify (f : Scheduler → Scheduler) : (∀ s, later s (f s)) → keeps later (modify f).
Proof. apply keeps_modify. Qed.

Lemma later_task tk : keeps later (task_at tk).
Proof. intros s a s'. unfold task_at. destruct (tasks s !! tk); [|done]. intros [= _ <-]. reflexivity. Qed.

Lemma later_block b : keeps later (block_at b).
Proof. intros s a s'. unfold block_at. destruct (blocks s !! b); [|done]. intros [= _ <-]. reflexivity. Qed.

Lemma later_timers {A} (m : M (CoTimerMgr callback) A) : keeps later (on_timers m).
Proof. intros s a s'. unfold on_timers. destruct (m (timer_mgr_ s)) as [[? ?]|]; [|done]. intros [= _ <-]. unfold later. rsimpl. done. Qed.

Lemma later_sleepers {A} (m : M (CoTimerMgr callback) A) : keeps later (on_sleepers m).
Proof. intros s a s'. unfold on_sleepers. destruct (m (sleep_mgr_ s)) as [[? ?]|]; [|done]. intros [= _ <-]. unfold later. rsimpl. done. Qed.

Lemma later_now : keeps later (SteadyNow steady).
Proof. intros s a s' H. injection H as _ <-. unfold later. rsimpl. lia. Qed.

#[local] Hint Resolve later_task later_block later_timers later_sleepers later_now : tunnel.
#[local] Hint Extern 1 (keeps later (modify _)) => apply later_modify; intros ?; unfold later; rsimpl; apply le_n : tunnel.

Ltac later_walk := repeat first [walk_step | progress unfold set_task, IncrementRef, DecrementRef, set_block, runnable_push, AddTaskRunnable, CreateTask, TryBlockWait, IsWakeup, end_wait, Wakeup, AddWaitTask,
  SleepWait_SchedulerSwitch, CoYield, after_switch, SwapIn, run_task].

Lemma later_run_code tk c : keeps later (run_code exception_handle tk c).
Proof. induction c; cbn [run_code]; later_walk; auto. Qed.

#[local] Hint Resolve later_run_code : tunnel.

Lemma later_proc_loop fuel : ∀ c d, keeps later (proc_loop steady exception_handle fuel c d).
Proof. induction fuel as [|fuel IH]; intros c d; cbn [proc_loop]; [apply keeps_fail|]. later_walk; apply IH. Qed.

Lemma later_DoRunnable : keeps later (DoRunnable steady exception_handle).
Proof.
  unfold DoRunnable, Processer_Run. apply keeps_bind; [typeclasses eauto| |].
  - apply keeps_bind; [typeclasses eauto|apply keeps_gets; typeclasses eauto|intros n; apply later_proc_loop].
  - intros [[c d] th]. later_walk.
Qed.

(** *** The scheduler *)

Lemma Run_ok s : inv ∅ [] [] s → count_ok 0 s → ∃ r s', Run steady system exception_handle s = Ok (r, s') ∧ inv ∅ [] [] s' ∧ count_ok 0 s' ∧
  (r ≠ None → none_due (ticks s) (steady_deadlines_ (timer_mgr_ s')) ∧ none_due (ticks s) (steady_deadlines_ (sleep_mgr_ s'))).
Proof.
  intros Hi Hd. destruct (DoRunnable_ok ∅ [] s Hi Hd) as ([c th] & s1 & R1 & Hi1 & Hd1). pose proof (later_DoRunnable _ _ _ R1) as Ht1. unfold later in Ht1. unfold Run. destruct th.
  { exists None, s1. split; [eapply bind_run; [exact R1|]; done|]. split_and!; [done|done|done]. }
  destruct (timer_loop_timers (Datatypes.S (length (system_deadlines_ (timer_mgr_ s1)) + length (steady_deadlines_ (timer_mgr_ s1)))) ∅ [] s1 0 Hi1) as ([c2 n2] & s2 & R2 & Hi2 & Hq2 & _ & Hn2 & Ht2); [lia|].
  destruct (timer_loop_sleepers (Datatypes.S (length (system_deadlines_ (sleep_mgr_ s2)) + length (steady_deadlines_ (sleep_mgr_ s2)))) ∅ [] s2 0 Hi2) as ([c3 n3] & s3 & R3 & Hi3 & Hq3 & Hm3 & Hn3 & _); [lia|].
  eexists _, s3. split.
  - eapply bind_run; [exact R1|]. cbn beta iota. eapply bind_run; [unfold DoTimer; eapply bind_run; [done|]; exact R2|]. cbn beta iota. eapply bind_run; [unfold DoSleep; eapply bind_run; [done|]; exact R3|]. reflexivity.
  - split_and!; [done|by do 2 (eapply count_quiet; [eassumption|])|]. intros _. rewrite Hm3. destruct Hn2 as (k2 & Hk2 & Hd2), Hn3 as (k3 & Hk3 & Hd3). split; [exists k2|exists k3]; (split; [lia|done]).
Qed.

Definition event_ok (e : event) : Prop :=
  match e with EvRun => True | EvWake b | EvTry b => b ∈ B | EvGo c => code_ok c end.

Lemma sched_step_ok e s : inv ∅ [] [] s → count_ok 0 s → event_ok e → ∃ s', sched_step steady system exception_handle e s = Ok (tt, s') ∧ inv ∅ [] [] s' ∧ count_ok 0 s'.
Proof.
  intros Hi Hd He. destruct e as [|b|b|c]; cbn [sched_step event_ok] in *.
  - destruct (Run_ok s Hi Hd) as (r & s' & R & Hi' & Hd' & _). exists s'. split; [by eapply bind_run; [exact R|]|done].
  - destruct (Wakeup_ok _ _ _ _ Hi He) as (r & s' & R & Hi' & Hq & _). exists s'. split; [by eapply bind_run; [exact R|]|]. split; [done|by eapply count_quiet].
  - destruct (TryBlockWait_ok _ _ _ _ _ Hi He) as (r & s' & R & Hi' & Hq & _). exists s'. split; [by eapply bind_run; [exact R|]|]. split; [done|by eapply count_quiet].
  - destruct (CreateTask_ok _ _ _ _ _ Hi He) as (s' & tk & R & Hi' & Hf & Hl & Hc & _). exists s'. split_and!; [done|done|]. eapply count_create; try done. unfold load. by rewrite lookup_fmap, Hf.
Qed.

Lemma sched_run_ok es : ∀ s, inv ∅ [] [] s → count_ok 0 s → Forall event_ok es → ∃ s', sched_run steady system exception_handle es s = Ok (tt, s') ∧ inv ∅ [] [] s' ∧ count_ok 0 s'.
Proof.
  induction es as [|e es IH]; intros s Hi Hd He; [by exists s|]. apply Forall_cons in He as [He Hes]. destruct (sched_step_ok e s Hi Hd He) as (s1 & R1 & Hi1 & Hd1).
  destruct (IH s1 Hi1 Hd1 Hes) as (s2 & R2 & H2). exists s2. split; [|done]. cbn [sched_run]. eapply bind_run; [exact R1|]. exact R2.
Qed.

Lemma Scheduler_new_ok bs : dom bs = B → (∀ b x, bs !! b = Some x → block_ok x ∧ wait_queue_ x = []) → inv ∅ [] [] (Scheduler_new bs) ∧ count_ok 0 (Scheduler_new bs).
Proof.
  intros Hd Hb. assert (∀ pl, list_of (Scheduler_new bs) pl = []) as El.
  { intros [| |b]; [done..|]. cbn. destruct (bs !! b) as [x|] eqn:E; [|done]. by destruct (Hb b x E). }
  assert (mgr_ok (CoTimerMgr_new (F := callback)) []) as Hm by (split; cbn; try done; [constructor|apply NoDup_nil_2|set_solver]).
  assert (∀ p, p ∉ pending (CoTimerMgr_new (F := callback)) []) as Hp by (intros p; cbn; set_solver). split; [|done]. split; try done.
  - intros pl tk. rewrite El. split; [by intros ?%elem_of_nil|]. by intros (t & Ht & _).
  - intros pl. rewrite El. apply NoDup_nil_2.
  - intros b x Hx. by destruct (Hb b x Hx).
  - intros p H. by apply Hp in H.
  - intros tk H. by apply elem_of_nil in H.
  - intros p H. by apply Hp in H.
  - intros p1 p2 tk (tok & H & _). done.
Qed.

End Clock.

End Inv.

End CoSchedInv.
