(* ===== verification/CoSchedProps.v ===== *)
(** * The coroutine scheduler of libgo: what it promises *)

From S2P Require Import Prelude CoTimer CoSched CoSchedInv.
From stdpp Require Import base gmap list.
From Stdlib Require Import ZArith Lia.
Import CoTimer CoSched CoSchedInv.

Open Scope Z_scope.

Module CoSchedProps.

(** The signal objects at the start: nobody waits, and the counts are in range. *)
Definition fresh_blocks (bs : gmap Z BlockObject) : Prop := ∀ b x, bs !! b = Some x → 0 ≤ wakeup_ x ≤ max_wakeup_ x ∧ wait_queue_ x = [].

Lemma start steady system eh bs es : fresh_blocks bs → Forall (event_ok (dom bs) eh) es →
  ∃ s, sched_run steady system eh es (Scheduler_new bs) = Ok (tt, s) ∧ inv (dom bs) eh ∅ [] [] s ∧ count_ok 0 s.
Proof.
  intros Hb He. destruct (Scheduler_new_ok (dom bs) eh bs eq_refl) as [Hi Hc].
  { intros b x Hx. destruct (Hb b x Hx) as [H1 H2]. split; [split; [done|]|done]. by rewrite H2. }
  by apply sched_run_ok.
Qed.

(** C10: the scheduler of the coroutines loses and duplicates no task: for every
    sequence of turns and of calls from outside, every clock and every program of the
    coroutines, it runs to the end without an assertion, a use of a deleted task or a
    loop that exceeds its bound, and then each task that is alive stands in exactly one
    place (the runnable list, the sleepers, or the queue of one signal) once, nothing
    else stands there, the task counter is the number of tasks, the signals are within
    their limits, and nobody waits on a signal that has been given. *)
Theorem sched_tasks_conserved steady system eh bs es :
  fresh_blocks bs → Forall (event_ok (dom bs) eh) es →
  ∃ s, sched_run steady system eh es (Scheduler_new bs) = Ok (tt, s) ∧
    task_count_ s = u32 (Z.of_nat (size (tasks s))) ∧
    (∀ tk, is_Some (tasks s !! tk) ↔ ∃ pl, tk ∈ list_of s pl) ∧
    (∀ tk pl pl', tk ∈ list_of s pl → tk ∈ list_of s pl' → pl = pl') ∧ (∀ pl, NoDup (list_of s pl)) ∧
    (∀ b x, blocks s !! b = Some x → 0 ≤ wakeup_ x ≤ max_wakeup_ x ∧ (wait_queue_ x ≠ [] → wakeup_ x = 0)).
Proof.
  intros Hb He. destruct (start steady system eh bs es Hb He) as (s & R & Hi & Hc). exists s. split_and!; [done| | | |apply Hi|].
  - unfold count_ok in Hc. rewrite Hc, Z.add_0_r. unfold load. by rewrite map_size_fmap.
  - intros tk. split.
    + intros [t Ht]. destruct (t_home _ _ _ _ _ _ _ (v_task _ _ _ _ _ _ Hi tk t Ht)) as [pl Hpl]; [set_solver|]. exists pl. apply (v_home _ _ _ _ _ _ Hi). exists t. split; [done|]. unfold home. by rewrite decide_False by set_solver.
    + intros (pl & (t & Ht & _)%(v_home _ _ _ _ _ _ Hi)). eauto.
  - intros tk pl pl' (t & Ht & Hh)%(v_home _ _ _ _ _ _ Hi) (t' & Ht' & Hh')%(v_home _ _ _ _ _ _ Hi). congruence.
  - intros b x Hx. destruct (v_block _ _ _ _ _ _ Hi b x Hx). done.
Qed.

(** Coroutines that sleep, yield, signal, wait with and without a timeout, and start
    others *)
Definition demo_code : code := Go (Sleep 5 (Wake 1 (fun _ => Yield Ret))) (WaitTimed 1 3000000 (fun r => if r then Ret else Wait 1 (TryWait 2 (fun _ => Ret)))).

Definition demo_blocks : gmap Z BlockObject := {[1 := BlockObject_new 0 10; 2 := BlockObject_new 0 1]}.

Lemma demo_fresh : fresh_blocks demo_blocks.
Proof. unfold fresh_blocks, demo_blocks. intros b x [[<- <-]|[_ [<- <-]%lookup_singleton_Some]]%lookup_insert_Some; cbn; (split; [lia|done]). Qed.

Lemma demo_ok : code_ok (dom demo_blocks) immedaitely_throw demo_code.
Proof. cbn; repeat split; try (intros r); try (destruct r); cbn; repeat split; try (intros r); try done; by_decide. Qed.

(** Witness of C10. *)
Lemma sched_tasks_conserved_witness : ∃ s, sched_run ms ms immedaitely_throw [EvGo demo_code; EvRun; EvWake 2; EvRun; EvRun; EvRun; EvRun]
  (Scheduler_new demo_blocks) = Ok (tt, s) ∧ task_count_ s = u32 (Z.of_nat (size (tasks s))).
Proof.
  destruct (sched_tasks_conserved ms ms immedaitely_throw demo_blocks [EvGo demo_code; EvRun; EvWake 2; EvRun; EvRun; EvRun; EvRun]) as (s & R & H & _).
  - exact demo_fresh.
  - apply Forall_cons. split; [exact demo_ok|]. repeat (apply Forall_cons; split; [cbn; first [done | by_decide]|]). apply Forall_nil. done.
  - exists s. split; [exact R|exact H].
Defined.

(** C13: nobody oversleeps: with a steady clock that does not go back, a turn of the
    scheduler that no exception ends leaves no task asleep whose time had come when the
    turn began, and no task in a timed wait whose timeout had; every task still waiting
    has a timer that is armed for a later time. *)
Theorem due_tasks_run steady system eh bs es :
  fresh_blocks bs → Forall (event_ok (dom bs) eh) es → (∀ i j, (i ≤ j)%nat → steady i ≤ steady j) →
  ∃ s r s', sched_run steady system eh es (Scheduler_new bs) = Ok (tt, s) ∧ Run steady system eh s = Ok (r, s') ∧
    (r ≠ None →
      (∀ tk, tk ∈ wait_tasks_ s' → ∃ tp p tok, (tp, p) ∈ steady_deadlines_ (sleep_mgr_ s') ∧
         timers (sleep_mgr_ s') !! p = Some (MkTimer (OnSleep tk) true false tok) ∧ steady (ticks s) < tp) ∧
      (∀ tk t, tasks s' !! tk = Some t → state_ t = st_sys_block → block_timeout_ t ≠ 0 → ∃ tp p b tok, block_timer_ t = Some p ∧
         (tp, p) ∈ steady_deadlines_ (timer_mgr_ s') ∧ timers (timer_mgr_ s') !! p = Some (MkTimer (OnTimeout b tk (block_sequence_ t)) true false tok) ∧ steady (ticks s) < tp)).
Proof.
  intros Hb He Hmono. destruct (start steady system eh bs es Hb He) as (s & R & Hi & Hc). destruct (Run_ok (dom bs) eh steady system s Hi Hc) as (r & s' & R' & Hi' & _ & Hn). exists s, r, s'. split_and!; [done|done|].
  intros Hr. destruct (Hn Hr) as [(n1 & Hn1 & Hd1) (n2 & Hn2 & Hd2)]. split.
  - intros tk Htk. destruct (v_sleep _ _ _ _ _ _ Hi' tk Htk) as (p & tok & Hp & Hin & _). unfold pending in Hin. rewrite app_nil_r in Hin. apply list_elem_of_fmap in Hin as ([tp p'] & -> & Hin).
    exists tp, p', tok. split_and!; [done|done|]. pose proof (Hmono _ _ Hn2). specialize (Hd2 _ Hin). cbn in Hd2. lia.
  - intros tk t Ht Est Et. pose proof (t_timer _ _ _ _ _ _ _ (v_task _ _ _ _ _ _ Hi' tk t Ht)) as Htm. unfold timer_ok in Htm.
    assert (timed t = true) as Etm by (unfold timed; rewrite Est; by rewrite (proj2 (Z.eqb_neq _ _) Et)). rewrite bool_decide_false, Etm in Htm by set_solver.
    destruct Htm as (b & p & _ & Ep & tok & Hp & Hin & _). unfold pending in Hin. rewrite app_nil_r in Hin. apply list_elem_of_fmap in Hin as ([tp p'] & -> & Hin).
    exists tp, p', b, tok. split_and!; [done|done|done|]. pose proof (Hmono _ _ Hn1). specialize (Hd1 _ Hin). cbn in Hd1. lia.
Qed.

Lemma ms_mono i j : (i ≤ j)%nat → ms i ≤ ms j.
Proof. unfold ms. lia. Qed.

(** Witness of C13. *)
Lemma due_tasks_run_witness : ∃ s r s', sched_run ms ms immedaitely_throw [EvGo demo_code; EvRun; EvRun] (Scheduler_new demo_blocks) = Ok (tt, s) ∧
  Run ms ms immedaitely_throw s = Ok (r, s') ∧ (r ≠ None → ∀ tk, tk ∈ wait_tasks_ s' → ∃ tp p, (tp, p) ∈ steady_deadlines_ (sleep_mgr_ s') ∧ ms (ticks s) < tp).
Proof.
  destruct (due_tasks_run ms ms immedaitely_throw demo_blocks [EvGo demo_code; EvRun; EvRun]) as (s & r & s' & R & R' & H).
  - exact demo_fresh.
  - apply Forall_cons. split; [exact demo_ok|]. repeat (apply Forall_cons; split; [done|]). apply Forall_nil. done.
  - exact ms_mono.
  - exists s, r, s'. split; [exact R|]. split; [exact R'|]. intros Hr tk Htk. destruct (proj1 (H Hr) tk Htk) as (tp & p & tok & H1 & _ & H2). exists tp, p. split; [exact H1|exact H2].
Defined.

End CoSchedProps.
