(* ===== verification/CoLocks.v ===== *)
(** * The coroutine mutex and readers-writer lock of libgo
      (src/trafficRecorder/libgo/co_mutex.cpp, co_rwmutex.cpp)

    Any number of coroutines on any number of threads use one [CoRWMutex]: each step is
    one access to shared memory, an atomic operation on [readers_c_] or what
    [BlockObject] does under its lock, and the steps of the coroutines interleave in any
    order.  A coroutine asks for the lock, or tries to get it, as a reader or as a
    writer, and gives it back when it has it. *)

From S2P Require Import Prelude.
From stdpp Require Import base list.
From Stdlib Require Import ZArith Lia.

Open Scope Z_scope.

Module CoLocks.

(** ** BlockObject and CoMutex *)

Record BlockObject := MkBlock { wakeup_ : Z; max_wakeup_ : Z; wait_queue_ : list nat }.

#[export] Instance eta_BlockObject : Eta BlockObject := fun b => MkBlock (wakeup_ b) (max_wakeup_ b) (wait_queue_ b).

(** [CoMutex::CoMutex] *)
Definition CoMutex_new : BlockObject := MkBlock 1 1 [].

(** [CoBlockWait] up to the switch: true when the wait is over at once *)
Definition CoBlockWait_now (b : BlockObject) : BlockObject * bool :=
  if 0 <? wakeup_ b then (b <| wakeup_ ::= Z.pred |>, true) else (b, false).

(** [AddWaitTask], after the switch: false when the task is runnable again *)
Definition AddWaitTask (t : nat) (b : BlockObject) : BlockObject * bool :=
  if negb (wakeup_ b =? 0) then (b <| wakeup_ ::= Z.pred |>, false) else (b <| wait_queue_ ::= (fun q => q ++ [t]) |>, true).

Definition TryBlockWait (b : BlockObject) : BlockObject * bool :=
  if wakeup_ b =? 0 then (b, false) else (b <| wakeup_ ::= Z.pred |>, true).

(** [Wakeup]: its result, and the task that is made runnable *)
Definition Wakeup (b : BlockObject) : BlockObject * bool * option nat :=
  match wait_queue_ b with
  | [] => if max_wakeup_ b <=? wakeup_ b then (b, false, None) else (b <| wakeup_ ::= Z.succ |>, true, None)
  | t :: q => (b <| wait_queue_ := q |>, true, Some t)
  end.

(** [CoMutex::is_lock] *)
Definition is_lock (b : BlockObject) : bool := negb (0 <? wakeup_ b).

(** ** CoRWMutex *)

(** Where a coroutine is: in [r_lock], [r_try_lock], [w_lock] (before the mutex, switched
    out, in the queue of the mutex, waiting for the readers) or [w_try_lock] *)
Inductive pc :=
  | Idle
  | R_inc | R_check | R_dec | R_yield | Reading
  | RT_inc | RT_check | RT_dec
  | W_lock | W_switched | W_queued | W_readers | Writing
  | WT_lock | WT_readers | WT_unlock.

#[export] Instance pc_eq_dec : EqDecision pc.
Proof. solve_decision. Defined.

Inductive wish := WantRead | TryRead | WantWrite | TryWrite.

Record CoRWMutex := MkRW {
  mtx_ : BlockObject;
  readers_c_ : Z;       (* atomic_t<int> *)
  pcs : list pc;
}.

#[export] Instance eta_CoRWMutex : Eta CoRWMutex := fun s => MkRW (mtx_ s) (readers_c_ s) (pcs s).

Definition CoRWMutex_new (n : nat) : CoRWMutex := MkRW CoMutex_new 0 (replicate n Idle).

Definition go (t : nat) (p : pc) (s : CoRWMutex) : CoRWMutex := s <| pcs ::= <[t := p]> |>.

Definition inc_readers (s : CoRWMutex) : CoRWMutex := s <| readers_c_ := i32 (readers_c_ s + 1) |>.
Definition dec_readers (s : CoRWMutex) : CoRWMutex := s <| readers_c_ := i32 (readers_c_ s - 1) |>.

(** [CoMutex::unlock], which throws when nobody has the mutex; a task that waits for it
    goes on behind [mtx_.lock()]. *)
Definition unlock (s : CoRWMutex) : result CoRWMutex :=
  let '(b, ok, w) := Wakeup (mtx_ s) in
  if ok then
    let s := s <| mtx_ := b |> in
    Ok (match w with Some u => go u W_readers s | None => s end)
  else Bad Aborted.

(** One step of the coroutine [t]; a coroutine in the queue of the mutex does nothing. *)
Definition rw_step (t : nat) (w : wish) (s : CoRWMutex) : result CoRWMutex :=
  match pcs s !! t with
  | None => Ok s
  | Some Idle => Ok (go t (match w with WantRead => R_inc | TryRead => RT_inc | WantWrite => W_lock | TryWrite => WT_lock end) s)
  (* r_lock *)
  | Some R_inc => Ok (go t R_check (inc_readers s))
  | Some R_check => Ok (go t (if is_lock (mtx_ s) then R_dec else Reading) s)
  | Some R_dec => Ok (go t R_yield (dec_readers s))
  | Some R_yield => Ok (go t R_inc s)
  (* r_try_lock *)
  | Some RT_inc => Ok (go t RT_check (inc_readers s))
  | Some RT_check => Ok (go t (if is_lock (mtx_ s) then RT_dec else Reading) s)
  | Some RT_dec => Ok (go t Idle (dec_readers s))
  (* r_unlock *)
  | Some Reading =>
    let s := dec_readers s in
    if readers_c_ s <? 0 then Bad Aborted else Ok (go t Idle s)
  (* w_lock *)
  | Some W_lock =>
    let '(b, got) := CoBlockWait_now (mtx_ s) in
    Ok (go t (if got then W_readers else W_switched) (s <| mtx_ := b |>))
  | Some W_switched =>
    let '(b, waits) := AddWaitTask t (mtx_ s) in
    Ok (go t (if waits then W_queued else W_readers) (s <| mtx_ := b |>))
  | Some W_queued => Ok s
  | Some W_readers => Ok (if readers_c_ s =? 0 then go t Writing s else s)
  (* w_try_lock *)
  | Some WT_lock =>
    let '(b, got) := TryBlockWait (mtx_ s) in
    Ok (go t (if got then WT_readers else Idle) (s <| mtx_ := b |>))
  | Some WT_readers => Ok (go t (if readers_c_ s =? 0 then Writing else WT_unlock) s)
  | Some WT_unlock => unlock (go t Idle s)
  (* w_unlock *)
  | Some Writing => unlock (go t Idle s)
  end.

Fixpoint rw_run (sched : list (nat * wish)) (s : CoRWMutex) : result CoRWMutex :=
  match sched with
  | [] => Ok s
  | (t, w) :: sched => match rw_step t w s with Ok s => rw_run sched s | Bad f => Bad f end
  end.

(** *** Example: a writer waits for a reader, and a reader steps back for the writer *)
Example rw_ex :
  match rw_run [(0, WantRead); (0, WantRead); (0, WantRead); (1, WantWrite); (1, WantWrite); (1, WantWrite); (2, TryRead); (2, TryRead); (2, TryRead); (2, TryRead); (0, WantRead); (1, WantWrite)]%nat (CoRWMutex_new 3) with
  | Ok s => Some (pcs s, readers_c_ s, mtx_ s)
  | Bad _ => None
  end = Some ([Idle; Writing; Idle], 0, MkBlock 0 1 []).
Proof. vm_compute. reflexivity. Qed.

(** ** The invariant *)

(** How many coroutines are at a place in [f] *)
Fixpoint count (f : pc → bool) (l : list pc) : Z :=
  match l with [] => 0 | p :: l => (if f p then 1 else 0) + count f l end.

Definition has_mutex (p : pc) : bool := match p with W_readers | Writing | WT_readers | WT_unlock => true | _ => false end.
Definition counted (p : pc) : bool := match p with R_check | R_dec | Reading | RT_check | RT_dec => true | _ => false end.

Lemma count_insert f l t p q : l !! t = Some p → count f (<[t := q]> l) = count f l - (if f p then 1 else 0) + (if f q then 1 else 0).
Proof. revert t. induction l as [|a l IH]; intros [|t] H; simplify_eq/=; [lia|]. rewrite (IH _ H). lia. Qed.

Lemma count_nonneg f l : 0 ≤ count f l ≤ Z.of_nat (length l).
Proof. induction l as [|a l IH]; cbn [count length]; [done|]. destruct (f a); lia. Qed.

Lemma count_pos f l t p : l !! t = Some p → f p = true → 1 ≤ count f l.
Proof. revert t. induction l as [|a l IH]; intros [|t] H Hf; simplify_eq/=; [rewrite Hf; pose proof (count_nonneg f l); lia|]. pose proof (IH _ H Hf). destruct (f a); lia. Qed.

Lemma count_two f l t u p q : t ≠ u → l !! t = Some p → l !! u = Some q → f p = true → f q = true → 2 ≤ count f l.
Proof.
  revert t u. induction l as [|a l IH]; intros [|t] [|u] Hn H1 H2 Hp Hq; simplify_eq/=.
  - rewrite Hp. pose proof (count_pos f l u q H2 Hq). lia.
  - rewrite Hq. pose proof (count_pos f l t p H1 Hp). lia.
  - pose proof (IH t u ltac:(congruence) H1 H2 Hp Hq). destruct (f a); lia.
Qed.

Record rw_inv (n : nat) (s : CoRWMutex) : Prop := {
  rw_size : length (pcs s) = n;
  rw_max : max_wakeup_ (mtx_ s) = 1;
  rw_mutex : wakeup_ (mtx_ s) + count has_mutex (pcs s) = 1 ∧ 0 ≤ wakeup_ (mtx_ s);
  rw_readers : readers_c_ s = count counted (pcs s);
  rw_queue : ∀ u, u ∈ wait_queue_ (mtx_ s) ↔ pcs s !! u = Some W_queued;
  rw_nodup : NoDup (wait_queue_ (mtx_ s));
  rw_waiting : wait_queue_ (mtx_ s) ≠ [] → wakeup_ (mtx_ s) = 0;
  rw_excl : ∀ t u, pcs s !! t = Some Writing → pcs s !! u ≠ Some Reading;
}.

(** A step that leaves the queue of the mutex alone *)
Lemma move_inv n s t p q b r : rw_inv n s → pcs s !! t = Some p → p ≠ W_queued → q ≠ W_queued →
  max_wakeup_ b = 1 → wait_queue_ b = wait_queue_ (mtx_ s) → 0 ≤ wakeup_ b ≤ wakeup_ (mtx_ s) →
  wakeup_ b = wakeup_ (mtx_ s) + (if has_mutex p then 1 else 0) - (if has_mutex q then 1 else 0) →
  r = readers_c_ s - (if counted p then 1 else 0) + (if counted q then 1 else 0) →
  (q = Reading → 0 < wakeup_ (mtx_ s)) → (q = Writing → readers_c_ s = 0) →
  rw_inv n (MkRW b r (<[t := q]> (pcs s))).
Proof.
  intros [H1 H2 [H3 H3'] H4 H5 H6 H7 H8] Hp Hpq Hq Hb Hqu Hw Hm Hr Hrd Hwr. split; cbn; rewrite ?Hqu.
  - by rewrite length_insert.
  - done.
  - rewrite (count_insert _ _ _ _ _ Hp). lia.
  - rewrite (count_insert _ _ _ _ _ Hp). lia.
  - intros u. rewrite H5, list_lookup_insert. case_decide as Hd; [|done]. destruct Hd as [<- _]. rewrite Hp. split; intros [=]; congruence.
  - done.
  - intros Hne. specialize (H7 Hne). lia.
  - intros t' u' Ht Hu. rewrite list_lookup_insert in Ht, Hu. case_decide as Hd1; case_decide as Hd2; simplify_eq.
    + specialize (Hrd eq_refl). pose proof (count_pos has_mutex _ _ _ Ht eq_refl). lia.
    + specialize (Hwr eq_refl). pose proof (count_pos counted _ _ _ Hu eq_refl). lia.
    + exact (H8 _ _ Ht Hu).
Qed.

Lemma enqueue_inv n s t : rw_inv n s → pcs s !! t = Some W_switched → wakeup_ (mtx_ s) = 0 →
  rw_inv n (MkRW (mtx_ s <| wait_queue_ ::= (fun q => q ++ [t]) |>) (readers_c_ s) (<[t := W_queued]> (pcs s))).
Proof.
  intros [H1 H2 [H3 H3'] H4 H5 H6 H7 H8] Hp Hw. assert (t ∉ wait_queue_ (mtx_ s)) as Hnt by (rewrite H5, Hp; done). pose proof (lookup_lt_Some _ _ _ Hp). split; cbn; rsimpl.
  - by rewrite length_insert.
  - done.
  - rewrite (count_insert _ _ _ _ _ Hp). cbn. lia.
  - rewrite (count_insert _ _ _ _ _ Hp). cbn. lia.
  - intros u. rewrite elem_of_app, list_elem_of_singleton, H5, list_lookup_insert. case_decide as Hd; [destruct Hd as [<- _]; split; [done|by right]|]. split; [intros [Hu|Hu]; [done|exfalso; apply Hd; done]|by left].
  - apply NoDup_app. split_and!; [done| |apply NoDup_singleton]. intros x Hx ->%list_elem_of_singleton. done.
  - done.
  - intros t' u' Ht Hu. rewrite list_lookup_insert in Ht, Hu. case_decide; case_decide; simplify_eq. exact (H8 _ _ Ht Hu).
Qed.

(** [unlock] by a coroutine that has the mutex *)
Lemma unlock_inv n s t p : rw_inv n s → pcs s !! t = Some p → p = Writing ∨ p = WT_unlock → ∃ s', unlock (go t Idle s) = Ok s' ∧ rw_inv n s'.
Proof.
  intros Hi Hp Hpp. pose proof Hi as [H1 H2 [H3 H3'] H4 H5 H6 H7 H8]. assert (has_mutex p = true ∧ counted p = false ∧ p ≠ W_queued) as (Hm & Hc & Hne) by (by destruct Hpp as [-> | ->]).
  pose proof (count_pos has_mutex _ _ _ Hp Hm) as Hcp. pose proof (lookup_lt_Some _ _ _ Hp) as Hlt.
  unfold unlock, Wakeup, go. rsimpl. destruct (wait_queue_ (mtx_ s)) as [|u q] eqn:Eq.
  - rewrite (proj2 (Z.leb_gt _ _)) by lia. eexists. split; [done|]. unfold set; cbn. split; cbn; rewrite ?Eq; try done.
    + by rewrite length_insert.
    + rewrite (count_insert _ _ _ _ _ Hp), Hm. cbn. lia.
    + rewrite (count_insert _ _ _ _ _ Hp), Hc. cbn. lia.
    + intros u. rewrite H5, list_lookup_insert. case_decide as Hd; [|done]. destruct Hd as [<- _]. rewrite Hp. split; intros [=]; congruence.
    + intros t' u' Ht Hu. rewrite list_lookup_insert in Ht, Hu. case_decide; case_decide; simplify_eq. exact (H8 _ _ Ht Hu).
  - assert (pcs s !! u = Some W_queued) as Hu by (apply H5; apply elem_of_cons; by left). assert (u ≠ t) as Hut by (intros ->; congruence).
    assert (<[t := Idle]> (pcs s) !! u = Some W_queued) as Hu' by (by rewrite list_lookup_insert_ne). pose proof (lookup_lt_Some _ _ _ Hu) as Hlu.
    apply NoDup_cons in H6 as [Hnu H6]. eexists. split; [done|]. unfold set; cbn. split; cbn; try done.
    + by rewrite !length_insert.
    + rewrite (count_insert _ _ _ _ _ Hu'), (count_insert _ _ _ _ _ Hp), Hm. cbn. lia.
    + rewrite (count_insert _ _ _ _ _ Hu'), (count_insert _ _ _ _ _ Hp), Hc. cbn. lia.
    + intros v. rewrite !list_lookup_insert, length_insert. case_decide as Hd; [destruct Hd as [<- _]; split; [done|by intros]|]. case_decide as Hd2.
      * destruct Hd2 as [<- _]. split; [intros Hv; assert (pcs s !! t = Some W_queued) by (apply H5; apply elem_of_cons; by right); congruence|by intros].
      * rewrite <- H5, elem_of_cons. split; [by right|]. intros [Hv|Hv]; [|done]. exfalso. apply Hd. done.
    + intros _. apply H7. done.
    + intros t' u' Ht Hx. rewrite !list_lookup_insert, length_insert in Ht, Hx. repeat case_decide; simplify_eq. exact (H8 _ _ Ht Hx).
Qed.

Lemma rw_step_inv n s t w : Z.of_nat n < 2 ^ 31 → rw_inv n s → ∃ s', rw_step t w s = Ok s' ∧ rw_inv n s'.
Proof.
  intros Hn Hi. pose proof Hi as [H1 H2 [H3 H3'] H4 H5 H6 H7 H8]. unfold rw_step. destruct (pcs s !! t) as [p|] eqn:Hp; [|by exists s].
  pose proof (count_nonneg counted (pcs s)) as Hcn. pose proof (count_nonneg has_mutex (pcs s)) as Hmn. rewrite H1 in Hcn.
  assert (∀ q, q ≠ W_queued → p ≠ W_queued → has_mutex p = has_mutex q → counted p = counted q → (q = Reading → 0 < wakeup_ (mtx_ s)) → (q = Writing → readers_c_ s = 0) → rw_inv n (go t q s)) as Hgo.
  { intros q Hq Hpq Hm Hc Hr Hw. unfold go. unfold set; cbn. eapply move_inv; try done; rewrite ?Hm, ?Hc; lia. }
  assert (∀ q, q ≠ W_queued → has_mutex p = has_mutex q → counted p = false → counted q = true → p ≠ W_queued → q ≠ Reading → q ≠ Writing → rw_inv n (go t q (inc_readers s))) as Hinc.
  { intros q Hq Hm Hc Hc' Hpq Hr Hw. unfold go, inc_readers. unfold set; cbn. pose proof (count_insert counted _ _ _ q Hp) as Hci. rewrite Hc, Hc' in Hci. pose proof (count_nonneg counted (<[t := q]> (pcs s))) as Hcn'. rewrite length_insert, H1 in Hcn'.
    rewrite i32_id by lia. eapply move_inv; try done; rewrite ?Hm, ?Hc, ?Hc'; lia. }
  assert (∀ q, q ≠ W_queued → has_mutex p = has_mutex q → counted p = true → counted q = false → p ≠ W_queued → q ≠ Writing → rw_inv n (go t q (dec_readers s)) ∧ 0 ≤ readers_c_ (dec_readers s)) as Hdec.
  { intros q Hq Hm Hc Hc' Hpq Hw. unfold go, dec_readers. unfold set; cbn. pose proof (count_pos counted _ _ _ Hp Hc). rewrite i32_id by lia. split; [|lia]. eapply move_inv; try done; rewrite ?Hm, ?Hc, ?Hc'; try lia. intros ->; done. }
  destruct p.
  - eexists. split; [done|]. apply Hgo; by destruct w.
  - eexists. split; [done|]. by apply Hinc.
  - eexists. split; [done|]. unfold is_lock. destruct (Z.ltb_spec 0 (wakeup_ (mtx_ s))); cbn; by apply Hgo.
  - eexists. split; [done|]. by apply Hdec.
  - eexists. split; [done|]. by apply Hgo.
  - destruct (Hdec Idle) as [Hi' Hr]; [done..|]. cbv zeta. rewrite (proj2 (Z.ltb_ge _ _)) by lia. eexists. by split.
  - eexists. split; [done|]. by apply Hinc.
  - eexists. split; [done|]. unfold is_lock. destruct (Z.ltb_spec 0 (wakeup_ (mtx_ s))); cbn; by apply Hgo.
  - eexists. split; [done|]. by apply Hdec.
  - unfold CoBlockWait_now. destruct (Z.ltb_spec 0 (wakeup_ (mtx_ s))); eexists; (split; [done|]); unfold go, set; cbn; eapply move_inv; try done; cbn; lia.
  - unfold AddWaitTask. destruct (Z.eqb_spec (wakeup_ (mtx_ s)) 0) as [E|E]; cbn [negb]; eexists; (split; [done|]); unfold go; [|unfold set; cbn; eapply move_inv; try done; cbn; lia].
    pose proof (enqueue_inv n s t Hi Hp E) as He. unfold set in *. cbn in *. exact He.
  - by exists s.
  - destruct (Z.eqb_spec (readers_c_ s) 0); eexists; (split; [done|]); [by apply Hgo|done].
  - apply (unlock_inv n s t _ Hi Hp). by left.
  - unfold TryBlockWait. destruct (Z.eqb_spec (wakeup_ (mtx_ s)) 0) as [E|E]; eexists; (split; [done|]); unfold go, set; cbn; eapply move_inv; try done; cbn; lia.
  - destruct (Z.eqb_spec (readers_c_ s) 0); eexists; (split; [done|]); by apply Hgo.
  - apply (unlock_inv n s t _ Hi Hp). by right.
Qed.

Lemma rw_run_inv n sched s : Z.of_nat n < 2 ^ 31 → rw_inv n s → ∃ s', rw_run sched s = Ok s' ∧ rw_inv n s'.
Proof.
  intros Hn. revert s. induction sched as [|[t w] sched IH]; intros s Hi; [by exists s|]. destruct (rw_step_inv n s t w Hn Hi) as (s1 & E1 & Hi1). cbn. rewrite E1. by apply IH.
Qed.

Lemma count_idle f n : f Idle = false → count f (replicate n Idle) = 0.
Proof. intros H. induction n as [|n IH]; [done|]. cbn. by rewrite H, IH. Qed.

Lemma rw_new_inv n : rw_inv n (CoRWMutex_new n).
Proof.
  split; cbn; rewrite ?count_idle by done; try done; [by rewrite length_replicate|..].
  - intros u. split; [by intros ?%elem_of_nil|]. by intros [? _]%lookup_replicate.
  - constructor.
  - by intros t u [? _]%lookup_replicate.
Qed.

Lemma count_zero f l : (∀ t p, l !! t = Some p → f p = false) → count f l = 0.
Proof. induction l as [|a l IH]; intros H; [done|]. cbn. rewrite (H 0%nat a eq_refl), IH; [done|]. intros t p Ht. by apply (H (S t)). Qed.

Lemma count_ex f l : 0 < count f l → ∃ t p, l !! t = Some p ∧ f p = true.
Proof.
  induction l as [|a l IH]; cbn; [lia|]. destruct (f a) eqn:E; [intros _; by exists 0%nat, a|]. intros H. destruct IH as (t & p & Ht & Hf); [lia|]. by exists (S t), p.
Qed.



End CoLocks.
