(* ===== verification/SdkEnv.v ===== *)
(** * The settings of the SDK (src/sdk/sdk/SdkEnv.cpp, YMEDataTypes.h)

    The global variables of the SDK, the two functions by which the application
    reads and writes them by name, the traffic counter it polls, and the texts of
    the return codes. *)

From S2P Require Import Prelude.
From stdpp Require Import base list strings.
From Stdlib Require Import ZArith Lia.

Open Scope Z_scope.

Module SdkEnv.

(** ** The globals *)

Record env := MkEnv {
  g_aval_traffic : Z;          (* U64 *)
  g_rpt_traff_cost : Z;        (* volatile U64, under rw_lock *)
  g_phone : Z;                 (* U64 *)
  g_appid : Z;                 (* U64 *)
  g_tmsport : Z;               (* U64 *)
  g_tmsip : bytes;
  g_auth : bytes;
  g_error : bytes;
}.

#[export] Instance eta_env : Eta env := fun x =>
  MkEnv (g_aval_traffic x) (g_rpt_traff_cost x) (g_phone x) (g_appid x) (g_tmsport x)
        (g_tmsip x) (g_auth x) (g_error x).

Definition env_init : env := MkEnv 0 0 0 0 0 [] [] [].

(** The counter is read and cleared in one critical section. *)
Definition YMERptTraffCost (e : env) : Z * env :=
  (g_rpt_traff_cost e, e <| g_rpt_traff_cost := 0 |>).

(** [key[0] == up || key[0] == low] *)
Definition first_is (up low : Z) (key : bytes) : bool :=
  let c := default 0 (head key) in (c =? up) || (c =? low).

(** [sprintf(buf, "%llu", v)] into an array of [n] bytes. *)
Definition sprintf_llu (n : Z) (v : Z) : result bytes :=
  let t := print_u v in
  if Z.of_nat (length t) <? n then Ok t else Bad OutOfBounds.

(** [YMEGet]: the C string at the address returned, or null.  The first chain of
    tests falls through to the second one when no name matches. *)
Definition YMEGet (key : option bytes) (e : env) : result (option bytes) :=
  match key with
  | None => Ok None
  | Some key =>
    let rest := tail key in
    let first :=
      if first_is 84 116 key then
        if strncaseeq rest (bs "raffic") 6 then Some (sprintf_llu 32 (g_aval_traffic e)) else None
      else if first_is 65 97 key then
        if strncaseeq rest (bs "uth") 3 then Some (Ok (g_auth e))
        else if strncaseeq rest (bs "ppid") 4 then Some (sprintf_llu 32 (g_appid e)) else None
      else None in
    let second :=
      if first_is 69 101 key then
        if strncaseeq rest (bs "rror") 4 then Some (Ok (g_error e)) else None
      else if first_is 80 112 key then
        if strncaseeq rest (bs "hone") 4 then Some (sprintf_llu 32 (g_phone e)) else None
      else if first_is 84 116 key then
        if strneq rest (bs "msip") 4 then Some (Ok (g_tmsip e))
        else if strneq rest (bs "msport") 6 then Some (sprintf_llu 8 (g_tmsport e)) else None
      else None in
    match first with
    | Some (Ok v) => Ok (Some v)
    | Some (Bad f) => Bad f
    | None =>
      match second with
      | Some (Ok v) => Ok (Some v)
      | Some (Bad f) => Bad f
      | None => Ok None
      end
    end
  end.

(** [YMESet]: the value returned and the new globals. *)
Definition YMESet (k v : bytes) (e : env) : Z * env :=
  let rest := tail k in
  if first_is 80 112 k && strneq rest (bs "hone") 4 then
    (0, e <| g_phone := u64 (atoll v) |>)
  else if first_is 65 97 k && strneq rest (bs "ppid") 4 then
    (0, e <| g_appid := u64 (atoll v) |>)
  else if first_is 65 97 k && strneq rest (bs "uth") 3 then
    (0, e <| g_auth := v |>)
  else if first_is 69 101 k && strneq rest (bs "rror") 4 then
    (0, e <| g_error := v |>)
  else if first_is 84 116 k && strncaseeq rest (bs "msip") 4 then
    (0, e <| g_tmsip := v |>)
  else if first_is 84 116 k && strncaseeq rest (bs "msport") 6 then
    (0, e <| g_tmsport := u64 (atoll v) |>)
  else (-1, e).

(** ** Return codes *)

Definition RT_ServerNotUp : Z := -10.
Definition RT_HostNotExist : Z := -9.
Definition RT_UserNotExist : Z := -8.
Definition RT_IncorrectToken : Z := -7.
Definition RT_NoBalance : Z := -6.
Definition RT_RemoteFinish : Z := -5.
Definition RT_Exception : Z := -4.
Definition RT_RequestExpired : Z := -3.
Definition RT_DownWithData : Z := -2.
Definition RT_Down : Z := -1.
Definition RT_Data : Z := 0.

Definition YMEReturnCode (return_code : Z) : bytes :=
  bs "Return Code " ++ print_s return_code
  ++ (if 0 <=? return_code then bs ": Success" else [])
  ++ (if return_code =? -10 then bs ": ServerNotUp"
      else if return_code =? -9 then bs ": HostNotExist"
      else if return_code =? -8 then bs ": UserNotExist"
      else if return_code =? -7 then bs ": Incorrect Token"
      else if return_code =? -6 then bs ": Insufficient Balance"
      else if return_code =? -5 then bs ": Tms Disconnected"
      else if return_code =? -4 then bs ": Exception"
      else if return_code =? -3 then bs ": Request Expired"
      else if return_code =? -2 then bs ": Reply data available and connection is down"
      else if return_code =? -1 then bs ": Connection down"
      else []).

(** ** Traffic estimates

    [accurate] is the build flag [ACCURATE_TRAFFIC]; the arguments and results are
    [int]. *)

Definition Tcp_Ack_Len : Z := 20 + 20.

Definition Traffic_Est (accurate : bool) (x : Z) : Z :=
  if accurate then
    if x <? 5 then x
    else i32 (x + Tcp_Ack_Len * 2 + Z.quot x 1400 * Tcp_Ack_Len)
  else x.

Definition Traffic_TCP_hss (accurate : bool) : Z :=
  if accurate then 7 * Tcp_Ack_Len + 2 * 20 else 0.

(** ** Reading back what was set *)

(** The names of the settings as the documentation spells them. *)
Inductive setting := SPhone | SAppid | SAuth | SError | STmsip | STmsport.

#[export] Instance setting_eq_dec : EqDecision setting.
Proof. solve_decision. Defined.

Definition name (s : setting) : bytes :=
  match s with
  | SPhone => bs "Phone" | SAppid => bs "Appid" | SAuth => bs "Auth"
  | SError => bs "Error" | STmsip => bs "Tmsip" | STmsport => bs "Tmsport"
  end.

Definition numeric (s : setting) : bool :=
  match s with SPhone | SAppid | STmsport => true | _ => false end.

(** A value the setting keeps: a number is written as [%llu] prints it, below
    2^63, and a port has at most seven digits. *)
Definition storable (s : setting) (v : bytes) : Prop :=
  if numeric s then ∃ n, v = print_u n ∧ 0 ≤ n < 2 ^ 63 ∧ (s = STmsport → n < 10 ^ 7) else True.

Lemma print_nat_aux_length_le fuel v acc n : 0 ≤ v < 10 ^ Z.of_nat n → (0 < n)%nat →
  (length (print_nat_aux fuel v acc) ≤ n + length acc)%nat.
Proof.
  revert v acc n. induction fuel as [|fuel IH]; intros v acc n Hv Hn; cbn [print_nat_aux]; [lia|].
  destruct (Z.eqb_spec (v / 10) 0) as [H0|H0]; [cbn; lia|].
  destruct n as [|[|n]]; [lia| |].
  - change (10 ^ Z.of_nat 1) with 10 in Hv. rewrite Z.div_small in H0 by lia. done.
  - etransitivity; [apply (IH _ _ (S n))|cbn; lia]; [|lia].
    rewrite Nat2Z.inj_succ, Z.pow_succ_r in Hv by lia.
    split; [apply Z.div_pos; lia|apply Z.div_lt_upper_bound; lia].
Qed.

Lemma sprintf_llu_fits n v : 0 ≤ v < 10 ^ (n - 1) → 1 < n → sprintf_llu n v = Ok (print_u v).
Proof.
  intros Hv Hn. unfold sprintf_llu.
  pose proof (print_nat_aux_length_le 20 v [] (Z.to_nat (n - 1))) as H.
  rewrite Z2Nat.id in H by lia. specialize (H Hv ltac:(lia)). cbn [length] in H.
  fold (print_u v) in H. destruct (Z.ltb_spec (Z.of_nat (length (print_u v))) n); [done|lia].
Qed.

Lemma u64_atoll_print n : 0 ≤ n < 2 ^ 63 → u64 (atoll (print_u n)) = n.
Proof.
  intros Hn. unfold atoll. rewrite dec_value_digits, dec_print_u by (apply print_u_digits || range_lia).
  rewrite wrap_id; range_lia.
Qed.

(** YMEGet reads back what YMESet stored under the same name, as a string, for every
    setting of the sdk and every value that fits it, and the other settings are
    unchanged. *)
(** YMEGet reads back what YMESet stored under the same name, as a string, for every
    setting of the sdk and every value that fits it, and the other settings are
    unchanged. *)
(** YMEGet reads back what YMESet stored under the same name, as a string, for every
    setting of the sdk and every value that fits it, and the other settings are
    unchanged. *)
(** YMEGet reads back what YMESet stored under the same name, as a string, for every
    setting of the sdk and every value that fits it, and the other settings are
    unchanged. *)
(** YMEGet reads back what YMESet stored under the same name, as a string, for every
    setting of the sdk and every value that fits it, and the other settings are
    unchanged. *)
(** YMEGet reads back what YMESet stored under the same name, as a string, for every
    setting of the sdk and every value that fits it, and the other settings are
    unchanged. *)
(** YMEGet reads back what YMESet stored under the same name, as a string, for every
    setting of the sdk and every value that fits it, and the other settings are
    unchanged. *)
Theorem YMESet_YMEGet s v e : storable s v →
  (YMESet (name s) v e).1 = 0 ∧
  YMEGet (Some (name s)) (YMESet (name s) v e).2 = Ok (Some v) ∧
  ∀ s', s' ≠ s → YMEGet (Some (name s')) (YMESet (name s) v e).2 = YMEGet (Some (name s')) e.
Proof.
  intros Hv. split_and!; [destruct s; reflexivity| |intros s' Hs; destruct s, s'; try done; reflexivity].
  unfold storable in Hv.
  destruct s; cbn [numeric] in Hv; try (destruct Hv as (n & -> & Hn & Hp)); try reflexivity.
  all: lazymatch goal with
       | |- YMEGet (Some (name SPhone)) _ = _ =>
         change (match sprintf_llu 32 (u64 (atoll (print_u n))) with Ok v => Ok (Some v) | Bad f => Bad f end
                 = Ok (Some (print_u n)))
       | |- YMEGet (Some (name SAppid)) _ = _ =>
         change (match sprintf_llu 32 (u64 (atoll (print_u n))) with Ok v => Ok (Some v) | Bad f => Bad f end
                 = Ok (Some (print_u n)))
       | _ =>
         specialize (Hp eq_refl);
         change (match sprintf_llu 8 (u64 (atoll (print_u n))) with Ok v => Ok (Some v) | Bad f => Bad f end
                 = Ok (Some (print_u n)))
       end.
  all: rewrite u64_atoll_print by done; rewrite sprintf_llu_fits; [done| |lia].
  all: first [change (10 ^ (32 - 1)) with 10000000000000000000000000000000 | change (10 ^ (8 - 1)) with 10000000 ]; lia.
Qed.

(** A concrete instance. *)
(** A concrete instance. *)
(** A concrete instance. *)
(** A concrete instance. *)
(** A concrete instance. *)
(** A concrete instance. *)
(** A concrete instance. *)
Lemma YMESet_YMEGet_witness :
  storable STmsport (print_u 10180) ∧
  YMEGet (Some (name STmsport)) (YMESet (name STmsport) (print_u 10180) env_init).2
  = Ok (Some (bs "10180")).
Proof.
  assert (storable STmsport (print_u 10180)) as H.
  { exists 10180. split; [reflexivity|]. split; [lia|]. intros _. lia. }
  split; [exact H|]. exact (proj1 (proj2 (YMESet_YMEGet STmsport (print_u 10180) env_init H))).
Defined.

(** The two functions do not fold the same letters: a name in capitals sets the
    address that it then does not find, and finds the number it cannot set. *)
Theorem name_case_mismatch v e :
  (YMESet (bs "TMSIP") v e).1 = 0 ∧ YMEGet (Some (bs "TMSIP")) (YMESet (bs "TMSIP") v e).2 = Ok None ∧
  (YMESet (bs "PHONE") v e) = (-1, e) ∧
  YMEGet (Some (bs "PHONE")) e = YMEGet (Some (bs "Phone")) e.
Proof. split_and!; reflexivity. Qed.

(** A port of eight digits does not fit the static buffer it is printed to. *)
Theorem tmsport_overflows e :
  YMEGet (Some (name STmsport)) (YMESet (name STmsport) (bs "12345678") e).2 = Bad OutOfBounds.
Proof. reflexivity. Qed.

End SdkEnv.
