(* ===== verification/SdkHttp.v ===== *)
(** * The two HTTP parsers of the SDK (src/sdk/sdk/ConnectMgr.cpp)

    [parse_proxy] is the part of [Connect::HandleProxyProtocol] that finds the
    host and port a browser asks for; [HandleRecvHttp] assembles the replies the
    application waits for.  Both scan the receive buffer [r_buff] with the C string
    functions, which look at the bytes behind the received ones too: a buffer is the
    whole array, a position is an index in it, and a read past its end is a fault. *)

From S2P Require Import Prelude.
From stdpp Require Import base list strings.
From Stdlib Require Import ZArith Lia.

Open Scope Z_scope.

Module SdkHttp.

(** ** C string functions on the buffer *)

Definition R_BUFF : nat := 4096.

#[export] Instance result_ret : MRet result := fun A a => Ok a.
#[export] Instance result_bind : MBind result := fun A B k r =>
  match r with Ok a => k a | Bad f => Bad f end.

Definition byte_at (buf : bytes) (p : nat) : result Z :=
  match buf !! p with Some b => Ok b | None => Bad OutOfBounds end.

(** [strncasecmp(p, lit, strlen(lit)) == 0] for a literal without NUL: it stops at
    the first difference. *)
Fixpoint case_at (buf : bytes) (p : nat) (lit : bytes) : result bool :=
  match lit with
  | [] => Ok true
  | c :: lit' =>
    b ← byte_at buf p;
    if tolower b =? tolower c then case_at buf (S p) lit' else Ok false
  end.

(** [strchr(p, c)]: the position found, or null at a NUL. *)
Fixpoint strchr (l : bytes) (p : nat) (c : Z) : result (option nat) :=
  match l with
  | [] => Bad OutOfBounds
  | b :: l' => if b =? c then Ok (Some p) else if b =? 0 then Ok None else strchr l' (S p) c
  end.

Definition strchr_at (buf : bytes) (p : nat) (c : Z) : result (option nat) := strchr (drop p buf) p c.

Definition CR : Z := 13.
Definition LF : Z := 10.

(** [strstr(p, "\r\n")] *)
Fixpoint crlf (l : bytes) (p : nat) : result (option nat) :=
  match l with
  | [] => Bad OutOfBounds
  | b :: l' =>
    if b =? 0 then Ok None
    else if b =? CR then
      match l' with
      | [] => Bad OutOfBounds
      | b' :: _ => if b' =? LF then Ok (Some p) else crlf l' (S p)
      end
    else crlf l' (S p)
  end.

Definition strstr_crlf (buf : bytes) (p : nat) : result (option nat) := crlf (drop p buf) p.

(** [atoi(p)]: the digits must end before the buffer does. *)
Fixpoint skip_digits (l : bytes) : bytes :=
  match l with
  | b :: l' => if is_digit b then skip_digits l' else l
  | [] => []
  end.

Definition skip_number (l : bytes) : bytes :=
  match skip_space l with
  | 45 :: l' => skip_digits l'
  | 43 :: l' => skip_digits l'
  | l' => skip_digits l'
  end.

Definition atoi_at (buf : bytes) (p : nat) : result Z :=
  match skip_number (drop p buf) with
  | [] => Bad OutOfBounds
  | _ => Ok (atoi (drop p buf))
  end.

(** [str.assign(p, n)]: a negative length is a huge [size_t], on which the string
    throws. *)
Definition assign (buf : bytes) (p : nat) (n : Z) : result bytes :=
  if n <? 0 then Bad Aborted
  else if Z.of_nat p + n <=? Z.of_nat (length buf) then Ok (sub p (Z.to_nat n) buf)
  else Bad OutOfBounds.

(** ** The request of a browser *)

(** The fields of the connection that the parser sets. *)
Record target := MkTarget { t_version : Z; t_port : Z; t_host : bytes }.

#[export] Instance eta_target : Eta target := fun x => MkTarget (t_version x) (t_port x) (t_host x).

(** [strtok]: leading delimiters are skipped; null when nothing is left.  The
    token, and the string after the delimiter that ended it. *)
Fixpoint skip_delims (d : Z → bool) (l : bytes) : bytes :=
  match l with b :: l' => if d b then skip_delims d l' else l | [] => [] end.

Fixpoint token (d : Z → bool) (l : bytes) : bytes * bytes :=
  match l with
  | [] => ([], [])
  | b :: l' => if d b then ([], l') else let '(t, r) := token d l' in (b :: t, r)
  end.

Definition strtok (d : Z → bool) (l : bytes) : option (bytes * bytes) :=
  match skip_delims d l with [] => None | l' => Some (token d l') end.

Definition COLON : Z := 58.
Definition is_colon (b : Z) : bool := b =? COLON.
Definition is_port_end (b : Z) : bool := (b =? CR) || (b =? LF) || (b =? 32).

(** The [CONNECT] branch; [connect_val_buff] has 256 bytes.  [Ok None] is the
    return of -1. *)
Definition parse_connect (buf : bytes) (t : target) : result (option target) :=
  let t := t <| t_version := 1 |> in
  host_end ← strchr_at buf 8 CR;
  match host_end with
  | None => Bad OutOfBounds             (* memcpy of a negative length *)
  | Some e =>
    let n := Z.of_nat e - 8 in
    if 256 <? n then Ok None
    else if n =? 256 then Bad OutOfBounds      (* the NUL lands behind the buffer *)
    else
      let val := sub 8 (Z.to_nat n) buf in
      match strtok is_colon val with
      | None => Bad NullDeref
      | Some (h, rest) =>
        match strtok is_port_end rest with
        | None => Bad NullDeref
        | Some (p, _) =>
          let t := if is_digit (default 0 (head p)) then t <| t_port := u16 (atoi p) |> else t in
          Ok (Some (t <| t_host := h |>))
        end
      end
  end.

(** Whether the character at [p] is an [h] of either case and [ost: ] follows it. *)
Definition host_at (buf : bytes) (p : nat) : result bool :=
  b ← byte_at buf p;
  if (b =? 104) || (b =? 72) then case_at buf (S p) (bs "ost: ") else Ok false.

(** The search for the [Host] line; [stop] is [cstr + slen].  The fuel counts the
    steps of [p]. *)
Fixpoint find_host (fuel : nat) (buf : bytes) (p stop : nat) (t : target) : result target :=
  match fuel with
  | O => Bad OutOfFuel
  | S fuel' =>
    if (p <? stop)%nat then
      m ← host_at buf p;
      if (m : bool) then
        let p := (p + 6)%nat in
        pos ← strstr_crlf buf p;
        match pos with
        | Some e =>
          if (e <? stop)%nat then Ok (t <| t_host := sub p (e - p) buf |>)
          else find_host fuel' buf (S p) stop t
        | None => find_host fuel' buf (S p) stop t
        end
      else find_host fuel' buf (S p) stop t
    else Ok t
  end.

Definition parse_proxy (buf : bytes) (msglen : nat) (t : target) : result (option target) :=
  c ← case_at buf 0 (bs "CONNECT");
  if (c : bool) then parse_connect buf t
  else t ← find_host (S msglen) buf 0 msglen t; Ok (Some t).

(** ** The reply of the web server *)

Record http := MkHttp {
  mf : Z;
  header : Z;
  keepalive : Z;
  chunked : Z;
  content_length : Z;      (* int *)
  need_length : Z;         (* int *)
  rsp_code : Z;
  datalist : list bytes;   (* http_reply_datalist *)
}.

#[export] Instance eta_http : Eta http := fun x =>
  MkHttp (mf x) (header x) (keepalive x) (chunked x) (content_length x) (need_length x)
         (rsp_code x) (datalist x).

Definition http_init : http := MkHttp 0 1 0 0 0 0 0 [].

Definition http_reset (h : http) : http := MkHttp 0 1 0 0 0 0 0 (datalist h).

(** The pointer after a header name and one optional space. *)
Definition skip_one_space (buf : bytes) (p : nat) : result nat :=
  b ← byte_at buf p; Ok (if b =? 32 then S p else p).

(** One round of the scan of the header at [p]: the new [p] (before the [p++] of
    the loop) and the fields, and whether the header ends there. *)
Definition scan_step (buf : bytes) (p : nat) (h : http) : result (nat * http * bool) :=
  b ← byte_at buf p;
  if (b =? 67) || (b =? 99) then
    m ← case_at buf (S p) (bs "onnection:");
    '(p, h) ←
      (if (m : bool) then
        p ← skip_one_space buf (p + 11);
        k ← case_at buf p (bs "keep-alive");
        Ok (p, h <| keepalive := if (k : bool) then 1 else -1 |>)
      else Ok (p, h));
    m ← case_at buf (S p) (bs "ontent-Length:");
    if (m : bool) then
      p ← skip_one_space buf (p + 15);
      n ← atoi_at buf p;
      Ok (p, h <| content_length := n |>, false)
    else Ok (p, h, false)
  else if (b =? 84) || (b =? 116) then
    m ← case_at buf (S p) (bs "ransfer-Encoding");
    if (m : bool) then
      p ← skip_one_space buf (p + 17);
      k ← case_at buf p (bs "chunked");
      Ok (p, h <| chunked := if (k : bool) then 1 else -1 |>, false)
    else Ok (p, h, false)
  else if b =? CR then
    m ← case_at buf (S p) [LF; CR; LF];
    if (m : bool) then
      let h := h <| header := 0 |> <| mf := 0 |> in
      Ok ((p + 4)%nat, if 0 <? content_length h then h <| need_length := content_length h |> else h, true)
    else Ok (p, h, false)
  else Ok (p, h, false).

(** The loop over the header; the fuel counts its rounds.  The body's position when
    the header ends. *)
Fixpoint scan (fuel : nat) (buf : bytes) (p stop : nat) (h : http) : result (option nat * http) :=
  match fuel with
  | O => Bad OutOfFuel
  | S fuel' =>
    if (p <? stop)%nat then
      '(p, h, fin) ← scan_step buf p h;
      if (fin : bool) then Ok (Some p, h) else scan fuel' buf (S p) stop h
    else Ok (None, h)
  end.

(** [http_reply_datalist.rbegin()->append(str)] *)
Definition append_last (str : bytes) (h : http) : result http :=
  match reverse (datalist h) with
  | [] => Bad OutOfBounds
  | d :: ds => Ok (h <| datalist := reverse ds ++ [d ++ str] |>)
  end.

(** The part under [if (header)]. *)
Definition parse_header (buf : bytes) (msg msglen : nat) (h : http) : result (option nat * http) :=
  m ← case_at buf msg (bs "HTTP/1.");
  '(c, h) ←
    (if (m : bool) then
       code ← atoi_at buf (msg + 8);
       Ok ((msg + 8)%nat, h <| rsp_code := code |> <| header := 0 |>)
     else Ok (msg, h));
  '(body, h) ← scan (S msglen) buf c (c + msglen) h;
  let body := default (msg + msglen)%nat body in
  str ← assign buf msg (Z.of_nat body - Z.of_nat msg);
  h ← (if mf h =? 0 then Ok (h <| datalist := datalist h ++ [str] |> <| mf := 1 |>)
       else append_last str h);
  Ok (Some body, h).

(** [Connect::HandleRecvHttp]: the fields and the number of times the waiting
    thread is woken.  The fuel counts the nested calls. *)
Fixpoint HandleRecvHttp (fuel : nat) (buf : bytes) (msg msglen : nat) (h : http) : result (http * nat) :=
  match fuel with
  | O => Bad OutOfFuel
  | S fuel' =>
    '(body, h) ← (if header h =? 0 then Ok (None, h) else parse_header buf msg msglen h);
    if negb (header h =? 0) then Ok (h, 0%nat)
    else
      match datalist h with
      | [] => Ok (h, 0%nat)
      | _ =>
        let body := default msg body in
        let msg_end := (msg + msglen)%nat in
        let left := Z.of_nat msg_end - Z.of_nat body in
        if (keepalive h <? 0) || (chunked h <? 0) then Ok (h, 0%nat)
        else if 0 <? content_length h then
          if need_length h <=? left then
            str ← assign buf body (content_length h);
            h ← append_last str h;
            let h := http_reset h in
            if 0 <? left - need_length h then
              '(h, n) ← HandleRecvHttp fuel' buf (body + Z.to_nat (need_length h))
                          (Z.to_nat (left + need_length h)) h;
              Ok (h, S n)
            else Ok (h, 1%nat)
          else
            str ← assign buf body left;
            h ← append_last str h;
            Ok (h <| need_length := i32 (need_length h - left) |>, 0%nat)
        else
          str ← assign buf body left;
          h ← append_last str h;
          Ok (h, 0%nat)
      end
  end.

(** A nested call starts behind the header of the outer one, or re-reads the same
    bytes once with the header flag set. *)
Definition http_fuel (msglen : nat) : nat := S (S msglen).

Definition HandleRecvHttp_top (buf : bytes) (msglen : nat) (h : http) : result (http * nat) :=
  HandleRecvHttp (http_fuel msglen) buf 0 msglen h.

(** ** Concrete replies and requests *)

Definition fill (msg : bytes) : bytes := msg ++ replicate (R_BUFF - length msg) 0.

Definition crlfs (l : list string) : bytes := concat (map (fun s => bs s ++ [CR; LF]) l).

Definition reply1 : bytes :=
  crlfs ["HTTP/1.1 200 OK"; "Content-Length: 5"; ""]%string ++ bs "hello".

(** ** Bounds of the scans

    Every round of the loops advances, so the fuel is enough; the nested calls of
    [HandleRecvHttp] get shorter. *)

Lemma byte_at_fuel buf p : byte_at buf p ≠ Bad OutOfFuel.
Proof. unfold byte_at. destruct (buf !! p); done. Qed.

Lemma case_at_fuel buf p lit : case_at buf p lit ≠ Bad OutOfFuel.
Proof.
  revert p. induction lit as [|c lit IH]; intros p; [done|]. cbn [case_at]. unfold mbind, result_bind.
  destruct (byte_at buf p) eqn:E; [destruct (_ =? _); [apply IH|done]|]. intros [= ->].
  by apply byte_at_fuel in E.
Qed.

Lemma result_bind_fuel {A B} (r : result A) (k : A → result B) :
  r ≠ Bad OutOfFuel → (∀ a, r = Ok a → k a ≠ Bad OutOfFuel) → (r ≫= k) ≠ Bad OutOfFuel.
Proof. intros Hr Hk. unfold mbind, result_bind. destruct r; [auto|congruence]. Qed.

Lemma skip_one_space_fuel buf p : skip_one_space buf p ≠ Bad OutOfFuel.
Proof. apply result_bind_fuel; [apply byte_at_fuel|done]. Qed.

Lemma atoi_at_fuel buf p : atoi_at buf p ≠ Bad OutOfFuel.
Proof. unfold atoi_at. destruct (skip_number _); done. Qed.

Lemma assign_fuel buf p n : assign buf p n ≠ Bad OutOfFuel.
Proof. unfold assign. case_ifs; done. Qed.

Lemma append_last_fuel str h : append_last str h ≠ Bad OutOfFuel.
Proof. unfold append_last. destruct (reverse _); done. Qed.

Lemma strstr_crlf_fuel buf p : strstr_crlf buf p ≠ Bad OutOfFuel.
Proof.
  unfold strstr_crlf. generalize (drop p buf) as l. intros l. revert p.
  induction l as [|b l IH]; intros p; [done|]. cbn [crlf].
  destruct (b =? 0); [done|]. destruct (b =? CR); [|apply IH]. destruct l; [done|].
  destruct (_ =? LF); [done|apply IH].
Qed.

Create HintDb http_fuel.
#[export] Hint Resolve byte_at_fuel case_at_fuel skip_one_space_fuel atoi_at_fuel assign_fuel
  append_last_fuel strstr_crlf_fuel : http_fuel.

(** Walks through a parser that has no loop of its own. *)
Ltac fuel_step :=
  match goal with
  | |- (_ ≫= _) ≠ Bad OutOfFuel => apply result_bind_fuel; [|intros ? _]
  | |- (match ?x with _ => _ end) ≠ Bad OutOfFuel => destruct x
  | |- Ok _ ≠ Bad OutOfFuel => discriminate
  | |- Bad _ ≠ Bad OutOfFuel => discriminate
  | _ => solve [auto with http_fuel nocore]
  end.

Lemma scan_step_fuel buf p h : scan_step buf p h ≠ Bad OutOfFuel.
Proof. unfold scan_step. repeat fuel_step. Qed.

(** Inversion of a successful sequence. *)
Lemma bind_res {A B} (r : result A) (k : A → result B) b :
  (r ≫= k) = Ok b → ∃ a, r = Ok a ∧ k a = Ok b.
Proof. unfold mbind, result_bind. destruct r as [a|f]; [|done]. intros H. exists a. done. Qed.

Ltac inv_res H :=
  let a := fresh "a" in let H1 := fresh "Hr" in
  apply bind_res in H as (a & H1 & H).

Lemma skip_one_space_ge buf p q : skip_one_space buf p = Ok q → (p ≤ q)%nat.
Proof. unfold skip_one_space. intros H. inv_res H. destruct (_ =? _); injection H as <-; lia. Qed.

Lemma scan_step_ge buf p h p' h' fin : scan_step buf p h = Ok (p', h', fin) → (p ≤ p')%nat.
Proof.
  unfold scan_step. intros H. inv_res H. rename a into b. destruct (_ || _).
  - inv_res H. inv_res H. destruct a0 as [p1 h1]. inv_res H.
    assert (p ≤ p1)%nat as Hp.
    { destruct a; [|injection Hr1 as <- <-; lia]. inv_res Hr1. inv_res Hr1. injection Hr1 as <- <-.
      apply skip_one_space_ge in Hr3. lia. }
    destruct a0; [|injection H as <- <- <-; lia]. inv_res H. inv_res H. injection H as <- <- <-.
    apply skip_one_space_ge in Hr3. lia.
  - destruct (_ || _).
    + inv_res H. destruct a; [|injection H as <- <- <-; lia]. inv_res H. inv_res H. injection H as <- <- <-.
      apply skip_one_space_ge in Hr1. lia.
    + destruct (_ =? _); [|injection H as <- <- <-; lia]. inv_res H.
      destruct a; injection H as <- <- <-; lia.
Qed.

Lemma scan_fuel fuel buf p stop h : (stop - p < fuel)%nat → scan fuel buf p stop h ≠ Bad OutOfFuel.
Proof.
  revert p h. induction fuel as [|fuel IH]; intros p h Hf; [lia|]. cbn [scan].
  destruct (Nat.ltb_spec p stop); [|done]. apply result_bind_fuel; [apply scan_step_fuel|].
  intros [[p' h'] fin] Hs. apply scan_step_ge in Hs. destruct fin; [done|]. apply IH. lia.
Qed.

Lemma scan_ge fuel buf p stop h q h' : scan fuel buf p stop h = Ok (Some q, h') → (p < q)%nat.
Proof.
  revert p h. induction fuel as [|fuel IH]; intros p h H; [done|]. cbn [scan] in H.
  destruct (p <? stop)%nat; [|done]. inv_res H. destruct a as [[p1 h1] fin]. destruct fin.
  - injection H as <- <-. unfold scan_step in Hr. inv_res Hr.
    destruct (_ || _).
    { inv_res Hr. inv_res Hr. destruct a1. inv_res Hr. destruct a1; [inv_res Hr; inv_res Hr|]; done. }
    destruct (_ || _).
    { inv_res Hr. destruct a0; [inv_res Hr; inv_res Hr|]; done. }
    destruct (_ =? _); [|done]. inv_res Hr. destruct a0; [|done]. injection Hr as <- <-. lia.
  - apply IH in H. apply scan_step_ge in Hr. lia.
Qed.

Lemma parse_header_fuel buf msg msglen h : parse_header buf msg msglen h ≠ Bad OutOfFuel.
Proof.
  unfold parse_header. apply result_bind_fuel; [auto with http_fuel|]. intros m _. apply result_bind_fuel.
  { repeat fuel_step. }
  intros [c h1] _. apply result_bind_fuel; [apply scan_fuel; lia|]. intros [body h2] _. repeat fuel_step.
Qed.

(** The header takes at least one byte of a message that is not empty. *)
Lemma parse_header_body buf msg msglen h body h' : parse_header buf msg msglen h = Ok (body, h') →
  ∃ b, body = Some b ∧ (msg < b ∨ b = msg + msglen)%nat.
Proof.
  unfold parse_header. intros H. inv_res H. inv_res H. destruct a0 as [c h1]. inv_res H.
  destruct a0 as [body0 h2]. inv_res H. inv_res H. injection H as <- <-. eexists. split; [done|].
  destruct body0 as [b|]; [|right; done]. left. cbn. apply scan_ge in Hr1.
  destruct a; [inv_res Hr0|]; injection Hr0 as <- <-; lia.
Qed.

(** The nested calls end: a call re-reads the bytes with the header flag set at
    most once and then gets shorter. *)
Lemma HandleRecvHttp_fuel fuel buf msg msglen h :
  (msglen + (if (header h =? 0)%Z then 1 else 0) < fuel)%nat →
  HandleRecvHttp fuel buf msg msglen h ≠ Bad OutOfFuel.
Proof.
  revert msg msglen h. induction fuel as [|fuel IH]; intros msg msglen h Hf; [lia|]. cbn [HandleRecvHttp].
  apply result_bind_fuel. { destruct (_ =? 0); [done|apply parse_header_fuel]. }
  intros [body h1] Hb. destruct (negb _); [done|]. destruct (datalist h1) eqn:Hd; [done|].
  destruct (_ || _); [done|]. destruct (0 <? content_length h1); [|repeat fuel_step].
  destruct (_ <=? _); [|repeat fuel_step].
  apply result_bind_fuel; [auto with http_fuel|]. intros str _. apply result_bind_fuel; [auto with http_fuel|]. intros h2 _.
  destruct (Z.ltb_spec 0 (Z.of_nat (msg + msglen) - Z.of_nat (default msg body) - need_length (http_reset h2)))
    as [Hl|]; [|done].
  apply result_bind_fuel; [|intros [? ?] _; done]. apply IH. cbn in *.
  destruct (header h =? 0).
  - injection Hb as <- <-. cbn in *. lia.
  - apply parse_header_body in Hb as (b & -> & Hb). cbn in *. lia.
Qed.

(** ** The request that is parsed *)

Lemma byte_at_app pre b post : byte_at (pre ++ b :: post) (length pre) = Ok b.
Proof. unfold byte_at. rewrite list_lookup_middle; done. Qed.

Lemma case_at_app pre lit post : case_at (pre ++ lit ++ post) (length pre) lit = Ok true.
Proof.
  revert pre. induction lit as [|c lit IH]; intros pre; [done|]. cbn [case_at app].
  rewrite byte_at_app. unfold mbind, result_bind. rewrite Z.eqb_refl.
  change (pre ++ c :: lit ++ post) with (pre ++ [c] ++ lit ++ post). rewrite app_assoc.
  replace (S (length pre)) with (length (pre ++ [c])) by len. apply IH.
Qed.

Lemma strchr_app l c r p : c ∉ l → 0 ∉ l → strchr (l ++ c :: r) p c = Ok (Some (p + length l)%nat).
Proof.
  revert p. induction l as [|b l IH]; intros p Hc H0; cbn [strchr app length].
  - rewrite Z.eqb_refl. do 2 f_equal. lia.
  - apply not_elem_of_cons in Hc as [? ?]. apply not_elem_of_cons in H0 as [? ?].
    destruct (Z.eqb_spec b c); [congruence|]. destruct (Z.eqb_spec b 0); [congruence|].
    rewrite IH by done. do 2 f_equal. lia.
Qed.

Lemma crlf_app l r p : CR ∉ l → 0 ∉ l → crlf (l ++ CR :: LF :: r) p = Ok (Some (p + length l)%nat).
Proof.
  revert p. induction l as [|b l IH]; intros p Hc H0; cbn [crlf app length].
  - rewrite !Z.eqb_refl. cbn. do 2 f_equal. lia.
  - apply not_elem_of_cons in Hc as [? ?]. apply not_elem_of_cons in H0 as [? ?].
    destruct (Z.eqb_spec b 0); [congruence|]. destruct (Z.eqb_spec b CR); [congruence|].
    rewrite IH by done. do 2 f_equal. lia.
Qed.

Lemma token_app d t c r : Forall (fun b => d b = false) t → d c = true → token d (t ++ c :: r) = (t, r).
Proof.
  intros Ht Hc. induction Ht as [|b t Hb Ht IH]; cbn [token app]; [rewrite Hc; done|].
  rewrite Hb, IH. done.
Qed.

Lemma strtok_app d t c r : t ≠ [] → Forall (fun b => d b = false) t → d c = true →
  strtok d (t ++ c :: r) = Some (t, r).
Proof.
  intros Hn Ht Hc. unfold strtok. destruct t as [|b t]; [done|].
  assert (d b = false) as Hb by (apply Forall_cons in Ht as [? _]; done).
  assert (skip_delims d ((b :: t) ++ c :: r) = (b :: t) ++ c :: r) as -> by (cbn; rewrite Hb; done).
  change ((b :: t) ++ c :: r) with (b :: (t ++ c :: r)). cbv iota.
  change (b :: (t ++ c :: r)) with ((b :: t) ++ c :: r). rewrite token_app by done. done.
Qed.

Lemma digits_port n : Forall (fun b => is_port_end b = false) (print_u n).
Proof.
  eapply Forall_impl; [apply print_u_digits|]. intros b Hb. unfold is_digit, is_port_end in *.
  apply andb_true_iff in Hb as [H1%Z.leb_le H2%Z.leb_le]. unfold CR, LF.
  destruct (Z.eqb_spec b 13), (Z.eqb_spec b 10), (Z.eqb_spec b 32); lia || done.
Qed.

Lemma digits_clean n c : c < 48 → c ∉ print_u n.
Proof.
  intros Hc Hin. pose proof (print_u_digits n) as H. rewrite Forall_forall in H. apply H in Hin.
  unfold is_digit in Hin. apply andb_true_iff in Hin as [H1%Z.leb_le _]. lia.
Qed.

Lemma atoi_print n : 0 ≤ n < 2 ^ 31 → atoi (print_u n) = n.
Proof.
  intros Hn. unfold atoi, atoll. rewrite dec_value_digits, dec_print_u by (apply print_u_digits || range_lia).
  rewrite swrap_id; range_lia.
Qed.

(** The request line of a browser that opens a tunnel. *)
Definition connect_line (host : bytes) (port : Z) (version rest : bytes) : bytes :=
  bs "CONNECT " ++ (host ++ COLON :: (print_u port ++ 32 :: version)) ++ CR :: rest.

(** C37: a CONNECT line whose host, port and version fit the buffer of 256 bytes is
    parsed to exactly that host and port, as https. *)
Theorem connect_parsed host port version rest msglen t :
  host ≠ [] → COLON ∉ host → CR ∉ host → 0 ∉ host → CR ∉ version → 0 ∉ version → in_u 16 port →
  (length (host ++ COLON :: (print_u port ++ 32%Z :: version)) < 256)%nat →
  parse_proxy (connect_line host port version rest) msglen t = Ok (Some (MkTarget 1 port host)).
Proof.
  intros Hn Hc Hcr H0 Hv Hv0 Hp Hl. unfold parse_proxy, connect_line.
  set (val := host ++ COLON :: (print_u port ++ 32 :: version)) in *.
  assert (case_at (bs "CONNECT " ++ val ++ CR :: rest) 0 (bs "CONNECT") = Ok true) as ->
    by exact (case_at_app [] (bs "CONNECT") (32 :: val ++ CR :: rest)).
  change (parse_connect (bs "CONNECT " ++ val ++ CR :: rest) t = Ok (Some (MkTarget 1 port host))).
  unfold parse_connect, strchr_at. change (drop 8 (bs "CONNECT " ++ val ++ CR :: rest)) with (val ++ CR :: rest).
  assert (∀ x, (x = CR ∨ x = 0) → x ∉ val) as Hx.
  { intros x Hx. subst val. rewrite not_elem_of_app, not_elem_of_cons, not_elem_of_app, not_elem_of_cons.
    destruct Hx as [-> | ->]; split_and!; try done; apply digits_clean; reflexivity. }
  rewrite strchr_app by auto. unfold mbind, result_bind.
  replace (Z.of_nat (8 + length val) - 8) with (Z.of_nat (length val)) by lia.
  destruct (Z.ltb_spec 256 (Z.of_nat (length val))); [lia|].
  destruct (Z.eqb_spec (Z.of_nat (length val)) 256); [lia|].
  rewrite Nat2Z.id. unfold sub. change (drop 8 (bs "CONNECT " ++ val ++ CR :: rest)) with (val ++ CR :: rest).
  rewrite take_app_length. subst val. rewrite strtok_app; [|done| |done].
  2: { apply Forall_forall. intros b Hb. unfold is_colon. apply Z.eqb_neq. intros ->. done. }
  rewrite strtok_app; [|apply print_u_nonnil|apply digits_port|done].
  pose proof (print_u_digits port) as Hd. pose proof (atoi_print port ltac:(range_lia)) as Ha.
  pose proof (print_u_nonnil port) as Hnn.
  destruct (print_u port) as [|b l]; [done|]. apply Forall_cons in Hd as [Hb _]. cbn [head default].
  unfold default, head. cbn. rewrite Hb. rewrite Ha. rewrite (wrap_id 16) by done. done.
Qed.

(** Witness of C37. *)
Lemma connect_parsed_witness :
  parse_proxy (connect_line (bs "www.example.com") 443 (bs "HTTP/1.1") [LF; CR; LF]) 42 (MkTarget 0 80 [])
  = Ok (Some (MkTarget 1 443 (bs "www.example.com"))).
Proof.
  apply (connect_parsed (bs "www.example.com") 443 (bs "HTTP/1.1") [LF; CR; LF] 42 (MkTarget 0 80 [])).
  - discriminate.
  - by_decide.
  - by_decide.
  - by_decide.
  - by_decide.
  - by_decide.
  - range_lia.
  - vm_compute. lia.
Defined.

Lemma find_host_skip fuel buf p q stop t : (∀ i, (p ≤ i < q)%nat → host_at buf i = Ok false) →
  (p ≤ q ≤ stop)%nat → (q - p ≤ fuel)%nat →
  find_host fuel buf p stop t = find_host (fuel - (q - p)) buf q stop t.
Proof.
  revert p. induction fuel as [|fuel IH]; intros p Hq Hp Hf.
  - assert (q = p) as -> by lia. done.
  - destruct (decide (p = q)) as [->|]; [rewrite Nat.sub_diag, Nat.sub_0_r; done|].
    cbn [find_host]. destruct (Nat.ltb_spec p stop); [|lia]. rewrite Hq by lia.
    unfold mbind at 1, result_bind at 1. cbv iota. rewrite IH by (lia || (intros; apply Hq; lia)).
    f_equal. lia.
Qed.

(** In a request that is not a CONNECT, the first Host line gives the host, whatever
    comes before it. *)
(** In a request that is not a CONNECT, the first Host line gives the host, whatever
    comes before it. *)
(** In a request that is not a CONNECT, the first Host line gives the host, whatever
    comes before it. *)
(** In a request that is not a CONNECT, the first Host line gives the host, whatever
    comes before it. *)
(** In a request that is not a CONNECT, the first Host line gives the host, whatever
    comes before it. *)
(** In a request that is not a CONNECT, the first Host line gives the host, whatever
    comes before it. *)
(** In a request that is not a CONNECT, the first Host line gives the host, whatever
    comes before it. *)
(** In a request that is not a CONNECT, the first Host line gives the host, whatever
    comes before it. *)
(** In a request that is not a CONNECT, the first Host line gives the host, whatever
    comes before it. *)
(** In a request that is not a CONNECT, the first Host line gives the host, whatever
    comes before it. *)
(** In a request that is not a CONNECT, the first Host line gives the host, whatever
    comes before it. *)
(** In a request that is not a CONNECT, the first Host line gives the host, whatever
    comes before it. *)
(** In a request that is not a CONNECT, the first Host line gives the host, whatever
    comes before it. *)
(** In a request that is not a CONNECT, the first Host line gives the host, whatever
    comes before it. *)
(** In a request that is not a CONNECT, the first Host line gives the host, whatever
    comes before it. *)
Theorem host_parsed pre name rest msglen t buf :
  buf = pre ++ bs "Host: " ++ name ++ CR :: LF :: rest →
  (length pre + 6 + length name < msglen)%nat →
  case_at buf 0 (bs "CONNECT") = Ok false →
  (∀ i, (i < length pre)%nat → host_at buf i = Ok false) →
  CR ∉ name → 0 ∉ name →
  parse_proxy buf msglen t = Ok (Some (t <| t_host := name |>)).
Proof.
  intros Hbuf Hlen Hc Hpre Hcr H0. unfold parse_proxy. rewrite Hc. unfold mbind at 1, result_bind at 1. cbv iota.
  rewrite (find_host_skip _ _ 0 (length pre)) by (lia || (intros; apply Hpre; lia)).
  rewrite Nat.sub_0_r. replace (S msglen - length pre)%nat with (S (msglen - length pre)) by lia.
  cbn [find_host]. destruct (Nat.ltb_spec (length pre) msglen); [|lia].
  assert (host_at buf (length pre) = Ok true) as ->.
  { unfold host_at. subst buf. change (bs "Host: " ++ name ++ CR :: LF :: rest)
      with (72 :: bs "ost: " ++ name ++ CR :: LF :: rest). rewrite byte_at_app.
    change (case_at (pre ++ [72] ++ bs "ost: " ++ name ++ CR :: LF :: rest) (S (length pre)) (bs "ost: ") = Ok true).
    rewrite app_assoc. replace (S (length pre)) with (length (pre ++ [72])) by len. apply case_at_app. }
  unfold mbind at 2, result_bind at 2. cbv iota.
  assert (drop (length pre + 6) buf = name ++ CR :: LF :: rest) as Hd.
  { subst buf. rewrite app_assoc. replace (length pre + 6)%nat with (length (pre ++ bs "Host: ")).
    - apply drop_app_length.
    - rewrite length_app. reflexivity. }
  unfold strstr_crlf. rewrite Hd, crlf_app by done. unfold mbind at 2, result_bind at 2. cbv iota.
  destruct (Nat.ltb_spec (length pre + 6 + length name) msglen); [|lia].
  replace (length pre + 6 + length name - (length pre + 6))%nat with (length name) by lia.
  unfold sub. rewrite Hd, take_app_length. done.
Qed.

(** A concrete instance. *)
(** A concrete instance. *)
(** A concrete instance. *)
(** A concrete instance. *)
(** A concrete instance. *)
(** A concrete instance. *)
(** A concrete instance. *)
(** A concrete instance. *)
(** A concrete instance. *)
(** A concrete instance. *)
(** A concrete instance. *)
(** A concrete instance. *)
(** A concrete instance. *)
(** A concrete instance. *)
(** A concrete instance. *)
Lemma host_parsed_witness :
  let request := crlfs ["GET /index.html HTTP/1.1"; "Host: www.example.com"; "Accept: */*"; ""]%string in
  parse_proxy request (length request) (MkTarget 0 80 []) = Ok (Some (MkTarget 0 80 (bs "www.example.com"))).
Proof.
  intros request.
  apply (host_parsed (crlfs ["GET /index.html HTTP/1.1"]%string) (bs "www.example.com")
           (crlfs ["Accept: */*"; ""]%string) (length request) (MkTarget 0 80 []) request).
  - reflexivity.
  - vm_compute. lia.
  - reflexivity.
  - intros i Hi. do 26 (destruct i as [|i]; [reflexivity|]). vm_compute in Hi. lia.
  - by_decide.
  - by_decide.
Defined.

(** A [CONNECT] without a port is a null dereference: the second [strtok] finds
    nothing. *)
Theorem connect_without_port host version rest msglen t :
  COLON ∉ host → CR ∉ host → 0 ∉ host → COLON ∉ version → CR ∉ version → 0 ∉ version →
  (length (host ++ 32%Z :: version) < 256)%nat →
  parse_proxy (bs "CONNECT " ++ (host ++ 32 :: version) ++ CR :: rest) msglen t = Bad NullDeref.
Proof.
  intros Hc Hcr H0 Hvc Hv Hv0 Hl. unfold parse_proxy. set (val := host ++ 32 :: version) in *.
  assert (case_at (bs "CONNECT " ++ val ++ CR :: rest) 0 (bs "CONNECT") = Ok true) as ->
    by exact (case_at_app [] (bs "CONNECT") (32 :: val ++ CR :: rest)).
  change (parse_connect (bs "CONNECT " ++ val ++ CR :: rest) t = Bad NullDeref).
  unfold parse_connect, strchr_at. change (drop 8 (bs "CONNECT " ++ val ++ CR :: rest)) with (val ++ CR :: rest).
  assert (∀ x, (x = CR ∨ x = 0 ∨ x = COLON) → x ∉ val) as Hx.
  { intros x Hx. subst val. rewrite not_elem_of_app, not_elem_of_cons.
    destruct Hx as [-> | [-> | ->]]; split_and!; done. }
  rewrite strchr_app by auto. unfold mbind, result_bind.
  replace (Z.of_nat (8 + length val) - 8) with (Z.of_nat (length val)) by lia.
  destruct (Z.ltb_spec 256 (Z.of_nat (length val))); [lia|].
  destruct (Z.eqb_spec (Z.of_nat (length val)) 256); [lia|].
  rewrite Nat2Z.id. unfold sub. change (drop 8 (bs "CONNECT " ++ val ++ CR :: rest)) with (val ++ CR :: rest).
  rewrite take_app_length.
  assert (∀ l, COLON ∉ l → token is_colon l = (l, [])) as Ht.
  { induction l as [|b l IH]; [done|]. rewrite not_elem_of_cons. intros [Hb Hl']. cbn [token].
    unfold is_colon at 1. destruct (Z.eqb_spec b COLON); [congruence|]. rewrite IH by done. done. }
  unfold strtok. specialize (Hx COLON ltac:(auto)).
  destruct val as [|b l]; [done|]. cbn [skip_delims].
  assert (is_colon b = false) as ->.
  { apply not_elem_of_cons in Hx as [Hb _]. apply Z.eqb_neq. congruence. }
  rewrite Ht by done. done.
Qed.

(** ** The reply that is assembled *)

(** The scan finds nothing at position [i]. *)
Definition inert (buf : bytes) (i : nat) : Prop := ∀ h, scan_step buf i h = Ok (i, h, false).

Lemma scan_skip fuel buf p q stop h : (∀ i, (p ≤ i < q)%nat → inert buf i) →
  (p ≤ q ≤ stop)%nat → (q - p ≤ fuel)%nat →
  scan fuel buf p stop h = scan (fuel - (q - p)) buf q stop h.
Proof.
  revert p. induction fuel as [|fuel IH]; intros p Hq Hp Hf.
  - assert (q = p) as -> by lia. done.
  - destruct (decide (p = q)) as [->|]; [rewrite Nat.sub_diag, Nat.sub_0_r; done|].
    cbn [scan]. destruct (Nat.ltb_spec p stop); [|lia]. rewrite (Hq p) by lia.
    unfold mbind, result_bind. cbv iota. rewrite IH by (lia || (intros; apply Hq; lia)).
    f_equal. lia.
Qed.

(** The whole message is inert. *)
Lemma scan_inert fuel buf p stop h : (∀ i, (p ≤ i < stop)%nat → inert buf i) → (stop - p < fuel)%nat →
  scan fuel buf p stop h = Ok (None, h).
Proof.
  intros Hi Hf. destruct (decide (p ≤ stop)%nat).
  - rewrite (scan_skip fuel buf p stop stop) by (done || lia).
    destruct (fuel - (stop - p))%nat eqn:E; [lia|]. cbn [scan]. rewrite Nat.ltb_irrefl. done.
  - destruct fuel; [lia|]. cbn [scan]. destruct (Nat.ltb_spec p stop); [lia|]. done.
Qed.

(** Runs the sequencing of results. *)
Ltac rb := unfold mbind, result_bind; cbv beta iota zeta.

Lemma case_at_cons buf p c lit : case_at buf p (c :: lit) = Ok true →
  ∃ b, byte_at buf p = Ok b ∧ tolower b = tolower c ∧ case_at buf (S p) lit = Ok true.
Proof.
  cbn [case_at]. intros H. inv_res H. destruct (Z.eqb_spec (tolower a) (tolower c)); [|done]. eauto.
Qed.

Lemma case_at_differs buf p c c' lit lit' : case_at buf p (c :: lit) = Ok true → tolower c ≠ tolower c' →
  case_at buf p (c' :: lit') = Ok false.
Proof.
  intros (b & Hb & Ht & _)%case_at_cons Hne. cbn [case_at]. rewrite Hb. unfold mbind, result_bind.
  destruct (Z.eqb_spec (tolower b) (tolower c')); [congruence|done].
Qed.

Lemma tolower_C b : tolower b = 99 → (b =? 67) || (b =? 99) = true.
Proof.
  unfold tolower. destruct (Z.leb_spec 65 b), (Z.leb_spec b 90); cbn [andb]; intros Hb.
  - assert (b = 67) as -> by lia. done.
  - subst. done.
  - subst. done.
  - lia.
Qed.

(** One round at [Content-Length:]. *)
Lemma scan_content_length buf k q n h : case_at buf k (bs "Content-Length:") = Ok true →
  skip_one_space buf (k + 15) = Ok q → atoi_at buf q = Ok n →
  scan_step buf k h = Ok (q, h <| content_length := n |>, false).
Proof.
  intros Hc Hq Hn. destruct (case_at_cons buf k 67 (bs "ontent-Length:") Hc) as (b & Hb & Ht & Hr).
  unfold scan_step. rewrite Hb.
  unfold mbind at 1, result_bind at 1. rewrite (tolower_C b) by exact Ht.
  assert (case_at buf (S k) (bs "onnection:") = Ok false) as ->.
  { destruct (case_at_cons buf (S k) 111 (bs "ntent-Length:") Hr) as (b1 & H1 & T1 & H1').
    destruct (case_at_cons buf _ 110 (bs "tent-Length:") H1') as (b2 & H2 & T2 & H3).
    change (bs "onnection:") with (111 :: 110 :: bs "nection:").
    cbn [case_at]. rewrite H1. unfold mbind at 1, result_bind at 1. rewrite T1, Z.eqb_refl.
    rewrite H2. unfold mbind at 1, result_bind at 1. rewrite T2, Z.eqb_refl.
    apply (case_at_differs buf _ 116 110 (bs "ent-Length:")); [exact H3|]. done. }
  unfold mbind at 1, result_bind at 1. cbv iota. unfold mbind at 1, result_bind at 1. rewrite Hr.
  unfold mbind at 1, result_bind at 1. cbv iota. rewrite Hq.
  unfold mbind at 1, result_bind at 1. rewrite Hn. done.
Qed.

(** One round at the end of the header. *)
Lemma scan_end buf e h : byte_at buf e = Ok CR → case_at buf (S e) [LF; CR; LF] = Ok true →
  scan_step buf e h = Ok ((e + 4)%nat,
    (let h := h <| header := 0 |> <| mf := 0 |> in
     if 0 <? content_length h then h <| need_length := content_length h |> else h), true).
Proof.
  intros Hb Hr. unfold scan_step. rewrite Hb. unfold mbind at 1, result_bind at 1. cbn [Z.eqb orb CR Pos.eqb].
  rewrite Hr. done.
Qed.

Lemma assign_sub buf p n : (p + n ≤ length buf)%nat → assign buf p (Z.of_nat n) = Ok (sub p n buf).
Proof.
  intros Hl. unfold assign. destruct (Z.ltb_spec (Z.of_nat n) 0); [lia|].
  destruct (Z.leb_spec (Z.of_nat p + Z.of_nat n) (Z.of_nat (length buf))); [|lia]. rewrite Nat2Z.id. done.
Qed.

Lemma append_last_snoc str ds d h : datalist h = ds ++ [d] →
  append_last str h = Ok (h <| datalist := ds ++ [d ++ str] |>).
Proof. intros Hd. unfold append_last. rewrite Hd, reverse_snoc, reverse_involutive. done. Qed.

Lemma sub_glue buf a b : sub 0 a buf ++ sub a b buf = sub 0 (a + b) buf.
Proof. unfold sub. rewrite !drop_0. apply take_take_drop. Qed.

(** The layout of a reply at the start of the buffer: a status line, a
    [Content-Length] at [k] whose number is at [q], the end of the header at [e]. *)
Record layout (buf : bytes) (k q e : nat) (n : Z) : Prop := MkLayout {
  lo_status : case_at buf 0 (bs "HTTP/1.") = Ok true;
  lo_code : is_ok (atoi_at buf 8) = true;
  lo_order : (8 ≤ k < q ∧ q < e)%nat;
  lo_pre i : (8 ≤ i < k)%nat → inert buf i;
  lo_name : case_at buf k (bs "Content-Length:") = Ok true;
  lo_space : skip_one_space buf (k + 15) = Ok q;
  lo_value : atoi_at buf q = Ok n;
  lo_mid i : (q < i < e)%nat → inert buf i;
  lo_cr : byte_at buf e = Ok CR;
  lo_end : case_at buf (S e) [LF; CR; LF] = Ok true;
}.

(** Between replies: nothing of a header has been seen. *)
Definition idle (h : http) : Prop :=
  header h = 1 ∧ keepalive h = 0 ∧ chunked h = 0 ∧ content_length h = 0.

(** The header is split off and the length remembered. *)
Lemma parse_header_layout buf k q e n h msglen : layout buf k q e n → idle h → 0 < n →
  (e < msglen)%nat → (e + 4 ≤ length buf)%nat →
  ∃ code, parse_header buf 0 msglen h =
    Ok (Some (e + 4)%nat, MkHttp 1 0 0 0 n n code (datalist h ++ [sub 0 (e + 4) buf])).
Proof.
  intros L (Hh & Hk & Hch & Hcl) Hn He Hb. destruct L. unfold parse_header. rewrite lo_status0. rb.
  change (0 + 8)%nat with 8%nat. destruct (atoi_at buf 8) as [code|]; [|done]. exists code. rb.
  rewrite (scan_skip _ _ 8 k) by (lia || done).
  destruct (S msglen - (k - 8))%nat as [|f] eqn:Hf; [lia|]. cbn [scan].
  destruct (Nat.ltb_spec k (8 + msglen)); [|lia].
  rewrite (scan_content_length buf k q n) by done. rb.
  rewrite (scan_skip _ _ (S q) e) by (lia || (intros; apply lo_mid0; lia)).
  destruct (f - (e - S q))%nat as [|f'] eqn:Hf'; [lia|]. cbn [scan].
  destruct (Nat.ltb_spec e (8 + msglen)); [|lia]. rewrite scan_end by done. rb. unfold default, id.
  replace (Z.of_nat (e + 4) - Z.of_nat 0) with (Z.of_nat (e + 4)) by lia.
  rewrite assign_sub by lia. rb.
  clear - Hh Hk Hch Hcl Hn. destruct h as [mf0 hd0 ka0 ch0 cl0 nl0 rc0 dl0].
  cbn [header keepalive chunked content_length] in Hh, Hk, Hch, Hcl. subst. rsimpl.
  destruct (Z.ltb_spec 0 n); [|lia]. reflexivity.
Qed.

(** What the parser does with a message it sees nothing in. *)
Lemma HandleRecvHttp_inert fuel buf msg n h : header h = 1 → mf h = 0 →
  case_at buf msg (bs "HTTP/1.") = Ok false → (∀ i, (msg ≤ i < msg + n)%nat → inert buf i) →
  (msg + n ≤ length buf)%nat →
  HandleRecvHttp (S fuel) buf msg n h = Ok (h <| datalist := datalist h ++ [sub msg n buf] |> <| mf := 1 |>, 0%nat).
Proof.
  intros Hh Hm Hs Hi Hl. cbn [HandleRecvHttp]. rewrite Hh. change (1 =? 0) with false.
  unfold parse_header. rewrite Hs. rb. rewrite scan_inert by (done || lia). rb. unfold default, id.
  replace (Z.of_nat (msg + n) - Z.of_nat msg) with (Z.of_nat n) by lia. rewrite assign_sub by lia. rb.
  rewrite Hm. change (0 =? 0) with true. rb.
  destruct h as [mf0 hd0 ka0 ch0 cl0 nl0 rc0 dl0]. unfold set in *. cbn in *. subst. done.
Qed.

(** A reply with a Content-Length that arrives in one piece is delivered whole, head and
    body, and the user is woken once; because http_reset clears need_length before it is
    used, the body is then parsed once more and appended as a message of its own. *)
(** A reply with a Content-Length that arrives in one piece is delivered whole, head and
    body, and the user is woken once; because http_reset clears need_length before it is
    used, the body is then parsed once more and appended as a message of its own. *)
(** A reply with a Content-Length that arrives in one piece is delivered whole, head and
    body, and the user is woken once; because http_reset clears need_length before it is
    used, the body is then parsed once more and appended as a message of its own. *)
(** A reply with a Content-Length that arrives in one piece is delivered whole, head and
    body, and the user is woken once; because http_reset clears need_length before it is
    used, the body is then parsed once more and appended as a message of its own. *)
(** A reply with a Content-Length that arrives in one piece is delivered whole, head and
    body, and the user is woken once; because http_reset clears need_length before it is
    used, the body is then parsed once more and appended as a message of its own. *)
(** A reply with a Content-Length that arrives in one piece is delivered whole, head and
    body, and the user is woken once; because http_reset clears need_length before it is
    used, the body is then parsed once more and appended as a message of its own. *)
(** A reply with a Content-Length that arrives in one piece is delivered whole, head and
    body, and the user is woken once; because http_reset clears need_length before it is
    used, the body is then parsed once more and appended as a message of its own. *)
Theorem reply_assembled buf k q e n h : layout buf k q e (Z.of_nat n) → idle h → (0 < n)%nat →
  (e + 4 + n ≤ length buf)%nat →
  case_at buf (e + 4) (bs "HTTP/1.") = Ok false → (∀ i, (e + 4 ≤ i < e + 4 + n)%nat → inert buf i) →
  HandleRecvHttp_top buf (e + 4 + n) h =
    Ok (MkHttp 1 1 0 0 0 0 0 (datalist h ++ [sub 0 (e + 4 + n) buf; sub (e + 4) n buf]), 1%nat).
Proof.
  intros L Hidle Hn Hl Hs Hi. unfold HandleRecvHttp_top, http_fuel.
  destruct (parse_header_layout buf k q e (Z.of_nat n) h (e + 4 + n)) as (code & Hp); try (done || lia).
  remember (S (e + 4 + n)) as f eqn:Ef. cbn [HandleRecvHttp]. destruct Hidle as (Hh & _). rewrite Hh. change (1 =? 0) with false. cbv iota.
  rewrite Hp. rb. cbn [header negb Z.eqb datalist].
  destruct (datalist h ++ [sub 0 (e + 4) buf]) as [|d0 ds0] eqn:Hd; [by destruct (datalist h)|].
  cbn [keepalive chunked content_length need_length Z.ltb Z.compare orb default]. unfold default, id.
  destruct (Z.ltb_spec 0 (Z.of_nat n)); [|lia].
  replace (Z.of_nat (0 + (e + 4 + n)) - Z.of_nat (e + 4)) with (Z.of_nat n) by lia. rewrite Z.leb_refl.
  rewrite assign_sub by lia. rb.
  rewrite (append_last_snoc _ (datalist h) (sub 0 (e + 4) buf)) by (cbn; congruence).
  rb. cbn [http_reset need_length datalist].
  destruct (Z.ltb_spec 0 (Z.of_nat n - 0)); [|lia]. rewrite Z.add_0_r, Nat2Z.id, Nat.add_0_r.
  subst f. rewrite (HandleRecvHttp_inert (e + 4 + n)) by done. rb. unfold set. cbn.
  rewrite <- app_assoc. rewrite sub_glue. done.
Qed.

(** The reply [HTTP/1.1 200 OK] with a body of five bytes. *)
Lemma reply1_layout : layout (fill reply1) 17 33 34 5.
Proof.
  split; try reflexivity.
  - lia.
  - intros i Hi h. do 17 (destruct i as [|i]; [try lia; reflexivity|]). lia.
  - intros i Hi. lia.
Qed.

(** A concrete instance. *)
(** A concrete instance. *)
(** A concrete instance. *)
(** A concrete instance. *)
(** A concrete instance. *)
(** A concrete instance. *)
(** A concrete instance. *)
Lemma reply_assembled_witness :
  HandleRecvHttp_top (fill reply1) 43 http_init =
    Ok (MkHttp 1 1 0 0 0 0 0 [sub 0 43 (fill reply1); sub 38 5 (fill reply1)], 1%nat).
Proof.
  apply (reply_assembled (fill reply1) 17 33 34 5 http_init).
  - exact reply1_layout.
  - split_and!; reflexivity.
  - lia.
  - vm_compute. lia.
  - reflexivity.
  - intros i Hi h. do 43 (destruct i as [|i]; [try (cbn in Hi; lia); reflexivity|]). cbn in Hi. lia.
Defined.

(** *** A body that comes in two segments *)

(** The first segment has [j] of the [n] bytes of the body. *)
Lemma body_incomplete buf k q e n j h : layout buf k q e (Z.of_nat n) → idle h → (j < n)%nat →
  Z.of_nat n < 2 ^ 31 → (e + 4 + j ≤ length buf)%nat →
  ∃ code, HandleRecvHttp_top buf (e + 4 + j) h =
    Ok (MkHttp 1 0 0 0 (Z.of_nat n) (Z.of_nat n - Z.of_nat j) code
          (datalist h ++ [sub 0 (e + 4 + j) buf]), 0%nat).
Proof.
  intros L Hidle Hj Hn Hl. unfold HandleRecvHttp_top, http_fuel.
  destruct (parse_header_layout buf k q e (Z.of_nat n) h (e + 4 + j)) as (code & Hp); try (done || lia).
  exists code. remember (S (e + 4 + j)) as f eqn:Ef. cbn [HandleRecvHttp].
  destruct Hidle as (Hh & _). rewrite Hh. change (1 =? 0) with false. cbv iota.
  rewrite Hp. rb. cbn [header negb Z.eqb datalist].
  destruct (datalist h ++ [sub 0 (e + 4) buf]) as [|d0 ds0] eqn:Hd; [by destruct (datalist h)|].
  cbn [keepalive chunked content_length need_length Z.ltb Z.compare orb]. unfold default, id.
  destruct (Z.ltb_spec 0 (Z.of_nat n)); [|lia].
  replace (Z.of_nat (0 + (e + 4 + j)) - Z.of_nat (e + 4)) with (Z.of_nat j) by lia.
  destruct (Z.leb_spec (Z.of_nat n) (Z.of_nat j)); [lia|]. rewrite assign_sub by lia. rb.
  rewrite (append_last_snoc _ (datalist h) (sub 0 (e + 4) buf)) by (cbn; congruence). rb.
  unfold set. cbn. rewrite sub_glue, swrap_id by range_lia. done.
Qed.

(** The last segment: [content_length] bytes of the buffer are appended, however
    few are missing. *)
Lemma body_completed buf msglen h ds d n : header h = 0 → 0 ≤ keepalive h → 0 ≤ chunked h →
  content_length h = Z.of_nat n → (0 < n ≤ length buf)%nat → need_length h ≤ Z.of_nat msglen →
  datalist h = ds ++ [d] → (0 < msglen ≤ length buf)%nat →
  case_at buf 0 (bs "HTTP/1.") = Ok false → (∀ i, (i < msglen)%nat → inert buf i) →
  HandleRecvHttp_top buf msglen h =
    Ok (MkHttp 1 1 0 0 0 0 0 (ds ++ [d ++ sub 0 n buf; sub 0 msglen buf]), 1%nat).
Proof.
  intros Hh Hk Hc Hcl Hn Hnl Hd Hm Hs Hi. unfold HandleRecvHttp_top, http_fuel.
  remember (S msglen) as f eqn:Ef. cbn [HandleRecvHttp]. rewrite Hh. change (0 =? 0) with true. rb.
  rewrite Hh. cbn [negb Z.eqb]. destruct (datalist h) as [|d0 ds0] eqn:Hd0; [by destruct ds|].
  destruct (Z.ltb_spec (keepalive h) 0); [lia|]. destruct (Z.ltb_spec (chunked h) 0); [lia|]. cbn [orb].
  rewrite Hcl. destruct (Z.ltb_spec 0 (Z.of_nat n)); [|lia]. unfold default.
  replace (Z.of_nat (0 + msglen) - Z.of_nat 0) with (Z.of_nat msglen) by lia.
  destruct (Z.leb_spec (need_length h) (Z.of_nat msglen)); [|lia]. rewrite assign_sub by lia. rb.
  rewrite (append_last_snoc _ ds d) by congruence. rb. cbn [http_reset need_length datalist].
  destruct (Z.ltb_spec 0 (Z.of_nat msglen - 0)); [|lia]. rewrite Z.add_0_r, Nat2Z.id. cbn [Nat.add Z.to_nat].
  subst f. rewrite HandleRecvHttp_inert by (done || lia || (intros; apply Hi; lia)). rb. unfold set. cbn.
  rewrite <- app_assoc. done.
Qed.

(** When the body of a reply arrives in two pieces the reply delivered is too long:
    Content-Length bytes are appended for the second piece instead of the bytes that
    were missing. *)
(** When the body of a reply arrives in two pieces the reply delivered is too long:
    Content-Length bytes are appended for the second piece instead of the bytes that
    were missing. *)
(** When the body of a reply arrives in two pieces the reply delivered is too long:
    Content-Length bytes are appended for the second piece instead of the bytes that
    were missing. *)
(** When the body of a reply arrives in two pieces the reply delivered is too long:
    Content-Length bytes are appended for the second piece instead of the bytes that
    were missing. *)
(** When the body of a reply arrives in two pieces the reply delivered is too long:
    Content-Length bytes are appended for the second piece instead of the bytes that
    were missing. *)
(** When the body of a reply arrives in two pieces the reply delivered is too long:
    Content-Length bytes are appended for the second piece instead of the bytes that
    were missing. *)
(** When the body of a reply arrives in two pieces the reply delivered is too long:
    Content-Length bytes are appended for the second piece instead of the bytes that
    were missing. *)
(** When the body of a reply arrives in two pieces the reply delivered is too long:
    Content-Length bytes are appended for the second piece instead of the bytes that
    were missing. *)
(** When the body of a reply arrives in two pieces the reply delivered is too long:
    Content-Length bytes are appended for the second piece instead of the bytes that
    were missing. *)
(** When the body of a reply arrives in two pieces the reply delivered is too long:
    Content-Length bytes are appended for the second piece instead of the bytes that
    were missing. *)
(** When the body of a reply arrives in two pieces the reply delivered is too long:
    Content-Length bytes are appended for the second piece instead of the bytes that
    were missing. *)
(** When the body of a reply arrives in two pieces the reply delivered is too long:
    Content-Length bytes are appended for the second piece instead of the bytes that
    were missing. *)
(** When the body of a reply arrives in two pieces the reply delivered is too long:
    Content-Length bytes are appended for the second piece instead of the bytes that
    were missing. *)
(** When the body of a reply arrives in two pieces the reply delivered is too long:
    Content-Length bytes are appended for the second piece instead of the bytes that
    were missing. *)
(** When the body of a reply arrives in two pieces the reply delivered is too long:
    Content-Length bytes are appended for the second piece instead of the bytes that
    were missing. *)
Theorem split_body_overlong buf1 buf2 k q e n j h :
  layout buf1 k q e (Z.of_nat n) → idle h → (j < n)%nat → Z.of_nat n < 2 ^ 31 →
  (e + 4 + j ≤ length buf1)%nat → (n ≤ length buf2)%nat →
  case_at buf2 0 (bs "HTTP/1.") = Ok false → (∀ i, (i < n - j)%nat → inert buf2 i) →
  ∃ h1 h2, HandleRecvHttp_top buf1 (e + 4 + j) h = Ok (h1, 0%nat) ∧
    HandleRecvHttp_top buf2 (n - j) h1 = Ok (h2, 1%nat) ∧
    datalist h2 = datalist h ++ [sub 0 (e + 4 + j) buf1 ++ sub 0 n buf2; sub 0 (n - j) buf2].
Proof.
  intros L Hidle Hj Hn Hl1 Hl2 Hs Hi.
  destruct (body_incomplete buf1 k q e n j h) as (code & H1); try done.
  eexists _, _. split; [exact H1|]. split.
  - apply (body_completed buf2 (n - j) _ (datalist h) (sub 0 (e + 4 + j) buf1) n); try done; cbn; lia.
  - done.
Qed.

(** A concrete instance. *)
(** A concrete instance. *)
(** A concrete instance. *)
(** A concrete instance. *)
(** A concrete instance. *)
(** A concrete instance. *)
(** A concrete instance. *)
(** A concrete instance. *)
(** A concrete instance. *)
(** A concrete instance. *)
(** A concrete instance. *)
(** A concrete instance. *)
(** A concrete instance. *)
(** A concrete instance. *)
(** A concrete instance. *)
Lemma split_body_witness :
  ∃ h1 h2, HandleRecvHttp_top (fill reply1) 40 http_init = Ok (h1, 0%nat) ∧
    HandleRecvHttp_top (fill (bs "llo")) 3 h1 = Ok (h2, 1%nat) ∧
    datalist h2 = [sub 0 40 (fill reply1) ++ bs "llo" ++ [0; 0]; bs "llo"].
Proof.
  apply (split_body_overlong (fill reply1) (fill (bs "llo")) 17 33 34 5 2 http_init).
  - exact reply1_layout.
  - split_and!; reflexivity.
  - lia.
  - reflexivity.
  - vm_compute. lia.
  - vm_compute. lia.
  - reflexivity.
  - intros i Hi h. do 3 (destruct i as [|i]; [reflexivity|]). cbn in Hi. lia.
Defined.

(** *** Chunked replies *)

(** The name is compared without its colon, so what follows it is never
    [chunked]: the reply is marked as one whose body is dropped. *)
Theorem chunked_not_recognised buf p h : case_at buf p (bs "Transfer-Encoding:") = Ok true →
  byte_at buf (p + 17) = Ok COLON →
  scan_step buf p h = Ok ((p + 17)%nat, h <| chunked := -1 |>, false).
Proof.
  intros Hc Hcol. destruct (case_at_cons buf p 84 (bs "ransfer-Encoding:") Hc) as (b & Hb & Ht & Hr).
  assert (∀ l lit q, case_at buf q (lit ++ l) = Ok true → case_at buf q lit = Ok true) as Hpre.
  { intros l lit. induction lit as [|c lit IH]; intros q Hq; [done|].
    destruct (case_at_cons buf q c (lit ++ l) Hq) as (b' & Hb' & Ht' & Hr').
    cbn [case_at]. rewrite Hb'. rb. rewrite Ht', Z.eqb_refl. auto. }
  unfold scan_step. rewrite Hb. rb.
  assert ((b =? 67) || (b =? 99) = false ∧ (b =? 84) || (b =? 116) = true) as [-> ->].
  { change (tolower 84) with 116 in Ht. unfold tolower in Ht.
    destruct (Z.leb_spec 65 b), (Z.leb_spec b 90); cbn [andb] in Ht; try lia.
    all: first [assert (b = 84) as -> by lia | assert (b = 116) as -> by lia]; done. }
  rewrite (Hpre [COLON] (bs "ransfer-Encoding")) by exact Hr. rb. unfold skip_one_space. rewrite Hcol. rb.
  change (COLON =? 32) with false. cbv iota. change (bs "chunked") with (99 :: bs "hunked"). cbn [case_at].
  rewrite Hcol. done.
Qed.

End SdkHttp.
