(* ===== verification/SdkState.v ===== *)
(** * The state of the SDK (src/sdk/sdk/ConnectMgr.h, Recycler.h, Recycler.cpp)

    The connections in a heap of their own, the connection table, the blocks of the
    recycler in its two lists, the settings, the threads woken, the operating
    system.  A [std::list] is the list of its nodes; an iterator names a node, and
    using one whose node was erased is a fault. *)

From S2P Require Import Prelude Wire Frame Os SdkEnv SdkHttp.
From stdpp Require Import base gmap list strings.
From Stdlib Require Import ZArith Lia.
Import Wire Os SdkEnv SdkHttp.

Open Scope Z_scope.

Module SdkState.

(** ** Constants *)

Definition t_tunnel : Z := 0.
Definition t_proxy : Z := 4.

Definition sta_offline : Z := 0.
Definition sta_online : Z := 1.
Definition sta_hangup : Z := 3.
Definition sta_disconnected : Z := 4.

Definition YM_EV_RD : Z := 1.
Definition YM_EV_WR : Z := 2.
Definition YM_EV_EX : Z := 4.
Definition YM_EV_ONCE : Z := 8.

#[export] Existing Instance Frame.trans_stat_eq_dec.

(** ** Records *)

(** A position in [expire_list]. *)
Inductive iter := ItSingular | ItEnd | ItNode (n : Z).

#[export] Instance iter_eq_dec : EqDecision iter.
Proof. solve_decision. Defined.

Record Connect := MkConnect {
  sock_fd : Z;               (* U64 *)
  status : Z;                (* U8 *)
  type : Z;                  (* U8 *)
  verified : Z;              (* U8 *)
  http_version : Z;          (* U8 *)
  peer : option Z;
  http_transmit_len : Z;     (* U64 *)
  aval_traffic : Z;          (* U64 *)
  uid : Z;                   (* U64 *)
  mobile : Z;                (* U64 *)
  auth : bytes;              (* U8[32] *)
  login_code : Z;            (* int *)
  cstate : Frame.Trans_stat;
  h_len : Z;                 (* h.len in host order *)
  stillneedtoread : Z;       (* U32 *)
  host : bytes;
  web_port : Z;              (* U16 *)
  r_offset : Z;              (* U32 *)
  r_data_len : Z;            (* U32 *)
  r_buff : bytes;            (* U8[4096] *)
  reply : http;
  crb_it : iter;
}.

#[export] Instance eta_connect : Eta Connect := fun x =>
  MkConnect (sock_fd x) (status x) (type x) (verified x) (http_version x) (peer x)
    (http_transmit_len x) (aval_traffic x) (uid x) (mobile x) (auth x) (login_code x) (cstate x)
    (h_len x) (stillneedtoread x) (host x) (web_port x) (r_offset x) (r_data_len x) (r_buff x)
    (reply x) (crb_it x).

(** [new Connect]: the array [auth] is not initialised. *)
Definition Connect_new (auth0 : bytes) : Connect :=
  MkConnect 0 0 0 0 0 None 0 0 0 0 auth0 0 Frame.s_header 0 0 [] 80 0 0 (replicate R_BUFF 0)
    http_init ItSingular.

(** [Connect::Reset] *)
Definition Connect_Reset (c : Connect) : Connect :=
  c <| stillneedtoread := 0 |> <| cstate := Frame.s_header |> <| status := sta_offline |>
    <| type := 0 |> <| uid := 0 |> <| sock_fd := u64 (-1) |>.

(** [struct ConnRecycleBlock] *)
Record crb := MkCrb {
  b_tv : timeval;
  b_fd : Z;                  (* U64 *)
  b_traffic : Z;             (* U64 *)
  b_conn : option Z;
}.

#[export] Instance eta_crb : Eta crb := fun x => MkCrb (b_tv x) (b_fd x) (b_traffic x) (b_conn x).

Definition crb_Reset : crb := MkCrb (Tv 0 0) 0 0 None.

Record sdk := MkSdk {
  conns : gmap Z Connect;
  next_conn : Z;
  auth0 : bytes;                    (* what the array auth of a new connection holds *)
  stack0 : bytes;                   (* what the array login_str[512] holds on entry *)
  Reactor_FD : Z;
  ConnCount : Z;
  accept_begin_time : Z;            (* long long, microseconds *)
  time_window : Z;
  ConnMap : gmap Z (option Z);      (* U64 to Connect*, null included *)
  expire_list : list (Z * Z);       (* nodes with the block each holds *)
  recycle_list : list Z;
  blocks : gmap Z crb;
  next_block : Z;
  next_node : Z;
  glob : env;
  woken : list Z;                   (* connections on which notify_one was called *)
  sys : os;
}.

#[export] Instance eta_sdk : Eta sdk := fun x =>
  MkSdk (conns x) (next_conn x) (auth0 x) (stack0 x) (Reactor_FD x) (ConnCount x)
    (accept_begin_time x) (time_window x) (ConnMap x) (expire_list x) (recycle_list x) (blocks x)
    (next_block x) (next_node x) (glob x) (woken x) (sys x).

#[export] Program Instance sdk_os : HasOs sdk := {|
  the_os := sys;
  with_os f s := s <| sys ::= f |>;
|}.
Next Obligation. done. Qed.

Definition sdk_init (a0 st0 : bytes) (e : env) (o : os) : sdk :=
  MkSdk ∅ 1 a0 st0 (-1) 0 0 0 ∅ [] [] ∅ 1 1 e [] o.

Abbreviation K := (M sdk).

(** ** The heap of connections *)

Definition conn (p : Z) : K Connect := fun s =>
  match conns s !! p with Some c => Ok (c, s) | None => Bad UseAfterFree end.

Definition set_conn (p : Z) (f : Connect → Connect) : K unit := fun s =>
  match conns s !! p with
  | Some c => Ok (tt, s <| conns := <[p := f c]> (conns s) |>)
  | None => Bad UseAfterFree
  end.

Definition new_conn : K Z := fun s =>
  let p := next_conn s in
  Ok (p, s <| conns := <[p := Connect_new (auth0 s)]> (conns s) |> <| next_conn := p + 1 |>).

Definition free_conn (p : Z) : K unit := fun s =>
  match conns s !! p with
  | Some _ => Ok (tt, s <| conns := delete p (conns s) |>)
  | None => Bad UseAfterFree
  end.

(** [WakeupUser] *)
Definition WakeupUser (p : Z) : K unit :=
  _ ← conn p;
  modify (fun s => s <| woken := woken s ++ [p] |>).

(** ** The recycler *)

(** The node after node [n]. *)
Fixpoint after (n : Z) (l : list (Z * Z)) : iter :=
  match l with
  | [] => ItEnd
  | (m, _) :: l' =>
    if m =? n then match l' with [] => ItEnd | (m', _) :: _ => ItNode m' end else after n l'
  end.

Definition begin_it (l : list (Z * Z)) : iter :=
  match l with [] => ItEnd | (m, _) :: _ => ItNode m end.

(** The block that node [n] holds. *)
Fixpoint block_of (n : Z) (l : list (Z * Z)) : option Z :=
  match l with
  | [] => None
  | (m, b) :: l' => if m =? n then Some b else block_of n l'
  end.

(** [*it]; the end of the list holds no block. *)
Definition deref_it (it : iter) : K Z := fun s =>
  match it with
  | ItSingular => Bad NullDeref
  | ItEnd => Bad OutOfBounds
  | ItNode n => match block_of n (expire_list s) with Some b => Ok (b, s) | None => Bad UseAfterFree end
  end.

(** [expire_list.erase(it)]: the iterator after the erased node. *)
Definition erase_it (it : iter) : K iter := fun s =>
  match it with
  | ItSingular => Bad NullDeref
  | ItEnd => Bad OutOfBounds
  | ItNode n =>
    match block_of n (expire_list s) with
    | Some _ => Ok (after n (expire_list s),
                    s <| expire_list := filter (fun x => x.1 ≠ n) (expire_list s) |>)
    | None => Bad UseAfterFree
    end
  end.

(** [++it] *)
Definition next_it (it : iter) : K iter := fun s =>
  match it with
  | ItSingular => Bad NullDeref
  | ItEnd => Bad OutOfBounds
  | ItNode n =>
    match block_of n (expire_list s) with
    | Some _ => Ok (after n (expire_list s), s)
    | None => Bad UseAfterFree
    end
  end.

Definition block (b : Z) : K crb := fun s =>
  match blocks s !! b with Some x => Ok (x, s) | None => Bad UseAfterFree end.

Definition set_block (b : Z) (f : crb → crb) : K unit := fun s =>
  match blocks s !! b with
  | Some x => Ok (tt, s <| blocks := <[b := f x]> (blocks s) |>)
  | None => Bad UseAfterFree
  end.

(** [CRBNew]: the node that is inserted at the end. *)
Definition CRBNew : K Z := fun s =>
  let '(b, s) :=
    match recycle_list s with
    | b :: l => (b, s <| recycle_list := l |>)
    | [] => (next_block s, s <| blocks := <[next_block s := crb_Reset]> (blocks s) |>
                             <| next_block := next_block s + 1 |>)
    end in
  let n := next_node s in
  Ok (n, s <| expire_list := expire_list s ++ [(n, b)] |> <| next_node := n + 1 |>).

(** [CRBDelay(it)]: the iterator that is left in the argument. *)
Definition CRBDelay (it : iter) : K iter :=
  to_remove ← deref_it it;
  n ← CRBNew;
  b ← deref_it (ItNode n);
  old ← block to_remove;
  now ← gettimeofday;
  set_block b (fun x => x <| b_conn := b_conn old |> <| b_fd := b_fd old |>
                          <| b_traffic := b_traffic old |> <| b_tv := now |>);;
  modify (fun s => s <| recycle_list := recycle_list s ++ [to_remove] |>);;
  set_block to_remove (fun x => x <| b_tv := now |>);;
  it ← erase_it it;
  x ← block to_remove;
  p ← nonnull (b_conn x);
  set_conn p (fun c => c <| crb_it := it |>);;
  mret it.

(** [CRBDelete(it)] *)
Definition CRBDelete (it : iter) : K unit :=
  if decide (it = ItEnd) then mret tt else
  to_remove ← deref_it it;
  x ← block to_remove;
  match b_conn x with
  | None => mret tt
  | Some p =>
    c ← conn p;
    if decide (crb_it c = ItEnd) then mret tt else set_conn p (fun c => c <| crb_it := ItEnd |>)
  end;;
  modify (fun s => s <| recycle_list := recycle_list s ++ [to_remove] |>);;
  set_block to_remove (fun _ => crb_Reset);;
  _ ← erase_it it;
  mret tt.

(** ** Traffic counters *)

(** [g_rpt_traff_cost += x] under the lock. *)
Definition add_cost (x : Z) : K unit :=
  modify (fun s => s <| glob ::= fun e => e <| g_rpt_traff_cost := u64 (g_rpt_traff_cost e + x) |> |>).

Definition add_transmit (p x : Z) : K unit :=
  set_conn p (fun c => c <| http_transmit_len := u64 (http_transmit_len c + x) |>).

End SdkState.
