(* ===== verification/SdkNet.v ===== *)
(** * The SDK's connections and event loop (src/sdk/sdk/ConnectMgr.cpp,
    Recycler.cpp, SdkMainloop.cpp)

    A browser connects to the SDK's port (a [t_proxy] connection); its first request
    opens a [t_tunnel] connection to the server, the two are each other's [peer], the
    SDK logs in, and from then on the bytes are relayed both ways.  Connections that
    the application opens itself ([YMELoginTms]) have no peer.

    [write] on a socket is [Os.send]: the signal of a broken connection is taken as
    ignored by the application.  The Linux branches of the sources are modelled. *)

From S2P Require Import Prelude Wire Frame Os Dns SdkEnv SdkHttp SdkState.
From stdpp Require Import base gmap list strings.
From Stdlib Require Import ZArith Lia.
Import Wire Os SdkEnv SdkHttp SdkState.

Open Scope Z_scope.

Module SdkNet.

Definition HDR : Z := Frame.HDR.
Definition RBUF : Z := 4096.

Section Sdk.

(** The build flag [ACCURATE_TRAFFIC]. *)
Variable accurate : bool.

(** ** epoll *)

Definition has (event flag : Z) : bool := negb (Z.land event flag =? 0).

(** The events of the YM flags in [AddEvent] and [RemoveEvent]. *)
Definition ym_events (event : Z) : Z :=
  Z.lor (if has event YM_EV_RD then EPOLLIN else 0)
    (if has event YM_EV_WR || has event YM_EV_EX then EPOLLOUT else 0).

Definition ctl (op fd events : Z) : K Z :=
  ep ← gets Reactor_FD;
  if (ep =? 0) || (fd =? 0) then mret (-1) else
  r ← epoll_ctl op fd events;
  if r =? -1 then mret (-1) else mret 0.

Definition AddREvent (fd : Z) : K Z := ctl EPOLL_CTL_ADD fd (Z.lor EPOLLIN EPOLLET).

Definition AddEvent (fd event : Z) : K Z :=
  ctl EPOLL_CTL_ADD fd (Z.lor (ym_events event) (if has event YM_EV_ONCE then EPOLLET else 0)).

Definition RemoveEvent (fd rmevents : Z) : K Z := ctl EPOLL_CTL_DEL fd (ym_events rmevents).

(** The tests are [event | YM_EV_...], which are never zero. *)
Definition ModifyEvent (fd event : Z) : K Z :=
  let on flag bits := if Z.lor event flag =? 0 then 0 else bits in
  ctl EPOLL_CTL_MOD fd
    (Z.lor (Z.lor (on YM_EV_RD EPOLLIN) (on YM_EV_WR EPOLLOUT))
           (Z.lor (on YM_EV_EX EPOLLOUT) (on YM_EV_ONCE EPOLLET))).

(** ** Sending *)

Definition SendMsg (p : Z) (msg : bytes) : K Z :=
  c ← conn p;
  sendlen ← send (sock_fd c) msg;
  add_transmit p sendlen;;
  add_cost sendlen;;
  mret 0.

Definition SendTmsMsg (p : Z) (msg : bytes) : K Z :=
  c ← conn p;
  tmsMsg ← lift (Frame.SendTmsMsg_bytes msg);
  sendlen ← send (sock_fd c) tmsMsg;
  add_transmit p (Traffic_Est accurate sendlen);;
  add_cost (Traffic_Est accurate sendlen);;
  mret sendlen.

(** ** Telling the user *)

Definition fail_page (failcode : Z) : bytes :=
  let nl := [CR; LF] in
  bs "HTTP/1.1 200 OK" ++ nl ++ bs "Content-Type: html/text;charset=utf-8" ++ nl
  ++ bs "Connection: close" ++ nl ++ bs "Location: localhost sdk" ++ nl ++ nl
  ++ bs "<html>" ++ nl ++ bs "<html>" ++ nl
  ++ bs "<head>" ++ YMEReturnCode failcode ++ bs "</head>" ++ nl
  ++ bs "<body>" ++ YMEReturnCode failcode ++ bs "</body>" ++ nl
  ++ bs "</html>" ++ nl ++ nl.

Definition AckUserFail (p failcode : Z) : K unit :=
  c ← conn p;
  match peer c with
  | None => WakeupUser p
  | Some q =>
    d ← conn q;
    if type d =? t_proxy then
      _ ← send (sock_fd d) (fail_page failcode);
      shutdown (sock_fd d)
    else WakeupUser p
  end.

(** ** Messages of the server *)

Definition SwitchConnModeForw (p : Z) : K unit :=
  set_conn p (fun c => c <| cstate := Frame.s_forward |> <| stillneedtoread := RBUF |> <| r_offset := 0 |>
                         <| reply ::= http_reset |>
                         <| http_transmit_len := u64 (http_transmit_len c + Traffic_TCP_hss accurate) |>).

Definition connect_reply_OK : bytes := bs "HTTP/1.1 200 Connection established" ++ [CR; LF; CR; LF].

(** The [ReplyType] of a response code, where the code sets one. *)
Definition login_failure (respcode : Z) : option Z :=
  if respcode =? USER_NOT_EXIST then Some RT_UserNotExist
  else if respcode =? INCORRECT_TOKEN then Some RT_IncorrectToken
  else if respcode =? NO_BALANCE then Some RT_NoBalance
  else if respcode =? HOST_NOT_EXIST then Some RT_HostNotExist
  else if respcode =? FAIL then Some RT_Exception
  else None.

Definition send_begin_transmit (p forward_id : Z) : K unit :=
  _ ← SendTmsMsg p (penc (MkBeginTransmit BEGIN_TRANSMIT (u32 forward_id)));
  mret tt.

(** The browser's part of an accepted login. *)
Definition activate_proxy (p q : Z) : K unit :=
  c ← conn p;
  modify (fun s => s <| glob ::= fun e => e <| g_aval_traffic := aval_traffic c |> |>);;
  d ← conn q;
  (if http_version d =? 0 then
     if r_data_len d <=? Z.of_nat (length (r_buff d))
     then _ ← SendMsg p (take (Z.to_nat (r_data_len d)) (r_buff d)); mret tt
     else fail_with OutOfBounds
   else if http_version d =? 1 then _ ← SendMsg q connect_reply_OK; mret tt
   else mret tt);;
  set_conn q (fun d => d <| r_data_len := 0 |> <| r_offset := 0 |> <| stillneedtoread := RBUF |>);;
  d ← conn q;
  _ ← AddREvent (sock_fd d);
  mret tt.

Definition on_login_rsp (p : Z) (r : LoginRsp) : K unit :=
  (if negb (lr_avalable_traffic r =? 0)
   then set_conn p (fun c => c <| aval_traffic := u64 (lr_avalable_traffic r) |>)
   else mret tt);;
  if lr_rsp_code r =? 0 then
    set_conn p (fun c => c <| verified := 1 |>);;
    SwitchConnModeForw p;;
    send_begin_transmit p (lr_forward_id r);;
    c ← conn p;
    match peer c with
    | None => WakeupUser p
    | Some q => activate_proxy p q
    end
  else
    match login_failure (lr_rsp_code r) with
    | Some code => set_conn p (fun c => c <| login_code := code |>);; AckUserFail p code
    | None => mret tt
    end.

(** [c] is [SUCC] in the branch that compares it with the failure codes. *)
Definition on_connect_host_rsp (p : Z) (r : ConnectHostRsp) : K Z :=
  if negb (cr_rsp_code r =? SUCC) then mret (cr_rsp_code r) else
  SwitchConnModeForw p;;
  send_begin_transmit p (cr_forward_id r);;
  WakeupUser p;;
  mret 0.

(** [HandleRecvMsg]; the request written to [tmp_buff] before [BeginTransmit] is
    overwritten unsent. *)
Definition HandleRecvMsg (p : Z) (msg : bytes) (msglen : Z) : K Z :=
  if msglen <? 4 then mret (-1) else
  let msg_id := fld 0 2 msg in
  if msg_id =? LOGIN_RSP then on_login_rsp p (pdec msg);; mret 0
  else if msg_id =? CONNECT_HOST_RSP then on_connect_host_rsp p (pdec msg)
  else mret 0.

(** ** The tunnel's side *)

(** The forwarding of [length] bytes at the start of the buffer: [None] when the
    loop goes on, or the value returned. *)
Definition forward_down (p length_ : Z) : K (option Z) :=
  c ← conn p;
  match peer c with
  | None =>
    '(h, n) ← lift (HandleRecvHttp_top (r_buff c) (Z.to_nat length_) (reply c));
    set_conn p (fun c => c <| reply := h |>);;
    modify (fun s => s <| woken := woken s ++ replicate n p |>);;
    mret None
  | Some q =>
    d ← conn q;
    wrote_len ← send (sock_fd d) (take (Z.to_nat length_) (r_buff c));
    if negb (wrote_len =? length_) then
      let wrote_len := if wrote_len =? -1 then 0 else wrote_len in
      set_conn p (fun c => c <| r_data_len := u32 (length_ - wrote_len) |> <| r_offset := wrote_len |>
                             <| status := sta_hangup |>);;
      ret ← RemoveEvent (sock_fd c) YM_EV_RD;
      if negb (ret =? 0) then mret (Some (-1)) else mret (Some (-2))
    else mret None
  end.

(** [Connect::StreamRecvEvent]; the fuel counts reads. *)
Fixpoint stream_loop (fuel : nat) (p fd : Z) : K Z :=
  match fuel with
  | O => fail_with OutOfFuel
  | S fuel' =>
    c ← conn p;
    '(length_, got) ← read fd (stillneedtoread c);
    if length_ <=? 0 then mret length_
    else if negb (r_offset c + length_ <=? Z.of_nat (length (r_buff c))) then fail_with OutOfBounds
    else
      set_conn p (fun c => c <| r_buff := blit (Z.to_nat (r_offset c)) got (r_buff c) |>);;
      add_transmit p (Traffic_Est accurate length_);;
      add_cost (Traffic_Est accurate length_);;
      if bool_decide (cstate c ≠ Frame.s_forward) && (length_ <? stillneedtoread c) then
        set_conn p (fun c => c <| r_offset := u32 (r_offset c + length_) |>
                               <| stillneedtoread := u32 (stillneedtoread c - length_) |>);;
        mret (-2)
      else
        c ← conn p;
        match cstate c with
        | Frame.s_header =>
          let h := pdec (r_buff c) in
          if negb (delim0 h =? VALIDATER0) || negb (delim1 h =? VALIDATER1) then mret (-1)
          else
            let len := ntohs (hlen16 h) in
            set_conn p (fun c => c <| h_len := len |> <| cstate := Frame.s_body |> <| r_offset := 0 |>
                                   <| stillneedtoread := len |>);;
            stream_loop fuel' p fd
        | Frame.s_body =>
          set_conn p (fun c => c <| cstate := Frame.s_header |> <| stillneedtoread := HDR |>
                                 <| r_offset := 0 |>);;
          _ ← HandleRecvMsg p (r_buff c) (h_len c);
          stream_loop fuel' p fd
        | Frame.s_forward =>
          r ← forward_down p length_;
          match r with
          | None => stream_loop fuel' p fd
          | Some v => mret v
          end
        | Frame.s_wait => stream_loop fuel' p fd
        end
  end.

(** Every read but the last takes a byte from the socket. *)
Definition StreamRecvEvent (p : Z) : K Z := fun s =>
  match conns s !! p with
  | Some c => stream_loop (S (length (rx_of (sock_fd c) (sys s)).1)) p (sock_fd c) s
  | None => Bad UseAfterFree
  end.

(** ** Connecting to the server *)

(** [ConnectMgr::CreateConn] *)
Definition CreateConn (ip port : Z) : K (option Z) :=
  s ← socket;
  if s <=? 0 then mret None else
  ret ← connect s ip port;
  e ← errno;
  if (ret <? 0) && negb (e =? EINPROGRESS) then close s;; mret None else
  p ← new_conn;
  modify (fun st => st <| ConnMap := <[s := Some p]> (delete s (ConnMap st)) |>);;
  set_conn p (fun c => c <| sock_fd := s |> <| status := sta_online |> <| cstate := Frame.s_header |>
                         <| type := t_tunnel |> <| r_data_len := 0 |> <| stillneedtoread := HDR |>);;
  mret (Some p).

Definition get_setting (key : bytes) : K (option bytes) :=
  e ← gets glob;
  lift (YMEGet (Some key) e).

(** [Connect::HandleProxyProtocol] *)
Definition HandleProxyProtocol (p msglen : Z) : K Z :=
  c ← conn p;
  t ← lift (parse_proxy (r_buff c) (Z.to_nat msglen) (MkTarget (http_version c) (web_port c) (host c)));
  match t with
  | None => set_conn p (fun c => c <| http_version := 1 |>);; mret (-1)
  | Some t =>
    set_conn p (fun c => c <| http_version := t_version t |> <| web_port := t_port t |>
                           <| host := t_host t |>);;
    match t_host t with
    | [] => mret (-2)
    | _ =>
      tmsip ← get_setting (bs "Tmsip");
      tmsport ← get_setting (bs "Tmsport");
      match tmsip, tmsport with
      | Some ip, Some port =>
        pc ← CreateConn (Dns.Dns.inet_addr ip) (htons (u16 (i16 (atoll port))));
        match pc with
        | Some q =>
          set_conn p (fun c => c <| peer := Some q |>);;
          set_conn q (fun c => c <| peer := Some p |>);;
          mret 0
        | None => mret (-1)
        end
      | _, _ => mret (-1)
      end
    end
  end.

(** ** The browser's side *)

(** The login request in [login_str[512]]: each field stored over what the array
    holds, the token with its terminating NUL. *)
Definition login_msg (junk : bytes) (app mob : Z) (token : bytes) (port : Z) (hst : bytes) : result bytes :=
  let n := length hst in
  if (54 + n <=? 512)%nat then
    Ok (take (54 + n)
      (blit 54 hst
      (blit 52 (to_le 2 (u16 (Z.of_nat n)))
      (blit 50 (to_le 2 port)
      (blit 18 (cstr token ++ [0])
      (blit 10 (to_le 8 mob)
      (blit 2 (to_le 8 app)
      (blit 0 (to_le 2 LOGIN_REQ) junk))))))))
  else Bad OutOfBounds.

(** The branch of a tunnel that is not yet verified. *)
Definition send_login (p q length_ : Z) : K (option Z) :=
  set_conn p (fun c => c <| r_data_len := u32 (r_data_len c + length_) |>);;
  a ← get_setting (bs "Auth");
  u ← get_setting (bs "Appid");
  m ← get_setting (bs "Phone");
  match a, u, m with
  | Some a, Some u, Some m =>
    if 32 <=? strlen a then fail_with OutOfBounds else
    c ← conn p;
    set_conn q (fun d => d <| auth := blit 0 (cstr a ++ [0]) (auth d) |> <| uid := u64 (atoll u) |>
                           <| mobile := u64 (atoll m) |> <| host := host c |> <| web_port := web_port c |>);;
    d ← conn q;
    junk ← gets stack0;
    msg ← lift (login_msg junk (uid d) (mobile d) (auth d) (web_port d) (host d));
    _ ← SendTmsMsg q msg;
    _ ← AddEvent (sock_fd d) (Z.lor (Z.lor YM_EV_RD YM_EV_WR) YM_EV_ONCE);
    mret None
  | _, _, _ =>
    modify (fun s => s <| glob ::= fun e => (YMESet (bs "Error") (bs "incomplete auth/uid/mobile") e).2 |>);;
    mret (Some (-1))
  end.

(** Opening the tunnel on the first bytes of a browser. *)
Definition open_tunnel (p length_ : Z) : K (option Z) :=
  c ← conn p;
  match peer c with
  | Some _ => mret None
  | None =>
    ret ← HandleProxyProtocol p (r_offset c + length_);
    if ret =? -1 then AckUserFail p RT_ServerNotUp;; mret (Some ret)
    else if ret <? 0 then mret (Some ret)
    else mret None
  end.

(** [Connect::ProxyRecvEvent]; the fuel counts reads. *)
Fixpoint proxy_loop (fuel : nat) (p fd : Z) : K Z :=
  match fuel with
  | O => fail_with OutOfFuel
  | S fuel' =>
    c ← conn p;
    '(length_, got) ← read fd (stillneedtoread c);
    if length_ <=? 0 then mret length_
    else if negb (r_offset c + length_ <=? Z.of_nat (length (r_buff c))) then fail_with OutOfBounds
    else
      set_conn p (fun c => c <| r_buff := blit (Z.to_nat (r_offset c)) got (r_buff c) |>);;
      r ← open_tunnel p length_;
      match r with
      | Some v => mret v
      | None =>
        c ← conn p;
        match peer c with
        | None => proxy_loop fuel' p fd
        | Some q =>
          d ← conn q;
          if sock_fd d =? 0 then proxy_loop fuel' p fd
          else if negb (verified d =? 0) then
            _ ← send (sock_fd d) (sub (Z.to_nat (r_offset c)) (Z.to_nat length_) (r_buff c));
            proxy_loop fuel' p fd
          else
            r ← send_login p q length_;
            match r with
            | Some v => mret v
            | None => proxy_loop fuel' p fd
            end
        end
      end
  end.

Definition ProxyRecvEvent (p : Z) : K Z := fun s =>
  match conns s !! p with
  | Some c => proxy_loop (S (length (rx_of (sock_fd c) (sys s)).1)) p (sock_fd c) s
  | None => Bad UseAfterFree
  end.

(** ** ConnectMgr *)

(** [delete c]: [Connect::~Connect], then the memory is gone.  The descriptor is
    shut down, not closed. *)
Definition delete_conn (p : Z) : K unit :=
  c ← conn p;
  (if 0 <? sock_fd c
   then _ ← RemoveEvent (sock_fd c) YM_EV_RD; shutdown (sock_fd c)
   else mret tt);;
  (if type c =? t_proxy then CRBDelete (crb_it c) else mret tt);;
  free_conn p.

Definition erase_map (fd : Z) : K unit := modify (fun s => s <| ConnMap := delete fd (ConnMap s) |>).

(** [ConnectMgr::RemoveConnect] *)
Definition RemoveConnect (fd : Z) : K Z :=
  if fd <? 0 then mret (-1) else
  m ← gets ConnMap;
  match m !! fd with
  | Some o =>
    p ← nonnull o;
    c ← conn p;
    (if type c =? t_proxy
     then match peer c with Some q => _ ← conn q; mret tt | None => mret tt end
     else mret tt);;
    set_conn p (fun c => c <| status := sta_disconnected |>);;
    paired ← (if type c =? t_proxy then mret true
              else q ← nonnull (peer c); d ← conn q; mret (type d =? t_proxy));
    (if (paired : bool) then
       match peer c with
       | Some q => d ← conn q; erase_map (sock_fd d);; delete_conn q
       | None => mret tt
       end;;
       c ← conn p;
       erase_map (sock_fd c);;
       delete_conn p
     else WakeupUser p);;
    modify (fun s => s <| ConnCount := ConnCount s - 1 |>);;
    mret 0
  | None =>
    _ ← RemoveEvent fd YM_EV_RD;
    shutdown fd;;
    mret 0
  end.

(** [ConnectMgr::HandleAcceptEvent] *)
Definition MINUTE : Z := 1000000.

Definition now_us (tv : timeval) : Z := tv_sec tv * MINUTE + tv_usec tv.

(** Whether the new connection is let in. *)
Definition in_window : K bool :=
  w ← gets time_window;
  if w =? 0 then mret true else
  now ← gettimeofday;
  begin ← gets accept_begin_time;
  if MINUTE * 5 <? now_us now - begin then mret false
  else modify (fun s => s <| accept_begin_time := now_us now |>);; mret true.

(** The block of a new browser connection. *)
Definition enter_block (p fd : Z) : K unit :=
  n ← CRBNew;
  set_conn p (fun c => c <| crb_it := ItNode n |>);;
  b ← deref_it (ItNode n);
  now ← gettimeofday;
  set_block b (fun x => x <| b_fd := fd |> <| b_conn := Some p |> <| b_tv := now |>).

Definition HandleAcceptEvent : K Z :=
  newfd ← accept;
  if 0 <? newfd then
    ok ← in_window;
    if negb ok then close newfd;; mret 0 else
    m ← gets ConnMap;
    p ← match m !! newfd with
        | Some o => p ← nonnull o; set_conn p Connect_Reset;; mret p
        | None => new_conn
        end;
    set_conn p (fun c => c <| sock_fd := newfd |>);;
    modify (fun s => s <| ConnMap := <[newfd := Some p]> (ConnMap s) |>);;
    set_conn p (fun c => c <| stillneedtoread := RBUF |> <| type := t_proxy |>);;
    enter_block p newfd;;
    modify (fun s => s <| ConnCount := ConnCount s + 1 |>);;
    mret newfd
  else mret newfd.

(** [ConnectMgr::HandleRecvEvent] *)
Definition HandleRecvEvent (fd : Z) : K Z :=
  m ← gets ConnMap;
  match m !! fd with
  | None | Some None => mret (-1)
  | Some (Some p) =>
    c ← conn p;
    if type c =? t_proxy then ProxyRecvEvent p
    else set_conn p (fun c => c <| host := [] |>);; StreamRecvEvent p
  end.

(** The pending bytes of a tunnel that is hung up are written to the browser. *)
Definition flush_down (p q fd : Z) : K Z :=
  tc ← conn q;
  if r_data_len tc =? 0 then mret 0 else
  if negb (r_offset tc + r_data_len tc <=? Z.of_nat (length (r_buff tc))) then fail_with OutOfBounds else
  wrotelen ← send fd (sub (Z.to_nat (r_offset tc)) (Z.to_nat (r_data_len tc)) (r_buff tc));
  (if wrotelen =? r_data_len tc then
     set_conn q (fun tc => tc <| r_offset := 0 |> <| stillneedtoread := RBUF |> <| status := sta_online |>);;
     _ ← AddREvent (sock_fd tc); mret tt
   else if 0 <? wrotelen then
     set_conn q (fun tc => tc <| r_offset := u32 (r_offset tc + wrotelen) |>
                              <| r_data_len := u32 (r_data_len tc - wrotelen) |>)
   else c ← conn p; _ ← AddEvent (sock_fd c) YM_EV_WR; mret tt);;
  mret 0.

(** [ConnectMgr::HandleEPOEvent]: [_ConnMap[fd]] enters a null pointer when there is
    none. *)
Definition HandleEPOEvent (fd : Z) : K Z :=
  m ← gets ConnMap;
  (if decide (m !! fd = None) then modify (fun s => s <| ConnMap := <[fd := None]> (ConnMap s) |>) else mret tt);;
  match m !! fd with
  | None | Some None => mret (-1)
  | Some (Some p) =>
    c ← conn p;
    match peer c with
    | None => mret 0
    | Some q =>
      d ← conn q;
      if status d =? sta_hangup then
        if negb (type c =? t_proxy) then mret 0 else flush_down p q fd
      else mret 0
    end
  end.

(** ** The recycler's scan *)

Definition Expire_Seconds : Z := 12.
Definition Expire_Count : nat := 5.

(** [ConnRecycleBlock::CRBScan], its loop; [n] is the count left. *)
Fixpoint scan_loop (n : nat) (now : timeval) (it : iter) : K unit :=
  match n with
  | O => mret tt
  | S n' =>
    if decide (it = ItEnd) then mret tt else
    b ← deref_it it;
    x ← block b;
    if tv_sec (b_tv x) + Expire_Seconds <? tv_sec now then
      m ← gets ConnMap;
      match m !! b_fd x with
      | Some o =>
        p ← nonnull o;
        c ← conn p;
        if b_traffic x =? http_transmit_len c then
          it ← next_it it;
          _ ← RemoveConnect (b_fd x);
          scan_loop n' now it
        else
          set_block b (fun x => x <| b_traffic := http_transmit_len c |>);;
          it ← CRBDelay it;
          scan_loop n' now it
      | None =>
        CRBDelete it;;
        scan_loop n' now it
      end
    else mret tt
  end.

Definition CRBScan : K unit :=
  now ← gettimeofday;
  l ← gets expire_list;
  scan_loop Expire_Count now (begin_it l).

(** ** The event loop of [SdkMainLoopRun] *)

Inductive recv_next := Next | FallThrough.

(** The [do ... while (errno == EINTR)] on a readable connection; the fuel counts
    its rounds. *)
Fixpoint recv_event (fuel : nat) (fd : Z) : K recv_next :=
  match fuel with
  | O => fail_with OutOfFuel
  | S fuel' =>
    ret ← HandleRecvEvent fd;
    e ← errno;
    if ret =? -2 then mret Next
    else if ret =? -1 then
      if e =? EAGAIN then mret FallThrough
      else _ ← RemoveConnect fd; mret Next
    else if ret =? 0 then
      if negb (e =? EINTR) then _ ← RemoveConnect fd; mret Next
      else mret FallThrough
    else if e =? EINTR then recv_event fuel' fd
    else mret FallThrough
  end.

(** [HandleRecvEvent] never returns a positive value, so one round is enough. *)
Definition RECV_ROUNDS : nat := 1.

Definition handle_event (m_socket fd events : Z) : K unit :=
  n ← (if has events EPOLLIN then
         if fd =? m_socket then
           currfd ← HandleAcceptEvent;
           (if 0 <? currfd
            then _ ← AddEvent currfd (Z.lor (Z.lor YM_EV_RD YM_EV_WR) YM_EV_ONCE); mret tt
            else mret tt);;
           mret FallThrough
         else recv_event RECV_ROUNDS fd
       else mret FallThrough);
  match n with
  | Next => mret tt
  | FallThrough =>
    if has events EPOLLOUT then
      err ← so_error fd;
      if (err =? 0) || (err =? EAGAIN) then
        ret ← HandleEPOEvent fd;
        if ret =? -1 then _ ← RemoveConnect fd; mret tt else mret tt
      else mret tt
    else mret tt
  end.

Fixpoint handle_events (m_socket : Z) (l : list (Z * Z)) : K unit :=
  match l with
  | [] => mret tt
  | (fd, events) :: l => handle_event m_socket fd events;; handle_events m_socket l
  end.

(** One round of the loop: the events that [epoll_wait] returned, then the scan. *)
Definition loop_round (m_socket : Z) (l : list (Z * Z)) : K unit :=
  handle_events m_socket l;; CRBScan.

End Sdk.

End SdkNet.
