(* ===== verification/SdkInv.v ===== *)
(** * Memory safety of the SDK's event loop

    The invariant of the connection table, of the pairs of browser and tunnel and of
    the recycler's lists; every handler keeps it, and none uses a deleted object. *)

From S2P Require Import Prelude Triple Wire Frame Os Dns SdkEnv SdkHttp SdkState SdkNet.
From stdpp Require Import base gmap list strings.
From Stdlib Require Import ZArith Lia.
Import Triple Wire Os SdkEnv SdkHttp SdkState SdkNet.

Open Scope Z_scope.

Module SdkInv.

(** ** The shape of the memory

    Of a connection only what links it to the rest. *)

Record skel := MkSkel { k_fd : Z; k_type : Z; k_peer : option Z; k_it : iter }.

Definition skel_of (c : Connect) : skel := MkSkel (sock_fd c) (type c) (peer c) (crb_it c).

Record shape := MkShape {
  h_conns : gmap Z skel;
  h_next : Z;
  h_map : gmap Z (option Z);
  h_exp : list (Z * Z);
  h_rec : list Z;
  h_blk : gmap Z crb;
  h_nb : Z;
  h_nn : Z;
}.

Definition shape_of (s : sdk) : shape :=
  MkShape (skel_of <$> conns s) (next_conn s) (ConnMap s) (expire_list s) (recycle_list s)
    (blocks s) (next_block s) (next_node s).

(** The table and the heap agree, peers point at each other and are a browser and
    a tunnel, a tunnel has a peer, every browser has a node of its own in
    [expire_list] whose block points back at it, and no block is used twice. *)
Record sane (h : shape) : Prop := MkSane {
  sn_map fd o : h_map h !! fd = Some o → ∃ p k, o = Some p ∧ h_conns h !! p = Some k ∧ k_fd k = fd;
  sn_conn p k : h_conns h !! p = Some k →
    h_map h !! k_fd k = Some (Some p) ∧ 0 < k_fd k ∧ p < h_next h ∧ (k_type k = t_proxy ∨ k_type k = t_tunnel);
  sn_peer p k q : h_conns h !! p = Some k → k_peer k = Some q →
    ∃ k', h_conns h !! q = Some k' ∧ k_peer k' = Some p ∧ k_type k' ≠ k_type k;
  sn_tunnel p k : h_conns h !! p = Some k → k_type k = t_tunnel → is_Some (k_peer k);
  sn_node p k : h_conns h !! p = Some k → k_type k = t_proxy →
    ∃ n b x, k_it k = ItNode n ∧ (n, b) ∈ h_exp h ∧ h_blk h !! b = Some x ∧
             b_conn x = Some p ∧ b_fd x = k_fd k;
  sn_owner n b : (n, b) ∈ h_exp h →
    ∃ p k, h_conns h !! p = Some k ∧ k_type k = t_proxy ∧ k_it k = ItNode n;
  sn_nodes : NoDup (h_exp h).*1;
  sn_node_lt n b : (n, b) ∈ h_exp h → n < h_nn h;
  sn_blocks : NoDup ((h_exp h).*2 ++ h_rec h);
  sn_block b : b ∈ (h_exp h).*2 ++ h_rec h → is_Some (h_blk h !! b) ∧ b < h_nb h;
}.

Definition sinv (s : sdk) : Prop := sane (shape_of s).

(** *** The nodes of the list *)

Lemma block_of_in n b l : NoDup l.*1 → (n, b) ∈ l → block_of n l = Some b.
Proof.
  intros Hd Hin. induction l as [|[m b'] l IH]; [by apply not_elem_of_nil in Hin|].
  apply NoDup_cons in Hd as [Hm Hd]. cbn [block_of].
  apply elem_of_cons in Hin as [Heq|Hin]; [injection Heq as <- <-; rewrite Z.eqb_refl; done|].
  destruct (Z.eqb_spec m n) as [->|Hne]; [|auto]. destruct Hm. apply (list_elem_of_fmap_2 fst _ _ Hin).
Qed.

Lemma node_block (n b b' : Z) (l : list (Z * Z)) : NoDup l.*1 → (n, b) ∈ l → (n, b') ∈ l → b = b'.
Proof. intros Hd H1 H2. apply block_of_in in H1, H2; [|done|done]. congruence. Qed.

Lemma after_cases n l : NoDup l.*1 →
  after n l = ItEnd ∨ ∃ m b, after n l = ItNode m ∧ m ≠ n ∧ (m, b) ∈ l.
Proof.
  induction l as [|[m b] l IH]; intros Hd; [left; done|]. apply NoDup_cons in Hd as [Hm Hd]. cbn [after].
  destruct (Z.eqb_spec m n) as [->|].
  - destruct l as [|[m' b'] l]; [left; done|]. right. exists m', b'. split; [done|]. split.
    + intros ->. apply Hm. left.
    + right. left.
  - destruct (IH Hd) as [?|(m' & b' & ? & ? & ?)]; [left; done|]. right. exists m', b'. split_and!; try done.
    right. done.
Qed.

Lemma filter_nodes_in n m (b : Z) (l : list (Z * Z)) :
  (m, b) ∈ filter (fun x => x.1 ≠ n) l ↔ (m, b) ∈ l ∧ m ≠ n.
Proof. rewrite list_elem_of_filter. cbn. naive_solver. Qed.

Lemma filter_nodes_nodup (n : Z) (l : list (Z * Z)) : NoDup l.*1 → NoDup (filter (fun x => x.1 ≠ n) l).*1.
Proof.
  induction l as [|[m b] l IH]; intros Hd; [done|]. apply NoDup_cons in Hd as [Hm Hd].
  rewrite filter_cons. cbn. case_decide; [|auto]. cbn. apply NoDup_cons. split; [|auto].
  intros ([m' b'] & Hin & Hx)%list_elem_of_fmap. cbn in Hin. subst m'.
  apply list_elem_of_filter in Hx as [_ Hx]. apply Hm. apply (list_elem_of_fmap_2 fst _ _ Hx).
Qed.

Lemma filter_other_nodes (n : Z) (l : list (Z * Z)) : n ∉ l.*1 → filter (fun x => x.1 ≠ n) l = l.
Proof.
  induction l as [|[m b] l IH]; [done|]. rewrite fmap_cons, not_elem_of_cons. intros [Hm Hl].
  rewrite filter_cons. cbn in *. rewrite decide_True by congruence. f_equal. auto.
Qed.

(** Erasing a node moves its block to the other list. *)
Lemma filter_nodes_blocks n b (l : list (Z * Z)) rest : NoDup l.*1 → (n, b) ∈ l →
  (filter (fun x => x.1 ≠ n) l).*2 ++ (rest ++ [b]) ≡ₚ l.*2 ++ rest.
Proof.
  intros Hd Hin. assert (l ≡ₚ (n, b) :: filter (fun x => x.1 ≠ n) l) as Hp.
  { clear rest. induction l as [|[m b'] l IH]; [by apply not_elem_of_nil in Hin|].
    apply NoDup_cons in Hd as [Hm Hd]. rewrite filter_cons. cbn.
    apply elem_of_cons in Hin as [Heq|Hin]; [injection Heq as <- <-|].
    - rewrite decide_False by (intros Hne; done). f_equiv.
      rewrite filter_other_nodes by done. done.
    - rewrite decide_True. 2: { intros ->. apply Hm. apply (list_elem_of_fmap_2 fst _ _ Hin). }
      rewrite IH at 1 by done. apply Permutation_swap. }
  rewrite Hp at 2. cbn [fmap list_fmap snd]. rewrite (Permutation_app_comm rest [b]). cbn [app].
  rewrite <- Permutation_middle. done.
Qed.

(** *** Changes of the shape that keep it sane *)

Lemma sane_fresh h : sane h → h_conns h !! h_next h = None.
Proof.
  intros H. destruct (h_conns h !! h_next h) as [k|] eqn:E; [|done].
  destruct (sn_conn h H _ _ E) as (_ & _ & Hlt & _). lia.
Qed.

(** Two connections with the same descriptor are the same. *)
Lemma sane_inj h p q k k' : sane h → h_conns h !! p = Some k → h_conns h !! q = Some k' →
  k_fd k = k_fd k' → p = q.
Proof.
  intros H Hp Hq Heq. destruct (sn_conn h H _ _ Hp) as (H1 & _). destruct (sn_conn h H _ _ Hq) as (H2 & _).
  congruence.
Qed.

(** A browser's connection [p] without a peer gets the tunnel [q] on descriptor [fd]. *)
Definition link (p q fd : Z) (k : skel) (h : shape) : shape :=
  MkShape (<[q := MkSkel fd t_tunnel (Some p) ItSingular]>
             (<[p := MkSkel (k_fd k) (k_type k) (Some q) (k_it k)]> (h_conns h)))
    (q + 1) (<[fd := Some q]> (h_map h)) (h_exp h) (h_rec h) (h_blk h) (h_nb h) (h_nn h).

Lemma sane_link h p k fd : sane h → h_conns h !! p = Some k → k_type k = t_proxy → k_peer k = None →
  h_map h !! fd = None → 0 < fd → sane (link p (h_next h) fd k h).
Proof.
  intros H Hp Ht Hpe Hfd Hpos. pose proof (sane_fresh h H) as Hq. set (q := h_next h) in *.
  assert (p ≠ q) as Hpq by (intros ->; congruence).
  assert (∀ r k', h_conns (link p q fd k h) !! r = Some k' →
    (r = q ∧ k' = MkSkel fd t_tunnel (Some p) ItSingular) ∨
    (r = p ∧ k' = MkSkel (k_fd k) (k_type k) (Some q) (k_it k)) ∨
    (r ≠ q ∧ r ≠ p ∧ h_conns h !! r = Some k')) as Hc.
  { intros r k' Hr. cbn in Hr. destruct (decide (r = q)) as [->|].
    { rewrite lookup_insert_eq in Hr. left. split; congruence. }
    rewrite lookup_insert_ne in Hr by done. destruct (decide (r = p)) as [->|].
    { rewrite lookup_insert_eq in Hr. right; left. split; congruence. }
    rewrite lookup_insert_ne in Hr by done. auto. }
  assert (∀ r k', h_conns h !! r = Some k' → r ≠ p → h_conns (link p q fd k h) !! r = Some k') as Hold.
  { intros r k' Hr Hne. cbn. rewrite !lookup_insert_ne by congruence. done. }
  assert (h_conns (link p q fd k h) !! p = Some (MkSkel (k_fd k) (k_type k) (Some q) (k_it k))) as Hpn.
  { cbn. rewrite lookup_insert_ne, lookup_insert_eq by done. done. }
  assert (h_conns (link p q fd k h) !! q = Some (MkSkel fd t_tunnel (Some p) ItSingular)) as Hqn.
  { cbn. rewrite lookup_insert_eq. done. }
  destruct (sn_conn h H _ _ Hp) as (Hm & Hfp & Hlt & _).
  constructor.
  - intros fd' o Ho. cbn in Ho. destruct (decide (fd = fd')) as [<-|].
    { rewrite lookup_insert_eq in Ho. injection Ho as <-. eauto. }
    rewrite lookup_insert_ne in Ho by done. destruct (sn_map h H _ _ Ho) as (r & k' & -> & Hr & Hf).
    destruct (decide (r = p)) as [->|]; [|exists r, k'; auto]. exists p. eexists. split; [done|].
    split; [exact Hpn|]. cbn. congruence.
  - intros r k' [(-> & ->)|[(-> & ->)|(? & ? & Hr)]]%Hc; cbn.
    + rewrite lookup_insert_eq. split_and!; auto. lia.
    + rewrite lookup_insert_ne by congruence. split_and!; auto. lia.
    + destruct (sn_conn h H _ _ Hr) as (? & ? & ? & ?). rewrite lookup_insert_ne by congruence.
      split_and!; auto. lia.
  - intros r k' r' [(-> & ->)|[(-> & ->)|(? & ? & Hr)]]%Hc Hpr; cbn in Hpr.
    + injection Hpr as <-. eexists. split; [exact Hpn|]. cbn. rewrite Ht. done.
    + injection Hpr as <-. eexists. split; [exact Hqn|]. cbn. rewrite Ht. done.
    + destruct (sn_peer h H _ _ _ Hr Hpr) as (k2 & Hk2 & Hp2 & Ht2). exists k2.
      split; [|done]. apply Hold; [done|]. intros ->. congruence.
  - intros r k' [(-> & ->)|[(-> & ->)|(? & ? & Hr)]]%Hc; cbn.
    + intros _. eexists. done.
    + intros _. eexists. done.
    + apply (sn_tunnel h H r k' Hr).
  - intros r k' [(-> & ->)|[(-> & ->)|(? & ? & Hr)]]%Hc; cbn; [done| |].
    + intros _. apply (sn_node h H p k Hp Ht).
    + intros Hty. apply (sn_node h H r k' Hr Hty).
  - intros n b Hn. destruct (sn_owner h H n b Hn) as (r & k' & Hr & Hty & Hit).
    destruct (decide (r = p)) as [->|]; [|exists r, k'; auto]. exists p. eexists. split; [exact Hpn|].
    cbn. split; congruence.
  - apply H.
  - apply H.
  - apply H.
  - apply H.
Qed.

(** A browser connects: [fd] with connection [p], node [n] and block [b]. *)
Lemma sane_accept h h' fd b x : sane h → h_map h !! fd = None → 0 < fd →
  b_conn x = Some (h_next h) → b_fd x = fd → b < h_nb h' → h_nb h ≤ h_nb h' →
  b ∉ (h_exp h).*2 ++ h_rec h' → (h_exp h).*2 ++ h_rec h' ⊆+ (h_exp h).*2 ++ h_rec h →
  h_conns h' = <[h_next h := MkSkel fd t_proxy None (ItNode (h_nn h))]> (h_conns h) →
  h_next h' = h_next h + 1 → h_map h' = <[fd := Some (h_next h)]> (h_map h) →
  h_exp h' = h_exp h ++ [(h_nn h, b)] → h_nn h' = h_nn h + 1 →
  (∀ b', b' ≠ b → is_Some (h_blk h !! b') → h_blk h' !! b' = h_blk h !! b') → h_blk h' !! b = Some x →
  sane h'.
Proof.
  intros H Hfd Hpos Hx Hxf Hb Hnb Hbn Hsub E1 E2 E3 E4 E5 E6 E7.
  pose proof (sane_fresh h H) as Hp. set (p := h_next h) in *. set (n := h_nn h) in *.
  set (kn := MkSkel fd t_proxy None (ItNode n)) in *.
  assert (∀ r k', h_conns h' !! r = Some k' → (r = p ∧ k' = kn) ∨ (r ≠ p ∧ h_conns h !! r = Some k')) as Hc.
  { intros r k' Hr. rewrite E1 in Hr. destruct (decide (r = p)) as [->|].
    - rewrite lookup_insert_eq in Hr. left. split; congruence.
    - rewrite lookup_insert_ne in Hr by done. auto. }
  assert (∀ r k', h_conns h !! r = Some k' → h_conns h' !! r = Some k') as Hold.
  { intros r k' Hr. rewrite E1, lookup_insert_ne by congruence. done. }
  assert (h_conns h' !! p = Some kn) as Hpn by (rewrite E1; apply lookup_insert_eq).
  constructor.
  - intros fd' o Ho. rewrite E3 in Ho. destruct (decide (fd = fd')) as [<-|].
    { rewrite lookup_insert_eq in Ho. injection Ho as <-. exists p, kn. auto. }
    rewrite lookup_insert_ne in Ho by done. destruct (sn_map h H _ _ Ho) as (r & k' & -> & Hr & Hf).
    exists r, k'. auto.
  - intros r k' [(-> & ->)|(? & Hr)]%Hc; rewrite E3, E2.
    + cbn. rewrite lookup_insert_eq. split_and!; auto. lia.
    + destruct (sn_conn h H _ _ Hr) as (? & ? & ? & ?). rewrite lookup_insert_ne by congruence.
      split_and!; auto. lia.
  - intros r k' r' [(-> & ->)|(? & Hr)]%Hc Hpr; [done|].
    destruct (sn_peer h H _ _ _ Hr Hpr) as (k2 & Hk2 & ?). exists k2. auto.
  - intros r k' [(-> & ->)|(? & Hr)]%Hc; [done|]. apply (sn_tunnel h H r k' Hr).
  - intros r k' [(-> & ->)|(? & Hr)]%Hc Hty.
    + exists n, b, x. rewrite E4. split_and!; auto. apply elem_of_app. right. left.
    + destruct (sn_node h H r k' Hr Hty) as (m & b' & x' & Hit & Hin & Hbx & ? & ?). exists m, b', x'.
      rewrite E4. split_and!; auto; [apply elem_of_app; auto|]. rewrite E6; [done| |rewrite Hbx; eauto].
      intros ->. apply Hbn. apply elem_of_app. left. apply (list_elem_of_fmap_2 snd _ _ Hin).
  - intros m b' Hin. rewrite E4 in Hin. apply elem_of_app in Hin as [Hin|Hin].
    + destruct (sn_owner h H m b' Hin) as (r & k' & ? & ? & ?). exists r, k'. auto.
    + apply list_elem_of_singleton in Hin. injection Hin as -> ->. exists p, kn. auto.
  - rewrite E4, fmap_app. apply NoDup_app. split_and!; [apply H| |apply NoDup_singleton].
    intros m ([m' b'] & -> & Hin)%list_elem_of_fmap Hm. cbn in Hm. apply list_elem_of_singleton in Hm as ->.
    pose proof (sn_node_lt h H _ _ Hin). lia.
  - intros m b' Hin. rewrite E4 in Hin. rewrite E5. apply elem_of_app in Hin as [Hin|Hin].
    + pose proof (sn_node_lt h H _ _ Hin). lia.
    + apply list_elem_of_singleton in Hin. injection Hin as -> ->. lia.
  - rewrite E4, fmap_app, <- app_assoc. cbn. rewrite <- Permutation_middle. apply NoDup_cons. split; [done|].
    apply submseteq_Permutation in Hsub as [l Hl]. pose proof (sn_blocks h H) as Hd. rewrite Hl in Hd.
    apply NoDup_app in Hd as [? _]. done.
  - intros b'. rewrite E4, fmap_app, <- app_assoc. cbn. rewrite elem_of_app, elem_of_cons.
    intros Hb'. destruct (decide (b' = b)) as [->|Hne]; [split; [rewrite E7; eauto|done]|].
    destruct (sn_block h H b') as [Hs Hlt].
    { eapply elem_of_submseteq; [|exact Hsub]. apply elem_of_app. naive_solver. }
    split; [rewrite E6; done|lia].
Qed.

(** A browser's connection [p] goes, with its tunnel if it has one: its node is
    erased and its block recycled. *)
Lemma sane_drop h h' p k n b : sane h → h_conns h !! p = Some k → k_type k = t_proxy → k_it k = ItNode n →
  (n, b) ∈ h_exp h →
  (∀ r k', h_conns h' !! r = Some k' ↔ h_conns h !! r = Some k' ∧ r ≠ p ∧ k_peer k ≠ Some r) →
  (∀ fd o, h_map h' !! fd = Some o ↔ h_map h !! fd = Some o ∧ o ≠ Some p ∧ o ≠ k_peer k) →
  h_exp h' = filter (fun x => x.1 ≠ n) (h_exp h) → h_rec h' = h_rec h ++ [b] →
  h_blk h' = <[b := crb_Reset]> (h_blk h) → h_next h' = h_next h → h_nb h' = h_nb h → h_nn h' = h_nn h →
  sane h'.
Proof.
  intros H Hp Ht Hit Hnb Ec Em E1 E2 E3 E4 E5 E6.
  assert (∀ r k', h_conns h !! r = Some k' → r ≠ p → k_type k' = t_proxy → k_peer k ≠ Some r) as Hproxy.
  { intros r k' Hr Hne Hty Hpe. destruct (sn_peer h H _ _ _ Hp Hpe) as (k2 & ? & ? & ?). congruence. }
  constructor.
  - intros fd o [Ho [Ho1 Ho2]]%Em. destruct (sn_map h H _ _ Ho) as (r & k' & -> & Hr & Hf).
    exists r, k'. split_and!; auto. apply Ec. split_and!; congruence.
  - intros r k' [Hr [Hr1 Hr2]]%Ec. destruct (sn_conn h H _ _ Hr) as (? & ? & ? & ?).
    split_and!; auto; [|lia]. apply Em. split_and!; congruence.
  - intros r k' q [Hr [Hr1 Hr2]]%Ec Hq. destruct (sn_peer h H _ _ _ Hr Hq) as (k2 & Hk2 & Hp2 & Ht2).
    exists k2. split_and!; auto. apply Ec. split_and!; auto.
    + intros ->. assert (k2 = k) as -> by congruence. congruence.
    + intros Hkq. destruct (sn_peer h H _ _ _ Hp Hkq) as (k3 & Hk3 & Hp3 & _). congruence.
  - intros r k' [Hr _]%Ec. apply (sn_tunnel h H r k' Hr).
  - intros r k' [Hr [Hr1 Hr2]]%Ec Hty. destruct (sn_node h H r k' Hr Hty) as (m & b' & x & Hm & Hin & Hx & Hxp & Hxf).
    assert (m ≠ n) as Hmn.
    { intros ->. destruct (sn_node h H p k Hp Ht) as (m' & b2 & x2 & Hm' & Hin' & Hx' & Hxp' & _).
      assert (m' = n) as -> by congruence.
      pose proof (node_block n b' b2 (h_exp h) (sn_nodes h H) Hin Hin') as ->. congruence. }
    exists m, b', x. rewrite E1, E3. split_and!; auto; [apply filter_nodes_in; auto|].
    rewrite lookup_insert_ne; [done|]. intros <-.
    pose proof (sn_blocks h H) as Hd. apply NoDup_app in Hd as [Hd _].
    apply list_elem_of_lookup in Hin as [i Hi]. apply list_elem_of_lookup in Hnb as [j Hj].
    assert (i = j) as ->.
    { apply (NoDup_lookup _ i j b Hd); rewrite list_lookup_fmap; [rewrite Hi|rewrite Hj]; done. }
    congruence.
  - intros m b' Hin. rewrite E1 in Hin. apply filter_nodes_in in Hin as [Hin Hne].
    destruct (sn_owner h H m b' Hin) as (r & k' & Hr & Hty & Hrit). exists r, k'. split_and!; auto.
    apply Ec. assert (r ≠ p) by (intros ->; congruence). split_and!; eauto.
  - rewrite E1. apply filter_nodes_nodup, H.
  - intros m b' Hin. rewrite E1 in Hin. apply filter_nodes_in in Hin as [Hin _]. rewrite E6. eapply sn_node_lt; eauto.
  - rewrite E1, E2, (filter_nodes_blocks n b) by (apply H || done). apply H.
  - intros b'. rewrite E1, E2, (filter_nodes_blocks n b) by (apply H || done). intros Hb'.
    destruct (sn_block h H b' Hb') as [Hs Hlt]. rewrite E3, E5. split; [|done].
    destruct (decide (b = b')) as [<-|]; [rewrite lookup_insert_eq|rewrite lookup_insert_ne by done]; eauto.
Qed.

Lemma sane_init a0 st0 e o : sinv (sdk_init a0 st0 e o).
Proof.
  unfold sinv, shape_of. cbn. rewrite fmap_empty.
  constructor; cbn; try (intros *; rewrite lookup_empty; done); try (intros * Hin; by apply not_elem_of_nil in Hin).
  - apply NoDup_nil_2.
  - apply NoDup_nil_2.
Qed.

(** ** Operations that keep the shape

    [soft tl L m]: in a sane state in which the connections of [L] live, [m] keeps
    the shape, takes nothing into the sockets' queues, leaves the coming descriptors
    alone, and faults only as [tl] allows. *)

Definition live (s : sdk) (p : Z) : Prop := is_Some (conns s !! p).

Definition waiting (fd : Z) (s : sdk) : nat := length (rx_of fd (sys s)).1.

Record soft_rel (s s' : sdk) : Prop := MkSoftRel {
  sr_shape : shape_of s' = shape_of s;
  sr_rx fd : (waiting fd s' ≤ waiting fd s)%nat;
  sr_socket : o_socket (sys s') = o_socket (sys s);
}.

#[export] Instance soft_rel_pre : PreOrder soft_rel.
Proof.
  split; [intros s; split; auto|]. intros s1 s2 s3 [A1 A2 A3] [B1 B2 B3].
  split; [congruence| |congruence]. intros fd. etransitivity; eauto.
Qed.

Lemma soft_rel_sinv s s' : soft_rel s s' → sinv s → sinv s'.
Proof. intros [E _ _] H. unfold sinv. rewrite E. done. Qed.

Lemma shape_conns s s' p : shape_of s' = shape_of s → skel_of <$> (conns s' !! p) = skel_of <$> (conns s !! p).
Proof. intros E. rewrite <- !lookup_fmap. unfold shape_of in E. congruence. Qed.

Lemma shape_live s s' p : shape_of s' = shape_of s → live s p → live s' p.
Proof.
  intros E [c Hc]. apply (shape_conns _ _ p) in E. rewrite Hc in E. unfold live.
  destruct (conns s' !! p); [eauto|done].
Qed.

Definition soft {A} (tl : fault → Prop) (L : list Z) (m : K A) : Prop :=
  ∀ s, sinv s → Forall (live s) L → match m s with Ok (_, s') => soft_rel s s' | Bad f => tl f end.

Section Soft.
Context {tl : fault → Prop}.

Lemma soft_ret {A} L (a : A) : soft tl L (mret a).
Proof. intros s _ _. done. Qed.
Lemma soft_gets {A} L (f : sdk → A) : soft tl L (gets f).
Proof. intros s _ _. done. Qed.
Lemma soft_modify L (f : sdk → sdk) : (∀ s, soft_rel s (f s)) → soft tl L (modify f).
Proof. intros Hf s _ _. apply Hf. Qed.
Lemma soft_fail {A} L f : tl f → soft (A := A) tl L (fail_with f).
Proof. intros Hf s _ _. done. Qed.
Lemma soft_lift {A} L (r : result A) : (∀ f, r = Bad f → tl f) → soft tl L (lift r).
Proof. intros Hr s _ _. unfold lift. destruct r; [done|auto]. Qed.

Lemma soft_bind {A B} L (m : K A) (k : A → K B) : soft tl L m → (∀ a, soft tl L (k a)) → soft tl L (m ≫= k).
Proof.
  intros Hm Hk s Hs HL. unfold mbind, M_bind. specialize (Hm s Hs HL). destruct (m s) as [[a s1]|f]; [|done].
  assert (Forall (live s1) L) as HL1.
  { eapply Forall_impl; [exact HL|]. intros p. apply shape_live, Hm. }
  specialize (Hk a s1 (soft_rel_sinv _ _ Hm Hs) HL1). destruct (k a s1) as [[b s2]|f]; [|done].
  etransitivity; eauto.
Qed.

(** A connection is read: its peer lives too. *)
Lemma soft_conn {B} L p (k : Connect → K B) : p ∈ L →
  (∀ c, soft tl (match peer c with Some q => q :: L | None => L end) (k c)) → soft tl L (conn p ≫= k).
Proof.
  intros Hp Hk s Hs HL. unfold mbind, M_bind, conn.
  pose proof HL as HL'. rewrite Forall_forall in HL'. destruct (HL' p Hp) as [c Hc]. rewrite Hc.
  apply Hk; [done|]. destruct (peer c) as [q|] eqn:Hq; [|done]. constructor; [|done].
  destruct (sn_peer _ Hs p (skel_of c) q) as (k' & Hk' & _).
  - cbn. rewrite lookup_fmap, Hc. done.
  - done.
  - cbn in Hk'. rewrite lookup_fmap in Hk'. unfold live. destruct (conns s !! q); [eauto|done].
Qed.

Lemma soft_set L p f : p ∈ L → (∀ c, skel_of (f c) = skel_of c) → soft tl L (set_conn p f).
Proof.
  intros Hp Hf s Hs HL. unfold set_conn. rewrite Forall_forall in HL. destruct (HL p Hp) as [c Hc]. rewrite Hc.
  split; [|done|done]. unfold shape_of. rsimpl. f_equal. rewrite fmap_insert, Hf.
  apply insert_id. rewrite lookup_fmap, Hc. done.
Qed.

Lemma soft_weaken {A} L L' (m : K A) : (∀ p, p ∈ L → p ∈ L') → soft tl L m → soft tl L' m.
Proof.
  intros HL Hm s Hs Hl. apply Hm; [done|]. rewrite Forall_forall in *. auto.
Qed.

(** A change of the operating system alone. *)
Lemma soft_os s (f : os → os) : (∀ fd, (length (rx_of fd (f (sys s))).1 ≤ waiting fd s)%nat) →
  o_socket (f (sys s)) = o_socket (sys s) → soft_rel s (with_os f s).
Proof. intros Hr Hs. split; [done|exact Hr|exact Hs]. Qed.

Lemma soft_send L fd d : soft tl L (send fd d).
Proof. intros s _ _. unfold send. destruct (_ <? 0); split; done. Qed.
Lemma soft_epoll L op fd e : soft tl L (epoll_ctl op fd e).
Proof. intros s _ _. unfold epoll_ctl. destruct (o_ctl _); [split; done|]. destruct (_ <? 0); split; done. Qed.
Lemma soft_shutdown L fd : soft tl L (shutdown fd).
Proof. intros s _ _. split; done. Qed.
Lemma rx_count_delete fd fd' o : (length (default ([], false) (delete fd' (o_rx o) !! fd)).1
                               ≤ length (rx_of fd o).1)%nat.
Proof.
  unfold rx_of. destruct (decide (fd = fd')) as [->|].
  - rewrite lookup_delete_eq. cbn. lia.
  - rewrite lookup_delete_ne by done. done.
Qed.
Lemma soft_close L fd : soft tl L (close fd).
Proof. intros s _ _. split; [done| |done]. intros fd'. apply rx_count_delete. Qed.

Lemma soft_read L fd n : soft tl L (read fd n).
Proof.
  intros s _ _. unfold read. destruct (rx_of fd (the_os s)) as [avail eof] eqn:Hrx.
  destruct (Frame.sock_read n avail eof) as [k got]. destruct (0 <? k), (k <? 0); split; try done.
  all: intros fd'; change (the_os s) with (sys s) in *; unfold waiting, rx_of, with_os, sdk_os, set; cbn.
  all: destruct (decide (fd = fd')) as [<-|]; [rewrite lookup_insert_eq|rewrite lookup_insert_ne by done; done].
  all: unfold rx_of in Hrx; rewrite Hrx; cbn; rewrite length_drop; lia.
Qed.
End Soft.

(** Walks through an operation that keeps the shape. *)
Ltac solve_in := first [assumption | rewrite ?elem_of_cons; tauto].

Create HintDb soft.
#[export] Hint Resolve soft_send soft_epoll soft_shutdown soft_close soft_read : soft.

Ltac soft_step :=
  match goal with
  | |- soft _ _ (mret _) => apply soft_ret
  | |- soft _ _ (gets _) => apply soft_gets
  | |- soft _ _ (conn _ ≫= _) => apply soft_conn; [solve_in|intros ?]
  | |- soft _ _ (_ ≫= _) => apply soft_bind; [|intros ?]
  | |- soft _ _ (set_conn _ _) => apply soft_set; [solve_in|reflexivity]
  | |- soft _ _ (modify _) => apply soft_modify; intros ?; split; done
  | |- soft _ _ (match ?x with _ => _ end) => destruct x eqn:?
  | _ => solve [eauto with soft]
  end.

Ltac soft_walk := repeat soft_step.

Section SoftOps.
Context {tl : fault → Prop} (accurate : bool).

Lemma soft_ctl L op fd e : soft tl L (ctl op fd e).
Proof. unfold ctl. soft_walk. Qed.
Hint Resolve soft_ctl : soft.

Lemma soft_AddREvent L fd : soft tl L (AddREvent fd).
Proof. apply soft_ctl. Qed.
Lemma soft_AddEvent L fd e : soft tl L (AddEvent fd e).
Proof. apply soft_ctl. Qed.
Lemma soft_RemoveEvent L fd e : soft tl L (RemoveEvent fd e).
Proof. apply soft_ctl. Qed.

Lemma soft_wake L p : p ∈ L → soft tl L (WakeupUser p).
Proof. intros Hp. unfold WakeupUser. soft_walk. Qed.

Lemma soft_add_cost L x : soft tl L (add_cost x).
Proof. unfold add_cost. soft_walk. Qed.

Lemma soft_add_transmit L p x : p ∈ L → soft tl L (add_transmit p x).
Proof. intros Hp. unfold add_transmit. soft_walk. Qed.
Hint Resolve soft_AddREvent soft_AddEvent soft_RemoveEvent soft_wake soft_add_cost soft_add_transmit : soft.

Lemma soft_SendMsg L p msg : p ∈ L → soft tl L (SendMsg p msg).
Proof.
  intros Hp. unfold SendMsg. apply soft_conn; [done|]. intros c.
  assert (p ∈ match peer c with Some q => q :: L | None => L end) by (destruct (peer c); [right|]; done).
  soft_walk.
Qed.

Lemma get_setting_soft L key : tl OutOfBounds → soft tl L (get_setting key).
Proof.
  intros Ht. unfold get_setting. apply soft_bind; [apply soft_gets|]. intros e. apply soft_lift.
  intros f. unfold YMEGet, sprintf_llu. case_ifs; intros [= <-]; done.
Qed.
Hint Resolve soft_SendMsg get_setting_soft : soft.

Context (Hoob : tl OutOfBounds).

Lemma soft_SendTmsMsg L p msg : p ∈ L → soft tl L (SendTmsMsg accurate p msg).
Proof.
  intros Hp. unfold SendTmsMsg. apply soft_conn; [done|]. intros c.
  assert (p ∈ match peer c with Some q => q :: L | None => L end) by (destruct (peer c); [right|]; done).
  apply soft_bind; [|intros ?; soft_walk].
  apply soft_lift. intros f. unfold Frame.SendTmsMsg_bytes. destruct (_ <=? _); [done|]. intros [= <-]. done.
Qed.
Hint Resolve soft_SendTmsMsg : soft.

Lemma soft_AckUserFail L p code : p ∈ L → soft tl L (AckUserFail p code).
Proof.
  intros Hp. unfold AckUserFail. apply soft_conn; [done|]. intros c.
  destruct (peer c) as [q|]; [|soft_walk]. apply soft_conn; [left|]. intros d.
  destruct (type d =? t_proxy); [soft_walk|]. apply soft_wake. destruct (peer d); repeat right; done.
Qed.

Lemma soft_activate L p q : p ∈ L → q ∈ L → soft tl L (activate_proxy p q).
Proof.
  intros Hp Hq. unfold activate_proxy. apply soft_conn; [done|]. intros c.
  set (L1 := match peer c with Some r => r :: L | None => L end).
  assert (p ∈ L1 ∧ q ∈ L1) as [Hp1 Hq1] by (unfold L1; destruct (peer c); split; try right; done).
  apply soft_bind; [soft_walk|]. intros _. apply soft_conn; [done|]. intros d.
  set (L2 := match peer d with Some r => r :: L1 | None => L1 end).
  assert (p ∈ L2 ∧ q ∈ L2) as [Hp2 Hq2] by (unfold L2; destruct (peer d); split; try right; done).
  apply soft_bind; [|intros _; apply soft_bind; [soft_walk|intros _]].
  - destruct (http_version d =? 0); [destruct (_ <=? _); [soft_walk|by apply soft_fail]|soft_walk].
  - apply soft_conn; [done|]. intros d'. soft_walk.
Qed.
Hint Resolve soft_AckUserFail soft_activate : soft.

Lemma soft_on_login_rsp L p r : p ∈ L → soft tl L (on_login_rsp accurate p r).
Proof.
  intros Hp. unfold on_login_rsp. apply soft_bind; [soft_walk|intros _]. destruct (lr_rsp_code r =? 0).
  - apply soft_bind; [soft_walk|intros _]. apply soft_bind; [unfold SwitchConnModeForw; soft_walk|intros _].
    apply soft_bind; [unfold send_begin_transmit; soft_walk|intros _].
    apply soft_conn; [done|]. intros c. destruct (peer c) as [q|]; [|soft_walk].
    apply soft_activate; [right; done|left].
  - destruct (login_failure _); [|apply soft_ret]. soft_walk.
Qed.

Lemma soft_on_connect_host_rsp L p r : p ∈ L → soft tl L (on_connect_host_rsp accurate p r).
Proof.
  intros Hp. unfold on_connect_host_rsp. destruct (negb _); [apply soft_ret|].
  apply soft_bind; [unfold SwitchConnModeForw; soft_walk|intros _].
  apply soft_bind; [unfold send_begin_transmit; soft_walk|intros _]. soft_walk.
Qed.

Lemma soft_HandleRecvMsg L p msg len : p ∈ L → soft tl L (HandleRecvMsg accurate p msg len).
Proof.
  intros Hp. unfold HandleRecvMsg. destruct (_ <? _); [apply soft_ret|].
  destruct (_ =? _); [apply soft_bind; [by apply soft_on_login_rsp|intros _; apply soft_ret]|].
  destruct (_ =? _); [by apply soft_on_connect_host_rsp|apply soft_ret].
Qed.

Lemma soft_flush_down L p q fd : p ∈ L → q ∈ L → soft tl L (flush_down p q fd).
Proof.
  intros Hp Hq. unfold flush_down. apply soft_conn; [done|]. intros tc.
  set (L1 := match peer tc with Some r => r :: L | None => L end).
  assert (p ∈ L1 ∧ q ∈ L1) as [Hp1 Hq1] by (unfold L1; destruct (peer tc); split; try right; done).
  destruct (_ =? 0); [apply soft_ret|]. destruct (negb _); [by apply soft_fail|].
  apply soft_bind; [soft_walk|intros w]. apply soft_bind; [|intros _; apply soft_ret].
  destruct (w =? _); [soft_walk|]. destruct (0 <? w); [soft_walk|].
  apply soft_conn; [done|]. intros d. soft_walk.
Qed.

Context (Hab : tl Aborted).

Lemma result_bind_bad {A B} (r : result A) (k : A → result B) f :
  (r ≫= k) = Bad f → r = Bad f ∨ ∃ a, r = Ok a ∧ k a = Bad f.
Proof. unfold mbind, result_bind. destruct r; [eauto|]. intros [= ->]. auto. Qed.

End SoftOps.

(** ** Faults of the parsers

    None of them touches the heap, and their loops end. *)

Section Avoids.

Definition avoids {A} (f : fault) (r : result A) : Prop := r ≠ Bad f.

Lemma avoids_bind {A B} f (r : result A) (k : A → result B) :
  avoids f r → (∀ a, r = Ok a → avoids f (k a)) → avoids f (r ≫= k).
Proof. intros Hr Hk. unfold avoids, mbind, result_bind in *. destruct r; [auto|congruence]. Qed.

Ltac avoid_step :=
  match goal with
  | |- avoids _ (_ ≫= _) => apply avoids_bind; [|intros ? _]
  | |- avoids _ (match ?x with _ => _ end) => destruct x
  | |- avoids _ (Ok _) => discriminate
  | |- avoids _ (Bad _) => discriminate
  | _ => solve [auto with avoids nocore]
  end.

Lemma byte_at_avoids buf p : avoids UseAfterFree (byte_at buf p).
Proof. unfold byte_at. repeat avoid_step. Qed.
Hint Resolve byte_at_avoids : avoids.
Lemma case_at_avoids buf p lit : avoids UseAfterFree (case_at buf p lit).
Proof. revert p. induction lit; intros p; cbn [case_at]; [done|]. repeat avoid_step. Qed.
Lemma skip_one_space_avoids buf p : avoids UseAfterFree (skip_one_space buf p).
Proof. unfold skip_one_space. repeat avoid_step. Qed.
Lemma atoi_at_avoids buf p : avoids UseAfterFree (atoi_at buf p).
Proof. unfold atoi_at. repeat avoid_step. Qed.
Lemma assign_avoids buf p n : avoids UseAfterFree (assign buf p n).
Proof. unfold assign. repeat avoid_step. Qed.
Lemma append_last_avoids str h : avoids UseAfterFree (append_last str h).
Proof. unfold append_last. repeat avoid_step. Qed.
Hint Resolve case_at_avoids skip_one_space_avoids atoi_at_avoids assign_avoids append_last_avoids : avoids.
Lemma scan_step_avoids buf p h : avoids UseAfterFree (scan_step buf p h).
Proof. unfold scan_step. repeat avoid_step. Qed.
Hint Resolve scan_step_avoids : avoids.
Lemma scan_avoids fuel buf p stop h : avoids UseAfterFree (scan fuel buf p stop h).
Proof. revert p h. induction fuel; intros p h; cbn [scan]; [done|]. repeat avoid_step. Qed.
Hint Resolve scan_avoids : avoids.
Lemma parse_header_avoids buf msg len h : avoids UseAfterFree (parse_header buf msg len h).
Proof. unfold parse_header. repeat avoid_step. Qed.
Hint Resolve parse_header_avoids : avoids.
Lemma HandleRecvHttp_avoids fuel buf msg len h : avoids UseAfterFree (HandleRecvHttp fuel buf msg len h).
Proof. revert msg len h. induction fuel as [|fuel IH]; intros msg len h; cbn [HandleRecvHttp]; [done|]. repeat avoid_step. all: apply IH. Qed.

Lemma strchr_avoids f l p c : f ≠ OutOfBounds → avoids f (strchr l p c).
Proof.
  intros Hf. revert p. induction l as [|b l IH]; intros p; cbn [strchr].
  - intros [= <-]. done.
  - destruct (b =? c); [done|]. destruct (b =? 0); [done|]. apply IH.
Qed.
Lemma crlf_avoids l p : avoids UseAfterFree (crlf l p).
Proof.
  revert p. induction l as [|b l IH]; intros p; cbn [crlf]; [done|]. destruct (b =? 0); [done|].
  destruct (b =? CR); [|apply IH]. destruct l; [done|]. destruct (_ =? LF); [done|apply IH].
Qed.

Lemma parse_connect_avoids f buf t : f = UseAfterFree ∨ f = OutOfFuel → avoids f (parse_connect buf t).
Proof.
  intros Hf. unfold parse_connect. apply avoids_bind; [apply strchr_avoids; naive_solver|]. intros a _.
  unfold avoids. destruct Hf as [-> | ->]; case_ifs; repeat (match goal with |- match ?x with _ => _ end ≠ _ => destruct x end); try discriminate.
Qed.

Lemma find_host_avoids fuel buf p stop t : avoids UseAfterFree (find_host fuel buf p stop t).
Proof.
  revert p. induction fuel as [|fuel IH]; intros p; cbn [find_host]; [done|]. unfold host_at, strstr_crlf.
  repeat avoid_step. all: try apply crlf_avoids. all: apply IH.
Qed.

Lemma find_host_fuel fuel buf p stop t : (stop - p < fuel)%nat → avoids OutOfFuel (find_host fuel buf p stop t).
Proof.
  revert p. induction fuel as [|fuel IH]; intros p Hf; [lia|]. cbn [find_host].
  destruct (Nat.ltb_spec p stop); [|done]. apply avoids_bind.
  { unfold host_at. apply avoids_bind; [apply byte_at_fuel|intros b _]. destruct (_ || _); [apply case_at_fuel|done]. }
  intros m _. destruct m; [|apply IH; lia]. apply avoids_bind; [apply strstr_crlf_fuel|]. intros [e|] _.
  - destruct (e <? stop)%nat; [done|apply IH; lia].
  - apply IH. lia.
Qed.

Lemma parse_proxy_avoids f buf len t : f = UseAfterFree ∨ f = OutOfFuel → avoids f (parse_proxy buf len t).
Proof.
  intros Hf. unfold parse_proxy. apply avoids_bind.
  { destruct Hf as [-> | ->]; [apply case_at_avoids|apply case_at_fuel]. }
  intros c _. destruct c; [by apply parse_connect_avoids|]. apply avoids_bind; [|done].
  destruct Hf as [-> | ->]; [apply find_host_avoids|apply find_host_fuel; lia].
Qed.

Lemma HandleRecvHttp_top_avoids f buf len h : f = UseAfterFree ∨ f = OutOfFuel →
  avoids f (HandleRecvHttp_top buf len h).
Proof.
  intros [-> | ->]; [apply HandleRecvHttp_avoids|]. apply HandleRecvHttp_fuel. unfold http_fuel.
  destruct (_ =? 0); lia.
Qed.

End Avoids.

(** What receiving from a browser or a tunnel may fault with: malformed input can
    run past a buffer, dereference a null token or abort, but uses no deleted object
    and no loop runs out of its bound. *)
Definition input_fault (f : fault) : Prop := f ≠ UseAfterFree ∧ f ≠ OutOfFuel.

Section Receive.
Variable accurate : bool.

Lemma soft_forward_down L p len : p ∈ L → soft input_fault L (forward_down p len).
Proof.
  intros Hp. unfold forward_down. apply soft_conn; [done|]. intros c. destruct (peer c) as [q|].
  - apply soft_conn; [left|]. intros d.
    set (L1 := match peer d with Some r => r :: q :: L | None => q :: L end).
    assert (p ∈ L1) by (unfold L1; destruct (peer d); repeat right; done).
    apply soft_bind; [apply soft_send|intros w]. destruct (negb _); [|apply soft_ret].
    apply soft_bind; [soft_walk|intros _]. apply soft_bind; [apply soft_RemoveEvent|intros r].
    destruct (negb _); apply soft_ret.
  - apply soft_bind; [apply soft_lift|intros [h n]].
    + intros f Hf. split; intros ->; revert Hf; apply HandleRecvHttp_top_avoids; auto.
    + soft_walk.
Qed.

(** A read takes bytes from the queue it reads. *)
Lemma read_shrinks fd n s k got s1 : read fd n s = Ok ((k, got), s1) → 0 < k → (waiting fd s1 < waiting fd s)%nat.
Proof.
  unfold read, waiting. change (the_os s) with (sys s). destruct (rx_of fd (sys s)) as [avail eof] eqn:Hrx.
  destruct (Frame.sock_read n avail eof) as [k' got'] eqn:Hs. intros [= -> -> <-] Hk. cbn [fst].
  destruct (Z.ltb_spec 0 k); [|lia]. destruct (Z.ltb_spec k 0); [lia|].
  unfold rx_of, with_os, sdk_os, set. cbn. rewrite lookup_insert_eq. cbn. rewrite length_drop.
  assert (0 < length avail)%nat; [|lia].
  unfold Frame.sock_read in Hs. destruct (n =? 0); [injection Hs as <- <-; lia|].
  destruct avail; [destruct eof; injection Hs as <- <-; lia|cbn; lia].
Qed.

Lemma read_ge fd n s k got s1 : read fd n s = Ok ((k, got), s1) → -1 ≤ k.
Proof.
  unfold read. destruct (rx_of fd (the_os s)) as [avail eof]. unfold Frame.sock_read.
  destruct (n =? 0); [intros [= <- _ _]; lia|]. destruct avail; [destruct eof|]; intros [= <- _ _]; lia.
Qed.

End Receive.

(** ** Receiving from a tunnel *)

Lemma h_and {tl : fault → Prop} {A} (P : sdk → Prop) (m : K A) Q (R : A → Prop) : triple tl P m Q →
  (∀ s a s', m s = Ok (a, s') → R a) → triple tl P m (fun a s => R a ∧ Q a s).
Proof.
  intros Hm HR s Hs. specialize (Hm s Hs). specialize (HR s). destruct (m s) as [[a s']|f]; [|done].
  split; [eauto|done].
Qed.

(** The state of a receive loop on socket [fd] of connection [p] with fewer than
    [n] bytes waiting. *)
Definition recv_inv (p fd : Z) (n : nat) (s : sdk) : Prop := sinv s ∧ live s p ∧ (waiting fd s < n)%nat.

Lemma recv_soft {tl A} p fd n (m : K A) : soft tl [p] m → triple tl (recv_inv p fd n) m (fun _ => recv_inv p fd n).
Proof.
  intros Hm s (Hs & Hl & Hw). specialize (Hm s Hs ltac:(constructor; [done|constructor])).
  destruct (m s) as [[a s']|f]; [|done]. split_and!.
  - eapply soft_rel_sinv; done.
  - eapply shape_live; [apply Hm|done].
  - eapply Nat.le_lt_trans; [apply Hm|done].
Qed.

Lemma recv_conn {tl : fault → Prop} p fd n : triple tl (recv_inv p fd n) (conn p) (fun _ => recv_inv p fd n).
Proof.
  intros s (Hs & Hl & Hw). unfold conn. destruct Hl as [c Hc]. rewrite Hc. split_and!; try done. unfold live. eauto.
Qed.

Lemma recv_read {tl : fault → Prop} p fd n k : triple tl (recv_inv p fd (S n)) (read fd k)
  (fun r s => -1 ≤ r.1 ∧ recv_inv p fd (S n) s ∧ (0 < r.1 → recv_inv p fd n s)).
Proof.
  intros s H. pose proof (recv_soft (tl := tl) p fd (S n) (read fd k) (soft_read _ _ _) s H) as Hr.
  destruct (read fd k s) as [[[len got] s']|f] eqn:E; [|done]. cbn [fst]. split_and!; [by eapply read_ge|done|].
  intros Hk. destruct Hr as (? & ? & ?), H as (? & ? & ?). pose proof (read_shrinks fd k s len got s' E Hk).
  split_and!; try done. lia.
Qed.

Lemma forward_down_value p len s v s' : forward_down p len s = Ok (Some v, s') → -2 ≤ v ≤ 0.
Proof.
  unfold forward_down. intros H. inv_bind H. destruct (peer a) as [q|].
  - inv_bind H. inv_bind H. destruct (negb (a1 =? len)); [|done]. inv_bind H. inv_bind H.
    destruct (negb _); injection H as <- <-; lia.
  - inv_bind H. destruct a0 as [h n]. inv_bind H. inv_bind H. done.
Qed.

Section Loops.
Variable accurate : bool.

Lemma stream_loop_safe p fd n :
  triple input_fault (recv_inv p fd n) (stream_loop accurate n p fd) (fun r s => -2 ≤ r ≤ 0 ∧ sinv s).
Proof.
  assert (p ∈ [p]) as Hin by left. assert (input_fault OutOfBounds) as Hoob by (split; done).
  assert (∀ n (r : Z), -2 ≤ r ≤ 0 → triple (A := Z) input_fault (recv_inv p fd n) (mret r)
    (fun r s => -2 ≤ r ≤ 0 ∧ sinv s)) as Hret by (intros m r Hr s (Hs & _); split; done).
  induction n as [|n IH]; [intros s (_ & _ & Hw); lia|]. cbn [stream_loop].
  eapply h_bind; [apply recv_conn|]. intros c. eapply h_bind; [apply recv_read|]. intros [len got].
  cbn [fst]. apply h_pure. intros Hge. destruct (Z.leb_spec len 0) as [Hle|Hgt].
  { intros s [(Hs & _) _]. split; [lia|exact Hs]. }
  destruct (negb _); [intros s _; done|].
  eapply (h_weaken _ (recv_inv p fd n)); [|intros s [_ H]; exact (H Hgt)|intros a s H; exact H].
  eapply h_bind; [apply recv_soft; soft_walk|intros ?].
  eapply h_bind; [apply recv_soft, soft_add_transmit, Hin|intros ?].
  eapply h_bind; [apply recv_soft, soft_add_cost|intros ?].
  destruct (_ && _).
  { eapply h_bind; [apply recv_soft; soft_walk|intros ?]. apply Hret; lia. }
  eapply h_bind; [apply recv_conn|]. intros c1. destruct (cstate c1).
  - destruct (_ || _); [apply Hret; lia|].
    eapply h_bind; [apply recv_soft; soft_walk|intros ?]. apply IH.
  - eapply h_bind; [apply recv_soft; soft_walk|intros ?].
    eapply h_bind; [apply recv_soft, soft_HandleRecvMsg; done|intros ?]. apply IH.
  - eapply h_bind.
    { apply (h_and _ _ _ (fun r => ∀ v, r = Some v → -2 ≤ v ≤ 0) (recv_soft p fd n _ (soft_forward_down [p] p len Hin))).
      intros s r s' H v ->. eapply forward_down_value, H. }
    intros [v|]; apply h_pure; intros Hv; [|apply IH]. apply Hret. by apply Hv.
  - apply IH.
Qed.

Lemma StreamRecvEvent_safe p : triple input_fault (fun s => sinv s ∧ live s p) (StreamRecvEvent accurate p)
  (fun r s => -2 ≤ r ≤ 0 ∧ sinv s).
Proof.
  intros s (Hs & [c Hc]). unfold StreamRecvEvent. rewrite Hc. apply stream_loop_safe.
  split_and!; [done|unfold live; rewrite Hc; eauto|]. unfold waiting. lia.
Qed.

End Loops.

(** ** Opening a tunnel *)

(** The descriptor that the next [socket] returns is not one that is in use. *)
Definition fresh_next (h : shape) (coming : list Z) : Prop := ∀ k l, coming = k :: l → h_map h !! k = None.

Definition fresh_socket (s : sdk) : Prop := fresh_next (shape_of s) (o_socket (sys s)).

(** A browser's connection. *)
Definition is_proxy (p : Z) (h : shape) : Prop := ∃ k, h_conns h !! p = Some k ∧ k_type k = t_proxy.

(** A browser's connection that has no tunnel yet. *)
Definition unpaired (p : Z) (h : shape) : Prop :=
  ∃ k, h_conns h !! p = Some k ∧ k_type k = t_proxy ∧ k_peer k = None.

Lemma CreateConn_run ip port s : ∃ r s', CreateConn ip port s = Ok (r, s') ∧
  (∀ fd, (waiting fd s' ≤ waiting fd s)%nat) ∧
  match r with
  | None => shape_of s' = shape_of s
  | Some q => ∃ k l c, o_socket (sys s) = k :: l ∧ 0 < k ∧ q = next_conn s ∧
      conns s' = <[q := c]> (conns s) ∧ skel_of c = MkSkel k t_tunnel None ItSingular ∧
      next_conn s' = q + 1 ∧ ConnMap s' = <[k := Some q]> (ConnMap s) ∧
      expire_list s' = expire_list s ∧ recycle_list s' = recycle_list s ∧ blocks s' = blocks s ∧
      next_block s' = next_block s ∧ next_node s' = next_node s
  end.
Proof.
  unfold CreateConn. unfold mbind at 1, M_bind at 1. unfold socket. change (the_os s) with (sys s).
  destruct (o_socket (sys s)) as [|k l] eqn:Ho; [eexists None, _; split; [reflexivity|split; done]|].
  cbv beta iota. destruct (Z.leb_spec k 0); [eexists None, _; split; [reflexivity|split; done]|].
  set (s1 := with_os _ s).
  assert (∃ ret s2, connect k ip port s1 = Ok (ret, s2) ∧ shape_of s2 = shape_of s ∧ conns s2 = conns s ∧
    auth0 s2 = auth0 s ∧ o_rx (sys s2) = o_rx (sys s)) as (ret & s2 & Hc & Hsh & Hcs & Ha0 & Hrx).
  { unfold connect. destruct (o_connect (the_os s1)) as [|[r e] ks]; [eexists _, _; split; [reflexivity|done]|].
    destruct (r <? 0); eexists _, _; split; try reflexivity; done. }
  unfold mbind at 1, M_bind at 1. rewrite Hc. cbv beta iota. unfold mbind at 1, M_bind at 1, errno, gets. cbv beta iota.
  assert (∀ fd, waiting fd s2 = waiting fd s) as Hw by (intros fd; unfold waiting, rx_of; rewrite Hrx; done).
  destruct (_ && _).
  { eexists None, _. split; [reflexivity|]. split; [|exact Hsh]. intros fd. rewrite <- Hw. apply rx_count_delete. }
  unfold shape_of in Hsh. injection Hsh as H1 H2 H3 H4 H5 H6 H7 H8.
  unfold mbind, M_bind, new_conn, modify, set_conn. cbv beta iota zeta. rsimpl. rewrite lookup_insert_eq.
  eexists (Some _), _. split; [reflexivity|]. split; [intros fd; rewrite <- Hw; done|].
  eexists k, l, _. rsimpl. rewrite insert_insert_eq, insert_delete_eq, Hcs, H2, H3.
  split_and!; try done.
Qed.

(** Facts about the shape and the coming descriptors survive. *)
Lemma soft_keep {tl A} (J : shape → list Z → Prop) p fd n (m : K A) : soft tl [p] m →
  triple tl (fun s => recv_inv p fd n s ∧ J (shape_of s) (o_socket (sys s))) m
    (fun _ s => recv_inv p fd n s ∧ J (shape_of s) (o_socket (sys s))).
Proof.
  intros Hm s (Hr & Hj). pose proof (recv_soft p fd n m Hm s Hr) as H1. destruct Hr as (Hs & Hl & _).
  specialize (Hm s Hs ltac:(constructor; [done|constructor])). destruct (m s) as [[a s']|f]; [|done].
  destruct Hm as [E _ E']. split; [done|]. rewrite E, E'. done.
Qed.

(** The tunnel and its link to the browser. *)
Lemma link_run ip port p fd n s : recv_inv p fd n s → unpaired p (shape_of s) → fresh_socket s →
  ∃ v s', (pc ← CreateConn ip port;
           match pc with
           | Some q => set_conn p (fun c => c <| peer := Some q |>);; set_conn q (fun c => c <| peer := Some p |>);; mret 0
           | None => mret (-1)
           end) s = Ok (v, s') ∧ -1 ≤ v ≤ 0 ∧ recv_inv p fd n s' ∧
    (v = 0 → is_proxy p (shape_of s') ∧ ¬ unpaired p (shape_of s')).
Proof.
  intros (Hs & Hl & Hw) (k & Hk & Ht & Hpe) Hf.
  destruct (CreateConn_run ip port s) as (r & s1 & Hr & Hw1 & H1). unfold mbind at 1, M_bind at 1. rewrite Hr.
  destruct r as [q|].
  - destruct H1 as (fdn & l & c & Ho & Hpos & -> & Hc & Hsk & Hn & Hm & E1 & E2 & E3 & E4 & E5).
    destruct Hl as [cp Hcp]. pose proof (sane_fresh _ Hs) as Hfr. cbn in Hfr.
    assert (conns s !! next_conn s = None) as Hnone.
    { rewrite lookup_fmap in Hfr. destruct (conns s !! next_conn s); done. }
    assert (p ≠ next_conn s) as Hne by (intros ->; congruence).
    unfold mbind, M_bind, set_conn. rewrite Hc, lookup_insert_ne, Hcp by done. rsimpl.
    rewrite lookup_insert_ne by done. rewrite lookup_insert_eq.
    set (s' := s1 <| conns := _ |> <| conns := _ |>).
    assert (shape_of s' = link p (next_conn s) fdn k (shape_of s)) as Hsh.
    { unfold s', shape_of, link. rsimpl. cbn [h_conns h_map h_exp h_rec h_blk h_nb h_nn]. f_equal; auto.
      rewrite !fmap_insert. cbn in Hk. rewrite lookup_fmap, Hcp in Hk. injection Hk as <-.
      unfold skel_of in *. injection Hsk as ? ? ? ?. rsimpl.
      rewrite (insert_insert_ne _ p) by done. rewrite insert_insert_eq. f_equal. congruence. }
    assert (h_conns (shape_of s') !! p = Some (MkSkel (k_fd k) (k_type k) (Some (next_conn s)) (k_it k))) as Hp'.
    { rewrite Hsh. cbn. rewrite lookup_insert_ne, lookup_insert_eq by done. done. }
    eexists 0, s'. split; [reflexivity|]. split; [lia|]. split; [split_and!|].
    + unfold sinv. rewrite Hsh. apply (sane_link (shape_of s)); auto. apply (Hf fdn l Ho).
    + unfold live, s'. rsimpl. rewrite lookup_insert_ne by done. rewrite lookup_insert_eq. eauto.
    + eapply Nat.le_lt_trans; [apply Hw1|done].
    + intros _. split; [eexists; split; [exact Hp'|exact Ht]|]. intros (k' & Hk' & _ & Hn').
      rewrite Hp' in Hk'. injection Hk' as <-. done.
  - eexists _, _. split; [reflexivity|]. split; [lia|]. split; [split_and!|done].
    + unfold sinv. rewrite H1. done.
    + eapply shape_live; [exact H1|done].
    + eapply Nat.le_lt_trans; [apply Hw1|done].
Qed.

(** The state of the browser's receive loop: while there is no tunnel, the next
    socket is a fresh one. *)
Definition pairing (p : Z) (h : shape) (coming : list Z) : Prop :=
  is_proxy p h ∧ (unpaired p h → fresh_next h coming).

Definition proxy_inv (p fd : Z) (n : nat) (s : sdk) : Prop :=
  recv_inv p fd n s ∧ pairing p (shape_of s) (o_socket (sys s)).

Lemma proxy_soft {tl A} p fd n (m : K A) : soft tl [p] m → triple tl (proxy_inv p fd n) m (fun _ => proxy_inv p fd n).
Proof. apply (soft_keep (pairing p)). Qed.

(** Reading the connection tells whether it is paired. *)
Lemma proxy_conn {tl : fault → Prop} p fd n : triple tl (proxy_inv p fd n) (conn p)
  (fun c s => proxy_inv p fd n s ∧ (peer c = None → unpaired p (shape_of s)) ∧ ∀ q, peer c = Some q → live s q).
Proof.
  intros s ((Hs & [c Hc] & Hw) & Hp). unfold conn. rewrite Hc.
  assert (h_conns (shape_of s) !! p = Some (skel_of c)) as Hsk by (cbn; rewrite lookup_fmap, Hc; done).
  split_and!.
  - split; [split_and!; try done; unfold live; rewrite Hc; eauto|done].
  - intros Hn. exists (skel_of c). split_and!; auto. destruct Hp as [(k & Hk & Ht) _]. congruence.
  - intros q Hq. destruct (sn_peer _ Hs _ _ q Hsk Hq) as (k' & Hk' & _). cbn in Hk'.
    rewrite lookup_fmap in Hk'. unfold live. destruct (conns s !! q); [eauto|done].
Qed.

Lemma HandleProxyProtocol_safe p fd n len : triple input_fault
  (fun s => proxy_inv p fd n s ∧ unpaired p (shape_of s)) (HandleProxyProtocol p len)
  (fun v s => -2 ≤ v ≤ 0 ∧ recv_inv p fd n s ∧ (v = 0 → proxy_inv p fd n s)).
Proof.
  assert (p ∈ [p]) as Hin by left. assert (input_fault OutOfBounds) as Hoob by (split; done).
  set (J := fun h ks => pairing p h ks ∧ unpaired p h).
  eapply (h_weaken _ (fun s => recv_inv p fd n s ∧ J (shape_of s) (o_socket (sys s))));
    [|intros s ((? & ?) & ?); split; [|split]; done|intros a s H; exact H].
  assert (∀ v, -2 ≤ v < 0 → triple input_fault (fun s => recv_inv p fd n s ∧ J (shape_of s) (o_socket (sys s)))
    (mret v) (fun v s => -2 ≤ v ≤ 0 ∧ recv_inv p fd n s ∧ (v = 0 → proxy_inv p fd n s))) as Hret.
  { intros v Hv s [Hr _]. split; [lia|]. split; [done|]. lia. }
  unfold HandleProxyProtocol.
  eapply (h_bind _ _ _ (fun _ s => recv_inv p fd n s ∧ J (shape_of s) (o_socket (sys s)))); [|intros c].
  { intros s [Hr Hj]. pose proof (recv_conn (tl := input_fault) p fd n s Hr) as H. revert H. unfold conn.
    destruct Hr as (_ & [c Hc] & _). rewrite Hc. intros H. exact (conj H Hj). }
  eapply h_bind; [apply soft_keep, soft_lift|intros t].
  { intros f Hf. split; intros ->; revert Hf; apply parse_proxy_avoids; auto. }
  destruct t as [t|]; [|eapply h_bind; [apply soft_keep; soft_walk|intros ?; apply Hret; lia]].
  eapply h_bind; [apply soft_keep; soft_walk|intros ?]. destruct (t_host t) as [|]; [apply Hret; lia|].
  eapply h_bind; [apply soft_keep, get_setting_soft, Hoob|intros ip].
  eapply h_bind; [apply soft_keep, get_setting_soft, Hoob|intros port].
  destruct ip as [ip|]; [|apply Hret; lia]. destruct port as [port|]; [|apply Hret; lia].
  intros s [Hr [[Hp Hf] Hu]].
  destruct (link_run (Dns.Dns.inet_addr ip) (htons (u16 (i16 (atoll port)))) p fd n s Hr Hu (Hf Hu))
    as (v & s' & Hrun & Hv & Hr' & H0). rewrite Hrun. split; [lia|]. split; [done|].
  intros ->. destruct (H0 eq_refl) as [Hp' Hn']. split; [done|]. split; [done|]. intros Hu'. done.
Qed.

Lemma open_tunnel_safe p fd n len : triple input_fault (proxy_inv p fd n) (open_tunnel p len)
  (fun r s => match r with Some v => -2 ≤ v ≤ 0 ∧ sinv s | None => proxy_inv p fd n s end).
Proof.
  unfold open_tunnel. eapply h_bind; [apply proxy_conn|]. intros c. destruct (peer c) as [q|] eqn:Hpc.
  { intros s (H & _). exact H. }
  eapply h_bind.
  { eapply (h_weaken _ (fun s => proxy_inv p fd n s ∧ unpaired p (shape_of s)));
      [apply HandleProxyProtocol_safe|intros s (H & Hu & _); split; [exact H|exact (Hu Hpc)]|intros a s H; exact H]. }
  intros v. apply h_pure. intros Hv. destruct (Z.eqb_spec v (-1)) as [->|Hne].
  - eapply (h_weaken _ (recv_inv p fd n)); [|intros s [H _]; exact H|intros a s H; exact H].
    eapply h_bind; [apply recv_soft, soft_AckUserFail; left|]. intros ? s (Hs & _). split; [lia|done].
  - destruct (Z.ltb_spec v 0) as [Hlt|Hge].
    + intros s [(Hs & _) _]. split; [lia|done].
    + intros s [_ H]. apply H. lia.
Qed.

(** The part of the loop that needs the tunnel [q] alive. *)
Lemma soft_send_login accurate L p q len : p ∈ L → q ∈ L → soft input_fault L (send_login accurate p q len).
Proof.
  assert (input_fault OutOfBounds) as Hoob by (split; done).
  intros Hp Hq. unfold send_login. apply soft_bind; [soft_walk|intros _].
  do 3 (apply soft_bind; [apply get_setting_soft, Hoob|intros ?]).
  destruct a, a0, a1; try (apply soft_bind; [soft_walk|intros _; apply soft_ret]).
  destruct (32 <=? _); [by apply soft_fail|]. apply soft_conn; [done|]. intros c.
  set (L1 := match peer c with Some r => r :: L | None => L end).
  assert (p ∈ L1 ∧ q ∈ L1) as [Hp1 Hq1] by (unfold L1; destruct (peer c); split; try right; done).
  apply soft_bind; [soft_walk|intros _]. apply soft_conn; [done|]. intros d.
  set (L2 := match peer d with Some r => r :: L1 | None => L1 end).
  assert (q ∈ L2) as Hq2 by (unfold L2; destruct (peer d); try right; done).
  apply soft_bind; [apply soft_gets|intros junk]. apply soft_bind; [apply soft_lift|intros msg].
  { intros f. unfold login_msg. destruct (_ <=? _)%nat; [done|]. intros [= <-]. done. }
  apply soft_bind; [by apply soft_SendTmsMsg|intros _].
  apply soft_bind; [apply soft_AddEvent|intros _]. apply soft_ret.
Qed.

Lemma send_login_value accurate p q len s v s' : send_login accurate p q len s = Ok (Some v, s') → v = -1.
Proof.
  unfold send_login. intros H. do 4 inv_bind H.
  destruct a0, a1, a2; try (inv_bind H; by injection H as <- <-).
  destruct (32 <=? _); [done|]. do 5 inv_bind H. inv_bind H. inv_bind H. done.
Qed.

Section ProxyLoop.
Variable accurate : bool.

Lemma proxy_loop_safe p fd n :
  triple input_fault (proxy_inv p fd n) (proxy_loop accurate n p fd) (fun r s => -2 ≤ r ≤ 0 ∧ sinv s).
Proof.
  assert (p ∈ [p]) as Hin by left. assert (input_fault OutOfBounds) as Hoob by (split; done).
  induction n as [|n IH]; [intros s ((_ & _ & Hw) & _); lia|]. cbn [proxy_loop].
  eapply h_bind; [apply proxy_conn|]. intros c.
  eapply (h_weaken _ (proxy_inv p fd (S n))); [|intros s (H & _); exact H|intros a s H; exact H].
  eapply (h_bind _ _ _ (fun r s => -1 ≤ r.1 ∧ sinv s ∧ (0 < r.1 → proxy_inv p fd n s))).
  { intros s [Hr Hp]. pose proof (recv_read (tl := input_fault) p fd n (stillneedtoread c) s Hr) as H1.
    pose proof (proxy_soft (tl := input_fault) p fd (S n) _ (soft_read [p] fd (stillneedtoread c)) s (conj Hr Hp)) as H2.
    destruct (read fd _ s) as [[[len got] s']|f]; [|done]. destruct H1 as (? & ? & ?), H2 as [(? & _) ?].
    split_and!; try done. intros. split; auto. }
  intros [len got]. cbn [fst]. apply h_pure. intros Hge. destruct (Z.leb_spec len 0) as [Hle|Hgt].
  { intros s [Hs _]. split; [lia|exact Hs]. }
  destruct (negb _); [intros s _; done|].
  eapply (h_weaken _ (proxy_inv p fd n)); [|intros s [_ H]; exact (H Hgt)|intros a' s H; exact H].
  eapply h_bind; [apply proxy_soft; soft_walk|intros ?].
  eapply h_bind; [apply open_tunnel_safe|]. intros [v|]; [intros s H; exact H|].
  eapply h_bind; [apply proxy_conn|]. intros c1. destruct (peer c1) as [q|] eqn:Hq.
  2: { eapply h_weaken; [exact IH|intros s (H & _); exact H|intros a' s H; exact H]. }
  (* with the tunnel *)
  assert (∀ A (m : K A), soft input_fault [q; p] m →
    triple input_fault (fun s => proxy_inv p fd n s ∧ live s q) m (fun _ s => proxy_inv p fd n s ∧ live s q)) as Hpair.
  { intros A m Hm s [[(Hs & Hl & Hw) Hp] Hlq].
    specialize (Hm s Hs ltac:(repeat (constructor; try done))). destruct (m s) as [[x s']|f]; [|done].
    split; [split; [split_and!|]|].
    - eapply soft_rel_sinv; done.
    - eapply shape_live; [apply Hm|done].
    - eapply Nat.le_lt_trans; [apply Hm|done].
    - destruct Hm as [E _ E']. rewrite E, E'. done.
    - eapply shape_live; [apply Hm|done]. }
  eapply (h_weaken _ (fun s => proxy_inv p fd n s ∧ live s q));
    [|intros s (H & _ & Hl); split; [exact H|by apply Hl]|intros a' s H; exact H].
  assert (triple input_fault (fun s => proxy_inv p fd n s ∧ live s q) (proxy_loop accurate n p fd)
    (fun r s => -2 ≤ r ≤ 0 ∧ sinv s)) as IH'.
  { eapply h_weaken; [exact IH|intros s (H & _); exact H|intros a' s H; exact H]. }
  eapply (h_bind _ _ _ (fun _ s => proxy_inv p fd n s ∧ live s q)).
  { intros s [H [d Hd]]. unfold conn. rewrite Hd. split; [done|]. unfold live. eauto. }
  intros d. destruct (sock_fd d =? 0); [exact IH'|]. destruct (negb (verified d =? 0)).
  - eapply h_bind; [apply Hpair, soft_send|]. intros ?. exact IH'.
  - eapply h_bind.
    { apply (h_and _ _ _ (fun r => ∀ v, r = Some v → v = -1)
        (Hpair _ _ (soft_send_login accurate [q; p] p q len ltac:(right; left) ltac:(left)))).
      intros s r s' H v ->. eapply send_login_value, H. }
    intros r. apply h_pure. intros Hr. destruct r as [v|]; [|exact IH'].
    intros s [[(Hs & _) _] _]. specialize (Hr v eq_refl). split; [lia|done].
Qed.

Lemma ProxyRecvEvent_safe p : triple input_fault
  (fun s => sinv s ∧ is_proxy p (shape_of s) ∧ fresh_socket s) (ProxyRecvEvent accurate p)
  (fun r s => -2 ≤ r ≤ 0 ∧ sinv s).
Proof.
  intros s (Hs & Hp & Hf). unfold ProxyRecvEvent. destruct Hp as (k & Hk & Ht). pose proof Hk as Hk'.
  cbn in Hk'. rewrite lookup_fmap in Hk'. destruct (conns s !! p) as [c|] eqn:Hc; [|done].
  apply proxy_loop_safe. split; [split_and!|].
  - done.
  - unfold live. rewrite Hc. eauto.
  - unfold waiting. lia.
  - split; [exists k; done|]. intros _. exact Hf.
Qed.

End ProxyLoop.

(** ** Removing connections *)

(** Everything of the memory but the operating system. *)
Definition mem (s : sdk) := (conns s, ConnMap s, (next_conn s, expire_list s, recycle_list s, blocks s, next_block s, next_node s)).

Lemma mem_shape s s' : mem s' = mem s → shape_of s' = shape_of s.
Proof. unfold mem, shape_of. congruence. Qed.

Lemma ctl_mem op fd e s : ∃ r s', ctl op fd e s = Ok (r, s') ∧ mem s' = mem s.
Proof.
  unfold ctl, mbind, M_bind, gets. destruct (_ || _); [eauto|]. unfold epoll_ctl.
  destruct (o_ctl (the_os s)); [|destruct (_ <? 0)]; destruct (_ =? -1); eexists _, _; split; reflexivity.
Qed.

(** The destructor's work on the descriptor. *)
Lemma unplug_mem fd s : ∃ s', (if 0 <? fd then _ ← RemoveEvent fd YM_EV_RD; shutdown fd else mret tt) s = Ok (tt, s') ∧
  mem s' = mem s.
Proof.
  destruct (0 <? fd); [|eexists; split; reflexivity]. unfold mbind at 1, M_bind at 1.
  destruct (ctl_mem EPOLL_CTL_DEL fd (ym_events YM_EV_RD) s) as (r & s1 & Hr & Hm). unfold RemoveEvent. rewrite Hr.
  eexists. split; [reflexivity|]. rewrite <- Hm. done.
Qed.

Lemma delete_tunnel_run q d s : conns s !! q = Some d → type d ≠ t_proxy → ∃ s',
  delete_conn q s = Ok (tt, s') ∧ mem s' = mem (s <| conns := delete q (conns s) |>).
Proof.
  intros Hd Ht. unfold delete_conn. unfold mbind at 1, M_bind at 1. unfold conn. rewrite Hd.
  destruct (unplug_mem (sock_fd d) s) as (s1 & H1 & Hm). unfold mbind at 1, M_bind at 1. rewrite H1.
  destruct (Z.eqb_spec (type d) t_proxy); [done|]. unfold mbind, M_bind, mret, M_ret, free_conn.
  unfold mem in Hm. injection Hm as E1 E2 E3 E4 E5 E6 E7 E8. rewrite E1, Hd. eexists. split; [reflexivity|].
  unfold mem. rsimpl. congruence.
Qed.

Lemma delete_proxy_run p c n b x s : conns s !! p = Some c → type c = t_proxy → crb_it c = ItNode n →
  block_of n (expire_list s) = Some b → blocks s !! b = Some x → b_conn x = Some p → ∃ s',
  delete_conn p s = Ok (tt, s') ∧
  mem s' = mem (s <| conns := delete p (conns s) |> <| expire_list := filter (fun x => x.1 ≠ n) (expire_list s) |>
                  <| recycle_list := recycle_list s ++ [b] |> <| blocks := <[b := crb_Reset]> (blocks s) |>).
Proof.
  intros Hc Ht Hit Hb Hx Hxp. unfold delete_conn. unfold mbind at 1, M_bind at 1. unfold conn. rewrite Hc.
  destruct (unplug_mem (sock_fd c) s) as (s1 & H1 & Hm). unfold mbind at 1, M_bind at 1. rewrite H1.
  rewrite Ht. change (t_proxy =? t_proxy) with true. cbv iota. rewrite Hit.
  unfold mem in Hm. injection Hm as E1 E2 E3 E4 E5 E6 E7 E8.
  unfold CRBDelete. rewrite decide_False by done.
  unfold mbind, M_bind, deref_it, block. rewrite E4, Hb, E6, Hx, Hxp. unfold conn. rewrite E1, Hc.
  rewrite decide_False by (rewrite Hit; done).
  unfold set_conn, modify, set_block, erase_it, free_conn, mret, M_ret. rewrite E1, Hc. rsimpl.
  rewrite E6, Hx. cbv beta iota. rsimpl. rewrite E4, Hb. cbv beta iota. rsimpl. rewrite lookup_insert_eq.
  eexists. split; [reflexivity|]. unfold mem. rsimpl. rewrite delete_insert_eq. congruence.
Qed.

(** Removing a browser's connection [p], with its tunnel if it has one. *)
Definition drop_browser (p n b : Z) (c : Connect) (s : sdk) : sdk :=
  let m := match peer c with Some q => delete q (conns s) | None => conns s end in
  let t := match peer c ≫= (fun q => conns s !! q) with Some d => delete (sock_fd d) (ConnMap s) | None => ConnMap s end in
  s <| conns := delete p m |> <| ConnMap := delete (sock_fd c) t |>
    <| expire_list := filter (fun x => x.1 ≠ n) (expire_list s) |>
    <| recycle_list := recycle_list s ++ [b] |> <| blocks := <[b := crb_Reset]> (blocks s) |>.

Lemma sinv_conn s p c : sinv s → conns s !! p = Some c → h_conns (shape_of s) !! p = Some (skel_of c).
Proof. intros _ Hc. cbn. rewrite lookup_fmap, Hc. done. Qed.

Lemma sinv_peer s p c q : sinv s → conns s !! p = Some c → peer c = Some q →
  ∃ d, conns s !! q = Some d ∧ peer d = Some p ∧ type d ≠ type c.
Proof.
  intros Hs Hc Hq. destruct (sn_peer _ Hs _ _ q (sinv_conn s p c Hs Hc) Hq) as (k & Hk & Hp & Ht).
  cbn in Hk. rewrite lookup_fmap in Hk. destruct (conns s !! q) as [d|]; [|done]. injection Hk as <-. eauto.
Qed.

Lemma sinv_node s p c : sinv s → conns s !! p = Some c → type c = t_proxy → ∃ n b x,
  crb_it c = ItNode n ∧ (n, b) ∈ expire_list s ∧ block_of n (expire_list s) = Some b ∧
  blocks s !! b = Some x ∧ b_conn x = Some p ∧ b_fd x = sock_fd c.
Proof.
  intros Hs Hc Ht. destruct (sn_node _ Hs _ _ (sinv_conn s p c Hs Hc) Ht) as (n & b & x & H1 & H2 & H3 & H4 & H5).
  exists n, b, x. split_and!; auto. apply block_of_in; [apply Hs|done].
Qed.

Lemma sinv_drop s p c n b s' : sinv s → conns s !! p = Some c → type c = t_proxy → crb_it c = ItNode n →
  (n, b) ∈ expire_list s → mem s' = mem (drop_browser p n b c s) → sinv s'.
Proof.
  intros Hs Hc Ht Hit Hnb Hm. unfold sinv. rewrite (mem_shape _ _ Hm). clear Hm s'.
  pose proof (sinv_conn s p c Hs Hc) as Hk.
  apply (sane_drop (shape_of s) _ p (skel_of c) n b); auto.
  - intros r k'. cbn [h_conns shape_of k_peer skel_of]. unfold drop_browser. rsimpl. rewrite !lookup_fmap.
    destruct (decide (r = p)) as [->|Hne]; [rewrite lookup_delete_eq; split; [done|naive_solver]|].
    rewrite lookup_delete_ne by done. destruct (peer c) as [q|].
    + destruct (decide (r = q)) as [->|]; [rewrite lookup_delete_eq; split; [done|naive_solver]|].
      rewrite lookup_delete_ne by done. naive_solver.
    + naive_solver.
  - intros fd o. cbn [h_map shape_of k_peer skel_of]. unfold drop_browser. rsimpl. rewrite lookup_delete_Some.
    destruct (sn_conn _ Hs _ _ Hk) as (Hmp & _). cbn in Hmp.
    assert (∀ fd o r d, ConnMap s !! fd = Some o → conns s !! r = Some d → (sock_fd d ≠ fd ↔ o ≠ Some r)) as Hinj.
    { intros fd' o' r d Ho Hd. destruct (sn_conn _ Hs _ _ (sinv_conn s r d Hs Hd)) as (Hmr & _). cbn in Hmr.
      destruct (sn_map _ Hs fd' o' Ho) as (r' & k' & -> & Hr' & Hf'). cbn in Hr'. rewrite lookup_fmap in Hr'.
      destruct (conns s !! r') as [d'|] eqn:Hd'; [|done]. injection Hr' as <-. cbn in Hf'. split.
      - intros Hne [= ->]. congruence.
      - intros Hne Heq. congruence. }
    destruct (peer c) as [q|] eqn:Hq.
    + destruct (sinv_peer s p c q Hs Hc Hq) as (d & Hd & _). cbn [option_bind mbind]. rewrite Hd.
      rewrite lookup_delete_Some. split.
      * intros (H1 & H2 & Ho). split; [done|]. split; [apply (Hinj fd o p c Ho Hc); done|].
        apply (Hinj fd o q d Ho Hd). done.
      * intros (Ho & H1 & H2). split; [apply (Hinj fd o p c Ho Hc); done|].
        split; [apply (Hinj fd o q d Ho Hd); done|done].
    + cbn [option_bind mbind]. split.
      * intros (H1 & Ho). split; [done|]. split; [apply (Hinj fd o p c Ho Hc); done|].
        destruct (sn_map _ Hs fd o Ho) as (r' & k' & -> & _). done.
      * intros (Ho & H1 & _). split; [apply (Hinj fd o p c Ho Hc); done|done].
Qed.

Lemma RemoveConnect_absent fd s : ConnMap s !! fd = None → ∃ v s', RemoveConnect fd s = Ok (v, s') ∧ mem s' = mem s.
Proof.
  intros Hfd. unfold RemoveConnect. destruct (_ <? 0); [eexists _, _; split; reflexivity|].
  unfold mbind at 1, M_bind at 1, gets. rewrite Hfd.
  destruct (ctl_mem EPOLL_CTL_DEL fd (ym_events YM_EV_RD) s) as (r & s1 & Hr & Hm).
  unfold mbind, M_bind, RemoveEvent. rewrite Hr. eexists _, _. split; [reflexivity|]. rewrite <- Hm. done.
Qed.

Lemma RemoveConnect_proxy fd p c n b x s : 0 < fd → ConnMap s !! fd = Some (Some p) → conns s !! p = Some c →
  type c = t_proxy → sock_fd c = fd → crb_it c = ItNode n → block_of n (expire_list s) = Some b →
  blocks s !! b = Some x → b_conn x = Some p →
  (∀ q, peer c = Some q → q ≠ p ∧ ∃ d, conns s !! q = Some d ∧ type d ≠ t_proxy) →
  ∃ s', RemoveConnect fd s = Ok (0, s') ∧ mem s' = mem (drop_browser p n b c s).
Proof.
  intros Hpos Hfd Hc Ht Hsf Hit Hb Hx Hxp Hpeer. unfold RemoveConnect. destruct (Z.ltb_spec fd 0); [lia|].
  unfold mbind at 1, M_bind at 1, gets. rewrite Hfd. unfold mbind at 1, M_bind at 1, nonnull, mret, M_ret.
  unfold mbind at 1, M_bind at 1. unfold conn at 1. rewrite Hc. rewrite Ht. change (t_proxy =? t_proxy) with true. cbv iota.
  set (c' := c <| status := sta_disconnected |>). set (s1 := s <| conns := <[p := c']> (conns s) |>).
  destruct (peer c) as [q|] eqn:Hq.
  - destruct (Hpeer q eq_refl) as (Hne & d & Hd & Htd).
    assert (conns s1 !! q = Some d) as Hd1 by (unfold s1; rsimpl; rewrite lookup_insert_ne by done; done).
    set (s2 := s1 <| ConnMap := delete (sock_fd d) (ConnMap s1) |>).
    destruct (delete_tunnel_run q d s2 Hd1 Htd) as (s3 & H3 & M3). unfold mem in M3.
    injection M3 as E1 E2 E3 E4 E5 E6 E7 E8. revert E1 E2 E3 E4 E5 E6 E7 E8. unfold s2, s1. rsimpl. intros E1 E2 E3 E4 E5 E6 E7 E8.
    set (s4 := s3 <| ConnMap := delete (sock_fd c') (ConnMap s3) |>).
    assert (conns s3 !! p = Some c') as Hc3 by (rewrite E1, lookup_delete_ne, lookup_insert_eq by done; done).
    destruct (delete_proxy_run p c' n b x s4) as (s5 & H5 & M5); try done.
    { unfold s4. rsimpl. rewrite E4. done. } { unfold s4. rsimpl. rewrite E6. done. }
    unfold mbind, M_bind, conn, set_conn, erase_map, modify. rewrite Hd, Hc. fold c' s1. rewrite Hd1. fold s2.
    rewrite H3, Hc3. fold s4. rewrite H5. eexists. split; [reflexivity|].
    unfold mem in M5. injection M5 as F1 F2 F3 F4 F5 F6 F7 F8.
    revert F1 F2 F3 F4 F5 F6 F7 F8. unfold s4. rsimpl. intros F1 F2 F3 F4 F5 F6 F7 F8.
    unfold mem, drop_browser. rsimpl. rewrite Hq. cbn [mbind option_bind]. rewrite Hd.
    rewrite F1, F2, F3, F4, F5, F6, F7, F8, E1, E2, E3, E4, E5, E6, E7, E8.
    rewrite (delete_insert_ne _ q p), delete_insert_eq by done. done.
  - set (s4 := s1 <| ConnMap := delete (sock_fd c') (ConnMap s1) |>).
    assert (conns s1 !! p = Some c') as Hc3 by (unfold s1; rsimpl; apply lookup_insert_eq).
    destruct (delete_proxy_run p c' n b x s4) as (s5 & H5 & M5); try done.
    unfold mbind, M_bind, conn, set_conn, erase_map, modify. rewrite Hc. fold c' s1. rewrite Hc3. fold s4. rewrite H5.
    eexists. split; [reflexivity|]. unfold mem in M5. injection M5 as F1 F2 F3 F4 F5 F6 F7 F8.
    revert F1 F2 F3 F4 F5 F6 F7 F8. unfold s4, s1. rsimpl. intros F1 F2 F3 F4 F5 F6 F7 F8.
    unfold mem, drop_browser. rsimpl. rewrite Hq. cbn [mbind option_bind].
    rewrite F1, F2, F3, F4, F5, F6, F7, F8. rewrite delete_insert_eq. done.
Qed.

Lemma RemoveConnect_tunnel fd q d p c n b x s : 0 < fd → ConnMap s !! fd = Some (Some q) → conns s !! q = Some d →
  type d ≠ t_proxy → sock_fd d = fd → peer d = Some p → conns s !! p = Some c → type c = t_proxy → peer c = Some q →
  p ≠ q → crb_it c = ItNode n → block_of n (expire_list s) = Some b → blocks s !! b = Some x → b_conn x = Some p →
  ∃ s', RemoveConnect fd s = Ok (0, s') ∧ mem s' = mem (drop_browser p n b c s).
Proof.
  intros Hpos Hfd Hd Htd Hsf Hpd Hc Ht Hpc Hne Hit Hb Hx Hxp. unfold RemoveConnect. destruct (Z.ltb_spec fd 0); [lia|].
  unfold mbind at 1, M_bind at 1, gets. rewrite Hfd. unfold mbind at 1, M_bind at 1, nonnull, mret, M_ret.
  unfold mbind at 1, M_bind at 1. unfold conn at 1. rewrite Hd.
  destruct (Z.eqb_spec (type d) t_proxy); [done|].
  set (d' := d <| status := sta_disconnected |>). set (s1 := s <| conns := <[q := d']> (conns s) |>).
  assert (conns s1 !! p = Some c) as Hc1 by (unfold s1; rsimpl; rewrite lookup_insert_ne by done; done).
  set (s2 := s1 <| ConnMap := delete (sock_fd c) (ConnMap s1) |>).
  destruct (delete_proxy_run p c n b x s2) as (s3 & H3 & M3); try done.
  unfold mem in M3. injection M3 as E1 E2 E3 E4 E5 E6 E7 E8.
  revert E1 E2 E3 E4 E5 E6 E7 E8. unfold s2, s1. rsimpl. intros E1 E2 E3 E4 E5 E6 E7 E8.
  assert (conns s3 !! q = Some d') as Hd3 by (rewrite E1, lookup_delete_ne, lookup_insert_eq by done; done).
  set (s4 := s3 <| ConnMap := delete (sock_fd d') (ConnMap s3) |>).
  destruct (delete_tunnel_run q d' s4 Hd3) as (s5 & H5 & M5); [done|].
  unfold mbind, M_bind, conn, set_conn, erase_map, modify. rewrite Hd. fold d' s1. rewrite Hpd, Hc1, Ht.
  change (t_proxy =? t_proxy) with true. cbv beta iota. rewrite Hc1. fold s2. rewrite H3, Hd3. fold s4. rewrite H5.
  eexists. split; [reflexivity|]. unfold mem in M5. injection M5 as F1 F2 F3 F4 F5 F6 F7 F8.
  revert F1 F2 F3 F4 F5 F6 F7 F8. unfold s4. rsimpl. intros F1 F2 F3 F4 F5 F6 F7 F8.
  unfold mem, drop_browser. rsimpl. rewrite Hpc. cbn [mbind option_bind]. rewrite Hd.
  rewrite F1, F2, F3, F4, F5, F6, F7, F8, E1, E2, E3, E4, E5, E6, E7, E8.
  rewrite (delete_delete _ q p), delete_insert_eq. rewrite (delete_delete _ (sock_fd d') (sock_fd c)). done.
Qed.

(** Removing by descriptor never faults; either nothing is removed, or a browser
    with its tunnel. *)
Lemma RemoveConnect_safe fd s : sinv s → ∃ v s', RemoveConnect fd s = Ok (v, s') ∧ sinv s' ∧
  (mem s' = mem s ∨ ∃ p c n b, conns s !! p = Some c ∧ type c = t_proxy ∧ crb_it c = ItNode n ∧
     (n, b) ∈ expire_list s ∧ mem s' = mem (drop_browser p n b c s)).
Proof.
  intros Hs. destruct (ConnMap s !! fd) as [o|] eqn:Hfd.
  2: { destruct (RemoveConnect_absent fd s Hfd) as (v & s' & Hr & Hm). exists v, s'. split_and!; auto.
       unfold sinv. rewrite (mem_shape _ _ Hm). done. }
  destruct (sn_map _ Hs fd o Hfd) as (p & k & -> & Hk & Hkf). pose proof Hk as Hk'. cbn in Hk'.
  rewrite lookup_fmap in Hk'. destruct (conns s !! p) as [c|] eqn:Hc; [|done]. injection Hk' as <-. cbn in Hkf.
  destruct (sn_conn _ Hs _ _ Hk) as (_ & Hpos & _ & Hty). cbn in Hpos, Hty.
  destruct Hty as [Ht|Ht].
  - destruct (sinv_node s p c Hs Hc Ht) as (n & b & x & Hit & Hin & Hb & Hx & Hxp & _).
    destruct (RemoveConnect_proxy fd p c n b x s) as (s' & Hr & Hm); auto.
    + lia.
    + intros q Hq. destruct (sinv_peer s p c q Hs Hc Hq) as (d & Hd & Hpd & Htd). split.
      * intros ->. congruence.
      * exists d. split; [done|]. congruence.
    + exists 0, s'. split; [done|]. split; [eapply sinv_drop; eauto|]. right. exists p, c, n, b. auto.
  - destruct (sn_tunnel _ Hs _ _ Hk Ht) as [q Hq]. cbn in Hq.
    destruct (sinv_peer s p c q Hs Hc Hq) as (d & Hd & Hpd & Htd).
    destruct (sn_conn _ Hs _ _ (sinv_conn s q d Hs Hd)) as (_ & _ & _ & Htyd). cbn in Htyd.
    destruct Htyd as [Htq|Htq]; [|congruence].
    destruct (sinv_node s q d Hs Hd Htq) as (n & b & x & Hit & Hin & Hb & Hx & Hxp & _).
    destruct (RemoveConnect_tunnel fd p c q d n b x s) as (s' & Hr & Hm); auto.
    + lia.
    + intros Heq. rewrite Ht in Heq. done.
    + intros ->. congruence.
    + exists 0, s'. split; [done|]. split; [eapply sinv_drop; eauto|]. right. exists q, d, n, b. auto.
Qed.

(** ** Accepting a browser *)

Lemma in_window_mem s : ∃ b s', in_window s = Ok (b, s') ∧ mem s' = mem s ∧ auth0 s' = auth0 s.
Proof.
  unfold in_window, mbind, M_bind, gettimeofday, gets, modify. destruct (time_window s =? 0); [eauto|].
  destruct (MINUTE * 5 <? now_us (o_now (the_os s)) - accept_begin_time s);
    eexists _, _; (split; [reflexivity|split; reflexivity]).
Qed.

(** The new state in terms of its fields. *)
Lemma enter_sane fd b x s s' : sinv s → ConnMap s !! fd = None → 0 < fd →
  b_conn x = Some (next_conn s) → b_fd x = fd → b < next_block s' → next_block s ≤ next_block s' →
  b ∉ (expire_list s).*2 ++ recycle_list s' →
  (expire_list s).*2 ++ recycle_list s' ⊆+ (expire_list s).*2 ++ recycle_list s →
  (∃ c, conns s' = <[next_conn s := c]> (conns s) ∧ skel_of c = MkSkel fd t_proxy None (ItNode (next_node s))) →
  next_conn s' = next_conn s + 1 → ConnMap s' = <[fd := Some (next_conn s)]> (ConnMap s) →
  expire_list s' = expire_list s ++ [(next_node s, b)] → next_node s' = next_node s + 1 →
  (∀ b', b' ≠ b → is_Some (blocks s !! b') → blocks s' !! b' = blocks s !! b') → blocks s' !! b = Some x →
  sinv s'.
Proof.
  intros Hs Hfd Hpos Hx Hxf Hb Hnb Hbn Hsub (c & Hc & Hsk) E2 E3 E4 E5 E6 E7.
  apply (sane_accept (shape_of s) (shape_of s') fd b x); try assumption.
  unfold shape_of. cbn [h_conns h_next h_nn]. rewrite Hc, fmap_insert, Hsk. reflexivity.
Qed.

(** A block for a new node, taken from the recycled ones when there is one. *)
Lemma CRBNew_run s : sinv s → ∃ b s', CRBNew s = Ok (next_node s, s') ∧
  conns s' = conns s ∧ ConnMap s' = ConnMap s ∧ next_conn s' = next_conn s ∧
  expire_list s' = expire_list s ++ [(next_node s, b)] ∧ next_node s' = next_node s + 1 ∧
  b < next_block s' ∧ next_block s ≤ next_block s' ∧
  b ∉ (expire_list s).*2 ++ recycle_list s' ∧
  (expire_list s).*2 ++ recycle_list s' ⊆+ (expire_list s).*2 ++ recycle_list s ∧
  is_Some (blocks s' !! b) ∧ (∀ b', b' ≠ b → blocks s' !! b' = blocks s !! b').
Proof.
  intros Hs. pose proof (sn_blocks _ Hs) as Hbs. pose proof (sn_block _ Hs) as Hbl. cbn in Hbs, Hbl.
  unfold CRBNew. destruct (recycle_list s) as [|b l] eqn:Hrec.
  - exists (next_block s). eexists. split; [reflexivity|]. rsimpl. rewrite Hrec. split_and!; try done; try lia.
    + intros Hin. destruct (Hbl (next_block s) Hin) as [_ Hlt]. lia.
    + rewrite lookup_insert_eq. eauto.
    + intros b' Hb'. rewrite lookup_insert_ne by done. done.
  - exists b. eexists. split; [reflexivity|]. rsimpl.
    destruct (Hbl b) as [Hsome Hlt]; [apply elem_of_app; right; left|].
    rewrite <- Permutation_middle in Hbs. apply NoDup_cons in Hbs as [Hb1 Hb2]. split_and!; try done; try lia.
    rewrite <- Permutation_middle. apply submseteq_cons. done.
Qed.

Lemma block_of_snoc n b l : n ∉ l.*1 → block_of n (l ++ [(n, b)]) = Some b.
Proof.
  induction l as [|[m b'] l IH]; cbn [block_of app]; [rewrite Z.eqb_refl; done|].
  rewrite fmap_cons, not_elem_of_cons. cbn. intros [Hne Hn]. destruct (Z.eqb_spec m n); [congruence|]. auto.
Qed.

(** The table, the connection and the block of a browser on descriptor [fd]. *)
Lemma enter_run fd s : sinv s → ConnMap s !! fd = None → 0 < fd → ∃ s',
  (p ← new_conn;
   set_conn p (fun c => c <| sock_fd := fd |>);;
   modify (fun s => s <| ConnMap := <[fd := Some p]> (ConnMap s) |>);;
   set_conn p (fun c => c <| stillneedtoread := RBUF |> <| type := t_proxy |>);;
   enter_block p fd;;
   modify (fun s => s <| ConnCount := ConnCount s + 1 |>);;
   mret fd) s = Ok (fd, s') ∧ sinv s'.
Proof.
  intros Hs Hfd Hpos. unfold mbind at 1, M_bind at 1, new_conn.
  unfold mbind at 1, M_bind at 1, set_conn at 1. rsimpl. rewrite lookup_insert_eq, insert_insert_eq.
  unfold mbind at 1, M_bind at 1, modify at 1. unfold mbind at 1, M_bind at 1, set_conn at 1. rsimpl.
  rewrite lookup_insert_eq, insert_insert_eq. set (p := next_conn s). set (c := _ <| type := t_proxy |>).
  set (s1 := _ <| conns := <[p := c]> (conns s) |>).
  assert (∃ b s2, CRBNew s1 = Ok (next_node s, s2) ∧
    conns s2 = <[p := c]> (conns s) ∧ ConnMap s2 = <[fd := Some p]> (ConnMap s) ∧ next_conn s2 = p + 1 ∧
    expire_list s2 = expire_list s ++ [(next_node s, b)] ∧ next_node s2 = next_node s + 1 ∧
    b < next_block s2 ∧ next_block s ≤ next_block s2 ∧ b ∉ (expire_list s).*2 ++ recycle_list s2 ∧
    (expire_list s).*2 ++ recycle_list s2 ⊆+ (expire_list s).*2 ++ recycle_list s ∧
    is_Some (blocks s2 !! b) ∧ (∀ b', b' ≠ b → blocks s2 !! b' = blocks s !! b'))
    as (b & s2 & Hnew & E1 & E2 & E3 & E4 & E5 & E6 & E7 & E8 & E9 & [x Hx] & E10).
  { destruct (CRBNew_run s Hs) as (b & s2 & Hnew & E1 & E2 & E3 & E4 & E5 & E6 & E7 & E8 & E9 & E10 & E11).
    exists b. unfold CRBNew in *. change (recycle_list s1) with (recycle_list s).
    destruct (recycle_list s); injection Hnew as <-; eexists; (split; [reflexivity|]); rsimpl in E4; auto 20. }
  unfold mbind at 1, M_bind at 1, enter_block. unfold mbind at 1, M_bind at 1. rewrite Hnew.
  unfold mbind at 1, M_bind at 1, set_conn. rewrite E1, lookup_insert_eq.
  unfold mbind at 1, M_bind at 1, deref_it. rsimpl. rewrite E4, block_of_snoc.
  2: { intros ([m b'] & Hm & Hin)%list_elem_of_fmap. cbn in Hm. subst m.
       pose proof (sn_node_lt _ Hs _ _ Hin). cbn in *. lia. }
  unfold mbind, M_bind, gettimeofday, gets, set_block. rsimpl. rewrite Hx. unfold modify. eexists. split; [reflexivity|].
  apply (enter_sane fd b (x <| b_fd := fd |> <| b_conn := Some p |> <| b_tv := o_now (the_os (s2 <| conns := <[p := c <| crb_it := ItNode (next_node s) |>]> (<[p := c]> (conns s)) |>)) |>) s); try assumption; try reflexivity; rsimpl; try assumption.
  - eexists. split; [rewrite insert_insert_eq; reflexivity|reflexivity].
  - intros b' Hb' _. rewrite lookup_insert_ne by done. auto.
  - rewrite lookup_insert_eq. reflexivity.
Qed.

Lemma HandleAcceptEvent_safe s : sinv s → fresh_next (shape_of s) (o_accept (sys s)) →
  ∃ v s', HandleAcceptEvent s = Ok (v, s') ∧ sinv s'.
Proof.
  intros Hs Hf. unfold HandleAcceptEvent. unfold mbind at 1, M_bind at 1. unfold accept. change (the_os s) with (sys s).
  destruct (o_accept (sys s)) as [|k l] eqn:Ho; [eexists _, _; split; [reflexivity|exact Hs]|]. cbv beta iota.
  destruct (Z.ltb_spec 0 k); [|eexists _, _; split; [reflexivity|exact Hs]].
  set (s0 := with_os _ s). destruct (in_window_mem s0) as (ok & s1 & Hw & Hm & _).
  unfold mbind at 1, M_bind at 1. rewrite Hw. assert (sinv s1) as Hs1 by (unfold sinv; rewrite (mem_shape _ _ Hm); exact Hs).
  destruct ok; cbn [negb]; [|eexists _, _; split; [reflexivity|exact Hs1]].
  assert (ConnMap s1 !! k = None) as Hk.
  { assert (ConnMap s1 = ConnMap s) as -> by (unfold mem in Hm; injection Hm; done). apply (Hf k l eq_refl). }
  unfold mbind at 1, M_bind at 1, gets. rewrite Hk.
  destruct (enter_run k s1 Hs1 Hk ltac:(done)) as (s' & Hr & Hs'). eauto.
Qed.

(** ** The events *)

Lemma HandleEPOEvent_safe fd s : sinv s → is_Some (ConnMap s !! fd) →
  match HandleEPOEvent fd s with Ok (v, s') => sinv s' ∧ v ≠ -1 | Bad f => f = OutOfBounds end.
Proof.
  intros Hs [o Ho]. destruct (sn_map _ Hs fd o Ho) as (p & k & -> & Hk & _). cbn in Hk. rewrite lookup_fmap in Hk.
  destruct (conns s !! p) as [c|] eqn:Hc; [|done]. unfold HandleEPOEvent, mbind, M_bind, gets. rewrite Ho.
  rewrite decide_False by done. unfold mret, M_ret, conn. rewrite Hc.
  destruct (peer c) as [q|] eqn:Hq; [|split; done]. destruct (sinv_peer s p c q Hs Hc Hq) as (d & Hd & _). rewrite Hd.
  destruct (status d =? sta_hangup); [|split; done]. destruct (negb _); [split; done|].
  assert (soft (fun f => f = OutOfBounds) [p; q] (flush_down p q fd)) as Hsoft.
  { apply soft_flush_down; [done|left|right; left]. }
  specialize (Hsoft s Hs). assert (Forall (live s) [p; q]) as Hl.
  { repeat (constructor; [unfold live; rewrite ?Hc, ?Hd; eauto|]). constructor. }
  specialize (Hsoft Hl). destruct (flush_down p q fd s) as [[v s']|f] eqn:Hr; [|done].
  split; [eapply soft_rel_sinv; done|]. clear -Hr. unfold flush_down in Hr. inv_bind Hr.
  destruct (_ =? 0); [injection Hr as <- <-; done|]. destruct (negb _); [done|]. inv_bind Hr. inv_bind Hr.
  injection Hr as <- <-. done.
Qed.

Section Events.
Variable accurate : bool.

Lemma HandleRecvEvent_safe fd : triple input_fault (fun s => sinv s ∧ fresh_socket s) (HandleRecvEvent accurate fd)
  (fun r s => -2 ≤ r ≤ 0 ∧ sinv s).
Proof.
  intros s (Hs & Hf). unfold HandleRecvEvent. unfold mbind at 1, M_bind at 1, gets.
  destruct (ConnMap s !! fd) as [o|] eqn:Ho; [|split; [lia|done]].
  destruct (sn_map _ Hs fd o Ho) as (p & k & -> & Hk & _). pose proof Hk as Hk'. cbn in Hk'. rewrite lookup_fmap in Hk'.
  destruct (conns s !! p) as [c|] eqn:Hc; [|done]. injection Hk' as <-.
  unfold mbind at 1, M_bind at 1, conn. rewrite Hc. destruct (Z.eqb_spec (type c) t_proxy) as [Ht|Ht].
  - apply ProxyRecvEvent_safe. split_and!; try done. exists (skel_of c). done.
  - assert (soft input_fault [p] (set_conn p (fun c => c <| host := [] |>))) as Hsoft by (soft_walk; left).
    specialize (Hsoft s Hs ltac:(repeat constructor; unfold live; rewrite Hc; eauto)).
    unfold mbind, M_bind. destruct (set_conn p _ s) as [[u s1]|f]; [|done].
    apply StreamRecvEvent_safe. split; [eapply soft_rel_sinv; done|].
    eapply shape_live; [apply Hsoft|]. unfold live. rewrite Hc. eauto.
Qed.

(** A readable connection. *)
Lemma recv_event_safe fd : triple input_fault (fun s => sinv s ∧ fresh_socket s) (recv_event accurate RECV_ROUNDS fd)
  (fun _ s => sinv s).
Proof.
  unfold RECV_ROUNDS. cbn [recv_event]. eapply h_bind; [apply HandleRecvEvent_safe|]. intros r. apply h_pure. intros Hr.
  eapply h_bind; [apply h_gets|]. intros e.
  assert (triple input_fault (fun s => e = o_errno (the_os s) ∧ sinv s)
    (_ ← RemoveConnect fd; mret Next) (fun _ s => sinv s)) as Hrem.
  { intros s [_ Hs]. destruct (RemoveConnect_safe fd s Hs) as (v & s' & Hv & Hs' & _).
    unfold mbind, M_bind. rewrite Hv. exact Hs'. }
  assert (∀ x : recv_next, triple input_fault (fun s => e = o_errno (the_os s) ∧ sinv s) (mret x) (fun _ s => sinv s)) as Hret.
  { intros x s [_ Hs]. exact Hs. }
  destruct (Z.eqb_spec r (-2)); [apply Hret|]. destruct (Z.eqb_spec r (-1)); [destruct (e =? EAGAIN); [apply Hret|exact Hrem]|].
  destruct (Z.eqb_spec r 0); [destruct (negb _); [exact Hrem|apply Hret]|].
  intros s [_ Hs]. exfalso. lia.
Qed.
End Events.

(** ** The recycler's scan *)

(** No connection whose time is over has had traffic since its block was made:
    [CRBDelay] is not called. *)
Definition no_delay (now : timeval) (s : sdk) : Prop :=
  ∀ n b x p c, (n, b) ∈ expire_list s → blocks s !! b = Some x → b_conn x = Some p → conns s !! p = Some c →
    tv_sec (b_tv x) + Expire_Seconds < tv_sec now → b_traffic x = http_transmit_len c.

(** A position that the scan may be at. *)
Definition valid_it (it : iter) (s : sdk) : Prop := it = ItEnd ∨ ∃ m b, it = ItNode m ∧ (m, b) ∈ expire_list s.

Lemma block_inj s n n' b : sinv s → (n, b) ∈ expire_list s → (n', b) ∈ expire_list s → n = n'.
Proof.
  intros Hs H1 H2. pose proof (sn_blocks _ Hs) as Hd. apply NoDup_app in Hd as [Hd _]. cbn in Hd.
  apply list_elem_of_lookup in H1 as [i Hi]. apply list_elem_of_lookup in H2 as [j Hj].
  assert (i = j) as -> by (apply (NoDup_lookup _ i j b Hd); rewrite list_lookup_fmap; [rewrite Hi|rewrite Hj]; done).
  congruence.
Qed.

(** The owner of a node. *)
Lemma sinv_owner s n b : sinv s → (n, b) ∈ expire_list s → ∃ p c x, conns s !! p = Some c ∧ type c = t_proxy ∧
  crb_it c = ItNode n ∧ blocks s !! b = Some x ∧ b_conn x = Some p ∧ b_fd x = sock_fd c ∧
  ConnMap s !! sock_fd c = Some (Some p) ∧ 0 < sock_fd c.
Proof.
  intros Hs Hin. destruct (sn_owner _ Hs n b Hin) as (p & k & Hk & Ht & Hit). pose proof Hk as Hk'. cbn in Hk'.
  rewrite lookup_fmap in Hk'. destruct (conns s !! p) as [c|] eqn:Hc; [|done]. injection Hk' as <-. cbn in Ht, Hit.
  destruct (sinv_node s p c Hs Hc Ht) as (n' & b' & x & Hit' & Hin' & _ & Hx & Hxp & Hxf).
  assert (n' = n) as -> by congruence.
  assert (b' = b) as -> by (eapply node_block; [apply Hs|exact Hin'|exact Hin]).
  destruct (sn_conn _ Hs _ _ Hk) as (Hm & Hpos & _). exists p, c, x. split_and!; done.
Qed.

(** Removing the owner of node [n] leaves the other nodes and their connections. *)
Lemma drop_keeps s s' p c n b now it : sinv s → conns s !! p = Some c → type c = t_proxy → (n, b) ∈ expire_list s →
  mem s' = mem (drop_browser p n b c s) → no_delay now s → (it = ItEnd ∨ ∃ m b', it = ItNode m ∧ m ≠ n ∧ (m, b') ∈ expire_list s) →
  no_delay now s' ∧ valid_it it s'.
Proof.
  intros Hs Hc Ht Hin Hm Hnd Hit. unfold mem in Hm. injection Hm as E1 E2 E3 E4 E5 E6 E7 E8.
  revert E1 E2 E3 E4 E5 E6 E7 E8. unfold drop_browser. rsimpl. intros E1 E2 E3 E4 E5 E6 E7 E8. split.
  - intros m b' x q d H1 H2 H3 H4 H5. rewrite E4 in H1. apply filter_nodes_in in H1 as [H1 Hne].
    rewrite E6, lookup_insert_ne in H2. 2: { intros <-. apply Hne. eapply block_inj; eauto. }
    rewrite E1 in H4. apply lookup_delete_Some in H4 as [_ H4].
    assert (conns s !! q = Some d) as Hq.
    { destruct (peer c); [apply lookup_delete_Some in H4 as [_ H4]|]; done. }
    eapply Hnd; eauto.
  - destruct Hit as [->|(m & b' & -> & Hne & Hb')]; [left; done|]. right. exists m, b'. split; [done|].
    rewrite E4. apply filter_nodes_in. done.
Qed.

Lemma scan_loop_safe n now it s : sinv s → no_delay now s → valid_it it s →
  ∃ s', scan_loop n now it s = Ok (tt, s') ∧ sinv s'.
Proof.
  revert it s. induction n as [|n IH]; intros it s Hs Hnd Hit; [eexists; split; [reflexivity|done]|].
  cbn [scan_loop]. destruct Hit as [->|(m & b & -> & Hin)]; [rewrite decide_True by done; eexists; split; [reflexivity|done]|].
  rewrite decide_False by done. destruct (sinv_owner s m b Hs Hin) as (p & c & x & Hc & Ht & Hcit & Hx & Hxp & Hxf & Hmap & Hpos).
  assert (block_of m (expire_list s) = Some b) as Hb by (apply block_of_in; [apply Hs|done]).
  unfold mbind at 1, M_bind at 1, deref_it. rewrite Hb. unfold mbind at 1, M_bind at 1, block. rewrite Hx.
  destruct (Z.ltb_spec (tv_sec (b_tv x) + Expire_Seconds) (tv_sec now)); [|eexists; split; [reflexivity|done]].
  unfold mbind at 1, M_bind at 1, gets. rewrite Hxf, Hmap. unfold mbind at 1, M_bind at 1, nonnull, mret, M_ret.
  unfold mbind at 1, M_bind at 1, conn. rewrite Hc. rewrite (Hnd m b x p c) by done. rewrite Z.eqb_refl.
  unfold mbind at 1, M_bind at 1, next_it. rewrite Hb.
  destruct (RemoveConnect_proxy (sock_fd c) p c m b x s) as (s' & Hr & Hm); auto.
  { intros q Hq. destruct (sinv_peer s p c q Hs Hc Hq) as (d & Hd & Hpd & Htd). split; [intros ->; congruence|].
    exists d. split; [done|]. congruence. }
  unfold mbind, M_bind. rewrite Hr.
  destruct (drop_keeps s s' p c m b now (after m (expire_list s))) as [Hnd' Hit']; auto.
  { apply after_cases, Hs. }
  apply IH; [eapply sinv_drop; eauto|done|done].
Qed.

Lemma CRBScan_safe s : sinv s → no_delay (o_now (sys s)) s → ∃ s', CRBScan s = Ok (tt, s') ∧ sinv s'.
Proof.
  intros Hs Hnd. unfold CRBScan, mbind, M_bind, gettimeofday, gets. apply scan_loop_safe; try done.
  unfold begin_it. destruct (expire_list s) as [|[m b] l] eqn:He; [left; done|]. right. exists m, b.
  rewrite He. split; [done|left].
Qed.

(** ** What the event loop reaches

    Steps of the loop, each with what it relies on: descriptors from the kernel are
    not in use; a writable event is for a connection in the table; the scan finds no
    connection to delay.  Between steps the environment does as it likes. *)

Section Reach.
Variable accurate : bool.

Inductive sreach : sdk → Prop :=
  | sr_init a0 st0 e o : sreach (sdk_init a0 st0 e o)
  | sr_env s f : sreach s → sreach (with_os f s)
  | sr_settings s f : sreach s → sreach (s <| glob ::= f |>)
  | sr_accept s v s' : sreach s → fresh_next (shape_of s) (o_accept (sys s)) →
      HandleAcceptEvent s = Ok (v, s') → sreach s'
  | sr_recv s fd v s' : sreach s → fresh_socket s → recv_event accurate RECV_ROUNDS fd s = Ok (v, s') → sreach s'
  | sr_write s fd v s' : sreach s → is_Some (ConnMap s !! fd) → HandleEPOEvent fd s = Ok (v, s') → sreach s'
  | sr_scan s s' : sreach s → no_delay (o_now (sys s)) s → CRBScan s = Ok (tt, s') → sreach s'.

Lemma sreach_sinv s : sreach s → sinv s.
Proof.
  induction 1 as [a0 st0 e o|s f _ IH|s f _ IH|s v s' _ IH Hf Hr|s fd v s' _ IH Hf Hr|s fd v s' _ IH Hf Hr|s s' _ IH Hn Hr].
  - apply sane_init.
  - exact IH.
  - exact IH.
  - destruct (HandleAcceptEvent_safe s IH Hf) as (v' & s1 & H1 & Hs1). congruence.
  - pose proof (recv_event_safe accurate fd s (conj IH Hf)) as H. rewrite Hr in H. exact H.
  - pose proof (HandleEPOEvent_safe fd s IH Hf) as H. rewrite Hr in H. apply H.
  - destruct (CRBScan_safe s IH Hn) as (s1 & H1 & Hs1). congruence.
Qed.


End Reach.

(** ** A session

    A browser connects, asks for a page, and the SDK opens the tunnel. *)

Definition after_run {A} (m : K A) (s : sdk) : sdk := match m s with Ok (_, s') => s' | Bad _ => s end.

Definition demo_env : env := MkEnv 0 0 15711005176 10000000 10180 (bs "10.0.0.1") (bs "83cfed9778bf4a77") [].

Definition demo_request : bytes := crlfs ["GET / HTTP/1.1"; "Host: www.example.com"; ""]%string.

Definition demo0 : sdk := sdk_init (replicate 32 0) (replicate 512 0) demo_env (os_init <| o_accept := [5] |> <| o_now := Tv 100 0 |>).
Definition demo1 : sdk := after_run HandleAcceptEvent demo0.
Definition demo2 : sdk := with_os (fun o => o <| o_rx := {[ 5 := (demo_request, false) ]} |> <| o_socket := [7] |>) demo1.
Definition demo3 : sdk := after_run (recv_event true RECV_ROUNDS 5) demo2.

Lemma demo3_reached : sreach true demo3.
Proof.
  apply (sr_recv true demo2 5 FallThrough).
  - apply sr_env, (sr_accept true demo0 5).
    + apply sr_init.
    + intros k l _. reflexivity.
    + vm_compute. reflexivity.
  - intros k l [= <- <-]. vm_compute. reflexivity.
  - vm_compute. reflexivity.
Qed.


End SdkInv.
