(* ===== verification/SdkRelay.v ===== *)
(** * The SDK relays downloads

    A tunnel that has been accepted by the server passes what it receives on to the
    browser.  When the browser's socket is full the tunnel is hung up: the rest of
    what was read stays in its buffer and reading stops until the socket is writable.
    No byte is lost, added or moved, and what is hung up is delivered as soon as the
    socket takes bytes again. *)

From S2P Require Import Prelude Wire Frame Os SdkEnv SdkHttp SdkState SdkNet.
From stdpp Require Import base gmap list strings.
From Stdlib Require Import ZArith Lia.
Import Wire Os SdkEnv SdkHttp SdkState SdkNet.

Open Scope Z_scope.

Module SdkRelay.

(** ** The bytes on their way *)

(** What waits in the buffer of a tunnel that is hung up. *)
Definition pending (c : Connect) : bytes :=
  if status c =? sta_hangup then sub (Z.to_nat (r_offset c)) (Z.to_nat (r_data_len c)) (r_buff c) else [].

(** The tunnel [p] on descriptor [tfd] and its browser [q] on [bfd], with the
    tunnel's record [c]. *)
Record relay (p q tfd bfd : Z) (c : Connect) (s : sdk) : Prop := MkRelay {
  rl_tunnel : conns s !! p = Some c;
  rl_browser : ∃ d, conns s !! q = Some d ∧ sock_fd d = bfd ∧ type d = t_proxy ∧ peer d = Some p;
  rl_ne : p ≠ q;
  rl_table : ConnMap s !! bfd = Some (Some q);
  rl_peer : peer c = Some q;
  rl_fd : sock_fd c = tfd;
  rl_forward : cstate c = Frame.s_forward;
  rl_buff : length (r_buff c) = R_BUFF;
  rl_mode : (status c ≠ sta_hangup ∧ r_offset c = 0 ∧ stillneedtoread c = RBUF) ∨
            (status c = sta_hangup ∧ 0 < r_data_len c ∧ 0 ≤ r_offset c ∧ r_offset c + r_data_len c ≤ RBUF);
}.

(** The bytes the server has sent: delivered, pending, and not yet read. *)
Definition view (tfd bfd : Z) (c : Connect) (s : sdk) : bytes :=
  sent_to bfd (o_log (sys s)) ++ pending c ++ (rx_of tfd (sys s)).1.

(** *** One call of the operating system *)

Lemma send_cases fd d (s : sdk) : ∃ k s', send fd d s = Ok (k, s') ∧
  conns s' = conns s ∧ ConnMap s' = ConnMap s ∧ o_rx (sys s') = o_rx (sys s) ∧
  o_send (sys s') = tail (o_send (sys s)) ∧ Reactor_FD s' = Reactor_FD s ∧
  ((k = -1 ∧ o_log (sys s') = o_log (sys s)) ∨
   (0 ≤ k ≤ Z.of_nat (length d) ∧ o_log (sys s') = o_log (sys s) ++ [IoSend fd (take (Z.to_nat k) d)])) ∧
  (Forall (Z.lt 0) (o_send (sys s)) → d ≠ [] → 0 < k).
Proof.
  unfold send. change (the_os s) with (sys s). set (k := match o_send (sys s) with [] => _ | k :: _ => k end).
  destruct (Z.ltb_spec k 0) as [Hk|Hk].
  - exists (-1). eexists. split; [reflexivity|]. split_and!; try reflexivity; [left; done|].
    intros Hf Hd. subst k. destruct Hf; lia.
  - exists (Z.min k (Z.of_nat (length d))). eexists. split; [reflexivity|]. split_and!; try reflexivity.
    + right. split; [lia|reflexivity].
    + intros Hf Hd. assert (0 < length d)%nat by (destruct d; [done|cbn; lia]). subst k. destruct Hf; lia.
Qed.

Lemma ctl_cases op fd e (s : sdk) : ∃ r s' es, ctl op fd e s = Ok (r, s') ∧
  conns s' = conns s ∧ ConnMap s' = ConnMap s ∧ o_rx (sys s') = o_rx (sys s) ∧ o_send (sys s') = o_send (sys s) ∧
  (r = 0 ∨ r = -1) ∧ o_log (sys s') = o_log (sys s) ++ es ∧ ∀ f, sent_to f es = [].
Proof.
  unfold ctl, mbind, M_bind, gets.
  destruct (_ || _); [exists (-1), s, []; rewrite app_nil_r; split_and!; auto|]. unfold epoll_ctl.
  destruct (o_ctl (the_os s)) as [|k ks]; [|destruct (k <? 0)]; cbv beta iota.
  all: destruct (_ =? -1); eexists _, _, [_]; (split; [reflexivity|]); split_and!; auto.
Qed.

Lemma sent_to_chunk bfd d l : sent_to bfd (l ++ [IoSend bfd d]) = sent_to bfd l ++ d.
Proof. rewrite sent_to_app. unfold sent_to at 2. cbn. rewrite Z.eqb_refl, app_nil_r. done. Qed.

(** *** Passing on what was read *)

(** The first [n] bytes of the buffer are passed on: delivered or pending. *)
Lemma forward_down_relay p q tfd bfd c s n : relay p q tfd bfd c s → status c ≠ sta_hangup →
  (0 < n ≤ R_BUFF)%nat → ∃ r s' c', forward_down p (Z.of_nat n) s = Ok (r, s') ∧ relay p q tfd bfd c' s' ∧
    o_rx (sys s') = o_rx (sys s) ∧ (r = None → status c' ≠ sta_hangup) ∧
    sent_to bfd (o_log (sys s')) ++ pending c' = sent_to bfd (o_log (sys s)) ++ take n (r_buff c).
Proof.
  intros H Hst Hn. destruct H. destruct rl_browser0 as (d & Hd & Hfd & Htd & Hpd).
  destruct rl_mode0 as [(_ & Hro & Hsn)|(? & _)]; [|done].
  unfold forward_down. unfold mbind at 1, M_bind at 1, conn. rewrite rl_tunnel0. rewrite rl_peer0.
  unfold mbind at 1, M_bind at 1. rewrite Hd, Hfd. rewrite Nat2Z.id.
  destruct (send_cases bfd (take n (r_buff c)) s) as (k & s1 & Hs & E1 & E2 & E3 & _ & _ & Hk & _).
  assert (length (take n (r_buff c)) = n) as Hlen by (rewrite length_take, rl_buff0; lia).
  unfold mbind at 1, M_bind at 1. rewrite Hs. rewrite Hlen in Hk.
  destruct (Z.eqb_spec k (Z.of_nat n)) as [->|Hne]; cbn [negb].
  - exists None, s1, c. split; [reflexivity|]. split_and!; auto.
    + constructor; try congruence; [exists d; rewrite E1; done|left; done].
    + destruct Hk as [[? _]|[_ ->]]; [lia|]. rewrite sent_to_chunk, Nat2Z.id.
      rewrite (take_ge (take n _)) by lia. unfold pending. destruct (Z.eqb_spec (status c) sta_hangup); [done|].
      rewrite app_nil_r. done.
  - set (w := if k =? -1 then 0 else k).
    assert (0 ≤ w < Z.of_nat n ∧ sent_to bfd (o_log (sys s1)) =
      sent_to bfd (o_log (sys s)) ++ take (Z.to_nat w) (r_buff c)) as [Hw Hlog].
    { unfold w. destruct Hk as [[-> Hl]|[Hk Hl]].
      - change (-1 =? -1) with true. split; [lia|]. rewrite Hl, app_nil_r. done.
      - destruct (Z.eqb_spec k (-1)); [lia|]. split; [lia|]. rewrite Hl, sent_to_chunk, take_take.
        rewrite Nat.min_l by lia. done. }
    unfold mbind at 1, M_bind at 1, set_conn. rewrite E1, rl_tunnel0.
    set (c' := c <| r_data_len := _ |> <| r_offset := _ |> <| status := _ |>).
    set (s2 := s1 <| conns := _ |>).
    destruct (ctl_cases EPOLL_CTL_DEL (sock_fd c) (ym_events YM_EV_RD) s2) as (r & s3 & es & Hc & F1 & F2 & F3 & _ & Hr & F4 & F5).
    unfold mbind, M_bind, RemoveEvent. rewrite Hc.
    assert (r_data_len c' = Z.of_nat n - w) as Hdl by (unfold c'; rsimpl; apply wrap_id; unfold R_BUFF in *; range_lia).
    assert (relay p q tfd bfd c' s3) as Hrel.
    { constructor; rewrite ?F1, ?F2; unfold s2, c'; rsimpl; rewrite ?E1, ?E2; auto.
      - rewrite lookup_insert_eq. reflexivity.
      - exists d. rewrite lookup_insert_ne by done. done.
      - right. unfold RBUF, R_BUFF in *. fold c'. rewrite wrap_id by range_lia. split_and!; auto; lia. }
    assert (sent_to bfd (o_log (sys s3)) ++ pending c' = sent_to bfd (o_log (sys s)) ++ take n (r_buff c)) as Hv.
    { rewrite F4, sent_to_app, F5, app_nil_r. unfold s2. rsimpl. rewrite Hlog, <- app_assoc. f_equal.
      unfold pending. rewrite Hdl. unfold c'. rsimpl. change (sta_hangup =? sta_hangup) with true. cbv iota. fold w.
      unfold sub. replace (Z.to_nat (Z.of_nat n - w)) with (n - Z.to_nat w)%nat by lia.
      rewrite take_take_drop. f_equal. lia. }
    assert (o_rx (sys s3) = o_rx (sys s)) as Hrx by (rewrite F3; unfold s2; rsimpl; done).
    destruct Hr as [-> | ->]; cbn [negb Z.eqb]; eexists _, s3, c'; (split; [reflexivity|]); split_and!; auto; done.
Qed.

(** *** The receive loop *)

Section Relay.
Variable accurate : bool.

(** Counting traffic changes nothing of the relay. *)
Lemma relay_count p q tfd bfd c s x b : relay p q tfd bfd c s → length b = R_BUFF → ∃ s',
  (set_conn p (fun c => c <| r_buff := b |>);; add_transmit p x;; add_cost x) s = Ok (tt, s') ∧
  relay p q tfd bfd (c <| r_buff := b |> <| http_transmit_len := u64 (http_transmit_len c + x) |>) s' ∧
  sys s' = sys s.
Proof.
  intros [] Hb. destruct rl_browser0 as (d & Hd & Hbr).
  unfold mbind, M_bind, set_conn, add_transmit, add_cost, set_conn, modify. rewrite rl_tunnel0. rsimpl.
  rewrite lookup_insert_eq, insert_insert_eq. rsimpl. eexists. split; [reflexivity|]. split; [|reflexivity].
  constructor; rsimpl; auto.
  - apply lookup_insert_eq.
  - exists d. rewrite lookup_insert_ne by done. done.
Qed.

Lemma stream_loop_relay fuel p q tfd bfd c s : relay p q tfd bfd c s → status c ≠ sta_hangup →
  (length (rx_of tfd (sys s)).1 < fuel)%nat → ∃ r s' c', stream_loop accurate fuel p tfd s = Ok (r, s') ∧
    relay p q tfd bfd c' s' ∧ view tfd bfd c' s' = view tfd bfd c s.
Proof.
  revert c s. induction fuel as [|fuel IH]; intros c s H Hst Hf; [lia|]. cbn [stream_loop].
  pose proof H as []. destruct rl_mode0 as [(_ & Hro & Hsn)|(? & _)]; [|done].
  unfold mbind at 1, M_bind at 1, conn. rewrite rl_tunnel0. unfold mbind at 1, M_bind at 1. rewrite Hsn.
  unfold read. change (the_os s) with (sys s). destruct (rx_of tfd (sys s)) as [avail eof] eqn:Hrx. cbn in Hf.
  unfold Frame.sock_read. change (RBUF =? 0) with false. cbv iota.
  destruct avail as [|x avail].
  { destruct eof.
    - change (0 <? 0) with false. change (0 <=? 0) with true. cbv beta iota. eexists _, s, c. split; [reflexivity|]. split; done.
    - change (0 <? -1) with false. change (-1 <? 0) with true. change (-1 <=? 0) with true. cbv beta iota.
      eexists _, _, c. split; [reflexivity|]. split; [constructor; auto; left; done|].
      unfold view, with_os, sdk_os. rsimpl. unfold rx_of in *. rsimpl. done. }
  set (av := x :: avail) in *. set (got := take (Z.to_nat RBUF) av).
  assert (0 < length got ≤ R_BUFF)%nat as Hg.
  { unfold got, RBUF, R_BUFF. rewrite length_take. unfold av. cbn [length]. lia. }
  destruct (Z.ltb_spec 0 (Z.of_nat (length got))) as [_|?]; [|lia].
  destruct (Z.ltb_spec (Z.of_nat (length got)) 0) as [?|_]; [lia|].
  cbv beta iota. rewrite Nat2Z.id. destruct (Z.leb_spec (Z.of_nat (length got)) 0) as [?|_]; [lia|].
  rewrite Hro, rl_buff0. destruct (Z.leb_spec (0 + Z.of_nat (length got)) (Z.of_nat R_BUFF)) as [_|?]; [|lia]. cbn [negb].
  set (s1 := with_os _ s).
  assert (relay p q tfd bfd c s1) as H1 by (constructor; auto; left; done).
  assert (length (blit 0 got (r_buff c)) = R_BUFF) as Hbl by (rewrite length_blit; [done|cbn; lia]).
  assert (rx_of tfd (sys s1) = (drop (length got) av, eof)) as Hrx1.
  { unfold s1, with_os, sdk_os, rx_of. rsimpl. rewrite lookup_insert_eq. done. }
  assert (o_log (sys s1) = o_log (sys s)) as Hlog1 by (unfold s1, with_os, sdk_os; rsimpl; done).
  destruct (relay_count p q tfd bfd c s1 (Traffic_Est accurate (Z.of_nat (length got))) (blit 0 got (r_buff c)) H1 Hbl)
    as (s2 & H2 & Hr2 & Hsys2).
  set (c2 := c <| r_buff := _ |> <| http_transmit_len := _ |>) in *.
  (* the three updates *)
  apply bind_Ok in H2 as ([] & sa & Ha & H2). apply bind_Ok in H2 as ([] & sb & Hb & H2).
  unfold mbind at 1, M_bind at 1.
  assert (set_conn p (fun c => c <| r_buff := blit (Z.to_nat (r_offset c)) got (r_buff c) |>) s1 = Ok (tt, sa)) as ->.
  { rewrite <- Ha. unfold set_conn. rewrite (rl_tunnel _ _ _ _ _ _ H1), Hro. done. }
  unfold mbind at 1, M_bind at 1. rewrite Hb. unfold mbind at 1, M_bind at 1. rewrite H2.
  rewrite bool_decide_eq_false_2 by (rewrite rl_forward0; intros Hx; apply Hx; done). cbn [andb].
  unfold mbind at 1, M_bind at 1, conn. rewrite (rl_tunnel _ _ _ _ _ _ Hr2).
  assert (cstate c2 = Frame.s_forward) as -> by exact rl_forward0.
  destruct (forward_down_relay p q tfd bfd c2 s2 (length got) Hr2) as (r & s3 & c3 & Hf3 & Hr3 & Hrx3 & Hn3 & Hv3); [done|done|].
  unfold mbind at 1, M_bind at 1. rewrite Hf3.
  assert (take (length got) (r_buff c2) = got) as Hgot.
  { unfold c2. rsimpl. pose proof (blit_take 0 got (r_buff c)) as Hbt. cbn [Nat.add take app] in Hbt.
    apply Hbt. rewrite rl_buff0. lia. }
  rewrite Hgot in Hv3.
  assert (view tfd bfd c3 s3 = view tfd bfd c s) as Hview.
  { unfold view. assert (rx_of tfd (sys s3) = (drop (length got) av, eof)) as ->.
    { unfold rx_of in *. rewrite Hrx3, Hsys2. exact Hrx1. }
    rewrite Hrx. cbn [fst]. rewrite app_assoc, Hv3, Hsys2, Hlog1, <- app_assoc. f_equal.
    assert (pending c = []) as ->.
    { unfold pending. destruct (Z.eqb_spec (status c) sta_hangup); done. }
    cbn [app]. unfold got. rewrite length_take.
    destruct (decide (Z.to_nat RBUF ≤ length av)%nat); [rewrite Nat.min_l by lia; apply take_drop|].
    rewrite Nat.min_r, take_ge, drop_ge, app_nil_r by lia. done. }
  destruct r as [v|]; [exists v, s3, c3; auto|].
  destruct (IH c3 s3 Hr3 (Hn3 eq_refl)) as (v & s4 & c4 & H4 & Hr4 & Hv4).
  { unfold rx_of in *. rewrite Hrx3, Hsys2, Hrx1. cbn [fst]. rewrite length_drop. unfold av in *. cbn [length] in *. lia. }
  exists v, s4, c4. split; [exact H4|]. split; [exact Hr4|congruence].
Qed.

Lemma StreamRecvEvent_relay p q tfd bfd c s : relay p q tfd bfd c s → status c ≠ sta_hangup →
  ∃ r s' c', StreamRecvEvent accurate p s = Ok (r, s') ∧ relay p q tfd bfd c' s' ∧ view tfd bfd c' s' = view tfd bfd c s.
Proof.
  intros H Hst. unfold StreamRecvEvent. rewrite (rl_tunnel _ _ _ _ _ _ H), (rl_fd _ _ _ _ _ _ H).
  apply (stream_loop_relay _ p q tfd bfd c s H Hst). lia.
Qed.

End Relay.

(** *** The browser's socket is writable *)

(** What a write of [d] to [fd] that returned [k] leaves. *)
Definition wrote (fd : Z) (d : bytes) (s : sdk) (k : Z) (s' : sdk) : Prop :=
  conns s' = conns s ∧ ConnMap s' = ConnMap s ∧ o_rx (sys s') = o_rx (sys s) ∧
  o_send (sys s') = tail (o_send (sys s)) ∧ Reactor_FD s' = Reactor_FD s ∧
  ((k = -1 ∧ o_log (sys s') = o_log (sys s)) ∨
   (0 ≤ k ≤ Z.of_nat (length d) ∧ o_log (sys s') = o_log (sys s) ++ [IoSend fd (take (Z.to_nat k) d)])) ∧
  (Forall (Z.lt 0) (o_send (sys s)) → d ≠ [] → 0 < k).

(** A writable event keeps the relay and its bytes, and when the kernel accepts
    something it brings the end of the hang-up nearer. *)
Definition flushed (p q tfd bfd : Z) (c : Connect) (s : sdk) (c' : Connect) (s' : sdk) : Prop :=
  relay p q tfd bfd c' s' ∧ view tfd bfd c' s' = view tfd bfd c s ∧
  (length (pending c') ≤ length (pending c))%nat ∧
  (Forall (Z.lt 0) (o_send (sys s)) → Forall (Z.lt 0) (o_send (sys s')) ∧
     (status c = sta_hangup → status c' = sta_hangup → (length (pending c') < length (pending c))%nat)).

Lemma wrote_sends fd d s k s' : wrote fd d s k s' → Forall (Z.lt 0) (o_send (sys s)) → Forall (Z.lt 0) (o_send (sys s')).
Proof. intros (_ & _ & _ & -> & _) Hf. destruct Hf; done. Qed.

Lemma pending_hangup p q tfd bfd c s : relay p q tfd bfd c s → status c = sta_hangup →
  pending c = sub (Z.to_nat (r_offset c)) (Z.to_nat (r_data_len c)) (r_buff c) ∧
  length (pending c) = Z.to_nat (r_data_len c) ∧ 0 < r_data_len c ∧ 0 ≤ r_offset c ∧ r_offset c + r_data_len c ≤ RBUF.
Proof.
  intros H Hst. destruct (rl_mode _ _ _ _ _ _ H) as [(? & _)|(_ & Hdl & Hro & Hle)]; [done|].
  assert (pending c = sub (Z.to_nat (r_offset c)) (Z.to_nat (r_data_len c)) (r_buff c)) as Hp
    by (unfold pending; rewrite Hst; done).
  split; [done|]. split; [|done]. rewrite Hp. apply length_sub. rewrite (rl_buff _ _ _ _ _ _ H).
  unfold RBUF, R_BUFF in *. lia.
Qed.

Lemma flush_all p q tfd bfd c s s1 : relay p q tfd bfd c s → status c = sta_hangup →
  wrote bfd (pending c) s (r_data_len c) s1 → ∃ s' c',
  (set_conn p (fun tc => tc <| r_offset := 0 |> <| stillneedtoread := RBUF |> <| status := sta_online |>);;
   _ ← AddREvent (sock_fd c); mret tt) s1 = Ok (tt, s') ∧ flushed p q tfd bfd c s c' s'.
Proof.
  intros H Hst Hw. pose proof (wrote_sends _ _ _ _ _ Hw) as Hsend.
  destruct (pending_hangup _ _ _ _ _ _ H Hst) as (Hpc & Hcl & Hdl & _).
  pose proof H as []. destruct rl_browser0 as (d & Hd & Hfd & Htd & Hpd).
  destruct Hw as (E1 & E2 & E3 & _ & _ & Hk & _). destruct Hk as [[? _]|[_ Hlog]]; [lia|].
  unfold mbind at 1, M_bind at 1, set_conn. rewrite E1, rl_tunnel0.
  set (c' := c <| r_offset := 0 |> <| stillneedtoread := RBUF |> <| status := sta_online |>). set (s2 := s1 <| conns := _ |>).
  destruct (ctl_cases EPOLL_CTL_ADD (sock_fd c) (Z.lor EPOLLIN EPOLLET) s2) as (r & s3 & es & Hc & F1 & F2 & F3 & F3' & Hr & F4 & F5).
  unfold mbind, M_bind, AddREvent. rewrite Hc. exists s3, c'. split; [reflexivity|].
  assert (pending c' = []) as Hp' by done. unfold flushed. rewrite Hp'. split_and!.
  - constructor; rewrite ?F1, ?F2; unfold s2, c'; rsimpl; rewrite ?E1, ?E2; auto.
    + rewrite lookup_insert_eq. reflexivity.
    + exists d. rewrite lookup_insert_ne by done. done.
  - unfold view, rx_of. rewrite Hp', F3, F4, sent_to_app, F5. unfold s2. rsimpl. rewrite E3, Hlog, sent_to_chunk.
    rewrite take_ge by lia. rewrite app_nil_r, <- !app_assoc. done.
  - cbn. lia.
  - intros Hf. split; [|done]. rewrite F3'. unfold s2. rsimpl. auto.
Qed.

Lemma flush_some p q tfd bfd c s s1 k : relay p q tfd bfd c s → status c = sta_hangup →
  wrote bfd (pending c) s k s1 → 0 < k → k ≠ r_data_len c → ∃ s' c',
  set_conn p (fun tc => tc <| r_offset := u32 (r_offset tc + k) |> <| r_data_len := u32 (r_data_len tc - k) |>) s1
    = Ok (tt, s') ∧ flushed p q tfd bfd c s c' s'.
Proof.
  intros H Hst Hw Hk0 Hne. pose proof (wrote_sends _ _ _ _ _ Hw) as Hsend.
  destruct (pending_hangup _ _ _ _ _ _ H Hst) as (Hpc & Hcl & Hdl & Hro & Hle).
  pose proof H as []. destruct rl_browser0 as (d & Hd & Hfd & Htd & Hpd).
  destruct Hw as (E1 & E2 & E3 & _ & _ & Hk & _). destruct Hk as [[? _]|[Hk Hlog]]; [lia|].
  unfold set_conn. rewrite E1, rl_tunnel0.
  set (c' := c <| r_offset := _ |> <| r_data_len := _ |>). exists (s1 <| conns := <[p := c']> (conns s) |>), c'.
  split; [reflexivity|].
  assert (r_offset c' = r_offset c + k ∧ r_data_len c' = r_data_len c - k) as [Ho' Hd'].
  { unfold c'. rsimpl. unfold RBUF in *. split; apply wrap_id; range_lia. }
  assert (pending c' = drop (Z.to_nat k) (pending c)) as Hp'.
  { rewrite Hpc. unfold pending. change (status c') with (status c). rewrite Hst. cbn [Z.eqb sta_hangup Pos.eqb].
    rewrite Ho', Hd'. unfold sub. change (r_buff c') with (r_buff c).
    rewrite skipn_firstn_comm, drop_drop. f_equal; [lia|]. f_equal. lia. }
  unfold flushed. rewrite Hp'. split_and!.
  - constructor; rsimpl; rewrite ?E2; auto.
    + apply lookup_insert_eq.
    + exists d. rewrite lookup_insert_ne by done. done.
    + right. fold c'. rewrite Ho', Hd'. change (status c') with (status c). split_and!; auto; lia.
  - unfold view, rx_of. rewrite Hp'. rsimpl. rewrite E3, Hlog, sent_to_chunk.
    rewrite <- (take_drop (Z.to_nat k) (pending c)) at 3. rewrite <- !app_assoc. done.
  - rewrite length_drop. lia.
  - intros Hf. split; [auto|]. intros _ _. rewrite length_drop. lia.
Qed.

Lemma flush_none p q tfd bfd c d s s1 k : relay p q tfd bfd c s → status c = sta_hangup → conns s !! q = Some d →
  wrote bfd (pending c) s k s1 → k ≤ 0 → ∃ s',
  (x ← conn q; _ ← AddEvent (sock_fd x) YM_EV_WR; mret tt) s1 = Ok (tt, s') ∧ flushed p q tfd bfd c s c s'.
Proof.
  intros H Hst Hd Hw Hk0. pose proof (wrote_sends _ _ _ _ _ Hw) as Hsend.
  destruct (pending_hangup _ _ _ _ _ _ H Hst) as (Hpc & Hcl & Hdl & Hro & Hle).
  destruct Hw as (E1 & E2 & E3 & _ & _ & Hk & Hkp).
  unfold mbind at 1, M_bind at 1, conn. rewrite E1, Hd.
  destruct (ctl_cases EPOLL_CTL_ADD (sock_fd d) (Z.lor (ym_events YM_EV_WR) (if has YM_EV_WR YM_EV_ONCE then EPOLLET else 0)) s1)
    as (r & s3 & es & Hc & F1 & F2 & F3 & F3' & Hr & F4 & F5).
  unfold mbind, M_bind, AddEvent. rewrite Hc. exists s3. split; [reflexivity|]. unfold flushed. split_and!; auto.
  - pose proof H as []. constructor; rewrite ?F1, ?F2, ?E1, ?E2; auto.
  - unfold view, rx_of. rewrite F3, E3, F4, sent_to_app, F5, app_nil_r. f_equal.
    destruct Hk as [[_ ->]|[Hk ->]]; [done|]. assert (k = 0) as -> by lia. rewrite sent_to_chunk, app_nil_r. done.
  - intros Hf. split; [rewrite F3'; auto|]. intros _ _. exfalso.
    assert (pending c ≠ []) as Hnn by (intros Hz; rewrite Hz in Hcl; cbn in Hcl; lia). specialize (Hkp Hf Hnn). lia.
Qed.

(** Either everything pending is delivered and the tunnel reads again, or some of
    it, or nothing; with a socket that takes bytes, at least one. *)
Lemma HandleEPOEvent_relay p q tfd bfd c s : relay p q tfd bfd c s → ∃ s' c',
  HandleEPOEvent bfd s = Ok (0, s') ∧ flushed p q tfd bfd c s c' s' ∧ (status c ≠ sta_hangup → c' = c).
Proof.
  intros H. pose proof H as []. destruct rl_browser0 as (d & Hd & Hfd & Htd & Hpd).
  unfold HandleEPOEvent. unfold mbind at 1, M_bind at 1, gets. rewrite rl_table0. rewrite decide_False by done.
  unfold mbind at 1, M_bind at 1, mret at 1, M_ret at 1. unfold mbind at 1, M_bind at 1, conn. rewrite Hd, Hpd.
  unfold mbind at 1, M_bind at 1. rewrite rl_tunnel0.
  destruct (Z.eqb_spec (status c) sta_hangup) as [Hst|Hst].
  2: { exists s, c. split; [reflexivity|]. unfold flushed. split_and!; auto. done. }
  destruct (pending_hangup _ _ _ _ _ _ H Hst) as (Hpc & Hcl & Hdl & Hro & Hle).
  rewrite Htd. change (t_proxy =? t_proxy) with true. cbn [negb].
  unfold flush_down. unfold mbind at 1, M_bind at 1, conn at 1. rewrite rl_tunnel0.
  destruct (Z.eqb_spec (r_data_len c) 0); [lia|].
  rewrite rl_buff0. change (Z.of_nat R_BUFF) with RBUF. destruct (Z.leb_spec (r_offset c + r_data_len c) RBUF); [|lia].
  cbn [negb]. rewrite <- Hpc.
  destruct (send_cases bfd (pending c) s) as (k & s1 & Hs & Hw). change (wrote bfd (pending c) s k s1) in Hw.
  unfold mbind at 1, M_bind at 1. rewrite Hs. unfold mbind at 1, M_bind at 1.
  destruct (Z.eqb_spec k (r_data_len c)) as [->|Hne].
  - destruct (flush_all p q tfd bfd c s s1 H Hst Hw) as (s' & c' & -> & Hf). exists s', c'. done.
  - destruct (Z.ltb_spec 0 k) as [Hk0|Hk0].
    + destruct (flush_some p q tfd bfd c s s1 k H Hst Hw Hk0 Hne) as (s' & c' & -> & Hf). exists s', c'. done.
    + destruct (flush_none p q tfd bfd c d s s1 k H Hst Hd Hw Hk0) as (s' & -> & Hf). exists s', c. done.
Qed.

(** ** Sequences of events *)

Inductive devent :=
  | Arrive (b : bytes)          (* bytes of the server reach the tunnel's socket *)
  | Kernel (l : list Z)         (* what the coming sends will take *)
  | Readable                    (* the loop is told of the tunnel's socket *)
  | Writable.                   (* the loop is told of the browser's socket *)

Section Download.
Variable accurate : bool.

(** A tunnel that is hung up is not registered for reading. *)
Definition down_step (p tfd bfd : Z) (e : devent) : K unit :=
  match e with
  | Arrive b => modify (with_os (fun o =>
      o <| o_rx := <[tfd := ((rx_of tfd o).1 ++ b, (rx_of tfd o).2)]> (o_rx o) |>))
  | Kernel l => modify (with_os (fun o => o <| o_send := l |>))
  | Readable =>
    c ← conn p;
    if status c =? sta_hangup then mret tt else _ ← StreamRecvEvent accurate p; mret tt
  | Writable => _ ← HandleEPOEvent bfd; mret tt
  end.

Fixpoint down_run (p tfd bfd : Z) (l : list devent) : K unit :=
  match l with
  | [] => mret tt
  | e :: l => down_step p tfd bfd e;; down_run p tfd bfd l
  end.

Definition arrived (l : list devent) : bytes :=
  concat (map (fun e => match e with Arrive b => b | _ => [] end) l).

Lemma relay_os p q tfd bfd c s f : relay p q tfd bfd c s → relay p q tfd bfd c (with_os f s).
Proof. intros []. constructor; auto. Qed.

Lemma down_step_relay p q tfd bfd c s e : relay p q tfd bfd c s → ∃ s' c',
  down_step p tfd bfd e s = Ok (tt, s') ∧ relay p q tfd bfd c' s' ∧
  view tfd bfd c' s' = view tfd bfd c s ++ match e with Arrive b => b | _ => [] end.
Proof.
  intros H. destruct e as [b|l| |]; cbn [down_step].
  - eexists _, c. split; [reflexivity|]. split; [apply relay_os, H|].
    unfold view, with_os, sdk_os. rsimpl. unfold rx_of at 1. rsimpl. rewrite lookup_insert_eq. cbn [default fst].
    unfold default, id. cbn [fst]. rewrite !app_assoc. done.
  - eexists _, c. split; [reflexivity|]. split; [apply relay_os, H|]. rewrite app_nil_r. done.
  - unfold mbind at 1, M_bind at 1, conn. rewrite (rl_tunnel _ _ _ _ _ _ H).
    destruct (Z.eqb_spec (status c) sta_hangup) as [Hst|Hst].
    + eexists _, c. split; [reflexivity|]. rewrite app_nil_r. done.
    + destruct (StreamRecvEvent_relay accurate p q tfd bfd c s H Hst) as (r & s' & c' & Hr & Hrel & Hv).
      unfold mbind, M_bind. rewrite Hr. eexists _, c'. split; [reflexivity|]. rewrite app_nil_r. done.
  - destruct (HandleEPOEvent_relay p q tfd bfd c s H) as (s' & c' & Hr & (Hrel & Hv & _) & _).
    unfold mbind, M_bind. rewrite Hr. eexists _, c'. split; [reflexivity|]. rewrite app_nil_r. done.
Qed.


Lemma pending_pos p q tfd bfd c s : relay p q tfd bfd c s → status c = sta_hangup → (0 < length (pending c))%nat.
Proof.
  intros H Hst. unfold pending. rewrite Hst. cbn [Z.eqb sta_hangup Pos.eqb].
  pose proof (rl_mode _ _ _ _ _ _ H) as [[? _]|(_ & ? & ? & ?)]; [done|].
  rewrite length_sub; [lia|]. rewrite (rl_buff _ _ _ _ _ _ H). unfold R_BUFF, RBUF in *. lia.
Qed.

Lemma drain n p q tfd bfd c s : relay p q tfd bfd c s → Forall (Z.lt 0) (o_send (sys s)) →
  (status c = sta_hangup → length (pending c) ≤ n)%nat → ∃ s' c',
  down_run p tfd bfd (replicate n Writable) s = Ok (tt, s') ∧ relay p q tfd bfd c' s' ∧
  (status c' ≠ sta_hangup ∨ n = 0%nat) ∧ view tfd bfd c' s' = view tfd bfd c s.
Proof.
  revert c s. induction n as [|n IH]; intros c s H Hf Hn; cbn [replicate down_run down_step].
  - exists s, c. split; [reflexivity|]. split_and!; auto.
  - destruct (HandleEPOEvent_relay p q tfd bfd c s H) as (s1 & c1 & H1 & (Hr1 & Hv1 & Hle & Hlt) & Hid).
    destruct (Hlt Hf) as [Hf1 Hlt1]. unfold mbind at 1, M_bind at 1. unfold mbind at 1, M_bind at 1. rewrite H1.
    unfold mret, M_ret. destruct (IH c1 s1 Hr1 Hf1) as (s2 & c2 & H2 & Hr2 & Hz & Hv2).
    { intros Hst1. destruct (decide (status c = sta_hangup)) as [Hst|Hst].
      - specialize (Hlt1 Hst Hst1). specialize (Hn Hst). lia.
      - rewrite (Hid Hst) in Hst1. done. }
    exists s2, c2. split; [done|]. split; [done|]. split; [|congruence]. left. destruct Hz as [Hz| ->]; [done|].
    cbn in H2. injection H2 as <-. pose proof (rl_tunnel _ _ _ _ _ _ Hr1) as T1.
    pose proof (rl_tunnel _ _ _ _ _ _ Hr2) as T2. assert (c2 = c1) as -> by congruence. intros Hst1.
    destruct (decide (status c = sta_hangup)) as [Hst|Hst]; [|rewrite (Hid Hst) in Hst1; done].
    specialize (Hlt1 Hst Hst1). specialize (Hn Hst). pose proof (pending_pos _ _ _ _ _ _ Hr1 Hst1). lia.
Qed.


End Download.

(** ** An example

    A browser on descriptor 5 and its tunnel on descriptor 7. *)

Definition demo_tunnel : Connect :=
  Connect_new (replicate 32 0) <| sock_fd := 7 |> <| status := sta_online |> <| peer := Some 2 |>
    <| cstate := Frame.s_forward |> <| stillneedtoread := RBUF |>.

Definition demo_browser : Connect :=
  Connect_new (replicate 32 0) <| sock_fd := 5 |> <| type := t_proxy |> <| peer := Some 1 |>.

Definition demo_pair (c : Connect) (o : os) : sdk :=
  sdk_init (replicate 32 0) (replicate 512 0) env_init o
    <| conns := {[ 1 := c; 2 := demo_browser ]} |> <| ConnMap := {[ 7 := Some 1; 5 := Some 2 ]} |>
    <| next_conn := 3 |>.

Lemma demo_relay c o : peer c = Some 2 → sock_fd c = 7 → cstate c = Frame.s_forward → length (r_buff c) = R_BUFF →
  ((status c ≠ sta_hangup ∧ r_offset c = 0 ∧ stillneedtoread c = RBUF) ∨
   (status c = sta_hangup ∧ 0 < r_data_len c ∧ 0 ≤ r_offset c ∧ r_offset c + r_data_len c ≤ RBUF)) →
  relay 1 2 7 5 c (demo_pair c o).
Proof. intros. constructor; auto. exists demo_browser. done. Qed.

Definition demo_hung : Connect :=
  demo_tunnel <| status := sta_hangup |> <| r_buff := bs "hello" ++ replicate 4091 0 |>
    <| r_offset := 3 |> <| r_data_len := 2 |>.



End SdkRelay.
