(* ===== verification/SdkProps.v ===== *)
(** * Properties of the SDK's protocol with the server and with the browser

    The login request decodes to the settings, an accepted login starts the relay, a
    refused one answers the browser; and what the event loop does not survive: a
    writable event for a descriptor that is no longer in the table, a scan that
    delays a connection, a login connection that the server closes. *)

From S2P Require Import Prelude Wire Frame Os Dns SdkEnv SdkHttp SdkState SdkNet SdkInv SdkRelay.
From stdpp Require Import base gmap list strings.
From Stdlib Require Import ZArith Lia.
Import Wire Os SdkEnv SdkHttp SdkState SdkNet SdkRelay.

Open Scope Z_scope.

Module SdkProps.

(** ** The login request *)

Lemma sub_blit_same pos src dst : (pos ≤ length dst)%nat → sub pos (length src) (blit pos src dst) = src.
Proof.
  intros Hp. unfold sub, blit. rewrite drop_app_ge by (rewrite length_take; lia).
  rewrite length_take, Nat.min_l, Nat.sub_diag, drop_0 by lia. apply take_app_length.
Qed.

Lemma sub_blit_before off n pos src dst : (off + n ≤ pos)%nat → (pos ≤ length dst)%nat →
  sub off n (blit pos src dst) = sub off n dst.
Proof.
  intros Hn Hp. unfold sub, blit. rewrite drop_app_le, take_app_le by (rewrite ?length_drop, ?length_take; lia).
  rewrite skipn_firstn_comm, take_take. f_equal. lia.
Qed.

Lemma sub_blit_after off n pos src dst : (pos + length src ≤ off)%nat → (pos ≤ length dst)%nat →
  sub off n (blit pos src dst) = sub off n dst.
Proof. intros Hn Hp. unfold sub. rewrite blit_drop by lia. done. Qed.

Lemma sub_take off n m (l : bytes) : (off + n ≤ m)%nat → sub off n (take m l) = sub off n l.
Proof. intros Hn. unfold sub. rewrite skipn_firstn_comm, take_take. f_equal. lia. Qed.

Lemma login_msg_decodes junk app mob token port hst :
  length junk = 512%nat → in_u 64 app → in_u 64 mob → strlen token < 32 → in_u 16 port →
  (length hst ≤ 458)%nat → ∃ msg, login_msg junk app mob token port hst = Ok msg ∧
    length msg = (54 + length hst)%nat ∧
    (let r := pdec msg in lq_msg_id r = LOGIN_REQ ∧ lq_app r = app ∧ lq_mobile r = mob ∧
       cstr (lq_token r) = cstr token ∧ lq_port r = port ∧ lq_host_len r = Z.of_nat (length hst)) ∧
    sub 54 (length hst) msg = hst.
Proof.
  intros Hj Ha Hm Ht Hp Hh. unfold strlen in Ht. unfold login_msg.
  destruct (Nat.leb_spec (54 + length hst) 512); [|lia].
  set (b1 := blit 0 (to_le 2 LOGIN_REQ) junk). set (b2 := blit 2 (to_le 8 app) b1). set (b3 := blit 10 (to_le 8 mob) b2).
  set (b4 := blit 18 (cstr token ++ [0]) b3). set (b5 := blit 50 (to_le 2 port) b4).
  set (b6 := blit 52 (to_le 2 (u16 (Z.of_nat (length hst)))) b5). set (b7 := blit 54 hst b6).
  assert (length b1 = 512%nat) as L1 by (unfold b1; rewrite length_blit; len).
  assert (length b2 = 512%nat) as L2 by (unfold b2; rewrite length_blit; len).
  assert (length b3 = 512%nat) as L3 by (unfold b3; rewrite length_blit; len).
  assert (length b4 = 512%nat) as L4 by (unfold b4; rewrite length_blit; len).
  assert (length b5 = 512%nat) as L5 by (unfold b5; rewrite length_blit; len).
  assert (length b6 = 512%nat) as L6 by (unfold b6; rewrite length_blit; len).
  eexists. split; [reflexivity|]. split; [rewrite length_take; unfold b7; rewrite length_blit; len|].
  assert (∀ off n, (off + n ≤ 54)%nat → sub off n (take (54 + length hst) b7) = sub off n b6) as Hpre.
  { intros off n Hn. rewrite sub_take by lia. apply sub_blit_before; lia. }
  assert (∀ off n, (off + n ≤ 52)%nat → sub off n b6 = sub off n b5) as P6 by (intros; apply sub_blit_before; lia).
  assert (∀ off n, (off + n ≤ 50)%nat → sub off n b5 = sub off n b4) as P5 by (intros; apply sub_blit_before; lia).
  assert (∀ off n, (off + n ≤ 18)%nat → sub off n b4 = sub off n b3) as P4 by (intros; apply sub_blit_before; lia).
  assert (∀ off n, (off + n ≤ 10)%nat → sub off n b3 = sub off n b2) as P3 by (intros; apply sub_blit_before; lia).
  assert (∀ off n, (off + n ≤ 2)%nat → sub off n b2 = sub off n b1) as P2 by (intros; apply sub_blit_before; lia).
  assert (∀ n v pos dst, (pos ≤ length dst)%nat → in_u (8 * Z.of_nat n) v →
    of_le (sub pos n (blit pos (to_le n v) dst)) = v) as Hfld.
  { intros n v pos dst Hpos Hv. pose proof (sub_blit_same pos (to_le n v) dst Hpos) as E.
    rewrite length_to_le in E. rewrite E. apply of_to_le_id, Hv. }
  split.
  - cbn -[sub fld]. unfold fld. rewrite !Hpre by lia. split_and!.
    + rewrite P6, P5, P4, P3, P2 by lia. apply Hfld; [lia|unfold LOGIN_REQ; range_lia].
    + rewrite P6, P5, P4, P3 by lia. apply Hfld; [lia|range_lia].
    + rewrite P6, P5, P4 by lia. apply Hfld; [lia|range_lia].
    + rewrite P6, P5 by lia. unfold b4, sub, blit.
      rewrite drop_app_ge by (rewrite length_take; lia). rewrite length_take, Nat.min_l, Nat.sub_diag, drop_0 by lia.
      rewrite take_app_ge by len. rewrite <- app_assoc. apply cstr_app_nul, cstr_no_nul.
    + rewrite P6 by lia. apply Hfld; [lia|range_lia].
    + unfold b6. rewrite Hfld; [|lia|apply (wrap_range 16); lia]. apply wrap_id. range_lia.
  - rewrite sub_take by lia. apply sub_blit_same. lia.
Qed.

(** The login request the sdk builds decodes, with the layout the tunnel server uses, to
    the application, the phone number, the token, the port and the host that were given,
    whatever the uninitialised buffer held. *)
(** The login request the sdk builds decodes, with the layout the tunnel server uses, to
    the application, the phone number, the token, the port and the host that were given,
    whatever the uninitialised buffer held. *)
(** The login request the sdk builds decodes, with the layout the tunnel server uses, to
    the application, the phone number, the token, the port and the host that were given,
    whatever the uninitialised buffer held. *)
(** The login request the sdk builds decodes, with the layout the tunnel server uses, to
    the application, the phone number, the token, the port and the host that were given,
    whatever the uninitialised buffer held. *)
(** The login request the sdk builds decodes, with the layout the tunnel server uses, to
    the application, the phone number, the token, the port and the host that were given,
    whatever the uninitialised buffer held. *)
Theorem login_request_decodes junk app mob token port hst :
  length junk = 512%nat → in_u 64 app → in_u 64 mob → strlen token < 32 → in_u 16 port →
  (length hst ≤ 458)%nat → ∃ msg, login_msg junk app mob token port hst = Ok msg ∧
    length msg = (54 + length hst)%nat ∧
    (let r := pdec msg in lq_msg_id r = LOGIN_REQ ∧ lq_app r = app ∧ lq_mobile r = mob ∧
       cstr (lq_token r) = cstr token ∧ lq_port r = port ∧ lq_host_len r = Z.of_nat (length hst)) ∧
    sub 54 (length hst) msg = hst.
Proof. exact (login_msg_decodes junk app mob token port hst). Qed.

(** A concrete instance. *)
(** A concrete instance. *)
(** A concrete instance. *)
(** A concrete instance. *)
(** A concrete instance. *)
Lemma login_request_witness : ∃ msg,
  login_msg (replicate 512 170) 10000000 15711005176 (bs "83cfed9778bf4a77") 443 (bs "www.example.com") = Ok msg ∧
  cstr (lq_token (pdec msg)) = bs "83cfed9778bf4a77" ∧ sub 54 15 msg = bs "www.example.com".
Proof.
  destruct (login_request_decodes (replicate 512 170) 10000000 15711005176 (bs "83cfed9778bf4a77") 443 (bs "www.example.com"))
    as (msg & H1 & _ & (_ & _ & _ & H2 & _) & H3).
  - reflexivity.
  - range_lia.
  - range_lia.
  - reflexivity.
  - range_lia.
  - vm_compute. lia.
  - exists msg. split; [exact H1|]. split; [exact H2|exact H3].
Defined.

(** ** The answer to a login *)

(** A socket that takes everything. *)
Lemma sdk_send_all fd d (s : sdk) : o_send (sys s) = [] → ∃ s', send fd d s = Ok (Z.of_nat (length d), s') ∧
  conns s' = conns s ∧ ConnMap s' = ConnMap s ∧ glob s' = glob s ∧ o_send (sys s') = [] ∧
  o_log (sys s') = o_log (sys s) ++ [IoSend fd d].
Proof.
  intros Ho. unfold send. change (the_os s) with (sys s). rewrite Ho.
  destruct (Z.ltb_spec (Z.of_nat (length d)) 0); [lia|]. rewrite Z.min_id, Nat2Z.id, take_ge by lia.
  eexists. split; [reflexivity|]. split_and!; try reflexivity. unfold with_os, sdk_os. rsimpl. rewrite Ho. done.
Qed.

Lemma SendMsg_run p c msg s : conns s !! p = Some c → o_send (sys s) = [] → ∃ s' x, SendMsg p msg s = Ok (0, s') ∧
  conns s' = <[p := c <| http_transmit_len := x |>]> (conns s) ∧ ConnMap s' = ConnMap s ∧ o_send (sys s') = [] ∧
  o_log (sys s') = o_log (sys s) ++ [IoSend (sock_fd c) msg].
Proof.
  intros Hc Ho. unfold SendMsg. unfold mbind at 1, M_bind at 1, conn. rewrite Hc.
  destruct (sdk_send_all (sock_fd c) msg s Ho) as (s1 & H1 & E1 & E2 & E3 & E4 & E5).
  unfold mbind, M_bind, add_transmit, set_conn, add_cost, modify. rewrite H1, E1, Hc.
  eexists _, _. split; [reflexivity|]. rsimpl. split_and!; try reflexivity; try done.
Qed.

Lemma sdk_SendTmsMsg_run accurate p c msg s : conns s !! p = Some c → o_send (sys s) = [] →
  Z.of_nat (length msg) + HDR ≤ 1024 → ∃ s' v x, SendTmsMsg accurate p msg s = Ok (v, s') ∧
  conns s' = <[p := c <| http_transmit_len := x |>]> (conns s) ∧ ConnMap s' = ConnMap s ∧ o_send (sys s') = [] ∧
  o_log (sys s') = o_log (sys s) ++ [IoSend (sock_fd c) (Frame.frame msg)].
Proof.
  intros Hc Ho Hl. unfold SendTmsMsg. unfold mbind at 1, M_bind at 1, conn. rewrite Hc.
  unfold mbind at 1, M_bind at 1, Frame.SendTmsMsg_bytes, lift. unfold HDR in Hl.
  destruct (Z.leb_spec (Z.of_nat (length msg) + Frame.HDR) 1024); [|lia].
  destruct (sdk_send_all (sock_fd c) (Frame.frame msg) s Ho) as (s1 & H1 & E1 & E2 & E3 & E4 & E5).
  unfold mbind, M_bind, add_transmit, set_conn, add_cost, modify. rewrite H1, E1, Hc.
  eexists _, _, _. split; [reflexivity|]. rsimpl. split_and!; try reflexivity; try done.
Qed.

Lemma sent_to_one fd fd' d : sent_to fd [IoSend fd' d] = if fd' =? fd then d else [].
Proof. unfold sent_to. cbn. destruct (_ =? _); rewrite ?app_nil_r; done. Qed.

(** The bytes of the request that the browser has sent so far. *)
Definition request (d : Connect) : bytes := take (Z.to_nat (r_data_len d)) (r_buff d).

Lemma set_id_conn (c : Connect) : c <| http_transmit_len := http_transmit_len c |> = c.
Proof. destruct c. reflexivity. Qed.

(** A browser [q] and its tunnel [p], as they are while the login is under way. *)
Record waiting_login (p q : Z) (c d : Connect) (s : sdk) : Prop := MkWaitingLogin {
  wl_tunnel : conns s !! p = Some c;
  wl_browser : conns s !! q = Some d;
  wl_ne : p ≠ q;
  wl_peer : peer c = Some q ∧ peer d = Some p;
  wl_type : type d = t_proxy;
  wl_table : ConnMap s !! sock_fd d = Some (Some q);
  wl_fds : sock_fd c ≠ sock_fd d;
  wl_status : status c ≠ sta_hangup;
  wl_buff : length (r_buff c) = R_BUFF;
  wl_data : r_data_len d ≤ Z.of_nat (length (r_buff d));
}.

(** A tunnel record in forwarding mode that keeps the links of [c]. *)
Definition forwarding (c c' : Connect) : Prop :=
  (peer c', sock_fd c', status c', r_buff c') = (peer c, sock_fd c, status c, r_buff c) ∧
  (cstate c', verified c', stillneedtoread c', r_offset c') = (Frame.s_forward, 1, RBUF, 0).

Lemma forwarding_count c c' x : forwarding c c' → forwarding c (c' <| http_transmit_len := x |>).
Proof. done. Qed.

(** The tunnel's part of an accepted login. *)
Lemma switch_run accurate p c s r : conns s !! p = Some c → o_send (sys s) = [] → ∃ s' c',
  ((if negb (lr_avalable_traffic r =? 0)
    then set_conn p (fun c => c <| aval_traffic := u64 (lr_avalable_traffic r) |>) else mret tt);;
   set_conn p (fun c => c <| verified := 1 |>);;
   SwitchConnModeForw accurate p;;
   send_begin_transmit accurate p (lr_forward_id r)) s = Ok (tt, s') ∧
  conns s' = <[p := c']> (conns s) ∧ ConnMap s' = ConnMap s ∧ o_send (sys s') = [] ∧ forwarding c c' ∧
  o_log (sys s') = o_log (sys s)
    ++ [IoSend (sock_fd c) (Frame.frame (penc (MkBeginTransmit BEGIN_TRANSMIT (u32 (lr_forward_id r)))))].
Proof.
  intros Hc Ho.
  assert (∃ s1 c1, (if negb (lr_avalable_traffic r =? 0)
     then set_conn p (fun c => c <| aval_traffic := u64 (lr_avalable_traffic r) |>) else mret tt) s = Ok (tt, s1) ∧
     conns s1 = <[p := c1]> (conns s) ∧ ConnMap s1 = ConnMap s ∧ sys s1 = sys s ∧
     (peer c1, sock_fd c1, status c1, r_buff c1) = (peer c, sock_fd c, status c, r_buff c))
    as (s1 & c1 & H1 & E1 & E2 & E3 & E4).
  { destruct (negb _).
    - unfold set_conn. rewrite Hc. eexists _, _. split; [reflexivity|]. rsimpl. done.
    - exists s, c. rewrite insert_id by done. done. }
  unfold mbind at 1, M_bind at 1. rewrite H1.
  unfold mbind at 1, M_bind at 1, set_conn at 1. rewrite E1, lookup_insert_eq, insert_insert_eq.
  unfold mbind at 1, M_bind at 1, SwitchConnModeForw, set_conn. rsimpl. rewrite lookup_insert_eq, insert_insert_eq. rsimpl.
  set (c2 := c1 <| verified := 1 |> <| cstate := _ |> <| stillneedtoread := _ |> <| r_offset := _ |> <| reply ::= _ |> <| http_transmit_len := _ |>).
  set (s2 := s1 <| conns := _ |> <| conns := _ |>).
  destruct (sdk_SendTmsMsg_run accurate p c2 (penc (MkBeginTransmit BEGIN_TRANSMIT (u32 (lr_forward_id r)))) s2)
    as (s3 & v & x3 & H3 & F1 & F2 & F3 & F4).
  { unfold s2. rsimpl. apply lookup_insert_eq. } { unfold s2. rsimpl. rewrite E3. done. } { vm_compute. discriminate. }
  unfold send_begin_transmit, mbind, M_bind. rewrite H3. exists s3, (c2 <| http_transmit_len := x3 |>).
  split; [reflexivity|]. rewrite F1, F2, F4. unfold s2. rsimpl. rewrite insert_insert_eq, E2, E3. split_and!; try done.
  change (sock_fd c2) with (sock_fd c1). injection E4 as _ -> _ _. done.
Qed.

(** The browser's part: its request goes to the server, or it is told that the
    connection stands. *)
Lemma activate_run p q c d s : conns s !! p = Some c → conns s !! q = Some d → p ≠ q → o_send (sys s) = [] →
  r_data_len d ≤ Z.of_nat (length (r_buff d)) → (http_version d = 0 ∨ http_version d = 1) → ∃ s' xc xd es,
  activate_proxy p q s = Ok (tt, s') ∧
  conns s' = <[q := d <| http_transmit_len := xd |> <| r_data_len := 0 |> <| r_offset := 0 |> <| stillneedtoread := RBUF |>]>
               (<[p := c <| http_transmit_len := xc |>]> (conns s)) ∧ ConnMap s' = ConnMap s ∧
  o_log (sys s') = o_log (sys s) ++ [if http_version d =? 0 then IoSend (sock_fd c) (request d)
                                     else IoSend (sock_fd d) connect_reply_OK] ++ es ∧ ∀ f, sent_to f es = [].
Proof.
  intros Hc Hd Hne Ho Hdat Hver. unfold activate_proxy. unfold mbind at 1, M_bind at 1, conn. rewrite Hc.
  unfold mbind at 1, M_bind at 1, modify. set (s4 := s <| glob ::= _ |>).
  unfold mbind at 1, M_bind at 1. change (conns s4) with (conns s). rewrite Hd.
  assert (∃ s5 xc xd, (if http_version d =? 0 then
     if r_data_len d <=? Z.of_nat (length (r_buff d))
     then _ ← SendMsg p (take (Z.to_nat (r_data_len d)) (r_buff d)); mret tt else fail_with OutOfBounds
     else if http_version d =? 1 then _ ← SendMsg q connect_reply_OK; mret tt else mret tt) s4 = Ok (tt, s5) ∧
     conns s5 = <[q := d <| http_transmit_len := xd |>]> (<[p := c <| http_transmit_len := xc |>]> (conns s)) ∧
     ConnMap s5 = ConnMap s ∧
     o_log (sys s5) = o_log (sys s) ++ [if http_version d =? 0 then IoSend (sock_fd c) (request d)
                                        else IoSend (sock_fd d) connect_reply_OK])
    as (s5 & xc & xd & H5 & G1 & G2 & G5).
  { destruct Hver as [Hv|Hv]; rewrite Hv; cbn [Z.eqb Pos.eqb].
    - destruct (Z.leb_spec (r_data_len d) (Z.of_nat (length (r_buff d)))); [|lia].
      destruct (SendMsg_run p c (request d) s4 Hc Ho) as (s5 & x & H5 & G1 & G2 & G3 & G4).
      unfold mbind, M_bind. change (take (Z.to_nat (r_data_len d)) (r_buff d)) with (request d). rewrite H5.
      exists s5, x, (http_transmit_len d). split; [reflexivity|]. split_and!; [|exact G2|exact G4].
      rewrite G1. change (conns s4) with (conns s). rewrite set_id_conn, (insert_id _ q d); [done|].
      rewrite lookup_insert_ne by done. exact Hd.
    - destruct (SendMsg_run q d connect_reply_OK s4 Hd Ho) as (s5 & x & H5 & G1 & G2 & G3 & G4).
      unfold mbind, M_bind. rewrite H5.
      exists s5, (http_transmit_len c), x. split; [reflexivity|]. split_and!; [|exact G2|exact G4].
      rewrite G1. change (conns s4) with (conns s). rewrite set_id_conn, (insert_id _ p) by done. done. }
  unfold mbind at 1, M_bind at 1. rewrite H5. unfold mbind at 1, M_bind at 1, set_conn. rewrite G1, lookup_insert_eq, insert_insert_eq.
  unfold mbind at 1, M_bind at 1. rsimpl. rewrite lookup_insert_eq. set (s6 := s5 <| conns := _ |>).
  match goal with |- context [AddREvent ?f] => destruct (ctl_cases EPOLL_CTL_ADD f (Z.lor EPOLLIN EPOLLET) s6)
    as (rr & s7 & es & Hctl & I1 & I2 & _ & _ & _ & I4 & I5) end.
  unfold mbind, M_bind, AddREvent. rewrite Hctl. exists s7, xc, xd, es. split; [reflexivity|].
  rewrite I1, I2, I4. unfold s6. rsimpl. rewrite G2, G5, <- app_assoc. split_and!; done.
Qed.

(** C25: when the server accepts a login, the tunnel becomes a relay between server and
    browser: BEGIN_TRANSMIT with the low 32 bits of the forward id is sent, followed by
    the request kept for http, and for https the browser is told that the connection is
    established. *)
Theorem login_accepted accurate p q c d s r : waiting_login p q c d s → o_send (sys s) = [] →
  lr_rsp_code r = 0 → (http_version d = 0 ∨ http_version d = 1) → ∃ s' c',
  on_login_rsp accurate p r s = Ok (tt, s') ∧ relay p q (sock_fd c) (sock_fd d) c' s' ∧ verified c' = 1 ∧
  sent_to (sock_fd c) (o_log (sys s')) = sent_to (sock_fd c) (o_log (sys s))
    ++ Frame.frame (penc (MkBeginTransmit BEGIN_TRANSMIT (u32 (lr_forward_id r))))
    ++ (if http_version d =? 0 then request d else []) ∧
  sent_to (sock_fd d) (o_log (sys s')) = sent_to (sock_fd d) (o_log (sys s))
    ++ (if http_version d =? 0 then [] else connect_reply_OK).
Proof.
  intros [Hc Hd Hne [Hpc Hpd] Htd Htab Hfds Hst Hbuf Hdat] Ho Hcode Hver.
  destruct (switch_run accurate p c s r Hc Ho) as (s3 & c3 & H3 & E1 & E2 & E3 & [E4 E5] & E6).
  injection E4 as P1 P2 P3 P4. injection E5 as Q1 Q2 Q3 Q4.
  assert (conns s3 !! p = Some c3 ∧ conns s3 !! q = Some d) as [Hc3 Hd3].
  { rewrite E1, lookup_insert_eq, lookup_insert_ne by done. done. }
  destruct (activate_run p q c3 d s3 Hc3 Hd3 Hne E3 Hdat Hver) as (s' & xc & xd & es & H4 & F1 & F2 & F3 & F4).
  exists s', (c3 <| http_transmit_len := xc |>). split; [|split; [|split; [exact Q2|]]].
  - unfold on_login_rsp. rewrite Hcode. cbn [Z.eqb].
    apply bind_Ok in H3 as ([] & sa & Ha & H3). apply bind_Ok in H3 as ([] & sb & Hb & H3).
    apply bind_Ok in H3 as ([] & sc & Hs & H3).
    unfold mbind, M_bind. rewrite Ha, Hb, Hs, H3. unfold conn. rewrite Hc3, P1, Hpc. exact H4.
  - constructor; rewrite ?F1, ?F2, ?E2; auto; try congruence.
    + rewrite lookup_insert_ne, lookup_insert_eq by done. done.
    + eexists. rewrite lookup_insert_eq. done.
    + exact (eq_trans P1 Hpc).
    + exact (eq_trans (f_equal length P4) Hbuf).
    + left. split_and!; [|exact Q4|exact Q3]. change (status c3 ≠ sta_hangup). congruence.
  - rewrite F3, E6, !sent_to_app, !F4, !sent_to_one, P2, Z.eqb_refl, <- !app_assoc.
    destruct (Z.eqb_spec (sock_fd c) (sock_fd d)) as [|Hn]; [done|].
    destruct Hver as [-> | ->]; cbn [Z.eqb Pos.eqb]; rewrite !sent_to_one, !Z.eqb_refl; rewrite ?app_nil_r.
    + destruct (Z.eqb_spec (sock_fd c) (sock_fd d)); [done|]. rewrite !app_nil_r. done.
    + destruct (Z.eqb_spec (sock_fd d) (sock_fd c)); [congruence|]. split; [rewrite ?app_nil_r; done|done].
Qed.

(** A browser with a request of 16 bytes and its tunnel. *)
Definition demo_client : Connect :=
  demo_browser <| r_buff := bs "GET / HTTP/1.1" ++ [CR; LF] ++ replicate 4080 0 |> <| r_data_len := 16 |>.

Definition demo_wait : sdk :=
  demo_pair (demo_tunnel <| cstate := Frame.s_header |>) os_init
    <| conns := {[ 1 := demo_tunnel <| cstate := Frame.s_header |>; 2 := demo_client ]} |>.

Lemma demo_waiting : waiting_login 1 2 (demo_tunnel <| cstate := Frame.s_header |>) demo_client demo_wait.
Proof. constructor; try reflexivity; done. Qed.

(** Witness of C25. *)
Lemma login_accepted_witness : ∃ s' c',
  on_login_rsp true 1 (MkLoginRsp LOGIN_RSP 0 1000 42) demo_wait = Ok (tt, s') ∧ verified c' = 1 ∧
  sent_to 7 (o_log (sys s')) = Frame.frame (penc (MkBeginTransmit BEGIN_TRANSMIT 42)) ++ bs "GET / HTTP/1.1" ++ [CR; LF].
Proof.
  destruct (login_accepted true 1 2 _ _ demo_wait (MkLoginRsp LOGIN_RSP 0 1000 42) demo_waiting) as (s' & c' & H1 & _ & H2 & H3 & _).
  - reflexivity.
  - reflexivity.
  - left. reflexivity.
  - exists s', c'. split; [exact H1|]. split; [exact H2|exact H3].
Defined.



(** ** What the event loop does not survive *)

(** A writable event for a descriptor that is not in the table dereferences null:
    HandleEPOEvent inserts a null pointer under it, which RemoveConnect then follows. *)
(** A writable event for a descriptor that is not in the table dereferences null:
    HandleEPOEvent inserts a null pointer under it, which RemoveConnect then follows. *)
(** A writable event for a descriptor that is not in the table dereferences null:
    HandleEPOEvent inserts a null pointer under it, which RemoveConnect then follows. *)
(** A writable event for a descriptor that is not in the table dereferences null:
    HandleEPOEvent inserts a null pointer under it, which RemoveConnect then follows. *)
(** A writable event for a descriptor that is not in the table dereferences null:
    HandleEPOEvent inserts a null pointer under it, which RemoveConnect then follows. *)
(** A writable event for a descriptor that is not in the table dereferences null:
    HandleEPOEvent inserts a null pointer under it, which RemoveConnect then follows. *)
(** A writable event for a descriptor that is not in the table dereferences null:
    HandleEPOEvent inserts a null pointer under it, which RemoveConnect then follows. *)
(** A writable event for a descriptor that is not in the table dereferences null:
    HandleEPOEvent inserts a null pointer under it, which RemoveConnect then follows. *)
(** A writable event for a descriptor that is not in the table dereferences null:
    HandleEPOEvent inserts a null pointer under it, which RemoveConnect then follows. *)
(** A writable event for a descriptor that is not in the table dereferences null:
    HandleEPOEvent inserts a null pointer under it, which RemoveConnect then follows. *)
(** A writable event for a descriptor that is not in the table dereferences null:
    HandleEPOEvent inserts a null pointer under it, which RemoveConnect then follows. *)
(** A writable event for a descriptor that is not in the table dereferences null:
    HandleEPOEvent inserts a null pointer under it, which RemoveConnect then follows. *)
(** A writable event for a descriptor that is not in the table dereferences null:
    HandleEPOEvent inserts a null pointer under it, which RemoveConnect then follows. *)
(** A writable event for a descriptor that is not in the table dereferences null:
    HandleEPOEvent inserts a null pointer under it, which RemoveConnect then follows. *)
(** A writable event for a descriptor that is not in the table dereferences null:
    HandleEPOEvent inserts a null pointer under it, which RemoveConnect then follows. *)
Theorem writable_unknown_faults accurate m_socket fd s : 0 ≤ fd → ConnMap s !! fd = None →
  default 0 (o_sockerr (sys s) !! fd) = 0 →
  handle_event accurate m_socket fd EPOLLOUT s = Bad NullDeref.
Proof.
  intros Hfd Hm He. unfold handle_event. change (has EPOLLOUT EPOLLIN) with false. change (has EPOLLOUT EPOLLOUT) with true.
  unfold mbind at 1, M_bind at 1, mret, M_ret. unfold mbind at 1, M_bind at 1, so_error, gets.
  change (the_os s) with (sys s). rewrite He. change ((0 =? 0) || (0 =? EAGAIN)) with true. cbv iota.
  unfold HandleEPOEvent, mbind, M_bind, gets, modify. rewrite Hm, decide_True by done. cbv beta iota.
  change (-1 =? -1) with true. cbv iota. unfold RemoveConnect. destruct (Z.ltb_spec fd 0); [lia|].
  unfold mbind, M_bind, gets, mret, M_ret. change (-1 =? -1) with true. cbv beta iota. rsimpl. rewrite lookup_insert_eq. done.
Qed.

(** A concrete instance. *)
(** A concrete instance. *)
(** A concrete instance. *)
(** A concrete instance. *)
(** A concrete instance. *)
(** A concrete instance. *)
(** A concrete instance. *)
(** A concrete instance. *)
(** A concrete instance. *)
(** A concrete instance. *)
(** A concrete instance. *)
(** A concrete instance. *)
(** A concrete instance. *)
(** A concrete instance. *)
(** A concrete instance. *)
Lemma writable_unknown_witness :
  handle_event true 3 7 EPOLLOUT (SdkInv.after_run (RemoveConnect 5) SdkInv.demo3) = Bad NullDeref.
Proof.
  apply (writable_unknown_faults true 3 7 (SdkInv.after_run (RemoveConnect 5) SdkInv.demo3)).
  - lia.
  - vm_compute. reflexivity.
  - vm_compute. reflexivity.
Defined.

(** After the recycler has moved a block that still transmits, the iterator of its
    connection is that of the next element; when that one is removed, closing the first
    connection uses a freed list node. *)
(** After the recycler has moved a block that still transmits, the iterator of its
    connection is that of the next element; when that one is removed, closing the first
    connection uses a freed list node. *)
(** After the recycler has moved a block that still transmits, the iterator of its
    connection is that of the next element; when that one is removed, closing the first
    connection uses a freed list node. *)
(** After the recycler has moved a block that still transmits, the iterator of its
    connection is that of the next element; when that one is removed, closing the first
    connection uses a freed list node. *)
(** After the recycler has moved a block that still transmits, the iterator of its
    connection is that of the next element; when that one is removed, closing the first
    connection uses a freed list node. *)
(** After the recycler has moved a block that still transmits, the iterator of its
    connection is that of the next element; when that one is removed, closing the first
    connection uses a freed list node. *)
(** After the recycler has moved a block that still transmits, the iterator of its
    connection is that of the next element; when that one is removed, closing the first
    connection uses a freed list node. *)
(** After the recycler has moved a block that still transmits, the iterator of its
    connection is that of the next element; when that one is removed, closing the first
    connection uses a freed list node. *)
(** After the recycler has moved a block that still transmits, the iterator of its
    connection is that of the next element; when that one is removed, closing the first
    connection uses a freed list node. *)
(** After the recycler has moved a block that still transmits, the iterator of its
    connection is that of the next element; when that one is removed, closing the first
    connection uses a freed list node. *)
(** After the recycler has moved a block that still transmits, the iterator of its
    connection is that of the next element; when that one is removed, closing the first
    connection uses a freed list node. *)
(** After the recycler has moved a block that still transmits, the iterator of its
    connection is that of the next element; when that one is removed, closing the first
    connection uses a freed list node. *)
(** After the recycler has moved a block that still transmits, the iterator of its
    connection is that of the next element; when that one is removed, closing the first
    connection uses a freed list node. *)
(** After the recycler has moved a block that still transmits, the iterator of its
    connection is that of the next element; when that one is removed, closing the first
    connection uses a freed list node. *)
(** After the recycler has moved a block that still transmits, the iterator of its
    connection is that of the next element; when that one is removed, closing the first
    connection uses a freed list node. *)
Example scan_delay_dangles :
  let s0 := sdk_init (replicate 32 0) (replicate 512 0) env_init (os_init <| o_accept := [5; 6] |> <| o_now := Tv 100 0 |>) in
  let s1 := SdkInv.after_run HandleAcceptEvent (SdkInv.after_run HandleAcceptEvent s0) in
  let s2 := with_os (fun o => o <| o_now := Tv 120 0 |>) (SdkInv.after_run (SendMsg 1 connect_reply_OK) s1) in
  ∃ s3, CRBScan s2 = Ok (tt, s3) ∧ ConnMap s3 = {[ 5 := Some 1 ]} ∧ RemoveConnect 5 s3 = Bad UseAfterFree.
Proof.
  intros s0 s1 s2. exists (SdkInv.after_run CRBScan s2). split_and!; vm_compute; reflexivity.
Qed.

(** ** Accounting and input that comes in pieces *)

(** A failed write adds the -1 it returns to the traffic that the application
    polls. *)
Theorem failed_send_counts p c msg k l s : conns s !! p = Some c → o_send (sys s) = k :: l → k < 0 →
  g_rpt_traff_cost (glob s) = 0 → ∃ s',
  SendMsg p msg s = Ok (0, s') ∧ (YMERptTraffCost (glob s')).1 = 2 ^ 64 - 1.
Proof.
  intros Hc Ho Hk Hg. unfold SendMsg. unfold mbind at 1, M_bind at 1, conn. rewrite Hc.
  unfold mbind at 1, M_bind at 1, send. change (the_os s) with (sys s). rewrite Ho.
  destruct (Z.ltb_spec k 0); [|lia]. unfold mbind, M_bind, add_transmit, set_conn, add_cost, modify, with_os, sdk_os. rsimpl.
  rewrite Hc. eexists. split; [reflexivity|]. unfold YMERptTraffCost. rsimpl. rewrite Hg. reflexivity.
Qed.

(** The browser's connection of the session in [SdkInv], with [segs] arriving one
    after another, each followed by its event. *)
Fixpoint browser_sends (segs : list bytes) (s : sdk) : sdk :=
  match segs with
  | [] => s
  | b :: segs =>
    browser_sends segs (SdkInv.after_run (recv_event true RECV_ROUNDS 5)
      (with_os (fun o => o <| o_rx := {[ 5 := (b, false) ]} |>) s))
  end.

(** When the server cannot be reached nothing is written to the browser: the page
    goes to the peer, and there is none. *)
Example unreachable_server_silent :
  sent_to 5 (o_log (sys (browser_sends [SdkInv.demo_request] SdkInv.demo1))) = [].
Proof. vm_compute. reflexivity. Qed.

(** A request whose [Host] line is in a second segment loses the first: the bytes
    are read over it. *)
Example first_segment_lost :
  let s := browser_sends [bs "GET / HTTP/1.1" ++ [CR; LF]; crlfs ["Host: a.com"; ""]%string]
             (with_os (fun o => o <| o_socket := [7] |>) SdkInv.demo1) in
  request <$> conns s !! 1 = Some (crlfs ["Host: a.com"; ""]%string).
Proof. vm_compute. reflexivity. Qed.

(** Bytes that come before the login is answered send the login again. *)
Example login_sent_again :
  let s := browser_sends [SdkInv.demo_request; bs "more"] (with_os (fun o => o <| o_socket := [7] |>) SdkInv.demo1) in
  ∃ msg, sent_to 7 (o_log (sys s)) = Frame.frame msg ++ Frame.frame msg ∧ lq_msg_id (pdec msg) = LOGIN_REQ.
Proof.
  intros s. exists (sub 6 (54 + 15) (sent_to 7 (o_log (sys s)))). split; vm_compute; reflexivity.
Qed.

End SdkProps.
