(* ===== verification/SdkApi.v ===== *)
(** * The SDK's own requests (src/sdk/sdk/SdkEnv.cpp)

    The functions by which an application opens a connection of its own, sends a
    request and reads the reply.  A call that waits for the event loop is given what
    the loop does meanwhile: [others] runs while the caller is blocked, and
    [timed_out] says how the wait ends. *)

From S2P Require Import Prelude Wire Frame Os Dns SdkEnv SdkHttp SdkState SdkNet.
From stdpp Require Import base gmap list strings.
From Stdlib Require Import ZArith Lia.
Import Wire Os SdkEnv SdkHttp SdkState SdkNet.

Open Scope Z_scope.

Module SdkApi.

Section Api.
Variable accurate : bool.

(** [YMEConnectable] *)
Definition YMEConnectable : K Z :=
  now ← gettimeofday;
  modify (fun s => s <| accept_begin_time := now_us now |> <| time_window := 1 |>);;
  mret 0.

(** [Connect::WaitReply] *)
Definition WaitReply (others : K unit) (timed_out : bool) (p : Z) : K Z :=
  others;;
  c ← conn p;
  mret (if timed_out then -1 else if status c =? sta_offline then -1 else 0).

(** [YMEShutDown]: the entry of the table is erased after the object. *)
Definition YMEShutDown (fd : Z) : K Z :=
  m ← gets ConnMap;
  match m !! fd with
  | None => mret (-1)
  | Some o =>
    match o with Some p => delete_conn p | None => mret tt end;;
    erase_map fd;;
    mret 0
  end.

(** [cm._ConnMap[fd]]: a null entry is made when there is none. *)
Definition table_at (fd : Z) : K (option Z) :=
  m ← gets ConnMap;
  (if decide (m !! fd = None) then modify (fun s => s <| ConnMap := <[fd := None]> (ConnMap s) |>) else mret tt);;
  mret (default None (m !! fd)).

(** [YMELoginTms]: the handle or a negative code, and the traffic left.  The length
    of the copy to [c->auth] is that of what the array held before. *)
Definition YMELoginTms (others : K unit) (ip port app mob : Z) (token hst : bytes) : K (Z * option Z) :=
  r ← CreateConn ip port;
  match r with
  | None => mret (-1, None)
  | Some p =>
    c ← conn p;
    let n := strlen (auth c) + 1 in
    if negb ((n <=? 32) && (n <=? strlen token + 1)) then fail_with OutOfBounds else
    set_conn p (fun c => c <| auth := blit 0 (take (Z.to_nat n) (cstr token ++ [0])) (auth c) |> <| uid := app |>
                           <| mobile := mob |> <| host := hst |> <| web_port := 80 |>);;
    if 32 <=? strlen token then fail_with OutOfBounds else
    junk ← gets stack0;
    msg ← lift (login_msg junk app mob token 80 hst);
    c ← conn p;
    _ ← AddREvent (sock_fd c);
    _ ← SendTmsMsg accurate p msg;
    _ ← WaitReply others false p;
    c ← conn p;
    if login_code c <? 0 then
      _ ← YMEShutDown (sock_fd c);
      mret (login_code c, None)
    else mret (sock_fd c, Some (aval_traffic c))
  end.

(** [YMESend]: the code and the reply. *)
Definition YMESend (others : K unit) (timed_out : bool) (fd : Z) (msg : bytes) : K (Z * option bytes) :=
  o ← table_at fd;
  match o with
  | None => mret (RT_Down, None)
  | Some p =>
    c ← conn p;
    if status c =? sta_online then
      set_conn p (fun c => c <| reply ::= fun h => h <| datalist := [] |> |>);;
      _ ← SendMsg p msg;
      ret ← WaitReply others timed_out p;
      c ← conn p;
      match datalist (reply c) with
      | [] => mret (RT_Exception, None)
      | r :: _ =>
        if ret =? 0 then
          set_conn p (fun c => c <| status := sta_disconnected |>);;
          mret (RT_DownWithData, Some r)
        else mret (RT_Data, Some r)
      end
    else mret (RT_Down, None)
  end.

(** [YMEFreeBuff]; [pop_front] on an empty list is undefined. *)
Definition YMEFreeBuff (fd : Z) : K Z :=
  o ← table_at fd;
  match o with
  | None => mret (-1)
  | Some p =>
    c ← conn p;
    match datalist (reply c) with
    | [] => fail_with OutOfBounds
    | _ :: l => set_conn p (fun c => c <| reply ::= fun h => h <| datalist := l |> |>);; mret 0
    end
  end.

(** [ConnPool]: the handle of the last login for a host. *)
Definition pool := gmap bytes Z.

(** The accounting after a request. *)
Definition settle_cost (handle : Z) : K Z :=
  o ← table_at handle;
  match o with
  | None => mret 0
  | Some p =>
    c ← conn p;
    modify (fun s => s <| glob ::= fun e => e <| g_aval_traffic := u64 (g_aval_traffic e - http_transmit_len c) |> |>);;
    set_conn p (fun c => c <| http_transmit_len := 0 |>);;
    mret (http_transmit_len c)
  end.

(** [YMEReqPage]: the code, the reply and the pool.  [others] gives what the loop
    does in each wait in turn: the login's and the reply's of the first and of the
    second connection. *)
Definition request_on (others : K unit) (timed_out : bool) (handle : Z) (hst req : bytes) (pl : pool)
    : K (Z * option bytes * pool) :=
  '(ret, r) ← YMESend others timed_out handle req;
  _ ← settle_cost handle;
  if ret =? RT_DownWithData then _ ← YMEShutDown handle; mret (0, r, <[hst := 0]> pl)
  else if ret =? RT_Down then _ ← YMEShutDown handle; mret (RT_Down, r, <[hst := 0]> pl)
  else mret (handle, r, pl).

Definition login_and_request (login others : K unit) (timed_out : bool) (ip port app mob : Z)
    (token hst req : bytes) (pl : pool) : K (Z * option bytes * pool) :=
  '(handle, remaining) ← YMELoginTms login ip port app mob token hst;
  match remaining with
  | Some v => modify (fun s => s <| glob ::= fun e => e <| g_aval_traffic := v |> |>)
  | None => mret tt
  end;;
  if handle <? 0 then mret (handle, None, pl)
  else request_on others timed_out handle hst req (<[hst := handle]> pl).

Definition YMEReqPage (first login others : K unit) (timed_out : bool) (ip port app mob : Z)
    (token hst req : bytes) (pl : pool) : K (Z * option bytes * pool) :=
  match pl !! hst with
  | Some handle =>
    if handle =? 0 then login_and_request login others timed_out ip port app mob token hst req pl
    else
      '(v, r, pl') ← request_on first timed_out handle hst req pl;
      if v =? RT_Down then login_and_request login others timed_out ip port app mob token hst req pl'
      else mret (v, r, pl')
  | None => login_and_request login others timed_out ip port app mob token hst req pl
  end.

End Api.

(** ** The accept window *)

(** A connection at each of the times [ts] in turn. *)
Fixpoint accept_at (ts : list timeval) : K (list bool) :=
  match ts with
  | [] => mret []
  | t :: ts =>
    modify (with_os (fun o => o <| o_now := t |>));;
    b ← in_window;
    l ← accept_at ts;
    mret (b :: l)
  end.

(** Each time is within five seconds of the one before. *)
Fixpoint close_by (begin : Z) (ts : list timeval) : Prop :=
  match ts with
  | [] => True
  | t :: ts => now_us t - begin ≤ 5000000 ∧ close_by (now_us t) ts
  end.

(** The time window of YMEConnectable slides: each accepted connection restarts it, so
    connections that are less than five seconds apart are accepted for ever. *)
(** The time window of YMEConnectable slides: each accepted connection restarts it, so
    connections that are less than five seconds apart are accepted for ever. *)
(** The time window of YMEConnectable slides: each accepted connection restarts it, so
    connections that are less than five seconds apart are accepted for ever. *)
(** The time window of YMEConnectable slides: each accepted connection restarts it, so
    connections that are less than five seconds apart are accepted for ever. *)
(** The time window of YMEConnectable slides: each accepted connection restarts it, so
    connections that are less than five seconds apart are accepted for ever. *)
(** The time window of YMEConnectable slides: each accepted connection restarts it, so
    connections that are less than five seconds apart are accepted for ever. *)
(** The time window of YMEConnectable slides: each accepted connection restarts it, so
    connections that are less than five seconds apart are accepted for ever. *)
(** The time window of YMEConnectable slides: each accepted connection restarts it, so
    connections that are less than five seconds apart are accepted for ever. *)
(** The time window of YMEConnectable slides: each accepted connection restarts it, so
    connections that are less than five seconds apart are accepted for ever. *)
(** The time window of YMEConnectable slides: each accepted connection restarts it, so
    connections that are less than five seconds apart are accepted for ever. *)
Theorem window_slides ts s : time_window s ≠ 0 → close_by (accept_begin_time s) ts → ∃ s',
  accept_at ts s = Ok (replicate (length ts) true, s') ∧
  accept_begin_time s' = default (accept_begin_time s) (now_us <$> last ts).
Proof.
  revert s. induction ts as [|t ts IH]; intros s Hw Hc; [eexists; split; reflexivity|]. destruct Hc as [Ht Hc].
  cbn [accept_at]. unfold mbind at 1, M_bind at 1, modify. set (s1 := with_os _ s).
  unfold mbind at 1, M_bind at 1, in_window. unfold mbind, M_bind, gets, gettimeofday, gets, modify.
  change (time_window s1) with (time_window s). destruct (Z.eqb_spec (time_window s) 0); [done|].
  assert (o_now (the_os s1) = t) as Hnow by (unfold s1; rewrite the_with_os; reflexivity).
  rewrite Hnow. change (accept_begin_time s1) with (accept_begin_time s).
  destruct (Z.ltb_spec (MINUTE * 5) (now_us t - accept_begin_time s)); [unfold MINUTE in *; lia|].
  unfold mret at 1, M_ret at 1.
  destruct (IH (s1 <| accept_begin_time := now_us t |>)) as (s2 & H2 & Hb); [done|exact Hc|].
  rewrite H2. eexists. split; [reflexivity|]. rewrite Hb. rsimpl. destruct ts as [|t' ts]; [reflexivity|].
  rewrite last_cons_cons. destruct (last (t' :: ts)) eqn:El; [reflexivity|]. apply last_None in El. done.
Qed.

(** A concrete instance. *)
(** A concrete instance. *)
(** A concrete instance. *)
(** A concrete instance. *)
(** A concrete instance. *)
(** A concrete instance. *)
(** A concrete instance. *)
(** A concrete instance. *)
(** A concrete instance. *)
(** A concrete instance. *)
Lemma window_slides_witness : ∃ s0 s',
  YMEConnectable (sdk_init [] [] env_init (os_init <| o_now := Tv 100 0 |>)) = Ok (0, s0) ∧
  accept_at [Tv 104 0; Tv 108 0; Tv 112 0] s0 = Ok ([true; true; true], s') ∧ accept_begin_time s' = 112000000.
Proof.
  eexists. destruct (window_slides [Tv 104 0; Tv 108 0; Tv 112 0]
    (sdk_init [] [] env_init (os_init <| o_now := Tv 100 0 |>) <| accept_begin_time := 100000000 |> <| time_window := 1 |>))
    as (s' & H1 & H2).
  - discriminate.
  - vm_compute. repeat split; discriminate.
  - exists s'. split; [reflexivity|]. split; [exact H1|exact H2].
Defined.

(** ** The server closes a connection of the application *)

(** When the server closes a connection made by YMELoginTms, which has no peer, the
    event loop dereferences the null peer. *)
(** When the server closes a connection made by YMELoginTms, which has no peer, the
    event loop dereferences the null peer. *)
(** When the server closes a connection made by YMELoginTms, which has no peer, the
    event loop dereferences the null peer. *)
(** When the server closes a connection made by YMELoginTms, which has no peer, the
    event loop dereferences the null peer. *)
(** When the server closes a connection made by YMELoginTms, which has no peer, the
    event loop dereferences the null peer. *)
(** When the server closes a connection made by YMELoginTms, which has no peer, the
    event loop dereferences the null peer. *)
(** When the server closes a connection made by YMELoginTms, which has no peer, the
    event loop dereferences the null peer. *)
(** When the server closes a connection made by YMELoginTms, which has no peer, the
    event loop dereferences the null peer. *)
(** When the server closes a connection made by YMELoginTms, which has no peer, the
    event loop dereferences the null peer. *)
(** When the server closes a connection made by YMELoginTms, which has no peer, the
    event loop dereferences the null peer. *)
(** When the server closes a connection made by YMELoginTms, which has no peer, the
    event loop dereferences the null peer. *)
(** When the server closes a connection made by YMELoginTms, which has no peer, the
    event loop dereferences the null peer. *)
(** When the server closes a connection made by YMELoginTms, which has no peer, the
    event loop dereferences the null peer. *)
(** When the server closes a connection made by YMELoginTms, which has no peer, the
    event loop dereferences the null peer. *)
(** When the server closes a connection made by YMELoginTms, which has no peer, the
    event loop dereferences the null peer. *)
Theorem login_connection_closed_faults accurate m_socket fd p c s : 0 < fd → fd ≠ m_socket →
  ConnMap s !! fd = Some (Some p) → conns s !! p = Some c → type c = t_tunnel → peer c = None → sock_fd c = fd →
  stillneedtoread c ≠ 0 → rx_of fd (sys s) = ([], true) → o_errno (sys s) ≠ EINTR →
  handle_event accurate m_socket fd EPOLLIN s = Bad NullDeref.
Proof.
  intros Hpos Hms Hm Hc Ht Hp Hfd Hn Hrx He. unfold handle_event. change (has EPOLLIN EPOLLIN) with true. cbv iota.
  destruct (Z.eqb_spec fd m_socket); [done|]. apply bind_fault. unfold RECV_ROUNDS. cbn [recv_event].
  unfold mbind at 1, M_bind at 1, HandleRecvEvent. unfold mbind at 1, M_bind at 1, gets. rewrite Hm.
  unfold mbind at 1, M_bind at 1, conn. rewrite Hc, Ht. change (t_tunnel =? t_proxy) with false. cbv iota.
  unfold mbind at 1, M_bind at 1, set_conn. rewrite Hc. set (c1 := c <| host := [] |>). set (s1 := s <| conns := _ |>).
  unfold StreamRecvEvent. assert (conns s1 !! p = Some c1) as Hc1 by (unfold s1; rsimpl; apply lookup_insert_eq).
  rewrite Hc1. change (sys s1) with (sys s). change (sock_fd c1) with (sock_fd c). rewrite Hfd, Hrx. cbn [stream_loop fst length].
  unfold mbind at 1, M_bind at 1, conn. rewrite Hc1. unfold mbind at 1, M_bind at 1, read.
  change (the_os s1) with (sys s). rewrite Hrx. change (stillneedtoread c1) with (stillneedtoread c).
  unfold Frame.sock_read. destruct (Z.eqb_spec (stillneedtoread c) 0); [done|]. change (0 <? 0) with false.
  change (0 <=? 0) with true. cbv beta iota. unfold mret at 1, M_ret at 1. unfold mbind at 1, M_bind at 1, errno, gets.
  change (the_os s1) with (sys s). change (0 =? -2) with false. change (0 =? -1) with false. change (0 =? 0) with true. cbv iota.
  destruct (Z.eqb_spec (o_errno (sys s)) EINTR); [done|]. cbn [negb]. apply bind_fault. unfold RemoveConnect.
  destruct (Z.ltb_spec fd 0); [lia|]. unfold mbind at 1, M_bind at 1, gets. change (ConnMap s1) with (ConnMap s). rewrite Hm.
  unfold nonnull, mret, M_ret. unfold mbind at 1, M_bind at 1. unfold mbind at 1, M_bind at 1, conn. rewrite Hc1.
  change (type c1) with (type c). rewrite Ht. change (t_tunnel =? t_proxy) with false. cbv iota.
  unfold mbind, M_bind, set_conn. rewrite Hc1. change (peer c1) with (peer c). rewrite Hp. done.
Qed.

(** A concrete instance. *)
(** A concrete instance. *)
(** A concrete instance. *)
(** A concrete instance. *)
(** A concrete instance. *)
(** A concrete instance. *)
(** A concrete instance. *)
(** A concrete instance. *)
(** A concrete instance. *)
(** A concrete instance. *)
(** A concrete instance. *)
(** A concrete instance. *)
(** A concrete instance. *)
(** A concrete instance. *)
(** A concrete instance. *)
Lemma login_closed_witness :
  handle_event true 3 7 EPOLLIN
    (sdk_init [] [] env_init (os_init <| o_rx := {[ 7 := ([], true) ]} |>)
       <| conns := {[ 1 := Connect_new (replicate 32 0) <| sock_fd := 7 |> <| stillneedtoread := HDR |> ]} |>
       <| ConnMap := {[ 7 := Some 1 ]} |>) = Bad NullDeref.
Proof.
  eapply (login_connection_closed_faults true 3 7 1); try reflexivity; discriminate.
Defined.

End SdkApi.
