(* ===== verification/SdkPages.v ===== *)
(** * The page cache of the sdk (src/sdk/sdk/YMEUtils.cpp, YMEUtils.h)

    [PageCache::parse_test_page] cuts the catalogue of a news site into items, or an
    article into its title, paragraphs and images; [ParsePage] keeps them, and
    [GetNewsItem] and [GetContentItems] look them up.  Strings are lists of bytes,
    positions are [size_t] with the wrap-around of [npos + k].

    Pages are also given the other way round, as the text made from rows and blocks, to
    state that the parser gets back what the page was made from. *)

From S2P Require Import Prelude.
From stdpp Require Import base list strings sorting.
From Stdlib Require Import ZArith Lia.

Open Scope Z_scope.

Module SdkPages.

(** ** std::string *)

Definition npos : Z := 2 ^ 64 - 1.

Definition size (s : bytes) : Z := Z.of_nat (length s).

Fixpoint starts (pat l : bytes) : bool :=
  match pat, l with
  | [], _ => true
  | a :: pat, b :: l => (a =? b) && starts pat l
  | _ :: _, [] => false
  end.

Fixpoint find_from (pat l : bytes) (p : Z) : Z :=
  if starts pat l then p else
  match l with
  | [] => npos
  | _ :: l => find_from pat l (p + 1)
  end.

(** [s.find(pat, pos)] *)
Definition find (s pat : bytes) (pos : Z) : Z :=
  if size s <? pos then npos else find_from pat (drop (Z.to_nat pos) s) pos.

(** [std::string(s, pos, n)], which throws when [pos] is behind the end *)
Definition substr (s : bytes) (pos n : Z) : result bytes :=
  if size s <? pos then Bad Aborted else Ok (take (Z.to_nat n) (drop (Z.to_nat pos) s)).

(** ** Data *)

Record newsItem := MkNews { newsId : Z; title : bytes; url : bytes }.

Record contentItem := MkContent { contentType : Z; content : bytes }.

Definition ECT_Catagory : Z := 0.
Definition ECT_Content : Z := 1.
Definition ECT_Title : Z := 2.
Definition ECT_Text : Z := 3.
Definition ECT_Image : Z := 4.

(** [PageCache], and the static counter of [parse_test_page] *)
Record PageCache := MkPages {
  cached_page_ : list bool;
  catagory_ : list newsItem;
  content_ : list (list contentItem);
  serial : Z;
}.

#[export] Instance eta_PageCache : Eta PageCache := fun c => MkPages (cached_page_ c) (catagory_ c) (content_ c) (serial c).

Definition PageCache_new : PageCache := MkPages [] [] [] 0.

Definition QUOTE : Z := 34.
Definition THEAD : bytes := bs "</thead>".
Definition BOX : bytes := bs "checkbox".
Definition TD : bytes := bs "<td>".
Definition TD_END : bytes := bs "</td>".
Definition HREF : bytes := bs "href=" ++ [QUOTE].
Definition URL_END : bytes := [QUOTE] ++ bs ">".
Definition TITLE : bytes := bs "type=" ++ [QUOTE] ++ bs "text" ++ [QUOTE] ++ bs " name=" ++ [QUOTE] ++ bs "title" ++ [QUOTE] ++ bs " value=" ++ [QUOTE].
Definition TITLE_END : bytes := [QUOTE] ++ bs " />".
Definition CONTENT : bytes := [QUOTE] ++ bs " id=" ++ [QUOTE] ++ bs "content" ++ [QUOTE] ++ bs ">".
Definition IMG : bytes := bs "<img src=" ++ [QUOTE].
Definition PAR : bytes := bs "<p>".
Definition PAR_END : bytes := bs "</p>".

(** ** The parser *)

(** One turn of the loop over the catalogue: title, url and the next position *)
Definition catagory_row (input : bytes) (pos : Z) : result (bytes * bytes * Z) :=
  let pos := find input TD_END pos in
  let pos := find input TD_END (u64 (pos + 1)) in
  let pos := find input TD pos in
  let pos := u64 (pos + size TD) in
  let end_ := find input TD_END pos in
  match substr input pos (u64 (end_ - pos)) with
  | Bad f => Bad f
  | Ok title =>
    let pos := find input HREF end_ in
    let pos := u64 (pos + size HREF) in
    let end_ := find input URL_END pos in
    match substr input pos (u64 (end_ - pos)) with
    | Bad f => Bad f
    | Ok url => Ok (title, url, find input BOX pos)
    end
  end.

Fixpoint catagory_loop (fuel : nat) (input : bytes) (pos serial : Z) (v : list newsItem) : result (Z * list newsItem) :=
  match fuel with
  | O => Bad OutOfFuel
  | S fuel' =>
    if negb (pos <? size input) then Ok (serial, v) else
    match catagory_row input pos with
    | Bad f => Bad f
    | Ok (title, url, pos) => catagory_loop fuel' input pos (i32 (serial + 1)) (v ++ [MkNews serial title url])
    end
  end.

Definition parse_catagory (input : bytes) (serial : Z) (v : list newsItem) : result (Z * list newsItem) :=
  let pos := find input THEAD 0 in
  let pos := find input BOX pos in
  catagory_loop (S (length input)) input pos serial v.

(** An item with its position *)
Abbreviation Unit := (Z * contentItem)%type.

(** The two loops of an article: what is between [open] and [close] *)
Fixpoint unit_loop (fuel : nat) (open close : bytes) (type : Z) (input : bytes) (end_ : Z) (v : list Unit) : result (list Unit) :=
  match fuel with
  | O => Bad OutOfFuel
  | S fuel' =>
    let pos := find input open end_ in
    if size input <? pos then Ok v else
    let pos := u64 (pos + size open) in
    let end_ := find input close pos in
    match substr input pos (u64 (end_ - pos)) with
    | Bad f => Bad f
    | Ok s => unit_loop fuel' open close type input end_ (v ++ [(pos, MkContent type s)])
    end
  end.

Definition img_loop (input : bytes) (end_ : Z) : result (list Unit) := unit_loop (S (length input)) IMG [QUOTE] ECT_Image input end_ [].
Definition text_loop (input : bytes) (end_ : Z) : result (list Unit) := unit_loop (S (length input)) PAR PAR_END ECT_Text input end_ [].

(** The three loops that put texts and images together *)
Fixpoint merge_units (text img : list Unit) : list contentItem :=
  let fix go (img : list Unit) : list contentItem :=
    match text, img with
    | it :: text', im :: img' => if it.1 <? im.1 then it.2 :: merge_units text' img else im.2 :: go img'
    | _, [] => text.*2
    | [], _ => img.*2
    end
  in go img.

Definition parse_content (input : bytes) (v : list contentItem) : result (Z * list contentItem) :=
  let pos := find input TITLE 0 in
  let pos := u64 (pos + size TITLE) in
  let end_ := find input TITLE_END pos in
  match substr input pos (u64 (end_ - pos)) with
  | Bad f => Bad f
  | Ok rt_title =>
    let v := v ++ [MkContent ECT_Title rt_title] in
    let pos := find input CONTENT end_ in
    if size input <? pos then Ok (-1, v) else
    let curr_pos := end_ in
    match img_loop input end_ with
    | Bad f => Bad f
    | Ok img =>
      match text_loop input curr_pos with
      | Bad f => Bad f
      | Ok text =>
        let v := v ++ merge_units text img in
        Ok (i32 (Z.of_nat (length v)), v)
      end
    end
  end.

(** [PageCache::parse_test_page] on vectors that may be null: the result, the counter
    and the vectors *)
Definition parse_test_page (input : bytes) (catagory : option (list newsItem)) (content : option (list contentItem)) (type serial : Z) :
  result (Z * Z * option (list newsItem) * option (list contentItem)) :=
  if type =? 2 then Ok (0, serial, catagory, content) else
  if type =? 0 then
    match catagory with
    | None => Bad NullDeref
    | Some v =>
      match parse_catagory input serial v with
      | Bad f => Bad f
      | Ok (serial, v) => Ok (i32 (Z.of_nat (length v)), serial, Some v, content)
      end
    end
  else if type =? 1 then
    match content with
    | None => Bad NullDeref
    | Some v =>
      match parse_content input v with
      | Bad f => Bad f
      | Ok (ret, v) => Ok (ret, serial, catagory, Some v)
      end
    end
  else Ok (-1, serial, catagory, content).

(** ** The cache *)

(** [std::vector::resize] *)
Definition resized {A} (n : nat) (a : A) (l : list A) : list A := take n l ++ replicate (n - length l) a.

Definition ParsePage (input : bytes) (type newsId : Z) : M PageCache Z := fun c =>
  if type =? ECT_Catagory then
    match parse_test_page input (Some (catagory_ c)) None ECT_Catagory (serial c) with
    | Bad f => Bad f
    | Ok (ret, n, v, _) =>
      let c := c <| catagory_ := default [] v |> <| serial := n |> in
      Ok (ret, if 0 <? ret then c <| content_ ::= resized (Z.to_nat ret) [] |> <| cached_page_ ::= resized (Z.to_nat ret) false |> else c)
    end
  else if type =? ECT_Content then
    let ps := i32 (Z.of_nat (length (cached_page_ c))) in
    if ps <? newsId then Ok (-1, c) else
    if newsId <? 0 then Bad OutOfBounds else
    match content_ c !! Z.to_nat newsId with
    | None => Bad OutOfBounds
    | Some items =>
      match parse_test_page input None (Some items) ECT_Content (serial c) with
      | Bad f => Bad f
      | Ok (ret, n, _, v) =>
        Ok (ret, c <| content_ ::= <[Z.to_nat newsId := default [] v]> |> <| serial := n |> <| cached_page_ ::= <[Z.to_nat newsId := true]> |>)
      end
    end
  else Ok (0, c).

(** [GetNewsItem]: the item, or null *)
Definition GetNewsItem (id : Z) (c : PageCache) : result (option newsItem) :=
  if id <? 0 then Bad OutOfBounds else
  match catagory_ c !! Z.to_nat id with
  | None => Bad OutOfBounds
  | Some n => Ok (if newsId n =? id then Some n else None)
  end.

Definition GetContentItems (id : Z) (c : PageCache) : result (option (list contentItem)) :=
  if u64 id <? Z.of_nat (length (cached_page_ c)) then
    match cached_page_ c !! Z.to_nat id with
    | Some true =>
      match content_ c !! Z.to_nat id with Some v => Ok (Some v) | None => Bad OutOfBounds end
    | _ => Ok None
    end
  else Ok None.

(** *** Examples *)

Definition row_ex (t u : string) : bytes := bs "<input type=checkbox></td><td>1</td> <td>" ++ bs t ++ bs "</td><td><a href=" ++ [QUOTE] ++ bs u ++ [QUOTE] ++ bs ">edit</a></td>".
Definition catalogue_ex : bytes := bs "<table><thead>x</thead>" ++ row_ex "first" "/a/1" ++ row_ex "second" "/a/2" ++ bs "</table>".
Definition article_ex : bytes := bs "<input " ++ TITLE ++ bs "a title" ++ TITLE_END ++ bs "<div class=" ++ CONTENT ++ bs "<p>one</p> <img src=" ++ [QUOTE] ++ bs "i.png" ++ [QUOTE] ++ bs "><p>two</p></div>".

Example pages_ex :
  match (_ ← ParsePage catalogue_ex ECT_Catagory 0; ParsePage article_ex ECT_Content 1) PageCache_new with
  | Ok (n, c) => Some (n, GetNewsItem 1 c, GetContentItems 1 c, GetContentItems 0 c, GetContentItems 7 c)
  | Bad _ => None
  end = Some (4, Ok (Some (MkNews 1 (bs "second") (bs "/a/2"))),
    Ok (Some [MkContent ECT_Title (bs "a title"); MkContent ECT_Text (bs "one"); MkContent ECT_Image (bs "i.png"); MkContent ECT_Text (bs "two")]), Ok None, Ok None).
Proof. vm_compute. reflexivity. Qed.

(** An id that is one too large is not refused, and indexes the vector behind its end. *)
Example ParsePage_behind :
  match ParsePage catalogue_ex ECT_Catagory 0 PageCache_new with Ok (_, c) => ParsePage article_ex ECT_Content 2 c | Bad f => Bad f end = Bad OutOfBounds.
Proof. vm_compute. reflexivity. Qed.

(** ** Searching *)

(** [pat] does not occur in [A ++ pat] before the end of [A] *)
Fixpoint first_at (pat A : bytes) : bool :=
  match A with
  | [] => true
  | _ :: A' => negb (starts pat (A ++ pat)) && first_at pat A'
  end.

(** [pat] does not occur *)
Fixpoint absent (pat A : bytes) : bool :=
  negb (starts pat A) && match A with [] => true | _ :: A' => absent pat A' end.

Lemma size_app a b : size (a ++ b) = size a + size b.
Proof. unfold size. rewrite length_app. lia. Qed.

Lemma size_nonneg a : 0 ≤ size a.
Proof. unfold size. lia. Qed.

Lemma starts_app pat l : starts pat (pat ++ l) = true.
Proof. induction pat as [|a pat IH]; [done|]. cbn. by rewrite Z.eqb_refl. Qed.

Lemma starts_prefix pat k l : (length pat ≤ length k)%nat → starts pat (k ++ l) = starts pat k.
Proof. revert k. induction pat as [|a pat IH]; intros [|b k] H; cbn in *; [done|done|lia|]. f_equal. apply IH. lia. Qed.

Lemma find_first pat A l p : first_at pat A = true → find_from pat (A ++ pat ++ l) p = p + size A.
Proof.
  revert p. induction A as [|a A IH]; intros p.
  - intros _. cbn [app]. unfold size. cbn. rewrite Z.add_0_r. destruct (pat ++ l) eqn:E; cbn; rewrite <- ?E; [|by rewrite starts_app].
    apply app_eq_nil in E as [-> ->]. done.
  - cbn [first_at]. intros [Hs Hf]%andb_prop. apply negb_true_iff in Hs. cbn [find_from app].
    change (a :: A ++ pat ++ l) with ((a :: A) ++ pat ++ l). rewrite (app_assoc (a :: A)), starts_prefix by (rewrite length_app; lia). rewrite Hs, IH by done. unfold size. cbn. lia.
Qed.

Lemma find_absent pat A p : absent pat A = true → find_from pat A p = npos.
Proof. revert p. induction A as [|a A IH]; intros p; cbn [absent find_from]; intros [Hs Ha]%andb_prop; apply negb_true_iff in Hs; rewrite Hs; [done|by apply IH]. Qed.

Lemma find_here pre l pat : find (pre ++ l) pat (size pre) = find_from pat l (size pre).
Proof. unfold find. rewrite size_app. pose proof (size_nonneg l). rewrite (proj2 (Z.ltb_ge _ _)) by lia. unfold size at 1. by rewrite Nat2Z.id, drop_app_length. Qed.

(** The searches of the parser, in a string cut at the place found *)
Lemma find_at input pre A pat l p : input = pre ++ A ++ pat ++ l → p = size pre → first_at pat A = true → find input pat p = size (pre ++ A).
Proof. intros -> -> H. by rewrite find_here, find_first, size_app. Qed.

Lemma find_none input pre A pat p : input = pre ++ A → p = size pre → absent pat A = true → find input pat p = npos.
Proof. intros -> -> H. by rewrite find_here, find_absent. Qed.

Lemma substr_at input pre s l p n : input = pre ++ s ++ l → p = size pre → n = size s → substr input p n = Ok s.
Proof.
  intros -> -> ->. unfold substr. rewrite size_app. pose proof (size_nonneg (s ++ l)). rewrite (proj2 (Z.ltb_ge _ _)) by lia. unfold size. by rewrite !Nat2Z.id, drop_app_length, take_app_length.
Qed.

Lemma size_cut input a b : input = a ++ b → size input < 2 ^ 63 → 0 ≤ size a < 2 ^ 63.
Proof. intros -> H. rewrite size_app in H. pose proof (size_nonneg a). pose proof (size_nonneg b). lia. Qed.

(** What the parser does to get at [s]: search [open], step over it, search [close], and
    take what is between *)
Lemma field_at input pre A open s close l p : input = pre ++ A ++ open ++ s ++ close ++ l → p = size pre → first_at open A = true → first_at close s = true → size input < 2 ^ 63 →
  u64 (find input open p + size open) = size (pre ++ A ++ open) ∧ find input close (size (pre ++ A ++ open)) = size (pre ++ A ++ open ++ s) ∧
  substr input (size (pre ++ A ++ open)) (u64 (size (pre ++ A ++ open ++ s) - size (pre ++ A ++ open))) = Ok s.
Proof.
  intros Hi -> Ho Hc Hs. rewrite (find_at _ _ _ _ _ _ Hi) by done. rewrite <- size_app.
  assert (input = (pre ++ A ++ open ++ s) ++ close ++ l) as E by (rewrite Hi; by rewrite <- !app_assoc).
  pose proof (size_cut _ _ _ E Hs) as H1. rewrite !size_app in H1. pose proof (size_nonneg pre). pose proof (size_nonneg A). pose proof (size_nonneg open). pose proof (size_nonneg s).
  assert (input = (pre ++ A ++ open) ++ s ++ close ++ l) as E2 by (rewrite Hi; by rewrite <- !app_assoc). split_and!.
  - rewrite !size_app. rewrite u64_id; lia.
  - rewrite (find_at _ _ _ _ _ _ E2) by done. by rewrite <- !app_assoc.
  - apply (substr_at _ _ _ _ _ _ E2); [done|]. rewrite !size_app. rewrite u64_id; lia.
Qed.

(** ** Catalogues *)

(** A row of a catalogue: the title, the url, and what is around them *)
Record row := MkRow { r_a : bytes; r_b : bytes; r_c : bytes; r_title : bytes; r_d : bytes; r_url : bytes; r_e : bytes }.

Definition render_row (r : row) : bytes :=
  BOX ++ r_a r ++ TD_END ++ r_b r ++ TD_END ++ r_c r ++ TD ++ r_title r ++ TD_END ++ r_d r ++ HREF ++ r_url r ++ URL_END ++ r_e r.

(** What is around the title and the url does not hide them. *)
Definition row_ok (r : row) : bool :=
  first_at TD_END (BOX ++ r_a r) && first_at TD_END (bs "/td>" ++ r_b r) && first_at TD (TD_END ++ r_c r) && first_at TD_END (r_title r) &&
  first_at HREF (TD_END ++ r_d r) && first_at URL_END (r_url r).

Record catalogue := MkCatalogue { g_head : bytes; g_sep : bytes; g_rows : list row; g_tail : bytes }.

Definition render_catalogue (g : catalogue) : bytes := g_head g ++ THEAD ++ g_sep g ++ concat (map render_row (g_rows g)) ++ g_tail g.

(** The next check box is that of the next row. *)
Definition next_ok (A : bytes) (rows : list row) (tl : bytes) : bool :=
  match rows with [] => absent BOX (A ++ tl) | _ :: _ => first_at BOX A end.

Fixpoint rows_ok (rows : list row) (tl : bytes) : bool :=
  match rows with
  | [] => true
  | r :: rows => row_ok r && next_ok (r_url r ++ URL_END ++ r_e r) rows tl && rows_ok rows tl
  end.

Definition catalogue_ok (g : catalogue) : bool :=
  first_at THEAD (g_head g) && next_ok (THEAD ++ g_sep g) (g_rows g) (g_tail g) && rows_ok (g_rows g) (g_tail g) && (size (render_catalogue g) <? 2 ^ 63).

Lemma catagory_row_at input pre r l : row_ok r = true → input = pre ++ render_row r ++ l → size input < 2 ^ 63 →
  catagory_row input (size pre) = Ok (r_title r, r_url r,
    find input BOX (size (pre ++ BOX ++ r_a r ++ TD_END ++ r_b r ++ TD_END ++ r_c r ++ TD ++ r_title r ++ TD_END ++ r_d r ++ HREF))).
Proof.
  unfold row_ok, render_row. intros H Hi Hs. repeat apply andb_prop in H as [H ?]. unfold catagory_row.
  set (p1 := pre ++ BOX ++ r_a r). set (p2 := p1 ++ TD_END ++ r_b r). set (p4 := p2 ++ (TD_END ++ r_c r) ++ TD ++ r_title r).
  rewrite (find_at input pre (BOX ++ r_a r) TD_END (r_b r ++ TD_END ++ r_c r ++ TD ++ r_title r ++ TD_END ++ r_d r ++ HREF ++ r_url r ++ URL_END ++ r_e r ++ l) (size pre)); [|rewrite Hi; by rewrite <- !app_assoc|done|done]. fold p1.
  assert (input = p1 ++ TD_END ++ r_b r ++ TD_END ++ r_c r ++ TD ++ r_title r ++ TD_END ++ r_d r ++ HREF ++ r_url r ++ URL_END ++ r_e r ++ l) as E1 by (rewrite Hi; unfold p1; by rewrite <- !app_assoc).
  pose proof (size_cut _ _ _ E1 Hs). rewrite (u64_id (size p1 + 1)) by lia.
  rewrite (find_at input (p1 ++ [60]) (bs "/td>" ++ r_b r) TD_END (r_c r ++ TD ++ r_title r ++ TD_END ++ r_d r ++ HREF ++ r_url r ++ URL_END ++ r_e r ++ l) (size p1 + 1)); [|rewrite E1; by rewrite <- !app_assoc|by rewrite size_app|done].
  replace ((p1 ++ [60]) ++ bs "/td>" ++ r_b r) with p2 by (unfold p2; by rewrite <- !app_assoc).
  destruct (field_at input p2 (TD_END ++ r_c r) TD (r_title r) TD_END (r_d r ++ HREF ++ r_url r ++ URL_END ++ r_e r ++ l) (size p2)) as (-> & -> & ->); [rewrite E1; unfold p2; by rewrite <- !app_assoc|reflexivity|assumption|assumption|assumption|].
  fold p4. destruct (field_at input p4 (TD_END ++ r_d r) HREF (r_url r) URL_END (r_e r ++ l) (size p4)) as (-> & -> & ->); [rewrite E1; unfold p4, p2; by rewrite <- !app_assoc|reflexivity|assumption|assumption|assumption|].
  unfold p4, p2, p1. by rewrite <- !app_assoc.
Qed.

Definition news_of (id : Z) (r : row) : newsItem := MkNews id (r_title r) (r_url r).

Lemma catagory_loop_at fuel input pre A rows tl n v : input = pre ++ A ++ concat (map render_row rows) ++ tl → size input < 2 ^ 63 →
  next_ok A rows tl = true → rows_ok rows tl = true → (length rows < fuel)%nat → 0 ≤ n → n + Z.of_nat (length rows) < 2 ^ 31 →
  catagory_loop fuel input (find input BOX (size pre)) n v = Ok (n + Z.of_nat (length rows), v ++ imap (fun i r => news_of (n + Z.of_nat i) r) rows).
Proof.
  revert fuel pre A n v. induction rows as [|r rows IH]; intros [|fuel] pre A n v Hi Hs Hn Hr Hf Hn0 Hn1; try (cbn in Hf; lia).
  - rewrite (find_none input pre (A ++ tl)) by done. cbn [catagory_loop]. rewrite (proj2 (Z.ltb_ge _ _)) by (unfold npos; lia). cbn [negb length imap]. rewrite app_nil_r. do 2 f_equal. lia.
  - cbn [next_ok rows_ok] in Hn, Hr. cbn [map concat] in Hi. apply andb_prop in Hr as [[Hr1 Hr2]%andb_prop Hr3]. rewrite <- !app_assoc in Hi.
    assert (input = pre ++ A ++ BOX ++ (r_a r ++ TD_END ++ r_b r ++ TD_END ++ r_c r ++ TD ++ r_title r ++ TD_END ++ r_d r ++ HREF ++ r_url r ++ URL_END ++ r_e r) ++ concat (map render_row rows) ++ tl) as E by (rewrite Hi; unfold render_row; by rewrite <- !app_assoc).
    rewrite (find_at _ _ _ _ _ _ E) by done. cbn [catagory_loop]. rewrite (proj2 (Z.ltb_lt _ _)).
    2: { rewrite E, (app_assoc pre A), (size_app (pre ++ A)), (size_app BOX). match goal with |- context [size BOX + size ?x] => pose proof (size_nonneg x) end. assert (size BOX = 8) by done. lia. }
    cbn [negb]. rewrite (catagory_row_at input (pre ++ A) r (concat (map render_row rows) ++ tl)); [|done|by rewrite Hi, <- app_assoc|done].
    rewrite (IH fuel _ (r_url r ++ URL_END ++ r_e r)); [|rewrite E; by rewrite <- !app_assoc|done|done|done|cbn in Hf; lia|..].
    all: assert (i32 (n + 1) = n + 1) as -> by (apply swrap_id; [lia|]; unfold in_s; cbn in *; lia).
    + f_equal. f_equal; [cbn [length]; lia|]. rewrite <- app_assoc. cbn. rewrite Z.add_0_r. f_equal. f_equal. apply imap_ext. intros i x _. cbn. f_equal. lia.
    + lia.
    + cbn [length] in Hn1. lia.
Qed.

Lemma parse_catagory_at g n v : catalogue_ok g = true → 0 ≤ n → n + Z.of_nat (length (g_rows g)) < 2 ^ 31 →
  parse_catagory (render_catalogue g) n v = Ok (n + Z.of_nat (length (g_rows g)), v ++ imap (fun i r => news_of (n + Z.of_nat i) r) (g_rows g)).
Proof.
  unfold catalogue_ok. intros H Hn0 Hn1. apply andb_prop in H as [[[Hh Hx]%andb_prop Hr]%andb_prop Hs%Z.ltb_lt]. unfold parse_catagory.
  rewrite (find_at _ [] (g_head g) THEAD (g_sep g ++ concat (map render_row (g_rows g)) ++ g_tail g)) by done.
  apply (catagory_loop_at _ _ _ (THEAD ++ g_sep g) (g_rows g) (g_tail g)); try done.
  unfold render_catalogue. rewrite !length_app. assert (length (g_rows g) ≤ length (concat (map render_row (g_rows g))))%nat; [|lia].
  clear. induction (g_rows g) as [|r l IH]; [done|]. cbn [map concat length]. rewrite length_app. unfold render_row at 1. rewrite length_app. assert (length BOX = 8%nat) as -> by done. lia.
Qed.

(** A check box behind the last row: the search for its cells starts again at the
    beginning, and the loop never ends. *)
Definition endless : bytes := bs "</thead>checkbox</td></td><td>t</td>href=" ++ [QUOTE] ++ bs "u" ++ [QUOTE] ++ bs ">checkbox".

Theorem catagory_endless fuel n v : catagory_loop fuel endless (find endless BOX (find endless THEAD 0)) n v = Bad OutOfFuel.
Proof.
  assert (∀ fuel n v, catagory_loop fuel endless 45 n v = Bad OutOfFuel) as H.
  { clear. induction fuel as [|fuel IH]; intros n v; [done|]. cbn [catagory_loop]. change (negb (45 <? size endless)) with false. cbn iota.
    replace (catagory_row endless 45) with (Ok (bs "t", bs "u", 45)) by (vm_compute; reflexivity). apply IH. }
  destruct fuel as [|fuel]; [done|]. cbn [catagory_loop]. replace (find endless BOX (find endless THEAD 0)) with 8 by (vm_compute; reflexivity).
  change (negb (8 <? size endless)) with false. cbn iota. replace (catagory_row endless 8) with (Ok (bs "t", bs "u", 45)) by (vm_compute; reflexivity). apply H.
Qed.

(** ** Articles *)

(** A piece of an article: an image or a paragraph, behind some other text *)
Record block := MkBlk { b_img : bool; b_fill : bytes; b_body : bytes }.

Definition opening (img : bool) : bytes := if img then IMG else PAR.
Definition closing (img : bool) : bytes := if img then [QUOTE] else PAR_END.
Definition unit_type (img : bool) : Z := if img then ECT_Image else ECT_Text.

Definition render_block (b : block) : bytes := b_fill b ++ opening (b_img b) ++ b_body b ++ closing (b_img b).

(** No tag that begins with i or p *)
Fixpoint inert (l : bytes) : bool :=
  match l with
  | [] => true
  | b :: r => (if b =? 60 then match r with c :: _ => negb (c =? 112) && negb (c =? 105) | [] => false end else true) && inert r
  end.

Definition block_ok (b : block) : bool := inert (b_fill b) && inert (b_body b) && first_at (closing (b_img b)) (b_body b).

Record article := MkArticle { k_head : bytes; k_title : bytes; k_mid : bytes; k_blocks : list block; k_tail : bytes }.

Definition render_article (k : article) : bytes :=
  k_head k ++ TITLE ++ k_title k ++ TITLE_END ++ k_mid k ++ CONTENT ++ concat (map render_block (k_blocks k)) ++ k_tail k.

Definition article_ok (k : article) : bool :=
  first_at TITLE (k_head k) && first_at TITLE_END (k_title k) && first_at CONTENT (TITLE_END ++ k_mid k) && inert (k_mid k) && forallb block_ok (k_blocks k) && inert (k_tail k) &&
  (size (render_article k) <? 2 ^ 63).

Lemma opening_cons img : opening img = 60 :: (if img then 105 else 112) :: drop 2 (opening img).
Proof. by destruct img. Qed.

Lemma inert_starts img b f l : inert (b :: f) = true → starts (opening img) ((b :: f) ++ l) = false.
Proof.
  cbn [inert]. intros [Hb _]%andb_prop. rewrite opening_cons. cbn [starts app]. rewrite (Z.eqb_sym 60 b). destruct (b =? 60); [|done].
  destruct f as [|c f]; [done|]. apply andb_prop in Hb as [H1%negb_true_iff H2%negb_true_iff]. cbn [starts app andb]. rewrite (Z.eqb_sym _ c). by destruct img; rewrite ?H1, ?H2.
Qed.

Lemma skip_inert img f l p : inert f = true → find_from (opening img) (f ++ l) p = find_from (opening img) l (p + size f).
Proof.
  revert p. induction f as [|b f IH]; intros p Hf; [f_equal; unfold size; cbn; lia|]. pose proof (inert_starts img b f l Hf) as Hs.
  cbn [inert] in Hf. apply andb_prop in Hf as [_ Hf]. cbn [app find_from]. cbn [app] in Hs. rewrite Hs, IH by done. f_equal. unfold size. cbn. lia.
Qed.

Lemma inert_first img f : inert f = true → first_at (opening img) f = true.
Proof.
  induction f as [|b f IH]; [done|]. intros Hf. cbn [first_at]. rewrite inert_starts by done. cbn [inert] in Hf. apply andb_prop in Hf as [_ Hf]. by rewrite IH.
Qed.

Lemma inert_none img f p : inert f = true → find_from (opening img) f p = npos.
Proof. intros Hf. rewrite <- (app_nil_r f), skip_inert by done. by destruct img. Qed.

Lemma skip_closing img img' l p : find_from (opening img) (closing img' ++ l) p = find_from (opening img) l (p + size (closing img')).
Proof. apply skip_inert. by destruct img'. Qed.

Lemma skip_block img b l p : block_ok b = true → b_img b ≠ img → find_from (opening img) (render_block b ++ l) p = find_from (opening img) l (p + size (render_block b)).
Proof.
  unfold block_ok, render_block. intros [[Hf Hb]%andb_prop _]%andb_prop Hi. rewrite !size_app, <- !app_assoc, skip_inert by done.
  assert (∀ l p, find_from (opening img) (opening (b_img b) ++ l) p = find_from (opening img) l (p + size (opening (b_img b)))) as ->.
  { intros l' p'. destruct (b_img b), img; try done; cbn -[Z.add]; f_equal; unfold size; cbn -[Z.add]; lia. }
  rewrite skip_inert by done. rewrite skip_closing. f_equal. lia.
Qed.

(** The items of the blocks, with their positions *)
Fixpoint units_at (p : Z) (bl : list block) : list (bool * Unit) :=
  match bl with
  | [] => []
  | b :: bl => (b_img b, (p + size (b_fill b) + size (opening (b_img b)), MkContent (unit_type (b_img b)) (b_body b))) :: units_at (p + size (render_block b)) bl
  end.

Definition of_kind (img : bool) (us : list (bool * Unit)) : list Unit := (filter (fun u => u.1 = img) us).*2.

Lemma unit_loop_skip fuel open close type input e e' v : find input open e = find input open e' → unit_loop fuel open close type input e v = unit_loop fuel open close type input e' v.
Proof. intros H. destruct fuel; [done|]. cbn [unit_loop]. by rewrite H. Qed.

Lemma unit_loop_at img fuel input pre bl tl v : input = pre ++ concat (map render_block bl) ++ tl → size input < 2 ^ 63 → forallb block_ok bl = true → inert tl = true →
  (length bl < fuel)%nat → unit_loop fuel (opening img) (closing img) (unit_type img) input (size pre) v = Ok (v ++ of_kind img (units_at (size pre) bl)).
Proof.
  revert fuel pre v. induction bl as [|b bl IH]; intros [|fuel] pre v Hi Hs Hb Ht Hf; try (cbn in Hf; lia).
  - cbn [unit_loop]. cbn in Hi. rewrite Hi at 1 2. rewrite find_here, inert_none by done. rewrite <- Hi. rewrite (proj2 (Z.ltb_lt _ _)) by (unfold npos; lia). by rewrite app_nil_r.
  - cbn [forallb] in Hb. apply andb_prop in Hb as [Hb Hbl]. cbn [map concat] in Hi. rewrite <- app_assoc in Hi. set (rest := concat (map render_block bl) ++ tl) in *.
    assert (input = (pre ++ render_block b) ++ rest) as Hi2 by (by rewrite Hi, <- app_assoc). unfold of_kind. cbn [units_at]. rewrite filter_cons. cbn [fst].
    destruct (decide (b_img b = img)) as [E|E].
    + destruct b as [k f s]; cbn [b_img] in E; subst k; cbn [b_img b_fill b_body] in *. unfold block_ok in Hb. cbn [b_img b_fill b_body] in Hb. apply andb_prop in Hb as [[Hf1 Hf2]%andb_prop Hf3].
      destruct (field_at input pre f (opening img) s (closing img) rest (size pre)) as (E1 & E2 & E3); [rewrite Hi; unfold render_block; cbn [b_fill b_img b_body]; by rewrite <- !app_assoc|done|by apply inert_first|done|done|].
      cbn [unit_loop]. rewrite E1, E2, E3. assert (size input <? find input (opening img) (size pre) = false) as ->.
      { apply Z.ltb_ge. rewrite (find_at input pre f (opening img) (s ++ closing img ++ rest)); [|rewrite Hi; unfold render_block; cbn [b_fill b_img b_body]; by rewrite <- !app_assoc|done|by apply inert_first].
        rewrite Hi. unfold render_block. cbn [b_fill]. rewrite !size_app. pose proof (size_nonneg rest). pose proof (size_nonneg (opening img)). pose proof (size_nonneg s). pose proof (size_nonneg (closing img)). cbn [b_img b_body]. lia. }
      rewrite (unit_loop_skip _ _ _ _ _ _ (size (pre ++ render_block (MkBlk img f s)))).
      * rewrite IH; [|done..|cbn in Hf; lia]. rewrite <- app_assoc, !size_app. unfold of_kind. cbn. do 4 f_equal. lia.
      * rewrite Hi2 at 2. rewrite find_here. assert (input = (pre ++ f ++ opening img ++ s) ++ closing img ++ rest) as E4 by (rewrite Hi; unfold render_block; cbn [b_fill b_img b_body]; by rewrite <- !app_assoc).
        rewrite E4, find_here, skip_closing. f_equal. unfold render_block. cbn [b_fill b_img b_body]. rewrite !size_app. lia.
    + rewrite (unit_loop_skip _ _ _ _ _ _ (size (pre ++ render_block b))).
      * rewrite IH; [|done..|cbn in Hf; lia]. by rewrite size_app.
      * rewrite Hi2 at 2. rewrite find_here, Hi, find_here, skip_block by done. by rewrite size_app.
Qed.

Lemma units_above p bl u : u ∈ units_at p bl → p < u.2.1.
Proof.
  revert p. induction bl as [|b bl IH]; intros p; cbn; [by intros ?%elem_of_nil|]. assert (0 < size (opening (b_img b))) by (by destruct (b_img b)). pose proof (size_nonneg (b_fill b)).
  intros [->|Hu]%elem_of_cons; [cbn; lia|]. pose proof (IH _ Hu). pose proof (size_nonneg (render_block b)). lia.
Qed.

Lemma merge_nil_r text : merge_units text [] = text.*2.
Proof. by destruct text. Qed.

Lemma merge_text p x text img : (∀ u, u ∈ img → p < u.1) → merge_units ((p, x) :: text) img = x :: merge_units text img.
Proof. intros H. destruct img as [|im img]; [by rewrite !merge_nil_r|]. cbn. rewrite (proj2 (Z.ltb_lt _ _)); [done|]. apply (H im). apply elem_of_cons; by left. Qed.

Lemma merge_img p x text img : (∀ u, u ∈ text → p < u.1) → merge_units text ((p, x) :: img) = x :: merge_units text img.
Proof. intros H. destruct text as [|it text]; [by destruct img|]. cbn. rewrite (proj2 (Z.ltb_ge _ _)); [done|]. assert (p < it.1); [|lia]. apply (H it). apply elem_of_cons; by left. Qed.

Definition items_of (bl : list block) : list contentItem := map (fun b => MkContent (unit_type (b_img b)) (b_body b)) bl.

Lemma merge_units_at p bl : merge_units (of_kind false (units_at p bl)) (of_kind true (units_at p bl)) = items_of bl.
Proof.
  revert p. induction bl as [|b bl IH]; intros p; [done|].
  assert (∀ k u, u ∈ of_kind k (units_at (p + size (render_block b)) bl) → p + size (b_fill b) + size (opening (b_img b)) < u.1) as Hab.
  { intros k u (u' & -> & [_ Hu]%list_elem_of_filter)%list_elem_of_fmap. pose proof (units_above _ _ _ Hu). unfold render_block in *. rewrite !size_app in *. pose proof (size_nonneg (b_body b)). pose proof (size_nonneg (closing (b_img b))). lia. }
  unfold of_kind. cbn [units_at]. rewrite !filter_cons. cbn [fst]. destruct (b_img b) eqn:E; cbn [fmap list_fmap decide_rel].
  - rewrite decide_False, decide_True by done. cbn [fmap list_fmap snd]. rewrite merge_img; [|intros u Hu; apply (Hab false u Hu)]. cbn [items_of map]. rewrite E. f_equal. apply IH.
  - rewrite decide_True, decide_False by done. cbn [fmap list_fmap snd]. rewrite merge_text; [|intros u Hu; apply (Hab true u Hu)]. cbn [items_of map]. rewrite E. f_equal. apply IH.
Qed.

(** What [ParsePage] adds for an article *)
Definition article_items (k : article) : list contentItem := MkContent ECT_Title (k_title k) :: items_of (k_blocks k).

Lemma size_le input a b : input = a ++ b → size a ≤ size input.
Proof. intros ->. rewrite size_app. pose proof (size_nonneg b). lia. Qed.

Lemma blocks_length bl : (length bl ≤ length (concat (map render_block bl)))%nat.
Proof. induction bl as [|b bl IH]; [done|]. cbn [map concat length]. rewrite length_app. unfold render_block at 1. rewrite !length_app. assert (1 ≤ length (opening (b_img b)))%nat by (destruct (b_img b); cbn; lia). lia. Qed.

Lemma parse_content_at k v : article_ok k = true →
  parse_content (render_article k) v = Ok (i32 (Z.of_nat (length (v ++ article_items k))), v ++ article_items k).
Proof.
  unfold article_ok. intros H. repeat apply andb_prop in H as [H ?]. repeat match goal with Hx : (_ <? _) = true |- _ => apply Z.ltb_lt in Hx end.
  set (input := render_article k) in *. unfold parse_content. set (rest := concat (map render_block (k_blocks k)) ++ k_tail k).
  destruct (field_at input [] (k_head k) TITLE (k_title k) TITLE_END (k_mid k ++ CONTENT ++ rest) 0) as (-> & -> & ->); [done..|]. cbn [app].
  set (pre := k_head k ++ TITLE ++ k_title k). assert (input = pre ++ (TITLE_END ++ k_mid k) ++ CONTENT ++ rest) as E1 by (unfold input, render_article, pre; by rewrite <- !app_assoc).
  rewrite (find_at _ _ _ _ _ _ E1) by done. assert (size input <? size (pre ++ TITLE_END ++ k_mid k) = false) as ->.
  { apply Z.ltb_ge. apply (size_le _ _ (CONTENT ++ rest)). by rewrite E1, <- !app_assoc. }
  set (pre2 := pre ++ TITLE_END ++ k_mid k ++ CONTENT). assert (input = pre2 ++ rest) as E2 by (rewrite E1; unfold pre2; by rewrite <- !app_assoc).
  assert (∀ img, find input (opening img) (size pre) = find input (opening img) (size pre2)) as Hskip.
  { intros img. rewrite E2 at 2. rewrite E1, !find_here. rewrite <- app_assoc, !skip_inert by done. f_equal. unfold pre2. rewrite !size_app. lia. }
  assert (length (k_blocks k) < S (length input))%nat as Hl by (rewrite E2; unfold rest; rewrite !length_app; pose proof (blocks_length (k_blocks k)); lia).
  assert (∀ img, unit_loop (S (length input)) (opening img) (closing img) (unit_type img) input (size pre) [] = Ok (of_kind img (units_at (size pre2) (k_blocks k)))) as Hu.
  { intros img. rewrite (unit_loop_skip _ _ _ _ _ _ _ _ (Hskip img)). by apply (unit_loop_at img _ _ _ _ (k_tail k) []). }
  unfold img_loop, text_loop. rewrite (Hu true : unit_loop _ IMG [QUOTE] ECT_Image _ _ _ = _), (Hu false : unit_loop _ PAR PAR_END ECT_Text _ _ _ = _), merge_units_at, <- app_assoc. done.
Qed.

(** ** Any input *)

Lemma starts_length pat l : starts pat l = true → size pat ≤ size l.
Proof. revert l. induction pat as [|a pat IH]; intros l; [intros _; apply size_nonneg|]. destruct l as [|b l]; [done|]. cbn. intros [_ H]%andb_prop. apply IH in H. unfold size in *. cbn. lia. Qed.

Lemma find_from_spec pat l p : find_from pat l p = npos ∨
  ∃ n, find_from pat l p = p + Z.of_nat n ∧ (n ≤ length l)%nat ∧ starts pat (drop n l) = true.
Proof.
  revert p. induction l as [|a l IH]; intros p; cbn [find_from]; destruct (starts pat _) eqn:E.
  - right. exists 0%nat. cbn. split_and!; [lia|lia|done].
  - by left.
  - right. exists 0%nat. cbn. split_and!; [lia|lia|done].
  - destruct (IH (p + 1)) as [H|(n & H & Hn & Hs)]; [by left|right]. exists (S n). cbn. split_and!; [lia|lia|done].
Qed.

Lemma find_from_min pat l p n : (n ≤ length l)%nat → starts pat (drop n l) = true → find_from pat l p ≤ p + Z.of_nat n.
Proof.
  revert p n. induction l as [|a l IH]; intros p n Hn Hs.
  - assert (n = 0%nat) as -> by (cbn in Hn; lia). cbn in *. rewrite Hs. lia.
  - cbn [find_from]. destruct (starts pat (a :: l)) eqn:E; [lia|]. destruct n as [|n]; [cbn in Hs; congruence|]. cbn in Hn, Hs. specialize (IH (p + 1) n ltac:(lia) Hs). lia.
Qed.

Definition occurs (pat s : bytes) (q : Z) : Prop := 0 ≤ q ≤ size s ∧ starts pat (drop (Z.to_nat q) s) = true.

Lemma find_spec s pat p : 0 ≤ p → find s pat p = npos ∨ (p ≤ find s pat p ∧ occurs pat s (find s pat p)).
Proof.
  intros Hp. unfold find. destruct (Z.ltb_spec (size s) p); [by left|]. destruct (find_from_spec pat (drop (Z.to_nat p) s) p) as [E|(n & -> & Hn & Hs)]; [by left|right].
  rewrite length_drop in Hn. rewrite drop_drop in Hs. unfold occurs, size in *. split; [lia|]. split; [lia|]. replace (Z.to_nat (p + Z.of_nat n)) with (Z.to_nat p + n)%nat by lia. done.
Qed.

Lemma find_min s pat p q : 0 ≤ p ≤ q → occurs pat s q → find s pat p ≤ q.
Proof.
  intros Hp [Hq Hs]. unfold find. rewrite (proj2 (Z.ltb_ge _ _)) by lia. pose proof (find_from_min pat (drop (Z.to_nat p) s) p (Z.to_nat (q - p))) as H.
  rewrite length_drop, drop_drop in H. unfold size in *. replace (Z.to_nat p + Z.to_nat (q - p))%nat with (Z.to_nat q) in H by lia. specialize (H ltac:(lia) Hs). lia.
Qed.

Lemma occurs_end pat s q : occurs pat s q → q + size pat ≤ size s.
Proof. intros [Hq Hs]. apply starts_length in Hs. unfold size in *. rewrite length_drop in Hs. lia. Qed.

(** [u] is what is behind an occurrence of [open] in [s], up to the next [close] or to
    the end *)
Definition unit_of (open close : bytes) (type : Z) (s : bytes) (u : Unit) : Prop :=
  occurs open s (u.1 - size open) ∧ contentType u.2 = type ∧
  (content u.2 = drop (Z.to_nat u.1) s ∧ find s close u.1 = npos ∨ content u.2 = take (Z.to_nat (find s close u.1 - u.1)) (drop (Z.to_nat u.1) s)).

Lemma unit_loop_any fuel open close type s e v : open ≠ [] → size s < 2 ^ 63 → 0 ≤ e → size s - e < Z.of_nat fuel → (0 < fuel)%nat →
  ∃ us, unit_loop fuel open close type s e v = Ok (v ++ us) ∧ StronglySorted Z.lt us.*1 ∧ Forall (fun u => e < u.1) us ∧
    Forall (unit_of open close type s) us ∧
    ∀ q, e ≤ q → occurs open s q → ∃ u, u ∈ us ∧ u.1 - size open ≤ q ≤ u.1 + size (content u.2).
Proof.
  intros Ho Hs. revert e v. induction fuel as [|fuel IH]; intros e v He Hf Hf0; [lia|]. cbn [unit_loop].
  assert (0 < size open) as Ho1 by (destruct open; [done|unfold size; cbn; lia]).
  destruct (find_spec s open e He) as [E|[Hge Hoc]].
  - rewrite E. rewrite (proj2 (Z.ltb_lt _ _)) by (unfold npos; lia). exists []. rewrite app_nil_r. split_and!; [done|constructor|constructor|constructor|].
    intros q Hq Hoq. pose proof (find_min s open e q ltac:(lia) Hoq) as Hm. rewrite E in Hm. unfold npos in Hm. destruct Hoq. lia.
  - pose proof (occurs_end _ _ _ Hoc) as Hend. set (f := find s open e) in *. rewrite (proj2 (Z.ltb_ge _ _)) by lia. rewrite u64_id by lia. set (pos := f + size open) in *.
    assert (∃ c, substr s pos (u64 (find s close pos - pos)) = Ok c ∧ unit_of open close type s (pos, MkContent type c) ∧ (find s close pos = npos ∨ find s close pos ≤ pos + size c)) as (c & -> & Hu & Hcl).
    { unfold substr. rewrite (proj2 (Z.ltb_ge _ _)) by lia. eexists. split; [done|]. assert (0 ≤ pos) as Hp by (unfold occurs in Hoc; lia). destruct (find_spec s close pos Hp) as [E|[Hg Hcc]].
      - split; [|by left]. split; [cbn; by replace (pos - size open) with f by lia|]. split; [done|]. left. split; [|done]. cbn. rewrite E. rewrite u64_id by (unfold npos; lia). apply take_ge. rewrite length_drop. unfold npos, size in *. lia.
      - pose proof (occurs_end _ _ _ Hcc). pose proof (size_nonneg close). rewrite u64_id by lia. split; [|right; unfold size in *; rewrite length_take, length_drop; lia]. split; [cbn; by replace (pos - size open) with f by lia|]. split; [done|]. by right. }
    assert (0 ≤ find s close pos ∧ pos ≤ find s close pos) as [He1 He2].
    { destruct (find_spec s close pos) as [E|[? [? _]]]; [unfold occurs in Hoc; lia|rewrite E; unfold npos; unfold occurs in Hoc; lia|lia]. }
    destruct (IH (find s close pos) (v ++ [(pos, MkContent type c)]) He1) as (us & -> & Hso & Hab & Hus & Hco); [lia| |].
    { destruct fuel; [|lia]. exfalso. unfold occurs in Hoc. lia. }
    exists ((pos, MkContent type c) :: us). rewrite <- app_assoc. split_and!; [done| | | |].
    + cbn. constructor; [done|]. apply Forall_fmap. eapply Forall_impl; [exact Hab|]. intros u Hu'. cbn in *. lia.
    + constructor; [cbn; lia|]. eapply Forall_impl; [exact Hab|]. intros u Hu'. cbn in *. lia.
    + by constructor.
    + intros q Hq Hoq. destruct (decide (find s close pos ≤ q)) as [Hle|Hlt].
      * destruct (Hco q Hle Hoq) as (u & Hu1 & Hu2). exists u. split; [by apply elem_of_cons; right|done].
      * exists (pos, MkContent type c). split; [apply elem_of_cons; by left|]. cbn. pose proof (find_min s open e q ltac:(lia) Hoq). fold f in H. split; [lia|]. destruct Hcl as [E|Hcl]; [|lia].
        destruct Hu as (_ & _ & [[Hc _]|Hc]); cbn in Hc; rewrite Hc; [|rewrite E]; unfold size in *; rewrite ?length_take, length_drop; destruct Hoq; unfold npos, size in *; lia.
Qed.

Lemma merge_sorted text img : StronglySorted Z.lt text.*1 → StronglySorted Z.lt img.*1 →
  ∃ us, merge_units text img = us.*2 ∧ us ≡ₚ text ++ img ∧ StronglySorted Z.le us.*1.
Proof.
  assert (∀ l : list Unit, StronglySorted Z.lt l.*1 → StronglySorted Z.le l.*1) as Hle.
  { intros l. induction l as [|u l IH]; [constructor|]. cbn. intros [H1 H2]%StronglySorted_inv. constructor; [by apply IH|]. eapply Forall_impl; [exact H2|]. intros; cbn in *; lia. }
  assert (∀ p (l k : list Unit), Forall (fun u => p ≤ u.1) k → l ≡ₚ k → Forall (Z.le p) l.*1) as Hp.
  { intros p l k H E. apply Forall_fmap. rewrite E. eapply Forall_impl; [exact H|]. done. }
  assert (∀ p (l : list Unit), p ≤ p → Forall (Z.lt p) l.*1 → Forall (fun u => p ≤ u.1) l) as Hlt.
  { intros p l _ H. apply (proj1 (Forall_fmap _ _ _)) in H. eapply Forall_impl; [exact H|]. intros; cbn in *; lia. }
  intros Ht. revert img. induction text as [|[pt it] text IHt]; intros img Hi; [exists img; split_and!; [by destruct img|done|by apply Hle]|].
  pose proof Ht as Ht'. cbn in Ht'. apply StronglySorted_inv in Ht' as [Ht1 Ht2]. specialize (IHt Ht1).
  induction img as [|[pi ii] img IHi]; [exists ((pt, it) :: text); split_and!; [done|by rewrite app_nil_r|by apply Hle]|].
  pose proof Hi as Hi'. cbn in Hi'. apply StronglySorted_inv in Hi' as [Hi1 Hi2]. cbn [merge_units fst]. destruct (Z.ltb_spec pt pi) as [Hc|Hc]; cbn [fst] in Hc.
  - destruct (IHt _ Hi) as (us & E1 & E2 & E3). exists ((pt, it) :: us). split_and!; [cbn [fmap list_fmap snd]; by rewrite <- E1|by rewrite E2|]. cbn. constructor; [done|].
    apply (Hp _ _ _) with (2 := E2). apply Forall_app. split; [by apply Hlt|]. constructor; [cbn; lia|]. eapply Forall_impl; [apply Hlt; [done|exact Hi2]|]. intros; cbn in *; lia.
  - destruct (IHi Hi1) as (us & E1 & E2 & E3). exists ((pi, ii) :: us). split_and!; [cbn [fmap list_fmap snd]; f_equal; exact E1|rewrite E2; by rewrite <- Permutation_middle|]. cbn. constructor; [done|].
    apply (Hp _ _ _) with (2 := E2). apply Forall_app. split; [|by apply Hlt]. constructor; [cbn; lia|]. eapply Forall_impl; [apply Hlt; [done|exact Ht2]|]. intros; cbn in *; lia.
Qed.



(** ** The cache over a session *)

(** The application reads a catalogue, or the article with number [id] *)
Inductive read := ReadCatalogue (g : catalogue) | ReadArticle (id : nat) (k : article).

Definition read_page (r : read) : M PageCache Z :=
  match r with
  | ReadCatalogue g => ParsePage (render_catalogue g) ECT_Catagory 0
  | ReadArticle id k => ParsePage (render_article k) ECT_Content (Z.of_nat id)
  end.

Fixpoint read_pages (rs : list read) : M PageCache unit :=
  match rs with
  | [] => mret tt
  | r :: rs => _ ← read_page r; read_pages rs
  end.

(** All rows, and the items of the articles with number [id], that were read *)
Fixpoint rows_read (rs : list read) : list row :=
  match rs with
  | [] => []
  | ReadCatalogue g :: rs => g_rows g ++ rows_read rs
  | ReadArticle _ _ :: rs => rows_read rs
  end.

Fixpoint articles_read (id : nat) (rs : list read) : list article :=
  match rs with
  | [] => []
  | ReadArticle i k :: rs => if decide (i = id) then k :: articles_read id rs else articles_read id rs
  | ReadCatalogue _ :: rs => articles_read id rs
  end.

Definition items_read (id : nat) (rs : list read) : list contentItem := concat (map article_items (articles_read id rs)).

(** The pages are as described, and an article is one of a row that was read. *)
Definition read_ok (n : nat) (r : read) : bool :=
  match r with
  | ReadCatalogue g => catalogue_ok g && (Z.of_nat (n + length (g_rows g)) <? 2 ^ 31)
  | ReadArticle id k => article_ok k && (id <? n)%nat
  end.

Fixpoint reads_ok (n : nat) (rs : list read) : bool :=
  match rs with
  | [] => true
  | r :: rs => read_ok n r && reads_ok (n + match r with ReadCatalogue g => length (g_rows g) | _ => 0 end) rs
  end.

Record pages_rep (h : list read) (c : PageCache) : Prop := {
  pg_count : Z.of_nat (length (rows_read h)) < 2 ^ 31;
  pg_news : catagory_ c = imap (fun i r => news_of (Z.of_nat i) r) (rows_read h);
  pg_serial : serial c = Z.of_nat (length (rows_read h));
  pg_content : content_ c = imap (fun i _ => items_read i h) (rows_read h);
  pg_cached : cached_page_ c = imap (fun i _ => negb (Nat.eqb (length (articles_read i h)) 0)) (rows_read h);
  pg_late : ∀ i, (length (rows_read h) ≤ i)%nat → articles_read i h = [];
}.

Lemma rows_read_app h k : rows_read (h ++ k) = rows_read h ++ rows_read k.
Proof. induction h as [|[g|i a] h IH]; cbn; [done|by rewrite IH, app_assoc|done]. Qed.

Lemma articles_read_app id h k : articles_read id (h ++ k) = articles_read id h ++ articles_read id k.
Proof. induction h as [|[g|i a] h IH]; cbn; [done|done|]. case_decide; [cbn; by f_equal|done]. Qed.

Lemma resized_imap {A} (f : nat → row → A) (a : A) l k : (∀ i r, (length l ≤ i)%nat → f i r = a) →
  resized (length (l ++ k)) a (imap f l) = imap f (l ++ k).
Proof.
  intros H. unfold resized. rewrite length_imap, take_ge by (rewrite length_imap, length_app; lia). rewrite imap_app. f_equal. rewrite length_app.
  replace (length l + length k - length l)%nat with (length k) by lia. apply list_eq. intros i. rewrite list_lookup_imap. destruct (k !! i) as [r|] eqn:E; cbn.
  - rewrite lookup_replicate_2 by (by eapply lookup_lt_Some). rewrite H by lia. done.
  - rewrite lookup_ge_None in E. by apply lookup_ge_None; rewrite length_replicate.
Qed.

Lemma insert_imap {A} (f g : nat → row → A) (a : A) l n : (∀ i r, i ≠ n → f i r = g i r) → (∀ r, g n r = a) → <[n := a]> (imap f l) = imap g l.
Proof.
  intros H1 H2. apply list_eq. intros i. rewrite list_lookup_insert, !list_lookup_imap, length_imap. case_decide as Hd.
  - destruct Hd as [<- Hl]. apply lookup_lt_is_Some in Hl as [r ->]. cbn. by rewrite H2.
  - destruct (l !! i) as [r|] eqn:E; [|done]. cbn. rewrite H1; [done|]. intros ->. apply Hd. split; [done|]. by eapply lookup_lt_Some.
Qed.

Lemma read_page_rep h c r : pages_rep h c → read_ok (length (rows_read h)) r = true → ∃ n c', read_page r c = Ok (n, c') ∧ pages_rep (h ++ [r]) c'.
Proof.
  intros [Hn Hnews Hser Hcon Hcac Hlate] Hok. destruct r as [g|id k]; cbn [read_page read_ok] in *; apply andb_prop in Hok as [Hok Hlim]; unfold ParsePage, parse_test_page.
  - apply Z.ltb_lt in Hlim. change (ECT_Catagory =? ECT_Catagory) with true. change (ECT_Catagory =? 2) with false. change (ECT_Catagory =? 0) with true. cbn iota.
    rewrite Hser, parse_catagory_at by (done || lia). cbn iota. eexists _, _. split; [done|]. rewrite Hnews.
    assert (imap (λ i r, news_of (Z.of_nat i) r) (rows_read h) ++ imap (λ i r, news_of (Z.of_nat (length (rows_read h)) + Z.of_nat i) r) (g_rows g) = imap (λ i r, news_of (Z.of_nat i) r) (rows_read h ++ g_rows g)) as ->.
    { rewrite imap_app. f_equal. apply imap_ext. intros i r _. cbn. f_equal. lia. }
    rewrite length_imap, i32_id by (rewrite length_app; lia). split; rewrite ?rows_read_app; cbn [rows_read]; rewrite ?app_nil_r.
    + rewrite length_app. lia.
    + case_match; by rsimpl.
    + rewrite length_app. case_match; rsimpl; lia.
    + assert (content_ c = imap (λ i _, items_read i (h ++ [ReadCatalogue g])) (rows_read h)) as E by (rewrite Hcon; apply imap_ext; intros; unfold items_read; by rewrite articles_read_app, app_nil_r).
      destruct (0 <? _) eqn:E0; rsimpl; rewrite E.
      * rewrite Nat2Z.id. apply resized_imap. intros i r Hi. unfold items_read. rewrite articles_read_app, app_nil_r. by rewrite Hlate.
      * apply Z.ltb_ge in E0. by destruct (rows_read h), (g_rows g); cbn in E0; try lia.
    + assert (cached_page_ c = imap (λ i _, negb (length (articles_read i (h ++ [ReadCatalogue g])) =? 0)%nat) (rows_read h)) as E by (rewrite Hcac; apply imap_ext; intros; by rewrite articles_read_app, app_nil_r).
      destruct (0 <? _) eqn:E0; rsimpl; rewrite E.
      * rewrite Nat2Z.id. apply resized_imap. intros i r Hi. rewrite articles_read_app, app_nil_r. by rewrite Hlate.
      * apply Z.ltb_ge in E0. by destruct (rows_read h), (g_rows g); cbn in E0; try lia.
    + intros i Hi. rewrite length_app in Hi. rewrite articles_read_app, app_nil_r. apply Hlate. lia.
  - apply Nat.ltb_lt in Hlim. change (ECT_Content =? ECT_Catagory) with false. change (ECT_Content =? ECT_Content) with true. change (ECT_Content =? 2) with false. change (ECT_Content =? 0) with false. change (ECT_Content =? 1) with true. cbn iota.
    cbv zeta. destruct (lookup_lt_is_Some_2 (rows_read h) id Hlim) as [r Hr].
    assert (length (cached_page_ c) = length (rows_read h)) as -> by (by rewrite Hcac, length_imap). assert (content_ c !! id = Some (items_read id h)) as Hl by (by rewrite Hcon, list_lookup_imap, Hr).
    rewrite i32_id, (proj2 (Z.ltb_ge _ _)), (proj2 (Z.ltb_ge _ _)), !Nat2Z.id, Hl, parse_content_at by (done || lia). eexists _, _. split; [done|].
    assert (∀ i, articles_read i (h ++ [ReadArticle id k]) = articles_read i h ++ if decide (id = i) then [k] else []) as Ha by (intros i; rewrite articles_read_app; done).
    split; rewrite ?rows_read_app; cbn [rows_read]; rewrite ?app_nil_r; rsimpl; [done|done|done| | |].
    + rewrite Hcon. apply insert_imap; unfold items_read.
      * intros i _ Hi. rewrite Ha, decide_False by done. by rewrite app_nil_r.
      * intros _. rewrite Ha, decide_True, map_app, concat_app by done. cbn [map concat]. by rewrite app_nil_r.
    + rewrite Hcac. apply insert_imap.
      * intros i _ Hi. rewrite Ha, decide_False by done. by rewrite app_nil_r.
      * intros _. rewrite Ha, decide_True, length_app by done. cbn. by rewrite Nat.add_1_r.
    + intros i Hi. rewrite Ha, decide_False by lia. rewrite app_nil_r. by apply Hlate.
Qed.

Lemma read_pages_rep h c rs : pages_rep h c → reads_ok (length (rows_read h)) rs = true → ∃ c', read_pages rs c = Ok (tt, c') ∧ pages_rep (h ++ rs) c'.
Proof.
  revert h c. induction rs as [|r rs IH]; intros h c Hc Hok; [exists c; by rewrite app_nil_r|]. cbn [reads_ok] in Hok. apply andb_prop in Hok as [H1 H2].
  destruct (read_page_rep h c r Hc H1) as (n & c1 & R1 & Hc1). destruct (IH _ _ Hc1) as (c2 & R2 & Hc2).
  - rewrite rows_read_app, length_app. by destruct r; cbn [rows_read] in *; rewrite ?app_nil_r.
  - exists c2. split; [eapply bind_run; [exact R1|exact R2]|]. by rewrite <- app_assoc in Hc2.
Qed.


(** A session: a catalogue with two rows, then the second article *)
Definition row_of (t u : string) : row := MkRow (bs ">") (bs "<td>1") (bs " ") (bs t) (bs "<a ") (bs u) (bs "edit</a>").
Definition session_ex : list read :=
  [ReadCatalogue (MkCatalogue (bs "<table>") (bs "<tr>") [row_of "first" "/a/1"; row_of "second" "/a/2"] (bs "</table>"));
   ReadArticle 1 (MkArticle (bs "<input ") (bs "a title") (bs "<div class=") [MkBlk false [] (bs "<b>one</b>"); MkBlk true (bs " ") (bs "i.png"); MkBlk false (bs ">") (bs "two")] (bs "</div>"))].


End SdkPages.
