(* ===== verification/SdkTls.v ===== *)
(** * The client hello parser of the sdk (src/sdk/sdk/YMEUtils.cpp)

    [Connect::DetactTlsClientHello] looks for the server name in the first packet of a
    TLS connection.  [buf] is the array the packet is in, a position is an index in it,
    and an access outside of it, or outside of the array for the host, is a fault.  The
    variables that the code reads before it sets them are arguments. *)

From S2P Require Import Prelude SdkHttp.
From stdpp Require Import base list strings.
From Stdlib Require Import ZArith Lia.
Import SdkHttp.

Open Scope Z_scope.

Module SdkTls.

(** ** PACKET *)

Record PACKET := MkPacket { curr : Z; remaining : Z (* int *) }.

(** [packet_forward], which does not check *)
Definition packet_forward (pkt : PACKET) (len : Z) : PACKET := MkPacket (curr pkt + len) (i32 (remaining pkt - len)).

Definition read_byte (buf : bytes) (p : Z) : result Z := byte_at buf (Z.to_nat p).

(** The functions that fail return [None] and leave the packet and the result alone. *)
Definition PACKET_peek_1 (buf : bytes) (pkt : PACKET) : result (option Z) :=
  if remaining pkt =? 0 then Ok None else
  b ← read_byte buf (curr pkt); Ok (Some b).

Definition PACKET_get_1 (buf : bytes) (pkt : PACKET) : result (option (Z * PACKET)) :=
  r ← PACKET_peek_1 buf pkt;
  match r with None => Ok None | Some data => Ok (Some (data, packet_forward pkt 1)) end.

Definition PACKET_peek_net_2 (buf : bytes) (pkt : PACKET) : result (option Z) :=
  if remaining pkt <? 2 then Ok None else
  hi ← read_byte buf (curr pkt);
  lo ← read_byte buf (curr pkt + 1);
  Ok (Some (Z.lor (Z.shiftl hi 8) lo)).

Definition PACKET_get_net_2 (buf : bytes) (pkt : PACKET) : result (option (Z * PACKET)) :=
  r ← PACKET_peek_net_2 buf pkt;
  match r with None => Ok None | Some data => Ok (Some (data, packet_forward pkt 2)) end.

Definition PACKET_skip_field_1 (buf : bytes) (pkt : PACKET) : result (option PACKET) :=
  r ← PACKET_get_1 buf pkt;
  match r with None => Ok None | Some (data, pkt) => Ok (Some (packet_forward pkt data)) end.

Definition PACKET_skip_field_2 (buf : bytes) (pkt : PACKET) : result (option PACKET) :=
  r ← PACKET_peek_net_2 buf pkt;
  match r with None => Ok None | Some data => Ok (Some (packet_forward pkt (2 + data))) end.

(** [PACKET_copy_bytes] into the array [data]: [remaining] is compared as a [size_t]. *)
Definition PACKET_copy_bytes (buf : bytes) (pkt : PACKET) (data : bytes) (len : Z) : result (option (bytes * PACKET)) :=
  if u64 (remaining pkt) <? len then Ok None else
  if (Z.of_nat (length buf) <? curr pkt + len) || (Z.of_nat (length data) <? len) then Bad OutOfBounds else
  Ok (Some (blit 0 (sub (Z.to_nat (curr pkt)) (Z.to_nat len) buf) data, packet_forward pkt len)).

(** ** The parser *)

(** The host array and [hostlen], or none when no server name is found *)
Fixpoint tls_parse_extension_host (fuel : nat) (buf : bytes) (pkt : PACKET) (type tlen : Z) (host : bytes) : result (option (bytes * Z)) :=
  match fuel with
  | O => Bad OutOfFuel
  | S fuel' =>
    if negb (0 <? remaining pkt) then Ok None else
    r ← PACKET_get_net_2 buf pkt;
    let '(type, pkt) := match r with Some x => x | None => (type, pkt) end in
    if type =? 0 then
      r ← PACKET_get_net_2 buf pkt;
      let '(tlen, pkt) := match r with Some x => x | None => (tlen, pkt) end in
      r ← PACKET_copy_bytes buf pkt host tlen;
      Ok (Some (match r with Some (host', _) => host' | None => host end, tlen))
    else tls_parse_extension_host fuel' buf pkt type tlen host
  end.

(** Without packing, both headers have six bytes. *)
Definition sizeof_TlsHdr : Z := 6.
Definition sizeof_CliHelloHdr : Z := 6.

Definition TLS_TYPE_HANDSHAKE : Z := 22.
Definition TLS_CLIENT_HELLO_TYPE : Z := 1.
Definition RANDOM_SIZE : Z := 32.

(** From the first field on: 0 with the host, or -1 *)
Definition parse_hello (buf : bytes) (pkt : PACKET) (type tlen : Z) (host : bytes) : result (Z * bytes * option Z) :=
  r ← PACKET_get_1 buf pkt;
  let pkt := match r with Some (_, pkt) => pkt | None => pkt end in
  r ← PACKET_get_net_2 buf pkt;
  let pkt := match r with Some (_, pkt) => pkt | None => pkt end in
  let pkt := packet_forward pkt RANDOM_SIZE in
  r ← PACKET_skip_field_1 buf pkt;
  match r with None => Ok (-1, host, None) | Some pkt =>
  r ← PACKET_skip_field_2 buf pkt;
  match r with None => Ok (-1, host, None) | Some pkt =>
  r ← PACKET_skip_field_1 buf pkt;
  match r with None => Ok (-1, host, None) | Some pkt =>
    if remaining pkt =? 0 then Ok (-1, host, None) else
    r ← tls_parse_extension_host (S (Z.to_nat (remaining pkt))) buf pkt type tlen host;
    match r with
    | Some (host, hostlen) => Ok (0, host, Some hostlen)
    | None => Ok (-1, host, None)
    end
  end end end.

(** The result, the host array and [hostlen] when it is set.  The second header is read
    behind six headers, since the pointer is cast before the offset is added. *)
Definition DetactTlsClientHello (buf : bytes) (packet_len : Z) (type tlen : Z) (host : bytes) : result (Z * bytes * option Z) :=
  if packet_len <? 64 then Ok (-1, host, None) else
  content_type ← read_byte buf 0;
  if negb (content_type =? TLS_TYPE_HANDSHAKE) then Ok (-1, host, None) else
  handshake_type ← read_byte buf (sizeof_CliHelloHdr * sizeof_TlsHdr);
  if handshake_type =? TLS_CLIENT_HELLO_TYPE then Ok (-1, host, None) else
  l0 ← read_byte buf 4;
  l1 ← read_byte buf 5;
  let remain := ntohs (of_le [l0; l1]) in
  let packet_remain := u32 (packet_len - sizeof_TlsHdr - sizeof_CliHelloHdr) in
  parse_hello buf (MkPacket (sizeof_TlsHdr + sizeof_CliHelloHdr) (i32 (if packet_remain <? remain then packet_remain else remain))) type tlen host.

(** ** Fields of a packet *)

Definition size (l : bytes) : Z := Z.of_nat (length l).

Definition be16 (n : Z) : bytes := [n / 256; n mod 256].

Lemma psize_app a b : size (a ++ b) = size a + size b.
Proof. unfold size. rewrite length_app. lia. Qed.

Lemma psize_nonneg a : 0 ≤ size a.
Proof. unfold size. lia. Qed.

Lemma read_at buf pre b post p : buf = pre ++ b :: post → p = size pre → read_byte buf p = Ok b.
Proof. intros -> ->. unfold read_byte, size. rewrite Nat2Z.id. apply byte_at_app. Qed.

Lemma net2 hi lo : 0 ≤ lo < 256 → Z.lor (Z.shiftl hi 8) lo = 256 * hi + lo.
Proof.
  intros Hl. rewrite Z.shiftl_mul_pow2 by lia. pose proof (Z.add_lor_land (hi * 2 ^ 8) lo) as H. assert (Z.land (hi * 2 ^ 8) lo = 0); [|lia].
  apply Z.bits_inj'. intros n Hn. rewrite Z.land_spec, Z.bits_0. destruct (decide (n < 8)) as [Hk|Hk]; [by rewrite Z.mul_pow2_bits_low by lia|].
  replace lo with (lo mod 2 ^ 8) by (apply Z.mod_small; lia). rewrite Z.mod_pow2_bits_high by lia. apply andb_false_r.
Qed.

Lemma forward_ok c r n : 0 ≤ n ≤ r → r < 2 ^ 31 → packet_forward (MkPacket c r) n = MkPacket (c + n) (r - n).
Proof. intros. unfold packet_forward. cbn [curr remaining]. f_equal. apply swrap_id; [lia|]. unfold in_s. cbn. lia. Qed.

Lemma get_1_at buf pre b post r : buf = pre ++ b :: post → 1 ≤ r < 2 ^ 31 →
  PACKET_get_1 buf (MkPacket (size pre) r) = Ok (Some (b, MkPacket (size (pre ++ [b])) (r - 1))).
Proof.
  intros Hb Hr. unfold PACKET_get_1, PACKET_peek_1. cbn [curr remaining]. rewrite (proj2 (Z.eqb_neq _ _)) by lia. rewrite (read_at _ _ _ _ _ Hb) by done. cbn. rewrite forward_ok by lia. by rewrite psize_app.
Qed.

Lemma peek_2_at buf pre n post r : buf = pre ++ be16 n ++ post → 2 ≤ r → 
  PACKET_peek_net_2 buf (MkPacket (size pre) r) = Ok (Some n).
Proof.
  intros Hb Hr. unfold PACKET_peek_net_2. cbn [curr remaining]. rewrite (proj2 (Z.ltb_ge _ _)) by lia. rewrite (read_at _ _ (n / 256) (n mod 256 :: post) (size pre) Hb eq_refl). cbn [mbind result_bind].
  rewrite (read_at buf (pre ++ [n / 256]) (n mod 256) post (size pre + 1)); [|by rewrite Hb, <- app_assoc|by rewrite psize_app]. cbn [mbind result_bind]. rewrite net2 by (apply Z.mod_pos_bound; lia). do 2 f_equal. symmetry. apply Z_div_mod_eq_full.
Qed.

Lemma get_2_at buf pre n post r : buf = pre ++ be16 n ++ post → 2 ≤ r < 2 ^ 31 → 
  PACKET_get_net_2 buf (MkPacket (size pre) r) = Ok (Some (n, MkPacket (size (pre ++ be16 n)) (r - 2))).
Proof. intros Hb Hr. unfold PACKET_get_net_2. rewrite (peek_2_at _ _ _ _ _ Hb) by lia. cbn. rewrite forward_ok by lia. by rewrite psize_app. Qed.

Lemma skip_1_at buf pre s post r : buf = pre ++ size s :: s ++ post → size s + 1 ≤ r < 2 ^ 31 → 
  PACKET_skip_field_1 buf (MkPacket (size pre) r) = Ok (Some (MkPacket (size (pre ++ size s :: s)) (r - 1 - size s))).
Proof.
  intros Hb Hr. pose proof (psize_nonneg s). unfold PACKET_skip_field_1. rewrite (get_1_at _ _ _ _ _ Hb) by lia. cbn. rewrite forward_ok by lia. do 3 f_equal. rewrite !psize_app. unfold size. cbn [length]. lia.
Qed.

Lemma skip_2_at buf pre s post r : buf = pre ++ be16 (size s) ++ s ++ post → size s + 2 ≤ r < 2 ^ 31 → 
  PACKET_skip_field_2 buf (MkPacket (size pre) r) = Ok (Some (MkPacket (size (pre ++ be16 (size s) ++ s)) (r - 2 - size s))).
Proof.
  intros Hb Hr. pose proof (psize_nonneg s). unfold PACKET_skip_field_2. rewrite (peek_2_at _ _ _ _ _ Hb) by lia. cbn [mbind result_bind]. rewrite forward_ok by lia. do 3 f_equal; [|lia]. rewrite !psize_app. unfold size, be16. cbn [length]. lia.
Qed.

(** ** The packets the parser understands *)

(** A hello: its header, the fields it skips, the words before the server name
    extension, the extension, and what follows *)
Record hello := MkHello {
  e_header : bytes;    (* 12 bytes *)
  e_start : bytes;     (* type, version, random: 35 bytes *)
  e_session : bytes;
  e_ciphers : bytes;
  e_compression : bytes;
  e_words : list Z;    (* 16 bits each, not zero *)
  e_name : bytes;      (* the body of the extension *)
  e_rest : bytes;
}.

Definition hello_fields (e : hello) : bytes :=
  e_start e ++ (size (e_session e) :: e_session e) ++ (be16 (size (e_ciphers e)) ++ e_ciphers e) ++ (size (e_compression e) :: e_compression e) ++
  concat (map be16 (e_words e)) ++ be16 0 ++ be16 (size (e_name e)) ++ e_name e.

Definition hello_packet (e : hello) : bytes := e_header e ++ hello_fields e ++ e_rest e.

(** The length in the header covers the extension, and byte 36, which is taken for the
    handshake type, is not the one of a client hello. *)
Definition hello_ok (e : hello) : bool :=
  (size (e_header e) =? 12) && (size (e_start e) =? 35) && (64 <=? size (hello_packet e)) && (size (hello_packet e) <? 2 ^ 31) &&
  (default 0 (hello_packet e !! 0%nat) =? 22) && negb (default 0 (hello_packet e !! 36%nat) =? 1) &&
  (size (hello_fields e) <=? 256 * default 0 (e_header e !! 4%nat) + default 0 (e_header e !! 5%nat)) &&
  bool_decide (Forall (in_u 8) (e_header e)) && bool_decide (Forall (fun w => 0 < w) (e_words e)).

Lemma words_at fuel buf pre ws name post r type tlen host : Forall (fun w => 0 < w) ws → buf = pre ++ concat (map be16 ws) ++ be16 0 ++ be16 (size name) ++ name ++ post →
  2 * Z.of_nat (length ws) + 4 + size name ≤ r < 2 ^ 31 → (length ws < fuel)%nat →
  tls_parse_extension_host fuel buf (MkPacket (size pre) r) type tlen host =
    if size host <? size name then Bad OutOfBounds else Ok (Some (blit 0 name host, size name)).
Proof.
  intros Hw. revert fuel pre r type. induction Hw as [|w ws Hw0 Hw IH]; intros [|fuel] pre r type Hb Hr Hf; try (cbn in Hf; lia); pose proof (psize_nonneg name) as Hn; cbn [tls_parse_extension_host remaining].
  - cbn [length] in Hr. rewrite (proj2 (Z.ltb_lt _ _)) by lia. cbn [negb]. rewrite (get_2_at _ _ _ _ _ Hb) by lia. cbn [mbind result_bind]. change (0 =? 0) with true. cbn iota.
    assert (buf = (pre ++ be16 0) ++ be16 (size name) ++ name ++ post) as Hb1 by (rewrite Hb; by rewrite <- !app_assoc). rewrite (get_2_at _ _ _ _ _ Hb1) by lia. cbn [mbind result_bind].
    assert (buf = ((pre ++ be16 0) ++ be16 (size name)) ++ name ++ post) as Hb2 by (rewrite Hb1; by rewrite <- !app_assoc).
    unfold PACKET_copy_bytes. cbn [curr remaining]. assert (u64 (r - 2 - 2) = r - 2 - 2) as -> by (apply wrap_id; unfold in_u; cbn; lia). rewrite (proj2 (Z.ltb_ge _ _)) by lia.
    rewrite (proj2 (Z.ltb_ge (Z.of_nat (length buf)) _)). 2: { fold (size buf). rewrite Hb2, (psize_app ((pre ++ be16 0) ++ be16 (size name)) (name ++ post)), (psize_app name post). pose proof (psize_nonneg post). lia. }
    cbn [orb]. fold (size host). destruct (size host <? size name); [done|]. cbn. do 4 f_equal. rewrite Hb2. unfold sub, size. by rewrite !Nat2Z.id, drop_app_length, take_app_length.
  - cbn [length] in Hr. rewrite (proj2 (Z.ltb_lt _ _)) by lia. cbn [negb]. cbn [map concat] in Hb. rewrite <- app_assoc in Hb. rewrite (get_2_at _ _ _ _ _ Hb) by lia. cbn [mbind result_bind].
    rewrite (proj2 (Z.eqb_neq _ _)) by lia. apply IH; [by rewrite Hb, <- app_assoc|lia|cbn in Hf; lia].
Qed.

Lemma get_2_any buf pre a b post r : buf = pre ++ a :: b :: post → 2 ≤ r < 2 ^ 31 →
  ∃ n, PACKET_get_net_2 buf (MkPacket (size pre) r) = Ok (Some (n, MkPacket (size (pre ++ [a; b])) (r - 2))).
Proof.
  intros Hb Hr. unfold PACKET_get_net_2, PACKET_peek_net_2. cbn [curr remaining]. rewrite (proj2 (Z.ltb_ge _ _)) by lia. rewrite (read_at _ _ a (b :: post) (size pre) Hb eq_refl). cbn [mbind result_bind].
  rewrite (read_at buf (pre ++ [a]) b post (size pre + 1)); [|by rewrite Hb, <- app_assoc|by rewrite psize_app]. cbn [mbind result_bind]. rewrite forward_ok by lia. eexists. by rewrite psize_app.
Qed.

Lemma read_lookup l k p b : l !! p = Some b → read_byte (l ++ k) (Z.of_nat p) = Ok b.
Proof. intros H. unfold read_byte, byte_at. rewrite Nat2Z.id. by rewrite (lookup_app_l_Some _ _ _ _ H). Qed.

Lemma ntohs_bytes a b : in_u 8 a → in_u 8 b → ntohs (of_le [a; b]) = 256 * a + b.
Proof.
  intros Ha Hb. unfold ntohs, htons. change 2%nat with (length [a; b]). rewrite (to_of_le [a; b]) by exact (Forall_cons_2 _ _ _ Ha (Forall_cons_2 _ _ _ Hb (Forall_nil_2 _))). cbn [reverse rev_append]. unfold reverse. cbn. lia.
Qed.

Lemma size_cons a l : size (a :: l) = 1 + size l.
Proof. unfold size. cbn [length]. lia. Qed.

Lemma size_words ws : size (concat (map be16 ws)) = 2 * Z.of_nat (length ws).
Proof. induction ws as [|w ws IH]; [done|]. cbn [map concat]. rewrite psize_app, IH. unfold size, be16. cbn [length]. lia. Qed.

Lemma size_hello e : size (hello_fields e) = size (e_start e) + size (e_session e) + size (e_ciphers e) + size (e_compression e) + 2 * Z.of_nat (length (e_words e)) + size (e_name e) + 8.
Proof. unfold hello_fields. rewrite !psize_app, !size_cons, size_words. change (size (be16 _)) with 2. lia. Qed.

Lemma parse_hello_at e buf post r type tlen host : buf = e_header e ++ hello_fields e ++ post → size (e_header e) = 12 → size (e_start e) = 35 →
  Forall (fun w => 0 < w) (e_words e) → size (hello_fields e) ≤ r < 2 ^ 31 →
  parse_hello buf (MkPacket 12 r) type tlen host = if size host <? size (e_name e) then Bad OutOfBounds else Ok (0, blit 0 (e_name e) host, Some (size (e_name e))).
Proof.
  intros Hb Hh Hst Hw Hr. rewrite size_hello, Hst in Hr. unfold hello_fields in Hb.
  pose proof (psize_nonneg (e_session e)). pose proof (psize_nonneg (e_ciphers e)). pose proof (psize_nonneg (e_compression e)). pose proof (psize_nonneg (e_name e)).
  destruct (e_start e) as [|b [|v1 [|v2 rnd]]] eqn:Es; try (unfold size in Hst; cbn in Hst; lia). rewrite !size_cons in Hst. rewrite <- !app_assoc in Hb.
  assert (buf = (e_header e ++ [b]) ++ v1 :: v2 :: rnd ++ (size (e_session e) :: e_session e) ++ be16 (size (e_ciphers e)) ++ e_ciphers e ++ (size (e_compression e) :: e_compression e) ++
    concat (map be16 (e_words e)) ++ be16 0 ++ be16 (size (e_name e)) ++ e_name e ++ post) as Hb1 by (rewrite Hb; by rewrite <- !app_assoc).
  unfold parse_hello. rewrite <- Hh, (get_1_at _ _ _ _ _ Hb) by lia. cbn [mbind result_bind]. destruct (get_2_any _ _ _ _ _ (r - 1) Hb1) as [n ->]; [lia|]. cbn [mbind result_bind].
  unfold RANDOM_SIZE. rewrite forward_ok by lia. set (p1 := ((e_header e ++ [b]) ++ [v1; v2]) ++ rnd).
  replace (size ((e_header e ++ [b]) ++ [v1; v2]) + 32) with (size p1) by (unfold p1; rewrite (psize_app _ rnd); lia).
  rewrite (skip_1_at buf p1 (e_session e) (be16 (size (e_ciphers e)) ++ e_ciphers e ++ (size (e_compression e) :: e_compression e) ++ concat (map be16 (e_words e)) ++ be16 0 ++ be16 (size (e_name e)) ++ e_name e ++ post)); [|rewrite Hb1; unfold p1; by rewrite <- !app_assoc|lia].
  cbn [mbind result_bind]. set (p2 := p1 ++ size (e_session e) :: e_session e).
  rewrite (skip_2_at buf p2 (e_ciphers e) ((size (e_compression e) :: e_compression e) ++ concat (map be16 (e_words e)) ++ be16 0 ++ be16 (size (e_name e)) ++ e_name e ++ post)); [|rewrite Hb1; unfold p2, p1; by rewrite <- !app_assoc|lia].
  cbn [mbind result_bind]. set (p3 := p2 ++ be16 (size (e_ciphers e)) ++ e_ciphers e).
  rewrite (skip_1_at buf p3 (e_compression e) (concat (map be16 (e_words e)) ++ be16 0 ++ be16 (size (e_name e)) ++ e_name e ++ post)); [|rewrite Hb1; unfold p3, p2, p1; by rewrite <- !app_assoc|lia].
  cbn [mbind result_bind remaining]. rewrite (proj2 (Z.eqb_neq _ _)) by lia.
  rewrite (words_at _ buf _ (e_words e) (e_name e) post); [|done|rewrite Hb1; unfold p3, p2, p1; by rewrite <- !app_assoc|lia|lia]. by destruct (_ <? _).
Qed.

(** C40: on a packet in the layout it expects, the hello parser skips session id, cipher
    suites, compression methods and the words before the server name extension, and
    returns 0 with the body of that extension at the start of the host array and its
    length; the size of that array is not known to it, and a longer body is written
    behind its end. *)
Theorem hello_server_name e behind type tlen host : hello_ok e = true →
  DetactTlsClientHello (hello_packet e ++ behind) (size (hello_packet e)) type tlen host =
    if size host <? size (e_name e) then Bad OutOfBounds else Ok (0, blit 0 (e_name e) host, Some (size (e_name e))).
Proof.
  unfold hello_ok. intros H. repeat apply andb_prop in H as [H ?]. repeat match goal with
    Hx : (_ =? _) = true |- _ => apply Z.eqb_eq in Hx | Hx : (_ <=? _) = true |- _ => apply Z.leb_le in Hx | Hx : (_ <? _) = true |- _ => apply Z.ltb_lt in Hx | Hx : bool_decide _ = true |- _ => apply bool_decide_eq_true in Hx end.
  assert (∀ n, (n < 64)%nat → ∃ b, hello_packet e !! n = Some b) as Hp by (intros n Hn; apply lookup_lt_is_Some_2; unfold size in *; lia).
  unfold DetactTlsClientHello. rewrite (proj2 (Z.ltb_ge _ _)) by lia.
  destruct (Hp 0%nat) as [b0 E0]; [lia|]. destruct (Hp 36%nat) as [b36 E36]; [lia|]. rewrite E0 in *. rewrite E36 in *.
  rewrite (read_lookup _ behind _ _ E0 : read_byte _ 0 = _), (read_lookup _ behind _ _ E36 : read_byte _ (sizeof_CliHelloHdr * sizeof_TlsHdr) = _). cbn [mbind result_bind from_option id default] in *. subst b0. cbn [negb Z.eqb TLS_TYPE_HANDSHAKE].
  match goal with Hx : negb _ = true |- _ => apply negb_true_iff in Hx; unfold TLS_CLIENT_HELLO_TYPE; rewrite Hx end.
  assert (∀ n, (n < 12)%nat → ∃ b, e_header e !! n = Some b ∧ hello_packet e !! n = Some b ∧ in_u 8 b) as Hh.
  { intros n Hn. destruct (lookup_lt_is_Some_2 (e_header e) n) as [b Eb]; [unfold size in *; lia|]. exists b. split_and!; [done|by apply lookup_app_l_Some|]. by eapply Forall_lookup_1. }
  destruct (Hh 4%nat) as (l0 & E4 & E4' & Hl0); [lia|]. destruct (Hh 5%nat) as (l1 & E5 & E5' & Hl1); [lia|]. rewrite E4, E5 in *. cbn [from_option id default] in *.
  rewrite (read_lookup _ behind _ _ E4' : read_byte _ 4 = _), (read_lookup _ behind _ _ E5' : read_byte _ 5 = _). cbn [mbind result_bind]. rewrite ntohs_bytes by done.
  unfold sizeof_TlsHdr, sizeof_CliHelloHdr. assert (size (hello_packet e) = 12 + size (hello_fields e) + size (e_rest e)) as Hsz by (unfold hello_packet; rewrite !psize_app; lia).
  pose proof (psize_nonneg (e_rest e)). pose proof (psize_nonneg (hello_fields e)). unfold in_u in Hl0, Hl1. change (2 ^ 8) with 256 in *.
  assert (u32 (size (hello_packet e) - 6 - 6) = size (hello_packet e) - 12) as -> by (rewrite wrap_id; [lia|]; unfold in_u; cbn; lia).
  apply (parse_hello_at e _ (e_rest e ++ behind)); try done; [unfold hello_packet; by rewrite <- !app_assoc|].
  rewrite swrap_id; [|lia|unfold in_s; cbn; case_match; lia]. case_match; lia.
Qed.

(** ** What else it does *)

(** A packet in the layout the parser reads, with a server name *)
Definition hello_ex : hello :=
  MkHello [22; 0; 3; 1; 0; 80; 0; 0; 0; 0; 0; 0] (1 :: 3 :: 3 :: replicate 32 7) (replicate 4 9) [19; 1; 19; 2] [0] [43; 2] (bs "example.com") [0; 0; 5].

(** Witness of C40. *)
Lemma hello_server_name_witness : DetactTlsClientHello (hello_packet hello_ex ++ []) (size (hello_packet hello_ex)) 1 1 (replicate 16 0) = Ok (0, bs "example.com" ++ replicate 5 0, Some 11).
Proof. rewrite (hello_server_name hello_ex [] 1 1 (replicate 16 0)); [vm_compute; reflexivity|vm_compute; reflexivity]. Defined.

(** A server name that does not fit the array of the caller is written behind its end. *)
Example hello_overrun : DetactTlsClientHello (hello_packet hello_ex) (size (hello_packet hello_ex)) 1 1 (replicate 4 0) = Bad OutOfBounds.
Proof. vm_compute. reflexivity. Qed.

(** Cipher suites longer than the packet: the number of remaining bytes becomes negative,
    which is not taken for the end, and the next length is read behind the buffer. *)
Example hello_overread : DetactTlsClientHello (22 :: 0 :: 3 :: 1 :: 0 :: 52 :: replicate 42 0 ++ 255 :: 255 :: replicate 4046 0) 64 1 1 (replicate 64 0) = Bad OutOfBounds.
Proof. vm_compute. reflexivity. Qed.

(** One byte left: the loop over the extensions does not end. *)
Theorem hello_endless fuel buf c type tlen host : type ≠ 0 → tls_parse_extension_host fuel buf (MkPacket c 1) type tlen host = Bad OutOfFuel.
Proof.
  intros Ht. induction fuel as [|fuel IH]; [done|]. cbn [tls_parse_extension_host remaining]. change (negb (0 <? 1)) with false. cbn iota.
  unfold PACKET_get_net_2, PACKET_peek_net_2. cbn [remaining]. change (1 <? 2) with true. cbn iota. cbn [mbind result_bind]. by rewrite (proj2 (Z.eqb_neq _ _)) by done.
Qed.

End SdkTls.
