(* ===== verification/System.v ===== *)
(** * The system: a login across sdk, tunnel server and recorder

    The components are composed along the messages of a login: LOGIN_REQ from
    Connect::ProxyRecvEvent of the sdk, READ_TOKEN_REQ from Connect::HandleLoginReq
    of the tunnel server, READ_TOKEN_RSP from ReadToken of the recorder, and the
    decision of Connect::HandleReadTokenRsp of the server. *)

From S2P Require Import Prelude Wire Frame Os Dns TmsState TmsAccount TmsNet TmsProto TmsInv TmsProps Recorder SdkNet SdkProps.
From stdpp Require Import base gmap list strings.
From Stdlib Require Import ZArith Lia.
Import Dns Wire Frame Os TmsState TmsAccount TmsNet TmsProto TmsInv TmsProps.

Open Scope Z_scope.

Module System.

(** ** The stored token *)

(** Connections that exist keep their token. *)
Definition token_stable (s s' : tms) : Prop := next_ptr s ≤ next_ptr s' ∧
  ∀ p c', p < next_ptr s → conns s' !! p = Some c' → ∃ c, conns s !! p = Some c ∧ c_token c' = c_token c.

#[export] Instance token_stable_preorder : PreOrder token_stable.
Proof.
  split; [intros s; split; [lia|eauto]|]. intros a b c [N1 H1] [N2 H2]. split; [lia|]. intros p c' Hp Hc.
  destruct (H2 p c' ltac:(lia) Hc) as (c1 & Hc1 & E1). destruct (H1 p c1 Hp Hc1) as (c2 & Hc2 & E2). exists c2. split; [done|congruence].
Qed.

Lemma token_same s s' : conns s' = conns s → next_ptr s' = next_ptr s → token_stable s s'.
Proof. intros E1 E2. split; [lia|]. rewrite E1. eauto. Qed.

Lemma token_frame f : (∀ s, conns (f s) = conns s ∧ next_ptr (f s) = next_ptr s) → keeps token_stable (modify f).
Proof. intros Hf. apply keeps_modify. intros s. destruct (Hf s). by apply token_same. Qed.

Lemma token_conn p : keeps token_stable (conn p).
Proof. intros s a s'. unfold conn. destruct (_ !! _); [|done]. intros [= <- <-]. reflexivity. Qed.
Lemma token_scb_at p : keeps token_stable (scb_at p).
Proof. intros s a s'. unfold scb_at. destruct (_ !! _); [|done]. intros [= <- <-]. reflexivity. Qed.
Lemma token_user_at p : keeps token_stable (user_at p).
Proof. intros s a s'. unfold user_at. destruct (_ !! _); [|done]. intros [= <- <-]. reflexivity. Qed.
Lemma token_pool0 f : keeps token_stable (pool0 f).
Proof. intros s a s'. unfold pool0. destruct (f s); [done|]. intros [= <- <-]. reflexivity. Qed.
Lemma token_lift {A} (r : result A) : keeps token_stable (lift r).
Proof. intros s a s'. unfold lift. destruct r; [|done]. intros [= <- <-]. reflexivity. Qed.
Lemma token_set_scb p f : keeps token_stable (set_scb p f).
Proof. intros s a s'. unfold set_scb. destruct (_ !! _); [|done]. intros [= <- <-]. by apply token_same. Qed.
Lemma token_set_user p f : keeps token_stable (set_user p f).
Proof. intros s a s'. unfold set_user. destruct (_ !! _); [|done]. intros [= <- <-]. by apply token_same. Qed.

Lemma token_set_conn p f : (∀ c, c_token (f c) = c_token c) → keeps token_stable (set_conn p f).
Proof.
  intros Hf s a s'. unfold set_conn. destruct (conns s !! p) as [c|] eqn:Hc; [|done]. intros [= <- <-]. split; rsimpl; [lia|].
  intros q d _ Hd. destruct (decide (q = p)) as [->|]; [|rewrite lookup_insert_ne in Hd by done; eauto].
  rewrite lookup_insert_eq in Hd. injection Hd as <-. exists c. by rewrite Hf.
Qed.

Lemma token_new_scb id : keeps token_stable (new_scb id).
Proof. intros s a s' [= <- <-]. split; rsimpl; [lia|eauto]. Qed.
Lemma token_new_user : keeps token_stable new_user.
Proof. intros s a s' [= <- <-]. split; rsimpl; [lia|eauto]. Qed.
Lemma token_new_conn : keeps token_stable new_conn.
Proof. intros s a s' [= <- <-]. split; rsimpl; [lia|]. intros p c' Hp. rewrite lookup_insert_ne by lia. eauto. Qed.

(** A system call does not touch the connections. *)
Lemma token_send fd d : keeps token_stable (send (S := tms) fd d).
Proof. intros s a s'. unfold send. destruct (o_send _); destruct (_ <? 0); intros [= <- <-]; by apply token_same. Qed.
Lemma token_socket : keeps token_stable (socket (S := tms)).
Proof. intros s a s'. unfold socket. destruct (o_socket _); intros [= <- <-]; by apply token_same. Qed.
Lemma token_connect fd ip port : keeps token_stable (connect (S := tms) fd ip port).
Proof. intros s a s'. unfold connect. destruct (o_connect _) as [|[k e] ?]; [|destruct (_ <? 0)]; intros [= <- <-]; by apply token_same. Qed.
Lemma token_epoll_ctl op fd ev : keeps token_stable (epoll_ctl (S := tms) op fd ev).
Proof. intros s a s'. unfold epoll_ctl. destruct (o_ctl _); [|destruct (_ <? 0)]; intros [= <- <-]; by apply token_same. Qed.
Lemma token_close fd : keeps token_stable (close (S := tms) fd).
Proof. intros s a s' [= <- <-]. by apply token_same. Qed.
Lemma token_gets {A} (f : tms → A) : keeps token_stable (gets f).
Proof. apply keeps_gets. typeclasses eauto. Qed.

#[export] Hint Resolve token_conn token_scb_at token_user_at token_pool0 token_lift token_set_scb token_set_user token_new_scb
  token_new_user token_new_conn token_send token_socket token_connect token_epoll_ctl token_close : tunnel.

(** Walks through code that stores no token. *)
Ltac token_step :=
  match goal with
  | |- keeps token_stable (set_conn _ _) => apply token_set_conn; intros; case_ifs; reflexivity
  | |- keeps token_stable (modify _) => apply token_frame; intros; case_ifs; repeat split; reflexivity
  | |- keeps token_stable GetDnsConn => apply token_pool0
  | |- keeps token_stable gettimeofday => apply token_gets
  | |- keeps token_stable errno => apply token_gets
  | |- keeps token_stable random => apply token_gets
  | _ => walk_step
  end.
Ltac tokens := repeat token_step.

Lemma token_NewSCB : keeps token_stable NewSCB.
Proof. unfold NewSCB. tokens. Qed.
#[export] Hint Resolve token_NewSCB : tunnel.
Lemma token_CreateSCB u t a : keeps token_stable (CreateSCB u t a).
Proof. unfold CreateSCB. tokens. Qed.
Lemma token_RecordTraffic u b n : keeps token_stable (RecordTraffic u b n).
Proof. unfold RecordTraffic. tokens. Qed.
Lemma token_RetrieveUser id : keeps token_stable (RetrieveUser id).
Proof. unfold RetrieveUser. tokens. Qed.
Lemma token_AddEvent fd ev : keeps token_stable (AddEvent fd ev).
Proof. unfold AddEvent, ctl_event. tokens. Qed.
Lemma token_CreateAgentConn ip port : keeps token_stable (CreateAgentConn ip port).
Proof. unfold CreateAgentConn. tokens. Qed.
#[export] Hint Resolve token_CreateSCB token_RecordTraffic token_RetrieveUser token_AddEvent token_CreateAgentConn : tunnel.
Lemma token_SendMsg p m : keeps token_stable (SendMsg p m).
Proof. unfold SendMsg. tokens. Qed.
Lemma token_SendTmsMsg p m : keeps token_stable (SendTmsMsg p m).
Proof. unfold SendTmsMsg. tokens. Qed.
#[export] Hint Resolve token_SendMsg token_SendTmsMsg : tunnel.
Lemma token_ConnectWebServer u t ip port : keeps token_stable (ConnectWebServer u t ip port).
Proof. unfold ConnectWebServer. tokens. Qed.
#[export] Hint Resolve token_ConnectWebServer : tunnel.
Lemma token_login_connect p u h port : keeps token_stable (login_connect p u h port).
Proof. unfold login_connect. tokens. Qed.
#[export] Hint Resolve token_login_connect : tunnel.
(** ** LOGIN_REQ at the server *)

Lemma copy_token_stored from old tok : copy_token from old = Ok tok → (length (cstr from) < 32)%nat → length old = 32%nat →
  cstr tok = cstr from ∧ 0 ∈ tok.
Proof.
  unfold copy_token. intros H Hl Ho. destruct (bool_decide (0 ∉ from)) eqn:H0; [done|]. apply bool_decide_eq_false, dec_stable in H0.
  destruct (_ <=? 40)%nat; [|done]. injection H as <-. rewrite Nat.min_l by lia.
  destruct (Recorder.cstr_split from) as (rest & E & Hr). destruct Hr as [->|[t ->]].
  - rewrite app_nil_r in E. exfalso. apply (cstr_no_nul from). by rewrite <- E.
  - assert (take (length (cstr from) + 1) from = cstr from ++ [0]) as Et.
    { rewrite E at 2. rewrite take_app_ge by lia. f_equal. replace (length (cstr from) + 1 - length (cstr from))%nat with 1%nat by lia. done. }
    unfold blit. rewrite Et. cbn [take app]. rewrite <- app_assoc. split; [apply cstr_app_nul, cstr_no_nul|set_solver].
Qed.

Lemma SendTmsMsg_logged p msg s c r s' : conns s !! p = Some c → o_send (sys s) = [] → Z.of_nat (length msg) + HDR ≤ 1024 →
  SendTmsMsg p msg s = Ok (r, s') → ∃ l, o_log (sys s') = o_log (sys s) ++ IoSend (c_sock_fd c) (frame msg) :: l.
Proof.
  intros Hc Ho Hlen H. unfold SendTmsMsg in H. rewrite (bind_run _ _ _ _ _ _ (conn_run _ _ _ Hc) eq_refl) in H.
  assert (SendTmsMsg_bytes msg = Ok (frame msg)) as Hb.
  { unfold SendTmsMsg_bytes. destruct (Z.leb_spec (Z.of_nat (length msg) + HDR) 1024); [done|lia]. }
  rewrite Hb in H. inv_bind H. injection Hm as <- <-. inv_bind H.
  assert (o_log (sys s0) = o_log (sys s) ++ [IoSend (c_sock_fd c) (frame msg)]) as El.
  { unfold send in Hm. change (the_os s) with (sys s) in Hm. rewrite Ho in Hm. destruct (Z.ltb_spec (Z.of_nat (length (frame msg))) 0); [lia|].
    rewrite Z.min_id, Nat2Z.id, take_ge in Hm by lia. injection Hm as _ <-. done. }
  match type of H with ?m s0 = _ => assert (keeps evolves m) as Hk by evolve end.
  destruct (ev_log _ _ (Hk _ _ _ H)) as [l E]. exists l. rewrite E, El, <- app_assoc. done.
Qed.

Lemma length_sub_le off n l : (length (sub off n l) ≤ n)%nat.
Proof. unfold sub. rewrite length_take. lia. Qed.

(** The login of a client is passed to the recorder with the token it presented, and
    the token is kept for the comparison with the answer. *)
Lemma login_query p s c cn cc l ret s' : conns s !! p = Some c → let r : LoginReq := pdec (c_buff c) in
  Z.of_nat (length (c_buff c)) = BUFF → length (c_token c) = 32%nat → p < next_ptr s →
  lq_mobile r ≠ 0 → 1 ≤ lq_host_len r → (length (cstr (drop 18 (c_buff c))) < 32)%nat →
  CenterConnPool s = cn :: l → conns s !! cn = Some cc → cn ≠ p → o_send (sys s) = [] → HandleLoginReq p s = Ok (ret, s') →
  (∃ l1 l2, o_log (sys s') = l1 ++ IoSend (c_sock_fd cc) (frame (penc (MkReadTokenReq READ_TOKEN_REQ (c_sock_fd c)
     (lq_app r) (lq_mobile r) (lq_token r)))) :: l2) ∧
  ∀ c', conns s' !! p = Some c' → cstr (c_token c') = cstr (drop 18 (c_buff c)) ∧ 0 ∈ c_token c'.
Proof.
  intros Hc r Hbuf Htok Hp Hmob Hhost Hlen Hpool Hcc Hcn Ho H. unfold HandleLoginReq in H.
  rewrite (bind_run _ _ _ _ _ _ (conn_run _ _ _ Hc) eq_refl) in H. fold r in H.
  rewrite (bind_run _ _ _ _ _ _ (set_conn_run _ _ _ _ Hc) eq_refl) in H.
  destruct (copy_token (drop 18 (c_buff c)) (c_token c)) as [tok|] eqn:Et; [|done].
  destruct (copy_token_stored _ _ _ Et Hlen Htok) as [E0 E1].
  rewrite (bind_run _ _ _ _ _ _ (lift_run _ _ _ eq_refl) eq_refl) in H.
  set (c1 := c <| c_app := _ |> <| c_mobile := _ |> <| c_dest_port := _ |>) in H.
  rewrite (bind_run _ _ _ _ _ _ (set_conn_run _ _ _ _ (lookup_insert_eq _ _ _)) eq_refl) in H.
  destruct (Z.ltb_spec (host_end (lq_host_len r)) BUFF) as [Hend|]; [|inv_bind H; done].
  rewrite (bind_run _ _ _ _ _ _ (ret_run _ _) eq_refl) in H.
  rewrite (bind_run _ _ _ _ _ _ (set_conn_run _ _ _ _ (lookup_insert_eq _ _ _)) eq_refl) in H.
  rewrite (bind_run _ _ _ _ _ _ (conn_run _ _ _ (lookup_insert_eq _ _ _)) eq_refl) in H.
  set (c3 := c1 <| c_token := tok |> <| c_buff := _ |> <| c_curr_host := _ |>) in H.
  match type of H with _ ?x = _ => set (s3 := x) in H end.
  assert (conns s3 = <[p := c3]> (conns s) ∧ sys s3 = sys s ∧ next_ptr s3 = next_ptr s ∧ CenterConnPool s3 = CenterConnPool s) as (C3 & S3 & N3 & P3).
  { unfold s3. rsimpl. rewrite !insert_insert_eq. done. }
  assert (c_token c3 = tok ∧ c_sock_fd c3 = c_sock_fd c ∧ c_mobile c3 = lq_mobile r ∧ c_curr_host c3 = sub 54 (Z.to_nat (lq_host_len r)) (c_buff c)) as (T3 & F3 & M3 & H3) by done.
  clearbody s3 c3. rewrite M3, H3, (proj2 (Z.eqb_neq _ _) Hmob), (proj2 (Z.eqb_neq (Z.of_nat _) 0)) in H.
  2:{ unfold sub, host_end in *. rewrite length_take, length_drop. lia. }
  cbn [orb] in H. rewrite (bind_run _ _ _ _ _ _ (ret_run _ _) eq_refl) in H.
  rewrite (bind_run _ _ _ _ _ _ (pool0_run _ _ cn l ltac:(rewrite P3; exact Hpool)) eq_refl) in H.
  inv_bind H. assert (conns s3 !! cn = Some cc) as Hcc3 by (rewrite C3, lookup_insert_ne; done).
  apply SendTmsMsg_logged with (c := cc) in Hm as Hlog; [|done|by rewrite S3|].
  2:{ cbn [penc read_token_req_packed rq_msg_id rq_cid rq_app rq_mobile rq_token]. assert (length (lq_token r) ≤ 32)%nat by (unfold r; cbn; rewrite length_sub_le; lia).
      rewrite !length_app, !length_to_le. change HDR with 6. lia. }
  destruct Hlog as [l1 Hl1]. pose proof (token_SendTmsMsg _ _ _ _ _ Hm) as Ht1.
  match type of H with ?m s0 = _ => assert (keeps evolves m) as Hk by evolve; assert (keeps token_stable m) as Hk2 by tokens end.
  destruct (ev_log _ _ (Hk _ _ _ H)) as [l2 Hl2]. pose proof (Hk2 _ _ _ H) as Ht2. split.
  - exists (o_log (sys s)), (l1 ++ l2). rewrite Hl2, Hl1, S3, F3, <- app_assoc. done.
  - intros c' Hc'. destruct (proj2 (transitivity Ht1 Ht2) p c' ltac:(lia) Hc') as (c2 & Hc2 & ->).
    rewrite C3, lookup_insert_eq in Hc2. injection Hc2 as <-. rewrite T3. done.
Qed.
(** ** READ_TOKEN_REQ at the recorder, READ_TOKEN_RSP at the server *)

(** What the recorder reads of a query. *)
Lemma query_read fd app mob tok pad : in_u 64 fd → in_u 64 app → in_u 64 mob → length tok = 32%nat → 0 ∈ tok →
  let buf := penc (MkReadTokenReq READ_TOKEN_REQ fd app mob tok) ++ pad in
  pdec buf = MkReadTokenReq READ_TOKEN_REQ fd app mob tok ∧ cstr (Recorder.req_token buf) = cstr tok.
Proof.
  intros Hf Ha Hm Hl H0 buf. split; [apply pdec_enc; split_and!; try done; unfold READ_TOKEN_REQ; range_lia|].
  unfold Recorder.req_token, buf. cbn [penc read_token_req_packed rq_msg_id rq_cid rq_app rq_mobile rq_token].
  rewrite <- !app_assoc, !app_assoc, <- (app_assoc _ tok). rewrite drop_app_ge by len.
  replace (26 - _)%nat with 0%nat by len. rewrite drop_0. by apply cstr_app_in.
Qed.

(** What the server reads of an answer. *)
Lemma answer_read (rsp : ReadTokenRsp) rest : in_u 16 (rr_rsp_code rsp) → in_u 64 (rr_cid rsp) →
  let r : ReadTokenRsp := pdec (penc rsp ++ rest) in
  rr_rsp_code r = rr_rsp_code rsp ∧ rr_cid r = rr_cid rsp ∧ drop 36 (penc rsp ++ rest) = rr_token rsp ++ rest.
Proof.
  intros Hc Hi r. unfold r. cbn [pdec penc read_token_rsp_packed rr_rsp_code rr_cid]. unfold fld. rewrite <- !app_assoc. split_and!.
  - rewrite sub_skip by len. rewrite length_to_le. rewrite sub_here by len. by apply of_to_le_id.
  - rewrite !app_assoc, <- !app_assoc. rewrite sub_skip by len. rewrite length_to_le. rewrite sub_skip by len. rewrite length_to_le.
    rewrite sub_here by len. by apply of_to_le_id.
  - rewrite !app_assoc, <- (app_assoc _ (rr_token rsp)). rewrite drop_app_ge by len. replace (36 - _)%nat with 0%nat by len. apply drop_0.
Qed.
(** ** The login *)

Section Login.
Context {R : Type} `{!Recorder.Redis R} `{!Recorder.RedisDb R}.

(** Redis holds the token for the user, and enough balance. *)
Definition authorised (app mob : Z) (token : bytes) (r : R) : Prop :=
  Recorder.db r !! Recorder.auth_key mob app = Some (cstr token) ∧
  ∃ b, Recorder.balance_of mob app r = Some b ∧ 4000 ≤ b.

Lemma verdict_authorised app mob token (r : R) :
  let code := Recorder.verdict (Recorder.db r !! Recorder.auth_key mob app) (cstr token) (Recorder.balance_of mob app r) in
  (code = 0 ↔ authorised app mob token r) ∧ in_u 16 code.
Proof.
  intros code. unfold code, Recorder.verdict, authorised. destruct (Recorder.db r !! _) as [t|]; [|split; [split; [done|naive_solver]|split; [vm_compute; discriminate|reflexivity]]].
  destruct (bool_decide_reflect (cstr token = t)) as [<-|Hne]; cbn [negb].
  2:{ split; [split; [done|naive_solver]|split; [vm_compute; discriminate|reflexivity]]. }
  destruct (Recorder.balance_of mob app r) as [b|]; [|split; [split; [done|naive_solver]|split; [vm_compute; discriminate|reflexivity]]].
  destruct (Z.ltb_spec b 4000); (split; [|split; [vm_compute; discriminate|reflexivity]]); split; try done; [|naive_solver].
  intros (_ & b' & [= <-] & ?). lia.
Qed.

(** The client is let through. *)
Definition validated (p b : ptr) (r : result (Z * tms)) : Prop := ∃ s3 cl' x', r = Ok (0, s3) ∧
  conns s3 !! p = Some cl' ∧ c_sdk_verified cl' = 1 ∧ scbs s3 !! b = Some x' ∧ sb_status x' = u_validated.

(** The client and its stream are taken down. *)
Definition refused (p a b : ptr) (r : result (Z * tms)) : Prop := ∃ s3 x', r = Ok (0, s3) ∧
  conns s3 !! p = None ∧ conns s3 !! a = None ∧ scbs s3 !! b = Some x' ∧ sb_status x' = u_invalid.

(** The state of a server in which the answer [rsp] for client [p] has arrived on
    the connection [cn2]. *)
Definition answered (rsp : bytes) (fd : Z) (p cn2 : ptr) (s2 : tms) : Prop :=
  (∃ c2 rest, conns s2 !! cn2 = Some c2 ∧ c_buff c2 = rsp ++ rest) ∧ ConnMap s2 !! fd = Some p.

(** The token a client presented, as the server keeps it. *)
Definition keeps_token (token : bytes) (c : Connect) : Prop := cstr (c_token c) = cstr token ∧ 0 ∈ c_token c.

Lemma answer_decides app mob token (r : R) rsp fd p cn2 s2 : 0 ≤ fd < 2 ^ 31 →
  rr_cid rsp = fd → in_u 16 (rr_rsp_code rsp) → (rr_rsp_code rsp = 0 ↔ authorised app mob token r) →
  (rr_rsp_code rsp = 0 → 0 ∈ rr_token rsp ∧ cstr (rr_token rsp) = cstr token) → answered (penc rsp) fd p cn2 s2 →
  (authorised app mob token r → ∀ cl b u d x y dpi, client_ok s2 p cl b u d x y dpi → keeps_token token cl →
     validated p b (HandleReadTokenRsp cn2 s2)) ∧
  (¬ authorised app mob token r → ∀ a b u tc ac x y, stream_pair s2 p a b u tc ac x y → c_sock_fd tc < 2 ^ 31 →
     refused p a b (HandleReadTokenRsp cn2 s2)).
Proof.
  intros Hfd Hcid Hcode Hauth Htok [(c2 & rest & Hc2 & Hbuf) Hmap].
  destruct (answer_read rsp rest) as (Ec & Ei & Ed); [done|rewrite Hcid; range_lia|]. rewrite <- Hbuf in Ec, Ei, Ed.
  assert (u64 (i32 (rr_cid (pdec (c_buff c2)))) = fd) as Efd by (rewrite Ei, Hcid, swrap_id, wrap_id by range_lia; done).
  split.
  - intros Ha cl b u d x y dpi Hcl [Hk1 Hk0]. apply Hauth in Ha. destruct (Htok Ha) as [T0 T1].
    assert (0 ∈ drop 36 (c_buff c2)) as Hd0 by (rewrite Ed; set_solver).
    assert (cstr (drop 36 (c_buff c2)) = cstr (c_token cl)) as Hd1 by (rewrite Ed, cstr_app_in; congruence).
    destruct (token_validated_run s2 cn2 c2 p cl b u d x y dpi) as (s3 & cl' & x' & Hrun); [done|done|by rewrite Efd|by rewrite Ec|done..|].
    exists s3, cl', x'. done.
  - intros Hna a b u tc ac x y Hsp Hlt.
    destruct (token_rejected_run s2 cn2 c2 p a b u tc ac x y) as (s3 & Hrun & H1 & H2 & _ & _ & x' & Hx' & Hs & _); [done|done|done|by rewrite Efd| |].
    + left. rewrite Ec. tauto.
    + exists s3, x'. done.
Qed.

(** The login request in the receive buffer of the server. *)
Lemma login_received junk app mob token port hst msg rest : length junk = 512%nat → in_u 64 app → in_u 64 mob → strlen token < 32 →
  in_u 16 port → (length hst ≤ 458)%nat → SdkNet.login_msg junk app mob token port hst = Ok msg →
  let buf := msg ++ rest in let r : LoginReq := pdec buf in
  lq_app r = app ∧ lq_mobile r = mob ∧ lq_host_len r = Z.of_nat (length hst) ∧ length (lq_token r) = 32%nat ∧ 0 ∈ lq_token r ∧
  cstr (lq_token r) = cstr token ∧ cstr (drop 18 buf) = cstr token.
Proof.
  intros Hj Ha Hm Ht Hp Hh Hmsg buf r.
  destruct (SdkProps.login_msg_decodes junk app mob token port hst Hj Ha Hm Ht Hp Hh) as (msg' & E & Hl & (_ & E1 & E2 & E3 & _ & E5) & _).
  rewrite Hmsg in E. injection E as <-. assert (∀ off n, (off + n ≤ 54)%nat → sub off n buf = sub off n msg) as Hsub.
  { intros off n Hn. unfold sub, buf. rewrite drop_app_le by lia. rewrite take_app_le by (rewrite length_drop; lia). done. }
  assert (lq_token r = sub 18 32 msg) as Etok by (apply (Hsub 18%nat 32%nat); lia).
  assert (length (sub 18 32 msg) = 32%nat) as Hlt by (unfold sub; rewrite length_take, length_drop; lia).
  change (lq_token (pdec msg)) with (sub 18 32 msg) in E3. unfold strlen in Ht.
  assert (0 ∈ sub 18 32 msg) as Hz0.
  { destruct (decide (0 ∈ sub 18 32 msg)) as [|Hn]; [done|]. rewrite (cstr_id _ Hn) in E3. rewrite E3 in Hlt. lia. }
  rewrite Etok. split_and!; [..|done|done|done|].
  - change (fld 2 8 buf = app). unfold fld. rewrite Hsub by lia. exact E1.
  - change (fld 10 8 buf = mob). unfold fld. rewrite Hsub by lia. exact E2.
  - change (fld 52 2 buf = Z.of_nat (length hst)). unfold fld. rewrite Hsub by lia. exact E5.
  - rewrite <- E3. assert (drop 18 buf = sub 18 32 msg ++ drop 50 buf) as ->; [|by apply cstr_app_in].
    rewrite <- (Hsub 18%nat 32%nat) by lia. unfold sub. rewrite <- (take_drop 32 (drop 18 buf)) at 1. rewrite drop_drop. done.
Qed.

End Login.
(** ** A login *)

#[local] Existing Instance Recorder.store_redis.
#[local] Existing Instance Recorder.store_db.

Definition sys_login : bytes :=
  match SdkNet.login_msg (replicate 512 170) 7 13800000000 (bs "tok") 80 (bs "1.2.3.4") with Ok m => m | Bad _ => [] end.

Definition sys_tunnel : Connect :=
  Connect_new (sys_login ++ replicate 8131 0) <| c_sock_fd := 5 |> <| c_type := t_tunnel |> <| c_token := replicate 32 0 |>.
Definition sys_center : Connect := Connect_new [] <| c_sock_fd := 9 |> <| c_type := t_center |>.

Definition sys_start : tms :=
  tms_init (replicate 8192 0) false os_init <| Epoll_FD := 7 |> <| next_ptr := 10 |> <| conns := {[ 1 := sys_tunnel; 6 := sys_center ]} |>
  <| ConnMap := {[ 5 := 1; 9 := 6 ]} |> <| CenterConnPool := [6] |>.


End System.
